(* ===== verification/_CoqProject ===== *)
-Q . S2P
Prelude.v
Text.v
Model.v
Coordination.v
Transactions.v
Ephemeral.v
GcFence.v
Restart.v
Fencing.v
Claims.v
TxSafety.v
Inventory.v
Handlers.v
Recovery.v
RecoverySafety.v
HandlerSafety.v
Cluster.v
AgentNode.v
ClusterSafety.v
AgentPromises.v
Lifetimes.v
Plan.v
PlanExec.v
Alloc.v
Ipam.v
Limiter.v
Capacity.v
Affinity.v
Contract.v
Replicas.v
Attachments.v
Grading.v
GradeSched.v
Demand.v
Placer.v
PlaceSafety.v
Interior.v
Engine.v
Route.v
Canonical.v
Preserve.v
Restore.v
Replace.v
PreserveSafety.v
PruneSafety.v
Observe.v
EngineSafety.v
Redeploy.v
