(* ===== verification/Prelude.v ===== *)
(** * Twinet: a verification development of the control-plane core

    Twinet builds virtual Internets for networking courses. A controller
    expands a manifest into a topology, places its autonomous systems on
    cluster nodes, and deploys it through one agent per node. The agents keep
    the state that has to survive crashes and concurrent controllers: leases
    and fences, overlay claims, deployment transactions, lifetimes of
    disposable labs. On a node the deployment engine compares what should be
    there with what is, plans the difference, and must not lose what students
    configured. Around them are pure components the controller and the agents
    share: the plan executor, identifier allocation, the address plan,
    node-wide limits and capacity accounting. This library models that core
    of [src/internal] and proves what makes it correct.

    ** Files and the code they model

    - [Prelude] (this file): results, the state-and-error monad of the Go
      functions that mutate their receiver, its weakest preconditions [wp]
      and relational rules [mrel], Go map and slice idioms.
    - [Text]: Go's [strings] and [strconv] functions the other files use.
    - [Model]: the part of [model/topology.go] the agent reads.
    - [Coordination]: [agent/coordination.go], data and leases, fences,
      overlay claims. The receiver [*Server] is the record [Server]; the
      journal is a [Store] whose writes may be lost, one flag of [faults] per
      write; the kernel's overlay list is the parameter [Kernel]; clock
      readings and random tokens are arguments.
    - [Transactions]: the transactional half of [agent/coordination.go], the
      state-changing operations of [agent/recovery.go] and
      [restoreOverlayClaims] of [agent/apply_transaction.go].
    - [Ephemeral]: [agent/ephemeral.go], [agent/hold.go] and the operation
      slot of [agent/agent.go].
    - [GcFence]: [agent/gc_fence.go] and two functions of [agent/gc.go].
    - [Restart]: [loadCoordination], the migration of legacy records and
      [rehydrate]; [restart] composes them into the crash step, with the reads
      of the store that fail ([Reads]) as an argument.
    - [Fencing], [Claims], [TxSafety], [Lifetimes]: theorems on the agent.
    - [Inventory]: what a transaction owns on a node, of [agent/recovery.go]
      and [agent/apply_transaction.go].
    - [Handlers]: the phases of [agent/apply_transaction.go] and [handleApply]
      of [agent/agent.go], with [agent/solve_transition.go],
      [agent/semantic_recovery.go] and parts of [agent/durability.go];
      [Recovery]: the rest of [agent/recovery.go]; [RecoverySafety] and
      [HandlerSafety] their theorems.
    - [Cluster]: [client/coordination.go], [client/recovery.go] and
      [client/split_commit.go] against a class of agents; [AgentNode]: the
      agent as such a node, behind a network that loses requests and answers;
      [ClusterSafety] and [AgentPromises]: the laws of an agent, what follows
      for a cluster, and that the agent keeps the laws.
    - [Plan], [PlanExec]: [plan/plan.go], the graph and [Execute].
    - [Alloc]: [alloc/alloc.go].
    - [Ipam]: [ipam/plan.go] and [ipam/funcs.go] on parsed prefixes.
    - [Limiter]: [limiter/limiter.go].
    - [Capacity]: [place/resources.go], the capacity state of
      [place/admission.go], [place/schedule.go].
    - [Affinity]: the graph and [refine] of [place/affinity.go].
    - [Contract]: [contract/version.go].
    - [Replicas]: names, policies and selection of service replicas, of
      [service/replicas.go], [model/service_selection.go], [model/lab.go] and
      [expandServiceReplicas] of [expand/expand.go].
    - [Attachments]: the rewiring of service cables of
      [service/replicas.go] on the topology graph.
    - [Grading]: the scoring rules, class summary and gradebook of
      [grade/rubric.go] and [grade/report.go].
    - [GradeSched]: [grade/scheduler.go].
    - [Demand]: what a device requests and is charged: [runtime/memory.go],
      the requests of [model/lab.go] and [place/resources.go].
    - [Placer]: [Place] of [place/place.go] with [place/groups.go],
      [place/services.go], [orderForLocality] and [bestForLocality], and the
      admission checks of [place/admission.go]; [PlaceSafety] its theorems.
    - [Interior]: [model/interior.go] and [expand/interior.go].
    - [Engine]: the data of [internal/deploy] and the observation record of
      [deploy/observe.go]. [Route]: [deploy/route.go], with the parts of
      [net/netip] it decides by. [Canonical]: the canonical form of dynamic
      state and its replays, of [deploy/preserve.go]. [Preserve]: the capture
      funnel of [deploy/preserve.go] and [deploy/namespace_generation.go].
      [Restore]: [Restore] of [deploy/preserve.go]. [Replace]:
      the operations of [deploy/engine.go] that destroy containers, with
      [deploy/orphan_preservation.go] and [deploy/prune_collision.go].
      [PreserveSafety] and [PruneSafety] their theorems.
    - [Observe]: [observeNode] of [deploy/observe.go], [BuildContext] of
      [deploy/engine.go] and what each step records; [EngineSafety] and
      [Redeploy] the theorems.

    ** How the parts interact

    Every mutation of a lab first obtains a fence from [Coordination]; every
    fenced operation starts with [fenceErrorLocked]. [Transactions] runs
    under a fence and journals through the same [saveCoordinationLocked];
    [Ephemeral]'s reclamation takes a recovery fence, the operation slot and
    then [finishDestroyedLab]; [GcFence] and [reserveOverlays] exclude each
    other through [gcCollecting]. [Fencing.step] is the transition system of
    one agent: an issued fence, any other operation ([quietOp]), or a crash
    and restart on the same store. The deployment that an applied
    transaction performs is the [Plan] that [Observe.BuildContext] makes of the
    difference between topology and node, executed by [PlanExec] with workers
    bounded by [Limiter]; its create steps run [Replace.ensureContainer], which
    captures through [Preserve.storeCaptured] before it replaces and replays
    what is saved through [Restore.Restore]; captures and replays go through
    the canonical form of [Canonical], whose routes are those of [Route]. A node's
    handlers ([Handlers], [Recovery]) drive [Transactions] through its phases;
    the controller of [Cluster] drives the handlers of all nodes through the
    class [Agent], whose laws [AgentPromises] discharges for the agent of
    [AgentNode]. A deployment's links carry identifiers of [Alloc] and
    addresses of [Ipam]; [Capacity] decides what fits a node. [Interior]
    generates the routers and links of an AS and its placement groups;
    [Placer] assigns ASes, groups and service replicas to nodes by the
    demands of [Demand], the capacities of [Capacity] and the locality of
    [Affinity], and hands the services to [Attachments]. [Contract] is
    what a controller and a node check before they talk. [Attachments] wires
    the replicas [Replicas] chooses, and gives the links identifiers of
    [Alloc]. [GradeSched] runs the checks of a rubric and hands their results
    to the scoring rules of [Grading].

    ** What the theorems show

    - Fencing: generations only grow, across crashes and lost writes, as long
      as every restart can read the journal (one that cannot goes on with an
      empty journal, [Fencing.illegible_journal_forgets]); an accepted fence is
      the one issued last and was issued after the last restart.
    - Claims: an identifier under collection is claimed by nobody, unless a
      rollback wrote a claim on it back; labs do
      not disturb each other's claims; what a granted reservation gives and
      that a refused one takes nothing.
    - Transactions: the operations refine a small abstract machine whose
      moves carry labels ([TxSafety.txTrans]), each operation by the moves
      [TxSafety.opMove] allows it; a prepared generation always has its record; a
      commit is durable, follows an apply under the same fence and replaces
      the expected generation; lost writes of finalize and destroy change
      nothing.
    - Handlers and recovery: a commit is acknowledged only when the node was
      observed to be the recorded inventory; a rollback that succeeds restored
      the state before the deployment and one that fails never forgets how; a
      forward recovery reaches the requested generation; a prepare records
      what its prune may remove.
    - Cluster: a deployment or a recovery that reports success left every node
      settled at one generation, whatever requests and answers were lost; a
      failure reported as committed is one; a split commit is recognised and
      resolved; a commit that was never finalized is stranded.
    - Student work: a container is removed, by a replacement or a prune, only
      after every part of what it held was read out of it and stored, or shown to
      be stored already, or shown to be no longer there; a reading of a network namespace is stored
      only when the namespace was proven to be the one the saved state came
      out of and neither the engine nor the container's marker says that a
      restore is owed; a restore that succeeds replayed everything that is saved in
      the device's container, in the order the kernel needs, and a routing
      configuration that could not be loaded is asked to be removed. The runtime and the store may answer anything at any time.
    - Routes and snapshots: a route read from the kernel and written down reads
      back as the same route unless its spelling is ambiguous; the order of
      equal-cost paths does not matter; a canonical snapshot is its own
      canonical form; every captured address and route that can be asked for is
      among the commands of the replay and no other is.
    - Deployment plans: a plan that is built is valid; a namespace that moved is
      built again with its links and its neighbours; every device of a student
      that a plan touches is captured; a plan that ran to its end leaves a
      record with which the next plan is empty.
    - Lifetimes: disposable labs are bounded by a ceiling that no operation
      moves; what heartbeats, reclamation
      and holds do on every path.
    - Plans: [Validate] decides closure, acyclicity and stage order;
      [Restrict] keeps closures; the scheduler starts a step only after each
      prerequisite reported, in the trace of the execution, a result that did
      not fail, never deadlocks and finishes under every completion order; the report is
      exact.
    - Identifiers, addresses: uniqueness, order-independence, privacy between
      labs, termination of probing, name lengths; the overlap sweep equals
      the quadratic comparison; subnets are disjoint blocks.
    - Limits, capacity: the configured budgets hold under every interleaving and ordered
      acquisition makes progress; admission respects every declared and live
      bound; waves are capacity-safe; the local search over placements only
      improves them.
    - Placement: a strict placement overloads no node in any dimension and
      uses only known, available nodes of the pool; what was placed with
      every node available is
      admitted again by the check a client runs before it deploys; under
      every strategy but the single-node one, pins and recorded locations are kept through greedy pass, local search and
      splitting; a refusal leaves the topology as it was; the locality order
      is a permutation.
    - Interiors: a valid declaration compiles to a simple graph with distinct
      router names and consecutive IDs; rings and fabrics are connected;
      placement groups partition an AS.
    - Versions: parsing inverts printing; compatibility is mutual acceptance.
    - Services: rendezvous selection moves only what has to move, selection
      fails closed and prefers the AS's own node, the planned and the
      health-aware choice agree when every replica is healthy; after a
      reconciliation each eligible AS has one cable, and a service without a
      healthy replica leaves the graph alone.
    - Grading: checks that share a probe resource never overlap and the pool
      widths hold in every interleaving; every run ends with each result in
      its own place, so the report does not depend on the schedule; what
      could not be assessed weighs nothing and is held for review; rubric
      dependencies gate marks; the gradebook reads back and quarantined
      reports carry no mark.
    - Several theorems state, on concrete inputs, behaviour that differs from
      what the code's comments intend (lost commits and recoveries, rollback
      claims, a failed forget, an unlimited dimension under a reserve,
      negative subnet indices, sharded attachments under a health pass, long
      service names, a question nothing of which was assessed, a drained front
      node, the hub of a ring, drift on a committed generation, a dry run that
      marks a generation applied, a commit never finalized, an unknown route field
      beside an encapsulation, a journal that cannot be read).

    ** Bounds and fuel

    [findCycle] recurses with the number of steps as fuel, which
    [validate_correct] proves enough; [Restrict] with one more than that,
    proved enough by [restrict_keeps_closure]. The probe loops of [Alloc] are
    unbounded in the source and depend on the hash; the fuel bounds the
    salts, [probing_terminates] says when it suffices and that it does not
    change the result. Executions of [Limiter] and [PlanExec] have proved
    step bounds. The frontier of [orderForLocality] grows with the number of
    waiting ASes as fuel, which [orderForLocality_permutes] proves enough.
    [Place]'s fuel bounds the search for a free interface name of
    [Attachments]. The inventory of a commit is retried three times, the
    namespace of a configured device and of a control sidecar five times, the
    reset of dynamic state four times, as in the code; a wait for a routing
    daemon polls at most 121 times, the ticks of its thirty seconds, and less when
    the host says that the time is over; joining a recovery recurses on the list of what its wait selects.
    Pools and fan-outs run their items in order, each of which the host may
    answer as it likes. [uint64] generations wrap: the fencing theorems assume fewer
    than 2^64 steps. Durations and instants are unbounded nanoseconds.

    ** Not modelled

    Host I/O: the runtime clients, netlink, overlay devices, files and HTTP,
    whose answers are arguments; the state store's files; the reconcile loop
    and the replication of state between agents; the construction of runtime
    specifications, rendering, and the execution of rendered commands; grading
    checks and what they read from routers; loading, validation and expansion
    of manifests apart from interiors and service replicas; JSON encodings; the
    command line. These are I/O against systems this library has no model of,
    or text generation whose correctness is that of the system reading it. *)

From stdpp Require Import base gmap strings list fin_maps sorting.
From Stdlib Require Import ZArith Lia Ascii.

(** ** Machine integers and clock values *)

(** [uint64] and [uint32] arithmetic wraps around; Go's [int] is 64 bits. *)
Definition wrap64 (n : Z) : Z := n mod 2 ^ 64.
Definition wrap32 (n : Z) : Z := n mod 2 ^ 32.

(** [time.Time] and [time.Duration], both in nanoseconds. The instant 0 is
    Go's zero [time.Time]. *)
Abbreviation Time := Z (only parsing).
Abbreviation Duration := Z (only parsing).
Definition second : Duration := 1000000000%Z.
Definition isZero (t : Time) : bool := (t =? 0)%Z.
(** [now.Before(t)]. *)
Definition before (now t : Time) : bool := (now <? t)%Z.

Lemma wrap64_small n : (0 <= n < 2 ^ 64)%Z -> wrap64 n = n.
Proof. intros. by apply Z.mod_small. Qed.

Lemma wrap64_range n : (0 <= wrap64 n < 2 ^ 64)%Z.
Proof. apply Z.mod_pos_bound. lia. Qed.

Lemma wrap32_range n : (0 <= wrap32 n < 2 ^ 32)%Z.
Proof. apply Z.mod_pos_bound. lia. Qed.

(** ** Results and the state-and-error monad

    A Go function that returns [(T, error)] and mutates its receiver is a
    function [S -> S * result E T]: an error return keeps the mutations that
    were made before it. *)

Inductive result (E A : Type) : Type :=
| Ok (a : A)
| Err (e : E).
Arguments Ok {E A} a.
Arguments Err {E A} e.

Definition is_ok {E A} (r : result E A) : bool :=
  match r with Ok _ => true | Err _ => false end.

Definition SE (S E A : Type) : Type := S -> S * result E A.

#[export] Instance SE_ret S E : MRet (SE S E) := fun A a s => (s, Ok a).
#[export] Instance SE_bind S E : MBind (SE S E) := fun A B k m s =>
  match m s with
  | (s', Ok a) => k a s'
  | (s', Err e) => (s', Err e)
  end.

Definition fail {S E A} (e : E) : SE S E A := fun s => (s, Err e).
Definition get {S E} : SE S E S := fun s => (s, Ok s).
Definition gets {S E A} (f : S -> A) : SE S E A := fun s => (s, Ok (f s)).
Definition modify {S E} (f : S -> S) : SE S E unit := fun s => (f s, Ok tt).
Definition lift {S E A} (r : result E A) : SE S E A := fun s => (s, r).
(** A check of the state that may refuse but changes nothing. *)
Definition inspect {S E A} (f : S -> result E A) : SE S E A := fun s => (s, f s).
(** [if cond { return err }]. *)
Definition refuse {S E} (cond : bool) (e : E) : SE S E unit :=
  if cond then fail e else mret tt.
(** [if cond { ... }]. *)
Definition when {S E} (cond : bool) (m : SE S E unit) : SE S E unit :=
  if cond then m else mret tt.
(** [if err := m; err != nil { handler(err) }]. *)
Definition try_catch {S E A} (m : SE S E A) (handler : E -> SE S E A) : SE S E A :=
  fun s => match m s with
           | (s', Ok a) => (s', Ok a)
           | (s', Err e) => handler e s'
           end.
(** [_ = m]: the error is dropped. *)
Definition ignore {S E A} (m : SE S E A) : SE S E unit :=
  fun s => ((m s).1, Ok tt).
(** [err := m], kept to be looked at later: did it succeed? *)
Definition attempt {S E A} (m : SE S E A) : SE S E bool :=
  fun s => ((m s).1, Ok (is_ok (m s).2)).

(** The state and the value after running a computation. *)
Definition final {S E A} (m : SE S E A) (s : S) : S := (m s).1.
Definition value {S E A} (m : SE S E A) (s : S) : result E A := (m s).2.

Lemma final_get_bind {S E A} (k : S -> SE S E A) s : final (get ≫= k) s = final (k s) s.
Proof. done. Qed.
Lemma final_modify_bind {S E A} f (k : unit -> SE S E A) s :
  final (modify f ≫= k) s = final (k tt) (f s).
Proof. done. Qed.

Lemma bind_ok {S E A B} (m : SE S E A) (k : A -> SE S E B) s s' a :
  m s = (s', Ok a) -> (m ≫= k) s = k a s'.
Proof. unfold mbind, SE_bind. by intros ->. Qed.
Lemma bind_err {S E A B} (m : SE S E A) (k : A -> SE S E B) s s' e :
  m s = (s', Err e) -> (m ≫= k) s = (s', Err e).
Proof. unfold mbind, SE_bind. by intros ->. Qed.
Lemma bind_ok_inv {S E A B} (m : SE S E A) (k : A -> SE S E B) s s' b :
  (m ≫= k) s = (s', Ok b) -> exists s1 a, m s = (s1, Ok a) /\ k a s1 = (s', Ok b).
Proof. unfold mbind, SE_bind. destruct (m s) as [s1 [a|e]]; [eauto|done]. Qed.
Lemma lift_run {S E A} (r : result E A) (s : S) : lift r s = (s, r).
Proof. done. Qed.
Lemma refuse_run {S E} b (e : E) (s : S) :
  refuse b e s = (s, if b then Err e else Ok tt).
Proof. by destruct b. Qed.
Lemma run_value {S E A} (m : SE S E A) s : m s = (final m s, value m s).
Proof. unfold final, value. by destruct (m s). Qed.
Lemma run_eq {S E A} (m : SE S E A) s r : value m s = r -> m s = (final m s, r).
Proof. intros <-. apply run_value. Qed.

(** ** A weakest precondition for the monad *)

Definition wp {S E A} (m : SE S E A) (Q : S -> result E A -> Prop) (s : S) : Prop :=
  Q (m s).1 (m s).2.

Section WP.
Context {S E : Type}.
Implicit Types (s : S) (e : E).

Lemma wp_ret {A} (a : A) (Q : S -> result E A -> Prop) s :
  Q s (Ok a) -> wp (mret a) Q s.
Proof. done. Qed.

Lemma wp_bind {A B} (m : SE S E A) (k : A -> SE S E B) Q s :
  wp m (fun s' r => match r with
                    | Ok a => wp (k a) Q s'
                    | Err e => Q s' (Err e)
                    end) s ->
  wp (m ≫= k) Q s.
Proof.
  unfold wp, mbind, SE_bind. by destruct (m s) as [s' [a|e]].
Qed.

Lemma wp_fail {A} e (Q : S -> result E A -> Prop) s :
  Q s (Err e) -> wp (fail e) Q s.
Proof. done. Qed.

Lemma wp_get (Q : S -> result E S -> Prop) s : Q s (Ok s) -> wp get Q s.
Proof. done. Qed.

Lemma wp_gets {A} (f : S -> A) (Q : S -> result E A -> Prop) s :
  Q s (Ok (f s)) -> wp (gets f) Q s.
Proof. done. Qed.

Lemma wp_modify f (Q : S -> result E unit -> Prop) s :
  Q (f s) (Ok tt) -> wp (modify f) Q s.
Proof. done. Qed.

Lemma wp_lift {A} (r : result E A) (Q : S -> result E A -> Prop) s :
  Q s r -> wp (lift r) Q s.
Proof. done. Qed.

Lemma wp_inspect {A} (f : S -> result E A) (Q : S -> result E A -> Prop) s :
  Q s (f s) -> wp (inspect f) Q s.
Proof. done. Qed.

Lemma wp_refuse b e (Q : S -> result E unit -> Prop) s :
  (b = true -> Q s (Err e)) -> (b = false -> Q s (Ok tt)) ->
  wp (refuse b e) Q s.
Proof. destruct b; unfold wp; simpl; auto. Qed.

Lemma wp_when b (m : SE S E unit) Q s :
  (b = true -> wp m Q s) -> (b = false -> Q s (Ok tt)) -> wp (when b m) Q s.
Proof. destruct b; unfold wp; simpl; auto. Qed.

Lemma wp_try_catch {A} (m : SE S E A) h Q s :
  wp m (fun s' r => match r with
                    | Ok a => Q s' (Ok a)
                    | Err e => wp (h e) Q s'
                    end) s ->
  wp (try_catch m h) Q s.
Proof.
  unfold wp, try_catch. by destruct (m s) as [s' [a|e]].
Qed.

Lemma wp_ignore {A} (m : SE S E A) (Q : S -> result E unit -> Prop) s :
  wp m (fun s' _ => Q s' (Ok tt)) s -> wp (ignore m) Q s.
Proof. done. Qed.

Lemma wp_attempt {A} (m : SE S E A) (Q : S -> result E bool -> Prop) s :
  wp m (fun s' r => Q s' (Ok (is_ok r))) s -> wp (attempt m) Q s.
Proof. done. Qed.

Lemma wp_run {A} (m : SE S E A) (Q : S -> result E A -> Prop) s s' r :
  m s = (s', r) -> Q s' r -> wp m Q s.
Proof. unfold wp. by intros ->. Qed.

Lemma wp_mono {A} (m : SE S E A) (P Q : S -> result E A -> Prop) s :
  wp m P s -> (forall s' r, P s' r -> Q s' r) -> wp m Q s.
Proof. unfold wp. auto. Qed.
End WP.

(** Runs the symbolic execution of a computation as far as it is syntax
    directed; [case_match] is left to the caller. *)
Ltac wp_step :=
  match goal with
  | |- wp (mbind _ _) _ _ => apply wp_bind
  | |- wp (mret _) _ _ => apply wp_ret
  | |- wp (fail _) _ _ => apply wp_fail
  | |- wp get _ _ => apply wp_get
  | |- wp (gets _) _ _ => apply wp_gets
  | |- wp (modify _) _ _ => apply wp_modify
  | |- wp (lift _) _ _ => apply wp_lift
  | |- wp (inspect _) _ _ => apply wp_inspect
  | |- wp (refuse _ _) _ _ => apply wp_refuse; intros
  | |- wp (when _ _) _ _ => apply wp_when; intros
  | |- wp (try_catch _ _) _ _ => apply wp_try_catch
  | |- wp (ignore _) _ _ => apply wp_ignore
  | |- wp (attempt _) _ _ => apply wp_attempt
  end.
Ltac wp_steps := repeat (wp_step; cbn beta iota).

(** ** Relating the states before and after

    [mrel R m]: whatever [m] returns, the state it leaves is [R]-related to
    the one it started from. For a preorder [R] this is compositional. *)

Definition mrel {S E A} (R : S -> S -> Prop) (m : SE S E A) : Prop :=
  forall s, R s (final m s).

Section MRel.
Context {S E : Type} (R : S -> S -> Prop) `{!PreOrder R}.

Lemma mrel_ret {A} (a : A) : mrel R (mret a : SE S E A).
Proof. intros s. reflexivity. Qed.

Lemma mrel_bind {A B} (m : SE S E A) (k : A -> SE S E B) :
  mrel R m -> (forall a, mrel R (k a)) -> mrel R (m ≫= k).
Proof.
  intros Hm Hk s. specialize (Hm s). unfold final, mbind, SE_bind in *.
  destruct (m s) as [s' [a|e]]; simpl in *; [|done].
  etransitivity; [done|]. apply (Hk a s').
Qed.

Lemma mrel_ret_bind {A B} (a : A) (k : A -> SE S E B) :
  mrel R (k a) -> mrel R (mret a ≫= k).
Proof. done. Qed.

Lemma mrel_fail {A} (e : E) : mrel R (fail e : SE S E A).
Proof. intros s. reflexivity. Qed.

Lemma mrel_get : mrel R (get : SE S E S).
Proof. intros s. reflexivity. Qed.

(** A computation that looks at the state it is about to change. *)
Lemma mrel_get_bind {B} (k : S -> SE S E B) :
  (forall s, R s (final (k s) s)) -> mrel R (get ≫= k).
Proof. intros Hk s. apply Hk. Qed.

Lemma mrel_modify_then {B} f (rest : unit -> SE S E B) s :
  R s (f s) -> (forall u, mrel R (rest u)) -> R s (final (modify f ≫= rest) s).
Proof. intros Hf Hr. etransitivity; [done|]. apply (Hr tt (f s)). Qed.

Lemma mrel_gets {A} (f : S -> A) : mrel R (gets f : SE S E A).
Proof. intros s. reflexivity. Qed.

Lemma mrel_lift {A} (r : result E A) : mrel R (lift r : SE S E A).
Proof. intros s. reflexivity. Qed.

Lemma mrel_inspect {A} (f : S -> result E A) : mrel R (inspect f : SE S E A).
Proof. intros s. reflexivity. Qed.

Lemma mrel_modify f : (forall s, R s (f s)) -> mrel R (modify f : SE S E unit).
Proof. intros Hf s. apply Hf. Qed.

Lemma mrel_refuse b (e : E) : mrel R (refuse b e : SE S E unit).
Proof. destruct b; intros s; reflexivity. Qed.

Lemma mrel_when b (m : SE S E unit) : mrel R m -> mrel R (when b m).
Proof. destruct b; [done|]. intros _ s. reflexivity. Qed.

Lemma mrel_try_catch {A} (m : SE S E A) h :
  mrel R m -> (forall e, mrel R (h e)) -> mrel R (try_catch m h).
Proof.
  intros Hm Hh s. specialize (Hm s). unfold final, try_catch in *.
  destruct (m s) as [s' [a|e]]; simpl in *; [done|].
  etransitivity; [done|]. apply (Hh e s').
Qed.

Lemma mrel_ignore {A} (m : SE S E A) : mrel R m -> mrel R (ignore m).
Proof. intros Hm s. apply Hm. Qed.

Lemma mrel_attempt {A} (m : SE S E A) : mrel R m -> mrel R (attempt m).
Proof. intros Hm s. apply Hm. Qed.
End MRel.

(** [mrel_steps] decomposes a computation and leaves its state updates. *)
Ltac mrel_step :=
  match goal with
  | |- mrel _ (mret _ ≫= _) => apply mrel_ret_bind
  | |- mrel _ (mbind _ _) => apply mrel_bind; [apply _| |intros]
  | |- mrel _ (mret _) => apply mrel_ret; apply _
  | |- mrel _ (fail _) => apply mrel_fail; apply _
  | |- mrel _ get => apply mrel_get; apply _
  | |- mrel _ (gets _) => apply mrel_gets; apply _
  | |- mrel _ (lift _) => apply mrel_lift; apply _
  | |- mrel _ (inspect _) => apply mrel_inspect; apply _
  | |- mrel _ (modify _) => apply mrel_modify; intros
  | |- mrel _ (refuse _ _) => apply mrel_refuse; apply _
  | |- mrel _ (when false _) => apply mrel_ret; apply _
  | |- mrel _ (when _ _) => apply mrel_when; [apply _|]
  | |- mrel _ (try_catch _ _) => apply mrel_try_catch; [apply _| |intros]
  | |- mrel _ (ignore _) => apply mrel_ignore
  | |- mrel _ (attempt _) => apply mrel_attempt
  | |- mrel _ (match ?x with _ => _ end) => destruct x eqn:?
  | |- mrel _ (if ?b then _ else _) => destruct b eqn:?
  end.
Ltac mrel_steps := repeat (cbn beta zeta; mrel_step).

(** The head constant of an application. *)
Ltac head_of t := match t with ?f _ => head_of f | _ => t end.

(** The relation "this part of the state is left alone". *)
Definition unchanged {S T} (f : S -> T) (s s' : S) : Prop := f s' = f s.
#[export] Instance unchanged_preorder {S T} (f : S -> T) : PreOrder (unchanged f).
Proof. split; [by intros s|]. intros s1 s2 s3. unfold unchanged. congruence. Qed.

(** The relation "this property is kept". *)
Definition kept {S} (P : S -> Prop) (s s' : S) : Prop := P s -> P s'.
#[export] Instance kept_preorder {S} (P : S -> Prop) : PreOrder (kept P).
Proof. split; unfold kept; repeat intro; auto. Qed.

(** ** Loops *)

(** A property every iteration keeps holds at the end of the loop. *)
Lemma fold_left_inv {A B} (P : A -> Prop) (f : A -> B -> A) (l : list B) (a : A) :
  P a -> (forall a x, x ∈ l -> P a -> P (f a x)) -> P (fold_left f l a).
Proof.
  revert a. induction l as [|x l IH]; intros a Ha Hf; simpl; [done|].
  apply IH; [apply Hf; [left|done]|]. intros b y Hy. apply Hf. by right.
Qed.

(** ** Sorted, duplicate-free key lists

    [sort.Strings] and [sort.Ints] order by a total, antisymmetric relation,
    so their result is the unique sorted permutation, which [merge_sort]
    computes. *)

Definition sortStrings (l : list string) : list string := merge_sort String.le l.
Definition sortInts (l : list Z) : list Z := merge_sort Z.le l.

(** The [seen map] idiom: keep the first occurrence of every element. *)
Fixpoint dedup_from {A} `{EqDecision A} (seen l : list A) : list A :=
  match l with
  | [] => []
  | x :: l => if decide (x ∈ seen) then dedup_from seen l
              else x :: dedup_from (x :: seen) l
  end.
Definition dedup {A} `{EqDecision A} (l : list A) : list A := dedup_from [] l.

Section Dedup.
Context {A : Type} `{EqDecision A}.
Implicit Types l seen : list A.

Lemma elem_of_dedup_from seen l x :
  x ∈ dedup_from seen l <-> x ∈ l /\ x ∉ seen.
Proof.
  revert seen. induction l as [|y l IH]; intros seen; simpl; [set_solver|].
  case_decide; rewrite ?elem_of_cons, IH, ?elem_of_cons;
    destruct (decide (x = y)); set_solver.
Qed.

Lemma elem_of_dedup l x : x ∈ dedup l <-> x ∈ l.
Proof. unfold dedup. rewrite elem_of_dedup_from. set_solver. Qed.

Lemma NoDup_dedup_from seen l : NoDup (dedup_from seen l).
Proof.
  revert seen. induction l as [|y l IH]; intros seen; simpl; [constructor|].
  case_decide; [done|]. constructor; [|done].
  rewrite elem_of_dedup_from. set_solver.
Qed.

Lemma NoDup_dedup l : NoDup (dedup l).
Proof. apply NoDup_dedup_from. Qed.
End Dedup.

Lemma elem_of_sortInts l x : x ∈ sortInts l <-> x ∈ l.
Proof. unfold sortInts. by rewrite merge_sort_Permutation. Qed.

Lemma elem_of_sortStrings l x : x ∈ sortStrings l <-> x ∈ l.
Proof. unfold sortStrings. by rewrite merge_sort_Permutation. Qed.

Lemma NoDup_sortInts l : NoDup l -> NoDup (sortInts l).
Proof. unfold sortInts. by rewrite merge_sort_Permutation. Qed.

Lemma NoDup_sortStrings l : NoDup l -> NoDup (sortStrings l).
Proof. unfold sortStrings. by rewrite merge_sort_Permutation. Qed.

(** [strings.ToLower] and [strings.TrimSpace] on ASCII text. *)
Definition lowerAscii (c : ascii) : ascii :=
  let n := N_of_ascii c in
  if (65 <=? n)%N && (n <=? 90)%N then ascii_of_N (n + 32) else c.
Definition isSpace (c : ascii) : bool :=
  let n := N_of_ascii c in (n =? 32)%N || ((9 <=? n)%N && (n <=? 13)%N).

Fixpoint toLower (s : string) : string :=
  match s with
  | EmptyString => EmptyString
  | String c s => String (lowerAscii c) (toLower s)
  end.
Fixpoint trimLeft (s : string) : string :=
  match s with
  | String c s' => if isSpace c then trimLeft s' else s
  | EmptyString => s
  end.
Definition trimSpace (s : string) : string := String.rev (trimLeft (String.rev (trimLeft s))).

(** [strings.HasPrefix]. *)
Definition hasPrefix (s p : string) : bool := String.prefix p s.

(** The zero value a Go map read yields for an absent key. *)
Definition lookup_or {K V} `{Countable K} (d : V) (m : gmap K V) (k : K) : V :=
  default d (m !! k).

(** [for k, v := range m { if drop(k, v) { delete(m, k) } }]. *)
Definition map_drop {K V} `{Countable K} (drop : K -> V -> bool) (m : gmap K V) : gmap K V :=
  filter (fun kv => drop kv.1 kv.2 = false) m.

(** [for k, v := range m { if cond(k, v) { m[k] = f(v) } }]. *)
Definition map_touch {K V} `{Countable K} (cond : K -> V -> bool) (f : V -> V)
    (m : gmap K V) : gmap K V :=
  map_imap (fun k v => Some (if cond k v then f v else v)) m.

(** [exists] over a Go map: the loop that sets a flag. *)
Definition map_any {K V} `{Countable K} (p : K -> V -> bool) (m : gmap K V) : bool :=
  existsb (fun kv => p kv.1 kv.2) (map_to_list m).

Section MapLoops.
Context {K V : Type} `{Countable K}.
Implicit Types (m : gmap K V).

Lemma lookup_map_drop_Some drop m k v :
  map_drop drop m !! k = Some v <-> m !! k = Some v /\ drop k v = false.
Proof. unfold map_drop. by rewrite map_lookup_filter_Some. Qed.

Lemma lookup_map_drop_None drop m k :
  map_drop drop m !! k = None <->
  m !! k = None \/ exists v, m !! k = Some v /\ drop k v = true.
Proof.
  unfold map_drop. rewrite map_lookup_filter_None. simpl. split.
  - intros [?|Hd]; [by left|]. destruct (m !! k) as [v|] eqn:E; [|by left].
    right. exists v. split; [done|]. specialize (Hd v eq_refl).
    by destruct (drop k v).
  - intros [?|(v & Hv & Hd)]; [by left|]. right. intros v' ?.
    simplify_eq. by rewrite Hd.
Qed.

Lemma lookup_map_touch cond f m k :
  map_touch cond f m !! k = (fun v => if cond k v then f v else v) <$> m !! k.
Proof. unfold map_touch. rewrite map_lookup_imap. by destruct (m !! k). Qed.

Lemma map_any_true p m :
  map_any p m = true <-> exists k v, m !! k = Some v /\ p k v = true.
Proof.
  unfold map_any. rewrite existsb_exists. split.
  - intros ([k v] & Hin & Hp). apply list_elem_of_In, elem_of_map_to_list in Hin. eauto.
  - intros (k & v & Hl & Hp). exists (k, v). split; [|done].
    by apply list_elem_of_In, elem_of_map_to_list.
Qed.
End MapLoops.

Create HintDb twinet.
#[export] Hint Resolve NoDup_dedup NoDup_sortInts NoDup_sortStrings : twinet.
