(* ===== verification/Text.v ===== *)
(** * Text: the string operations the components share

    The parts of Go's [strings] and [strconv] packages that versions, service
    names and selectors are read with: [TrimPrefix], [Cut], [Split], [Contains]
    and [Atoi], on ASCII text, with the decimal printer [%d] they are round
    trips of. *)

From stdpp Require Import base gmap strings list sorting pretty.
From Stdlib Require Import ZArith Lia Ascii.
From S2P Require Import Prelude.

Open Scope Z_scope.

(** [strings.TrimPrefix(s, string(c))]. *)
Definition trimPrefixByte (c : ascii) (s : string) : string :=
  match s with
  | String d s' => if decide (c = d) then s' else s
  | EmptyString => s
  end.

(** [before, after, found := strings.Cut(s, string(c))]. *)
Fixpoint cut (c : ascii) (s : string) : string * option string :=
  match s with
  | EmptyString => (EmptyString, None)
  | String d s' => if decide (c = d) then (EmptyString, Some s')
                   else let '(a, b) := cut c s' in (String d a, b)
  end.

(** [strings.Split(s, string(c))]: never empty. *)
Fixpoint split (c : ascii) (s : string) : list string :=
  match s with
  | EmptyString => [EmptyString]
  | String d s' => if decide (c = d) then EmptyString :: split c s'
                   else match split c s' with
                        | [] => [String d EmptyString]
                        | w :: ws => String d w :: ws
                        end
  end.

(** [strings.Contains(s, sub)]. *)
Fixpoint contains (sub s : string) : bool :=
  hasPrefix s sub || match s with
                     | EmptyString => false
                     | String _ s' => contains sub s'
                     end.

(** [strings.HasSuffix]. *)
Definition hasSuffix (s suffix : string) : bool := hasPrefix (String.rev s) (String.rev suffix).

(** [strings.TrimSuffix] and [strings.TrimPrefix]. *)
Definition trimSuffix (suffix s : string) : string :=
  if hasSuffix s suffix
  then String.substring 0 (String.length s - String.length suffix) s else s.
Definition trimPrefix (p s : string) : string :=
  if hasPrefix s p
  then String.substring (String.length p) (String.length s - String.length p) s else s.

(** [strings.Trim] and [strings.TrimLeft], of the bytes that satisfy [p]. *)
Fixpoint trimLeftBy (p : ascii -> bool) (s : string) : string :=
  match s with
  | String c rest => if p c then trimLeftBy p rest else s
  | EmptyString => ""
  end.
Definition trimBy (p : ascii -> bool) (s : string) : string :=
  String.rev (trimLeftBy p (String.rev (trimLeftBy p s))).

(** [strings.Fields]: the maximal runs of non-space bytes. *)
Fixpoint fieldsFrom (s cur : string) : list string :=
  match s with
  | EmptyString => if bool_decide (cur = "") then [] else [cur]
  | String c rest =>
      if isSpace c then (if bool_decide (cur = "") then [] else [cur]) ++ fieldsFrom rest ""
      else fieldsFrom rest (cur +:+ String c "")
  end.
Definition fields (s : string) : list string := fieldsFrom s "".

(** [strings.Join]. *)
Fixpoint join (sep : string) (l : list string) : string :=
  match l with
  | [] => ""
  | [x] => x
  | x :: rest => x +:+ sep +:+ join sep rest
  end.

Definition newline : ascii := "010"%char.
Definition lines (s : string) : list string := split newline s.
Definition joinLines (ls : list string) : string := join (String newline "") ls.

(** The text [x00]. *)
Definition nul : string := String "000" "".

(** [fmt.Sprintf("%d", n)]. *)
Definition itoa (n : Z) : string := pretty n.

Definition digitOf (c : ascii) : option Z :=
  let n := Z.of_N (N_of_ascii c) in
  if (48 <=? n) && (n <=? 57) then Some (n - 48) else None.

(** The digit loop of [strconv.Atoi]. *)
Fixpoint digits (acc : Z) (s : string) : option Z :=
  match s with
  | EmptyString => Some acc
  | String c s => d ← digitOf c; digits (10 * acc + d) s
  end.

(** [strconv.Atoi]: an optional sign, then at least one digit, within 64 bits. *)
Definition unsigned (s : string) : option Z :=
  match s with EmptyString => None | _ => digits 0 s end.
Definition atoi (s : string) : option Z :=
  n ← match s with
      | String "-"%char s' => Z.opp <$> unsigned s'
      | String "+"%char s' => unsigned s'
      | _ => unsigned s
      end;
  if (- 2 ^ 63 <=? n) && (n <? 2 ^ 63) then Some n else None.

(** A character that occurs in a text. *)
Fixpoint occurs (c : ascii) (s : string) : bool :=
  match s with
  | EmptyString => false
  | String d s => bool_decide (c = d) || occurs c s
  end.

(** A text of decimal digits only. *)
Fixpoint allDigits (s : string) : bool :=
  match s with
  | EmptyString => true
  | String c s => bool_decide (is_Some (digitOf c)) && allDigits s
  end.

(** ** Lemmas *)

Lemma append_nil_r (s : string) : s +:+ "" = s.
Proof. induction s as [|c s IH]; [done|]. change (String c (s +:+ "") = String c s). by rewrite IH. Qed.

Lemma append_cons c s t : String c s +:+ t = String c (s +:+ t).
Proof. done. Qed.

Lemma append_byte c t : String c "" +:+ t = String c t.
Proof. done. Qed.

Lemma append_assoc (a b c : string) : (a +:+ b) +:+ c = a +:+ b +:+ c.
Proof. induction a as [|x a IH]; [done|]. rewrite !append_cons. by rewrite IH. Qed.

Lemma length_append (a b : string) :
  String.length (a +:+ b) = (String.length a + String.length b)%nat.
Proof. induction a as [|c a IH]; [done|]. exact (f_equal S IH). Qed.

Lemma occurs_app c s t : occurs c (s +:+ t) = occurs c s || occurs c t.
Proof.
  induction s as [|d s IH]; [done|]. rewrite append_cons. simpl. rewrite IH.
  by rewrite orb_assoc.
Qed.

Lemma cut_app c s t : occurs c s = false -> cut c (s +:+ String c t) = (s, Some t).
Proof.
  induction s as [|d s IH]; intros Hs.
  - change (cut c (String c t) = ("", Some t)). simpl. by rewrite decide_True.
  - simpl in Hs. apply orb_false_iff in Hs as [Hd Hs].
    apply bool_decide_eq_false in Hd. rewrite append_cons. simpl.
    rewrite decide_False by done. by rewrite IH.
Qed.

Lemma cut_none c s : occurs c s = false -> cut c s = (s, None).
Proof.
  induction s as [|d s IH]; intros Hs; [done|].
  simpl in Hs. apply orb_false_iff in Hs as [Hd Hs]. apply bool_decide_eq_false in Hd.
  simpl. rewrite decide_False by done. by rewrite IH.
Qed.

Lemma split_none c s : occurs c s = false -> split c s = [s].
Proof.
  induction s as [|d s IH]; intros Hs; [done|].
  simpl in Hs. apply orb_false_iff in Hs as [Hd Hs]. apply bool_decide_eq_false in Hd.
  simpl. rewrite decide_False by done. by rewrite IH.
Qed.

Lemma split_app c s t : occurs c s = false -> split c (s +:+ String c t) = s :: split c t.
Proof.
  induction s as [|d s IH]; intros Hs.
  - change (split c (String c t) = "" :: split c t). simpl. by rewrite decide_True.
  - simpl in Hs. apply orb_false_iff in Hs as [Hd Hs].
    apply bool_decide_eq_false in Hd. rewrite append_cons. simpl.
    rewrite decide_False by done. by rewrite IH.
Qed.

Lemma allDigits_app s t : allDigits (s +:+ t) = allDigits s && allDigits t.
Proof.
  induction s as [|d s IH]; [done|]. rewrite append_cons. simpl. rewrite IH.
  by rewrite andb_assoc.
Qed.

Lemma digitOf_range c d : digitOf c = Some d -> 48 <= Z.of_N (N_of_ascii c) <= 57.
Proof. unfold digitOf. case_match eqn:E; [|done]. lia. Qed.

(** A character that is no digit does not occur in a text of digits. *)
Lemma allDigits_occurs c s : digitOf c = None -> allDigits s = true -> occurs c s = false.
Proof.
  intros Hc. induction s as [|d s IH]; [done|]. simpl.
  intros [Hd Hs]%andb_true_iff. apply bool_decide_eq_true in Hd. rewrite IH by done.
  rewrite orb_false_r. apply bool_decide_eq_false. intros ->. rewrite Hc in Hd.
  by destruct Hd.
Qed.

(** *** Decimal round trip *)

Lemma digits_app acc s t : digits acc (s +:+ t) = digits acc s ≫= (fun a => digits a t).
Proof.
  revert acc. induction s as [|c s IH]; intros acc; [done|].
  rewrite append_cons. simpl. destruct (digitOf c); simpl; [apply IH|done].
Qed.

Lemma digitOf_pretty n : (n < 10)%N -> digitOf (pretty_N_char n) = Some (Z.of_N n).
Proof.
  intros Hn. pose proof (proj1 (Forall_forall (fun k => digitOf (pretty_N_char (N.of_nat k)) = Some (Z.of_nat k))
    (seq 0 10)) ltac:(apply (bool_decide_eq_true_1 _); vm_compute; reflexivity) (N.to_nat n)) as H.
  cbv beta in H. rewrite N2Nat.id in H. rewrite H by (apply elem_of_seq; lia). f_equal. lia.
Qed.

(** The digits of a number, greatest first, in front of [s]. *)
Lemma pretty_N_go_digits x s acc :
  (0 < x)%N ->
  exists p, pretty_N_go x s = p +:+ s /\ allDigits p = true /\ p <> ""
  /\ digits acc p = Some (acc * 10 ^ Z.of_nat (String.length p) + Z.of_N x).
Proof.
  revert s acc. induction (N.lt_wf_0 x) as [x _ IH]. intros s acc Hx.
  rewrite pretty_N_go_step by done.
  set (c := pretty_N_char (x `mod` 10)).
  assert (digitOf c = Some (Z.of_N (x `mod` 10))) as Hc.
  { apply digitOf_pretty. by apply N.mod_lt. }
  assert (allDigits (String c "") = true) as Hac.
  { simpl. rewrite Hc. by rewrite bool_decide_true by eauto. }
  destruct (decide (x < 10)%N) as [Hs|Hs].
  - rewrite N.div_small by done. rewrite pretty_N_go_0.
    exists (String c ""). repeat split; [done|done|].
    simpl. rewrite Hc. simpl. f_equal. rewrite N.mod_small by done. lia.
  - destruct (IH (x `div` 10)%N) with (s := String c s) (acc := acc)
      as (p & -> & Hp & Hne & Hd); [by apply N.div_lt| |].
    { apply N.div_str_pos. lia. }
    exists (p +:+ String c ""). rewrite append_assoc. split; [done|].
    rewrite allDigits_app, Hp, Hac. split; [done|]. split; [by destruct p|].
    rewrite digits_app, Hd. cbn [mbind option_bind digits]. rewrite Hc.
    cbn [mbind option_bind digits]. f_equal.
    assert (String.length (p +:+ String c "") = S (String.length p)) as ->.
    { clear. induction p as [|? p IH]; [done|]. rewrite append_cons. simpl. by rewrite IH. }
    rewrite Nat2Z.inj_succ, Z.pow_succ_r by lia.
    rewrite (N.div_mod x 10) at 3 by done. rewrite N2Z.inj_add, N2Z.inj_mul. lia.
Qed.

Lemma pretty_digits (n : N) :
  allDigits (pretty n) = true /\ pretty n <> "" /\ digits 0 (pretty n) = Some (Z.of_N n).
Proof.
  unfold pretty, pretty_N. case_decide; [subst; done|].
  destruct (pretty_N_go_digits n "" 0) as (p & -> & ? & ? & ?); [lia|].
  rewrite append_nil_r. repeat split; auto.
Qed.

Lemma itoa_pos n : 0 <= n -> itoa n = pretty (Z.to_N n).
Proof. intros. unfold itoa. destruct n; done || lia. Qed.

Lemma itoa_occurs c n : digitOf c = None -> c <> "-"%char -> occurs c (itoa n) = false.
Proof.
  intros Hc Hd. unfold itoa.
  assert (forall m : N, occurs c (pretty m) = false) as Hn
    by (intros m; apply allDigits_occurs; [done|]; apply pretty_digits).
  destruct n as [|p|p]; [apply (Hn 0%N)|apply (Hn (Npos p))|].
  change (pretty (Z.neg p)) with ("-" +:+ pretty (Npos p)). rewrite append_byte. simpl.
  rewrite bool_decide_false by done. apply (Hn (Npos p)).
Qed.

(** [strconv.Atoi(fmt.Sprintf("%d", n))] gives [n] back. *)
Lemma atoi_pretty (n : N) : Z.of_N n < 2 ^ 63 -> atoi (pretty n) = Some (Z.of_N n).
Proof.
  intros Hn. destruct (pretty_digits n) as (Ha & Hne & Hd).
  unfold atoi. assert (unsigned (pretty n) = Some (Z.of_N n)) as Hu.
  { unfold unsigned. by destruct (pretty n). }
  destruct (pretty n) as [|c s] eqn:E; [done|].
  simpl in Ha. apply andb_true_iff in Ha as [Hc _]. apply bool_decide_eq_true in Hc.
  destruct (decide (c = "-"%char)) as [->|]; [by destruct Hc|].
  destruct (decide (c = "+"%char)) as [->|]; [by destruct Hc|].
  assert (match String c s with
          | String "-"%char s' => Z.opp <$> unsigned s'
          | String "+"%char s' => unsigned s'
          | _ => unsigned (String c s)
          end = Some (Z.of_N n)) as ->
    by (destruct c as [[] [] [] [] [] [] [] []]; done).
  cbn [mbind option_bind]. rewrite (proj2 (Z.leb_le _ _)) by lia.
  by rewrite (proj2 (Z.ltb_lt _ _)) by lia.
Qed.

(** *** Trimming *)

Lemma rev_app_rev s t : String.rev_app s t = String.rev s +:+ t.
Proof.
  unfold String.rev. revert t. induction s as [|c s IH]; intros t; [done|]. simpl.
  rewrite IH, (IH (String c "")). by rewrite append_assoc.
Qed.

Lemma rev_cons c s : String.rev (String c s) = String.rev s +:+ String c "".
Proof. unfold String.rev. simpl. by rewrite rev_app_rev. Qed.

Lemma rev_append s t : String.rev (s +:+ t) = String.rev t +:+ String.rev s.
Proof.
  induction s as [|c s IH].
  - change (String.rev t = String.rev t +:+ ""). by rewrite append_nil_r.
  - rewrite append_cons, !rev_cons, IH. by rewrite append_assoc.
Qed.

Lemma rev_involutive s : String.rev (String.rev s) = s.
Proof.
  induction s as [|c s IH]; [done|]. rewrite rev_cons, rev_append, IH. done.
Qed.

Lemma trimLeft_app u c v :
  isSpace c = false ->
  exists u', trimLeft (u +:+ String c v) = u' +:+ String c v /\ (u = "" -> u' = "").
Proof.
  intros Hc. induction u as [|d u IH].
  - exists "". change ("" +:+ String c v) with (String c v). simpl. by rewrite Hc.
  - rewrite append_cons. simpl. destruct (isSpace d).
    + destruct IH as (u' & -> & _). by exists u'.
    + by exists (String d u).
Qed.

(** Trimming a text that starts with a visible character keeps everything up
    to its last visible character. *)
Lemma trimSpace_app a c t d s :
  a +:+ String c t = String d s -> isSpace d = false -> isSpace c = false ->
  exists t', trimSpace (a +:+ String c t) = a +:+ String c t' /\ (t = "" -> t' = "").
Proof.
  intros E Hd Hc. unfold trimSpace.
  assert (trimLeft (a +:+ String c t) = a +:+ String c t) as ->.
  { rewrite E. simpl. by rewrite Hd. }
  rewrite rev_append, rev_cons, append_assoc, append_cons.
  change ("" +:+ String.rev a) with (String.rev a).
  destruct (trimLeft_app (String.rev t) c (String.rev a) Hc) as (u' & -> & Hu).
  exists (String.rev u'). rewrite rev_append, rev_cons, rev_involutive, append_assoc.
  split; [done|]. intros ->. by rewrite Hu.
Qed.

(** ** Fields and joins *)

(** A field: something, without white space. *)
Fixpoint spaceless (s : string) : bool :=
  match s with
  | EmptyString => true
  | String c rest => negb (isSpace c) && spaceless rest
  end.
Definition isField (s : string) : Prop := s <> "" /\ spaceless s = true.

Lemma append_not_nil (a b : string) : b <> "" -> a +:+ b <> "".
Proof. by destruct a. Qed.

Lemma fieldsFrom_run s rest cur :
  spaceless s = true -> fieldsFrom (s +:+ rest) cur = fieldsFrom rest (cur +:+ s).
Proof.
  revert cur. induction s as [|c s IH]; intros cur; simpl.
  - by rewrite append_nil_r.
  - intros [Hc Hs]%andb_prop. apply negb_true_iff in Hc. rewrite Hc.
    rewrite (IH _ Hs), append_assoc. by rewrite append_byte.
Qed.

Lemma fieldsFrom_stop rest cur :
  cur <> "" -> fieldsFrom (String " " rest) cur = cur :: fieldsFrom rest "".
Proof. intros H. simpl. by rewrite bool_decide_false. Qed.

Lemma fields_join ts : Forall isField ts -> fields (join " " ts) = ts.
Proof.
  unfold fields. induction 1 as [|t ts [Hne Ht] Hts IH]; [done|].
  destruct ts as [|u ts].
  - cbn [join]. rewrite <- (append_nil_r t), (fieldsFrom_run _ _ _ Ht). simpl. rewrite append_nil_r.
    by rewrite bool_decide_false.
  - change (join " " (t :: u :: ts)) with (t +:+ " " +:+ join " " (u :: ts)).
    rewrite (fieldsFrom_run _ _ _ Ht), append_byte. change ("" +:+ t) with t.
    rewrite (fieldsFrom_stop _ _ Hne). by rewrite IH.
Qed.

(** The fields of a text are fields. *)
Lemma spaceless_app a b : spaceless (a +:+ b) = spaceless a && spaceless b.
Proof. induction a as [|c a IH]; [done|]. rewrite append_cons. simpl. by rewrite IH, andb_assoc. Qed.

Lemma fieldsFrom_fields s cur : spaceless cur = true -> Forall isField (fieldsFrom s cur).
Proof.
  revert cur. induction s as [|c s IH]; intros cur Hc; simpl.
  - case_bool_decide; [constructor|]. by repeat constructor.
  - destruct (isSpace c) eqn:E.
    + apply Forall_app. split; [|by apply IH]. case_bool_decide; [constructor|]. by repeat constructor.
    + apply IH. rewrite spaceless_app, Hc. simpl. by rewrite E.
Qed.
Lemma fields_are_fields s : Forall isField (fields s).
Proof. by apply fieldsFrom_fields. Qed.

Lemma join_app sep a b : a <> [] -> b <> [] -> join sep (a ++ b) = join sep a +:+ sep +:+ join sep b.
Proof.
  intros Ha Hb. induction a as [|x a IH]; [done|]. destruct a as [|y a]; simpl.
  - destruct b; [done|]. done.
  - rewrite <- app_comm_cons in IH. simpl in IH |- *. rewrite IH by done.
    by rewrite !append_assoc.
Qed.

Lemma join_concat sep ls : Forall (fun l => l <> []) ls -> join sep (map (join sep) ls) = join sep (concat ls).
Proof.
  induction 1 as [|l ls Hl Hls IH]; [done|]. destruct ls as [|l' ls].
  - simpl. by rewrite app_nil_r.
  - change (concat (l :: l' :: ls)) with (l ++ concat (l' :: ls)).
    rewrite join_app; [|done|].
    + rewrite <- IH. done.
    + apply Forall_cons in Hls as [H _]. simpl. by destruct l'.
Qed.

(** ** Trimming *)

Lemma trimLeftBy_suffix p s : exists u, s = u +:+ trimLeftBy p s.
Proof.
  induction s as [|d s [u IH]]; simpl; [by exists ""|]. destruct (p d); [|by exists ""].
  exists (String d u). rewrite append_cons. by f_equal.
Qed.
Lemma trimLeftBy_head p s :
  trimLeftBy p s = "" \/ exists d r, trimLeftBy p s = String d r /\ p d = false.
Proof. induction s as [|d s IH]; simpl; [by left|]. destruct (p d) eqn:H; [done|]. right. eauto. Qed.
Lemma trimLeftBy_done p d r : p d = false -> trimLeftBy p (String d r) = String d r.
Proof. intros H. simpl. by rewrite H. Qed.
Lemma trimLeftBy_idem p s : trimLeftBy p (trimLeftBy p s) = trimLeftBy p s.
Proof.
  destruct (trimLeftBy_head p s) as [->|(d & r & -> & Hd)]; [done|]. by apply trimLeftBy_done.
Qed.

(** Trimming both ends settles at once. *)
Lemma trimBy_idem p s : trimBy p (trimBy p s) = trimBy p s.
Proof.
  unfold trimBy at 2. set (a := trimLeftBy p s).
  destruct (trimLeftBy_head p s) as [Ha|(d & r & Ha & Hd)]; fold a in Ha.
  { unfold trimBy. fold a. by rewrite Ha. }
  destruct (trimLeftBy_suffix p (String.rev a)) as [u Hu]. set (b := trimLeftBy p (String.rev a)) in *.
  assert (a = String.rev b +:+ String.rev u) as Hab.
  { rewrite <- rev_append, <- Hu. by rewrite rev_involutive. }
  unfold trimBy. fold a. fold b.
  destruct (String.rev b) as [|d' r'] eqn:Eb.
  { done. }
  assert (d' = d) as ->.
  { rewrite Ha in Hab. rewrite append_cons in Hab. by injection Hab. }
  rewrite (trimLeftBy_done _ _ _ Hd), <- Eb, rev_involutive. unfold b.
  by rewrite trimLeftBy_idem.
Qed.

Lemma spaceless_rev s : spaceless (String.rev s) = spaceless s.
Proof.
  induction s as [|c s IH]; [done|]. rewrite rev_cons, spaceless_app, IH. simpl.
  rewrite andb_true_r. apply andb_comm.
Qed.
Lemma spaceless_trimLeft p s : spaceless s = true -> spaceless (trimLeftBy p s) = true.
Proof.
  induction s as [|d s IH]; simpl; [done|]. intros [Hd Hs]%andb_prop. destruct (p d); [by apply IH|].
  simpl. by rewrite Hd, Hs.
Qed.
Lemma spaceless_trim p s : spaceless s = true -> spaceless (trimBy p s) = true.
Proof.
  intros H. unfold trimBy. rewrite spaceless_rev. apply spaceless_trimLeft. rewrite spaceless_rev.
  by apply spaceless_trimLeft.
Qed.

(** ** Lines *)

(** A text with no white space at its ends. *)
Definition trimmed (s : string) : Prop :=
  s <> "" /\ trimLeft s = s /\ trimLeft (String.rev s) = String.rev s.

Lemma trimLeft_cons s t : s <> "" -> trimLeft s = s -> trimLeft (s +:+ t) = s +:+ t.
Proof.
  destruct s as [|c s]; [done|]. intros _ H. rewrite append_cons. simpl in *.
  destruct (isSpace c); [|done]. exfalso. apply (f_equal String.length) in H.
  assert (forall u, (String.length (trimLeft u) <= String.length u)%nat) as Hle.
  { induction u as [|d u IH]; simpl; [lia|]. destruct (isSpace d); simpl; lia. }
  specialize (Hle s). simpl in H. lia.
Qed.
Lemma rev_nil s : String.rev s = "" -> s = "".
Proof. intros H. by rewrite <- (rev_involutive s), H. Qed.

(** The ends decide. *)
Lemma trimmed_app a m b : trimmed a -> trimmed b -> trimmed (a +:+ m +:+ b).
Proof.
  intros (Ha & Hl & _) (Hb & _ & Hr). split; [by destruct a|]. split; [by apply trimLeft_cons|].
  rewrite !rev_append, append_assoc. apply trimLeft_cons; [|done]. intros H. by apply Hb, rev_nil.
Qed.
Lemma trimSpace_trimmed s : trimmed s -> trimSpace s = s.
Proof. intros (_ & Hl & Hr). unfold trimSpace. by rewrite Hl, Hr, rev_involutive. Qed.
Lemma trimSpace_newline s : trimmed s -> trimSpace (s +:+ String newline "") = s.
Proof.
  intros (Hn & Hl & Hr). unfold trimSpace. rewrite trimLeft_cons, rev_append by done.
  change (String.rev (String newline "")) with (String newline ""). rewrite append_byte. simpl.
  by rewrite Hr, rev_involutive.
Qed.

Lemma spaceless_trimLeft_id s : spaceless s = true -> trimLeft s = s.
Proof. destruct s as [|c s]; simpl; [done|]. intros [Hc _]%andb_prop. apply negb_true_iff in Hc. by rewrite Hc. Qed.
Lemma field_trimmed s : isField s -> trimmed s.
Proof.
  intros [Hn Hs]. split; [done|]. split; apply spaceless_trimLeft_id; by rewrite ?spaceless_rev.
Qed.
Lemma trimmed_join sep ts : ts <> [] -> Forall trimmed ts -> trimmed (join sep ts).
Proof.
  intros Hn H. induction H as [|t ts Ht Hts IH]; [done|]. destruct ts as [|u ts]; [done|].
  change (join sep (t :: u :: ts)) with (t +:+ sep +:+ join sep (u :: ts)).
  apply trimmed_app; [done|]. by apply IH.
Qed.

Lemma occurs_join c sep ts :
  occurs c sep = false -> Forall (fun t => occurs c t = false) ts -> occurs c (join sep ts) = false.
Proof.
  intros Hs. induction 1 as [|t ts Ht Hts IH]; [done|]. destruct ts as [|u ts]; [done|].
  change (join sep (t :: u :: ts)) with (t +:+ sep +:+ join sep (u :: ts)).
  by rewrite !occurs_app, Ht, Hs, IH.
Qed.
Lemma spaceless_occurs c s : isSpace c = true -> spaceless s = true -> occurs c s = false.
Proof.
  intros Hc. induction s as [|d s IH]; simpl; [done|]. intros [Hd Hs]%andb_prop.
  rewrite (IH Hs). destruct (decide (c = d)) as [<-|Hne]; [by rewrite Hc in Hd|].
  by rewrite bool_decide_false.
Qed.

(** Splitting undoes joining. *)
Lemma split_join c ts :
  ts <> [] -> Forall (fun t => occurs c t = false) ts -> split c (join (String c "") ts) = ts.
Proof.
  intros Hn H. induction H as [|t ts Ht Hts IH]; [done|]. destruct ts as [|u ts].
  - by apply split_none.
  - change (join (String c "") (t :: u :: ts)) with (t +:+ String c "" +:+ join (String c "") (u :: ts)).
    rewrite append_byte, split_app by done. by rewrite IH.
Qed.

(** Parts of a text without white space. *)
Lemma spaceless_cut c s : spaceless s = true -> spaceless (cut c s).1 = true.
Proof.
  induction s as [|d s IH]; simpl; [done|]. intros [Hd Hs]%andb_prop. destruct (decide (c = d)); [done|].
  specialize (IH Hs). destruct (cut c s) as [a b]. simpl in *. by rewrite Hd, IH.
Qed.
Lemma spaceless_cut_after c s t : spaceless s = true -> (cut c s).2 = Some t -> spaceless t = true.
Proof.
  induction s as [|d s IH]; simpl; [done|]. intros [Hd Hs]%andb_prop.
  destruct (decide (c = d)); [by intros [= ->]|]. destruct (cut c s) as [a b]. by apply IH.
Qed.
Lemma spaceless_substring n m s : spaceless s = true -> spaceless (String.substring n m s) = true.
Proof.
  revert n m. induction s as [|c s IH]; intros n m; [by destruct n, m|].
  intros H. pose proof H as [Hc Hs]%andb_prop. destruct n, m; simpl; auto.
  rewrite Hc. by apply IH.
Qed.
Lemma spaceless_trimSuffix p s : spaceless s = true -> spaceless (trimSuffix p s) = true.
Proof. unfold trimSuffix. destruct (hasSuffix s p); [apply spaceless_substring|done]. Qed.
Lemma spaceless_trimPrefix p s : spaceless s = true -> spaceless (trimPrefix p s) = true.
Proof. unfold trimPrefix. destruct (hasPrefix s p); [apply spaceless_substring|done]. Qed.
Lemma spaceless_split c s : spaceless s = true -> Forall (fun t => spaceless t = true) (split c s).
Proof.
  induction s as [|d s IH]; simpl; [by repeat constructor|]. intros [Hd Hs]%andb_prop.
  specialize (IH Hs). destruct (decide (c = d)); [by constructor|].
  destruct (split c s) as [|w ws]; [constructor; [|done]; simpl; by rewrite Hd|].
  inversion IH; subst. constructor; [|done]. simpl. by rewrite Hd.
Qed.
Lemma spaceless_join sep ts :
  spaceless sep = true -> Forall (fun t => spaceless t = true) ts -> spaceless (join sep ts) = true.
Proof.
  intros Hs. induction 1 as [|t ts Ht Hts IH]; [done|]. destruct ts as [|u ts]; [done|].
  change (join sep (t :: u :: ts)) with (t +:+ sep +:+ join sep (u :: ts)).
  by rewrite !spaceless_app, Ht, Hs, IH.
Qed.

(** ** Prefixes and pieces *)

Lemma hasPrefix_app p s : hasPrefix (p +:+ s) p = true.
Proof. unfold hasPrefix. induction p as [|c p IH]; [by destruct s|]. rewrite append_cons. simpl. by destruct (ascii_dec c c). Qed.
Lemma substring_app p s : String.substring (String.length p) (String.length s) (p +:+ s) = s.
Proof.
  induction p as [|c p IH]; simpl; [|done].
  change (String.substring 0 (String.length s) s = s).
  induction s as [|c s IH]; [done|]. simpl. by rewrite IH.
Qed.
Lemma trimPrefix_app p s : trimPrefix p (p +:+ s) = s.
Proof.
  unfold trimPrefix. rewrite hasPrefix_app, length_append.
  replace (String.length p + String.length s - String.length p)%nat with (String.length s) by lia.
  apply substring_app.
Qed.

Lemma split_pieces c s : Forall (fun t => occurs c t = false) (split c s).
Proof.
  induction s as [|d s IH]; simpl; [by repeat constructor|]. destruct (decide (c = d)) as [->|Hne]; [by constructor|].
  destruct (split c s) as [|w ws]; inversion IH; subst; constructor; try done; simpl; by rewrite bool_decide_false.
Qed.
Lemma split_occurs c d s : occurs d s = false -> Forall (fun t => occurs d t = false) (split c s).
Proof.
  induction s as [|e s IH]; simpl; [by repeat constructor|]. intros [He Hs]%orb_false_iff.
  specialize (IH Hs). destruct (decide (c = e)); [by constructor|].
  destruct (split c s) as [|w ws]; inversion IH; subst; constructor; try done; simpl; by rewrite He.
Qed.
Lemma split_not_nil c s : split c s <> [].
Proof. destruct s as [|d s]; simpl; [done|]. destruct (decide (c = d)); [done|]. by destruct (split c s). Qed.

(** Nothing to trim. *)
Lemma trimLeftBy_none p s : (forall c, p c = true -> occurs c s = false) -> trimLeftBy p s = s.
Proof.
  destruct s as [|d s]; simpl; [done|]. intros H. destruct (p d) eqn:E; [|done].
  specialize (H d E). by rewrite bool_decide_true in H.
Qed.
Lemma occurs_rev c s : occurs c (String.rev s) = occurs c s.
Proof.
  induction s as [|d s IH]; [done|]. rewrite rev_cons, occurs_app, IH. simpl. by rewrite orb_false_r, orb_comm.
Qed.
Lemma trimBy_none p s : (forall c, p c = true -> occurs c s = false) -> trimBy p s = s.
Proof.
  intros H. unfold trimBy. rewrite (trimLeftBy_none p s) by done.
  rewrite trimLeftBy_none by (intros c Hc; rewrite occurs_rev; auto). apply rev_involutive.
Qed.
Lemma spaceless_trimSpace s : spaceless s = true -> trimSpace s = s.
Proof.
  intros H. unfold trimSpace. rewrite (spaceless_trimLeft_id s H).
  rewrite spaceless_trimLeft_id by (by rewrite spaceless_rev). apply rev_involutive.
Qed.
Lemma sortStrings_idem l : sortStrings (sortStrings l) = sortStrings l.
Proof.
  apply (Sorted_unique String.le); [apply (Sorted_merge_sort String.le)..|].
  unfold sortStrings. by rewrite !merge_sort_Permutation.
Qed.
