(* ===== verification/Model.v ===== *)
(** * The topology data the agent's coordination code reads

    Models the part of [internal/model/topology.go] that the node agent's
    overlay code and the placer follow: a link has two optional ends, an end
    an optional device, a device its AS and the node it is placed on. *)

From stdpp Require Import base gmap strings list.
From S2P Require Import Prelude.

(** [model.Device], reduced to its identity, its AS (0 for a service), its
    node (empty before placement) and the name of its container. *)
Record Device := mkDevice {
  devID : string; devASN : Z; devNode : string; devContainer : string
}.

(** [model.Iface]. *)
Record Iface := mkIface { ifaceName : string; ifaceDevice : option Device }.

(** [model.Link]: [A] and [B] may be nil in a half-built topology. *)
Record Link := mkLink {
  linkID : string;
  linkVNI : Z;
  linkA : option Iface;
  linkB : option Iface
}.

(** [model.StatePolicy], reduced to what the deployment handlers consult; a
    nil [FailClosed] is [None]. *)
Record StatePolicy := mkPolicy { spReplicationFactor : Z; spFailClosed : option bool }.
Definition FailClosedEnabled (p : StatePolicy) : bool := default true (spFailClosed p).

(** [model.Topology]; a nil entry of [Links] is [None]. *)
Record Topology := mkTopology {
  topName : string;
  topHash : string;
  topEphemeral : bool;
  topEphemeralTTLSeconds : Z;
  topState : StatePolicy;
  topDevices : list Device;
  topLinks : list (option Link)
}.

(** [DevicesOnNode]. *)
Definition DevicesOnNode (t : Topology) (node : string) : list Device :=
  filter (fun d => devNode d = node) (topDevices t).

(** The nodes of a link's two devices, when neither pointer on the way is
    nil. *)
Definition linkNodes (l : Link) : option (string * string) :=
  a ← linkA l; b ← linkB l; da ← ifaceDevice a; db ← ifaceDevice b;
  Some (devNode da, devNode db).

(** [runtime.State] and its [Joinable]. *)
Definition StateRunning : string := "running".
Definition Joinable (state : string) : bool :=
  bool_decide (state = StateRunning) || bool_decide (state = "paused").
