(* ===== verification/Coordination.v ===== *)
(** * Fenced mutation leases and overlay claims of one node agent

    Models [internal/agent/coordination.go]: the lease table, the fencing
    high-water marks, the overlay (VNI) claims and their persistence. Every
    method runs under the server's mutex, so it is one atomic step here; the
    clock readings, the random token, the kernel's overlay owners and the
    outcome of kernel calls are arguments. *)

From stdpp Require Import base gmap strings list fin_maps.
From Stdlib Require Import ZArith Lia.
From S2P Require Import Prelude Model.

Open Scope Z_scope.

(** ** Data *)

(** [Fence]: the generation orders leases, the token proves ownership. *)
Record Fence := mkFence { fToken : string; fGeneration : Z }.
#[export] Instance Fence_eq_dec : EqDecision Fence.
Proof. solve_decision. Defined.

(** [clusterLease]: in memory only. *)
Record clusterLease := mkLease { lHolder : string; lFence : Fence; lUntil : Time }.

(** [overlayClaim]: a short-lived reservation or a live overlay. *)
Record overlayClaim := mkClaim {
  cLab : string; cGeneration : Z; cUntil : Time; cLive : bool
}.
#[export] Instance overlayClaim_eq_dec : EqDecision overlayClaim.
Proof. solve_decision. Defined.

(** [generationState]. *)
Record generationState := mkGen {
  gCommitted : string; gPrepared : string; gAncestors : list string
}.
Definition zeroGen : generationState := mkGen "" "" [].

(** [transactionPhase]; [PhaseNone] is the empty string of old records. *)
Inductive transactionPhase :=
| PhaseNone | transactionPrepared | transactionApplying | transactionApplied
| transactionRollbackNeeded | transactionRecovering | transactionRollbackFailed
| transactionCommitted.
#[export] Instance transactionPhase_eq_dec : EqDecision transactionPhase.
Proof. solve_decision. Defined.

(** [Wire], reduced to the fields the coordination code reads, the devices
    with their nodes, and the topology [Rehydrate] rebuilds ([None] when it
    returns an error). *)
Record Wire := mkWire {
  wLab : string;
  wGeneration : string;
  wMode : string;
  wUngraded : Z;
  wEphemeral : bool;
  wEphemeralTTLSeconds : Z;
  wEphemeralOwner : string;
  wDevices : list (string * string);
  wPeerUnderlay : option (gmap string string);
  wTopology : option Topology
}.

(** A [json.RawMessage], by what decoding it yields: no bytes at all, bytes
    that are not a wire, or a wire. *)
Inductive RawMessage :=
| RawEmpty
| RawInvalid
| RawWire (w : Wire).

(** [transactionContainer]. *)
Record transactionContainer := mkTxContainer {
  tcName : string; tcDeviceID : string; tcSpec : string;
  tcGeneration : string; tcState : string
}.

(** [transactionSnapshot]. *)
Record transactionSnapshot := mkSnapshot {
  snDevice : string; snKind : string; snDigest : string
}.

(** [netx.LogicalBinding] and [netx.PhysicalTrunk]. *)
Record LogicalBinding := mkBinding {
  lbVNI : Z; lbVLAN : Z; lbPeer : string; lbMTU : Z; lbPort : Z;
  lbNodeA : string; lbNodeB : string; lbLegacy : bool
}.
Record PhysicalTrunk := mkTrunk {
  ptBridge : string; ptVxlan : string; ptMTU : Z; ptPort : Z;
  ptNodeA : string; ptNodeB : string; ptLegacy : bool
}.

(** [transactionInventory]; a runtime contract is the device it was captured
    from, and the overlay state only the exact rollback replays is left out. *)
Record transactionInventory := mkInventory {
  invSchema : Z;
  invTopologyHash : string;
  invGeneration : string;
  invContainers : list transactionContainer;
  invVNIs : list Z;
  invLogicalBindings : list LogicalBinding;
  invPhysicalTrunks : list PhysicalTrunk;
  invCapturedAt : Time;
  invStateSafe : bool;
  invSnapshots : list transactionSnapshot;
  invRuntimeSpecs : list string
}.
Definition zeroInventory : transactionInventory := mkInventory 0 "" "" [] [] [] [] 0 false [] [].

(** [StateProof] is opaque to the coordination code: it stores and returns it. *)
Abbreviation StateProof := string (only parsing).

(** [solveTransition] of [internal/agent/solve_transition.go]; a preserved
    orphan is its container's name. *)
Record solveTransition := mkSolve {
  solveLab : string; solveNode : string; solveGeneration : string; solveFence : Z;
  solveTopology : string; solveMode : string; solveUngraded : Z; solvePrune : bool;
  solveReplicated : bool; solvePreserved : list string; solveRecorded : Time
}.

(** What [prepareGeneration] fixes for the lifetime of a transaction. *)
Record txRequest := mkTxRequest {
  txGeneration : string;
  txExpected : string;
  txRequested : RawMessage;
  txPrevious : RawMessage;
  txPreviousGen : string;
  txPreviousMode : string;
  txPreviousUngraded : Z;
  txMode : string;
  txUngraded : Z;
  txPeerUnderlay : gmap string string;
  txPrune : bool;
  txOnlySteps : list string;
  txStateProofs : list StateProof
}.

(** What the apply phase records about itself. *)
Record txEvidence := mkTxEvidence {
  txSolveTransition : option solveTransition;
  txDirtyCapture : list string;
  txDirtyCaptureKnown : bool;
  txSemantic : list string;
  txSemanticKnown : bool;
  txTouched : list string;
  txTouchedVNIs : list Z;
  txTouchedKnown : bool;
  txStateVerified : bool
}.
Definition zeroEvidence : txEvidence := mkTxEvidence None [] false [] false [] [] false false.

(** What a recovery records about itself. *)
Record txRecovery := mkTxRecovery {
  rAttempts : Z;
  rLast : Time;
  rNext : Time;
  rOwner : string;
  rStrategy : string;
  rStarted : Time;
  rProgress : Time;
  rDeadline : Time;
  rTotal : Time;
  rTarget : string;
  rForwardAcknowledged : bool;
  rForwardPhase : string;
  rForwardDataLossScope : list string
}.
Definition zeroRecovery : txRecovery := mkTxRecovery 0 0 0 "" "" 0 0 0 0 "" false "" [].

(** [applyTransaction], its fields grouped as above. *)
Record applyTransaction := mkTx {
  txReq : txRequest;
  txFenceGeneration : Z;
  txEvid : txEvidence;
  txPhase : transactionPhase;
  txPrestate : transactionInventory;
  txFailure : string;
  txRecov : txRecovery;
  txApplied : bool;
  txCommitted : bool
}.

(** [ephemeralLease] of [internal/agent/ephemeral.go]. *)
Record ephemeralLease := mkEphemeral {
  eLab : string; eOwner : string; eTTLSeconds : Z; eGeneration : string;
  eCreatedAt : Time; eExpiresAt : Time; eHardExpiresAt : Time; eRestored : bool
}.

(** [coordinationState]: exactly what [saveCoordinationLocked] persists. *)
Record coordinationState := mkCoord {
  FenceHighWater : gmap string Z;
  Overlays : gmap Z overlayClaim;
  Generations : gmap string generationState;
  Transactions : gmap string applyTransaction;
  Inventories : gmap string transactionInventory;
  OverlayLineage : gmap string (gmap Z string);
  Ephemeral : gmap string ephemeralLease
}.
Definition emptyCoord : coordinationState := mkCoord ∅ ∅ ∅ ∅ ∅ ∅ ∅.

(** [hold] of [internal/agent/hold.go]. *)
Record hold := mkHold { hHolder : string; hToken : string; hUntil : Time }.

(** [lease] of [internal/agent/agent.go]: the per-lab operation lease.
    [oCancellable] says that both [cancel] and [done] are non-nil. *)
Record opLease := mkOp {
  oId : Z; oKind : string; oDeadline : Time; oCancellable : bool
}.

(** The state store's records for this node. *)
Record Store := mkStore {
  stCoordination : option coordinationState;
  stTopology : gmap string RawMessage;
  stHolds : gmap string (option hold)
}.

(** [Server]. [srvFaults] is the environment: the outcome of the coming
    writes to the store ([true] fails; no entry left means success). *)
Record Server := mkServer {
  srvNode : string;
  coord : coordinationState;
  mutations : gmap string clusterLease;
  gcCollecting : gset Z;
  holds : gmap string hold;
  ops : gmap string opLease;
  opSequence : Z;
  current : gmap string Topology;
  modes : gmap string string;
  ungraded : gmap string Z;
  peers : gmap string (gmap string string);
  repairFails : gmap string Z;
  repairNext : gmap string Time;
  partialLinks : gmap string Z;
  store : option Store;
  srvFaults : list bool
}.

(** *** Field updates *)

Definition set_coord (f : coordinationState -> coordinationState) (s : Server) : Server :=
  mkServer (srvNode s) (f (coord s)) (mutations s) (gcCollecting s) (holds s) (ops s)
    (opSequence s) (current s) (modes s) (ungraded s) (peers s) (repairFails s)
    (repairNext s) (partialLinks s) (store s) (srvFaults s).
Definition set_mutations (f : gmap string clusterLease -> gmap string clusterLease)
    (s : Server) : Server :=
  mkServer (srvNode s) (coord s) (f (mutations s)) (gcCollecting s) (holds s) (ops s)
    (opSequence s) (current s) (modes s) (ungraded s) (peers s) (repairFails s)
    (repairNext s) (partialLinks s) (store s) (srvFaults s).
Definition set_gcCollecting (f : gset Z -> gset Z) (s : Server) : Server :=
  mkServer (srvNode s) (coord s) (mutations s) (f (gcCollecting s)) (holds s) (ops s)
    (opSequence s) (current s) (modes s) (ungraded s) (peers s) (repairFails s)
    (repairNext s) (partialLinks s) (store s) (srvFaults s).
Definition set_holds (f : gmap string hold -> gmap string hold) (s : Server) : Server :=
  mkServer (srvNode s) (coord s) (mutations s) (gcCollecting s) (f (holds s)) (ops s)
    (opSequence s) (current s) (modes s) (ungraded s) (peers s) (repairFails s)
    (repairNext s) (partialLinks s) (store s) (srvFaults s).
Definition set_ops (f : gmap string opLease -> gmap string opLease) (n : Z)
    (s : Server) : Server :=
  mkServer (srvNode s) (coord s) (mutations s) (gcCollecting s) (holds s) (f (ops s))
    n (current s) (modes s) (ungraded s) (peers s) (repairFails s)
    (repairNext s) (partialLinks s) (store s) (srvFaults s).
(** The records of one lab that live outside the coordination journal. *)
Definition set_lab_records (c : gmap string Topology) (m : gmap string string)
    (u : gmap string Z) (p : gmap string (gmap string string)) (s : Server) : Server :=
  mkServer (srvNode s) (coord s) (mutations s) (gcCollecting s) (holds s) (ops s)
    (opSequence s) c m u p (repairFails s) (repairNext s) (partialLinks s)
    (store s) (srvFaults s).
Definition set_repairs (rf : gmap string Z) (rn : gmap string Time) (pl : gmap string Z)
    (s : Server) : Server :=
  mkServer (srvNode s) (coord s) (mutations s) (gcCollecting s) (holds s) (ops s)
    (opSequence s) (current s) (modes s) (ungraded s) (peers s) rf rn pl
    (store s) (srvFaults s).
Definition set_store (st : option Store) (fs : list bool) (s : Server) : Server :=
  mkServer (srvNode s) (coord s) (mutations s) (gcCollecting s) (holds s) (ops s)
    (opSequence s) (current s) (modes s) (ungraded s) (peers s) (repairFails s)
    (repairNext s) (partialLinks s) st fs.

Definition set_HighWater f (c : coordinationState) : coordinationState :=
  mkCoord (f (FenceHighWater c)) (Overlays c) (Generations c) (Transactions c)
    (Inventories c) (OverlayLineage c) (Ephemeral c).
Definition set_Overlays f (c : coordinationState) : coordinationState :=
  mkCoord (FenceHighWater c) (f (Overlays c)) (Generations c) (Transactions c)
    (Inventories c) (OverlayLineage c) (Ephemeral c).
Definition set_Generations f (c : coordinationState) : coordinationState :=
  mkCoord (FenceHighWater c) (Overlays c) (f (Generations c)) (Transactions c)
    (Inventories c) (OverlayLineage c) (Ephemeral c).
Definition set_Transactions f (c : coordinationState) : coordinationState :=
  mkCoord (FenceHighWater c) (Overlays c) (Generations c) (f (Transactions c))
    (Inventories c) (OverlayLineage c) (Ephemeral c).
Definition set_Inventories f (c : coordinationState) : coordinationState :=
  mkCoord (FenceHighWater c) (Overlays c) (Generations c) (Transactions c)
    (f (Inventories c)) (OverlayLineage c) (Ephemeral c).
Definition set_Lineage f (c : coordinationState) : coordinationState :=
  mkCoord (FenceHighWater c) (Overlays c) (Generations c) (Transactions c)
    (Inventories c) (f (OverlayLineage c)) (Ephemeral c).
Definition set_Ephemeral f (c : coordinationState) : coordinationState :=
  mkCoord (FenceHighWater c) (Overlays c) (Generations c) (Transactions c)
    (Inventories c) (OverlayLineage c) (f (Ephemeral c)).

Definition overlayClaims (s : Server) : gmap Z overlayClaim := Overlays (coord s).
Definition transactions (s : Server) : gmap string applyTransaction := Transactions (coord s).
Definition generations (s : Server) : gmap string generationState := Generations (coord s).

(** ** Errors

    One constructor per refusal of the source; the texts of the messages are
    not modelled, the values they name are. *)
Inductive err :=
| EMutationNeedsLab | EFenceRequired | ELeaseGone (lab : string) | EFenceStale (lab : string)
| ELabRequired | EToken
| EAlreadyLeased (lab holder : string) | ELeasedForRecovery (lab holder : string)
| EPersist
| ETopologyRequired | ENotReserved (vni : Z) | EReservationExpired (vni : Z)
| EZeroVNI | EOwnersUnreadable | ECollecting (vni : Z)
| EOwnerless (vni : Z) | EOwnedBy (vni : Z) (owner : string)
| EClaimedBy (vni : Z) (lab : string) | EOlderFence (vni : Z)
| EAdoption (vni : Z) (rollbackErrs : nat)
| EGenerationRequired | EMode | ENegativeUngraded | EWireRequired | EModeMismatch
| EUnfinished (generation : string) | ECompareAndSwap (expected node : string)
| ENotPrepared | ENotApplied | EStateUnverified | ECannotCommit | ENotAwaiting
| ENoRecoveryTransaction | ENoSolveRecord | EPrestateUnsafe | ENoPreviousGeneration
| ERecoveryActive | ERecoveryNeedsTakeover | EForwardUnacknowledged
| ENotEphemeral | EHeldByOther (owner : string) | EExpired
| EHeld (holder : string) | EBusy (kind : string) | EDeferred | EProblems
| ERequest (what : string) | EHost (what : string).

Abbreviation M A := (SE Server err A) (only parsing).

(** ** Persistence *)

(** [saveCoordinationLocked]: without a store it is a no-op; otherwise the
    whole coordination state replaces the journal, or the write fails and
    the journal keeps its old content. *)
Definition saveCoordinationLocked : M unit := fun s =>
  match store s with
  | None => (s, Ok tt)
  | Some st =>
      match srvFaults s with
      | true :: fs => (set_store (Some st) fs s, Err EPersist)
      | fs => (set_store (Some (mkStore (Some (coord s)) (stTopology st) (stHolds st)))
                 (tail fs) s, Ok tt)
      end
  end.

(** ** Leases and fences *)

Definition defaultMutationLeaseSeconds : Z := 90.
Definition maxMutationLeaseSeconds : Z := 600.

Definition leaseTTL (seconds : Z) : Duration :=
  let seconds := if seconds <=? 0 then defaultMutationLeaseSeconds else seconds in
  let seconds := if maxMutationLeaseSeconds <? seconds then maxMutationLeaseSeconds
                 else seconds in
  seconds * second.

(** A lease, and a claim that is not live, lapse when the clock reaches
    their deadline. *)
Definition leaseExpired (now : Time) (l : clusterLease) : bool := negb (before now (lUntil l)).
Definition claimExpired (now : Time) (c : overlayClaim) : bool :=
  negb (cLive c) && negb (isZero (cUntil c)) && negb (before now (cUntil c)).

Definition expire (now : Time) (s : Server) : Server :=
  set_coord (set_Overlays (map_drop (fun _ c => claimExpired now c)))
    (set_mutations (map_drop (fun _ l => leaseExpired now l)) s).

(** [expireCoordinationLocked]; it returns whether anything was dropped. *)
Definition expireCoordinationLocked (now : Time) : M bool := fun s =>
  (expire now s,
   Ok (map_any (fun _ l => leaseExpired now l) (mutations s)
       || map_any (fun _ c => claimExpired now c) (overlayClaims s))).

(** [fenceErrorLocked]: the guard every fenced operation starts with. *)
Definition fenceErrorLocked (lab : string) (fence : Fence) (now : Time) (s : Server)
    : result err unit :=
  if decide (lab = "") then Err EMutationNeedsLab
  else if decide (fToken fence = "") then Err EFenceRequired
  else if fGeneration fence =? 0 then Err EFenceRequired
  else match mutations s !! lab with
       | None => Err (ELeaseGone lab)
       | Some lease =>
           if negb (before now (lUntil lease)) then Err (ELeaseGone lab)
           else if negb (fGeneration (lFence lease) =? fGeneration fence) then
             Err (EFenceStale lab)
           else if decide (fToken (lFence lease) = fToken fence) then Ok tt
           else Err (EFenceStale lab)
       end.

Definition checkFence (lab : string) (fence : Fence) (now : Time) : M unit :=
  inspect (fenceErrorLocked lab fence now).

(** [requireMutationFence]: the two clock readings may differ. *)
Definition requireMutationFence (lab : string) (fence : Fence) (now now' : Time) : M unit :=
  changed ← expireCoordinationLocked now;
  when changed saveCoordinationLocked;;
  checkFence lab fence now'.

(** [LeaseAcquireRequest] and friends. *)
Record LeaseAcquireRequest := mkAcquire {
  aqLab : string; aqHolder : string; aqTTLSeconds : Z
}.
Record LeaseRenewRequest := mkRenew { rnLab : string; rnFence : Fence; rnTTLSeconds : Z }.
Record LeaseReleaseRequest := mkRelease { rlLab : string; rlFence : Fence }.
Record LeaseResponse := mkLeaseResponse {
  lrLab : string; lrFence : Fence; lrExpiresAt : Time
}.

Definition hw (s : Server) (lab : string) : Z := lookup_or 0 (FenceHighWater (coord s)) lab.

(** [opaqueFenceToken] is an argument: the 32 random bytes, or the error of
    the random source. *)
Definition acquireMutationLease (token : result err string) (req : LeaseAcquireRequest)
    (now : Time) : M LeaseResponse :=
  refuse (bool_decide (aqLab req = "")) ELabRequired;;
  token ← lift token;
  changed ← expireCoordinationLocked now;
  s ← get;
  match mutations s !! aqLab req with
  | Some held =>
      match transactions s !! aqLab req with
      | Some tx =>
          if decide (txPhase tx = transactionRecovering)
          then fail (ELeasedForRecovery (aqLab req) (lHolder held))
          else fail (EAlreadyLeased (aqLab req) (lHolder held))
      | None => fail (EAlreadyLeased (aqLab req) (lHolder held))
      end
  | None =>
      let generation := wrap64 (hw s (aqLab req) + 1) in
      modify (set_coord (set_HighWater <[aqLab req := generation]>));;
      let until := now + leaseTTL (aqTTLSeconds req) in
      let lease := mkLease (aqHolder req) (mkFence token generation) until in
      modify (set_mutations <[aqLab req := lease]>);;
      when (changed || bool_decide (is_Some (store s)))
        (try_catch saveCoordinationLocked (fun e =>
           modify (set_mutations (delete (aqLab req)));; fail e));;
      mret (mkLeaseResponse (aqLab req) (lFence lease) until)
  end.

(** The reservations a fence holds: not live, of that lab and generation. *)
Definition ownReservation (lab : string) (fence : Fence) (_ : Z) (c : overlayClaim) : bool :=
  negb (cLive c) && bool_decide (cLab c = lab) && (cGeneration c =? fGeneration fence).

(** The prologue shared by the fenced lease operations: expire, then check
    the fence; a refusal still persists what expired, ignoring failure. *)
Definition expireAndCheck (lab : string) (fence : Fence) (now : Time) : M bool :=
  changed ← expireCoordinationLocked now;
  try_catch (checkFence lab fence now) (fun e =>
    when changed (ignore saveCoordinationLocked);; fail e);;
  mret changed.

Definition extendClaim (until : Time) (c : overlayClaim) : overlayClaim :=
  mkClaim (cLab c) (cGeneration c) until (cLive c).

Definition renewMutationLease (req : LeaseRenewRequest) (now : Time) : M LeaseResponse :=
  changed ← expireAndCheck (rnLab req) (rnFence req) now;
  s ← get;
  match mutations s !! rnLab req with
  | None => fail (ELeaseGone (rnLab req)) (* excluded by the check above *)
  | Some lease =>
      let until := now + leaseTTL (rnTTLSeconds req) in
      modify (set_mutations <[rnLab req := mkLease (lHolder lease) (lFence lease) until]>);;
      let own := ownReservation (rnLab req) (rnFence req) in
      modify (set_coord (set_Overlays (map_touch own (extendClaim until))));;
      when (changed || map_any own (overlayClaims s)) saveCoordinationLocked;;
      mret (mkLeaseResponse (rnLab req) (lFence lease) until)
  end.

Definition releaseMutationLease (req : LeaseReleaseRequest) (now : Time) : M unit :=
  changed ← expireAndCheck (rlLab req) (rlFence req) now;
  s ← get;
  modify (set_mutations (delete (rlLab req)));;
  let own := ownReservation (rlLab req) (rlFence req) in
  modify (set_coord (set_Overlays (map_drop own)));;
  when (changed || map_any own (overlayClaims s)) saveCoordinationLocked.

(** [mutationLeaseHolder]: the expiry it performs is not persisted. *)
Definition mutationLeaseHolder (lab : string) (now : Time) : M string :=
  _ ← expireCoordinationLocked now;
  s ← get;
  mret (match mutations s !! lab with
        | Some lease => if decide (lHolder lease = "") then "a fenced cluster operation"
                        else lHolder lease
        | None => ""
        end).

(** ** Overlay reservations *)

(** [overlayVNIsOnNode] of [internal/agent/apply_transaction.go]. *)
Definition crossNodeOn (node : string) (l : Link) : bool :=
  match linkNodes l with
  | Some (a, b) => negb (bool_decide (a = b))
                   && (bool_decide (a = node) || bool_decide (b = node))
  | None => false
  end.

Definition overlayVNIsOnNode (top : Topology) (node : string) : list Z :=
  dedup (omap (fun o => l ← o;
                 if negb (linkVNI l =? 0) && crossNodeOn node l then Some (linkVNI l)
                 else None)
           (topLinks top)).

(** [crossNodeVNIClaims]. *)
Definition crossNodeVNIClaims (top : Topology) (node : string) (vni : Z) : nat :=
  length (List.filter (fun o => match o with
                           | Some l => (linkVNI l =? vni) && crossNodeOn node l
                           | None => false
                           end) (topLinks top)).

(** [requireOverlayReservations]. *)
Definition checkReserved (lab : string) (fence : Fence) (now : Time) (s : Server) (vni : Z)
    : result err unit :=
  match overlayClaims s !! vni with
  | None => Err (ENotReserved vni)
  | Some c =>
      if negb (bool_decide (cLab c = lab)) || negb (cGeneration c =? fGeneration fence)
      then Err (ENotReserved vni)
      else if claimExpired now c then Err (EReservationExpired vni)
      else Ok tt
  end.

Fixpoint checkAllReserved (lab : string) (fence : Fence) (now : Time) (vnis : list Z)
    (s : Server) : result err unit :=
  match vnis with
  | [] => Ok tt
  | vni :: vnis =>
      match checkReserved lab fence now s vni with
      | Ok _ => checkAllReserved lab fence now vnis s
      | Err e => Err e
      end
  end.

Definition requireOverlayReservations (top : option Topology) (fence : Fence) (now : Time)
    : M unit :=
  match top with
  | None => fail ETopologyRequired
  | Some top =>
      s ← get;
      let vnis := overlayVNIsOnNode top (srvNode s) in
      if decide (vnis = []) then mret tt else
      changed ← expireCoordinationLocked now;
      when changed saveCoordinationLocked;;
      inspect (checkAllReserved (topName top) fence now vnis)
  end.

(** [sortedVNIs]. *)
Definition sortedVNIs (vnis : list Z) : result err (list Z) :=
  if decide (0 ∈ vnis) then Err EZeroVNI else Ok (sortInts (dedup vnis)).

(** [legacyOwnerlessOverlayProofLocked]: the topology in memory, or else the
    persisted one, must name this lab and claim the VNI exactly once on this
    node, and no other lab in memory may claim it. *)
Definition persistedTopology (s : Server) (lab : string) : option Topology :=
  st ← store s;
  raw ← stTopology st !! lab;
  match raw with RawWire w => wTopology w | _ => None end.

Definition legacyOwnerlessOverlayProofLocked (lab : string) (vni : Z) (s : Server)
    : result err unit :=
  match (match current s !! lab with
         | Some top => Some top
         | None => persistedTopology s lab
         end) with
  | None => Err (EOwnerless vni)
  | Some top =>
      if negb (bool_decide (topName top = lab)) then Err (EOwnerless vni)
      else if negb (Nat.eqb (crossNodeVNIClaims top (srvNode s) vni) 1) then
        Err (EOwnerless vni)
      else if map_any (fun otherLab other =>
                negb (bool_decide (otherLab = lab))
                && Nat.ltb 0 (crossNodeVNIClaims other (srvNode s) vni)) (current s) then
        Err (EOwnerless vni)
      else Ok tt
  end.

(** The kernel as one reservation sees it: the overlay owners that were
    listed (or the listing error), and the outcome of stamping an owner onto
    a legacy overlay and of reverting that. *)
Record Kernel := mkKernel {
  kOwners : result err (gmap Z string);
  kAdopt : Z -> bool;
  kRevert : Z -> bool
}.

Record OverlayReservationRequest := mkReserve {
  rqLab : string; rqHold : string; rqFence : Fence; rqVNIs : list Z
}.
Record OverlayReservationResponse := mkReserved {
  rsLab : string; rsVNIs : list Z; rsExpiresAt : Time
}.

(** The checking loop: every VNI is examined before any is claimed; it
    returns the ownerless overlays that have to be adopted. *)
Definition examineVNI (req : OverlayReservationRequest) (owners : gmap Z string)
    (s : Server) (vni : Z) : result err (list Z) :=
  if decide (vni ∈ gcCollecting s) then Err (ECollecting vni)
  else
    let legacy : result err (list Z) :=
      match owners !! vni with
      | Some owner =>
          if decide (owner = rqLab req) then Ok []
          else if decide (owner = "") then
            match legacyOwnerlessOverlayProofLocked (rqLab req) vni s with
            | Ok _ => Ok [vni]
            | Err e => Err e
            end
          else Err (EOwnedBy vni owner)
      | None => Ok []
      end in
    match legacy with
    | Err e => Err e
    | Ok legacy =>
        match overlayClaims s !! vni with
        | None => Ok legacy
        | Some c =>
            if negb (bool_decide (cLab c = rqLab req)) then Err (EClaimedBy vni (cLab c))
            else if cLive c then Ok legacy
            else if negb (cGeneration c =? fGeneration (rqFence req)) then
              Err (EOlderFence vni)
            else Ok legacy
        end
    end.

Fixpoint examineVNIs (req : OverlayReservationRequest) (owners : gmap Z string)
    (s : Server) (vnis : list Z) : result err (list Z) :=
  match vnis with
  | [] => Ok []
  | vni :: vnis =>
      match examineVNI req owners s vni with
      | Err e => Err e
      | Ok l => match examineVNIs req owners s vnis with
                | Err e => Err e
                | Ok l' => Ok (l ++ l')
                end
      end
  end.

(** The claiming loop: a live tunnel of the lab keeps living under the newer
    fence, anything else becomes a reservation until the lease ends. *)
Definition claimOne (lab : string) (fence : Fence) (until : Time) (vni : Z)
    (m : gmap Z overlayClaim) : gmap Z overlayClaim :=
  match m !! vni with
  | Some c =>
      if cLive c then
        <[vni := mkClaim (cLab c) (fGeneration fence) (cUntil c) true]> m
      else <[vni := mkClaim lab (fGeneration fence) until false]> m
  | None => <[vni := mkClaim lab (fGeneration fence) until false]> m
  end.

Definition claimAll (lab : string) (fence : Fence) (until : Time) (vnis : list Z)
    (m : gmap Z overlayClaim) : gmap Z overlayClaim :=
  fold_left (fun m vni => claimOne lab fence until vni m) vnis m.

(** Whether the claiming loop set [changed]: it does not when every VNI is
    already live under this very fence. *)
Definition claimChanges (fence : Fence) (m : gmap Z overlayClaim) (vni : Z) : bool :=
  match m !! vni with
  | Some c => negb (cLive c) || negb (cGeneration c =? fGeneration fence)
  | None => true
  end.

(** [before] and [restoreOverlayClaimsLocked]. *)
Abbreviation ClaimsBefore := (list (Z * option overlayClaim)) (only parsing).
Definition recordBefore (vnis : list Z) (m : gmap Z overlayClaim) : ClaimsBefore :=
  map (fun vni => (vni, m !! vni)) vnis.
Definition restoreClaims (before : ClaimsBefore) (m : gmap Z overlayClaim)
    : gmap Z overlayClaim :=
  fold_left (fun m '(vni, prior) => partial_alter (fun _ => prior) vni m) before m.

Definition liveClaim (lab : string) (generation : Z) : overlayClaim :=
  mkClaim lab generation 0 true.

(** [rollbackLegacyAdoptionsLocked]: an adoption whose revert fails keeps its
    live claim; every other claim returns to what it was. It returns the
    number of errors. *)
Definition rollbackLegacyAdoptionsLocked (k : Kernel) (lab : string) (adopted : list Z)
    (before : ClaimsBefore) : M nat := fun s =>
  let kept := filter (fun vni => kRevert k vni = false) (rev adopted) in
  let keep (m : gmap Z overlayClaim) vni :=
    <[vni := liveClaim lab (match m !! vni with Some c => cGeneration c | None => 0 end)]> m in
  let s1 := set_coord (set_Overlays (fun m =>
              restoreClaims (filter (fun p => p.1 ∉ kept) before)
                (fold_left keep kept m))) s in
  match saveCoordinationLocked s1 with
  | (s2, Ok _) => (s2, Ok (length kept))
  | (s2, Err _) => (s2, Ok (S (length kept)))
  end.

(** The adoption loop. *)
Fixpoint adoptAll (k : Kernel) (lab : string) (fence : Fence) (before : ClaimsBefore)
    (legacy adopted : list Z) : M unit :=
  match legacy with
  | [] => mret tt
  | vni :: legacy =>
      if kAdopt k vni then
        modify (set_coord (set_Overlays <[vni := liveClaim lab (fGeneration fence)]>));;
        adoptAll k lab fence before legacy (adopted ++ [vni])
      else
        n ← rollbackLegacyAdoptionsLocked k lab adopted before;
        fail (EAdoption vni n)
  end.

Definition reserveOverlays (k : Kernel) (req : OverlayReservationRequest) (now : Time)
    : M OverlayReservationResponse :=
  vnis ← lift (sortedVNIs (rqVNIs req));
  refuse (bool_decide (rqLab req = "")) ELabRequired;;
  owners ← lift (kOwners k);
  changed ← expireAndCheck (rqLab req) (rqFence req) now;
  s ← get;
  match mutations s !! rqLab req with
  | None => fail (ELeaseGone (rqLab req)) (* excluded by the check above *)
  | Some lease =>
      legacy ← lift (examineVNIs req owners s vnis);
      let before := recordBefore vnis (overlayClaims s) in
      modify (set_coord (set_Overlays
        (claimAll (rqLab req) (rqFence req) (lUntil lease) vnis)));;
      when (changed || existsb (claimChanges (rqFence req) (overlayClaims s)) vnis)
        (try_catch saveCoordinationLocked (fun e =>
           modify (set_coord (set_Overlays (restoreClaims before)));; fail e));;
      adoptAll k (rqLab req) (rqFence req) before legacy [];;
      when (negb (bool_decide (legacy = []))) saveCoordinationLocked;;
      mret (mkReserved (rqLab req) vnis (lUntil lease))
  end.

(** [promoteOverlayReservations]: it stops at the first VNI this fence does
    not hold, keeping (in memory) the promotions before it. *)
Fixpoint promoteLoop (lab : string) (fence : Fence) (vnis : list Z) (changed : bool)
    : M bool :=
  match vnis with
  | [] => mret changed
  | vni :: vnis =>
      s ← get;
      match overlayClaims s !! vni with
      | None => fail (ENotReserved vni)
      | Some c =>
          if negb (bool_decide (cLab c = lab)) || negb (cGeneration c =? fGeneration fence)
          then fail (ENotReserved vni)
          else if cLive c then promoteLoop lab fence vnis changed
          else
            modify (set_coord (set_Overlays
              <[vni := mkClaim (cLab c) (cGeneration c) 0 true]>));;
            promoteLoop lab fence vnis true
      end
  end.

Definition promoteOverlayReservations (lab : string) (fence : Fence) (vnis : list Z)
    (now : Time) : M unit :=
  checkFence lab fence now;;
  changed ← promoteLoop lab fence vnis false;
  when changed saveCoordinationLocked.

(** [releaseOverlayClaims]: an empty list releases every claim of the lab. *)
Definition releaseOverlayClaims (lab : string) (vnis : list Z) : M unit :=
  s ← get;
  let drop vni (c : overlayClaim) :=
    bool_decide (cLab c = lab) && (bool_decide (vnis = []) || bool_decide (vni ∈ vnis)) in
  modify (set_coord (set_Overlays (map_drop drop)));;
  when (map_any drop (overlayClaims s)) saveCoordinationLocked.

(** ** What the operations leave alone *)

Lemma save_inv s :
  saveCoordinationLocked s = (s, Ok tt) /\ store s = None \/
  (exists st fs, store s = Some st /\ srvFaults s = true :: fs /\
     saveCoordinationLocked s = (set_store (Some st) fs s, Err EPersist)) \/
  (exists st, store s = Some st /\
     saveCoordinationLocked s =
       (set_store (Some (mkStore (Some (coord s)) (stTopology st) (stHolds st)))
          (tail (srvFaults s)) s, Ok tt)).
Proof.
  unfold saveCoordinationLocked. destruct (store s) as [st|] eqn:E; [|by left].
  destruct (srvFaults s) as [|[] fs] eqn:F; simpl; right; [right|left|right]; eauto 6.
Qed.

(** A persistence write touches the store only. *)
Lemma mrel_save (R : Server -> Server -> Prop) :
  (forall s st fs, store s = Some st -> R s (set_store (Some st) fs s)) ->
  (forall s st fs, store s = Some st ->
     R s (set_store (Some (mkStore (Some (coord s)) (stTopology st) (stHolds st))) fs s)) ->
  (forall s, R s s) -> mrel R saveCoordinationLocked.
Proof.
  intros H1 H2 H3 s. unfold final.
  destruct (save_inv s) as [[-> _]|[(st & fs & Hst & Hf & ->)|(st & Hst & ->)]]; simpl; auto.
Qed.

(** *** Fencing: what every operation but an acquisition does to leases

    [quiet s s']: no lease appears or changes its fence, the high-water marks
    are the same, and the journal's high-water marks are the old ones or the
    current ones. *)
Definition journalHW (s : Server) : option (gmap string Z) :=
  st ← store s; FenceHighWater <$> stCoordination st.

Definition quiet (s s' : Server) : Prop :=
  (forall lab l', mutations s' !! lab = Some l' ->
     exists l, mutations s !! lab = Some l /\ lFence l = lFence l') /\
  FenceHighWater (coord s') = FenceHighWater (coord s) /\
  (store s' = None <-> store s = None) /\
  (journalHW s' = journalHW s \/ journalHW s' = Some (FenceHighWater (coord s))).

#[export] Instance quiet_preorder : PreOrder quiet.
Proof.
  split.
  - intros s. split_and!; eauto.
  - intros s1 s2 s3 (A1 & B1 & C1 & D1) (A2 & B2 & C2 & D2). split_and!.
    + intros lab l Hl. destruct (A2 _ _ Hl) as (l2 & Hl2 & E2).
      destruct (A1 _ _ Hl2) as (l1 & Hl1 & E1). exists l1. by rewrite E1.
    + congruence.
    + by rewrite C2.
    + rewrite B1 in D2. destruct D2 as [->|?]; auto.
Qed.

(** An update that leaves leases, high-water marks and store alone. *)
Lemma quiet_frame s s' :
  mutations s' = mutations s -> FenceHighWater (coord s') = FenceHighWater (coord s) ->
  store s' = store s -> quiet s s'.
Proof.
  intros Hm Hh Hs. unfold quiet, journalHW. rewrite Hm, Hh, Hs. split_and!; eauto.
Qed.

(** Leases may be dropped. *)
Lemma quiet_drop s (f : gmap string clusterLease -> gmap string clusterLease) :
  f (mutations s) ⊆ mutations s -> quiet s (set_mutations f s).
Proof.
  intros Hf. split_and!; simpl; eauto.
  intros lab l Hl. exists l. split; [|done]. by eapply lookup_weaken.
Qed.

Lemma quiet_save : mrel quiet saveCoordinationLocked.
Proof.
  apply mrel_save; [| |by intros].
  - intros s st fs Hst. split_and!; simpl; eauto; [by rewrite Hst|].
    left. unfold journalHW. simpl. by rewrite Hst.
  - intros s st fs Hst. split_and!; simpl; eauto. by rewrite Hst.
Qed.

Lemma map_drop_subseteq {K V} `{Countable K} drop (m : gmap K V) : map_drop drop m ⊆ m.
Proof. apply map_filter_subseteq. Qed.

Lemma quiet_expire now : mrel quiet (expireCoordinationLocked now).
Proof.
  intros s. unfold final, expireCoordinationLocked, expire. simpl.
  etransitivity; [apply (quiet_drop s), map_drop_subseteq|by apply quiet_frame].
Qed.

#[export] Hint Resolve quiet_save quiet_expire : quiet.
Ltac quiet_solve :=
  mrel_steps;
  try solve [ auto with quiet
            | apply quiet_frame; reflexivity
            | apply quiet_drop; first [apply map_drop_subseteq | apply delete_subseteq] ].

Lemma quiet_requireMutationFence lab fence now now' :
  mrel quiet (requireMutationFence lab fence now now').
Proof. unfold requireMutationFence, checkFence. quiet_solve. Qed.

Lemma quiet_expireAndCheck lab fence now : mrel quiet (expireAndCheck lab fence now).
Proof. unfold expireAndCheck, checkFence. quiet_solve. Qed.

#[export] Hint Resolve quiet_requireMutationFence quiet_expireAndCheck : quiet.

(** A renewal keeps the fence of the lease it extends. *)
Lemma quiet_extend s lab lease until :
  mutations s !! lab = Some lease ->
  quiet s (set_mutations <[lab := mkLease (lHolder lease) (lFence lease) until]> s).
Proof.
  intros Hl. split_and!; simpl; eauto. intros lab' l'.
  destruct (decide (lab = lab')) as [->|]; simplify_map_eq; eauto.
  intros [= <-]. eauto.
Qed.

Lemma quiet_renewMutationLease req now : mrel quiet (renewMutationLease req now).
Proof.
  unfold renewMutationLease. apply mrel_bind; [apply _|apply quiet_expireAndCheck|].
  intros changed. apply mrel_get_bind. intros s.
  destruct (mutations s !! rnLab req) as [lease|] eqn:Hl; [|reflexivity].
  apply mrel_modify_then; [apply _|by apply quiet_extend|intros _]. quiet_solve.
Qed.

Lemma quiet_releaseMutationLease req now : mrel quiet (releaseMutationLease req now).
Proof. unfold releaseMutationLease. quiet_solve. Qed.

Lemma quiet_requireOverlayReservations top fence now :
  mrel quiet (requireOverlayReservations top fence now).
Proof. unfold requireOverlayReservations. quiet_solve. Qed.

Lemma quiet_rollback k lab adopted before :
  mrel quiet (rollbackLegacyAdoptionsLocked k lab adopted before).
Proof.
  intros s. unfold final, rollbackLegacyAdoptionsLocked.
  match goal with |- context [saveCoordinationLocked ?s1] => set (s1' := s1) end.
  pose proof (quiet_save s1') as Hq. unfold final in Hq.
  destruct (saveCoordinationLocked s1') as [s2 [?|?]]; simpl in *;
    (etransitivity; [|done]; by apply quiet_frame).
Qed.

Lemma quiet_adoptAll k lab fence before legacy adopted :
  mrel quiet (adoptAll k lab fence before legacy adopted).
Proof.
  revert adopted. induction legacy as [|vni legacy IH]; intros adopted; simpl;
    quiet_solve. apply quiet_rollback.
Qed.

Lemma quiet_reserveOverlays k req now : mrel quiet (reserveOverlays k req now).
Proof. unfold reserveOverlays. quiet_solve. apply quiet_adoptAll. Qed.

Lemma quiet_promoteOverlayReservations lab fence vnis now :
  mrel quiet (promoteOverlayReservations lab fence vnis now).
Proof.
  unfold promoteOverlayReservations, checkFence. quiet_solve.
  generalize false. induction vnis as [|v vnis IH]; intros b; simpl; quiet_solve.
Qed.

Lemma quiet_releaseOverlayClaims lab vnis : mrel quiet (releaseOverlayClaims lab vnis).
Proof. unfold releaseOverlayClaims. quiet_solve. Qed.

Lemma quiet_mutationLeaseHolder lab now : mrel quiet (mutationLeaseHolder lab now).
Proof. unfold mutationLeaseHolder. quiet_solve. Qed.
