(* ===== verification/Transactions.v ===== *)
(** * Deployment generations: prepare, apply, commit, finalize, destroy

    Models the transactional half of [internal/agent/coordination.go] (from
    [finishDestroyedLab] to [committedGenerations]) and
    [RequireTransactionMode] of [internal/agent/agent.go]. *)

From stdpp Require Import base gmap strings pretty list fin_maps.
From Stdlib Require Import ZArith Lia Ascii.
From S2P Require Import Prelude Model Coordination.

Open Scope Z_scope.

(** ** Modes *)

Definition ModePlatform : string := "platform".
Definition ModeSolve : string := "solve".

(** [RequireTransactionMode]. *)
Definition RequireTransactionMode (mode : string) : result err string :=
  let m := toLower (trimSpace mode) in
  if decide (m = ModePlatform) then Ok ModePlatform
  else if decide (m = ModeSolve) then Ok ModeSolve
  else Err EMode.

(** ** Transaction updates *)

Definition tx_with_phase (p : transactionPhase) (failure : string) (tx : applyTransaction)
    : applyTransaction :=
  mkTx (txReq tx) (txFenceGeneration tx) (txEvid tx) p (txPrestate tx) failure
    (txRecov tx) (txApplied tx) (txCommitted tx).
Definition tx_with_applied (b : bool) (tx : applyTransaction) : applyTransaction :=
  mkTx (txReq tx) (txFenceGeneration tx) (txEvid tx) (txPhase tx) (txPrestate tx)
    (txFailure tx) (txRecov tx) b (txCommitted tx).
Definition tx_with_committed (b : bool) (tx : applyTransaction) : applyTransaction :=
  mkTx (txReq tx) (txFenceGeneration tx) (txEvid tx) (txPhase tx) (txPrestate tx)
    (txFailure tx) (txRecov tx) (txApplied tx) b.
Definition tx_with_evidence (e : txEvidence) (tx : applyTransaction) : applyTransaction :=
  mkTx (txReq tx) (txFenceGeneration tx) e (txPhase tx) (txPrestate tx)
    (txFailure tx) (txRecov tx) (txApplied tx) (txCommitted tx).
Definition tx_with_recovery (r : txRecovery) (tx : applyTransaction) : applyTransaction :=
  mkTx (txReq tx) (txFenceGeneration tx) (txEvid tx) (txPhase tx) (txPrestate tx)
    (txFailure tx) r (txApplied tx) (txCommitted tx).

Definition tGeneration (tx : applyTransaction) : string := txGeneration (txReq tx).
Definition tPreviousGen (tx : applyTransaction) : string := txPreviousGen (txReq tx).

Definition genOf (s : Server) (lab : string) : generationState :=
  lookup_or zeroGen (generations s) lab.

Definition putTx (lab : string) (tx : applyTransaction) : M unit :=
  modify (set_coord (set_Transactions <[lab := tx]>)).

(** The lookup every phase of a transaction starts with: the lab's
    transaction must be this generation, prepared by this very fence. *)
Definition ownTransaction (lab : string) (fence : Fence) (generation : string) (e : err)
    : M applyTransaction :=
  s ← get;
  match transactions s !! lab with
  | Some tx =>
      if decide (tGeneration tx = generation) then
        if txFenceGeneration tx =? fGeneration fence then mret tx else fail e
      else fail e
  | None => fail e
  end.

(** A recovery acts under a newer fence, so only the generation is compared. *)
Definition generationTransaction (lab generation : string) (e : err) : M applyTransaction :=
  s ← get;
  match transactions s !! lab with
  | Some tx => if decide (tGeneration tx = generation) then mret tx else fail e
  | None => fail e
  end.

(** ** Prepare *)

(** [Serialise]: the mode fields, the owner and the peers keep their zero value. *)
Definition serialise (top : Topology) : Wire :=
  mkWire (topName top) "" "" 0 (topEphemeral top) (topEphemeralTTLSeconds top) ""
    (map (fun d => (devID d, devNode d)) (topDevices top)) None (Some top).

(** The bytes of the previously committed topology: the stored record, or
    else the serialised topology in memory. *)
Definition previousTopology (s : Server) (lab : string) : RawMessage :=
  let stored := match store s with
                | Some st => lookup_or RawEmpty (stTopology st) lab
                | None => RawEmpty
                end in
  match stored with
  | RawEmpty => match current s !! lab with
                | Some top => RawWire (serialise top)
                | None => RawEmpty
                end
  | raw => raw
  end.

(** The previous mode a prepared transaction records. *)
Definition previousModeOf (s : Server) (lab : string) (previous : RawMessage)
    : string * Z :=
  let '(mode, ungradedAS) := match previous with
                             | RawWire w => (wMode w, wUngraded w)
                             | _ => ("", 0)
                             end in
  if decide (mode = "") then
    match previous with
    | RawEmpty =>
        let m := lookup_or "" (modes s) lab in
        if decide (m = "") then (ModePlatform, 0)
        else (m, lookup_or 0 (ungraded s) lab)
    | _ => (ModePlatform, ungradedAS)
    end
  else (mode, ungradedAS).

Definition prepareGeneration (lab : string) (fence : Fence) (expected generation : string)
    (requested : RawMessage) (mode : string) (ungradedAS : Z)
    (peerUnderlay : gmap string string) (prune : bool) (onlySteps : list string)
    (stateProofs : list StateProof) (prestate : option transactionInventory)
    (now : Time) : M unit :=
  refuse (bool_decide (generation = "")) EGenerationRequired;;
  desiredMode ← lift (RequireTransactionMode mode);
  refuse (ungradedAS <? 0) ENegativeUngraded;;
  requestedWire ← lift (match requested with
                        | RawWire w => Ok w
                        | _ => Err EWireRequired
                        end);
  requestedMode ← lift (RequireTransactionMode (wMode requestedWire));
  refuse (negb (bool_decide (requestedMode = desiredMode))
          || negb (wUngraded requestedWire =? ungradedAS)) EModeMismatch;;
  s ← get;
  let previous := previousTopology s lab in
  checkFence lab fence now;;
  let state := genOf s lab in
  match transactions s !! lab with
  | Some tx =>
      if bool_decide (tGeneration tx = generation)
         && (txFenceGeneration tx =? fGeneration fence)
      then mret tt
      else fail (EUnfinished (tGeneration tx))
  | None =>
      refuse (negb (bool_decide (gCommitted state = expected)))
        (ECompareAndSwap expected (gCommitted state));;
      let '(previousMode, previousUngraded) := previousModeOf s lab previous in
      _ ← lift (RequireTransactionMode previousMode);
      let req := mkTxRequest generation expected requested previous (gCommitted state)
                   previousMode previousUngraded desiredMode ungradedAS peerUnderlay
                   prune onlySteps stateProofs in
      let tx := mkTx req (fGeneration fence) zeroEvidence transactionPrepared
                  (default zeroInventory prestate) "" zeroRecovery false false in
      modify (set_coord (fun c =>
        set_Generations <[lab := mkGen (gCommitted state) generation (gAncestors state)]>
          (set_Transactions <[lab := tx]> c)));;
      try_catch saveCoordinationLocked (fun e =>
        modify (set_coord (fun c =>
          set_Generations <[lab := mkGen (gCommitted state) "" (gAncestors state)]>
            (set_Transactions (delete lab) c)));;
        fail e)
  end.

(** ** Apply *)

Definition checkPreparedGeneration (lab : string) (fence : Fence) (generation : string)
    (now : Time) : M unit :=
  checkFence lab fence now;;
  _ ← ownTransaction lab fence generation ENotPrepared;
  mret tt.

Definition requireModes (tx : applyTransaction) : M unit :=
  _ ← lift (RequireTransactionMode (txMode (txReq tx)));
  _ ← lift (RequireTransactionMode (txPreviousMode (txReq tx)));
  mret tt.

Definition transactionForApply (lab : string) (fence : Fence) (generation : string)
    (now : Time) : M applyTransaction :=
  checkFence lab fence now;;
  tx ← ownTransaction lab fence generation ENotPrepared;
  requireModes tx;;
  mret tx.

Definition markGenerationApplying (lab : string) (fence : Fence) (generation : string)
    (now : Time) : M unit :=
  checkFence lab fence now;;
  tx ← ownTransaction lab fence generation ENotPrepared;
  putTx lab (tx_with_phase transactionApplying "" tx);;
  saveCoordinationLocked.

Definition markGenerationApplied (lab : string) (fence : Fence) (generation : string)
    (now : Time) : M unit :=
  checkFence lab fence now;;
  tx ← ownTransaction lab fence generation ENotPrepared;
  putTx lab (tx_with_phase transactionApplied "" (tx_with_applied true tx));;
  saveCoordinationLocked.

(** The [recordGeneration*] family. *)
Definition recordEvidence (lab : string) (fence : Fence) (generation : string)
    (now : Time) (f : txEvidence -> txEvidence) : M unit :=
  checkFence lab fence now;;
  tx ← ownTransaction lab fence generation ENotPrepared;
  putTx lab (tx_with_evidence (f (txEvid tx)) tx);;
  saveCoordinationLocked.

Definition recordGenerationSolveTransition (lab : string) (fence : Fence)
    (generation : string) (record : option solveTransition) (now : Time) : M unit :=
  match record with
  | None => fail ENoSolveRecord
  | Some r => recordEvidence lab fence generation now (fun e =>
      mkTxEvidence (Some r) (txDirtyCapture e) (txDirtyCaptureKnown e) (txSemantic e)
        (txSemanticKnown e) (txTouched e) (txTouchedVNIs e) (txTouchedKnown e)
        (txStateVerified e))
  end.

Definition recordGenerationDirtyCapture (lab : string) (fence : Fence)
    (generation : string) (ids : list string) (now : Time) : M unit :=
  recordEvidence lab fence generation now (fun e =>
    mkTxEvidence (txSolveTransition e) ids true (txSemantic e)
      (txSemanticKnown e) (txTouched e) (txTouchedVNIs e) (txTouchedKnown e)
      (txStateVerified e)).

Definition recordGenerationSemantic (lab : string) (fence : Fence)
    (generation : string) (ids : list string) (now : Time) : M unit :=
  recordEvidence lab fence generation now (fun e =>
    mkTxEvidence (txSolveTransition e) (txDirtyCapture e) (txDirtyCaptureKnown e) ids
      true (txTouched e) (txTouchedVNIs e) (txTouchedKnown e) (txStateVerified e)).

Definition appendTouchedStrings (existing added : list string) : list string :=
  sortStrings (dedup (filter (fun id => id <> "") (existing ++ added))).
Definition appendTouchedVNIs (existing added : list Z) : list Z :=
  sortInts (dedup (filter (fun vni => vni <> 0) (existing ++ added))).

Definition recordGenerationTouched (lab : string) (fence : Fence) (generation : string)
    (ids : list string) (vnis : list Z) (known : bool) (now : Time) : M unit :=
  recordEvidence lab fence generation now (fun e =>
    mkTxEvidence (txSolveTransition e) (txDirtyCapture e) (txDirtyCaptureKnown e)
      (txSemantic e) (txSemanticKnown e) (appendTouchedStrings (txTouched e) ids)
      (appendTouchedVNIs (txTouchedVNIs e) vnis) (txTouchedKnown e || known)
      (txStateVerified e)).

(** ** Commit *)

Definition ownApplied (lab : string) (fence : Fence) (generation : string) (e : err)
    : M applyTransaction :=
  tx ← ownTransaction lab fence generation e;
  if txApplied tx then mret tx else fail e.

Definition transactionForCommit (lab : string) (fence : Fence) (generation : string)
    (now : Time) : M applyTransaction :=
  checkFence lab fence now;;
  tx ← ownApplied lab fence generation ENotApplied;
  refuse (bool_decide (txPhase tx = transactionRollbackNeeded)
          || bool_decide (txPhase tx = transactionRecovering)
          || bool_decide (txPhase tx = transactionRollbackFailed)) ENotApplied;;
  refuse (negb (bool_decide (txStateProofs (txReq tx) = []))
          && negb (txStateVerified (txEvid tx))) EStateUnverified;;
  requireModes tx;;
  mret tx.

Definition transactionForStateVerify (lab : string) (fence : Fence) (generation : string)
    (now : Time) : M applyTransaction :=
  checkFence lab fence now;;
  ownApplied lab fence generation ENotApplied.

Definition markStateVerified (lab : string) (fence : Fence) (generation : string)
    (now : Time) : M unit :=
  checkFence lab fence now;;
  tx ← ownApplied lab fence generation ENotApplied;
  let e := txEvid tx in
  putTx lab (tx_with_evidence (mkTxEvidence (txSolveTransition e) (txDirtyCapture e)
    (txDirtyCaptureKnown e) (txSemantic e) (txSemanticKnown e) (txTouched e)
    (txTouchedVNIs e) (txTouchedKnown e) true) tx);;
  saveCoordinationLocked.

(** [appendGenerationLineage]. *)
Definition appendGenerationLineage (existing : list string) (previous cur : string)
    : list string :=
  dedup (filter (fun g => g <> "") (existing ++ [previous; cur])).

(** The overlay lineage a commit records: a VNI keeps the generation that
    last touched it, unless this transaction did. *)
Definition commitLineage (tx : applyTransaction) (generation : string)
    (old : gmap Z string) (vnis : list Z) : gmap Z string :=
  fold_left (fun m vni =>
    let previous := lookup_or "" old vni in
    if txTouchedKnown (txEvid tx) && bool_decide (vni ∈ txTouchedVNIs (txEvid tx)) then
      <[vni := generation]> m
    else if decide (previous = "") then <[vni := generation]> m
    else <[vni := previous]> m) vnis ∅.

(** [m[lab] = v], or [delete(m, lab)] when there was no entry. *)
Definition restoreEntry {V} (lab : string) (old : option V) (m : gmap string V)
    : gmap string V :=
  partial_alter (fun _ => old) lab m.

Definition finishCommittedGeneration (lab : string) (fence : Fence) (generation : string)
    (inventory : option transactionInventory) (now : Time) : M unit :=
  checkFence lab fence now;;
  tx ← ownApplied lab fence generation ECannotCommit;
  s ← get;
  let oldState := genOf s lab in
  let state := mkGen generation ""
    (appendGenerationLineage (gAncestors oldState) (gCommitted oldState) generation) in
  let tx' := tx_with_phase transactionCommitted "" (tx_with_committed true tx) in
  modify (set_coord (fun c =>
    let c := set_Generations <[lab := state]> (set_Transactions <[lab := tx']> c) in
    match inventory with
    | Some inv =>
        set_Inventories <[lab := inv]>
          (set_Lineage <[lab := commitLineage tx generation
             (lookup_or ∅ (OverlayLineage (coord s)) lab) (invVNIs inv)]> c)
    | None => c
    end));;
  try_catch saveCoordinationLocked (fun e =>
    modify (set_coord (fun c =>
      set_Lineage (restoreEntry lab (OverlayLineage (coord s) !! lab))
        (set_Inventories (restoreEntry lab (Inventories (coord s) !! lab))
          (set_Generations <[lab := oldState]>
            (set_Transactions <[lab := tx_with_committed false tx']> c)))));;
    fail e).

Definition finalizeCommittedGeneration (lab : string) (fence : Fence) (generation : string)
    (now : Time) : M unit :=
  checkFence lab fence now;;
  tx ← ownTransaction lab fence generation ENotAwaiting;
  refuse (negb (txCommitted tx)) ENotAwaiting;;
  modify (set_coord (set_Transactions (delete lab)));;
  try_catch saveCoordinationLocked (fun e =>
    modify (set_coord (set_Transactions <[lab := tx]>));; fail e).

(** ** Destroy and recover *)

(** Deleting the keys that start with [lab ++ "|"]. *)
Definition dropPrefixed {V} (lab : string) (m : gmap string V) : gmap string V :=
  map_drop (fun key _ => hasPrefix key (lab ++ "|")) m.
Definition clearRepairs (lab : string) (s : Server) : Server :=
  set_repairs (dropPrefixed lab (repairFails s)) (dropPrefixed lab (repairNext s))
    (dropPrefixed lab (partialLinks s)) s.

(** What [finishDestroyedLab] deletes of the journal. *)
Definition forgetLab (lab : string) (c : coordinationState) : coordinationState :=
  mkCoord (FenceHighWater c)
    (map_drop (fun _ claim => bool_decide (cLab claim = lab)) (Overlays c))
    (delete lab (Generations c)) (delete lab (Transactions c))
    (delete lab (Inventories c)) (delete lab (OverlayLineage c))
    (delete lab (Ephemeral c)).

(** What it puts back when the journal could not be written. *)
Definition restoreLab (lab : string) (old c : coordinationState) : coordinationState :=
  mkCoord (FenceHighWater c)
    (filter (fun kv => cLab kv.2 = lab) (Overlays old) ∪ Overlays c)
    (restoreEntry lab (Generations old !! lab) (Generations c))
    (restoreEntry lab (Transactions old !! lab) (Transactions c))
    (restoreEntry lab (Inventories old !! lab) (Inventories c))
    (restoreEntry lab (OverlayLineage old !! lab) (OverlayLineage c))
    (restoreEntry lab (Ephemeral old !! lab) (Ephemeral c)).

Definition finishDestroyedLab (lab : string) (fence : Fence) (now : Time) : M unit :=
  checkFence lab fence now;;
  s ← get;
  modify (set_coord (forgetLab lab));;
  try_catch saveCoordinationLocked (fun e =>
    modify (set_coord (restoreLab lab (coord s)));; fail e);;
  modify (fun s => set_lab_records (delete lab (current s)) (delete lab (modes s))
                     (delete lab (ungraded s)) (delete lab (peers s)) s);;
  modify (clearRepairs lab).

(** [finishRecoveredGeneration]: when the journal cannot be written only the
    transaction is put back. *)
Definition finishRecoveredGeneration (lab : string) (fence : Fence) (generation : string)
    (now : Time) : M unit :=
  checkFence lab fence now;;
  tx ← generationTransaction lab generation ENoRecoveryTransaction;
  s ← get;
  modify (set_coord (fun c =>
    set_Inventories <[lab := txPrestate tx]>
      (set_Generations
         <[lab := mkGen (tPreviousGen tx) "" (gAncestors (genOf s lab))]>
         (set_Transactions (delete lab) c))));;
  modify (clearRepairs lab);;
  try_catch saveCoordinationLocked (fun e =>
    putTx lab tx;; fail e).

(** [committedGenerations]. *)
Definition committedGenerations (s : Server) : gmap string string :=
  omap (fun g => if decide (gCommitted g = "") then None else Some (gCommitted g))
    (generations s).

(** ** Recovery transitions of [internal/agent/recovery.go] *)

Definition recoveryRetryBackoff : Duration := 30 * second.
Definition recoveryProgressPersistEvery : Duration := 2 * second.

(** [acquireRecoveryFence]; [ttl] is [recoveryLeaseLimit()]. *)
Definition acquireRecoveryFence (token : result err string) (lab : string)
    (ttl : Duration) (now : Time) : M Fence :=
  changed ← expireCoordinationLocked now;
  when changed saveCoordinationLocked;;
  s ← get;
  match mutations s !! lab with
  | Some held => fail (EAlreadyLeased lab (lHolder held))
  | None =>
      token ← lift token;
      let generation := wrap64 (hw s lab + 1) in
      modify (set_coord (set_HighWater <[lab := generation]>));;
      let lease := mkLease "agent recovery" (mkFence token generation) (now + ttl) in
      modify (set_mutations <[lab := lease]>);;
      try_catch saveCoordinationLocked (fun e =>
        modify (set_mutations (delete lab));; fail e);;
      mret (lFence lease)
  end.

(** [reopenCommittedTransaction]. *)
Definition reopenCommittedTransaction (lab : string) (fence : Fence) (generation : string)
    (now : Time) : M applyTransaction :=
  checkFence lab fence now;;
  tx ← generationTransaction lab generation ENoRecoveryTransaction;
  if negb (txCommitted tx) then mret tx else
  refuse (negb (bool_decide (invContainers (txPrestate tx) = []))
          && negb (invStateSafe (txPrestate tx))) EPrestateUnsafe;;
  refuse (bool_decide (tPreviousGen tx = "")
          && match txPrevious (txReq tx) with RawEmpty => false | _ => true end)
    ENoPreviousGeneration;;
  s ← get;
  let beforeState := genOf s lab in
  let tx' := tx_with_phase transactionRollbackNeeded
               "cluster split commit: another node did not commit this generation"
               (tx_with_committed false tx) in
  modify (set_coord (fun c =>
    set_Generations <[lab := mkGen (tPreviousGen tx) generation (gAncestors beforeState)]>
      (set_Transactions <[lab := tx']> c)));;
  try_catch saveCoordinationLocked (fun e =>
    modify (set_coord (fun c =>
      set_Generations <[lab := beforeState]> (set_Transactions <[lab := tx]> c)));;
    fail e);;
  mret tx'.

Definition recoveryOwnerLocked (lab : string) (fence : Fence) (s : Server) : string :=
  match mutations s !! lab with
  | Some lease => if decide (lFence lease = fence) then lHolder lease else "recovery"
  | None => "recovery"
  end.

(** [recoveryRunOptions]. *)
Record recoveryRunOptions := mkRunOptions {
  optTakeover : bool; optForwardAck : bool; optRollbackCommitted : bool
}.

(** [held.deadline = d] for a recovery's own operation lease. *)
Definition setOpDeadline (lab : string) (d : Time) (s : Server) : Server :=
  set_ops (alter (fun o => if decide (oKind o = "recovery")
                           then mkOp (oId o) (oKind o) d (oCancellable o) else o) lab)
    (opSequence s) s.

Definition startTarget (q : txRequest) : string :=
  "starting recovery " +:+ txPreviousMode q +:+ "/" +:+ pretty (txPreviousUngraded q)
  +:+ " -> " +:+ txMode q +:+ "/" +:+ pretty (txUngraded q).

(** [forwardDataLossScope]: the snapshots a forward recovery may lose. *)
Definition forwardDataLossScope (tx : applyTransaction) : list string :=
  sortStrings (dedup (omap (fun sn =>
    if decide (snDevice sn = "") then None
    else if decide (snKind sn = "") then None
    else Some (snDevice sn +:+ "/" +:+ snKind sn)) (invSnapshots (txPrestate tx)))).

(** [beginRecovery]; [phaseLimit] is [recoveryPhaseLimit()]. *)
Definition beginRecovery (lab : string) (fence : Fence) (generation strategy : string)
    (totalDeadline : Time) (options : recoveryRunOptions)
    (phaseLimit : Duration) (now : Time)
    : M applyTransaction :=
  checkFence lab fence now;;
  tx ← generationTransaction lab generation ENoRecoveryTransaction;
  requireModes tx;;
  let r := txRecov tx in
  let recovering := bool_decide (txPhase tx = transactionRecovering) in
  let active := recovering && negb (isZero (rDeadline r)) && before now (rDeadline r) in
  refuse (active && negb (bool_decide (rStrategy r = ""))
          && negb (bool_decide (rStrategy r = strategy))) ERecoveryActive;;
  refuse (active && negb (optTakeover options)) ERecoveryActive;;
  refuse (recovering && negb (optTakeover options)) ERecoveryNeedsTakeover;;
  s ← get;
  let forward := bool_decide (strategy = "forward") in
  let ack := rForwardAcknowledged r || (forward && optForwardAck options) in
  let lossScope := if forward && optForwardAck options then forwardDataLossScope tx
                   else rForwardDataLossScope r in
  refuse (forward && negb ack) EForwardUnacknowledged;;
  let r' := mkTxRecovery (rAttempts r + 1) now 0 (recoveryOwnerLocked lab fence s)
              strategy now now (now + phaseLimit) totalDeadline (startTarget (txReq tx))
              ack (rForwardPhase r) lossScope in
  let tx' := tx_with_recovery r' (tx_with_phase transactionRecovering "" tx) in
  putTx lab tx';;
  modify (setOpDeadline lab (now + phaseLimit));;
  saveCoordinationLocked;;
  mret tx'.

(** [markTransactionPhase]. *)
Definition markTransactionPhase (lab : string) (fence : Fence) (generation : string)
    (phase : transactionPhase) (failure : string) (now : Time) : M unit :=
  checkFence lab fence now;;
  tx ← generationTransaction lab generation ENoRecoveryTransaction;
  let r := txRecov tx in
  let r' :=
    match phase with
    | transactionRecovering =>
        mkTxRecovery (rAttempts r + 1) now 0 (rOwner r) (rStrategy r) (rStarted r)
          (rProgress r) (rDeadline r) (rTotal r) (rTarget r) (rForwardAcknowledged r)
          (rForwardPhase r) (rForwardDataLossScope r)
    | transactionRollbackFailed =>
        mkTxRecovery (rAttempts r) (rLast r) (now + recoveryRetryBackoff) (rOwner r)
          (rStrategy r) (rStarted r) now (rDeadline r) (rTotal r) "failed"
          (rForwardAcknowledged r) (rForwardPhase r) (rForwardDataLossScope r)
    | transactionCommitted =>
        mkTxRecovery (rAttempts r) (rLast r) (rNext r) (rOwner r)
          (rStrategy r) (rStarted r) now (rDeadline r) (rTotal r) "committed"
          (rForwardAcknowledged r) (rForwardPhase r) (rForwardDataLossScope r)
    | _ => r
    end in
  putTx lab (tx_with_recovery r' (tx_with_phase phase failure tx));;
  saveCoordinationLocked.

(** [restoreOverlayClaims] of [internal/agent/apply_transaction.go]: the
    rollback's last step; it takes no fence check of its own. *)
Definition restoreOverlayClaims (lab : string) (fence : Fence) (oldVNIs : list Z) : M unit :=
  let drop vni (c : overlayClaim) :=
    bool_decide (cLab c = lab) && negb (cLive c) && (cGeneration c =? fGeneration fence)
    && negb (bool_decide (vni ∈ oldVNIs)) in
  modify (set_coord (set_Overlays (fun m =>
    fold_left (fun m vni => <[vni := liveClaim lab (fGeneration fence)]> m) oldVNIs
      (map_drop drop m))));;
  saveCoordinationLocked.

(** ** No transaction step issues or revives a fence *)

Lemma quiet_ownTransaction lab fence generation e :
  mrel quiet (ownTransaction lab fence generation e).
Proof. unfold ownTransaction. quiet_solve. Qed.
Lemma quiet_generationTransaction lab generation e :
  mrel quiet (generationTransaction lab generation e).
Proof. unfold generationTransaction. quiet_solve. Qed.
Lemma quiet_checkFence lab fence now : mrel quiet (checkFence lab fence now).
Proof. unfold checkFence. quiet_solve. Qed.
Lemma quiet_requireModes tx : mrel quiet (requireModes tx).
Proof. unfold requireModes. quiet_solve. Qed.
Lemma quiet_putTx lab tx : mrel quiet (putTx lab tx).
Proof. unfold putTx. quiet_solve. Qed.
#[export] Hint Resolve quiet_ownTransaction quiet_generationTransaction quiet_checkFence
  quiet_requireModes quiet_putTx : quiet.

Lemma quiet_ownApplied lab fence generation e :
  mrel quiet (ownApplied lab fence generation e).
Proof. unfold ownApplied. quiet_solve. Qed.
#[export] Hint Resolve quiet_ownApplied : quiet.

Lemma quiet_prepareGeneration lab fence expected generation requested mode u pu prune
    only proofs pre now :
  mrel quiet (prepareGeneration lab fence expected generation requested mode u pu prune
    only proofs pre now).
Proof. unfold prepareGeneration. quiet_solve. Qed.
Lemma quiet_transactionForApply lab fence generation now :
  mrel quiet (transactionForApply lab fence generation now).
Proof. unfold transactionForApply. quiet_solve. Qed.
Lemma quiet_markGenerationApplying lab fence generation now :
  mrel quiet (markGenerationApplying lab fence generation now).
Proof. unfold markGenerationApplying. quiet_solve. Qed.
Lemma quiet_markGenerationApplied lab fence generation now :
  mrel quiet (markGenerationApplied lab fence generation now).
Proof. unfold markGenerationApplied. quiet_solve. Qed.
Lemma quiet_recordEvidence lab fence generation now f :
  mrel quiet (recordEvidence lab fence generation now f).
Proof. unfold recordEvidence. quiet_solve. Qed.
Lemma quiet_markStateVerified lab fence generation now :
  mrel quiet (markStateVerified lab fence generation now).
Proof. unfold markStateVerified. quiet_solve. Qed.
Lemma quiet_transactionForCommit lab fence generation now :
  mrel quiet (transactionForCommit lab fence generation now).
Proof. unfold transactionForCommit. quiet_solve. Qed.
Lemma quiet_finishCommittedGeneration lab fence generation inv now :
  mrel quiet (finishCommittedGeneration lab fence generation inv now).
Proof. unfold finishCommittedGeneration. destruct inv; quiet_solve. Qed.
Lemma quiet_finalizeCommittedGeneration lab fence generation now :
  mrel quiet (finalizeCommittedGeneration lab fence generation now).
Proof. unfold finalizeCommittedGeneration. quiet_solve. Qed.
Lemma quiet_finishDestroyedLab lab fence now : mrel quiet (finishDestroyedLab lab fence now).
Proof. unfold finishDestroyedLab. quiet_solve. Qed.
Lemma quiet_finishRecoveredGeneration lab fence generation now :
  mrel quiet (finishRecoveredGeneration lab fence generation now).
Proof. unfold finishRecoveredGeneration. quiet_solve. Qed.
Lemma quiet_reopenCommittedTransaction lab fence generation now :
  mrel quiet (reopenCommittedTransaction lab fence generation now).
Proof. unfold reopenCommittedTransaction. quiet_solve. Qed.
Lemma quiet_beginRecovery lab fence generation strategy total o pl now :
  mrel quiet (beginRecovery lab fence generation strategy total o pl now).
Proof. unfold beginRecovery. quiet_solve. Qed.
Lemma quiet_markTransactionPhase lab fence generation phase failure now :
  mrel quiet (markTransactionPhase lab fence generation phase failure now).
Proof. unfold markTransactionPhase. quiet_solve. Qed.
Lemma quiet_restoreOverlayClaims lab fence vnis :
  mrel quiet (restoreOverlayClaims lab fence vnis).
Proof. unfold restoreOverlayClaims. quiet_solve. Qed.
