(* ===== verification/Ephemeral.v ===== *)
(** * Disposable labs: bounded lifetimes, holds and operation leases

    Models [internal/agent/ephemeral.go], [internal/agent/hold.go] and the
    operation leases of [internal/agent/agent.go]. *)

From stdpp Require Import base gmap strings list fin_maps.
From Stdlib Require Import ZArith Lia.
From S2P Require Import Prelude Model Coordination Transactions.

Open Scope Z_scope.

(** ** Bounds *)

Definition defaultEphemeralTTLSeconds : Z := 900.
Definition maxEphemeralTTLSeconds : Z := 3600.
Definition maxEphemeralLifetime : Duration := 8 * 3600 * second.
Definition ephemeralRestartGrace : Duration := 15 * 60 * second.

Definition deadline (l : ephemeralLease) : Time :=
  if negb (isZero (eHardExpiresAt l)) && before (eHardExpiresAt l) (eExpiresAt l)
  then eHardExpiresAt l else eExpiresAt l.

Definition expired (l : ephemeralLease) (now : Time) : bool :=
  negb (isZero (deadline l)) && negb (before now (deadline l)).

Definition clampEphemeralTTL (seconds : Z) : Duration :=
  let seconds := if seconds <=? 0 then defaultEphemeralTTLSeconds else seconds in
  let seconds := if maxEphemeralTTLSeconds <? seconds then maxEphemeralTTLSeconds
                 else seconds in
  seconds * second.

(** [int(ttl.Seconds())]. *)
Definition ttlSeconds (ttl : Duration) : Z := ttl / second.

(** ** The lifetime of one disposable lab *)

Definition putEphemeral (lab : string) (l : ephemeralLease) : M unit :=
  modify (set_coord (set_Ephemeral <[lab := l]>)).

Definition noteEphemeralLease (lab owner : string) (ttlSecs : Z) (generation : string)
    (now : Time) : M unit :=
  refuse (bool_decide (lab = "")) EMutationNeedsLab;;
  s ← get;
  let ttl := clampEphemeralTTL ttlSecs in
  let previous := Ephemeral (coord s) !! lab in
  let '(created, hard) :=
    match previous with
    | Some p => if negb (isZero (eCreatedAt p)) && negb (isZero (eHardExpiresAt p))
                then (eCreatedAt p, eHardExpiresAt p)
                else (now, now + maxEphemeralLifetime)
    | None => (now, now + maxEphemeralLifetime)
    end in
  putEphemeral lab (mkEphemeral lab owner (ttlSeconds ttl) generation created (now + ttl)
                      hard false);;
  try_catch saveCoordinationLocked (fun e =>
    modify (set_coord (set_Ephemeral (restoreEntry lab previous)));; fail e).

Record EphemeralRequest := mkEphemeralRequest {
  erLab : string; erOwner : string; erTTLSeconds : Z; erRelease : bool
}.
Record EphemeralResponse := mkEphemeralResponse {
  epLab : string; epEphemeral : bool; epOwner : string; epTTLSeconds : Z;
  epExpiresAt : Time; epHardExpiresAt : Time
}.

(** The lease a heartbeat at [now] leaves behind. *)
Definition renewed (l : ephemeralLease) (req : EphemeralRequest) (now : Time)
    : ephemeralLease :=
  let ttl := if (erTTLSeconds req <=? 0) && (0 <? eTTLSeconds l)
             then clampEphemeralTTL (eTTLSeconds l)
             else clampEphemeralTTL (erTTLSeconds req) in
  let expires := now + ttl in
  let expires := if negb (isZero (eHardExpiresAt l)) && before (eHardExpiresAt l) expires
                 then eHardExpiresAt l else expires in
  mkEphemeral (eLab l) (eOwner l) (ttlSeconds ttl) (eGeneration l) (eCreatedAt l)
    expires (eHardExpiresAt l) false.

Definition renewEphemeralLease (req : EphemeralRequest) (now : Time)
    : M EphemeralResponse :=
  refuse (bool_decide (erLab req = "")) ELabRequired;;
  s ← get;
  match Ephemeral (coord s) !! erLab req with
  | None => fail ENotEphemeral
  | Some lease =>
      refuse (negb (bool_decide (eOwner lease = "")) && negb (bool_decide (erOwner req = ""))
              && negb (bool_decide (eOwner lease = erOwner req)))
        (EHeldByOther (eOwner lease));;
      let restore e : M EphemeralResponse := putEphemeral (erLab req) lease;; fail e in
      if erRelease req then
        modify (set_coord (set_Ephemeral (delete (erLab req))));;
        try_catch (saveCoordinationLocked;;
                   mret (mkEphemeralResponse (erLab req) false "" 0 0 0)) restore
      else
        refuse (expired lease now) EExpired;;
        let lease' := renewed lease req now in
        putEphemeral (erLab req) lease';;
        try_catch (saveCoordinationLocked;;
                   mret (mkEphemeralResponse (erLab req) true (eOwner lease')
                     (eTTLSeconds lease') (eExpiresAt lease') (eHardExpiresAt lease')))
          restore
  end.

(** [restoreEphemeralLeaseLocked]: a restarted agent's grace. *)
Definition restoreEphemeralLeaseLocked (lab : string) (ttlSecs : Z) (generation : string)
    (now : Time) : M bool :=
  s ← get;
  match Ephemeral (coord s) !! lab with
  | Some _ => mret false
  | None =>
      let ttl := clampEphemeralTTL ttlSecs in
      let ttl := if ttl <? ephemeralRestartGrace then ephemeralRestartGrace else ttl in
      putEphemeral lab (mkEphemeral lab "" (ttlSeconds ttl) generation now (now + ttl)
                          (now + maxEphemeralLifetime) true);;
      mret true
  end.

Definition ephemeralExpired (lab : string) (now : Time) (s : Server) : bool :=
  match Ephemeral (coord s) !! lab with Some l => expired l now | None => false end.

(** [expiredEphemeralLabs], in sorted order. *)
Definition expiredEphemeralLabs (now : Time) (s : Server) : list string :=
  sortStrings (map fst (filter (fun kl => expired kl.2 now = true)
                          (map_to_list (Ephemeral (coord s))))).

(** [dropEphemeralLease]: a persistence failure is only logged. *)
Definition dropEphemeralLease (lab : string) : M unit :=
  s ← get;
  modify (set_coord (set_Ephemeral (delete lab)));;
  when (bool_decide (is_Some (Ephemeral (coord s) !! lab))) (ignore saveCoordinationLocked).

Definition forgetEphemeralLease (lab : string) : M unit :=
  s ← get;
  match Ephemeral (coord s) !! lab with
  | None => mret tt
  | Some previous =>
      modify (set_coord (set_Ephemeral (delete lab)));;
      try_catch saveCoordinationLocked (fun e => putEphemeral lab previous;; fail e)
  end.

(** ** Grading holds *)

Definition maxHoldSeconds : Z := 600.

Record HoldRequest := mkHoldRequest {
  hrLab : string; hrHolder : string; hrSeconds : Z; hrToken : string
}.

(** [saveHoldsLocked]. *)
Definition saveHoldsLocked (lab : string) (now : Time) : M unit := fun s =>
  match store s with
  | None => (s, Ok tt)
  | Some st =>
      let s1 := match holds s !! lab with
                | Some h => if before now (hUntil h) then s else set_holds (delete lab) s
                | None => s
                end in
      match srvFaults s1 with
      | true :: fs => (set_store (Some st) fs s1, Err EPersist)
      | fs => (set_store (Some (mkStore (stCoordination st) (stTopology st)
                 (<[lab := holds s1 !! lab]> (stHolds st)))) (tail fs) s1, Ok tt)
      end
  end.

Definition applyHold (req : HoldRequest) (now : Time) : M unit :=
  let seconds := if maxHoldSeconds <? hrSeconds req then maxHoldSeconds
                 else hrSeconds req in
  s ← get;
  let previous := holds s !! hrLab req in
  match previous with
  | Some cur =>
      refuse (before now (hUntil cur) && negb (bool_decide (hToken cur = ""))
              && negb (bool_decide (hToken cur = hrToken req))) (EHeld (hHolder cur))
  | None => mret tt
  end;;
  (if seconds <=? 0 then modify (set_holds (delete (hrLab req)))
   else modify (set_holds <[hrLab req :=
          mkHold (hrHolder req) (hrToken req) (now + seconds * second)]>));;
  try_catch (saveHoldsLocked (hrLab req) now) (fun e =>
    modify (set_holds (restoreEntry (hrLab req) previous));; fail e).

(** [loadHolds]: only an unexpired hold survives a restart. *)
Definition loadHolds (lab : string) (now : Time) : M unit := fun s =>
  match store s with
  | None => (s, Ok tt)
  | Some st =>
      match stHolds st !! lab with
      | None => (s, Ok tt)
      | Some None => (set_holds (delete lab) s, Ok tt)
      | Some (Some h) =>
          if before now (hUntil h) then (set_holds <[lab := h]> s, Ok tt)
          else (set_holds (delete lab) s, Ok tt)
      end
  end.

(** [heldBy]: [time.Now().After(h.until)] drops the hold. *)
Definition dropLapsedHold (lab : string) (now : Time) (s : Server) : Server :=
  match holds s !! lab with
  | Some h => if before (hUntil h) now then set_holds (delete lab) s else s
  | None => s
  end.

Definition heldBy (lab : string) (now : Time) : M string :=
  modify (dropLapsedHold lab now);;
  s ← get;
  mret (match holds s !! lab with
        | Some h => if decide (hHolder h = "") then "an external operation" else hHolder h
        | None => ""
        end).

(** [refuseMutationIfHeld]: [true] refuses. *)
Definition refuseMutationIfHeld (lab token : string) (now : Time) : M bool :=
  if decide (lab = "") then mret false else
  modify (dropLapsedHold lab now);;
  s ← get;
  mret (match holds s !! lab with
        | Some h => negb (bool_decide (hToken h = "")) && negb (bool_decide (hToken h = token))
        | None => false
        end).

(** [labOfContainer]: the longest hosted lab whose name and a dash start the
    rest of the container's name. *)
Definition containerPrefix : string := "twinet-".
Definition longerLab (rest best lab : string) : string :=
  if hasPrefix rest (lab +:+ "-") && Nat.ltb (String.length best) (String.length lab)
  then lab else best.
Definition labOfContainer (s : Server) (name : string) : string :=
  if hasPrefix name containerPrefix then
    let rest := String.substring 7 (String.length name - 7) name in
    fold_left (longerLab rest) (map fst (map_to_list (current s))) ""
  else "".

(** ** Operation leases *)

Definition acquireOperation (lab kind : string) (cancellable : bool) : M Z :=
  refuse (bool_decide (lab = "")) EMutationNeedsLab;;
  s ← get;
  match ops s !! lab with
  | Some held => fail (EBusy (oKind held))
  | None =>
      let id := wrap64 (opSequence s + 1) in
      modify (set_ops <[lab := mkOp id kind 0 cancellable]> id);;
      mret id
  end.

Definition releaseOperation (lab : string) (id : Z) : M unit :=
  s ← get;
  match ops s !! lab with
  | Some held => if oId held =? id then modify (set_ops (delete lab) (opSequence s))
                 else mret tt
  | None => mret tt
  end.

(** [acquireForcedOperation]: preemptible work is cancelled and waited for;
    [yields] says whether it unwinds before the caller's context ends. *)
Definition acquireForcedOperation (lab kind : string) (preemptStaleRecovery yields : bool)
    (now : Time) : M Z :=
  refuse (bool_decide (lab = "")) EMutationNeedsLab;;
  s ← get;
  match ops s !! lab with
  | None => acquireOperation lab kind false
  | Some held =>
      let staleRecovery := preemptStaleRecovery && bool_decide (oKind held = "recovery")
        && negb (isZero (oDeadline held)) && negb (before now (oDeadline held)) in
      let preemptible := oCancellable held
        && (bool_decide (oKind held = "reconcile") || bool_decide (oKind held = "apply")
            || staleRecovery) in
      refuse (negb preemptible) (EBusy (oKind held));;
      refuse (negb yields) (EBusy (oKind held));;
      modify (set_ops (delete lab) (opSequence s));;
      acquireOperation lab kind false
  end.

(** ** Reclaiming an abandoned lab *)

(** What reclamation meets outside the agent: the token source, whether the
    operation in the way yields, and whether the lab's containers and
    overlays came down. *)
Record ReapEnv := mkReapEnv {
  reToken : result err string;
  reLeaseTTL : Duration;
  reYields : bool;
  reDestroyed : bool
}.

(** [store.Forget]. *)
Definition storeForget (lab : string) : M unit := fun s =>
  match store s with
  | None => (s, Ok tt)
  | Some st =>
      match srvFaults s with
      | true :: fs => (set_store (Some st) fs s, Err EPersist)
      | fs => (set_store (Some (mkStore (stCoordination st) (delete lab (stTopology st))
                 (delete lab (stHolds st)))) (tail fs) s, Ok tt)
      end
  end.

(** The part of [reclaimEphemeralLab] that runs with the fence and the
    operation lease in hand; [true] means it reported no problem. *)
Definition reclaimObjects (env : ReapEnv) (lab : string) (fence : Fence) (now : Time)
    : M bool :=
  if negb (reDestroyed env) then mret false else
  forgot ← attempt (storeForget lab);
  finished ← attempt (finishDestroyedLab lab fence now);
  mret (forgot && finished).

Definition reclaimEphemeralLab (env : ReapEnv) (lab : string) (now : Time) : M unit :=
  holder ← mutationLeaseHolder lab now;
  refuse (negb (bool_decide (holder = ""))) EDeferred;;
  held ← heldBy lab now;
  refuse (negb (bool_decide (held = ""))) EDeferred;;
  fence ← try_catch (acquireRecoveryFence (reToken env) lab (reLeaseTTL env) now)
            (fun _ => fail EDeferred);
  let release : M unit := ignore (releaseMutationLease (mkRelease lab fence) now) in
  opID ← try_catch (acquireForcedOperation lab "ephemeral_reap" true (reYields env) now)
           (fun _ => release;; fail EDeferred);
  ok ← reclaimObjects env lab fence now;
  when ok (dropEphemeralLease lab);;
  releaseOperation lab opID;;
  release;;
  refuse (negb ok) EProblems.

(** ** No lifetime, hold or operation step issues or revives a fence *)

Lemma quiet_putEphemeral lab l : mrel quiet (putEphemeral lab l).
Proof. unfold putEphemeral. quiet_solve. Qed.
#[export] Hint Resolve quiet_putEphemeral : quiet.

Lemma quiet_noteEphemeralLease lab owner ttl generation now :
  mrel quiet (noteEphemeralLease lab owner ttl generation now).
Proof. unfold noteEphemeralLease. quiet_solve. Qed.
Lemma quiet_renewEphemeralLease req now : mrel quiet (renewEphemeralLease req now).
Proof. unfold renewEphemeralLease. quiet_solve. Qed.
Lemma quiet_restoreEphemeralLeaseLocked lab ttl generation now :
  mrel quiet (restoreEphemeralLeaseLocked lab ttl generation now).
Proof. unfold restoreEphemeralLeaseLocked. quiet_solve. Qed.
Lemma quiet_dropEphemeralLease lab : mrel quiet (dropEphemeralLease lab).
Proof. unfold dropEphemeralLease. quiet_solve. Qed.
Lemma quiet_forgetEphemeralLease lab : mrel quiet (forgetEphemeralLease lab).
Proof. unfold forgetEphemeralLease. quiet_solve. Qed.

(** A write of another record leaves the journal alone. *)
Lemma quiet_other_record s s' st fs tops hs :
  store s = Some st -> mutations s' = mutations s -> coord s' = coord s ->
  quiet s (set_store (Some (mkStore (stCoordination st) tops hs)) fs s').
Proof.
  intros Hst Hm Hc. unfold quiet, journalHW. simpl. rewrite Hm, Hc, Hst.
  split_and!; eauto; done.
Qed.

Lemma quiet_saveHoldsLocked lab now : mrel quiet (saveHoldsLocked lab now).
Proof.
  intros s. unfold final, saveHoldsLocked. destruct (store s) as [st|] eqn:Hst; [|reflexivity].
  set (s1 := match holds s !! lab with Some h => _ | None => _ end).
  assert (mutations s1 = mutations s /\ coord s1 = coord s) as [Hm Hc].
  { unfold s1. by repeat case_match. }
  destruct (srvFaults s1) as [|[] fs]; simpl; try by apply quiet_other_record.
  destruct st as [c t h]. by apply (quiet_other_record s s1 (mkStore c t h)).
Qed.
#[export] Hint Resolve quiet_saveHoldsLocked : quiet.

Lemma quiet_applyHold req now : mrel quiet (applyHold req now).
Proof. unfold applyHold. quiet_solve. Qed.

Lemma quiet_loadHolds lab now : mrel quiet (loadHolds lab now).
Proof.
  intros s. unfold final, loadHolds. repeat case_match; simpl; try reflexivity;
    by apply quiet_frame.
Qed.

Lemma quiet_dropLapsedHold lab now s : quiet s (dropLapsedHold lab now s).
Proof. unfold dropLapsedHold. repeat case_match; by apply quiet_frame. Qed.
#[export] Hint Resolve quiet_loadHolds quiet_dropLapsedHold : quiet.

Lemma quiet_heldBy lab now : mrel quiet (heldBy lab now).
Proof. unfold heldBy. quiet_solve. Qed.
Lemma quiet_refuseMutationIfHeld lab token now : mrel quiet (refuseMutationIfHeld lab token now).
Proof. unfold refuseMutationIfHeld. quiet_solve. Qed.
Lemma quiet_acquireOperation lab kind b : mrel quiet (acquireOperation lab kind b).
Proof. unfold acquireOperation. quiet_solve. Qed.
Lemma quiet_releaseOperation lab id : mrel quiet (releaseOperation lab id).
Proof. unfold releaseOperation. quiet_solve. Qed.
#[export] Hint Resolve quiet_acquireOperation quiet_releaseOperation : quiet.
Lemma quiet_acquireForcedOperation lab kind a b now :
  mrel quiet (acquireForcedOperation lab kind a b now).
Proof. unfold acquireForcedOperation. quiet_solve. Qed.

Lemma quiet_storeForget lab : mrel quiet (storeForget lab).
Proof.
  intros s. unfold final, storeForget. destruct (store s) as [st|] eqn:Hst; [|reflexivity].
  destruct (srvFaults s) as [|[] fs]; simpl; try by apply quiet_other_record.
  destruct st as [c t h]. by apply (quiet_other_record s s (mkStore c t h)).
Qed.
