(* ===== verification/GcFence.v ===== *)
(** * Garbage collection of overlays and lab records

    Models [internal/agent/gc_fence.go] and the two collectors of
    [internal/agent/gc.go] that touch coordination records. *)

From stdpp Require Import base gmap strings list fin_maps.
From Stdlib Require Import ZArith Lia.
From S2P Require Import Prelude Model Coordination Transactions Ephemeral.

Open Scope Z_scope.

(** A claim that still stands for its lab. *)
Definition claimStands (now : Time) (c : overlayClaim) : bool :=
  cLive c || isZero (cUntil c) || before now (cUntil c).

(** [labProtectedLocked]. *)
Definition labProtectedLocked (lab : string) (now : Time) (s : Server) : bool :=
  if decide (lab = "") then false
  else bool_decide (is_Some (current s !! lab))
    || bool_decide (is_Some (transactions s !! lab))
    || match ops s !! lab with
       | Some held => negb (bool_decide (oKind held = "gc"))
       | None => false
       end
    || match holds s !! lab with Some h => before now (hUntil h) | None => false end
    || match mutations s !! lab with Some l => before now (lUntil l) | None => false end
    || negb (bool_decide (gPrepared (genOf s lab) = ""))
    || map_any (fun _ c => bool_decide (cLab c = lab) && claimStands now c)
         (overlayClaims s).

(** [beginOverlayCollection]: mark and prove under one lock hold. Any claim
    at all stops the collection. *)
Definition beginOverlayCollection (vni : Z) (owner : string) (now : Time) : M bool :=
  s ← get;
  if decide (vni ∈ gcCollecting s) then mret false
  else if labProtectedLocked owner now s then mret false
  else match overlayClaims s !! vni with
       | Some _ => mret false
       | None => modify (set_gcCollecting (union {[vni]}));; mret true
       end.

(** [endOverlayCollection]: drop the fence and the object's claim together;
    a persistence failure is only logged. *)
Definition endOverlayCollection (vni : Z) (owner : string) : M unit :=
  modify (set_gcCollecting (fun g => g ∖ {[vni]}));;
  s ← get;
  match overlayClaims s !! vni with
  | None => mret tt
  | Some c =>
      if negb (bool_decide (owner = "")) && negb (bool_decide (cLab c = owner)) then mret tt
      else modify (set_coord (set_Overlays (delete vni)));; ignore saveCoordinationLocked
  end.

(** [gcGenerationProven]. *)
Definition gcGenerationProven (lab : string) (s : Server) : bool :=
  negb (bool_decide (is_Some (current s !! lab)))
  && match ops s !! lab with
     | Some held => bool_decide (oKind held = "gc")
     | None => true
     end
  && negb (bool_decide (is_Some (transactions s !! lab)))
  && bool_decide (gPrepared (genOf s lab) = "").

(** [beginLabRecordCollection]: take the lab's ordinary operation lease, then
    re-prove; a refusal gives the lease back. *)
Definition beginLabRecordCollection (lab : string) (now : Time) : M (option Z) :=
  s ← get;
  match ops s !! lab with
  | Some _ => mret None
  | None =>
      if decide (lab = "") then mret None else
      id ← acquireOperation lab "gc" false;
      s ← get;
      if labProtectedLocked lab now s then releaseOperation lab id;; mret None
      else if gcGenerationProven lab s then mret (Some id)
      else releaseOperation lab id;; mret None
  end.

Definition endLabRecordCollection (lab : string) (id : Z) : M unit := releaseOperation lab id.

(** [gcReleaseStaleLiveClaims]: [protected] is the set of labs the scan found
    in use, [eligible] the age filter of the collector. *)
Definition gcReleaseStaleLiveClaims (protectedLabs : gset string) (eligible : Z -> bool)
    : M nat :=
  s ← get;
  let drop vni (c : overlayClaim) :=
    cLive c && negb (bool_decide (cLab c ∈ protectedLabs)) && eligible vni in
  modify (set_coord (set_Overlays (map_drop drop)));;
  when (map_any drop (overlayClaims s)) (ignore saveCoordinationLocked);;
  mret (size (overlayClaims s) - size (map_drop drop (overlayClaims s)))%nat.

(** ** No collection step issues or revives a fence *)

Lemma quiet_beginOverlayCollection vni owner now :
  mrel quiet (beginOverlayCollection vni owner now).
Proof. unfold beginOverlayCollection. quiet_solve. Qed.
Lemma quiet_endOverlayCollection vni owner : mrel quiet (endOverlayCollection vni owner).
Proof. unfold endOverlayCollection. quiet_solve. Qed.
Lemma quiet_beginLabRecordCollection lab now : mrel quiet (beginLabRecordCollection lab now).
Proof. unfold beginLabRecordCollection. quiet_solve. Qed.
Lemma quiet_gcReleaseStaleLiveClaims pl el : mrel quiet (gcReleaseStaleLiveClaims pl el).
Proof. unfold gcReleaseStaleLiveClaims. quiet_solve. Qed.
