(* ===== verification/Restart.v ===== *)
(** * Reloading the coordination journal after an agent restart

    Models [loadCoordination] and [migrateLegacyTransactionModes] of
    [internal/agent/coordination.go] and [rehydrate] of
    [internal/agent/agent.go]. *)

From stdpp Require Import base gmap strings list fin_maps.
From Stdlib Require Import ZArith Lia.
From S2P Require Import Prelude Model Coordination Transactions Ephemeral.

Open Scope Z_scope.

Definition req_with_mode (m : string) (u : Z) (q : txRequest) : txRequest :=
  mkTxRequest (txGeneration q) (txExpected q) (txRequested q) (txPrevious q)
    (txPreviousGen q) (txPreviousMode q) (txPreviousUngraded q) m u
    (txPeerUnderlay q) (txPrune q) (txOnlySteps q) (txStateProofs q).
Definition req_with_previousMode (m : string) (u : Z) (q : txRequest) : txRequest :=
  mkTxRequest (txGeneration q) (txExpected q) (txRequested q) (txPrevious q)
    (txPreviousGen q) m u (txMode q) (txUngraded q)
    (txPeerUnderlay q) (txPrune q) (txOnlySteps q) (txStateProofs q).

(** The desired mode of a record written before the field was mandatory: it
    is taken from the requested wire, and absent when there is none. *)
Definition migrateDesired (q : txRequest) : result err txRequest :=
  if decide (txMode q = "") then
    match txRequested q with
    | RawWire w =>
        if decide (wMode w = "") then Ok (req_with_mode ModePlatform 0 q)
        else match RequireTransactionMode (wMode w) with
             | Ok m => Ok (req_with_mode m (wUngraded w) q)
             | Err e => Err e
             end
    | _ => Err EMode
    end
  else Ok q.

Definition migratePrevious (q : txRequest) : result err txRequest :=
  if decide (txPreviousMode q = "") then
    match txPrevious q with
    | RawWire w =>
        if decide (wMode w = "") then Ok (req_with_previousMode ModePlatform 0 q)
        else match RequireTransactionMode (wMode w) with
             | Ok m => Ok (req_with_previousMode m (wUngraded w) q)
             | Err e => Err e
             end
    | _ => Ok (req_with_previousMode ModePlatform 0 q)
    end
  else Ok q.

(** [migrateLegacyTransactionModes]. An error returns the record with the
    part of the migration that was already made. *)
Definition migrateLegacyTransactionModes (q : txRequest) : txRequest * result err bool :=
  match migrateDesired q with
  | Err e => (q, Err e)
  | Ok q1 =>
      match RequireTransactionMode (txMode q1) with
      | Err e => (q1, Err e)
      | Ok _ =>
          match migratePrevious q1 with
          | Err e => (q1, Err e)
          | Ok q2 =>
              match RequireTransactionMode (txPreviousMode q2) with
              | Err e => (q2, Err e)
              | Ok _ => (q2, Ok (bool_decide (txMode q = "")
                                 || bool_decide (txPreviousMode q = "")))
              end
          end
      end
  end.

Definition tx_with_request (q : txRequest) (tx : applyTransaction) : applyTransaction :=
  mkTx q (txFenceGeneration tx) (txEvid tx) (txPhase tx) (txPrestate tx)
    (txFailure tx) (txRecov tx) (txApplied tx) (txCommitted tx).

(** One transaction of the journal: a record without a phase is rollback
    work, an ambiguous mode fails closed. *)
Definition loadTransaction (tx : applyTransaction) : applyTransaction * bool :=
  let tx := if decide (txPhase tx = PhaseNone)
            then tx_with_phase transactionRollbackNeeded (txFailure tx) tx else tx in
  match migrateLegacyTransactionModes (txReq tx) with
  | (q, Ok changed) => (tx_with_request q tx, changed)
  | (q, Err _) =>
      (tx_with_phase transactionRollbackFailed "legacy transaction mode migration refused"
         (tx_with_request q tx), true)
  end.

(** One disposable lab of the journal: a missing ceiling is anchored. *)
Definition loadEphemeral (now : Time) (lab : string) (l : ephemeralLease) : ephemeralLease :=
  let name := if decide (eLab l = "") then lab else eLab l in
  let hard :=
    if isZero (eHardExpiresAt l)
    then (if isZero (eCreatedAt l) then now else eCreatedAt l) + maxEphemeralLifetime
    else eHardExpiresAt l in
  mkEphemeral name (eOwner l) (eTTLSeconds l) (eGeneration l) (eCreatedAt l)
    (eExpiresAt l) hard (eRestored l).

(** The merge of the journal into a freshly initialised server. *)
Definition loadCoord (now : Time) (disk mem : coordinationState) : coordinationState :=
  mkCoord (union_with (fun d m => Some (if m <? d then d else m))
             (filter (fun kv => 0 < kv.2) (FenceHighWater disk)) (FenceHighWater mem))
    (Overlays disk ∪ Overlays mem)
    (Generations disk ∪ Generations mem)
    (((fun tx => (loadTransaction tx).1) <$> Transactions disk) ∪ Transactions mem)
    (Inventories disk ∪ Inventories mem)
    (OverlayLineage disk ∪ OverlayLineage mem)
    (map_imap (fun lab l => Some (loadEphemeral now lab l)) (Ephemeral disk)
       ∪ Ephemeral mem).

Definition loadMigrated (disk : coordinationState) : bool :=
  map_any (fun _ tx => (loadTransaction tx).2) (Transactions disk)
  || map_any (fun _ l => isZero (eHardExpiresAt l)) (Ephemeral disk).

(** What a starting process can read and decode of its store: the journal, the
    list of the labs, and the record of each. *)
Record Reads := mkReads {
  rdCoordination : bool; rdLabs : bool; rdTopology : string -> bool
}.
Definition allRead : Reads := mkReads true true (fun _ => true).

(** The journal as it was read: an error is logged and counts as no journal. *)
Definition readCoordination (rd : Reads) (s : Server) : option coordinationState :=
  if rdCoordination rd then store s ≫= stCoordination else None.

(** [loadCoordination]: an absent journal changes nothing, and neither does one
    that cannot be read or decoded. *)
Definition loadCoordination (rd : Reads) (now : Time) : M unit :=
  s ← get;
  match readCoordination rd s with
  | None => mret tt
  | Some disk =>
      modify (set_coord (loadCoord now disk));;
      _ ← expireCoordinationLocked now;
      when (loadMigrated disk) (ignore saveCoordinationLocked)
  end.

(** [store.PutTopology]. *)
Definition putTopology (lab : string) (raw : RawMessage) : M unit := fun s =>
  match store s with
  | None => (s, Ok tt)
  | Some st =>
      match srvFaults s with
      | true :: fs => (set_store (Some st) fs s, Err EPersist)
      | fs => (set_store (Some (mkStore (stCoordination st)
                 (<[lab := raw]> (stTopology st)) (stHolds st))) (tail fs) s, Ok tt)
      end
  end.

(** The committed generation of a rehydrated topology. *)
Definition rehydratedGen (w : Wire) (top : Topology) (g : generationState) : generationState :=
  if decide (wGeneration w = "") then
    if decide (gCommitted g = "") then mkGen (topHash top) (gPrepared g) (gAncestors g) else g
  else mkGen (wGeneration w) (gPrepared g) (gAncestors g).

(** The part of [rehydrate] that follows a valid mode. *)
Definition rehydrateTop (w : Wire) (top : Topology) (mode : string) (ungradedAS : Z)
    (now : Time) : M bool :=
  let name := topName top in
  modify (fun s => set_lab_records (<[name := top]> (current s)) (<[name := mode]> (modes s))
                     (<[name := ungradedAS]> (ungraded s))
                     (match wPeerUnderlay w with
                      | Some p => <[name := p]> (peers s)
                      | None => peers s
                      end) s);;
  modify (fun s => set_coord (set_Generations
                     <[name := rehydratedGen w top (genOf s name)]>) s);;
  restored ← (if wEphemeral w
              then restoreEphemeralLeaseLocked name (wEphemeralTTLSeconds w) (wGeneration w) now
              else mret false);
  loadHolds name now;;
  mret restored.

(** One lab of [rehydrate]. A wire whose topology cannot be rebuilt, or whose
    mode is invalid, is skipped, and so is a record that cannot be read; a wire
    without a mode is migrated and rewritten first. *)
Definition rehydrateLab (rd : Reads) (lab : string) (now : Time) : M bool :=
  s ← get;
  match (if rdTopology rd lab then st ← store s; stTopology st !! lab else None) with
  | Some (RawWire w) =>
      match RequireTransactionMode (wMode w) with
      | Ok mode =>
          match wTopology w with
          | Some top => rehydrateTop w top mode (wUngraded w) now
          | None => mret false
          end
      | Err _ =>
          if decide (trimSpace (wMode w) = "") then
            let w' := mkWire (wLab w) (wGeneration w) ModePlatform 0 (wEphemeral w)
                        (wEphemeralTTLSeconds w) (wEphemeralOwner w) (wDevices w) (wPeerUnderlay w) (wTopology w) in
            stored ← attempt (putTopology lab (RawWire w'));
            match wTopology w' with
            | Some top => if (stored : bool) then rehydrateTop w' top ModePlatform 0 now
                          else mret false
            | None => mret false
            end
          else mret false
      end
  | _ => mret false
  end.

Fixpoint rehydrateAll (rd : Reads) (labs : list string) (restored : bool) (now : Time) : M unit :=
  match labs with
  | [] => when restored (ignore saveCoordinationLocked)
  | lab :: labs =>
      r ← rehydrateLab rd lab now;
      rehydrateAll rd labs (restored || r) now
  end.

Definition rehydrate (rd : Reads) (now : Time) : M unit :=
  s ← get;
  match store s with
  | None => mret tt
  | Some st =>
      if negb (rdLabs rd) then mret tt
      else rehydrateAll rd (sortStrings (map fst (map_to_list (stTopology st)))) false now
  end.

(** The memory of a process that has just started on this node's store. *)
Definition freshServer (node : string) (st : option Store) (faults : list bool) : Server :=
  mkServer node emptyCoord ∅ ∅ ∅ ∅ 0 ∅ ∅ ∅ ∅ ∅ ∅ ∅ st faults.

(** A crash loses the memory and keeps the store; the new process loads the
    journal and rehydrates the labs. *)
Definition restart (rd : Reads) (now : Time) (faults : list bool) (s : Server) : Server :=
  final (loadCoordination rd now;; rehydrate rd now)
    (freshServer (srvNode s) (store s) faults).

(** ** Reloading issues no fence *)

Lemma quiet_putTopology lab raw : mrel quiet (putTopology lab raw).
Proof.
  intros s. unfold final, putTopology. destruct (store s) as [st|] eqn:Hst; [|reflexivity].
  destruct (srvFaults s) as [|[] fs]; simpl; try by apply quiet_other_record.
  destruct st as [c t h]. by apply (quiet_other_record s s (mkStore c t h)).
Qed.
#[export] Hint Resolve quiet_putTopology : quiet.

Lemma quiet_rehydrateTop w top mode u now : mrel quiet (rehydrateTop w top mode u now).
Proof.
  unfold rehydrateTop. quiet_solve. by apply quiet_restoreEphemeralLeaseLocked.
Qed.
#[export] Hint Resolve quiet_rehydrateTop : quiet.

Lemma quiet_rehydrateLab rd lab now : mrel quiet (rehydrateLab rd lab now).
Proof. unfold rehydrateLab. quiet_solve. Qed.
#[export] Hint Resolve quiet_rehydrateLab : quiet.

Lemma quiet_rehydrateAll rd labs b now : mrel quiet (rehydrateAll rd labs b now).
Proof. revert b. induction labs; intros b; simpl; quiet_solve. Qed.

Lemma quiet_rehydrate rd now : mrel quiet (rehydrate rd now).
Proof. unfold rehydrate. quiet_solve. apply quiet_rehydrateAll. Qed.

(** What loading and rehydrating do, up to [quiet]: the journal (if any) is
    merged into the empty memory. *)
Lemma restart_quiet rd now faults s :
  let s0 := freshServer (srvNode s) (store s) faults in
  quiet (match readCoordination rd s with
         | Some disk => set_coord (loadCoord now disk) s0
         | None => s0
         end) (restart rd now faults s).
Proof.
  intros s0. unfold restart. fold s0.
  assert (forall (m : M unit) s1, quiet s1 (final m s0) ->
            quiet s1 (final (m;; rehydrate rd now) s0)) as Hseq.
  { intros m s1. unfold final, mbind, SE_bind. destruct (m s0) as [s2 [[]|e]]; simpl; [|done].
    intros Hq. etransitivity; [done|]. apply (quiet_rehydrate rd now s2). }
  apply Hseq. unfold loadCoordination. rewrite final_get_bind.
  change (readCoordination rd s0) with (readCoordination rd s).
  destruct (readCoordination rd s) as [disk|]; [|reflexivity].
  rewrite final_modify_bind. set (s1 := set_coord (loadCoord now disk) s0).
  assert (mrel quiet (expireCoordinationLocked now ≫= fun _ =>
            when (loadMigrated disk) (ignore saveCoordinationLocked))) as H by quiet_solve.
  apply (H s1).
Qed.
