(* ===== verification/Fencing.v ===== *)
(** * Fencing safety of one node agent, across crashes

    The agent as a state machine: every method of the previous files is one
    atomic step (they run under the server's mutex), with arbitrary
    arguments, clock readings, kernel answers and store failures, and the
    process may crash and restart on its store between any two steps, reading
    of it whatever can be read. *)

From stdpp Require Import base gmap strings list fin_maps.
From Stdlib Require Import ZArith Lia.
From S2P Require Import Prelude Model Coordination Transactions Ephemeral GcFence Restart.

Open Scope Z_scope.

(** ** The steps *)

(** Every operation that does not issue a lease. *)
Inductive quietOp : (Server -> Server) -> Prop :=
| q_requireFence lab f n n' : quietOp (final (requireMutationFence lab f n n'))
| q_renew req now : quietOp (final (renewMutationLease req now))
| q_release req now : quietOp (final (releaseMutationLease req now))
| q_holder lab now : quietOp (final (mutationLeaseHolder lab now))
| q_requireOverlays top f now : quietOp (final (requireOverlayReservations top f now))
| q_reserve k req now : quietOp (final (reserveOverlays k req now))
| q_promote lab f vnis now : quietOp (final (promoteOverlayReservations lab f vnis now))
| q_releaseClaims lab vnis : quietOp (final (releaseOverlayClaims lab vnis))
| q_prepare lab f ex g rq m u pu pr on ps pre now :
    quietOp (final (prepareGeneration lab f ex g rq m u pu pr on ps pre now))
| q_forApply lab f g now : quietOp (final (transactionForApply lab f g now))
| q_applying lab f g now : quietOp (final (markGenerationApplying lab f g now))
| q_applied lab f g now : quietOp (final (markGenerationApplied lab f g now))
| q_evidence lab f g now h : quietOp (final (recordEvidence lab f g now h))
| q_verified lab f g now : quietOp (final (markStateVerified lab f g now))
| q_forCommit lab f g now : quietOp (final (transactionForCommit lab f g now))
| q_commit lab f g inv now : quietOp (final (finishCommittedGeneration lab f g inv now))
| q_finalize lab f g now : quietOp (final (finalizeCommittedGeneration lab f g now))
| q_destroyed lab f now : quietOp (final (finishDestroyedLab lab f now))
| q_recovered lab f g now : quietOp (final (finishRecoveredGeneration lab f g now))
| q_reopen lab f g now : quietOp (final (reopenCommittedTransaction lab f g now))
| q_beginRecovery lab f g st tot o pl now :
    quietOp (final (beginRecovery lab f g st tot o pl now))
| q_markPhase lab f g ph fl now : quietOp (final (markTransactionPhase lab f g ph fl now))
| q_restoreClaims lab f vnis : quietOp (final (restoreOverlayClaims lab f vnis))
| q_note lab o ttl g now : quietOp (final (noteEphemeralLease lab o ttl g now))
| q_heartbeat req now : quietOp (final (renewEphemeralLease req now))
| q_dropEphemeral lab : quietOp (final (dropEphemeralLease lab))
| q_forgetEphemeral lab : quietOp (final (forgetEphemeralLease lab))
| q_hold req now : quietOp (final (applyHold req now))
| q_heldBy lab now : quietOp (final (heldBy lab now))
| q_refuseHeld lab tok now : quietOp (final (refuseMutationIfHeld lab tok now))
| q_op lab kind b : quietOp (final (acquireOperation lab kind b))
| q_opForced lab kind a b now : quietOp (final (acquireForcedOperation lab kind a b now))
| q_opRelease lab id : quietOp (final (releaseOperation lab id))
| q_forget lab : quietOp (final (storeForget lab))
| q_gcBegin vni o now : quietOp (final (beginOverlayCollection vni o now))
| q_gcEnd vni o : quietOp (final (endOverlayCollection vni o))
| q_gcRecords lab now : quietOp (final (beginLabRecordCollection lab now))
| q_gcClaims pl el : quietOp (final (gcReleaseStaleLiveClaims pl el)).

Lemma quietOp_quiet g s : quietOp g -> quiet s (g s).
Proof.
  destruct 1;
  match goal with |- quiet ?s (final ?m ?s) =>
    cut (mrel quiet m); [by intros H; apply H|] end;
  auto using quiet_requireMutationFence, quiet_renewMutationLease,
    quiet_releaseMutationLease, quiet_mutationLeaseHolder,
    quiet_requireOverlayReservations, quiet_reserveOverlays,
    quiet_promoteOverlayReservations, quiet_releaseOverlayClaims,
    quiet_prepareGeneration, quiet_transactionForApply, quiet_markGenerationApplying,
    quiet_markGenerationApplied, quiet_recordEvidence, quiet_markStateVerified,
    quiet_transactionForCommit, quiet_finishCommittedGeneration,
    quiet_finalizeCommittedGeneration, quiet_finishDestroyedLab.
  all: auto using quiet_finishRecoveredGeneration, quiet_reopenCommittedTransaction,
    quiet_beginRecovery, quiet_markTransactionPhase, quiet_restoreOverlayClaims,
    quiet_noteEphemeralLease, quiet_renewEphemeralLease, quiet_dropEphemeralLease,
    quiet_forgetEphemeralLease, quiet_applyHold, quiet_heldBy,
    quiet_refuseMutationIfHeld, quiet_acquireOperation, quiet_acquireForcedOperation,
    quiet_releaseOperation, quiet_storeForget, quiet_beginOverlayCollection,
    quiet_endOverlayCollection, quiet_beginLabRecordCollection,
    quiet_gcReleaseStaleLiveClaims.
Qed.

(** What happened so far, the most recent first: fences handed to callers, and
    restarts, which could read the journal or not. *)
Inductive event :=
| Issue (lab : string) (f : Fence)
| Restarted (legible : bool).
Abbreviation Trace := (list event) (only parsing).

Inductive step : Server -> Trace -> Server -> Prop :=
| step_acquire token req now s s' resp :
    acquireMutationLease token req now s = (s', Ok resp) ->
    step s [Issue (lrLab resp) (lrFence resp)] s'
| step_acquire_refused token req now s s' e :
    acquireMutationLease token req now s = (s', Err e) -> step s [] s'
| step_recovery token lab ttl now s s' f :
    acquireRecoveryFence token lab ttl now s = (s', Ok f) -> step s [Issue lab f] s'
| step_recovery_refused token lab ttl now s s' e :
    acquireRecoveryFence token lab ttl now s = (s', Err e) -> step s [] s'
| step_op g s : quietOp g -> step s [] (g s)
| step_restart rd now faults s :
    store s <> None -> step s [Restarted (rdCoordination rd)] (restart rd now faults s).

Inductive reach : nat -> Trace -> Server -> Prop :=
| reach_init node st faults :
    (st ≫= stCoordination) = None -> reach 0 [] (freshServer node st faults)
| reach_step n tr s new s' :
    reach n tr s -> step s new s' -> reach (S n) (new ++ tr) s'.

(** Every restart could read the journal. *)
Definition legible (tr : Trace) : Prop := Restarted false ∉ tr.

(** The fences of a trace. *)
Abbreviation Issued := (list (string * Fence)) (only parsing).
Definition issuedIn (tr : Trace) : Issued :=
  omap (fun e => match e with Issue lab f => Some (lab, f) | Restarted _ => None end) tr.

(** The most recent fence issued for a lab by the process that runs now. *)
Fixpoint latest (lab : string) (tr : Trace) : option Fence :=
  match tr with
  | [] => None
  | Restarted _ :: _ => None
  | Issue lab' f :: tr => if decide (lab' = lab) then Some f else latest lab tr
  end.

(** ** The lease in force *)

(** Every lease in memory is the last fence this process issued for its lab. *)
Definition LeaseInv (tr : Trace) (s : Server) : Prop :=
  forall lab l, mutations s !! lab = Some l -> latest lab tr = Some (lFence l).

Lemma LeaseInv_quiet tr s s' : quiet s s' -> LeaseInv tr s -> LeaseInv tr s'.
Proof. intros (Hm & _) HI lab l Hl. destruct (Hm _ _ Hl) as (l0 & Hl0 & <-). by apply HI. Qed.

(** The write that precedes handing out a fence. *)
Lemma LeaseInv_issue tr s lab g lease s' r :
  LeaseInv tr s -> mutations s !! lab = None ->
  saveCoordinationLocked (set_mutations <[lab := lease]> (set_coord (set_HighWater <[lab := g]>) s)) = (s', r) ->
  match r with
  | Ok _ => LeaseInv (Issue lab (lFence lease) :: tr) s'
  | Err _ => LeaseInv tr (set_mutations (delete lab) s')
  end.
Proof.
  intros HI Hnone Hsave.
  assert (mutations s' = <[lab := lease]> (mutations s)) as Hm.
  { destruct (save_inv (set_mutations <[lab := lease]> (set_coord (set_HighWater <[lab := g]>) s)))
      as [[Hs _]|[(st & fs & _ & _ & Hs)|(st & _ & Hs)]]; rewrite Hs in Hsave; by injection Hsave as <- _. }
  destruct r as [u|e]; intros lab' l; simpl; rewrite Hm.
  - rewrite lookup_insert. case_decide as E; [by intros [= <-]|]. apply HI.
  - rewrite delete_insert_id by done. apply HI.
Qed.

Lemma LeaseInv_acquire tr s token req now s' r :
  LeaseInv tr s -> acquireMutationLease token req now s = (s', r) ->
  match r with
  | Ok resp => LeaseInv (Issue (lrLab resp) (lrFence resp) :: tr) s'
  | Err _ => LeaseInv tr s'
  end.
Proof.
  intros HI. unfold acquireMutationLease. unfold refuse, lift, get, mbind at 1, SE_bind at 1.
  destruct (bool_decide (aqLab req = "")); [by intros [= <- <-]|].
  unfold mret at 1, SE_ret at 1, mbind at 1, SE_bind at 1. destruct token as [token|e]; [|by intros [= <- <-]].
  pose proof (LeaseInv_quiet _ _ _ (quiet_expire now s) HI) as H1.
  unfold mbind at 1, SE_bind at 1. unfold final in H1.
  destruct (expireCoordinationLocked now s) as [s1 [changed|e]]; simpl in H1; [|by intros [= <- <-]].
  unfold mbind at 1, SE_bind at 1.
  destruct (mutations s1 !! aqLab req) as [held|] eqn:Hheld.
  { destruct (transactions s1 !! aqLab req); [case_decide|]; unfold fail; by intros [= <- <-]. }
  unfold mbind, SE_bind, when, try_catch, modify, fail, mret, SE_ret. cbn -[saveCoordinationLocked].
  match goal with |- context [set_mutations <[_ := ?l]> (set_coord (set_HighWater <[_ := ?x]>) s1)] =>
    pose proof (LeaseInv_issue tr s1 (aqLab req) x l) as Hiss end.
  set (s2 := set_mutations _ (set_coord _ s1)) in *.
  destruct (changed || bool_decide (is_Some (store s1))) eqn:Hw.
  - destruct (saveCoordinationLocked s2) as [s3 r3] eqn:Hsave. specialize (Hiss s3 r3 H1 Hheld eq_refl).
    destruct r3; intros [= <- <-]; exact Hiss.
  - intros [= <- <-]. apply (Hiss s2 (Ok tt)); auto.
    apply orb_false_iff in Hw as [_ Hst%bool_decide_eq_false].
    unfold saveCoordinationLocked. simpl. destruct (store s1); [|done]. exfalso. eauto.
Qed.

Lemma LeaseInv_recovery tr s token lab ttl now s' r :
  LeaseInv tr s -> acquireRecoveryFence token lab ttl now s = (s', r) ->
  match r with Ok f => LeaseInv (Issue lab f :: tr) s' | Err _ => LeaseInv tr s' end.
Proof.
  intros HI. unfold acquireRecoveryFence.
  pose proof (LeaseInv_quiet _ _ _ (quiet_expire now s) HI) as H1.
  unfold get, lift, mbind at 1, SE_bind at 1. unfold final in H1.
  destruct (expireCoordinationLocked now s) as [s1 [changed|e]]; simpl in H1; [|by intros [= <- <-]].
  assert (mrel quiet (when changed saveCoordinationLocked)) as Hwhen by quiet_solve.
  pose proof (LeaseInv_quiet _ _ _ (Hwhen s1) H1) as H2. clear Hwhen H1.
  unfold mbind at 1, SE_bind at 1. unfold final in H2.
  destruct (when changed saveCoordinationLocked s1) as [s2 [[]|e]]; simpl in H2; [|by intros [= <- <-]].
  unfold mbind at 1, SE_bind at 1.
  destruct (mutations s2 !! lab) as [held|] eqn:Hheld; [unfold fail; by intros [= <- <-]|].
  destruct token as [token|e]; [|by intros [= <- <-]].
  unfold mbind, SE_bind, try_catch, modify, fail, mret, SE_ret. cbn -[saveCoordinationLocked].
  match goal with |- context [set_mutations <[_ := ?l]> (set_coord (set_HighWater <[_ := ?x]>) s2)] =>
    pose proof (LeaseInv_issue tr s2 lab x l) as Hiss end.
  set (s3 := set_mutations _ (set_coord _ s2)) in *.
  destruct (saveCoordinationLocked s3) as [s4 r4] eqn:Hsave. specialize (Hiss s4 r4 H2 Hheld eq_refl).
  destruct r4; intros [= <- <-]; exact Hiss.
Qed.

Lemma restart_drops_leases rd now faults s : mutations (restart rd now faults s) = ∅.
Proof.
  destruct (restart_quiet rd now faults s) as (Hm & _). apply map_empty. intros lab.
  destruct (mutations (restart rd now faults s) !! lab) as [l|] eqn:E; [|done].
  destruct (Hm _ _ E) as (l0 & H0 & _). by destruct (readCoordination rd s).
Qed.

Lemma reach_LeaseInv n tr s : reach n tr s -> LeaseInv tr s.
Proof.
  induction 1 as [node st faults Hst|n tr s new s' Hr IH Hstep]; [done|].
  destruct Hstep as [token req now s s' resp H|token req now s s' e H
    |token lab ttl now s s' f H|token lab ttl now s s' e H|g s Hq|rd now faults s Hst]; simpl.
  - exact (LeaseInv_acquire _ _ _ _ _ _ _ IH H).
  - exact (LeaseInv_acquire _ _ _ _ _ _ _ IH H).
  - exact (LeaseInv_recovery _ _ _ _ _ _ _ _ IH H).
  - exact (LeaseInv_recovery _ _ _ _ _ _ _ _ IH H).
  - by eapply LeaseInv_quiet; [apply quietOp_quiet|].
  - intros lab l. by rewrite restart_drops_leases.
Qed.

(** ** The generations *)

Definition journalGen (s : Server) (lab : string) : Z :=
  match journalHW s with Some m => lookup_or 0 m lab | None => 0 end.

(** Newer fences of a lab carry greater generations. *)
Fixpoint increasing (issued : Issued) : Prop :=
  match issued with
  | [] => True
  | (lab, f) :: older =>
      (forall f', (lab, f') ∈ older -> fGeneration f' < fGeneration f) /\ increasing older
  end.

Lemma increasing_split recent older lab f f' :
  increasing (recent ++ (lab, f) :: older) -> (lab, f') ∈ older ->
  fGeneration f' < fGeneration f.
Proof.
  induction recent as [|[lab0 f0] recent IH]; simpl; [intros [H _]; apply H|].
  intros [_ H]. by apply IH.
Qed.

Record FenceInv (n : nat) (issued : Issued) (s : Server) : Prop := {
  fi_issued lab f : (lab, f) ∈ issued -> 0 < fGeneration f <= hw s lab;
  fi_journal lab f : store s <> None -> (lab, f) ∈ issued ->
    fGeneration f <= journalGen s lab;
  fi_bound lab : 0 <= hw s lab <= Z.of_nat n;
  fi_journal_bound lab : 0 <= journalGen s lab <= Z.of_nat n;
  fi_increasing : increasing issued
}.

Lemma FenceInv_quiet n issued s s' :
  quiet s s' -> FenceInv n issued s -> FenceInv n issued s'.
Proof.
  intros (Hm & Hh & Hs & Hj) [B C D E F].
  assert (forall lab, hw s' lab = hw s lab) as Hhw by (intros; unfold hw; by rewrite Hh).
  assert (forall lab, journalGen s' lab = journalGen s lab \/
            journalGen s' lab = hw s lab) as Hjg.
  { intros lab. unfold journalGen, hw. destruct Hj as [-> | ->]; auto. }
  split.
  - intros lab f Hf. rewrite Hhw. eauto.
  - intros lab f Hst Hf. destruct (Hjg lab) as [-> | ->].
    + apply C; [|done]. by rewrite <- Hs.
    + destruct (B _ _ Hf). lia.
  - intros lab. rewrite Hhw. apply D.
  - intros lab. destruct (Hjg lab) as [-> | ->]; auto.
  - done.
Qed.

Lemma FenceInv_mono n n' issued s : (n <= n')%nat -> FenceInv n issued s -> FenceInv n' issued s.
Proof.
  intros Hn [B C D E F]. split; eauto.
  - intros lab. specialize (D lab). lia.
  - intros lab. specialize (E lab). lia.
Qed.

(** Bumping the high-water mark of a lab without a lease is harmless. *)
Definition bumpHW (lab : string) (g : Z) (s : Server) : Server :=
  set_coord (set_HighWater <[lab := g]>) s.

Lemma hw_bump lab g s lab' :
  hw (bumpHW lab g s) lab' = if decide (lab = lab') then g else hw s lab'.
Proof.
  unfold hw, lookup_or. simpl. case_decide; simplify_map_eq; done.
Qed.

Lemma FenceInv_bump n issued s lab :
  Z.of_nat n + 1 < 2 ^ 64 -> FenceInv n issued s ->
  FenceInv (S n) issued (bumpHW lab (wrap64 (hw s lab + 1)) s).
Proof.
  intros Hn [B C D E F]. rewrite wrap64_small by (specialize (D lab); lia).
  split.
  - intros lab' f Hf. rewrite hw_bump. specialize (B _ _ Hf). case_decide; subst; lia.
  - intros lab' f Hst Hf. by apply C.
  - intros lab'. rewrite hw_bump. pose proof (D lab'). pose proof (D lab).
    case_decide; lia.
  - intros lab'. specialize (E lab'). unfold journalGen, journalHW in *. simpl. lia.
  - done.
Qed.

(** Handing out the bumped generation, once it is in the journal. *)
Lemma FenceInv_issue n issued s lab holder token until :
  FenceInv n issued s -> 0 < hw s lab ->
  (forall f, (lab, f) ∈ issued -> fGeneration f < hw s lab) ->
  (store s <> None -> journalGen s lab = hw s lab) ->
  let lease := mkLease holder (mkFence token (hw s lab)) until in
  FenceInv n ((lab, lFence lease) :: issued) (set_mutations <[lab := lease]> s).
Proof.
  intros [B C D E F] Hpos Hlt Hj lease. split; simpl.
  - intros lab' f [[= -> ->]|Hf]%elem_of_cons; simpl; [|eauto].
    unfold hw in *. simpl. lia.
  - intros lab' f Hst [[= -> ->]|Hf]%elem_of_cons; simpl.
    + unfold journalGen, journalHW in *. simpl in *. by rewrite Hj.
    + by apply C.
  - apply D.
  - apply E.
  - done.
Qed.

(** The write that precedes handing out a fence: on success the journal holds
    the bumped mark, on failure the lease is withdrawn. *)
Lemma FenceInv_persisted_issue n issued s lab holder token until s' r :
  FenceInv n issued s -> mutations s !! lab = None -> Z.of_nat n + 1 < 2 ^ 64 ->
  let g := wrap64 (hw s lab + 1) in
  let lease := mkLease holder (mkFence token g) until in
  saveCoordinationLocked (set_mutations <[lab := lease]> (bumpHW lab g s)) = (s', r) ->
  match r with
  | Ok _ => FenceInv (S n) ((lab, lFence lease) :: issued) s'
  | Err _ => FenceInv (S n) issued (set_mutations (delete lab) s')
  end.
Proof.
  intros HI Hnone Hn g lease Hsave.
  pose proof (FenceInv_bump _ _ _ lab Hn HI) as HB. fold g in HB.
  assert (hw (bumpHW lab g s) lab = g) as Hg by (rewrite hw_bump; by case_decide).
  assert (g = hw s lab + 1) as Hg1.
  { unfold g. apply wrap64_small. destruct HI as [_ _ D _ _]. specialize (D lab). lia. }
  assert (forall f, (lab, f) ∈ issued -> fGeneration f < hw (bumpHW lab g s) lab) as Hlt.
  { intros f Hf. rewrite Hg, Hg1. destruct HI as [B _ _ _ _]. specialize (B _ _ Hf). lia. }
  assert (0 < g) as Hpos by (destruct HI as [_ _ D _ _]; specialize (D lab); lia).
  assert (delete lab (<[lab := lease]> (mutations s)) = mutations s) as Hdel
    by (by apply delete_insert_id).
  destruct (save_inv (set_mutations <[lab := lease]> (bumpHW lab g s)))
    as [[Hs Hst]|[(st & fs & Hst & _ & Hs)|(st & Hst & Hs)]];
    rewrite Hs in Hsave; injection Hsave as <- <-; simpl in Hst.
  - pose proof (FenceInv_issue _ _ _ lab holder token until HB) as H.
    rewrite Hg in H. apply H; [done|by rewrite Hg in Hlt|]. simpl. by rewrite Hst.
  - apply (FenceInv_quiet _ _ (bumpHW lab g s)); [|done].
    unfold quiet, journalHW. simpl. rewrite Hdel, Hst. split_and!; eauto.
  - set (s2 := set_store (Some (mkStore (Some (coord (bumpHW lab g s)))
                (stTopology st) (stHolds st))) (tail (srvFaults s)) (bumpHW lab g s)).
    assert (FenceInv (S n) issued s2) as HI2.
    { apply (FenceInv_quiet _ _ (bumpHW lab g s)); [|done].
      unfold quiet, journalHW. simpl. rewrite Hst. split_and!; eauto; by split. }
    pose proof (FenceInv_issue _ _ s2 lab holder token until HI2) as H.
    change (hw s2 lab) with (hw (bumpHW lab g s) lab) in H. rewrite Hg in H.
    apply H; [done|by rewrite Hg in Hlt|]. intros _.
    exact Hg.
Qed.

(** ** The invariant is preserved by every step *)

Lemma FenceInv_acquire n issued s token req now s' r :
  FenceInv n issued s -> Z.of_nat n + 1 < 2 ^ 64 ->
  acquireMutationLease token req now s = (s', r) ->
  match r with
  | Ok resp => FenceInv (S n) ((lrLab resp, lrFence resp) :: issued) s'
  | Err _ => FenceInv (S n) issued s'
  end.
Proof.
  intros HI Hn. unfold acquireMutationLease.
  assert (forall s0, FenceInv n issued s0 -> FenceInv (S n) issued s0) as Hmono
    by (intros s0; apply FenceInv_mono; lia).
  unfold refuse, lift, get, mbind at 1, SE_bind at 1.
  destruct (bool_decide (aqLab req = "")); [intros [= <- <-]; by apply Hmono|].
  unfold mret at 1, SE_ret at 1, mbind at 1, SE_bind at 1.
  destruct token as [token|e]; [|intros [= <- <-]; by apply Hmono].
  pose proof (FenceInv_quiet _ _ _ _ (quiet_expire now s) HI) as H1.
  unfold mbind at 1, SE_bind at 1. unfold final in H1.
  destruct (expireCoordinationLocked now s) as [s1 [changed|e]]; simpl in H1;
    [|intros [= <- <-]; by apply Hmono].
  unfold mbind at 1, SE_bind at 1.
  destruct (mutations s1 !! aqLab req) as [held|] eqn:Hheld.
  { destruct (transactions s1 !! aqLab req); [case_decide|]; unfold fail;
      intros [= <- <-]; by apply Hmono. }
  pose proof (FenceInv_persisted_issue n issued s1 (aqLab req) (aqHolder req) token
    (now + leaseTTL (aqTTLSeconds req))) as Hiss. cbv zeta in Hiss.
  unfold mbind, SE_bind, when, try_catch, modify, fail, mret, SE_ret.
  cbn -[saveCoordinationLocked].
  fold (bumpHW (aqLab req) (wrap64 (hw s1 (aqLab req) + 1)) s1).
  set (s2 := set_mutations _ (bumpHW _ _ s1)) in *.
  destruct (changed || bool_decide (is_Some (store s1))) eqn:Hw.
  - destruct (saveCoordinationLocked s2) as [s3 r3] eqn:Hsave.
    specialize (Hiss s3 r3 H1 Hheld Hn eq_refl).
    destruct r3; intros [= <- <-]; exact Hiss.
  - intros [= <- <-]. apply (Hiss s2 (Ok tt)); auto.
    apply orb_false_iff in Hw as [_ Hst%bool_decide_eq_false].
    unfold saveCoordinationLocked. simpl.
    destruct (store s1); [|done]. exfalso. eauto.
Qed.

Lemma FenceInv_recovery n issued s token lab ttl now s' r :
  FenceInv n issued s -> Z.of_nat n + 1 < 2 ^ 64 ->
  acquireRecoveryFence token lab ttl now s = (s', r) ->
  match r with
  | Ok f => FenceInv (S n) ((lab, f) :: issued) s'
  | Err _ => FenceInv (S n) issued s'
  end.
Proof.
  intros HI Hn. unfold acquireRecoveryFence.
  assert (forall s0, FenceInv n issued s0 -> FenceInv (S n) issued s0) as Hmono
    by (intros s0; apply FenceInv_mono; lia).
  pose proof (FenceInv_quiet _ _ _ _ (quiet_expire now s) HI) as H1.
  unfold get, lift, mbind at 1, SE_bind at 1. unfold final in H1.
  destruct (expireCoordinationLocked now s) as [s1 [changed|e]]; simpl in H1;
    [|intros [= <- <-]; by apply Hmono].
  assert (mrel quiet (when changed saveCoordinationLocked)) as Hwhen by quiet_solve.
  pose proof (FenceInv_quiet _ _ _ _ (Hwhen s1) H1) as H2. clear Hwhen H1.
  unfold mbind at 1, SE_bind at 1. unfold final in H2.
  destruct (when changed saveCoordinationLocked s1) as [s2 [[]|e]]; simpl in H2;
    [|intros [= <- <-]; by apply Hmono].
  unfold mbind at 1, SE_bind at 1.
  destruct (mutations s2 !! lab) as [held|] eqn:Hheld;
    [unfold fail; intros [= <- <-]; by apply Hmono|].
  destruct token as [token|e]; [|intros [= <- <-]; by apply Hmono].
  pose proof (FenceInv_persisted_issue n issued s2 lab "agent recovery" token (now + ttl))
    as Hiss. cbv zeta in Hiss.
  unfold mbind, SE_bind, try_catch, modify, fail, mret, SE_ret.
  cbn -[saveCoordinationLocked].
  fold (bumpHW lab (wrap64 (hw s2 lab + 1)) s2).
  set (s3 := set_mutations _ (bumpHW _ _ s2)) in *.
  destruct (saveCoordinationLocked s3) as [s4 r4] eqn:Hsave.
  specialize (Hiss s4 r4 H2 Hheld Hn eq_refl).
  destruct r4; intros [= <- <-]; exact Hiss.
Qed.

(** After a crash no lease is valid and the journal's marks are back. *)
Lemma hw_loadCoord now disk s lab :
  FenceHighWater (coord s) = ∅ -> 0 <= lookup_or 0 (FenceHighWater disk) lab ->
  hw (set_coord (loadCoord now disk) s) lab = lookup_or 0 (FenceHighWater disk) lab.
Proof.
  intros He. unfold hw, lookup_or. simpl. rewrite He, lookup_union_with, lookup_empty.
  destruct (FenceHighWater disk !! lab) as [z|] eqn:Hz; simpl.
  - intros Hz0. destruct (decide (0 < z)).
    + by rewrite (map_lookup_filter_Some_2 _ _ lab z).
    + rewrite (proj2 (map_lookup_filter_None _ _ _)); simpl; [lia|].
      right. intros z' ?. simplify_eq. done.
  - intros _. rewrite (proj2 (map_lookup_filter_None _ _ _)); simpl; [done|by left].
Qed.

Lemma FenceInv_restart n issued s rd now faults :
  rdCoordination rd = true ->
  FenceInv n issued s -> store s <> None -> FenceInv n issued (restart rd now faults s).
Proof.
  intros Hrd [B C D E F] Hst. eapply FenceInv_quiet; [apply restart_quiet|].
  set (s0 := freshServer _ _ _). unfold readCoordination. rewrite Hrd.
  assert (journalHW s = FenceHighWater <$> (store s ≫= stCoordination)) as Hj.
  { unfold journalHW. by destruct (store s). }
  destruct (store s ≫= stCoordination) as [disk|] eqn:Hd; simpl in Hj.
  - assert (forall lab, journalGen s lab = lookup_or 0 (FenceHighWater disk) lab) as Hjg.
    { intros lab. unfold journalGen. by rewrite Hj. }
    assert (forall lab, hw (set_coord (loadCoord now disk) s0) lab = journalGen s lab) as Hh.
    { intros lab. rewrite Hjg. apply hw_loadCoord; [done|]. rewrite <- Hjg. apply E. }
    split.
    + intros lab f Hf. rewrite Hh. specialize (B _ _ Hf). specialize (C _ _ Hst Hf). lia.
    + intros lab f _ Hf. apply (C _ _ Hst Hf).
    + intros lab. rewrite Hh. apply E.
    + apply E.
    + done.
  - assert (issued = []) as ->.
    { destruct issued as [|[lab f] issued]; [done|]. exfalso.
      assert ((lab, f) ∈ (lab, f) :: issued) as Hin by left.
      pose proof (C _ _ Hst Hin) as H1. pose proof (B _ _ Hin) as H2.
      unfold journalGen in H1. rewrite Hj in H1. lia. }
    split; try done; [by intros ?? ?%elem_of_nil|].
    intros lab. unfold hw, lookup_or. simpl. rewrite lookup_empty. simpl. lia.
Qed.

Lemma FenceInv_init node st faults :
  (st ≫= stCoordination) = None -> FenceInv 0 [] (freshServer node st faults).
Proof.
  intros Hst. assert (journalHW (freshServer node st faults) = None) as Hj.
  { unfold journalHW. simpl. destruct st as [st|]; [|done]. simpl in *. by rewrite Hst. }
  split; [by intros ?? ?%elem_of_nil|by intros ??? ?%elem_of_nil|done| |done].
  intros lab. unfold journalGen. rewrite Hj. lia.
Qed.

Lemma FenceInv_step n issued s new s' :
  FenceInv n issued s -> Z.of_nat n + 1 < 2 ^ 64 -> legible new -> step s new s' ->
  FenceInv (S n) (issuedIn new ++ issued) s'.
Proof.
  intros HI Hn Hleg Hstep.
  assert (forall s0, FenceInv n issued s0 -> FenceInv (S n) issued s0) as Hmono
    by (intros s0; apply FenceInv_mono; lia).
  destruct Hstep as [token req now s s' resp H|token req now s s' e H
    |token lab ttl now s s' f H|token lab ttl now s s' e H|g s Hq|rd now faults s Hst]; simpl.
  - exact (FenceInv_acquire _ _ _ _ _ _ _ _ HI Hn H).
  - exact (FenceInv_acquire _ _ _ _ _ _ _ _ HI Hn H).
  - exact (FenceInv_recovery _ _ _ _ _ _ _ _ _ HI Hn H).
  - exact (FenceInv_recovery _ _ _ _ _ _ _ _ _ HI Hn H).
  - apply Hmono. eapply FenceInv_quiet; [by apply quietOp_quiet|done].
  - apply Hmono. apply FenceInv_restart; [|done..]. unfold legible in Hleg.
    destruct (rdCoordination rd); [done|set_solver].
Qed.

Lemma reach_FenceInv n tr s :
  reach n tr s -> Z.of_nat n < 2 ^ 64 -> legible tr -> FenceInv n (issuedIn tr) s.
Proof.
  induction 1 as [|n tr s new s' Hr IH Hstep]; intros Hn Hleg; [by apply FenceInv_init|].
  unfold legible in Hleg. rewrite not_elem_of_app in Hleg. destruct Hleg as [H1 H2].
  unfold issuedIn. rewrite omap_app. eapply FenceInv_step; [|lia|exact H1|done]. apply IH; [lia|done].
Qed.

(** ** The safety theorems *)

(** C1. Fencing generations only grow. In any execution of the agent, with
    crashes and restarts on its store, lost writes and arbitrary clocks, as
    long as fewer than 2^64 steps are taken and every restart can read and
    decode the journal, a fence issued for a lab has a strictly greater
    generation than every fence issued for that lab before it. (A restart that
    cannot read the journal goes on with an empty one and hands the same
    generations out again, see [illegible_journal_forgets].) *)
Theorem issued_generations_increase n recent older s lab f f' :
  reach n (recent ++ Issue lab f :: older) s -> Z.of_nat n < 2 ^ 64 ->
  legible (recent ++ Issue lab f :: older) ->
  Issue lab f' ∈ older -> fGeneration f' < fGeneration f.
Proof.
  intros Hr Hn Hleg Hin. destruct (reach_FenceInv _ _ _ Hr Hn Hleg) as [_ _ _ _ Hinc].
  unfold issuedIn in Hinc. rewrite omap_app in Hinc.
  apply increasing_split with (1 := Hinc). apply list_elem_of_omap. by exists (Issue lab f').
Qed.

(** C2. Mutual exclusion: a fence the agent accepts is the last one that the
    running process issued for that lab, in every execution, whatever was lost
    or could not be read on the way. So a fence that was superseded is refused,
    and so is every fence that a process handed out before it crashed, for
    ever. *)
Theorem accepted_fence_is_latest n tr s lab fence now :
  reach n tr s -> fenceErrorLocked lab fence now s = Ok tt -> latest lab tr = Some fence.
Proof.
  intros Hr. pose proof (reach_LeaseInv _ _ _ Hr) as HA.
  unfold fenceErrorLocked. repeat case_decide; try done. case_match; [done|].
  destruct (mutations s !! lab) as [lease|] eqn:Hl; [|done].
  destruct (negb (before now (lUntil lease))); [done|].
  destruct (negb (_ =? _)) eqn:Hg; [done|]. case_decide as Ht; [|done]. intros _.
  rewrite (HA _ _ Hl). f_equal.
  apply negb_false_iff, Z.eqb_eq in Hg. destruct (lFence lease), fence. simpl in *. congruence.
Qed.

(** ** A concrete execution: a lease, a crash, another lease *)

Definition demoStore : Store := mkStore None ∅ ∅.
Definition demo0 : Server := freshServer "node1" (Some demoStore) [].
Definition demoReq (holder : string) : LeaseAcquireRequest := mkAcquire "cos461" holder 60.
Definition demoAcquire1 : M LeaseResponse :=
  acquireMutationLease (Ok "token-1") (demoReq "deploy") 1000.
Definition demo1 : Server := final demoAcquire1 demo0.
Definition demo2 : Server := restart allRead 2000 [] demo1.
Definition demoAcquire2 : M LeaseResponse :=
  acquireMutationLease (Ok "token-2") (demoReq "grade") 3000.
Definition demo3 : Server := final demoAcquire2 demo2.
Definition demoFence1 : Fence := mkFence "token-1" 1.
Definition demoFence2 : Fence := mkFence "token-2" 2.

Definition demoTrace : Trace :=
  [Issue "cos461" demoFence2; Restarted true; Issue "cos461" demoFence1].

Lemma demo1_reach : reach 1 [Issue "cos461" demoFence1] demo1.
Proof.
  apply (reach_step 0 [] demo0 [Issue "cos461" demoFence1]); [by apply reach_init|].
  eapply (step_acquire _ _ _ demo0 demo1 (mkLeaseResponse _ _ _)).
  apply run_eq. vm_compute. reflexivity.
Qed.
Lemma demo2_reach : reach 2 [Restarted true; Issue "cos461" demoFence1] demo2.
Proof.
  apply (reach_step 1 [Issue "cos461" demoFence1] demo1 [Restarted true]); [exact demo1_reach|].
  by apply (step_restart allRead 2000 [] demo1).
Qed.
Lemma demo_reach : reach 3 demoTrace demo3.
Proof.
  apply (reach_step 2 [Restarted true; Issue "cos461" demoFence1] demo2 [Issue "cos461" demoFence2]);
    [exact demo2_reach|].
  eapply (step_acquire _ _ _ demo2 demo3 (mkLeaseResponse _ _ _)).
  apply run_eq. vm_compute. reflexivity.
Qed.

Lemma issued_generations_increase_witness :
  reach 3 demoTrace demo3 /\ fGeneration demoFence1 < fGeneration demoFence2.
Proof.
  split; [exact demo_reach|].
  apply (issued_generations_increase 3 [] [Restarted true; Issue "cos461" demoFence1] demo3 "cos461"
           demoFence2 demoFence1); [exact demo_reach|reflexivity| |right; left].
  unfold legible. simpl. rewrite !not_elem_of_cons. split_and!; try discriminate. apply not_elem_of_nil.
Defined.

Lemma accepted_fence_is_latest_witness :
  fenceErrorLocked "cos461" demoFence2 4000 demo3 = Ok tt /\
  fenceErrorLocked "cos461" demoFence1 2500 demo2 <> Ok tt /\
  latest "cos461" demoTrace = Some demoFence2.
Proof.
  split; [vm_compute; reflexivity|]. split.
  - intros H. pose proof (accepted_fence_is_latest 2 _ demo2 "cos461" demoFence1 2500 demo2_reach H) as E.
    discriminate E.
  - apply (accepted_fence_is_latest 3 _ demo3 "cos461" demoFence2 4000);
      [exact demo_reach|vm_compute; reflexivity].
Defined.

(** A restart that cannot read the journal forgets which generations were
    issued: the next fence of the lab has the generation of the first. *)
Definition demo2' : Server := restart (mkReads false true (fun _ => true)) 2000 [] demo1.
Theorem illegible_journal_forgets :
  hw demo1 "cos461" = 1 /\ hw demo2' "cos461" = 0 /\
  value demoAcquire2 demo2' = Ok (mkLeaseResponse "cos461" (mkFence "token-2" 1) (3000 + leaseTTL 60)).
Proof. split_and!; vm_compute; reflexivity. Qed.
