(* ===== verification/Claims.v ===== *)
(** * Overlay claims: isolation between labs and from the collector

    Proves, for every operation of the previous files, what it may do to the
    overlay claims: a lab's operation never takes, changes or drops the live
    claim of another lab, and a claim never appears on an identifier that a
    collection is removing. *)

From stdpp Require Import base gmap strings list fin_maps.
From Stdlib Require Import ZArith Lia.
From S2P Require Import Prelude Model Coordination Transactions Ephemeral GcFence Restart.

Open Scope Z_scope.

(** ** The relation every operation of one lab satisfies *)

Record labRel (lab : string) (s s' : Server) : Prop := {
  (** the collector's marks are left alone *)
  lr_marks : gcCollecting s' = gcCollecting s;
  (** no claim appears on a marked identifier *)
  lr_gc vni : vni ∈ gcCollecting s -> overlayClaims s !! vni = None ->
    overlayClaims s' !! vni = None;
  (** live claims of other labs stand unchanged *)
  lr_live vni c : overlayClaims s !! vni = Some c -> cLab c <> lab -> cLive c = true ->
    overlayClaims s' !! vni = Some c;
  (** claims of other labs are old ones *)
  lr_foreign vni c : overlayClaims s' !! vni = Some c -> cLab c <> lab ->
    overlayClaims s !! vni = Some c
}.

#[export] Instance labRel_preorder lab : PreOrder (labRel lab).
Proof.
  split.
  - intros s. by split.
  - intros s1 s2 s3 [A1 B1 C1 D1] [A2 B2 C2 D2]. split.
    + congruence.
    + intros vni Hv Hn. apply B2; [by rewrite A1|auto].
    + eauto.
    + eauto.
Qed.

Lemma labRel_frame lab s s' :
  overlayClaims s' = overlayClaims s -> gcCollecting s' = gcCollecting s -> labRel lab s s'.
Proof. intros Hc Hg. split; rewrite ?Hc; auto. Qed.

Lemma labRel_save lab : mrel (labRel lab) saveCoordinationLocked.
Proof. apply mrel_save; intros; by apply labRel_frame. Qed.

(** Dropping claims of the lab itself, or lapsed reservations. *)
Lemma labRel_drop lab s drop :
  (forall vni c, drop vni c = true -> cLab c = lab \/ cLive c = false) ->
  labRel lab s (set_coord (set_Overlays (map_drop drop)) s).
Proof.
  intros Hd. split; unfold overlayClaims; simpl; [done| | |].
  - intros vni _ Hn. apply lookup_map_drop_None. by left.
  - intros vni c Hc Hl Hlive. apply lookup_map_drop_Some. split; [done|].
    destruct (drop vni c) eqn:E; [|done]. destruct (Hd _ _ E); congruence.
  - intros vni c Hc _. by apply lookup_map_drop_Some in Hc as [? _].
Qed.

Lemma labRel_touch lab s cond f :
  (forall vni c, cond vni c = true -> cLab c = lab /\ cLab (f c) = lab) ->
  labRel lab s (set_coord (set_Overlays (map_touch cond f)) s).
Proof.
  intros Hd. split; unfold overlayClaims; simpl; [done| | |].
  - intros vni _ Hn. rewrite lookup_map_touch. unfold overlayClaims in Hn. by rewrite Hn.
  - intros vni c Hc Hl Hlive. rewrite lookup_map_touch, Hc. simpl.
    destruct (cond vni c) eqn:E; [|done]. by destruct (Hd _ _ E).
  - intros vni c. rewrite lookup_map_touch. unfold overlayClaims.
    destruct (Overlays (coord s) !! vni) as [c0|]; simpl; [|done]. intros [= <-].
    destruct (cond vni c0) eqn:E; [|done]. by destruct (Hd _ _ E) as [_ ->].
Qed.

Lemma labRel_expire lab now : mrel (labRel lab) (expireCoordinationLocked now).
Proof.
  intros s. unfold final, expireCoordinationLocked, expire. simpl.
  etransitivity; [|apply labRel_drop].
  - by apply (labRel_frame lab s).
  - intros _ c. unfold claimExpired. destruct (cLive c); auto.
Qed.

#[export] Hint Resolve labRel_save labRel_expire : labrel.
Ltac lab_solve :=
  mrel_steps;
  try solve [ auto with labrel | apply labRel_frame; reflexivity ].

(** ** Leases *)

Lemma ownReservation_lab lab f vni c : ownReservation lab f vni c = true -> cLab c = lab.
Proof.
  unfold ownReservation. rewrite !andb_true_iff, bool_decide_eq_true. tauto.
Qed.

Lemma labRel_checkFence lab lab' f now : mrel (labRel lab) (checkFence lab' f now).
Proof. unfold checkFence. lab_solve. Qed.
#[export] Hint Resolve labRel_checkFence : labrel.

Lemma labRel_expireAndCheck lab lab' f now : mrel (labRel lab) (expireAndCheck lab' f now).
Proof. unfold expireAndCheck. lab_solve. Qed.
#[export] Hint Resolve labRel_expireAndCheck : labrel.

Lemma labRel_requireMutationFence lab lab' f n n' :
  mrel (labRel lab) (requireMutationFence lab' f n n').
Proof. unfold requireMutationFence. lab_solve. Qed.

Lemma labRel_acquire lab token req now : mrel (labRel lab) (acquireMutationLease token req now).
Proof. unfold acquireMutationLease. lab_solve. Qed.

Lemma labRel_acquireRecovery lab token lab' ttl now :
  mrel (labRel lab) (acquireRecoveryFence token lab' ttl now).
Proof. unfold acquireRecoveryFence. lab_solve. Qed.

Lemma labRel_renew req now : mrel (labRel (rnLab req)) (renewMutationLease req now).
Proof.
  unfold renewMutationLease. lab_solve. apply labRel_touch.
  intros v0 c0 ?%ownReservation_lab. auto.
Qed.

Lemma labRel_release req now : mrel (labRel (rlLab req)) (releaseMutationLease req now).
Proof.
  unfold releaseMutationLease. lab_solve. apply labRel_drop.
  intros v0 c0 ?%ownReservation_lab. auto.
Qed.

Lemma labRel_requireOverlays lab top f now :
  mrel (labRel lab) (requireOverlayReservations top f now).
Proof. unfold requireOverlayReservations. lab_solve. Qed.


(** ** Reservations

    The tail of [reserveOverlays] works on the examined identifiers [K] only;
    [within] says so, and that claims on [K] stay the lab's own. *)

Definition mine (lab : string) (K : list Z) (m : gmap Z overlayClaim) : Prop :=
  forall vni c, vni ∈ K -> m !! vni = Some c -> cLab c = lab.

Record within (lab : string) (K : list Z) (s s' : Server) : Prop := {
  wi_marks : gcCollecting s' = gcCollecting s;
  wi_out vni : vni ∉ K -> overlayClaims s' !! vni = overlayClaims s !! vni;
  wi_mine : mine lab K (overlayClaims s) -> mine lab K (overlayClaims s')
}.

#[export] Instance within_preorder lab K : PreOrder (within lab K).
Proof.
  split; [by intros s|]. intros s1 s2 s3 [A1 B1 C1] [A2 B2 C2].
  split; [congruence| |auto]. intros vni Hv. by rewrite B2, B1.
Qed.

Lemma within_safe lab K s s' :
  mine lab K (overlayClaims s) -> (forall vni, vni ∈ K -> vni ∉ gcCollecting s) ->
  within lab K s s' -> labRel lab s s'.
Proof.
  intros Hm Hgc [A B C]. specialize (C Hm). split; [done| | |].
  - intros vni Hv Hn. rewrite B; [done|]. intros ?. by apply (Hgc vni).
  - intros vni c Hc Hl _. rewrite B; [done|]. intros Hin. apply Hl. by apply (Hm vni).
  - intros vni c Hc Hl. rewrite <- B; [done|]. intros Hin. apply Hl. by apply (C vni).
Qed.

Lemma within_save lab K : mrel (within lab K) saveCoordinationLocked.
Proof. apply mrel_save; by intros. Qed.

(** An update of the claim table that is local to [K] and keeps it mine. *)
Definition localTo (lab : string) (K : list Z)
    (f : gmap Z overlayClaim -> gmap Z overlayClaim) : Prop :=
  forall m, (forall vni, vni ∉ K -> f m !! vni = m !! vni) /\
            (mine lab K m -> mine lab K (f m)).

Lemma within_update lab K f s :
  localTo lab K f -> within lab K s (set_coord (set_Overlays f) s).
Proof. intros Hf. destruct (Hf (overlayClaims s)). by split. Qed.

Lemma localTo_compose lab K f g :
  localTo lab K f -> localTo lab K g -> localTo lab K (fun m => g (f m)).
Proof.
  intros Hf Hg m. destruct (Hf m) as [F1 F2], (Hg (f m)) as [G1 G2].
  split; [|auto]. intros vni Hv. by rewrite G1, F1.
Qed.

Lemma localTo_alter lab K vni (f : gmap Z overlayClaim -> option overlayClaim) :
  vni ∈ K ->
  (forall m c, mine lab K m -> f m = Some c -> cLab c = lab) ->
  localTo lab K (fun m => partial_alter (fun _ => f m) vni m).
Proof.
  intros Hin Hf m. split.
  - intros v Hv. rewrite lookup_partial_alter_ne; [done|]. by intros ->.
  - intros Hm v c Hv. destruct (decide (vni = v)) as [->|].
    + rewrite lookup_partial_alter_eq. by apply Hf.
    + rewrite lookup_partial_alter_ne by done. by apply Hm.
Qed.

Lemma localTo_fold {A} lab K (g : gmap Z overlayClaim -> A -> gmap Z overlayClaim) l :
  (forall x, x ∈ l -> localTo lab K (fun m => g m x)) ->
  localTo lab K (fold_left g l).
Proof.
  induction l as [|x l IH]; intros Hg; simpl; [by intros m; split|].
  apply (localTo_compose lab K (fun m => g m x)).
  - apply Hg. left.
  - apply IH. intros y Hy. apply Hg. by right.
Qed.

Lemma localTo_claimAll lab K fence until vnis :
  vnis ⊆ K -> localTo lab K (claimAll lab fence until vnis).
Proof.
  intros Hsub. apply localTo_fold. intros vni Hv%Hsub.
  apply (localTo_alter lab K vni (fun m => match m !! vni with
    | Some c => if cLive c then Some (mkClaim (cLab c) (fGeneration fence) (cUntil c) true)
                else Some (mkClaim lab (fGeneration fence) until false)
    | None => Some (mkClaim lab (fGeneration fence) until false) end)) in Hv as Hl.
  - intros m. generalize (Hl m). unfold claimOne. cbn beta.
    destruct (m !! vni) as [c|]; [destruct (cLive c)|]; intros H; exact H.
  - intros m c Hm. destruct (m !! vni) as [c0|] eqn:E; [destruct (cLive c0)|]; intros [= <-];
      simpl; eauto.
Qed.

Definition myBefore (lab : string) (K : list Z) (before : list (Z * option overlayClaim)) : Prop :=
  forall vni prior, (vni, prior) ∈ before ->
    vni ∈ K /\ forall c, prior = Some c -> cLab c = lab.

Lemma localTo_restoreClaims lab K before :
  myBefore lab K before -> localTo lab K (restoreClaims before).
Proof.
  intros Hb. apply localTo_fold. intros [vni prior] [Hin Hp]%Hb.
  apply (localTo_alter lab K vni (fun _ => prior)); [done|]. intros m c _. apply Hp.
Qed.

Lemma myBefore_record lab K vnis m :
  vnis ⊆ K -> mine lab K m -> myBefore lab K (recordBefore vnis m).
Proof.
  intros Hsub Hm vni prior. unfold recordBefore. rewrite list_elem_of_fmap.
  intros (v & [= -> ->] & Hv). split; [auto|]. intros c Hc. by eapply Hm; [apply Hsub|].
Qed.

Lemma within_rollback lab K k adopted before :
  adopted ⊆ K -> myBefore lab K before ->
  mrel (within lab K) (rollbackLegacyAdoptionsLocked k lab adopted before).
Proof.
  intros Ha Hb s. unfold final, rollbackLegacyAdoptionsLocked.
  set (kept := filter _ (rev adopted)). set (f := fun m => restoreClaims _ _).
  assert (localTo lab K f) as Hf.
  { apply (localTo_compose lab K (fold_left _ kept) (restoreClaims _)).
    - apply localTo_fold. intros vni [_ Hv]%list_elem_of_filter.
      apply list_elem_of_In, in_rev, list_elem_of_In, Ha in Hv.
      apply (localTo_alter lab K vni (fun m => Some _)); [done|]. by intros m c _ [= <-].
    - apply localTo_restoreClaims. intros vni prior [_ Hin]%list_elem_of_filter.
      by apply Hb. }
  pose proof (within_update lab K f s Hf) as Hu.
  pose proof (within_save lab K (set_coord (set_Overlays f) s)) as Hs. unfold final in Hs.
  destruct (saveCoordinationLocked _) as [s2 [?|?]]; simpl in *; by etransitivity.
Qed.

Lemma within_adoptAll lab K k fence before legacy adopted :
  legacy ⊆ K -> adopted ⊆ K -> myBefore lab K before ->
  mrel (within lab K) (adoptAll k lab fence before legacy adopted).
Proof.
  intros Hl Ha Hb. revert adopted Hl Ha.
  induction legacy as [|vni legacy IH]; intros adopted Hl Ha; simpl; [by mrel_steps|].
  mrel_steps.
  - apply within_update, (localTo_alter lab K vni (fun _ => Some _)); [set_solver|].
    by intros m c _ [= <-].
  - apply IH; set_solver.
  - by apply within_rollback.
Qed.

Lemma examineVNIs_ok req owners s vnis legacy :
  examineVNIs req owners s vnis = Ok legacy ->
  legacy ⊆ vnis /\ mine (rqLab req) vnis (overlayClaims s) /\
  forall vni, vni ∈ vnis -> vni ∉ gcCollecting s.
Proof.
  revert legacy. induction vnis as [|v vnis IH]; intros legacy; simpl.
  { intros [= <-]. split_and!; [done| |]; intros vni **; by destruct (not_elem_of_nil vni). }
  destruct (examineVNI req owners s v) as [l|] eqn:E; [|done].
  destruct (examineVNIs req owners s vnis) as [l'|]; [|done]. intros [= <-].
  destruct (IH l' eq_refl) as (Hsub & Hm & Hg). clear IH.
  assert (l ⊆ [v] /\ v ∉ gcCollecting s /\
          forall c, overlayClaims s !! v = Some c -> cLab c = rqLab req) as (Hl & Hv & Hc).
  { unfold examineVNI in E. case_decide; [done|].
    destruct (match owners !! v with Some _ => _ | None => _ end) as [lg|] eqn:L; [|done].
    assert (lg ⊆ [v]) as Hlg.
    { repeat case_match; simplify_eq; set_solver. }
    destruct (overlayClaims s !! v) as [c0|]; [|by simplify_eq].
    destruct (bool_decide (cLab c0 = rqLab req)) eqn:B; simpl in E; [|done].
    apply bool_decide_eq_true in B.
    split_and!; [|done|by intros c [= <-]]. repeat case_match; by simplify_eq. }
  split_and!.
  - set_solver.
  - intros vni c [->|Hin]%elem_of_cons Hcl; [auto|]. by eapply Hm.
  - intros vni [->|Hin]%elem_of_cons; auto.
Qed.

(** The part of [reserveOverlays] after the examination. *)
Definition reserveTail (k : Kernel) (req : OverlayReservationRequest) (lease : clusterLease)
    (changed : bool) (legacy vnis : list Z) (claims : gmap Z overlayClaim)
    : M OverlayReservationResponse :=
  modify (set_coord (set_Overlays
    (claimAll (rqLab req) (rqFence req) (lUntil lease) vnis)));;
  when (changed || existsb (claimChanges (rqFence req) claims) vnis)
    (try_catch saveCoordinationLocked (fun e =>
       modify (set_coord (set_Overlays (restoreClaims (recordBefore vnis claims))));; fail e));;
  adoptAll k (rqLab req) (rqFence req) (recordBefore vnis claims) legacy [];;
  when (negb (bool_decide (legacy = []))) saveCoordinationLocked;;
  mret (mkReserved (rqLab req) vnis (lUntil lease)).

Lemma within_reserveTail k req lease changed legacy vnis claims :
  legacy ⊆ vnis -> mine (rqLab req) vnis claims ->
  mrel (within (rqLab req) vnis) (reserveTail k req lease changed legacy vnis claims).
Proof.
  intros Hl Hm. unfold reserveTail.
  assert (myBefore (rqLab req) vnis (recordBefore vnis claims)) by by apply myBefore_record.
  mrel_steps; try apply within_save.
  - by apply within_update, localTo_claimAll.
  - by apply within_update, localTo_restoreClaims.
  - apply within_adoptAll; set_solver.
Qed.

(** A fence that is accepted has a lease. *)
Lemma fence_ok_lease lab fence now s :
  fenceErrorLocked lab fence now s = Ok tt ->
  exists lease, mutations s !! lab = Some lease /\ lFence lease = fence /\ now < lUntil lease.
Proof.
  unfold fenceErrorLocked. repeat case_decide; try done. case_match; [done|].
  destruct (mutations s !! lab) as [lease|]; [|done].
  destruct (negb (before now (lUntil lease))) eqn:Hb; [done|].
  destruct (negb (_ =? _)) eqn:Hg; [done|]. case_decide as Ht; [|done]. intros _.
  exists lease. apply negb_false_iff in Hg, Hb. apply Z.eqb_eq in Hg. apply Z.ltb_lt in Hb.
  split_and!; [done| |done]. destruct (lFence lease), fence. simpl in *. congruence.
Qed.

Lemma expireAndCheck_ok lab fence now s s1 changed :
  expireAndCheck lab fence now s = (s1, Ok changed) ->
  s1 = expire now s /\ fenceErrorLocked lab fence now s1 = Ok tt /\
  exists lease, mutations s1 !! lab = Some lease.
Proof.
  unfold expireAndCheck, checkFence, try_catch, inspect, mbind, SE_bind.
  unfold expireCoordinationLocked at 1. cbn -[expire].
  destruct (fenceErrorLocked _ _ _ (expire now s)) as [[]|e] eqn:F.
  - intros [= <- _]. split_and!; [done|done|]. apply fence_ok_lease in F as (l & ? & _). eauto.
  - destruct (_ || _); simpl; by intros ?.
Qed.

(** What a reservation does, as its guards and its tail. *)
Lemma reserveOverlays_cases k req now s :
  (exists e, reserveOverlays k req now s = (s, Err e)) \/
  (exists e, value (expireAndCheck (rqLab req) (rqFence req) now) s = Err e /\
     reserveOverlays k req now s =
       (final (expireAndCheck (rqLab req) (rqFence req) now) s, Err e)) \/
  (exists vnis owners changed, let s1 := expire now s in
     sortedVNIs (rqVNIs req) = Ok vnis /\ kOwners k = Ok owners /\
     expireAndCheck (rqLab req) (rqFence req) now s = (s1, Ok changed) /\
     fenceErrorLocked (rqLab req) (rqFence req) now s1 = Ok tt /\
     ((exists e, examineVNIs req owners s1 vnis = Err e /\
         reserveOverlays k req now s = (s1, Err e)) \/
      (exists lease legacy, mutations s1 !! rqLab req = Some lease /\
         examineVNIs req owners s1 vnis = Ok legacy /\
         reserveOverlays k req now s =
           reserveTail k req lease changed legacy vnis (overlayClaims s1) s1))).
Proof.
  unfold reserveOverlays.
  destruct (sortedVNIs (rqVNIs req)) as [vnis|e] eqn:Hv;
    [erewrite bind_ok by apply lift_run|left; eexists; by erewrite bind_err by apply lift_run].
  destruct (bool_decide (rqLab req = ""));
    [left; eexists; by erewrite bind_err by reflexivity
    |erewrite bind_ok by reflexivity].
  destruct (kOwners k) as [owners|e] eqn:Ho;
    [erewrite bind_ok by apply lift_run|left; eexists; by erewrite bind_err by apply lift_run].
  right. unfold value, final.
  destruct (expireAndCheck (rqLab req) (rqFence req) now s) as [s1 [changed|e]] eqn:Hx;
    [right|left; exists e; by erewrite bind_err by exact Hx].
  apply expireAndCheck_ok in Hx as H. destruct H as (-> & Hf & lease & Hm).
  exists vnis, owners, changed. cbv zeta. do 4 (split; [done|]).
  erewrite bind_ok by exact Hx. erewrite bind_ok by reflexivity. rewrite Hm.
  destruct (examineVNIs req owners (expire now s) vnis) as [legacy|e] eqn:He;
    [right|left; exists e; by erewrite bind_err by apply lift_run].
  exists lease, legacy. by erewrite bind_ok by apply lift_run.
Qed.

Lemma labRel_reserve k req now : mrel (labRel (rqLab req)) (reserveOverlays k req now).
Proof.
  intros s. pose proof (labRel_expireAndCheck (rqLab req) (rqLab req) (rqFence req) now s) as H1.
  unfold final in *.
  destruct (reserveOverlays_cases k req now s)
    as [(e & ->)|[(e & _ & ->)|(vnis & owners & changed & _ & _ & Hx & _ & H)]];
    [reflexivity|done|].
  rewrite Hx in H1. simpl in H1.
  destruct H as [(e & _ & ->)|(lease & legacy & _ & He & ->)]; [done|].
  apply examineVNIs_ok in He as (Hl & Hm & Hg). etransitivity; [exact H1|].
  eapply within_safe; [exact Hm|exact Hg|]. by apply within_reserveTail.
Qed.

(** *** What a granted reservation holds *)

(** The claim [requireOverlayReservations] asks for, good until [until]. *)
Definition reservedAt (lab : string) (gen : Z) (until : Time) (m : gmap Z overlayClaim)
    (vni : Z) : Prop :=
  exists c, m !! vni = Some c /\ cLab c = lab /\ cGeneration c = gen /\
            (cLive c = true \/ cUntil c = until).

Lemma reservedAt_claimOne lab fence until vni m :
  mine lab [vni] m ->
  reservedAt lab (fGeneration fence) until (claimOne lab fence until vni m) vni.
Proof.
  intros Hm. unfold reservedAt, claimOne.
  destruct (m !! vni) as [c|] eqn:E; [destruct (cLive c)|];
    rewrite lookup_insert_eq; eexists; (split; [done|]); simpl; auto.
  split_and!; auto. eapply (Hm vni); [left|done].
Qed.

Lemma claimOne_ne lab fence until vni v m :
  v <> vni -> claimOne lab fence until vni m !! v = m !! v.
Proof.
  intros. unfold claimOne. destruct (m !! vni) as [c|]; [destruct (cLive c)|];
    by rewrite lookup_insert_ne.
Qed.

Lemma mine_claimOne lab K fence until vni m :
  mine lab (vni :: K) m -> mine lab (vni :: K) (claimOne lab fence until vni m).
Proof.
  apply (localTo_claimAll lab (vni :: K) fence until [vni]). set_solver.
Qed.

Lemma reservedAt_claimAll lab fence until vnis m :
  mine lab vnis m -> Forall (reservedAt lab (fGeneration fence) until
                               (claimAll lab fence until vnis m)) vnis.
Proof.
  intros Hm. apply Forall_forall.
  assert (forall m l v, mine lab l m -> reservedAt lab (fGeneration fence) until m v ->
            reservedAt lab (fGeneration fence) until (claimAll lab fence until l m) v) as Hkeep.
  { intros m0 l. revert m0. induction l as [|x l IH]; intros m0 v Hm0 Hr; [done|].
    change (claimAll lab fence until (x :: l) m0)
      with (claimAll lab fence until l (claimOne lab fence until x m0)).
    apply IH.
    - intros y c Hy. apply (mine_claimOne lab l); [done|]. by right.
    - destruct (decide (v = x)) as [->|Hne].
      + apply reservedAt_claimOne. intros y c Hy%list_elem_of_singleton. apply Hm0. subst. left.
      + unfold reservedAt. by rewrite claimOne_ne. }
  intros v. revert m Hm. induction vnis as [|x l IH]; intros m Hm Hv.
  - by apply not_elem_of_nil in Hv.
  - change (claimAll lab fence until (x :: l) m)
      with (claimAll lab fence until l (claimOne lab fence until x m)).
    assert (mine lab l (claimOne lab fence until x m)) as Hm'.
    { intros y c Hy. apply (mine_claimOne lab l); [done|]. by right. }
    apply elem_of_cons in Hv as [->|Hv].
    + apply Hkeep; [done|]. apply reservedAt_claimOne.
      intros y c Hy%list_elem_of_singleton. apply Hm. subst. left.
    + by apply IH.
Qed.

Lemma save_keeps_coord s : coord (final saveCoordinationLocked s) = coord s.
Proof.
  change (unchanged coord s (final saveCoordinationLocked s)).
  by apply (mrel_save (unchanged coord)).
Qed.

Lemma save_run_coord s s' r : saveCoordinationLocked s = (s', r) -> coord s' = coord s.
Proof. intros H. rewrite <- (save_keeps_coord s). unfold final. by rewrite H. Qed.

Lemma adoptAll_ok k lab fence before legacy adopted s s' :
  adoptAll k lab fence before legacy adopted s = (s', Ok tt) ->
  forall v, (v ∈ legacy /\ overlayClaims s' !! v = Some (liveClaim lab (fGeneration fence))) \/
            overlayClaims s' !! v = overlayClaims s !! v.
Proof.
  revert adopted s. induction legacy as [|x l IH]; intros adopted s H v; simpl in H.
  { injection H as <-. by right. }
  destruct (kAdopt k x).
  - destruct (IH _ _ H v) as [[Hv Hl]|Hv].
    + left. split; [by right|done].
    + destruct (decide (v = x)) as [->|Hne].
      * left. split; [left|]. rewrite Hv. unfold overlayClaims. simpl. by rewrite lookup_insert_eq.
      * right. rewrite Hv. unfold overlayClaims. simpl. by rewrite lookup_insert_ne.
  - unfold mbind, SE_bind in H.
    by destruct (rollbackLegacyAdoptionsLocked k lab adopted before s) as [s1 [n|e]].
Qed.

Lemma reserveTail_ok k req lease changed legacy vnis claims s s' resp :
  mine (rqLab req) vnis (overlayClaims s) ->
  reserveTail k req lease changed legacy vnis claims s = (s', Ok resp) ->
  resp = mkReserved (rqLab req) vnis (lUntil lease) /\
  Forall (reservedAt (rqLab req) (fGeneration (rqFence req)) (lUntil lease)
            (overlayClaims s')) vnis.
Proof.
  intros Hm H. unfold reserveTail in H. erewrite bind_ok in H by reflexivity.
  set (s1 := set_coord _ s) in H.
  apply bind_ok_inv in H as (s2 & [] & H2 & H).
  assert (coord s2 = coord s1) as Hc2.
  { unfold when in H2. case_match; [|by injection H2 as <-].
    unfold try_catch in H2. destruct (saveCoordinationLocked s1) as [s3 [[]|e]] eqn:Hs.
    - injection H2 as <-. by eapply save_run_coord.
    - by unfold mbind, SE_bind, modify, fail in H2. }
  apply bind_ok_inv in H as (s3 & [] & H3 & H).
  apply bind_ok_inv in H as (s4 & [] & H4 & H).
  injection H as <- <-. split; [done|].
  assert (coord s4 = coord s3) as Hc4.
  { unfold when in H4. case_match; [by eapply save_run_coord|by injection H4 as <-]. }
  pose proof (reservedAt_claimAll (rqLab req) (rqFence req) (lUntil lease) _ _ Hm) as Hall.
  eapply Forall_impl; [exact Hall|]. intros v (c & Hc & HP).
  destruct (adoptAll_ok _ _ _ _ _ _ _ _ H3 v) as [[_ Hl]|Hl]; unfold reservedAt;
    unfold overlayClaims in *; rewrite Hc4, Hl.
  - eexists. split; [done|]. simpl. auto.
  - rewrite Hc2. exists c. done.
Qed.

Lemma reservedAt_checks lab fence until now s vnis :
  now < until -> Forall (reservedAt lab (fGeneration fence) until (overlayClaims s)) vnis ->
  checkAllReserved lab fence now vnis s = Ok tt.
Proof.
  intros Hu. induction 1 as [|v vnis (c & Hc & <- & Hg & Hl) _ IH]; simpl; [done|].
  unfold checkReserved. rewrite Hc, Hg, bool_decide_eq_true_2, Z.eqb_refl by done. simpl.
  destruct (claimExpired now c) eqn:E; [|done].
  unfold claimExpired in E. rewrite !andb_true_iff, !negb_true_iff in E.
  destruct E as [[E1 E2] E3]. destruct Hl as [Hl|Hl]; [congruence|].
  rewrite Hl in E3. apply Z.ltb_ge in E3. lia.
Qed.

(** *** A refused reservation takes nothing *)

Lemma restoreClaims_recordBefore vnis m m' :
  (forall v, v ∉ vnis -> m' !! v = m !! v) ->
  restoreClaims (recordBefore vnis m) m' = m.
Proof.
  revert m'. induction vnis as [|x l IH]; intros m' H; simpl.
  - apply map_eq. intros v. apply H, not_elem_of_nil.
  - apply IH. intros v Hv. destruct (decide (v = x)) as [->|Hne].
    + by rewrite lookup_partial_alter_eq.
    + rewrite lookup_partial_alter_ne by done. apply H. set_solver.
Qed.

Lemma claimAll_out lab fence until vnis m v :
  v ∉ vnis -> claimAll lab fence until vnis m !! v = m !! v.
Proof. intros. by apply (localTo_claimAll lab vnis fence until vnis). Qed.

Lemma examineVNIs_no_legacy req owners s vnis legacy :
  (forall vni, owners !! vni <> Some "") ->
  examineVNIs req owners s vnis = Ok legacy -> legacy = [].
Proof.
  intros Ho. revert legacy. induction vnis as [|v vnis IH]; intros legacy; simpl; [by intros [= <-]|].
  destruct (examineVNI req owners s v) as [l|] eqn:E; [|done].
  destruct (examineVNIs req owners s vnis) as [l'|]; [|done]. intros [= <-].
  rewrite (IH l' eq_refl), app_nil_r. unfold examineVNI in E. specialize (Ho v).
  repeat (case_decide || case_match); simplify_eq; done.
Qed.

Lemma reserveTail_err k req lease changed vnis s s' e :
  reserveTail k req lease changed [] vnis (overlayClaims s) s = (s', Err e) ->
  overlayClaims s' = overlayClaims s.
Proof.
  unfold reserveTail, mbind, SE_bind, modify, when. simpl.
  set (s1 := set_coord _ s).
  destruct (changed || _); [|intros; by simplify_eq]. unfold try_catch.
  destruct (saveCoordinationLocked s1) as [s2 [[]|e']] eqn:Hs; [intros; by simplify_eq|].
  intros [= <- _]. apply save_run_coord in Hs. unfold overlayClaims. simpl. rewrite Hs. simpl.
  apply restoreClaims_recordBefore. intros v Hv. by apply claimAll_out.
Qed.

(** ** The other operations of a lab *)

#[export] Hint Resolve labRel_requireMutationFence labRel_acquireRecovery labRel_release : labrel.

Lemma labRel_promote lab fence vnis now :
  mrel (labRel lab) (promoteOverlayReservations lab fence vnis now).
Proof.
  unfold promoteOverlayReservations. lab_solve. generalize false.
  induction vnis as [|v vnis IH]; intros b; simpl; [lab_solve|].
  apply mrel_get_bind. intros s. destruct (overlayClaims s !! v) as [c|] eqn:Hc; [|reflexivity].
  destruct (bool_decide (cLab c = lab)) eqn:B; simpl; [|reflexivity].
  destruct (negb _); [reflexivity|]. destruct (cLive c); [apply IH|].
  apply (mrel_modify_then (labRel lab)); [|intros; apply IH].
  apply bool_decide_eq_true in B. unfold overlayClaims in Hc.
  split; unfold overlayClaims; simpl; [done| | |].
  - intros vni _ Hn. rewrite lookup_insert_ne; [done|]. intros <-. congruence.
  - intros vni c' Hc' Hl _. rewrite lookup_insert_ne; [done|]. intros <-. congruence.
  - intros vni c' Hc' Hl. rewrite lookup_insert_ne in Hc'; [done|]. intros <-.
    rewrite lookup_insert_eq in Hc'. injection Hc' as <-. by simpl in Hl.
Qed.

Lemma labRel_releaseClaims lab vnis : mrel (labRel lab) (releaseOverlayClaims lab vnis).
Proof.
  unfold releaseOverlayClaims. lab_solve. apply labRel_drop.
  intros vni c [?%bool_decide_eq_true _]%andb_true_iff. by left.
Qed.

(** A claim table that is put back after a failed write is the old one. *)
Lemma restoreLab_overlays lab c :
  Overlays (restoreLab lab c (forgetLab lab c)) = Overlays c.
Proof.
  simpl. apply map_eq. intros vni. apply option_eq. intros claim.
  rewrite lookup_union_Some_raw, map_lookup_filter_Some, map_lookup_filter_None,
    lookup_map_drop_Some. simpl. split; [naive_solver|].
  intros Hc. destruct (decide (cLab claim = lab)) as [Hl|Hl]; [by left|]. right.
  split; [right; naive_solver|]. split; [done|]. by apply bool_decide_eq_false.
Qed.

Lemma labRel_destroyed lab fence now : mrel (labRel lab) (finishDestroyedLab lab fence now).
Proof.
  unfold finishDestroyedLab. apply mrel_bind; [apply _|auto with labrel|intros _].
  apply mrel_get_bind. intros s.
  rewrite final_modify_bind. set (s1 := set_coord (forgetLab lab) s).
  assert (labRel lab s s1) as H1.
  { etransitivity; [apply (labRel_drop lab s (fun _ claim => bool_decide (cLab claim = lab)))
                   |by apply labRel_frame].
    intros vni c ?%bool_decide_eq_true. by left. }
  destruct (saveCoordinationLocked s1) as [s2 r] eqn:Hs.
  pose proof (labRel_save lab s1) as H2. unfold final in H2. rewrite Hs in H2. simpl in H2.
  apply save_run_coord in Hs as Hc.
  unfold try_catch, final, mbind, SE_bind. rewrite Hs. destruct r as [[]|e]; simpl.
  - etransitivity; [exact H1|]. etransitivity; [exact H2|]. by apply labRel_frame.
  - apply labRel_frame; [|exact (lr_marks _ _ _ H2)].
    unfold overlayClaims. simpl. rewrite Hc. apply restoreLab_overlays.
Qed.
#[export] Hint Resolve labRel_destroyed : labrel.

(** *** Operations that do not touch the claim table *)

Lemma labRel_ownTransaction lab l f g e : mrel (labRel lab) (ownTransaction l f g e).
Proof. unfold ownTransaction. lab_solve. Qed.
Lemma labRel_generationTransaction lab l g e :
  mrel (labRel lab) (generationTransaction l g e).
Proof. unfold generationTransaction. lab_solve. Qed.
Lemma labRel_putTx lab l tx : mrel (labRel lab) (putTx l tx).
Proof. unfold putTx. lab_solve. Qed.
Lemma labRel_requireModes lab tx : mrel (labRel lab) (requireModes tx).
Proof. unfold requireModes. lab_solve. Qed.
Lemma labRel_putEphemeral lab l e : mrel (labRel lab) (putEphemeral l e).
Proof. unfold putEphemeral. lab_solve. Qed.
#[export] Hint Resolve labRel_ownTransaction labRel_generationTransaction labRel_putTx
  labRel_requireModes labRel_putEphemeral : labrel.
Lemma labRel_ownApplied lab l f g e : mrel (labRel lab) (ownApplied l f g e).
Proof. unfold ownApplied. lab_solve. Qed.
#[export] Hint Resolve labRel_ownApplied : labrel.

Lemma labRel_writes lab (m : M unit) :
  mrel (unchanged (fun s => (overlayClaims s, gcCollecting s))) m -> mrel (labRel lab) m.
Proof. intros H s. specialize (H s). injection H as Ho Hg. by apply labRel_frame. Qed.

Lemma labRel_saveHoldsLocked lab l now : mrel (labRel lab) (saveHoldsLocked l now).
Proof.
  apply labRel_writes. intros s. unfold final, saveHoldsLocked. by repeat case_match.
Qed.
Lemma labRel_storeForget lab l : mrel (labRel lab) (storeForget l).
Proof. apply labRel_writes. intros s. unfold final, storeForget. by repeat case_match. Qed.
Lemma labRel_dropLapsedHold lab l now s : labRel lab s (dropLapsedHold l now s).
Proof. unfold dropLapsedHold. repeat case_match; by apply labRel_frame. Qed.
#[export] Hint Resolve labRel_saveHoldsLocked labRel_storeForget labRel_dropLapsedHold : labrel.

Lemma labRel_acquireOperation lab l kind b : mrel (labRel lab) (acquireOperation l kind b).
Proof. unfold acquireOperation. lab_solve. Qed.
Lemma labRel_releaseOperation lab l id : mrel (labRel lab) (releaseOperation l id).
Proof. unfold releaseOperation. lab_solve. Qed.
#[export] Hint Resolve labRel_acquireOperation labRel_releaseOperation : labrel.
Lemma labRel_acquireForcedOperation lab l kind a b now :
  mrel (labRel lab) (acquireForcedOperation l kind a b now).
Proof. unfold acquireForcedOperation. lab_solve. Qed.
Lemma labRel_holder lab l now : mrel (labRel lab) (mutationLeaseHolder l now).
Proof. unfold mutationLeaseHolder. lab_solve. Qed.
Lemma labRel_heldBy lab l now : mrel (labRel lab) (heldBy l now).
Proof. unfold heldBy. lab_solve. Qed.
Lemma labRel_dropEphemeralLease lab l : mrel (labRel lab) (dropEphemeralLease l).
Proof. unfold dropEphemeralLease. lab_solve. Qed.
#[export] Hint Resolve labRel_acquireForcedOperation labRel_holder labRel_heldBy
  labRel_dropEphemeralLease : labrel.

Lemma labRel_reclaim env lab now : mrel (labRel lab) (reclaimEphemeralLab env lab now).
Proof.
  unfold reclaimEphemeralLab, reclaimObjects. lab_solve;
    apply (labRel_release (mkRelease lab _)).
Qed.

(** ** The steps and the isolation theorems *)

(** The operations that act on behalf of one lab. The rollback's
    [restoreOverlayClaims] is not among them: it is a step of its own below. *)
Inductive labOp (lab : string) : (Server -> Server) -> Prop :=
| l_acquire tok h ttl now : labOp lab (final (acquireMutationLease tok (mkAcquire lab h ttl) now))
| l_recovery tok ttl now : labOp lab (final (acquireRecoveryFence tok lab ttl now))
| l_requireFence f n n' : labOp lab (final (requireMutationFence lab f n n'))
| l_renew f ttl now : labOp lab (final (renewMutationLease (mkRenew lab f ttl) now))
| l_release f now : labOp lab (final (releaseMutationLease (mkRelease lab f) now))
| l_holder now : labOp lab (final (mutationLeaseHolder lab now))
| l_requireOverlays top f now : labOp lab (final (requireOverlayReservations top f now))
| l_reserve k h f vnis now :
    labOp lab (final (reserveOverlays k (mkReserve lab h f vnis) now))
| l_promote f vnis now : labOp lab (final (promoteOverlayReservations lab f vnis now))
| l_releaseClaims vnis : labOp lab (final (releaseOverlayClaims lab vnis))
| l_prepare f ex g rq m u pu pr on ps pre now :
    labOp lab (final (prepareGeneration lab f ex g rq m u pu pr on ps pre now))
| l_forApply f g now : labOp lab (final (transactionForApply lab f g now))
| l_applying f g now : labOp lab (final (markGenerationApplying lab f g now))
| l_applied f g now : labOp lab (final (markGenerationApplied lab f g now))
| l_evidence f g now h : labOp lab (final (recordEvidence lab f g now h))
| l_verified f g now : labOp lab (final (markStateVerified lab f g now))
| l_forCommit f g now : labOp lab (final (transactionForCommit lab f g now))
| l_commit f g inv now : labOp lab (final (finishCommittedGeneration lab f g inv now))
| l_finalize f g now : labOp lab (final (finalizeCommittedGeneration lab f g now))
| l_destroyed f now : labOp lab (final (finishDestroyedLab lab f now))
| l_recovered f g now : labOp lab (final (finishRecoveredGeneration lab f g now))
| l_reopen f g now : labOp lab (final (reopenCommittedTransaction lab f g now))
| l_beginRecovery f g st tot o pl now :
    labOp lab (final (beginRecovery lab f g st tot o pl now))
| l_markPhase f g ph fl now : labOp lab (final (markTransactionPhase lab f g ph fl now))
| l_note o ttl g now : labOp lab (final (noteEphemeralLease lab o ttl g now))
| l_heartbeat o ttl rel now :
    labOp lab (final (renewEphemeralLease (mkEphemeralRequest lab o ttl rel) now))
| l_forgetEphemeral : labOp lab (final (forgetEphemeralLease lab))
| l_reclaim env now : labOp lab (final (reclaimEphemeralLab env lab now))
| l_hold h sec tok now : labOp lab (final (applyHold (mkHoldRequest lab h sec tok) now))
| l_heldBy now : labOp lab (final (heldBy lab now))
| l_refuseHeld tok now : labOp lab (final (refuseMutationIfHeld lab tok now))
| l_op kind b : labOp lab (final (acquireOperation lab kind b))
| l_opForced kind a b now : labOp lab (final (acquireForcedOperation lab kind a b now))
| l_opRelease id : labOp lab (final (releaseOperation lab id))
| l_forget : labOp lab (final (storeForget lab)).

Lemma labOp_labRel lab g s : labOp lab g -> labRel lab s (g s).
Proof.
  destruct 1;
  match goal with |- labRel ?lab ?s (final ?m ?s) =>
    let H := fresh in assert (mrel (labRel lab) m) as H; [|exact (H s)] end;
  first
  [ apply labRel_acquire | apply labRel_acquireRecovery | apply labRel_requireMutationFence
  | apply (labRel_renew (mkRenew lab _ _)) | apply (labRel_release (mkRelease lab _))
  | apply labRel_holder | apply labRel_requireOverlays
  | apply (labRel_reserve _ (mkReserve lab _ _ _)) | apply labRel_promote
  | apply labRel_releaseClaims | apply labRel_destroyed | apply labRel_reclaim
  | unfold prepareGeneration; solve [lab_solve]
  | unfold transactionForApply; solve [lab_solve]
  | unfold markGenerationApplying; solve [lab_solve]
  | unfold markGenerationApplied; solve [lab_solve]
  | unfold recordEvidence; solve [lab_solve]
  | unfold markStateVerified; solve [lab_solve]
  | unfold transactionForCommit; solve [lab_solve]
  | unfold finishCommittedGeneration; case_match; solve [lab_solve]
  | unfold finishCommittedGeneration; solve [lab_solve]
  | unfold finalizeCommittedGeneration; solve [lab_solve]
  | unfold finishRecoveredGeneration; solve [lab_solve]
  | unfold reopenCommittedTransaction; solve [lab_solve]
  | unfold beginRecovery; solve [lab_solve]
  | unfold markTransactionPhase; solve [lab_solve]
  | unfold noteEphemeralLease; solve [lab_solve]
  | unfold renewEphemeralLease; solve [lab_solve]
  | unfold forgetEphemeralLease; solve [lab_solve]
  | unfold applyHold; solve [lab_solve]
  | unfold refuseMutationIfHeld; solve [lab_solve]
  | solve [auto with labrel] ].
Qed.

(** One step of the agent as far as the claims are concerned, with the
    identifiers under collection that a rollback claimed back in it:
    [restoreOverlayClaims] does not look at what is being collected. *)
Inductive cstep : Server -> gset Z -> Server -> Prop :=
| c_lab lab g s : labOp lab g -> cstep s ∅ (g s)
| c_gcBegin vni o now s : cstep s ∅ (final (beginOverlayCollection vni o now) s)
| c_gcEnd vni o s : cstep s ∅ (final (endOverlayCollection vni o) s)
| c_gcRecords lab now s : cstep s ∅ (final (beginLabRecordCollection lab now) s)
| c_gcClaims pl el s : cstep s ∅ (final (gcReleaseStaleLiveClaims pl el) s)
| c_rollback lab f vnis s :
    cstep s (list_to_set vnis ∩ gcCollecting s) (final (restoreOverlayClaims lab f vnis) s)
| c_restart rd now faults s : cstep s ∅ (restart rd now faults s).

(** An execution, with all identifiers rollbacks claimed back under
    collection. *)
Inductive cexec (s0 : Server) : gset Z -> Server -> Prop :=
| cexec_start : cexec s0 ∅ s0
| cexec_step R R' s s' : cexec s0 R s -> cstep s R' s' -> cexec s0 (R ∪ R') s'.

(** Nothing under collection is claimed, the identifiers of [R] apart. *)
Definition unclaimedBut (R : gset Z) (s : Server) : Prop :=
  forall vni, vni ∈ gcCollecting s -> vni ∉ R -> overlayClaims s !! vni = None.

Section Unclaimed.
Variable R : gset Z.
Abbreviation unclaimed := (unclaimedBut R) (only parsing).

Lemma unclaimed_frame s s' :
  overlayClaims s' = overlayClaims s -> gcCollecting s' = gcCollecting s ->
  kept unclaimed s s'.
Proof. intros Hc Hg Hu vni. rewrite Hc, Hg. apply Hu. Qed.

Lemma unclaimed_save : mrel (kept unclaimed) saveCoordinationLocked.
Proof. apply mrel_save; intros; by apply unclaimed_frame. Qed.

Lemma unclaimed_drop s (f : gmap Z overlayClaim -> gmap Z overlayClaim) :
  f (overlayClaims s) ⊆ overlayClaims s -> kept unclaimed s (set_coord (set_Overlays f) s).
Proof.
  intros Hf Hu vni Hv Hn. eapply lookup_weaken_None; [|exact Hf]. by apply Hu.
Qed.

Lemma unclaimed_gcBegin vni o now : mrel (kept unclaimed) (beginOverlayCollection vni o now).
Proof.
  unfold beginOverlayCollection. apply mrel_get_bind. intros s.
  case_decide; [done|]. case_match; [done|].
  destruct (overlayClaims s !! vni) eqn:Hv; [done|].
  intros Hu v. unfold final, mbind, SE_bind, modify. simpl.
  intros [->%elem_of_singleton|?]%elem_of_union; [done|by apply Hu].
Qed.

Lemma unclaimed_gcEnd vni o : mrel (kept unclaimed) (endOverlayCollection vni o).
Proof.
  unfold endOverlayCollection. mrel_steps; try by apply unclaimed_save.
  - intros Hu v. simpl. intros [? _]%elem_of_difference. by apply Hu.
  - apply unclaimed_drop, delete_subseteq.
Qed.
End Unclaimed.

Lemma unclaimed_rollback R lab f vnis s :
  unclaimedBut R s ->
  unclaimedBut (R ∪ (list_to_set vnis ∩ gcCollecting s)) (final (restoreOverlayClaims lab f vnis) s).
Proof.
  intros Hu. unfold restoreOverlayClaims. rewrite final_modify_bind. apply unclaimed_save.
  intros v Hg Hv. simpl in Hg. unfold overlayClaims. simpl.
  assert (v ∉ vnis /\ v ∉ R) as [Hn HR] by set_solver. clear Hv.
  set (m := map_drop _ _). assert (m !! v = None) as Hm.
  { apply lookup_map_drop_None. left. by apply Hu. }
  clearbody m. revert m Hm. induction vnis as [|x l IH]; intros m Hm; simpl; [done|].
  apply IH; [set_solver|]. rewrite lookup_insert_ne; [done|set_solver].
Qed.

Lemma restart_collects_nothing rd now faults s : gcCollecting (restart rd now faults s) = ∅.
Proof.
  assert (mrel (unchanged gcCollecting) (loadCoordination rd now;; rehydrate rd now)) as H.
  { assert (mrel (unchanged gcCollecting) saveCoordinationLocked) as Hs by (by apply mrel_save).
    assert (forall labs b, mrel (unchanged gcCollecting) (rehydrateAll rd labs b now)) as Hr.
    { induction labs as [|l labs IH]; intros b; simpl; mrel_steps; try done.
      unfold rehydrateLab, rehydrateTop, restoreEphemeralLeaseLocked, putEphemeral.
      mrel_steps; try done; intros s0; unfold final, putTopology, loadHolds, unchanged;
        by repeat case_match. }
    unfold loadCoordination, rehydrate. mrel_steps; done. }
  apply H.
Qed.

Lemma unclaimed_cstep R R' s s' : cstep s R' s' -> unclaimedBut R s -> unclaimedBut (R ∪ R') s'.
Proof.
  destruct 1 as [lab g s Hl|vni o now s|vni o s|lab now s|pl el s|lab f vnis s|rd now faults s];
    rewrite ?union_empty_r_L.
  - destruct (labOp_labRel lab g s Hl) as [A B _ _]. intros Hu vni Hv HR.
    apply B; [|apply Hu]; by rewrite <- ?A.
  - apply unclaimed_gcBegin.
  - apply unclaimed_gcEnd.
  - assert (mrel (labRel lab) (beginLabRecordCollection lab now)) as H.
    { unfold beginLabRecordCollection. lab_solve. }
    destruct (H s) as [A B _ _]. intros Hu vni Hv HR. apply B; [|apply Hu]; by rewrite <- ?A.
  - assert (mrel (kept (unclaimedBut R)) (gcReleaseStaleLiveClaims pl el)) as H; [|apply H].
    unfold gcReleaseStaleLiveClaims. mrel_steps; [|by apply unclaimed_save].
    apply unclaimed_drop, map_drop_subseteq.
  - apply unclaimed_rollback.
  - intros _ vni. rewrite restart_collects_nothing. set_solver.
Qed.

(** C3. Mutual exclusion of claims and garbage collection: in every execution
    that starts with no collection under way, an overlay identifier that the
    collector is removing has no claim, neither a reservation nor a live one,
    whatever labs reserve, promote, commit, destroy or expire meanwhile, with
    one exception: an identifier that the rollback of a transaction claimed
    back while it was being collected. The rollback restores the claims of the
    previous topology without looking at what is being collected, which
    [rollback_claims_collecting] shows to happen. *)
Theorem collected_vni_is_unclaimed s0 R s vni :
  gcCollecting s0 = ∅ -> cexec s0 R s -> vni ∈ gcCollecting s -> vni ∉ R ->
  overlayClaims s !! vni = None.
Proof.
  intros H0 Hr. revert vni. change (unclaimedBut R s).
  induction Hr as [|R R' s s' _ IH Hs]; [intros vni; rewrite H0; set_solver|].
  by apply (unclaimed_cstep R R' s).
Qed.

(** Isolation between labs: an operation of one lab leaves every live
    overlay claim of another lab exactly as it was, and every claim of
    another lab that stands afterwards was there before. *)
Theorem lab_operation_isolated lab g s vni c :
  labOp lab g -> cLab c <> lab ->
  (overlayClaims s !! vni = Some c -> cLive c = true -> overlayClaims (g s) !! vni = Some c) /\
  (overlayClaims (g s) !! vni = Some c -> overlayClaims s !! vni = Some c).
Proof.
  intros Hop Hlab. destruct (labOp_labRel lab g s Hop) as [_ _ L F]. eauto.
Qed.

(** What a granted reservation gives: the identifiers of the answer are
    the requested ones, every one of them is claimed by this lab under this
    very fence, none is being collected, and [requireOverlayReservations]'s
    check passes at that instant. *)
Theorem granted_reservation_holds k req now s s' resp :
  reserveOverlays k req now s = (s', Ok resp) ->
  (forall vni, vni ∈ rsVNIs resp <-> vni ∈ rqVNIs req) /\
  (forall vni, vni ∈ rqVNIs req -> vni ∉ gcCollecting s' /\
     exists c, overlayClaims s' !! vni = Some c /\ cLab c = rqLab req /\
       cGeneration c = fGeneration (rqFence req)) /\
  checkAllReserved (rqLab req) (rqFence req) now (rsVNIs resp) s' = Ok tt.
Proof.
  intros H. pose proof (labRel_reserve k req now s) as HR. unfold final in HR.
  rewrite H in HR. simpl in HR.
  destruct (reserveOverlays_cases k req now s)
    as [(e & Hr)|[(e & _ & Hr)|(vnis & owners & changed & Hv & _ & Hx & Hf & Hc)]];
    [congruence|congruence|].
  destruct Hc as [(e & _ & Hr)|(lease & legacy & Hm & He & Hr)]; [congruence|].
  rewrite Hr in H. apply examineVNIs_ok in He as (_ & Hmine & Hgc).
  apply reserveTail_ok in H as [-> Hall]; [|done].
  assert (forall vni, vni ∈ vnis <-> vni ∈ rqVNIs req) as Hvs.
  { unfold sortedVNIs in Hv. case_decide; [done|]. injection Hv as <-. intros vni.
    by rewrite elem_of_sortInts, elem_of_dedup. }
  simpl. split; [exact Hvs|]. split.
  - intros vni Hin%Hvs. split.
    + rewrite (lr_marks _ _ _ HR). by apply Hgc.
    + rewrite Forall_forall in Hall. destruct (Hall vni Hin) as (c & ? & ? & ? & _). eauto.
  - apply (reservedAt_checks _ _ (lUntil lease)); [|done].
    apply fence_ok_lease in Hf as (l & Hl & _ & Hlt). congruence.
Qed.

(** A refused reservation takes nothing: when the kernel lists no
    ownerless legacy overlay, a reservation that fails for any reason (a
    stale fence, a foreign claim, a collection under way, a lost write)
    leaves the claim table exactly as it was, up to the reservations whose
    deadline had passed. *)
Theorem refused_reservation_takes_nothing k req now s s' e :
  (forall owners vni, kOwners k = Ok owners -> owners !! vni <> Some "") ->
  reserveOverlays k req now s = (s', Err e) ->
  overlayClaims s' = overlayClaims s \/
  overlayClaims s' = map_drop (fun _ c => claimExpired now c) (overlayClaims s).
Proof.
  intros Hk H. destruct (reserveOverlays_cases k req now s)
    as [(e' & Hr)|[(e' & _ & Hr)|(vnis & owners & changed & Hv & Ho & Hx & Hf & Hc)]].
  - rewrite Hr in H. injection H as <- _. by left.
  - right. rewrite Hr in H. injection H as <- _.
    unfold final, expireAndCheck, checkFence, try_catch, inspect, mbind, SE_bind.
    unfold expireCoordinationLocked at 1. cbn -[expire].
    destruct (fenceErrorLocked _ _ _ _); [done|].
    destruct (_ || _); [|done]. exact (f_equal Overlays (save_keeps_coord (expire now s))).
  - destruct Hc as [(e' & _ & Hr)|(lease & legacy & Hm & He & Hr)]; rewrite Hr in H.
    + injection H as <- _. by right.
    + right. apply examineVNIs_no_legacy in He as ->; [|by intros vni; apply Hk].
      by apply reserveTail_err in H as ->.
Qed.

(** ** Witnesses, and the rollback's missing check *)

(** A node where lab [a] holds a lease and lab [b] has a live overlay 7. *)
Definition claimsFence : Fence := mkFence "token-a" 3.
Definition claimsServer (g : gset Z) : Server :=
  set_gcCollecting (fun _ => g)
    (set_mutations (fun _ => {["a" := mkLease "deploy" claimsFence 1000]})
       (set_coord (set_Overlays (fun _ => {[7 := liveClaim "b" 1]}))
          (freshServer "node1" (Some (mkStore None ∅ ∅)) []))).
Definition claimsKernel : Kernel := mkKernel (Ok ∅) (fun _ => true) (fun _ => true).
Definition claimsRequest : OverlayReservationRequest :=
  mkReserve "a" "" claimsFence [12; 9; 12].

(** A collection of overlay 9 begins, then lab [a] asks for it in vain. *)
Definition claimsCollecting : Server :=
  final (beginOverlayCollection 9 "old" 10) (claimsServer ∅).
Definition claimsRefused : Server :=
  final (reserveOverlays claimsKernel claimsRequest 10) claimsCollecting.

Lemma collected_vni_is_unclaimed_witness :
  gcCollecting claimsRefused = {[9]} /\
  value (reserveOverlays claimsKernel claimsRequest 10) claimsCollecting = Err (ECollecting 9) /\
  overlayClaims claimsRefused !! 9 = None.
Proof.
  split; [vm_compute; reflexivity|]. split; [vm_compute; reflexivity|].
  apply (collected_vni_is_unclaimed (claimsServer ∅) (∅ ∪ ∅ ∪ ∅) claimsRefused 9).
  - reflexivity.
  - apply (cexec_step _ (∅ ∪ ∅) ∅ claimsCollecting).
    + apply (cexec_step _ ∅ ∅ (claimsServer ∅)); [apply cexec_start|apply (c_gcBegin 9 "old" 10)].
    + apply (c_lab "a"). apply (l_reserve "a" claimsKernel "" claimsFence [12; 9; 12] 10).
  - vm_compute. reflexivity.
  - vm_compute. intros H. discriminate H.
Defined.

Lemma lab_operation_isolated_witness :
  overlayClaims (final (reserveOverlays claimsKernel claimsRequest 10) (claimsServer ∅)) !! 7
    = Some (liveClaim "b" 1).
Proof.
  refine (proj1 (lab_operation_isolated "a"
           (final (reserveOverlays claimsKernel claimsRequest 10)) (claimsServer ∅) 7
           (liveClaim "b" 1) _ _) _ _); [|discriminate|reflexivity|reflexivity].
  apply (l_reserve "a" claimsKernel "" claimsFence [12; 9; 12] 10).
Defined.

Lemma granted_reservation_holds_witness :
  exists s', reserveOverlays claimsKernel claimsRequest 10 (claimsServer ∅)
               = (s', Ok (mkReserved "a" [9; 12] 1000)) /\
             checkAllReserved "a" claimsFence 10 [9; 12] s' = Ok tt.
Proof.
  exists (final (reserveOverlays claimsKernel claimsRequest 10) (claimsServer ∅)).
  assert (reserveOverlays claimsKernel claimsRequest 10 (claimsServer ∅)
          = (final (reserveOverlays claimsKernel claimsRequest 10) (claimsServer ∅),
             Ok (mkReserved "a" [9; 12] 1000))) as H
    by (apply run_eq; vm_compute; reflexivity).
  split; [exact H|].
  exact (proj2 (proj2 (granted_reservation_holds claimsKernel claimsRequest 10
                         (claimsServer ∅) _ _ H))).
Defined.

Lemma refused_reservation_takes_nothing_witness :
  exists s', reserveOverlays claimsKernel (mkReserve "a" "" claimsFence [9; 7]) 10
               (claimsServer ∅) = (s', Err (EClaimedBy 7 "b")) /\
    (overlayClaims s' = overlayClaims (claimsServer ∅) \/
     overlayClaims s' = map_drop (fun _ c => claimExpired 10 c)
                          (overlayClaims (claimsServer ∅))).
Proof.
  set (req := mkReserve "a" "" claimsFence [9; 7]).
  exists (final (reserveOverlays claimsKernel req 10) (claimsServer ∅)).
  assert (reserveOverlays claimsKernel req 10 (claimsServer ∅)
          = (final (reserveOverlays claimsKernel req 10) (claimsServer ∅),
             Err (EClaimedBy 7 "b"))) as H
    by (apply run_eq; vm_compute; reflexivity).
  split; [exact H|].
  apply (refused_reservation_takes_nothing claimsKernel req 10 (claimsServer ∅) _
           (EClaimedBy 7 "b")); [|exact H].
  intros owners vni [= <-]. rewrite lookup_empty. discriminate.
Defined.

(** The rollback's [restoreOverlayClaims] makes neither check: on a node
    where lab [b] has the live overlay 7 and the collector is removing
    overlay 9, a rollback of lab [a] whose prestate lists both takes [b]'s
    live claim over and claims the identifier under collection. *)
Theorem rollback_claims_collecting :
  let s := claimsServer {[9]} in
  let s' := final (restoreOverlayClaims "a" claimsFence [7; 9]) s in
  overlayClaims s !! 7 = Some (liveClaim "b" 1) /\ overlayClaims s !! 9 = None /\
  9 ∈ gcCollecting s' /\
  overlayClaims s' !! 7 = Some (liveClaim "a" 3) /\
  overlayClaims s' !! 9 = Some (liveClaim "a" 3).
Proof. split_and!; vm_compute; reflexivity. Qed.
