(* ===== verification/TxSafety.v ===== *)
(** * Deployment generations: the abstract transaction machine

    The detailed operations of [internal/agent/coordination.go] and
    [internal/agent/recovery.go] refine a small machine per lab, whose state
    is the lab's generation record and its unfinished transaction. The
    invariants of the machine then hold of every execution of the agent. *)

From stdpp Require Import base gmap strings list fin_maps.
From Stdlib Require Import ZArith Lia.
From S2P Require Import Prelude Model Coordination Transactions Ephemeral GcFence Restart Fencing.

Open Scope Z_scope.

(** ** The abstract machine *)

Definition cgen (c : coordinationState) (lab : string) : generationState :=
  lookup_or zeroGen (Generations c) lab.

Abbreviation txState := (generationState * option applyTransaction)%type (only parsing).

(** The kinds of moves of one lab, with the generation they are about. *)
Inductive move :=
| MPrepare (expected generation : string)
| MProgress (generation : string)
| MApply (generation : string)
| MCommit (generation : string)
| MFinalize (generation : string)
| MRecover (generation : string)
| MReopen (generation : string)
| MDestroy.

(** What a move may do to the lab's generations and its transaction; any kind of
    move may also do nothing (a refusal, a lost write that was undone). *)
Inductive txTrans : move -> txState -> txState -> Prop :=
| t_same m x : txTrans m x x
(** no transaction is open: one opens from the committed generation *)
| t_prepare g tx :
    tGeneration tx <> "" -> txCommitted tx = false -> txApplied tx = false ->
    txExpected (txReq tx) = gCommitted g -> tPreviousGen tx = gCommitted g ->
    txTrans (MPrepare (gCommitted g) (tGeneration tx)) (g, None)
      (mkGen (gCommitted g) (tGeneration tx) (gAncestors g), Some tx)
(** a preparation that could not be written *)
| t_reset g generation :
    txTrans (MPrepare (gCommitted g) generation) (g, None)
      (mkGen (gCommitted g) "" (gAncestors g), None)
(** phases, evidence and recovery bookkeeping *)
| t_progress g tx tx' :
    txReq tx' = txReq tx -> txFenceGeneration tx' = txFenceGeneration tx ->
    txCommitted tx' = txCommitted tx -> txApplied tx' = txApplied tx ->
    txTrans (MProgress (tGeneration tx)) (g, Some tx) (g, Some tx')
| t_apply g tx tx' :
    txReq tx' = txReq tx -> txFenceGeneration tx' = txFenceGeneration tx ->
    txCommitted tx' = txCommitted tx -> txApplied tx' = true ->
    txTrans (MApply (tGeneration tx)) (g, Some tx) (g, Some tx')
(** an applied transaction is committed, and its generation with it *)
| t_commit g tx tx' :
    txApplied tx = true -> txReq tx' = txReq tx -> txFenceGeneration tx' = txFenceGeneration tx ->
    txCommitted tx' = true -> txApplied tx' = true ->
    txTrans (MCommit (tGeneration tx)) (g, Some tx)
      (mkGen (tGeneration tx) ""
         (appendGenerationLineage (gAncestors g) (gCommitted g) (tGeneration tx)), Some tx')
(** a commit that could not be written leaves it open *)
| t_uncommit g tx tx' :
    txApplied tx = true -> txReq tx' = txReq tx -> txFenceGeneration tx' = txFenceGeneration tx ->
    txCommitted tx' = false -> txApplied tx' = true ->
    txTrans (MCommit (tGeneration tx)) (g, Some tx) (g, Some tx')
| t_finalize g tx :
    txCommitted tx = true -> txTrans (MFinalize (tGeneration tx)) (g, Some tx) (g, None)
(** a rollback finished; the transaction stays when that was not written *)
| t_recover g tx otx :
    otx = None \/ otx = Some tx ->
    txTrans (MRecover (tGeneration tx)) (g, Some tx) (mkGen (tPreviousGen tx) "" (gAncestors g), otx)
(** a committed transaction is opened again for the rollback *)
| t_reopen g tx tx' :
    txCommitted tx = true -> txReq tx' = txReq tx -> txCommitted tx' = false ->
    txTrans (MReopen (tGeneration tx)) (g, Some tx)
      (mkGen (tPreviousGen tx) (tGeneration tx) (gAncestors g), Some tx')
| t_destroy x : txTrans MDestroy x (zeroGen, None).

(** One move of one lab, among those that are allowed; the others stand still. *)
Definition ctrans (K : string -> move -> Prop) (c c' : coordinationState) : Prop :=
  (forall l, cgen c' l = cgen c l /\ Transactions c' !! l = Transactions c !! l) \/
  exists lab m, K lab m /\
    (forall l, l <> lab -> cgen c' l = cgen c l /\ Transactions c' !! l = Transactions c !! l) /\
    txTrans m (cgen c lab, Transactions c !! lab) (cgen c' lab, Transactions c' !! lab).

Definition anyMove (lab : string) (m : move) : Prop := True.

Lemma ctrans_frame K c c' :
  Generations c' = Generations c -> Transactions c' = Transactions c -> ctrans K c c'.
Proof. intros Hg Ht. left. unfold cgen. by rewrite Hg, Ht. Qed.

(** An update of the two records of one lab. *)
Lemma ctrans_lab (K : string -> move -> Prop) m lab c c' :
  K lab m ->
  (forall l, l <> lab -> Generations c' !! l = Generations c !! l) ->
  (forall l, l <> lab -> Transactions c' !! l = Transactions c !! l) ->
  txTrans m (cgen c lab, Transactions c !! lab) (cgen c' lab, Transactions c' !! lab) ->
  ctrans K c c'.
Proof.
  intros HK Hg Ht Hx. right. exists lab, m. split; [done|]. split; [|done].
  intros l Hl. unfold cgen, lookup_or. by rewrite Hg, Ht.
Qed.

(** The move an operation stands for; an operation without one leaves every
    generation and transaction alone. *)
Inductive opMove : (Server -> Server) -> string -> move -> Prop :=
| o_prepare lab f ex g rq m u pu pr on ps pre now :
    opMove (final (prepareGeneration lab f ex g rq m u pu pr on ps pre now)) lab (MPrepare ex g)
| o_applying lab f g now : opMove (final (markGenerationApplying lab f g now)) lab (MProgress g)
| o_applied lab f g now : opMove (final (markGenerationApplied lab f g now)) lab (MApply g)
| o_evidence lab f g now h : opMove (final (recordEvidence lab f g now h)) lab (MProgress g)
| o_verified lab f g now : opMove (final (markStateVerified lab f g now)) lab (MProgress g)
| o_commit lab f g inv now :
    opMove (final (finishCommittedGeneration lab f g inv now)) lab (MCommit g)
| o_finalize lab f g now :
    opMove (final (finalizeCommittedGeneration lab f g now)) lab (MFinalize g)
| o_destroyed lab f now : opMove (final (finishDestroyedLab lab f now)) lab MDestroy
| o_recovered lab f g now :
    opMove (final (finishRecoveredGeneration lab f g now)) lab (MRecover g)
| o_reopen lab f g now : opMove (final (reopenCommittedTransaction lab f g now)) lab (MReopen g)
| o_beginRecovery lab f g st tot o pl now :
    opMove (final (beginRecovery lab f g st tot o pl now)) lab (MProgress g)
| o_markPhase lab f g ph fl now :
    opMove (final (markTransactionPhase lab f g ph fl now)) lab (MProgress g).

Lemma cgen_put lab g c : cgen (set_Generations <[lab := g]> c) lab = g.
Proof. unfold cgen, lookup_or. simpl. by rewrite lookup_insert_eq. Qed.

(** ** Reading the transaction first *)

Section Reads.
Context (R : Server -> Server -> Prop) `{!PreOrder R}.

Lemma mrel_own {B} lab fence generation e (k : applyTransaction -> M B) :
  (forall s tx, transactions s !! lab = Some tx -> tGeneration tx = generation ->
     txFenceGeneration tx = fGeneration fence -> R s (final (k tx) s)) ->
  mrel R (ownTransaction lab fence generation e ≫= k).
Proof.
  intros Hk s. unfold ownTransaction, final, get, mbind, SE_bind.
  destruct (transactions s !! lab) as [tx|] eqn:Ht; [|reflexivity].
  case_decide as Hg; [|reflexivity].
  destruct (_ =? _) eqn:Hf; [|reflexivity]. apply Z.eqb_eq in Hf. by apply (Hk s tx).
Qed.

Lemma mrel_own_applied {B} lab fence generation e (k : applyTransaction -> M B) :
  (forall s tx, transactions s !! lab = Some tx -> tGeneration tx = generation ->
     txApplied tx = true -> R s (final (k tx) s)) ->
  mrel R (ownApplied lab fence generation e ≫= k).
Proof.
  intros Hk s. unfold ownApplied, ownTransaction, final, get, mbind, SE_bind.
  destruct (transactions s !! lab) as [tx|] eqn:Ht; [|reflexivity].
  case_decide as Hg; [|reflexivity].
  destruct (_ =? _) eqn:Hf; [|reflexivity]. unfold mret, SE_ret.
  destruct (txApplied tx) eqn:Ha; [|reflexivity]. by apply (Hk s tx).
Qed.

Lemma mrel_generation {B} lab generation e (k : applyTransaction -> M B) :
  (forall s tx, transactions s !! lab = Some tx -> tGeneration tx = generation ->
     R s (final (k tx) s)) ->
  mrel R (generationTransaction lab generation e ≫= k).
Proof.
  intros Hk s. unfold generationTransaction, final, get, mbind, SE_bind.
  destruct (transactions s !! lab) as [tx|] eqn:Ht; [|reflexivity].
  case_decide as Hg; [|reflexivity]. by apply (Hk s tx).
Qed.

(** A guard that changes nothing. *)
Lemma mrel_guard {A B} (r : Server -> result err A) (k : A -> M B) :
  (forall s a, r s = Ok a -> R s (final (k a) s)) -> mrel R (inspect r ≫= k).
Proof.
  intros Hk s. unfold final, inspect, mbind, SE_bind.
  destruct (r s) as [a|e] eqn:E; [|reflexivity]. by apply (Hk s a).
Qed.
End Reads.

(** ** Invariants of the machine hold of memory and journal *)

Definition journal (s : Server) : option coordinationState := store s ≫= stCoordination.

Section Safe.
(** [I] of the memory, a weaker [J] of the journal. *)
Context {K : string -> move -> Prop} (I J : coordinationState -> Prop).
Context (HI : forall c c', ctrans K c c' -> I c -> I c').
Context (HIJ : forall c, I c -> J c).

Definition safe (s : Server) : Prop :=
  I (coord s) /\ forall c, journal s = Some c -> J c.

Lemma safe_move s s' :
  ctrans K (coord s) (coord s') -> journal s' = journal s -> kept safe s s'.
Proof. intros Hc Hj [A B]. split; [by eapply HI|]. by rewrite Hj. Qed.

Lemma safe_frame s s' :
  Generations (coord s') = Generations (coord s) ->
  Transactions (coord s') = Transactions (coord s) ->
  journal s' = journal s -> kept safe s s'.
Proof. intros Hg Ht. apply safe_move. by apply ctrans_frame. Qed.

Lemma safe_save : mrel (kept safe) saveCoordinationLocked.
Proof.
  apply mrel_save; [| |by intros s ?].
  - intros s st fs Hst. apply safe_frame; [done|done|]. unfold journal. by rewrite Hst.
  - intros s st fs Hst [A B]. split; [done|]. intros c. unfold journal. simpl.
    intros [= <-]. by apply HIJ.
Qed.

Lemma safe_update f s :
  ctrans K (coord s) (f (coord s)) -> kept safe s (set_coord f s).
Proof. intros Hc. by apply safe_move. Qed.

(** The update-then-write idiom: the write's failure undoes the update. *)
Lemma safe_try f g s {A} (k : unit -> M A) :
  ctrans K (coord s) (f (coord s)) -> ctrans K (coord s) (g (f (coord s))) ->
  (forall u, mrel (kept safe) (k u)) ->
  kept safe s (final (modify (set_coord f);;
    (try_catch saveCoordinationLocked (fun e => modify (set_coord g);; fail e) ≫= k)) s).
Proof.
  intros Hf Hg Hk Hs. rewrite final_modify_bind.
  pose proof (safe_update f s Hf Hs) as H1.
  pose proof (safe_save (set_coord f s) H1) as H2. unfold final in *.
  destruct (save_inv (set_coord f s)) as [[Hr Hn]|[(st & fs & Hst & _ & Hr)|(st & Hst & Hr)]];
    unfold mbind, SE_bind, try_catch; rewrite Hr in *; simpl in *.
  - apply (Hk tt _ H1).
  - destruct Hs as [A1 A2]. split; simpl; [by eapply HI|]. intros c Hc. apply A2.
    unfold journal in *. simpl in Hc. by rewrite Hst.
  - apply (Hk tt _ H2).
Qed.

Lemma safe_try_last f g s :
  ctrans K (coord s) (f (coord s)) -> ctrans K (coord s) (g (f (coord s))) ->
  kept safe s (final (modify (set_coord f);;
    try_catch saveCoordinationLocked (fun e => modify (set_coord g);; fail e)) s).
Proof.
  intros Hf Hg Hs. pose proof (safe_try f g s (fun u => mret u) Hf Hg) as H.
  revert H. unfold final, mbind, SE_bind, modify, try_catch, mret, SE_ret. simpl.
  destruct (saveCoordinationLocked (set_coord f s)) as [s2 [[]|e]]; simpl;
    intros H; apply H; try done; by intros u s0 H0.
Qed.

(** *** The operations *)

Hint Resolve safe_save : safe.
Ltac safe_solve :=
  mrel_steps; try solve [ auto with safe | apply safe_frame; reflexivity ].
Ltac after_fence := unfold checkFence; apply mrel_guard; [apply _|intros s0 _ _; revert s0].
Ltac lookups := unfold cgen, lookup_or; simpl;
  intros; repeat first [ rewrite lookup_insert_ne by done | rewrite lookup_delete_ne by done
                       | rewrite lookup_partial_alter_ne by done ].

Lemma safe_pure {A B} (g : M A) (k : A -> M B) s :
  final g s = s -> (forall a, kept safe s (final (k a) s)) -> kept safe s (final (g ≫= k) s).
Proof.
  intros Hg Hk. unfold final, mbind, SE_bind in *.
  destruct (g s) as [s' [a|e]]; simpl in Hg; subst; [apply Hk|by intros ?].
Qed.

Lemma refuse_pure b (e : err) (s : Server) : final (refuse b e) s = s.
Proof. by destruct b. Qed.

Lemma safe_putTx m lab tx tx' s :
  K lab m -> transactions s !! lab = Some tx ->
  (forall g, txTrans m (g, Some tx) (g, Some tx')) ->
  kept safe s (final (putTx lab tx') s).
Proof.
  intros HK Ht Hm. apply safe_update. apply (ctrans_lab K m lab); [done|done|by lookups|].
  unfold transactions in Ht. simpl. rewrite Ht, lookup_insert_eq. apply Hm.
Qed.

Lemma safe_putTx_then m lab tx tx' s {A} (k : unit -> M A) :
  K lab m -> transactions s !! lab = Some tx ->
  (forall g, txTrans m (g, Some tx) (g, Some tx')) ->
  (forall u, mrel (kept safe) (k u)) ->
  kept safe s (final (putTx lab tx' ≫= k) s).
Proof.
  intros HK Ht Hm Hk Hs. apply (Hk tt (final (putTx lab tx') s)).
  by apply (safe_putTx m lab tx tx' s).
Qed.

Lemma safe_prepare lab fence expected generation requested mode u pu prune only proofs
    pre now :
  K lab (MPrepare expected generation) ->
  mrel (kept safe) (prepareGeneration lab fence expected generation requested mode u pu
    prune only proofs pre now).
Proof.
  intros HK. unfold prepareGeneration.
  destruct (bool_decide (generation = "")) eqn:Hg; [by intros s|].
  apply bool_decide_eq_false in Hg.
  do 6 (apply mrel_bind; [apply _|by mrel_steps|intros ?]).
  apply mrel_get_bind. intros s.
  unfold checkFence, inspect, final, mbind at 1, SE_bind at 1.
  destruct (fenceErrorLocked lab fence now s); [|by intros ?].
  destruct (transactions s !! lab) as [tx|] eqn:Ht; [case_match; by intros ?|].
  unfold refuse, mbind at 1, SE_bind at 1.
  destruct (bool_decide (gCommitted (genOf s lab) = expected)) eqn:He; simpl; [|by intros ?].
  apply bool_decide_eq_true in He. rewrite <- He in HK |- *.
  destruct (previousModeOf s lab _) as [pm pu'].
  unfold lift, mbind at 1, SE_bind at 1.
  destruct (RequireTransactionMode pm); [|by intros ?].
  apply (safe_try_last
    (fun c => set_Generations _ (set_Transactions _ c))
    (fun c => set_Generations _ (set_Transactions _ c)));
    (apply (ctrans_lab K (MPrepare (gCommitted (genOf s lab)) generation) lab);
       [done|by lookups|by lookups|]);
    rewrite cgen_put; simpl;
    rewrite ?lookup_insert_eq, ?lookup_delete_eq; unfold transactions in Ht; rewrite Ht.
  - match goal with |- txTrans _ _ (_, Some ?tx) =>
      by apply (t_prepare (genOf s lab) tx) end.
  - apply (t_reset (genOf s lab)).
Qed.

Lemma safe_applying lab fence generation now :
  K lab (MProgress generation) ->
  mrel (kept safe) (markGenerationApplying lab fence generation now).
Proof.
  intros HK. unfold markGenerationApplying, checkFence. apply mrel_bind; [apply _|by mrel_steps|intros _].
  apply mrel_own; [apply _|]. intros s tx Ht <- _.
  apply (safe_putTx_then (MProgress (tGeneration tx)) lab tx); auto with safe.
  intros g. by apply t_progress.
Qed.

Lemma safe_applied lab fence generation now :
  K lab (MApply generation) ->
  mrel (kept safe) (markGenerationApplied lab fence generation now).
Proof.
  intros HK. unfold markGenerationApplied, checkFence. apply mrel_bind; [apply _|by mrel_steps|intros _].
  apply mrel_own; [apply _|]. intros s tx Ht <- _.
  apply (safe_putTx_then (MApply (tGeneration tx)) lab tx); auto with safe.
  intros g. by apply t_apply.
Qed.

Lemma safe_evidence lab fence generation now f :
  K lab (MProgress generation) ->
  mrel (kept safe) (recordEvidence lab fence generation now f).
Proof.
  intros HK. unfold recordEvidence, checkFence. apply mrel_bind; [apply _|by mrel_steps|intros _].
  apply mrel_own; [apply _|]. intros s tx Ht <- _.
  apply (safe_putTx_then (MProgress (tGeneration tx)) lab tx); auto with safe.
  intros g. by apply t_progress.
Qed.

Lemma safe_verified lab fence generation now :
  K lab (MProgress generation) ->
  mrel (kept safe) (markStateVerified lab fence generation now).
Proof.
  intros HK. unfold markStateVerified, checkFence. apply mrel_bind; [apply _|by mrel_steps|intros _].
  apply mrel_own_applied; [apply _|]. intros s tx Ht <- _.
  apply (safe_putTx_then (MProgress (tGeneration tx)) lab tx); auto with safe.
  intros g. by apply t_progress.
Qed.

Lemma safe_markPhase lab fence generation phase failure now :
  K lab (MProgress generation) ->
  mrel (kept safe) (markTransactionPhase lab fence generation phase failure now).
Proof.
  intros HK. unfold markTransactionPhase, checkFence. apply mrel_bind; [apply _|by mrel_steps|intros _].
  apply mrel_generation; [apply _|]. intros s tx Ht <-.
  apply (safe_putTx_then (MProgress (tGeneration tx)) lab tx); auto with safe.
  intros g. by apply t_progress.
Qed.

Lemma safe_beginRecovery lab fence generation strategy total o pl now :
  K lab (MProgress generation) ->
  mrel (kept safe) (beginRecovery lab fence generation strategy total o pl now).
Proof.
  intros HK. unfold beginRecovery, checkFence. apply mrel_bind; [apply _|by mrel_steps|intros _].
  apply mrel_generation; [apply _|]. intros s tx Ht <-.
  apply safe_pure; [unfold requireModes, lift, final, mbind, SE_bind; by repeat case_match
                   |intros _].
  do 3 (apply safe_pure; [apply refuse_pure|intros _]).
  apply safe_pure; [done|intros s0]. apply safe_pure; [apply refuse_pure|intros _].
  apply (safe_putTx_then (MProgress (tGeneration tx)) lab tx); [done|done| |intros _; safe_solve].
  intros g. by apply t_progress.
Qed.

Lemma safe_commit lab fence generation inv now :
  K lab (MCommit generation) ->
  mrel (kept safe) (finishCommittedGeneration lab fence generation inv now).
Proof.
  intros HK. unfold finishCommittedGeneration, checkFence.
  apply mrel_bind; [apply _|by mrel_steps|intros _].
  apply mrel_own_applied; [apply _|]. intros s tx Ht <- Ha.
  rewrite final_get_bind. unfold transactions in Ht.
  apply safe_try_last;
    (apply (ctrans_lab K (MCommit (tGeneration tx)) lab);
       [done|by destruct inv; lookups|by destruct inv; lookups|]).
  - assert (forall c, cgen (match inv with Some i => set_Inventories <[lab := i]>
        (set_Lineage <[lab := commitLineage tx (tGeneration tx)
           (lookup_or ∅ (OverlayLineage (coord s)) lab) (invVNIs i)]> c) | None => c end) lab
        = cgen c lab) as -> by by destruct inv.
    rewrite cgen_put. destruct inv; simpl; rewrite Ht, lookup_insert_eq; by apply (t_commit (genOf s lab)).
  - change (cgen (set_Lineage ?f (set_Inventories ?g ?c)) lab) with (cgen c lab).
    rewrite cgen_put. destruct inv; simpl; rewrite Ht, lookup_insert_eq; by apply t_uncommit.
Qed.

Lemma safe_finalize lab fence generation now :
  K lab (MFinalize generation) ->
  mrel (kept safe) (finalizeCommittedGeneration lab fence generation now).
Proof.
  intros HK. unfold finalizeCommittedGeneration, checkFence.
  apply mrel_bind; [apply _|by mrel_steps|intros _].
  apply mrel_own; [apply _|]. intros s tx Ht <- _. unfold transactions in Ht.
  unfold refuse. destruct (txCommitted tx) eqn:Hc; simpl; [|by intros ?].
  unfold final, mbind at 1, SE_bind at 1. unfold mret at 1, SE_ret at 1.
  apply (safe_try_last (set_Transactions (delete lab)) (set_Transactions <[lab := tx]>));
    (apply (ctrans_lab K (MFinalize (tGeneration tx)) lab); [done|done|by lookups|]); unfold cgen; simpl;
    rewrite ?lookup_insert_eq, ?lookup_delete_eq, Ht; [by apply t_finalize|by apply t_same].
Qed.

Lemma restoreLab_forgetLab lab c : restoreLab lab c (forgetLab lab c) = c.
Proof.
  assert (forall V (m : gmap string V), restoreEntry lab (m !! lab) (delete lab m) = m) as He.
  { intros V m. unfold restoreEntry. apply map_eq. intros l.
    destruct (decide (lab = l)) as [<-|];
      [by rewrite lookup_partial_alter_eq|by rewrite lookup_partial_alter_ne, lookup_delete_ne]. }
  destruct c. unfold restoreLab, forgetLab. simpl. rewrite !He. f_equal.
  apply map_eq. intros vni. apply option_eq. intros claim.
  rewrite lookup_union_Some_raw, map_lookup_filter_Some, map_lookup_filter_None,
    lookup_map_drop_Some. simpl. split; [naive_solver|].
  intros Hc. destruct (decide (cLab claim = lab)) as [Hl|Hl]; [by left|]. right.
  split; [right; naive_solver|]. split; [done|]. by apply bool_decide_eq_false.
Qed.

Lemma safe_destroyed lab fence now :
  K lab MDestroy -> mrel (kept safe) (finishDestroyedLab lab fence now).
Proof.
  intros HK. unfold finishDestroyedLab, checkFence.
  apply mrel_bind; [apply _|by mrel_steps|intros _].
  apply mrel_get_bind. intros s.
  apply (safe_try (forgetLab lab) (restoreLab lab (coord s))); [| |intros _; safe_solve].
  - apply (ctrans_lab K MDestroy lab); [done|by lookups|by lookups|].
    unfold cgen, lookup_or. simpl. rewrite !lookup_delete_eq. apply t_destroy.
  - rewrite restoreLab_forgetLab. by apply ctrans_frame.
Qed.

Lemma safe_recovered lab fence generation now :
  K lab (MRecover generation) ->
  mrel (kept safe) (finishRecoveredGeneration lab fence generation now).
Proof.
  intros HK. unfold finishRecoveredGeneration, checkFence.
  apply mrel_bind; [apply _|by mrel_steps|intros _].
  apply mrel_generation; [apply _|]. intros s tx Ht <-. rewrite final_get_bind, !final_modify_bind.
  set (s1 := set_coord _ s). intros Hs. unfold transactions in Ht.
  assert (ctrans K (coord s) (coord s1)) as H1.
  { apply (ctrans_lab K (MRecover (tGeneration tx)) lab); [done|by lookups|by lookups|].
    change (cgen (coord s1) lab) with
      (cgen (set_Generations
         <[lab := mkGen (tPreviousGen tx) "" (gAncestors (genOf s lab))]> (coord s)) lab).
    rewrite cgen_put. simpl. rewrite lookup_delete_eq, Ht. apply t_recover. by left. }
  assert (safe (clearRepairs lab s1)) as Hc1 by by apply (safe_move s).
  pose proof (safe_save _ Hc1) as Hsave. unfold try_catch, final in *.
  destruct (save_inv (clearRepairs lab s1))
    as [[Hr _]|[(st & fs & Hst & _ & Hr)|(st & Hst & Hr)]]; rewrite Hr in *; [done| |done].
  simpl. apply (safe_move s); [|by unfold journal; simpl in *; rewrite Hst|done].
  apply (ctrans_lab K (MRecover (tGeneration tx)) lab); [done|by lookups|by lookups|]. simpl.
  rewrite lookup_insert_eq, Ht. unfold cgen, lookup_or. simpl. rewrite lookup_insert_eq.
  apply (t_recover (genOf s lab)). by right.
Qed.

Lemma safe_reopen lab fence generation now :
  K lab (MReopen generation) ->
  mrel (kept safe) (reopenCommittedTransaction lab fence generation now).
Proof.
  intros HK. unfold reopenCommittedTransaction, checkFence.
  apply mrel_bind; [apply _|by mrel_steps|intros _].
  apply mrel_generation; [apply _|]. intros s tx Ht <-. unfold transactions in Ht.
  destruct (txCommitted tx) eqn:Hc; simpl; [|by intros ?].
  do 2 (apply safe_pure; [apply refuse_pure|intros _]). rewrite final_get_bind.
  apply (safe_try (fun c => set_Generations _ (set_Transactions _ c))
                  (fun c => set_Generations _ (set_Transactions _ c)));
    [| |intros _; by mrel_steps];
    (apply (ctrans_lab K (MReopen (tGeneration tx)) lab); [done|by lookups|by lookups|]); rewrite cgen_put; simpl;
    rewrite lookup_insert_eq, Ht.
  - by apply (t_reopen (genOf s lab)).
  - apply t_same.
Qed.

(** *** Operations that leave generations and transactions alone *)

Lemma safe_expire now : mrel (kept safe) (expireCoordinationLocked now).
Proof. intros s. by apply safe_frame. Qed.
Lemma safe_checkFence lab f now : mrel (kept safe) (checkFence lab f now).
Proof. unfold checkFence. by mrel_steps. Qed.
Hint Resolve safe_expire safe_checkFence : safe.
Lemma safe_expireAndCheck lab f now : mrel (kept safe) (expireAndCheck lab f now).
Proof. unfold expireAndCheck. safe_solve. Qed.
Hint Resolve safe_expireAndCheck : safe.

Lemma safe_acquire token req now : mrel (kept safe) (acquireMutationLease token req now).
Proof. unfold acquireMutationLease. safe_solve. Qed.
Lemma safe_recoveryFence token lab ttl now :
  mrel (kept safe) (acquireRecoveryFence token lab ttl now).
Proof. unfold acquireRecoveryFence. safe_solve. Qed.

Lemma safe_rollbackAdoptions k lab adopted before :
  mrel (kept safe) (rollbackLegacyAdoptionsLocked k lab adopted before).
Proof.
  intros s Hs. unfold final, rollbackLegacyAdoptionsLocked.
  set (s1 := set_coord _ s). assert (safe s1) as H1 by by apply (safe_frame s).
  pose proof (safe_save s1 H1) as H2. unfold final in H2.
  by destruct (saveCoordinationLocked s1) as [s2 [?|?]].
Qed.

Lemma safe_reserve k req now : mrel (kept safe) (reserveOverlays k req now).
Proof.
  unfold reserveOverlays. safe_solve.
  match goal with |- mrel _ (adoptAll _ _ _ ?b ?l ?a) => generalize a; generalize b;
    induction l as [|v l IH]; intros b0 adopted0; simpl; safe_solve; apply safe_rollbackAdoptions end.
Qed.

Lemma safe_promote lab fence vnis now :
  mrel (kept safe) (promoteOverlayReservations lab fence vnis now).
Proof.
  unfold promoteOverlayReservations. safe_solve. generalize false.
  induction vnis as [|v vnis IH]; intros b; simpl; safe_solve.
Qed.

(** A write of another record leaves the journal alone. *)
Lemma safe_other_record s s' st fs tops hs :
  store s = Some st -> coord s' = coord s ->
  kept safe s (set_store (Some (mkStore (stCoordination st) tops hs)) fs s').
Proof.
  intros Hst Hc. apply safe_frame; simpl; rewrite ?Hc; [done|done|].
  unfold journal. simpl. by rewrite Hst.
Qed.

Lemma safe_saveHolds lab now : mrel (kept safe) (saveHoldsLocked lab now).
Proof.
  intros s. unfold final, saveHoldsLocked. destruct (store s) as [st|] eqn:Hst; [|by intros ?].
  set (s1 := match holds s !! lab with Some h => _ | None => _ end).
  assert (coord s1 = coord s) as Hc by (unfold s1; by repeat case_match).
  destruct (srvFaults s1) as [|[] fs]; simpl; try by apply safe_other_record.
  destruct st as [c t h]. by apply (safe_other_record s s1 (mkStore c t h)).
Qed.
Lemma safe_forget lab : mrel (kept safe) (storeForget lab).
Proof.
  intros s. unfold final, storeForget. destruct (store s) as [st|] eqn:Hst; [|by intros ?].
  destruct (srvFaults s) as [|[] fs]; simpl; try by apply safe_other_record.
  destruct st as [c t h]. by apply (safe_other_record s s (mkStore c t h)).
Qed.
Lemma safe_lapsedHold lab now s : kept safe s (dropLapsedHold lab now s).
Proof. unfold dropLapsedHold. repeat case_match; by apply safe_frame. Qed.
Hint Resolve safe_saveHolds safe_forget safe_lapsedHold : safe.
Lemma safe_acquireOperation lab kind b : mrel (kept safe) (acquireOperation lab kind b).
Proof. unfold acquireOperation. safe_solve. Qed.
Lemma safe_releaseOperation lab id : mrel (kept safe) (releaseOperation lab id).
Proof. unfold releaseOperation. safe_solve. Qed.
Hint Resolve safe_acquireOperation safe_releaseOperation : safe.

Hint Resolve safe_prepare safe_applying safe_applied safe_evidence safe_verified safe_commit
  safe_finalize safe_destroyed safe_recovered safe_reopen safe_beginRecovery safe_markPhase
  safe_reserve safe_promote : safe.

Lemma safe_quietOp g s :
  (forall lab m, opMove g lab m -> K lab m) -> quietOp g -> kept safe s (g s).
Proof.
  intros HK. destruct 1;
  match goal with |- kept _ ?s (final ?m ?s) =>
    let H := fresh in assert (mrel (kept safe) m) as H; [|exact (H s)] end;
  first [ solve [auto using opMove with safe]
        | match goal with |- mrel _ ?m => let h := head_of m in unfold h end;
          unfold ownApplied, ownTransaction, requireModes, putEphemeral; safe_solve ].
Qed.
End Safe.

(** ** Two invariants of the machine *)

(** A prepared generation belongs to an open, uncommitted transaction. *)
Definition preparedOK (c : coordinationState) : Prop :=
  forall lab, gPrepared (cgen c lab) <> "" ->
    exists tx, Transactions c !! lab = Some tx /\ txCommitted tx = false /\
               tGeneration tx = gPrepared (cgen c lab).

(** While a transaction is open the committed generation is the one it
    expected, or already its own. *)
Definition casOK (c : coordinationState) : Prop :=
  forall lab tx, Transactions c !! lab = Some tx ->
    tPreviousGen tx = txExpected (txReq tx) /\
    (gCommitted (cgen c lab) = txExpected (txReq tx) \/
     gCommitted (cgen c lab) = tGeneration tx).

(** An invariant that speaks of one lab at a time need only survive the moves
    of a lab. *)
Lemma ctrans_local (P : generationState -> option applyTransaction -> Prop) c c' :
  (forall m g otx g' otx', txTrans m (g, otx) (g', otx') -> P g otx -> P g' otx') ->
  ctrans anyMove c c' ->
  (forall lab, P (cgen c lab) (Transactions c !! lab)) ->
  forall lab, P (cgen c' lab) (Transactions c' !! lab).
Proof.
  intros Hstep [Hsame|(lab0 & m & _ & Hother & Ht)] HP lab;
    [by destruct (Hsame lab) as [-> ->]|].
  destruct (decide (lab = lab0)) as [->|Hne]; [by eapply Hstep|].
  destruct (Hother lab Hne) as [-> ->]. apply HP.
Qed.

Lemma preparedOK_ctrans c c' : ctrans anyMove c c' -> preparedOK c -> preparedOK c'.
Proof.
  intros Hc HP. refine (ctrans_local (fun g otx => gPrepared g <> "" -> exists tx,
    otx = Some tx /\ txCommitted tx = false /\ tGeneration tx = gPrepared g)
    c c' _ Hc HP). clear Hc HP c c'. intros m g otx g' otx' Ht HP.
  inversion Ht as [m0 x|g0 tx Hgen Hcom Happ Hexp Hprev|g0 gn|g0 tx tx' Hreq Hfen Hcom Happ
    |g0 tx tx' Hreq Hfen Hcom Happ|g0 tx tx' Happ Hreq Hfen Hcom Happ'
    |g0 tx tx' Happ Hreq Hfen Hcom Happ'|g0 tx Hcom|g0 tx otx0 Ho|g0 tx tx' Hold Hreq Hcom|x];
    subst; simpl in *; try done; try (by eauto).
  - intros Hp. destruct (HP Hp) as (tx0 & [= <-] & Hc & Hg). exists tx'. unfold tGeneration in *.
    split_and!; congruence.
  - intros Hp. destruct (HP Hp) as (tx0 & [= <-] & Hc & Hg). exists tx'. unfold tGeneration in *.
    split_and!; congruence.
  - intros Hp. destruct (HP Hp) as (tx0 & [= <-] & Hc & Hg). exists tx'. unfold tGeneration in *.
    split_and!; congruence.
  - intros Hp. destruct (HP Hp) as (tx0 & [= <-] & Hc & _). congruence.
  - intros _. exists tx'. unfold tGeneration. by rewrite Hreq.
Qed.

Lemma casOK_ctrans c c' : ctrans anyMove c c' -> casOK c -> casOK c'.
Proof.
  intros Hc HP. refine (ctrans_local (fun g otx => forall tx, otx = Some tx ->
    tPreviousGen tx = txExpected (txReq tx) /\
    (gCommitted g = txExpected (txReq tx) \/ gCommitted g = tGeneration tx))
    c c' _ Hc HP). clear Hc HP c c'. intros m g otx g' otx' Ht HP.
  inversion Ht as [m0 x|g0 tx Hgen Hcom Happ Hexp Hprev|g0 gn|g0 tx tx' Hreq Hfen Hcom Happ
    |g0 tx tx' Hreq Hfen Hcom Happ|g0 tx tx' Happ Hreq Hfen Hcom Happ'
    |g0 tx tx' Happ Hreq Hfen Hcom Happ'|g0 tx Hcom|g0 tx otx0 Ho|g0 tx tx' Hold Hreq Hcom|x];
    subst; simpl in *; try done; intros tx0 Htx; simplify_eq.
  - split; [congruence|]. left. congruence.
  - destruct (HP tx eq_refl) as [A B]. unfold tPreviousGen, tGeneration in *. by rewrite Hreq.
  - destruct (HP tx eq_refl) as [A B]. unfold tPreviousGen, tGeneration in *. by rewrite Hreq.
  - destruct (HP tx eq_refl) as [A B]. unfold tPreviousGen, tGeneration in *. rewrite Hreq. auto.
  - destruct (HP tx eq_refl) as [A B]. unfold tPreviousGen, tGeneration in *. by rewrite Hreq.
  - destruct Ho; simplify_eq. destruct (HP tx eq_refl) as [A B]. auto.
  - destruct (HP tx eq_refl) as [A B]. unfold tPreviousGen, tGeneration in *. rewrite Hreq. auto.
Qed.

(** ** The invariants survive a restart *)

Lemma loadTransaction_keeps tx :
  txCommitted (loadTransaction tx).1 = txCommitted tx /\
  tGeneration (loadTransaction tx).1 = tGeneration tx.
Proof.
  assert (forall q q' r, migrateLegacyTransactionModes q = (q', r) ->
            txGeneration q' = txGeneration q) as Hm.
  { intros q q' r. unfold migrateLegacyTransactionModes, migrateDesired, migratePrevious.
    intros H. repeat case_match; simplify_eq; done. }
  unfold loadTransaction. case_decide; simpl;
    destruct (migrateLegacyTransactionModes _) as [q' [?|?]] eqn:E;
    apply Hm in E; simpl in *; unfold tGeneration; simpl; auto.
Qed.

Lemma preparedOK_load now disk s :
  coord s = emptyCoord -> preparedOK disk -> preparedOK (loadCoord now disk (coord s)).
Proof.
  intros -> Hd lab. unfold cgen, lookup_or. simpl. rewrite !map_union_empty, lookup_fmap.
  intros Hp. destruct (Hd lab Hp) as (tx & Ht & Hc & Hg).
  destruct (loadTransaction_keeps tx) as [A B].
  exists (loadTransaction tx).1. rewrite Ht. simpl. split_and!; [done|congruence|].
  rewrite B. exact Hg.
Qed.

Lemma preparedOK_rehydrateTop w top mode u now :
  mrel (kept (safe preparedOK preparedOK)) (rehydrateTop w top mode u now).
Proof.
  assert (forall s g f, gPrepared g = gPrepared (genOf s (topName top)) ->
    f = <[topName top := g]> (Generations (coord s)) ->
    kept (safe preparedOK preparedOK) s (set_coord (set_Generations (fun _ => f)) s)) as Hgen.
  { intros s g f Hg -> [A B]. split; [|exact B]. intros lab. simpl. unfold cgen, lookup_or. simpl.
    destruct (decide (topName top = lab)) as [<-|].
    - rewrite lookup_insert_eq. simpl. rewrite Hg. apply (A (topName top)).
    - rewrite lookup_insert_ne by done. apply (A lab). }
  unfold rehydrateTop, restoreEphemeralLeaseLocked, putEphemeral, loadHolds.
  mrel_steps; try (by apply (safe_frame _ _ preparedOK_ctrans)).
  - eapply Hgen; [|reflexivity]. unfold rehydratedGen. by repeat case_decide.
  - intros s. unfold final. repeat case_match; by apply (safe_frame _ _ preparedOK_ctrans).
Qed.

Lemma preparedOK_rehydrate rd now : mrel (kept (safe preparedOK preparedOK)) (rehydrate rd now).
Proof.
  assert (mrel (kept (safe preparedOK preparedOK)) saveCoordinationLocked) as Hs
    by apply (safe_save _ _ preparedOK_ctrans (fun _ H => H)).
  assert (forall labs b, mrel (kept (safe preparedOK preparedOK)) (rehydrateAll rd labs b now)) as Hr.
  { induction labs as [|l labs IH]; intros b; simpl; mrel_steps; try done.
    unfold rehydrateLab. mrel_steps; try apply preparedOK_rehydrateTop.
    intros s0. unfold final, putTopology.
    destruct (store s0) as [st|] eqn:Hst; [|by intros ?].
    destruct (srvFaults s0) as [|[] fs]; simpl;
      try by apply (safe_other_record _ _ preparedOK_ctrans).
    destruct st as [c t h]. by apply (safe_other_record _ _ preparedOK_ctrans s0 s0 (mkStore c t h)). }
  unfold rehydrate. mrel_steps. apply Hr.
Qed.

Lemma preparedOK_restart rd now faults s :
  safe preparedOK preparedOK s -> safe preparedOK preparedOK (restart rd now faults s).
Proof.
  intros [_ Hj]. unfold restart. set (s0 := freshServer _ _ _).
  assert (preparedOK (coord s0)) as H0.
  { intros lab. unfold cgen, lookup_or. simpl. by rewrite lookup_empty. }
  assert (safe preparedOK preparedOK s0) as Hs0 by by split.
  assert (mrel (kept (safe preparedOK preparedOK)) (rehydrate rd now)) as Hre by apply preparedOK_rehydrate.
  assert (safe preparedOK preparedOK (final (loadCoordination rd now) s0)) as Hl.
  { unfold loadCoordination. rewrite final_get_bind. unfold readCoordination.
    destruct (rdCoordination rd); [|done]. fold (journal s0). change (journal s0) with (journal s).
    destruct (journal s) as [disk|] eqn:Hd; [|done].
    rewrite final_modify_bind.
    assert (safe preparedOK preparedOK (set_coord (loadCoord now disk) s0)) as H1.
    { split; [|intros c; change (journal s = Some c -> preparedOK c); rewrite Hd; apply Hj].
      apply (preparedOK_load now disk s0); [done|]. by apply Hj. }
    revert H1. generalize (set_coord (loadCoord now disk) s0).
    change (mrel (kept (safe preparedOK preparedOK)) (expireCoordinationLocked now ≫= fun _ =>
      when (loadMigrated disk) (ignore saveCoordinationLocked))).
    mrel_steps; [apply (safe_expire _ _ preparedOK_ctrans)|apply (safe_save _ _ preparedOK_ctrans (fun _ H => H))]. }
  revert Hl. unfold final, mbind, SE_bind.
  destruct (loadCoordination rd now s0) as [s1 [[]|e]]; simpl; [apply (Hre s1)|done].
Qed.

Lemma preparedOK_reach n issued s : reach n issued s -> safe preparedOK preparedOK s.
Proof.
  induction 1 as [node st faults Hst|n issued s new s' Hr IH Hstep].
  { split; [|by unfold journal; simpl; rewrite Hst].
    intros lab. unfold cgen, lookup_or. simpl. by rewrite lookup_empty. }
  pose proof preparedOK_ctrans as Hp.
  destruct Hstep as [token req now s s' resp H|token req now s s' e H
    |token lab ttl now s s' f H|token lab ttl now s s' e H|g s Hq|rd now faults s Hst].
  - pose proof (safe_acquire _ _ Hp (fun _ H => H) token req now s IH) as H1. unfold final in H1. by rewrite H in H1.
  - pose proof (safe_acquire _ _ Hp (fun _ H => H) token req now s IH) as H1. unfold final in H1. by rewrite H in H1.
  - pose proof (safe_recoveryFence _ _ Hp (fun _ H => H) token lab ttl now s IH) as H1. unfold final in H1.
    by rewrite H in H1.
  - pose proof (safe_recoveryFence _ _ Hp (fun _ H => H) token lab ttl now s IH) as H1. unfold final in H1.
    by rewrite H in H1.
  - by apply (safe_quietOp _ _ Hp (fun _ H => H)).
  - by apply preparedOK_restart.
Qed.

(** One process lifetime: no restart. *)
Inductive lifetime : Server -> Server -> Prop :=
| life_acquire token req now s : lifetime s (final (acquireMutationLease token req now) s)
| life_recovery token lab ttl now s : lifetime s (final (acquireRecoveryFence token lab ttl now) s)
| life_op g s : quietOp g -> lifetime s (g s).

Lemma casOK_lifetime s s' : rtc lifetime s s' -> safe casOK casOK s -> safe casOK casOK s'.
Proof.
  pose proof casOK_ctrans as Hc. induction 1 as [|s1 s2 s3 Hstep _ IH]; [done|].
  intros Hs. apply IH. destruct Hstep.
  - by apply (safe_acquire _ _ Hc (fun _ H => H)).
  - by apply (safe_recoveryFence _ _ Hc (fun _ H => H)).
  - by apply (safe_quietOp _ _ Hc (fun _ H => H)).
Qed.

(** ** Inversion of a successful step *)

Lemma checkFence_ok_inv {A} lab fence now (k : unit -> M A) s s' a :
  (checkFence lab fence now ≫= k) s = (s', Ok a) ->
  fenceErrorLocked lab fence now s = Ok tt /\ k tt s = (s', Ok a).
Proof.
  unfold checkFence, inspect, mbind, SE_bind.
  by destruct (fenceErrorLocked lab fence now s) as [[]|e].
Qed.

Lemma ownTransaction_ok_inv {A} lab fence generation e (k : applyTransaction -> M A) s s' a :
  (ownTransaction lab fence generation e ≫= k) s = (s', Ok a) ->
  exists tx, transactions s !! lab = Some tx /\ tGeneration tx = generation /\
    txFenceGeneration tx = fGeneration fence /\ k tx s = (s', Ok a).
Proof.
  unfold ownTransaction, get, mbind, SE_bind.
  destruct (transactions s !! lab) as [tx|]; [|done]. case_decide; [|done].
  destruct (_ =? _) eqn:Hf; [|done]. apply Z.eqb_eq in Hf. eauto.
Qed.

Lemma ownApplied_ok_inv {A} lab fence generation e (k : applyTransaction -> M A) s s' a :
  (ownApplied lab fence generation e ≫= k) s = (s', Ok a) ->
  exists tx, transactions s !! lab = Some tx /\ tGeneration tx = generation /\
    txFenceGeneration tx = fGeneration fence /\ txApplied tx = true /\ k tx s = (s', Ok a).
Proof.
  intros H. apply bind_ok_inv in H as (s1 & tx & H & Hk). unfold ownApplied in H.
  apply ownTransaction_ok_inv in H as (tx0 & Ht & Hg & Hf & H).
  destruct (txApplied tx0) eqn:Ha; [|done]. injection H as <- <-. eauto 6.
Qed.

(** The update-then-write idiom, when it succeeds: the new state is in memory
    and, if there is a store, in the journal. *)
Definition durable (s : Server) : Prop := store s = None \/ journal s = Some (coord s).

Lemma try_save_ok_inv f (h : err -> M unit) s s' :
  (forall e s0 s1, h e s0 <> (s1, Ok tt)) ->
  (modify (set_coord f);; try_catch saveCoordinationLocked h) s = (s', Ok tt) ->
  coord s' = f (coord s) /\ durable s'.
Proof.
  intros Hh. unfold mbind, SE_bind, modify, try_catch. simpl.
  destruct (save_inv (set_coord f s)) as [[-> Hn]|[(st & fs & Hst & _ & ->)|(st & Hst & ->)]].
  - intros [= <-]. split; [done|]. left. exact Hn.
  - intros H. by apply Hh in H.
  - intros [= <-]. split; [done|]. right. done.
Qed.

(** ** The theorems *)

(** C31. In every execution of the agent, crashes and restarts included, a
    generation that is recorded as prepared belongs to an open transaction
    that is not committed: a prepared lab always has the record a recovery
    needs. *)
Theorem prepared_has_transaction n issued s lab :
  reach n issued s -> gPrepared (genOf s lab) <> "" ->
  exists tx, transactions s !! lab = Some tx /\ txCommitted tx = false /\
             tGeneration tx = gPrepared (genOf s lab).
Proof. intros Hr. destruct (preparedOK_reach _ _ _ Hr) as [H _]. apply H. Qed.

(** A commit is the durable end of an applied transaction of this very
    fence: it succeeds only under an accepted fence, for a transaction that
    the same fence prepared and that was applied, and afterwards the
    generation is the committed one, in memory and in the journal, with the
    generation it replaces in its ancestry. *)
Theorem commit_after_apply lab fence generation inv now s s' :
  finishCommittedGeneration lab fence generation inv now s = (s', Ok tt) ->
  (exists tx, transactions s !! lab = Some tx /\ tGeneration tx = generation /\
     txApplied tx = true /\ txFenceGeneration tx = fGeneration fence /\
     fenceErrorLocked lab fence now s = Ok tt) /\
  (exists tx', transactions s' !! lab = Some tx' /\ txCommitted tx' = true /\
     txPhase tx' = transactionCommitted /\ tGeneration tx' = generation) /\
  gCommitted (genOf s' lab) = generation /\ gPrepared (genOf s' lab) = "" /\
  (gCommitted (genOf s lab) <> "" ->
     gCommitted (genOf s lab) ∈ gAncestors (genOf s' lab)) /\
  durable s'.
Proof.
  intros H. unfold finishCommittedGeneration in H.
  apply checkFence_ok_inv in H as [Hfence H].
  apply ownApplied_ok_inv in H as (tx & Ht & Hg & Hf & Ha & H).
  erewrite bind_ok in H by reflexivity.
  apply try_save_ok_inv in H as [Hc Hd]; [|done].
  split; [by exists tx|].
  assert (Transactions (coord s') !! lab =
          Some (tx_with_phase transactionCommitted "" (tx_with_committed true tx))) as Htx.
  { rewrite Hc. destruct inv; simpl; by rewrite lookup_insert_eq. }
  assert (genOf s' lab = mkGen generation "" (appendGenerationLineage
            (gAncestors (genOf s lab)) (gCommitted (genOf s lab)) generation)) as Hgen.
  { unfold genOf, generations, lookup_or. rewrite Hc.
    destruct inv; simpl; by rewrite lookup_insert_eq. }
  rewrite Hgen. simpl. split_and!; try done; [by eexists|].
  intros Hne. unfold appendGenerationLineage. rewrite elem_of_dedup, list_elem_of_filter.
  split; [done|]. set_solver.
Qed.

(** No lost update: within one process lifetime of an agent that starts
    with no open transaction, a commit replaces exactly the generation the
    deployment expected when it was prepared, or repeats itself. *)
Theorem commit_replaces_expected s0 s lab fence generation inv now s' :
  transactions s0 = ∅ -> journal s0 = None -> rtc lifetime s0 s ->
  finishCommittedGeneration lab fence generation inv now s = (s', Ok tt) ->
  exists tx, transactions s !! lab = Some tx /\ tGeneration tx = generation /\
    (gCommitted (genOf s lab) = txExpected (txReq tx) \/ gCommitted (genOf s lab) = generation).
Proof.
  intros H0 Hj Hr H.
  assert (safe casOK casOK s0) as Hs0.
  { split; [|by rewrite Hj]. intros l tx. unfold transactions in H0. rewrite H0.
    by rewrite lookup_empty. }
  destruct (casOK_lifetime _ _ Hr Hs0) as [Hs _].
  unfold finishCommittedGeneration in H. apply checkFence_ok_inv in H as [_ H].
  apply ownApplied_ok_inv in H as (tx & Ht & <- & _ & _ & _).
  exists tx. split; [done|]. split; [done|]. by apply (Hs lab tx).
Qed.

(** One deployment at a time: while a lab has an open transaction, no
    preparation of another generation, or under another fence, succeeds; and
    one that succeeds with none open found the expected generation committed
    and is durable. *)
Theorem prepare_is_exclusive lab fence expected generation requested mode u pu prune only
    proofs pre now s s' :
  prepareGeneration lab fence expected generation requested mode u pu prune only proofs pre
    now s = (s', Ok tt) ->
  fenceErrorLocked lab fence now s = Ok tt /\
  match transactions s !! lab with
  | Some tx => s' = s /\ tGeneration tx = generation /\
               txFenceGeneration tx = fGeneration fence
  | None => gCommitted (genOf s lab) = expected /\ durable s' /\
            gPrepared (genOf s' lab) = generation /\
            gCommitted (genOf s' lab) = expected /\
            exists tx, transactions s' !! lab = Some tx /\ txPhase tx = transactionPrepared /\
              txFenceGeneration tx = fGeneration fence /\ txExpected (txReq tx) = expected
  end.
Proof.
  intros H. unfold prepareGeneration in H.
  apply bind_ok_inv in H as (s1 & ? & H1 & H).
  assert (s1 = s) as -> by (rewrite refuse_run in H1; by injection H1 as <- _). clear H1.
  apply bind_ok_inv in H as (s1 & dm & [= <- _] & H).
  apply bind_ok_inv in H as (s1 & ? & H1 & H).
  assert (s1 = s) as -> by (rewrite refuse_run in H1; by injection H1 as <- _). clear H1.
  apply bind_ok_inv in H as (s1 & rw & [= <- _] & H).
  apply bind_ok_inv in H as (s1 & rm & [= <- _] & H).
  apply bind_ok_inv in H as (s1 & ? & H1 & H).
  assert (s1 = s) as -> by (rewrite refuse_run in H1; by injection H1 as <- _). clear H1.
  erewrite bind_ok in H by reflexivity.
  apply checkFence_ok_inv in H as [Hf H]. split; [done|].
  destruct (transactions s !! lab) as [tx|] eqn:Ht.
  - destruct (_ && _) eqn:E; [|done]. injection H as <-.
    apply andb_true_iff in E as [?%bool_decide_eq_true ?%Z.eqb_eq]. done.
  - apply bind_ok_inv in H as (s1 & ? & H1 & H). rewrite refuse_run in H1.
    destruct (bool_decide (gCommitted (genOf s lab) = expected)) eqn:He; [|done].
    injection H1 as <- _. apply bool_decide_eq_true in He.
    destruct (previousModeOf s lab _) as [pm pu'].
    apply bind_ok_inv in H as (s1 & ? & [= <- _] & H).
    apply try_save_ok_inv in H as [Hc Hd]; [|done].
    split; [done|]. split; [done|].
    unfold genOf, transactions, generations, lookup_or in *. rewrite Hc. simpl.
    rewrite !lookup_insert_eq. simpl. split_and!; [done|done|]. eexists. split; [done|]. done.
Qed.

(** C32. Refinement of the transaction machine. Whatever an operation of the
    agent does to generations and transactions, on success and on every error
    path, consists of moves of the one kind the operation stands for, with the
    lab and the generation it was called with, and every other lab stands
    still: only a commit, of an applied transaction, makes its generation the
    committed one; only a finished rollback, or a reopening before it, goes
    back, and to the generation the transaction replaced; only a destruction
    forgets a lab; an operation that stands for no move changes no generation
    and no transaction. *)
Theorem operation_refines_machine g s :
  quietOp g -> rtc (ctrans (opMove g)) (coord s) (coord (g s)).
Proof.
  intros Hq.
  apply (safe_quietOp (rtc (ctrans (opMove g)) (coord s)) (fun _ => True)
           (fun c c' Hc Hr => rtc_r _ _ _ Hr Hc) (fun _ _ => I) g s (fun _ _ H => H) Hq).
  split; [apply rtc_refl|done].
Qed.

(** *** A write that fails *)

Lemma try_save_err_inv f g s s' e :
  (modify (set_coord f);;
   try_catch saveCoordinationLocked (fun e => modify (set_coord g);; fail e)) s = (s', Err e) ->
  e = EPersist /\ coord s' = g (f (coord s)) /\ journal s' = journal s.
Proof.
  unfold mbind, SE_bind, modify, try_catch. simpl.
  destruct (save_inv (set_coord f s)) as [[-> Hn]|[(st & fs & Hst & _ & ->)|(st & Hst & ->)]];
    [done| |done].
  intros [= <- <-]. split_and!; [done|done|]. unfold journal. simpl in *. by rewrite Hst.
Qed.

(** A finalization or a destruction whose journal write is lost changes
    neither the memory nor the journal: the operation can be retried. *)
Theorem lost_write_changes_nothing lab fence generation now s s' :
  (finalizeCommittedGeneration lab fence generation now s = (s', Err EPersist) \/
   finishDestroyedLab lab fence now s = (s', Err EPersist)) ->
  coord s' = coord s /\ journal s' = journal s.
Proof.
  assert (forall (k : unit -> M unit), (checkFence lab fence now ≫= k) s = (s', Err EPersist) ->
            k tt s = (s', Err EPersist)) as Hfence.
  { intros k. unfold checkFence, inspect, mbind, SE_bind, fenceErrorLocked.
    repeat case_match; simplify_eq; done. }
  intros [H|H]; apply Hfence in H; clear Hfence.
  - unfold ownTransaction, get, mbind at 1, SE_bind at 1 in H.
    unfold mbind at 1, SE_bind at 1 in H.
    destruct (transactions s !! lab) as [tx|] eqn:Ht; [|done]. case_decide; [|done].
    destruct (_ =? _); [|done]. unfold mret at 1, SE_ret at 1 in H.
    destruct (txCommitted tx); [|done]. unfold refuse in H. simpl in H.
    erewrite bind_ok in H by reflexivity.
    apply try_save_err_inv in H as (_ & Hc & Hj). split; [|done]. rewrite Hc.
    unfold transactions in Ht. destruct (coord s). simpl in *.
    unfold set_Transactions. simpl. f_equal. by apply insert_delete_id.
  - erewrite bind_ok in H by reflexivity.
    assert ((modify (set_coord (forgetLab lab));;
             try_catch saveCoordinationLocked (fun e =>
               modify (set_coord (restoreLab lab (coord s)));; fail e)) s
            = (s', Err EPersist)) as H1.
    { revert H. unfold mbind, SE_bind, modify.
      by destruct (try_catch saveCoordinationLocked _ _) as [s1 [[]|e]]. }
    apply try_save_err_inv in H1 as (_ & Hc & Hj).
    split; [|done]. by rewrite Hc, restoreLab_forgetLab.
Qed.

(** ** Two error paths that leave the memory inconsistent *)

(** A node whose lab has an applied transaction and a store whose next write
    is lost. *)
Definition txDemoReq : txRequest :=
  mkTxRequest "g2" "g1" RawEmpty RawEmpty "g1" ModePlatform 0 ModePlatform 0 ∅ false [] [].
Definition txDemoTx : applyTransaction :=
  mkTx txDemoReq 3 zeroEvidence transactionApplied zeroInventory "" zeroRecovery true false.
Definition txDemoFence : Fence := mkFence "token" 3.
Definition txDemoServer (faults : list bool) : Server :=
  set_mutations (fun _ => {["lab" := mkLease "deploy" txDemoFence 1000]})
    (set_coord (fun _ => mkCoord ∅ ∅ {["lab" := mkGen "g1" "g2" ["g1"]]}
                           {["lab" := txDemoTx]} ∅ ∅ ∅)
       (freshServer "node1" (Some (mkStore None ∅ ∅)) faults)).

(** A commit whose journal write is lost takes the committed flag back
    but keeps the phase [committed], which is what the recovery status
    reports as consistent. *)
Theorem lost_commit_keeps_committed_phase :
  let s' := final (finishCommittedGeneration "lab" txDemoFence "g2" None 10)
              (txDemoServer [true]) in
  value (finishCommittedGeneration "lab" txDemoFence "g2" None 10) (txDemoServer [true])
    = Err EPersist /\
  txPhase <$> transactions s' !! "lab" = Some transactionCommitted /\
  txCommitted <$> transactions s' !! "lab" = Some false /\
  gCommitted (genOf s' "lab") = "g1".
Proof. split_and!; vm_compute; reflexivity. Qed.

(** A finished rollback whose journal write is lost puts the transaction
    back but not the generation record: the lab then has an open,
    uncommitted transaction and no prepared generation. *)
Theorem lost_recovery_forgets_prepared :
  let s := txDemoServer [true] in
  let s' := final (finishRecoveredGeneration "lab" txDemoFence "g2" 10) s in
  value (finishRecoveredGeneration "lab" txDemoFence "g2" 10) s = Err EPersist /\
  gPrepared (genOf s "lab") = "g2" /\
  transactions s' !! "lab" = Some txDemoTx /\ gPrepared (genOf s' "lab") = "".
Proof. split_and!; vm_compute; reflexivity. Qed.

(** ** Witnesses *)

(** A lease, a prepared generation, on the demo store of [Fencing]. *)
Definition txWire : Wire := mkWire "cos461" "g1" ModePlatform 0 false 0 "" [] None None.
Definition prep1 : M unit :=
  prepareGeneration "cos461" demoFence1 "" "g1" (RawWire txWire) ModePlatform 0 ∅ false [] []
    None 1500.
Definition txs1 : Server := final prep1 demo1.
Definition txs2 : Server := final (markGenerationApplying "cos461" demoFence1 "g1" 1600) txs1.
Definition txs3 : Server := final (markGenerationApplied "cos461" demoFence1 "g1" 1700) txs2.
Definition txCommit : M unit :=
  finishCommittedGeneration "cos461" demoFence1 "g1" None 1800.
Definition txs4 : Server := final txCommit txs3.

Lemma txs1_reach : reach 2 [Issue "cos461" demoFence1] txs1.
Proof.
  apply (reach_step 1 [Issue "cos461" demoFence1] demo1 []).
  - apply (reach_step 0 [] demo0 [Issue "cos461" demoFence1]); [by apply reach_init|].
    eapply (step_acquire _ _ _ demo0 demo1 (mkLeaseResponse _ _ _)).
    apply run_eq. vm_compute. reflexivity.
  - apply step_op. apply q_prepare.
Qed.

Lemma prepared_has_transaction_witness :
  gPrepared (genOf txs1 "cos461") = "g1" /\
  exists tx, transactions txs1 !! "cos461" = Some tx /\ txCommitted tx = false /\
             tGeneration tx = gPrepared (genOf txs1 "cos461").
Proof.
  split; [vm_compute; reflexivity|].
  apply (prepared_has_transaction 2 [Issue "cos461" demoFence1] txs1 "cos461");
    [exact txs1_reach|vm_compute; discriminate].
Defined.

Lemma txCommit_run : txCommit txs3 = (txs4, Ok tt).
Proof. apply (run_eq txCommit txs3). vm_compute. reflexivity. Qed.

Lemma commit_after_apply_witness :
  gCommitted (genOf txs3 "cos461") = "" /\ gCommitted (genOf txs4 "cos461") = "g1" /\
  durable txs4.
Proof.
  split; [vm_compute; reflexivity|].
  destruct (commit_after_apply "cos461" demoFence1 "g1" None 1800 txs3 txs4 txCommit_run)
    as (_ & _ & Hc & _ & _ & Hd).
  split; [exact Hc|exact Hd].
Defined.

Lemma commit_replaces_expected_witness :
  exists tx, transactions txs3 !! "cos461" = Some tx /\ tGeneration tx = "g1" /\
    (gCommitted (genOf txs3 "cos461") = txExpected (txReq tx) \/
     gCommitted (genOf txs3 "cos461") = "g1").
Proof.
  apply (commit_replaces_expected demo0 txs3 "cos461" demoFence1 "g1" None 1800 txs4);
    [reflexivity|reflexivity| |exact txCommit_run].
  eapply rtc_l; [apply (life_acquire (Ok "token-1") (demoReq "deploy") 1000)|].
  eapply rtc_l; [apply life_op, q_prepare|].
  eapply rtc_l; [apply life_op, q_applying|].
  eapply rtc_l; [apply life_op, q_applied|]. apply rtc_refl.
Defined.

Lemma prepare_is_exclusive_witness :
  prep1 demo1 = (txs1, Ok tt) /\ gPrepared (genOf txs1 "cos461") = "g1" /\
  value (prepareGeneration "cos461" demoFence1 "" "g2" (RawWire txWire) ModePlatform 0 ∅ false
           [] [] None 1500) txs1 = Err (EUnfinished "g1").
Proof.
  assert (prep1 demo1 = (txs1, Ok tt)) as H
    by (apply (run_eq prep1 demo1); vm_compute; reflexivity).
  split; [exact H|]. split; [|vm_compute; reflexivity].
  pose proof (prepare_is_exclusive _ _ _ _ _ _ _ _ _ _ _ _ _ _ _ H) as [_ P].
  change (transactions demo1 !! "cos461") with (@None applyTransaction) in P.
  exact (proj1 (proj2 (proj2 P))).
Defined.

Lemma operation_refines_machine_witness :
  rtc (ctrans (opMove (final prep1))) (coord demo1) (coord txs1) /\ gPrepared (genOf txs1 "cos461") = "g1".
Proof.
  split; [|vm_compute; reflexivity].
  apply (operation_refines_machine (final prep1) demo1). apply q_prepare.
Defined.

Lemma lost_write_changes_nothing_witness :
  let s := txDemoServer [true] in
  let s' := final (finishDestroyedLab "lab" txDemoFence 10) s in
  value (finishDestroyedLab "lab" txDemoFence 10) s = Err EPersist /\
  coord s' = coord s /\ journal s' = journal s.
Proof.
  intros s s'. assert (value (finishDestroyedLab "lab" txDemoFence 10) s = Err EPersist) as H
    by (vm_compute; reflexivity).
  split; [exact H|].
  apply (lost_write_changes_nothing "lab" txDemoFence "g2" 10 s s'). right.
  rewrite run_value, H. reflexivity.
Defined.
