(* ===== verification/Inventory.v ===== *)
(** * The inventory of a transaction

    Models the comparisons of [internal/agent/recovery.go] and
    [internal/agent/apply_transaction.go] between the containers and overlays
    a generation should have and the ones the node observes: what a commit
    expects, what it may merge, and when two inventories agree. The final
    specification hash of a device and the overlay inventory the deploy
    engine derives from a topology are arguments. *)

From stdpp Require Import base gmap strings list sorting fin_maps.
From Stdlib Require Import ZArith Lia.
From S2P Require Import Prelude Model Coordination Transactions.

Open Scope Z_scope.

Definition overlayInventorySchema : Z := 3.

(** [bindingVNIs]. *)
Definition bindingVNIs (bindings : list LogicalBinding) : list Z :=
  sortInts (dedup (List.filter (fun v => negb (v =? 0)) (map lbVNI bindings))).

(** ** Sorting by name *)

Definition byName (a b : transactionContainer) : Prop := String.le (tcName a) (tcName b).
#[export] Instance byName_dec : RelDecision byName := fun a b => decide (String.le _ _).
Definition sortContainers (l : list transactionContainer) : list transactionContainer :=
  merge_sort byName l.

(** The order of [nonLegacyTrunks]. *)
Definition trunkLess (a b : PhysicalTrunk) : bool :=
  if decide (ptNodeA a = ptNodeA b) then
    if decide (ptNodeB a = ptNodeB b) then String.ltb (ptVxlan a) (ptVxlan b)
    else String.ltb (ptNodeB a) (ptNodeB b)
  else String.ltb (ptNodeA a) (ptNodeA b).
Definition trunkLe (a b : PhysicalTrunk) : Prop := trunkLess b a = false.
#[export] Instance trunkLe_dec : RelDecision trunkLe := fun a b => decide (trunkLess b a = false).
Definition nonLegacyTrunks (l : list PhysicalTrunk) : list PhysicalTrunk :=
  merge_sort trunkLe (List.filter (fun t => negb (ptLegacy t)) l).

(** ** When an observed inventory is the wanted one *)

Definition sameObject (a b : transactionContainer) : bool :=
  bool_decide (tcName a = tcName b) && bool_decide (tcDeviceID a = tcDeviceID b)
  && bool_decide (tcSpec a = tcSpec b).

(** One turn of the loop of [inventoryMatches]: an unlabelled object on
    either side is accepted, a wanted running service must be joinable. *)
Definition containerMatches (a b : transactionContainer) : bool :=
  sameObject a b
  && (bool_decide (tcGeneration a = tcGeneration b)
      || bool_decide (tcGeneration a = "") || bool_decide (tcGeneration b = ""))
  && (negb (bool_decide (tcState a = StateRunning)) || Joinable (tcState b)).

Definition sameBinding (a b : LogicalBinding) : bool :=
  (lbVNI a =? lbVNI b) && (lbVLAN a =? lbVLAN b) && bool_decide (lbPeer a = lbPeer b)
  && (lbMTU a =? lbMTU b) && (lbPort a =? lbPort b) && bool_decide (lbNodeA a = lbNodeA b)
  && bool_decide (lbNodeB a = lbNodeB b).
Definition sameTrunk (a b : PhysicalTrunk) : bool :=
  bool_decide (ptNodeA a = ptNodeA b) && bool_decide (ptNodeB a = ptNodeB b)
  && (ptMTU a =? ptMTU b) && (ptPort a =? ptPort b).

(** [for i := range want { ... want[i], got[i] ... }] after the lengths have
    been compared. *)
Fixpoint pairwise {A} (p : A -> A -> bool) (want got : list A) : bool :=
  match want, got with
  | a :: want, b :: got => p a b && pairwise p want got
  | _, _ => true
  end.

Definition overlayInventoryMatches (want got : transactionInventory) : result err unit :=
  let lw := invLogicalBindings want in let lg := invLogicalBindings got in
  if negb (Nat.eqb (length lw) (length lg)) then Err (EHost "logical bindings")
  else if negb (pairwise sameBinding lw lg) then Err (EHost "logical binding")
  else
    let tw := nonLegacyTrunks (invPhysicalTrunks want) in
    let tg := nonLegacyTrunks (invPhysicalTrunks got) in
    if negb (Nat.eqb (length tw) (length tg)) then Err (EHost "physical trunks")
    else if negb (pairwise sameTrunk tw tg) then Err (EHost "physical trunk")
    else Ok tt.

Definition inventoryMatches (want got : transactionInventory) : result err unit :=
  if negb (Nat.eqb (length (invContainers want)) (length (invContainers got)))
  then Err (EHost "containers")
  else if negb (pairwise containerMatches (invContainers want) (invContainers got))
  then Err (EHost "container")
  else if (overlayInventorySchema <=? invSchema want) && (overlayInventorySchema <=? invSchema got)
  then overlayInventoryMatches want got
  else if negb (Nat.eqb (length (invVNIs want)) (length (invVNIs got))) then Err (EHost "overlays")
  else if negb (pairwise Z.eqb (invVNIs want) (invVNIs got)) then Err (EHost "VNI")
  else Ok tt.

Definition inventoryMatchesCommitted (want got : transactionInventory) : result err unit :=
  match inventoryMatches want got with
  | Err e => Err e
  | Ok _ =>
      if pairwise (fun a b => bool_decide (tcGeneration a = tcGeneration b))
           (invContainers want) (invContainers got)
      then Ok tt else Err (EHost "object generation")
  end.

(** ** What a generation should have on a node *)

(** A map built by a loop over a slice: the last entry of a key wins. *)
Definition byDevice (l : list transactionContainer) : gmap string transactionContainer :=
  fold_left (fun m c => <[tcDeviceID c := c]> m) l ∅.

(** [expectedTransactionInventory]; [spec] is [deploy.SpecHash]. *)
Definition expectedTransactionInventory (spec : Device -> string) (top : Topology)
    (node generation : string) (now : Time) : transactionInventory :=
  mkInventory 0 (topHash top) generation
    (sortContainers (map (fun d =>
       mkTxContainer (devContainer d) (devID d) (spec d) generation StateRunning)
       (DevicesOnNode top node)))
    (sortInts (overlayVNIsOnNode top node)) [] [] now false [] [].

(** [expectedObjectGeneration]: the label an object of the committed
    generation must carry. *)
Definition expectedObjectGeneration (tx : applyTransaction) (deviceID name spec : string)
    (prestate observed : gmap string transactionContainer) : result err string :=
  let exact (m : gmap string transactionContainer) :=
    match m !! deviceID with
    | Some c => if bool_decide (tcName c = name) && bool_decide (tcSpec c = spec)
                then Some (tcGeneration c) else None
    | None => None
    end in
  if bool_decide (deviceID ∈ txTouched (txEvid tx)) then Ok (tGeneration tx)
  else if txTouchedKnown (txEvid tx) then
    match prestate !! deviceID with
    | None => Err (EHost "not in pre-state and not marked recreated")
    | Some before =>
        if negb (bool_decide (tcName before = name)) || negb (bool_decide (tcSpec before = spec))
        then Err (EHost "changed runtime identity without being marked recreated")
        else Ok (tcGeneration before)
    end
  else match exact observed with
       | Some g => Ok g
       | None => match exact prestate with Some g => Ok g | None => Ok (tGeneration tx) end
       end.

(** [preserveLegacyTrunkPort]: a live carrier on the standard port keeps it. *)
Definition VXLANPort : Z := 4789.
Definition legacyPort (t : PhysicalTrunk) (actual : PhysicalTrunk) : bool :=
  negb (ptLegacy actual) && bool_decide (ptNodeA actual = ptNodeA t)
  && bool_decide (ptNodeB actual = ptNodeB t) && (ptPort actual =? VXLANPort)
  && (ptMTU actual =? ptMTU t).
Definition keepPort (observed : list PhysicalTrunk) (t : PhysicalTrunk) : PhysicalTrunk :=
  if existsb (legacyPort t) observed
  then mkTrunk (ptBridge t) (ptVxlan t) (ptMTU t) VXLANPort (ptNodeA t) (ptNodeB t) (ptLegacy t)
  else t.
Definition keepBindingPort (observed expected : list PhysicalTrunk) (b : LogicalBinding)
    : LogicalBinding :=
  if existsb (fun t => bool_decide (lbNodeA b = ptNodeA t) && bool_decide (lbNodeB b = ptNodeB t)
                       && existsb (legacyPort t) observed) expected
  then mkBinding (lbVNI b) (lbVLAN b) (lbPeer b) (lbMTU b) VXLANPort (lbNodeA b) (lbNodeB b) true
  else b.
Definition preserveLegacyTrunkPort (expected : list LogicalBinding * list PhysicalTrunk)
    (observed : transactionInventory) : list LogicalBinding * list PhysicalTrunk :=
  if invSchema observed <? overlayInventorySchema then expected
  else (map (keepBindingPort (invPhysicalTrunks observed) expected.2) expected.1,
        map (keepPort (invPhysicalTrunks observed)) expected.2).

Section Expected.
(** [eng.FinalSpecHash] and [eng.ExpectedOverlayInventory]. *)
Variable finalSpec : Device -> result err string.
Variable expectedOverlays : result err (list LogicalBinding * list PhysicalTrunk).

Fixpoint expectedContainers (tx : applyTransaction)
    (prestate observed : gmap string transactionContainer) (devices : list Device)
    : result err (list transactionContainer) :=
  match devices with
  | [] => Ok []
  | d :: devices =>
      match finalSpec d with
      | Err e => Err e
      | Ok spec =>
          match expectedObjectGeneration tx (devID d) (devContainer d) spec prestate observed with
          | Err e => Err e
          | Ok generation =>
              match expectedContainers tx prestate observed devices with
              | Err e => Err e
              | Ok rest => Ok (mkTxContainer (devContainer d) (devID d) spec generation
                                 StateRunning :: rest)
              end
          end
      end
  end.

Definition expectedTransactionInventoryFinal (top : Topology) (node : string)
    (tx : applyTransaction) (observed : transactionInventory) (now : Time)
    : result err transactionInventory :=
  match expectedContainers tx (byDevice (invContainers (txPrestate tx)))
          (byDevice (invContainers observed)) (DevicesOnNode top node) with
  | Err e => Err e
  | Ok containers =>
      match expectedOverlays with
      | Err e => Err e
      | Ok overlays =>
          let '(bindings, trunks) := preserveLegacyTrunkPort overlays observed in
          Ok (mkInventory overlayInventorySchema (topHash top) (tGeneration tx)
                (sortContainers containers) (bindingVNIs bindings) bindings trunks now false [] [])
      end
  end.
End Expected.

(** ** The deliberate extras of a deployment that does not prune *)

(** The two errors of [mergePreservedInventory]; a missing VNI is retried. *)
Inductive mergeErr := MergeObject (device : string) | desiredVNIAbsentError (vni : Z).

Fixpoint mergeContainers (desired : gmap string transactionContainer) (seen : list string)
    (l : list transactionContainer) : result mergeErr (list transactionContainer * list string) :=
  match l with
  | [] => Ok ([], seen)
  | c :: l =>
      match desired !! tcDeviceID c with
      | None => match mergeContainers desired seen l with
                | Ok (rest, seen) => Ok (c :: rest, seen)
                | Err e => Err e
                end
      | Some want =>
          if bool_decide (tcDeviceID c ∈ seen) then Err (MergeObject (tcDeviceID c))
          else if negb (bool_decide (tcName c = tcName want))
                  || negb (bool_decide (tcSpec c = tcSpec want))
          then Err (MergeObject (tcDeviceID c))
          else match mergeContainers desired (tcDeviceID c :: seen) l with
               | Ok (rest, seen) => Ok (want :: rest, seen)
               | Err e => Err e
               end
      end
  end.

Definition mergePreservedInventory (expected actual : transactionInventory)
    : result mergeErr transactionInventory :=
  let desired := byDevice (invContainers expected) in
  match mergeContainers desired [] (invContainers actual) with
  | Err e => Err e
  | Ok (containers, seen) =>
      match List.find (fun id => negb (bool_decide (id ∈ seen)))
              (map fst (map_to_list desired)) with
      | Some id => Err (MergeObject id)
      | None =>
          match List.find (fun v => negb (bool_decide (v ∈ invVNIs actual))) (invVNIs expected) with
          | Some v => Err (desiredVNIAbsentError v)
          | None => Ok (mkInventory (invSchema actual) (invTopologyHash expected)
                          (invGeneration expected) containers (invVNIs actual)
                          (invLogicalBindings actual) (invPhysicalTrunks actual)
                          (invCapturedAt actual) (invStateSafe actual) (invSnapshots actual)
                          (invRuntimeSpecs actual))
          end
      end
  end.

(** ** Lineage *)

(** [validateInventoryLineage]: every labelled object and overlay of the
    inventory stems from a generation of this lab. *)
Definition allowedGeneration (s : Server) (lab cur generation : string) : bool :=
  bool_decide (generation = cur) || bool_decide (generation = gCommitted (genOf s lab))
  || bool_decide (generation ∈ gAncestors (genOf s lab)).
Definition validateInventoryLineage (lab : string) (inventory : transactionInventory)
    (cur : string) (s : Server) : result err unit :=
  if negb (forallb (fun c => bool_decide (tcGeneration c = "")
                             || allowedGeneration s lab cur (tcGeneration c))
             (invContainers inventory))
  then Err (EHost "unrelated object generation")
  else
    let lineage := lookup_or ∅ (OverlayLineage (coord s)) lab in
    if negb (forallb (fun v => let g := lookup_or "" lineage v in
                               bool_decide (g = "") || allowedGeneration s lab cur g)
               (invVNIs inventory))
    then Err (EHost "unrelated overlay generation")
    else Ok tt.

(** ** Facts *)

Lemma pairwise_Forall2 {A} (p : A -> A -> bool) l k :
  length l = length k -> pairwise p l k = true -> Forall2 (fun a b => p a b = true) l k.
Proof.
  revert k. induction l as [|a l IH]; intros [|b k]; simpl; try done.
  intros [= Hl] [Hp Hr]%andb_prop. constructor; auto.
Qed.

Lemma sameObject_true a b :
  sameObject a b = true ->
  tcName a = tcName b /\ tcDeviceID a = tcDeviceID b /\ tcSpec a = tcSpec b.
Proof.
  unfold sameObject. rewrite !andb_true_iff, !bool_decide_eq_true. intuition.
Qed.

(** What the committed comparison proves of every observed object. *)
Lemma inventoryMatchesCommitted_containers want got :
  inventoryMatchesCommitted want got = Ok tt ->
  Forall2 (fun a b => sameObject a b = true /\ tcGeneration a = tcGeneration b)
    (invContainers want) (invContainers got).
Proof.
  unfold inventoryMatchesCommitted, inventoryMatches.
  destruct (Nat.eqb _ _) eqn:Hl; simpl; [|done]. apply Nat.eqb_eq in Hl.
  destruct (pairwise containerMatches _ _) eqn:Hp; simpl; [|done].
  intros H. assert (pairwise (fun a b => bool_decide (tcGeneration a = tcGeneration b))
    (invContainers want) (invContainers got) = true) as Hg by (repeat case_match; congruence).
  apply (pairwise_Forall2 _ _ _ Hl) in Hp. apply (pairwise_Forall2 _ _ _ Hl) in Hg.
  apply Forall2_same_length_lookup. apply Forall2_same_length_lookup in Hp as [_ Hp].
  apply Forall2_same_length_lookup in Hg as [_ Hg]. split; [done|].
  intros i a b Ha Hb. specialize (Hp i a b Ha Hb). specialize (Hg i a b Ha Hb).
  unfold containerMatches in Hp. apply andb_prop in Hp as [[Hp _]%andb_prop _].
  by apply bool_decide_eq_true in Hg.
Qed.

Lemma byDevice_from l (m : gmap string transactionContainer) id c :
  fold_left (fun m c => <[tcDeviceID c := c]> m) l m !! id = Some c ->
  (c ∈ l /\ tcDeviceID c = id) \/ m !! id = Some c.
Proof.
  revert m. induction l as [|x l IH]; intros m; simpl; [auto|].
  intros [[? ?]|H]%IH; [left; split; [by right|done]|].
  destruct (decide (tcDeviceID x = id)) as [<-|]; simplify_map_eq; [|auto].
  left. split; [left|done].
Qed.

Lemma byDevice_elem l id c : byDevice l !! id = Some c -> c ∈ l /\ tcDeviceID c = id.
Proof. intros [?|?]%byDevice_from; [done|]. simplify_map_eq. Qed.

(** The provenance an object of a committed generation may have. *)
Definition recordedOrigin (tx : applyTransaction) (c : transactionContainer) : Prop :=
  (tcDeviceID c ∈ txTouched (txEvid tx) /\ tcGeneration c = tGeneration tx) \/
  exists before, before ∈ invContainers (txPrestate tx) /\ sameObject before c = true /\
    tcGeneration before = tcGeneration c.

Section Origins.
Context (finalSpec : Device -> result err string).
Context (expectedOverlays : result err (list LogicalBinding * list PhysicalTrunk)).

Lemma expectedContainers_origin tx observed devices l :
  txTouchedKnown (txEvid tx) = true ->
  expectedContainers finalSpec tx (byDevice (invContainers (txPrestate tx))) observed devices
    = Ok l -> Forall (recordedOrigin tx) l.
Proof.
  intros Hk. revert l. induction devices as [|d devices IH]; intros l; simpl.
  { intros [= <-]. constructor. }
  destruct (finalSpec d) as [spec|]; [|done].
  destruct (expectedObjectGeneration _ _ _ _ _ _) as [g|] eqn:Hg; [|done].
  destruct (expectedContainers _ _ _ _ _) as [rest|]; [|done].
  intros [= <-]. constructor; [|by apply IH].
  unfold expectedObjectGeneration in Hg. rewrite Hk in Hg.
  destruct (bool_decide (_ ∈ _)) eqn:Ht.
  { apply bool_decide_eq_true in Ht. injection Hg as <-. by left. }
  destruct (byDevice _ !! devID d) as [b|] eqn:Hb; [|done].
  apply byDevice_elem in Hb as [Hb Hid].
  destruct (bool_decide (tcName b = _)) eqn:Hn; [|done].
  destruct (bool_decide (tcSpec b = _)) eqn:Hs; [|done]. simpl in Hg. injection Hg as <-.
  right. exists b. split; [done|]. unfold sameObject. simpl. rewrite Hid, Hn, Hs.
  by rewrite bool_decide_true.
Qed.

Lemma expectedFinal_origin top node tx observed now inv :
  txTouchedKnown (txEvid tx) = true ->
  expectedTransactionInventoryFinal finalSpec expectedOverlays top node tx observed now = Ok inv ->
  Forall (recordedOrigin tx) (invContainers inv).
Proof.
  intros Hk. unfold expectedTransactionInventoryFinal.
  destruct (expectedContainers _ _ _ _ _) as [l|] eqn:Hl; [|done].
  destruct expectedOverlays as [ov|]; [|done].
  destruct (preserveLegacyTrunkPort ov observed) as [bs ts]. intros [= <-]. simpl.
  unfold sortContainers. rewrite (merge_sort_Permutation byName l).
  by apply (expectedContainers_origin _ _ _ _ Hk Hl).
Qed.
End Origins.

(** A merged inventory holds desired objects and, for devices the topology
    does not place here, the observed ones. *)
Lemma mergeContainers_from desired seen l out seen' :
  mergeContainers desired seen l = Ok (out, seen') ->
  Forall (fun o => (exists id, desired !! id = Some o) \/
                   (o ∈ l /\ desired !! tcDeviceID o = None)) out.
Proof.
  revert seen out seen'. induction l as [|c l IH]; intros seen out seen'; simpl.
  { intros [= <- <-]. constructor. }
  assert (forall out, Forall (fun o => (exists id, desired !! id = Some o) \/
            (o ∈ l /\ desired !! tcDeviceID o = None)) out ->
          Forall (fun o => (exists id, desired !! id = Some o) \/
            (o ∈ c :: l /\ desired !! tcDeviceID o = None)) out) as Hweak.
  { intros k Hk. apply (Forall_impl _ _ _ Hk). intros o [?|[? ?]]; [by left|right; split; [by right|done]]. }
  destruct (desired !! tcDeviceID c) as [want|] eqn:Hw.
  - case_match; [done|]. case_match; [done|].
    destruct (mergeContainers desired (tcDeviceID c :: seen) l) as [[rest s2]|] eqn:E; [|done].
    intros [= <- <-]. constructor; [left; eauto|]. by eapply Hweak, IH.
  - destruct (mergeContainers desired seen l) as [[rest s2]|] eqn:E; [|done].
    intros [= <- <-]. constructor; [right; split; [left|done]|]. by eapply Hweak, IH.
Qed.
