(* ===== verification/Handlers.v ===== *)
(** * The agent's deployment handlers

    Models the request handlers that drive a transaction through its phases:
    [internal/agent/apply_transaction.go] (prepare, commit, finalize, abort),
    the apply phase of [handleApply] in [internal/agent/agent.go],
    [internal/agent/solve_transition.go], and the recovery of
    [internal/agent/recovery.go] with the status it reports. Host work
    (containers, netlink, capture, peers) is an argument: a record per
    handler with the outcome of each piece of work in the order it is done.
    [clock n] is the handler's [n]-th reading of the clock. A handler runs to
    completion: the fence it checks keeps other mutations of the lab out. *)

From stdpp Require Import base gmap strings pretty list fin_maps.
From Stdlib Require Import ZArith Lia.
From S2P Require Import Prelude Model Coordination Transactions Ephemeral Restart Inventory.

Open Scope Z_scope.

(** ** Requests and responses *)

(** [ApplyRequest], the fields the agent reads. *)
Record ApplyRequest := mkApply {
  arPhase : string; arLab : string; arHold : string; arFence : Fence;
  arTargetNode : string; arAssignedDevices : list string; arAssignmentKnown : bool;
  arExpectedGeneration : string; arGeneration : string;
  arTopology : option Wire; arMode : string; arUngraded : Z;
  arEphemeral : bool; arEphemeralTTLSeconds : Z; arEphemeralOwner : string;
  arDryRun : bool; arPrune : bool; arOnlySteps : list string;
  arPeerUnderlay : gmap string string; arStateProofs : list StateProof
}.

(** The work counters of a response. *)
Record WorkCounts := mkCounts {
  wcSteps : Z; wcPlanned : Z; wcDevices : Z; wcLinks : Z; wcCrossLinkEndpoints : Z;
  wcWantCrossLinkEndpoints : Z; wcWantDevice : Z; wcWantLinks : Z; wcDurationMS : Z
}.
Definition noCounts : WorkCounts := mkCounts 0 0 0 0 0 0 0 0 0.

(** [ApplyResponse], without timings and semantic health. *)
Record ApplyResponse := mkApplyResponse {
  apNode : string; apGeneration : string; apPhase : string;
  apImageDigests : gmap string string; apCounts : WorkCounts;
  apFailures : gmap string (list string); apPruned : list string;
  apUnprovenNamespaces : gmap string string
}.
Definition phaseResponse (node generation phase : string) : ApplyResponse :=
  mkApplyResponse node generation phase ∅ noCounts ∅ [] ∅.

(** [addApplyFailure]. *)
Definition addApplyFailure (scope : string) (message : string) (r : ApplyResponse) : ApplyResponse :=
  mkApplyResponse (apNode r) (apGeneration r) (apPhase r) (apImageDigests r) (apCounts r)
    (<[scope := lookup_or [] (apFailures r) scope ++ [message]]> (apFailures r)) (apPruned r)
    (apUnprovenNamespaces r).
Definition withPruned (names : list string) (r : ApplyResponse) : ApplyResponse :=
  mkApplyResponse (apNode r) (apGeneration r) (apPhase r) (apImageDigests r) (apCounts r)
    (apFailures r) (apPruned r ++ names) (apUnprovenNamespaces r).
Definition withUnproven (u : gmap string string) (r : ApplyResponse) : ApplyResponse :=
  mkApplyResponse (apNode r) (apGeneration r) (apPhase r) (apImageDigests r) (apCounts r)
    (apFailures r) (apPruned r) u.

(** [if err := ...; err != nil { return err }] on the outcome of host work. *)
Definition host (outcome : option string) : M unit :=
  match outcome with Some what => fail (EHost what) | None => mret tt end.
Definition hostValue {A} (outcome : result string A) : M A :=
  match outcome with Ok a => mret a | Err what => fail (EHost what) end.
Definition failed (outcome : option string) : bool := bool_decide (is_Some outcome).

(** ** Placement witnesses *)

Definition validateApplyAssignment (req : ApplyRequest) (top : Topology) (node : string)
    : result err unit :=
  if negb (arAssignmentKnown req) then Ok tt
  else if negb (bool_decide (arTargetNode req = node)) then Err (ERequest "placement target")
  else if bool_decide (sortStrings (map devID (DevicesOnNode top node))
                       = sortStrings (arAssignedDevices req)) then Ok tt
  else Err (ERequest "assigned devices").

(** The placement a wire prescribes; a later entry of the same ID wins. *)
Definition wirePlacement (w : Wire) : gmap string string :=
  fold_left (fun m '(id, node) => <[id := node]> m) (wDevices w) ∅.

Definition validatePreparedPlacement (tx : applyTransaction) (top : Topology) : result err unit :=
  match txRequested (txReq tx) with
  | RawWire w =>
      let want := wirePlacement w in
      if negb (Nat.eqb (size want) (length (topDevices top))) then Err (ERequest "device count")
      else if forallb (fun d => bool_decide (want !! devID d = Some (devNode d))) (topDevices top)
      then Ok tt else Err (ERequest "moved device")
  | _ => Err (ERequest "prepared topology")
  end.

(** ** Modes *)

Definition canonicalMode (mode : string) : string :=
  if decide (mode = "") then ModePlatform else mode.

Definition modeToPersist (authoritative : bool) (mode : string) (ungradedAS : Z)
    (prevMode : string) (prevUngraded : Z) : string * Z :=
  if authoritative then (mode, ungradedAS) else (prevMode, prevUngraded).

(** The mode a rollback returns to. *)
Definition recoveredMode (tx : applyTransaction) (w : Wire) : string * Z :=
  let q := txReq tx in
  if negb (bool_decide (txPreviousMode q = "")) || negb (txPreviousUngraded q =? 0)
  then (txPreviousMode q, txPreviousUngraded q)
  else if negb (bool_decide (wMode w = "")) || negb (wUngraded w =? 0)
  then (wMode w, wUngraded w)
  else if negb (bool_decide (txMode q = "")) then (txMode q, txUngraded q)
  else (ModePlatform, 0).

(** ** Solve transitions *)

Definition solvePreservationRequired (desired previous : string) (prune : bool) : bool :=
  prune && bool_decide (desired = ModeSolve) && negb (bool_decide (canonicalMode previous = ModeSolve)).

Definition transactionWritesReference (tx : applyTransaction) : bool :=
  bool_decide (txMode (txReq tx) = ModeSolve).

(** [solveApplyRefusal]: [true] refuses. *)
Definition solveApplyRefusal (tx : applyTransaction) : bool :=
  solvePreservationRequired (txMode (txReq tx)) (txPreviousMode (txReq tx)) (txPrune (txReq tx))
  && bool_decide (txSolveTransition (txEvid tx) = None).

(** [solveRecaptureRefusal]: [true] refuses. *)
Definition solveRecaptureRefusal (lab generation : string) (fence : Fence) (s : Server) : bool :=
  match transactions s !! lab with
  | None => false
  | Some tx =>
      transactionWritesReference tx
      && negb (bool_decide (tGeneration tx = generation)
               && (txFenceGeneration tx =? fGeneration fence)
               && bool_decide (txPhase tx = transactionPrepared))
  end.

(** What a prune may remove unread: [None] is no restriction, the prune reads
    its own candidates. *)
Definition solvePruneEntitlement (tx : applyTransaction) (top : Topology) (node desired : string)
    : result err (option (list string)) :=
  let q := txReq tx in
  if negb (solvePreservationRequired desired (txPreviousMode q) (txPrune q)) then Ok None
  else match txSolveTransition (txEvid tx) with
       | None => Err (EHost "nothing was preserved")
       | Some r =>
           if negb (solvePrune r) then Err (EHost "preserved without prune")
           else if negb (bool_decide (solveLab r = topName top) && bool_decide (solveNode r = node))
           then Err (EHost "preserved for another lab or node")
           else if negb (bool_decide (solveGeneration r = tGeneration tx)
                         && (solveFence r =? txFenceGeneration tx))
           then Err (EHost "preserved by an earlier attempt")
           else if negb (bool_decide (solveMode r = txMode q) && (solveUngraded r =? txUngraded q))
           then Err (EHost "preserved for another mode")
           else if negb (bool_decide (solveTopology r = topHash top))
           then Err (EHost "preserved against another manifest")
           else Ok (Some (solvePreserved r))
       end.

(** ** What a commit probes *)

Definition semanticTouchedDevices (tx : applyTransaction) : list string :=
  let e := txEvid tx in sortStrings (dedup (txTouched e ++ txDirtyCapture e ++ txSemantic e)).

(** [semanticCommitDevices]: a change of mode touches every device here. *)
Definition semanticCommitDevices (top : Topology) (node : string) (tx : applyTransaction)
    (desired : string) : list string :=
  let q := txReq tx in
  let modeChanged := negb (bool_decide (canonicalMode (txPreviousMode q) = canonicalMode desired))
                     || negb (txPreviousUngraded q =? txUngraded q) in
  sortStrings (dedup (semanticTouchedDevices tx
    ++ if modeChanged then map devID (DevicesOnNode top node) else [])).

(** ** Shared guards *)

(** [ordinaryMaintenanceSuppression] and [recoveryMutationRefusal]: a lab
    with a transaction takes no ordinary mutation. [true] refuses. *)
Definition ordinaryMaintenanceSuppression (lab : string) (s : Server) : bool :=
  negb (bool_decide (lab = "")) && bool_decide (is_Some (transactions s !! lab)).
Definition recoveryMutationRefusal : string -> Server -> bool := ordinaryMaintenanceSuppression.

(** [durableBoundary]: a durability failure stops the work unless the lab's
    policy says otherwise. *)
Definition durableBoundary (top : Topology) (outcome : option string) : result err unit :=
  match outcome with
  | None => Ok tt
  | Some what => if FailClosedEnabled (topState top) then Err (EHost what) else Ok tt
  end.

Definition rehydrateWire (w : Wire) : result err Topology :=
  match wTopology w with Some top => Ok top | None => Err (ERequest "rehydrate") end.

Definition refuseIfHeld (lab token : string) (now : Time) : M unit :=
  held ← refuseMutationIfHeld lab token now;
  refuse held (ERequest "held").

Definition rawWire (raw : RawMessage) : result err Wire :=
  match raw with RawWire w => Ok w | _ => Err (EHost "unreadable topology") end.

(** [defer]: the cleanup runs on every way out. *)
Definition deferring {A} (m : M A) (cleanup : M unit) : M A := fun s =>
  let '(s1, r) := m s in let '(s2, _) := cleanup s1 in (s2, r).

(** [acquire], [release]. *)
Definition acquire (lab kind : string) : M unit := _ ← acquireOperation lab kind false; mret tt.
Definition release (lab : string) : M unit := modify (fun s => set_ops (delete lab) (opSequence s) s).

(** The lab a later phase names. *)
Definition requestLab (req : ApplyRequest) : string :=
  if decide (arLab req = "") then
    match arTopology req with Some w => wLab w | None => "" end
  else arLab req.

Definition zeroTxRequest : txRequest :=
  mkTxRequest "" "" RawEmpty RawEmpty "" "" 0 "" 0 ∅ false [] [].
Definition zeroTx : applyTransaction :=
  mkTx zeroTxRequest 0 zeroEvidence PhaseNone zeroInventory "" zeroRecovery false false.

(** ** Prepare *)

(** What the node observes of a lab it already hosts. *)
Record Observation := mkObservation {
  obDirtyCapture : list string; obSemanticDirty : list string;
  obUnproven : gmap string string
}.

(** The outcome of each piece of host work of a prepare; [None] is success. *)
Record PrepareEnv := mkPrepareEnv {
  peHealthy : option string;
  peQuorum : option string;
  peSnapshot : result string transactionInventory;
  peObserve : result string Observation;
  peCapture : option string;
  peManifest : result string (list transactionSnapshot);
  peContracts : result string (list string);
  pePreserve : result string (list string);
  peReplicate : option string
}.

Definition inv_with (hash : string) (safe : bool) (snapshots : list transactionSnapshot)
    (specs : list string) (i : transactionInventory) : transactionInventory :=
  mkInventory (invSchema i) hash (invGeneration i) (invContainers i) (invVNIs i)
    (invLogicalBindings i) (invPhysicalTrunks i) (invCapturedAt i) safe snapshots specs.

(** Whether the state this transaction may destroy is durable. *)
Definition prestateSafe (env : PrepareEnv) (s : Server) (previous : option Topology)
    (containers : list transactionContainer) (dirty : list string) : result err bool :=
  match containers with
  | [] => Ok true
  | _ =>
      match previous, store s with
      | Some prev, Some _ =>
          match dirty with
          | [] => Ok true
          | _ => match peCapture env with
                 | None => Ok true
                 | Some what => match durableBoundary prev (Some what) with
                                | Ok _ => Ok false
                                | Err e => Err e
                                end
                 end
          end
      | _, _ => Err (EHost "no previous topology or durable student state")
      end
  end.

(** [preserveSolveTransition]. *)
Definition preserveSolveTransition (env : PrepareEnv) (top : Topology) (tx : applyTransaction)
    (fence : Fence) (now : Time) : M solveTransition :=
  preserved ← hostValue (pePreserve env);
  s ← get;
  replicated ← (if bool_decide (is_Some (store s)) then
                  match peReplicate env with
                  | None => mret true
                  | Some what => lift (durableBoundary top (Some what));; mret false
                  end
                else mret true);
  mret (mkSolve (topName top) (srvNode s) (tGeneration tx) (fGeneration fence) (topHash top)
          (txMode (txReq tx)) (txUngraded (txReq tx)) (txPrune (txReq tx)) replicated preserved now).

Section Handlers.
Variable clock : nat -> Time.

(** The part of [handleApplyPrepare] before its guards on the lab. *)
Definition prepareRequest (env : PrepareEnv) (req : ApplyRequest)
    : M (string * Wire * Topology) :=
  mode ← lift (RequireTransactionMode (arMode req));
  w ← lift (match arTopology req with Some w => Ok w | None => Err (ERequest "no topology") end);
  wireMode ← lift (RequireTransactionMode (wMode w));
  refuse (negb (bool_decide (wireMode = mode)) || negb (wUngraded w =? arUngraded req))
    EModeMismatch;;
  refuse (negb (Bool.eqb (wEphemeral w) (arEphemeral req))) (ERequest "ephemeral");;
  top ← lift (rehydrateWire w);
  s ← get;
  lift (validateApplyAssignment req top (srvNode s));;
  refuse (negb (bool_decide (arLab req = "")) && negb (bool_decide (arLab req = topName top)))
    (ERequest "lab");;
  let storeBroken := match store s with None => true | Some _ => failed (peHealthy env) end in
  refuse ((1 <? spReplicationFactor (topState top)) && storeBroken
          && FailClosedEnabled (topState top)) (EHost "state store");;
  lift (durableBoundary top (peQuorum env));;
  mret (mode, w, top).

(** The inventory a prepared transaction records. *)
Definition prepareInventory (env : PrepareEnv) (top : Topology)
    : M (transactionInventory * Observation) :=
  prestate ← hostValue (peSnapshot env);
  s ← get;
  let previous := current s !! topName top in
  ob ← (match previous with
        | Some _ => hostValue (peObserve env)
        | None => mret (mkObservation [] [] ∅)
        end);
  let dirty := obDirtyCapture ob in
  safe ← lift (prestateSafe env s previous (invContainers prestate) dirty);
  snapshots ← (if bool_decide (is_Some previous) && safe && negb (bool_decide (dirty = []))
               then hostValue (peManifest env) else mret (invSnapshots prestate));
  specs ← (match previous with
           | Some _ => hostValue (peContracts env)
           | None => mret (invRuntimeSpecs prestate)
           end);
  let hash := match previous with Some p => topHash p | None => invTopologyHash prestate end in
  mret (inv_with hash safe snapshots specs prestate, ob).

Definition handleApplyPrepare (env : PrepareEnv) (req : ApplyRequest) : M ApplyResponse :=
  '(mode, w, top) ← prepareRequest env req;
  let lab := topName top in
  refuseIfHeld lab (arHold req) (clock 0);;
  requireMutationFence lab (arFence req) (clock 1) (clock 2);;
  s ← get;
  refuse (recoveryMutationRefusal lab s) (ERequest "unfinished transaction");;
  refuse (solveRecaptureRefusal lab (arGeneration req) (arFence req) s) (ERequest "recapture");;
  '(prestate, ob) ← prepareInventory env top;
  prepareGeneration lab (arFence req) (arExpectedGeneration req) (arGeneration req)
    (RawWire w) mode (arUngraded req) (arPeerUnderlay req) (arPrune req) (arOnlySteps req)
    (arStateProofs req) (Some prestate) (clock 3);;
  s ← get;
  let prepared := lookup_or zeroTx (transactions s) lab in
  when (solvePreservationRequired mode (txPreviousMode (txReq prepared)) (txPrune (txReq prepared)))
    (record ← preserveSolveTransition env top prepared (arFence req) (clock 4);
     recordGenerationSolveTransition lab (arFence req) (arGeneration req) (Some record) (clock 5));;
  recordGenerationDirtyCapture lab (arFence req) (arGeneration req) (obDirtyCapture ob) (clock 6);;
  recordGenerationSemantic lab (arFence req) (arGeneration req) (obSemanticDirty ob) (clock 7);;
  mret (withUnproven (obUnproven ob) (phaseResponse (srvNode s) (arGeneration req) "prepare")).

(** ** Apply *)

(** The host work of an apply: the failpoint, the plan's observation, the
    run (its failed scopes), the digests of the images it ran. *)
Record ApplyEnv := mkApplyEnv {
  aeFailpoint : option string;
  aeBuild : option string;
  aeDirtyCreate : list string;
  aeDirtyVNIs : list Z;
  aeExecute : result string (gmap string (list string));
  aeDigests : result string (gmap string string);
  aeCounts : WorkCounts;
  aeUnproven : gmap string string;
  aeDirtyCapture : list string;
  aeDirtySemantic : list string
}.

Definition needsRollback (lab : string) (req : ApplyRequest) (why : string) (now : Time) : M unit :=
  ignore (markTransactionPhase lab (arFence req) (arGeneration req) transactionRollbackNeeded why now).

(** The checks of a mutating apply against the prepared transaction. *)
Definition applyAdmission (req : ApplyRequest) (top : Topology) : M unit :=
  requestedMode ← lift (RequireTransactionMode (arMode req));
  if arDryRun req then mret tt else
  tx ← transactionForApply (topName top) (arFence req) (arGeneration req) (clock 5);
  lift (validatePreparedPlacement tx top);;
  persistedMode ← lift (RequireTransactionMode (txMode (txReq tx)));
  refuse (negb (bool_decide (requestedMode = persistedMode))
          || negb (arUngraded req =? txUngraded (txReq tx))) EModeMismatch;;
  refuse (solveApplyRefusal tx) (ERequest "nothing preserved");;
  when (negb (bool_decide (txPreviousMode (txReq tx) = "")))
    (_ ← lift (RequireTransactionMode (txPreviousMode (txReq tx))); mret tt).

(** The apply phase proper, under the operation lease. *)
Definition applyPhase (env : ApplyEnv) (req : ApplyRequest) (top : Topology) : M ApplyResponse :=
  let lab := topName top in
  let dry := arDryRun req in
  let giveUp {A} why now (e : err) : M A :=
    when (negb dry) (needsRollback lab req why now);; fail e in
  applyAdmission req top;;
  when (negb dry) (markGenerationApplying lab (arFence req) (arGeneration req) (clock 6);;
                   match aeFailpoint env with
                   | Some why => giveUp why (clock 7) (EHost why)
                   | None => mret tt
                   end);;
  host (aeBuild env);;
  when (negb dry) (recordGenerationTouched lab (arFence req) (arGeneration req)
                     (aeDirtyCreate env) (aeDirtyVNIs env) true (clock 8));;
  failures ← (match aeExecute env with
              | Ok failures => mret failures
              | Err why => giveUp why (clock 9) (EHost why)
              end);
  digests ← (if dry then mret ∅
             else match aeDigests env with
                  | Ok d => mret d
                  | Err why => needsRollback lab req why (clock 10);; fail (EHost why)
                  end);
  s ← get;
  let resp := mkApplyResponse (srvNode s) "" "" digests (aeCounts env) ∅ [] (aeUnproven env) in
  recordGenerationDirtyCapture lab (arFence req) (arGeneration req) (aeDirtyCapture env) (clock 11);;
  recordGenerationSemantic lab (arFence req) (arGeneration req) (aeDirtySemantic env) (clock 12);;
  if negb (bool_decide (failures = ∅)) then
    needsRollback lab req "forward apply failed" (clock 13);;
    mret (mkApplyResponse (srvNode s) "" "" digests (aeCounts env) failures [] (aeUnproven env))
  else
    markGenerationApplied lab (arFence req) (arGeneration req) (clock 14);;
    mret resp.

(** A dry run outside a transaction; the rest of the function's state changes
    are guarded by [!req.DryRun], which the earlier refusal has excluded. *)
Definition dryRun (env : ApplyEnv) (req : ApplyRequest) (top : Topology) : M ApplyResponse :=
  _ ← lift (RequireTransactionMode (arMode req));
  host (aeBuild env);;
  failures ← hostValue (aeExecute env);
  modify (fun s => set_lab_records (current s) (modes s) (ungraded s)
                     (<[topName top := arPeerUnderlay req]> (peers s)) s);;
  s ← get;
  mret (mkApplyResponse (srvNode s) "" "" ∅ (aeCounts env) failures [] (aeUnproven env)).

(** The branch of [handleApply] for the phases [""] and ["apply"]. *)
Definition handleApplyRun (env : ApplyEnv) (req : ApplyRequest) : M ApplyResponse :=
  w ← lift (match arTopology req with Some w => Ok w | None => Err (ERequest "no topology") end);
  top ← lift (rehydrateWire w);
  s ← get;
  lift (validateApplyAssignment req top (srvNode s));;
  let lab := topName top in
  let applying := bool_decide (arPhase req = "apply") in
  refuseIfHeld lab (arHold req) (clock 0);;
  when (negb (arDryRun req))
    (refuse (negb applying) (ERequest "not part of a transaction");;
     requireMutationFence lab (arFence req) (clock 1) (clock 2);;
     checkPreparedGeneration lab (arFence req) (arGeneration req) (clock 3);;
     requireOverlayReservations (Some top) (arFence req) (clock 4));;
  opID ← acquireOperation lab "apply" true;
  deferring (if applying then applyPhase env req top else dryRun env req top)
    (releaseOperation lab opID).

(** ** Commit *)

(** The host work of a commit, in its order. [ceSnapshot n] is the [n]-th
    observation of the node, [ceRepair n] the repair that follows it. *)
Record CommitEnv := mkCommitEnv {
  ceCapture : option string;
  ceSemantics : list string -> option string;
  ceReconcile : option string;
  ceStudentState : option string;
  cePruneFailpoint : option string;
  ceOrphans : option (list string) -> result string (list string);
  cePruneOverlays : result string (list string);
  ceContext : nat -> option string;
  ceSnapshot : nat -> result string transactionInventory;
  ceFinalSpec : Device -> result err string;
  ceOverlayInventory : result err (list LogicalBinding * list PhysicalTrunk);
  ceRepair : nat -> option string;
  ceCommitFailpoint : option string;
  ceUnproven : gmap string string
}.

(** [transactionEngine]: both modes must be known. *)
Definition transactionEngine (tx : applyTransaction) : result err (string * string) :=
  match RequireTransactionMode (txMode (txReq tx)) with
  | Err e => Err e
  | Ok mode => match RequireTransactionMode (txPreviousMode (txReq tx)) with
               | Err e => Err e
               | Ok previous => Ok (mode, previous)
               end
  end.

(** [retryMissingDesiredVNI]: only a missing overlay is repaired and looked at
    again. [more] is the number of attempts that remain, [n] the attempt. *)
Inductive verifyErr := MissingVNI (vni : Z) | Unverified (e : err).
Fixpoint retryFrom {A} (ctx : nat -> option string) (verify : nat -> result verifyErr A)
    (repair : nat -> option string) (more n : nat) : result err A :=
  match more with
  | O => Err (EHost "no attempt")
  | S more =>
      match ctx n with
      | Some why => Err (EHost why)
      | None =>
          match verify n with
          | Ok a => Ok a
          | Err (Unverified e) => Err e
          | Err (MissingVNI v) =>
              match more with
              | O => Err (ENotReserved v)
              | _ => match repair n with
                     | Some why => Err (EHost why)
                     | None => retryFrom ctx verify repair more (S n)
                     end
              end
          end
      end
  end.
Definition retryMissingDesiredVNI {A} (ctx : nat -> option string) (attempts : nat)
    (verify : nat -> result verifyErr A) (repair : nat -> option string) : result err A :=
  retryFrom ctx verify repair (Nat.max 1 attempts) 0.

(** One verification of the committed inventory: what was observed and what
    the commit records. *)
Definition verifyCommitInventory (env : CommitEnv) (top : Topology) (node : string)
    (tx : applyTransaction) (now : Time) (n : nat)
    : result verifyErr (transactionInventory * transactionInventory) :=
  match ceSnapshot env n with
  | Err why => Err (Unverified (EHost why))
  | Ok actual =>
      match expectedTransactionInventoryFinal (ceFinalSpec env) (ceOverlayInventory env) top node
              tx actual now with
      | Err e => Err (Unverified e)
      | Ok inventory =>
          if txPrune (txReq tx) then Ok (actual, inventory)
          else match mergePreservedInventory inventory actual with
               | Ok merged => Ok (actual, merged)
               | Err (desiredVNIAbsentError v) => Err (MissingVNI v)
               | Err (MergeObject _) => Err (Unverified (EHost "desired object"))
               end
      end
  end.

(** The wire a commit persists. *)
Definition committedWire (w : Wire) (tx : applyTransaction) (desired previous : string) : Wire :=
  let authoritative := bool_decide (txOnlySteps (txReq tx) = []) in
  let '(mode, u) := modeToPersist authoritative desired (txUngraded (txReq tx))
                      previous (txPreviousUngraded (txReq tx)) in
  mkWire (wLab w) (tGeneration tx) mode u (wEphemeral w) (wEphemeralTTLSeconds w)
    (wEphemeralOwner w) (wDevices w)
    (if bool_decide (txPeerUnderlay (txReq tx) = ∅) then None else Some (txPeerUnderlay (txReq tx)))
    (wTopology w).

(** Recording the topology, the mode and the lifetime, before any pruning. *)
Definition recordCommitted (top : Topology) (w : Wire) (tx : applyTransaction)
    (desired previous : string) : M unit :=
  let lab := topName top in
  let authoritative := bool_decide (txOnlySteps (txReq tx) = []) in
  putTopology lab (RawWire (committedWire w tx desired previous));;
  modify (fun s => set_lab_records (<[lab := top]> (current s))
    (if authoritative then <[lab := desired]> (modes s) else modes s)
    (if authoritative then <[lab := txUngraded (txReq tx)]> (ungraded s) else ungraded s)
    (<[lab := txPeerUnderlay (txReq tx)]> (peers s)) s);;
  when authoritative
    (if wEphemeral w
     then noteEphemeralLease lab (wEphemeralOwner w) (wEphemeralTTLSeconds w) (tGeneration tx) (clock 2)
     else forgetEphemeralLease lab).

(** The prune of a commit: [Err] is a failure it reports instead of
    committing at once. *)
Definition commitPrune (env : CommitEnv) (top : Topology) (node : string) (tx : applyTransaction)
    (desired : string) (resp : ApplyResponse) : bool * ApplyResponse :=
  match solvePruneEntitlement tx top node desired with
  | Err _ => (false, addApplyFailure "prune" "not entitled" resp)
  | Ok preserved =>
      let resp := match ceOrphans env preserved with
                  | Ok gone => withPruned gone resp
                  | Err why => addApplyFailure "prune" why resp
                  end in
      (true, match cePruneOverlays env with
             | Ok gone => withPruned gone resp
             | Err why => addApplyFailure "prune" why resp
             end)
  end.

(** The rest of a commit, once everything that may be pruned is gone. *)
Definition sealCommit (env : CommitEnv) (top : Topology) (fence : Fence) (tx : applyTransaction)
    (resp : ApplyResponse) : M ApplyResponse :=
  let lab := topName top in
  s ← get;
  let vnis := overlayVNIsOnNode top (srvNode s) in
  promoted ← (if decide (vnis = []) then mret true
              else attempt (promoteOverlayReservations lab fence vnis (clock 3)));
  let resp := if (promoted : bool) then resp else addApplyFailure "overlay" "promote" resp in
  if negb (bool_decide (apFailures resp = ∅)) then mret resp else
  '(actual, inventory) ← lift (retryMissingDesiredVNI (ceContext env) 3
      (verifyCommitInventory env top (srvNode s) tx (clock 4)) (ceRepair env));
  inspect (validateInventoryLineage lab inventory (tGeneration tx));;
  lift (inventoryMatchesCommitted inventory actual);;
  host (ceCommitFailpoint env);;
  finishCommittedGeneration lab fence (tGeneration tx) (Some inventory) (clock 5);;
  mret (if bool_decide (ceUnproven env = ∅) then resp else withUnproven (ceUnproven env) resp).

Definition commitAppliedTopology (env : CommitEnv) (top : Topology) (w : Wire) (fence : Fence)
    (tx : applyTransaction) : M ApplyResponse :=
  let q := txReq tx in
  desired ← lift (RequireTransactionMode (txMode q));
  previous ← lift (RequireTransactionMode (txPreviousMode q));
  recordCommitted top w tx desired previous;;
  s ← get;
  let resp := phaseResponse (srvNode s) (tGeneration tx) "commit" in
  _ ← lift (transactionEngine tx);
  when (bool_decide (is_Some (store s))) (lift (durableBoundary top (ceCapture env)));;
  let touched := semanticCommitDevices top (srvNode s) tx desired in
  when (negb (rForwardAcknowledged (txRecov tx)) && negb (bool_decide (touched = [])))
    (host (ceSemantics env touched));;
  host (ceReconcile env);;
  host (ceStudentState env);;
  if txPrune q then
    host (cePruneFailpoint env);;
    match commitPrune env top (srvNode s) tx desired resp with
    | (false, resp) => mret resp
    | (true, resp) => sealCommit env top fence tx resp
    end
  else sealCommit env top fence tx resp.

Definition handleApplyCommit (env : CommitEnv) (req : ApplyRequest) : M ApplyResponse :=
  let lab := requestLab req in
  refuse (bool_decide (lab = "")) ELabRequired;;
  refuseIfHeld lab (arHold req) (clock 0);;
  tx ← transactionForCommit lab (arFence req) (arGeneration req) (clock 1);
  w ← lift (rawWire (txRequested (txReq tx)));
  top ← lift (rehydrateWire w);
  s ← get;
  lift (validateApplyAssignment req top (srvNode s));;
  refuse (negb (bool_decide (topName top = lab))) (ERequest "another lab");;
  acquire lab "commit";;
  deferring
    (if txCommitted tx then mret (phaseResponse (srvNode s) (tGeneration tx) "commit")
     else
       resp ← try_catch (commitAppliedTopology env top w (arFence req) tx)
                (fun e => needsRollback lab req "commit failed" (clock 6);; fail e);
       when (negb (bool_decide (apFailures resp = ∅)))
         (needsRollback lab req "commit reported failures" (clock 7));;
       mret resp)
    (release lab).

(** ** Finalize *)

Definition handleApplyFinalize (req : ApplyRequest) : M ApplyResponse :=
  let lab := requestLab req in
  refuse (bool_decide (lab = "")) ELabRequired;;
  finalizeCommittedGeneration lab (arFence req) (arGeneration req) (clock 0);;
  s ← get;
  mret (phaseResponse (srvNode s) (arGeneration req) "finalize").

End Handlers.
