(* ===== verification/Recovery.v ===== *)
(** * Recovering an interrupted transaction

    Models the rest of [internal/agent/recovery.go]: the budgets and the
    fenced, heartbeating phases of a recovery, the status a node reports,
    rolling back to the recorded pre-state or forward to the recorded
    request, and the automatic resumption after a restart; with the rollback
    and abort of [internal/agent/apply_transaction.go] and
    [acquireRecoveryOperation] of [internal/agent/agent.go]. Host work is an
    argument, as in the handlers. *)

From stdpp Require Import base gmap strings pretty list fin_maps.
From Stdlib Require Import ZArith Lia.
From S2P Require Import Prelude Model Coordination Transactions Ephemeral Restart Inventory.
From S2P Require Import Handlers.

Open Scope Z_scope.

(** ** Budgets *)

Definition minute : Duration := 60 * second.
Definition defaultRecoveryPhaseTimeout : Duration := 90 * second.
Definition defaultRecoveryArtifactTimeout : Duration := 4 * minute.
Definition recoveryPhaseBaseBudget : Duration := 45 * second.
Definition recoveryRollbackItemBudget : Duration := 12 * second.
Definition recoveryDestroyItemBudget : Duration := 12 * second.
Definition recoveryVerifyItemBudget : Duration := 4 * second.
Definition minimumRecoveryTotalTimeout : Duration := 30 * minute.
Definition MaximumRecoveryTotalTimeout : Duration := 120 * minute.
Definition recoveryTotalSlack : Duration := minute.
Definition forwardRecoverySLAMax : Duration := 9 * minute + 30 * second.

(** The server's configured timeouts (0 when unset), its worker count, and
    which devices have an FRR control sidecar. *)
Record RecoveryConfig := mkRecoveryConfig {
  rcPhaseTimeout : Duration; rcTotalTimeout : Duration; rcMaxTimeout : Duration;
  rcWorkers : Z; rcUsesFRRControl : Device -> bool
}.

Section Budgets.
Variable cfg : RecoveryConfig.

Definition recoveryPhaseLimit : Duration :=
  if 0 <? rcPhaseTimeout cfg then rcPhaseTimeout cfg else defaultRecoveryPhaseTimeout.
Definition recoveryArtifactLimit : Duration :=
  if 0 <? rcPhaseTimeout cfg then rcPhaseTimeout cfg else defaultRecoveryArtifactTimeout.

Definition recoveryWorkBudget (items workers : Z) (perItem : Duration) : Duration :=
  let workers := if workers <? 1 then 1 else workers in
  if items <? 1 then defaultRecoveryPhaseTimeout
  else Z.max (recoveryPhaseBaseBudget + (items + workers - 1) ÷ workers * perItem)
         defaultRecoveryPhaseTimeout.

(** The local objects a recovery may have to touch. *)
Definition recoveryWorkItems (node : string) (tx : applyTransaction) : Z :=
  let count raw := match raw with
                   | RawWire w => match wTopology w with
                                  | Some top => fold_left (fun n d =>
                                      n + 1 + (if rcUsesFRRControl cfg d then 1 else 0))
                                      (DevicesOnNode top node) 0
                                  | None => 0
                                  end
                   | _ => 0
                   end in
  let p := txPrestate tx in
  fold_left Z.max [Z.of_nat (length (invContainers p)); count (txRequested (txReq tx));
                   count (txPrevious (txReq tx))] (Z.of_nat (length (invRuntimeSpecs p))).

Definition recoveryRollbackBudget (node : string) (tx : applyTransaction) : Duration :=
  if 0 <? rcPhaseTimeout cfg then rcPhaseTimeout cfg
  else recoveryWorkBudget (recoveryWorkItems node tx) (rcWorkers cfg)
         (match txPrevious (txReq tx) with
          | RawEmpty => recoveryDestroyItemBudget
          | _ => recoveryRollbackItemBudget
          end).
Definition recoveryVerifyBudget (node : string) (tx : applyTransaction) : Duration :=
  if 0 <? rcPhaseTimeout cfg then rcPhaseTimeout cfg
  else recoveryWorkBudget (recoveryWorkItems node tx) (rcWorkers cfg) recoveryVerifyItemBudget.
Definition recoveryRequiredPhaseBudget (node : string) (tx : applyTransaction) : Duration :=
  recoveryTotalSlack + recoveryRollbackBudget node tx + 2 * recoveryArtifactLimit
  + 4 * recoveryVerifyBudget node tx + 2 * recoveryPhaseLimit.

(** [recoveryTotalLimit(tx...)]. *)
Definition recoveryTotalLimit (node : string) (tx : option applyTransaction) : Duration :=
  if 0 <? rcTotalTimeout cfg then rcTotalTimeout cfg else
  let limit := match tx with
               | Some tx => Z.max (recoveryRequiredPhaseBudget node tx) minimumRecoveryTotalTimeout
               | None => minimumRecoveryTotalTimeout
               end in
  let cap := if rcMaxTimeout cfg <=? 0 then MaximumRecoveryTotalTimeout else rcMaxTimeout cfg in
  let cap := Z.min (Z.max cap minimumRecoveryTotalTimeout) MaximumRecoveryTotalTimeout in
  Z.min limit cap.

Definition recoveryRollbackLimit (node : string) (tx : applyTransaction) : Duration :=
  Z.min (recoveryRollbackBudget node tx) (recoveryTotalLimit node (Some tx)).
Definition recoveryVerifyLimit (node : string) (tx : applyTransaction) : Duration :=
  Z.min (recoveryVerifyBudget node tx) (recoveryTotalLimit node (Some tx)).

Definition forwardRecoveryBudget (devices workers : Z) : Duration :=
  let workers := if workers <? 1 then 1 else workers in
  Z.min (Z.max (45 * second + (devices + workers - 1) ÷ workers * 12 * second) (6 * minute))
    forwardRecoverySLAMax.
Definition forwardRecoveryLimit (node : string) (tx : applyTransaction) : Duration :=
  let devices := match txRequested (txReq tx) with
                 | RawWire w => match wTopology w with
                                | Some top => Z.of_nat (length (DevicesOnNode top node))
                                | None => 0
                                end
                 | _ => 0
                 end in
  forwardRecoveryBudget devices (rcWorkers cfg).
End Budgets.

(** ** Progress of a recovery *)

Definition rec_with_progress (progress deadline : Time) (target : string) (r : txRecovery)
    : txRecovery :=
  mkTxRecovery (rAttempts r) (rLast r) (rNext r) (rOwner r) (rStrategy r) (rStarted r) progress
    deadline (rTotal r) target (rForwardAcknowledged r) (rForwardPhase r)
    (rForwardDataLossScope r).

(** [if !tx.RecoveryProgress.After(now) { tx.RecoveryProgress = now }]. *)
Definition advanceProgress (progress now : Time) : Time := if before now progress then progress else now.

Definition recordRecoveryProgress (lab : string) (fence : Fence) (generation target : string)
    (deadline : Time) (force : bool) (now : Time) : M unit :=
  checkFence lab fence now;;
  tx ← generationTransaction lab generation ENoRecoveryTransaction;
  let r := txRecov tx in
  let persist := force || isZero (rProgress r)
    || (recoveryProgressPersistEvery <=? now - rProgress r) || isZero (rDeadline r)
    || before (rDeadline r + recoveryProgressPersistEvery) deadline in
  putTx lab (tx_with_recovery (rec_with_progress (advanceProgress (rProgress r) now) deadline target r) tx);;
  modify (setOpDeadline lab deadline);;
  when persist saveCoordinationLocked.

Definition recoveryProgressDeadline (now hardDeadline : Time) (stall : Duration) : Time :=
  let deadline := now + stall in
  if negb (isZero hardDeadline) && before hardDeadline deadline then hardDeadline else deadline.

Definition heartbeatRecoveryProgress (phaseLimit : Duration) (lab : string) (fence : Fence)
    (generation : string) (hardDeadline : Time) (now : Time) : M unit :=
  checkFence lab fence now;;
  s ← get;
  match transactions s !! lab with
  | None => mret tt
  | Some tx =>
      refuse (negb (bool_decide (tGeneration tx = generation))) ENoRecoveryTransaction;;
      let r := txRecov tx in
      let deadline := recoveryProgressDeadline now hardDeadline phaseLimit in
      putTx lab (tx_with_recovery (rec_with_progress (advanceProgress (rProgress r) now) deadline
                                     (rTarget r) r) tx);;
      modify (setOpDeadline lab deadline);;
      saveCoordinationLocked
  end.

Definition boundedRecoveryPhaseLimit (lab generation : string) (limit : Duration) (now : Time)
    (s : Server) : Duration :=
  match transactions s !! lab with
  | Some tx =>
      if negb (bool_decide (tGeneration tx = generation)) || isZero (rTotal (txRecov tx))
      then limit
      else let remaining := rTotal (txRecov tx) - now in
           if remaining <=? 0 then 0
           else if (limit <=? 0) || (remaining <? limit) then remaining else limit
  | None => limit
  end.

(** The clock of one phase: its own readings, and the heartbeats that fire
    while the work runs, before and after the work's last step. *)
Record PhaseRun := mkPhaseRun {
  prNow : nat -> Time; prBefore : list Time; prAfter : list Time
}.

Fixpoint heartbeats (phaseLimit : Duration) (lab : string) (fence : Fence) (generation : string)
    (hardDeadline : Time) (ticks : list Time) : M unit :=
  match ticks with
  | [] => mret tt
  | now :: ticks =>
      heartbeatRecoveryProgress phaseLimit lab fence generation hardDeadline now;;
      heartbeats phaseLimit lab fence generation hardDeadline ticks
  end.

(** The result of an action as a value. *)
Definition observe {S E A} (m : SE S E A) : SE S E (result E A) := fun s =>
  let '(s1, r) := m s in (s1, Ok r).

(** [runRecoveryPhaseLimit]: a heartbeat that fails stops the heartbeats and
    fails the phase, whatever the work returned. *)
Definition runRecoveryPhaseLimit (phaseLimit : Duration) (run : PhaseRun) (lab : string)
    (fence : Fence) (generation target : string) (limit : Duration) (fn : M unit) : M unit :=
  s ← get;
  let limit := boundedRecoveryPhaseLimit lab generation limit (prNow run 0) s in
  refuse (limit <=? 0) (EHost "deadline exceeded");;
  let hard := prNow run 1 + limit in
  let deadline := recoveryProgressDeadline (prNow run 2) hard phaseLimit in
  recordRecoveryProgress lab fence generation target deadline false (prNow run 3);;
  beating ← attempt (heartbeats phaseLimit lab fence generation hard (prBefore run));
  r ← observe fn;
  beating ← (if (beating : bool)
             then attempt (heartbeats phaseLimit lab fence generation hard (prAfter run))
             else mret false);
  refuse (negb beating) (EHost "persist recovery heartbeat");;
  lift r.

(** [runRecoveryLongPhase]. *)
Definition runRecoveryLongPhase (phaseLimit totalLimit : Duration) (run : PhaseRun) (lab : string)
    (fence : Fence) (generation target : string) (fn : M unit) : M unit :=
  s ← get;
  let deadline := match transactions s !! lab with
                  | Some tx => if isZero (rTotal (txRecov tx)) then prNow run 4 + totalLimit
                               else rTotal (txRecov tx)
                  | None => prNow run 4 + totalLimit
                  end in
  runRecoveryPhaseLimit phaseLimit run lab fence generation target (deadline - prNow run 5) fn.

Definition failRecovery (lab : string) (fence : Fence) (generation : string) (now : Time) : M unit :=
  ignore (markTransactionPhase lab fence generation transactionRollbackFailed "recovery failed" now).

Definition markForwardPhase (lab : string) (fence : Fence) (generation phase : string)
    (now now' : Time) : M unit :=
  checkFence lab fence now;;
  tx ← generationTransaction lab generation ENoRecoveryTransaction;
  let r := txRecov tx in
  putTx lab (tx_with_recovery
    (mkTxRecovery (rAttempts r) (rLast r) (rNext r) (rOwner r) (rStrategy r) (rStarted r) now'
       (rDeadline r) (rTotal r) ("forward: " +:+ phase) (rForwardAcknowledged r) phase
       (rForwardDataLossScope r)) tx);;
  saveCoordinationLocked.

Definition recordForwardDataLoss (lab : string) (fence : Fence) (generation detail : string)
    (now : Time) : M unit :=
  checkFence lab fence now;;
  tx ← generationTransaction lab generation ENoRecoveryTransaction;
  let r := txRecov tx in
  let loss := if decide (detail = "") then rForwardDataLossScope r
              else sortStrings (rForwardDataLossScope r ++ [detail]) in
  putTx lab (tx_with_recovery
    (mkTxRecovery (rAttempts r) (rLast r) (rNext r) (rOwner r) (rStrategy r) (rStarted r)
       (rProgress r) (rDeadline r) (rTotal r) (rTarget r) (rForwardAcknowledged r)
       (rForwardPhase r) loss) tx);;
  saveCoordinationLocked.

(** [acquireRecoveryOperation]: [yields] says whether the operation in the
    way unwinds before the recovery's context ends. *)
Definition acquireRecoveryOperation (lab : string) (deadline : Time) (takeover yields : bool)
    (now : Time) : M Z :=
  refuse (bool_decide (lab = "")) EMutationNeedsLab;;
  s ← get;
  let publish : M Z :=
    let id := wrap64 (opSequence s + 1) in
    modify (set_ops <[lab := mkOp id "recovery" deadline true]> id);;
    mret id in
  match ops s !! lab with
  | None => publish
  | Some held =>
      let stale := bool_decide (oKind held = "recovery") && negb (isZero (oDeadline held))
                   && negb (before now (oDeadline held)) in
      refuse (negb (oCancellable held
                    && (bool_decide (oKind held = "reconcile") || bool_decide (oKind held = "apply")
                        || (stale && takeover)))) (EBusy (oKind held));;
      refuse (negb yields) (EBusy (oKind held));;
      publish
  end.

(** ** The status a node reports *)

(** [RecoveryStatus]; the counts of bindings and trunks are left out. *)
Record RecoveryStatus := mkStatus {
  rvLab : string; rvPhase : string; rvGeneration : string; rvPreviousGeneration : string;
  rvMode : string; rvUngraded : Z; rvPreviousMode : string; rvPreviousUngraded : Z;
  rvOwner : string; rvStrategy : string; rvStartedAt : Time; rvLastProgressAt : Time;
  rvDeadline : Time; rvTotalDeadline : Time; rvLeaseExpiresAt : Time; rvCurrentTarget : string;
  rvTakeoverAllowed : bool; rvCommittedPending : bool; rvForwardAcknowledged : bool;
  rvForwardPhase : string; rvDataLossScope : list string;
  rvExpectedContainers : Z; rvObservedContainers : Z; rvExpectedVNIs : Z; rvObservedVNIs : Z;
  rvConsistent : bool; rvAttempts : Z; rvError : string; rvAllowedStrategies : list string
}.

(** The text of a phase. *)
Definition phaseString (p : transactionPhase) : string :=
  match p with
  | PhaseNone => "" | transactionPrepared => "prepared" | transactionApplying => "applying"
  | transactionApplied => "applied" | transactionRollbackNeeded => "rollback_needed"
  | transactionRecovering => "recovering" | transactionRollbackFailed => "rollback_failed"
  | transactionCommitted => "committed"
  end.

Definition idleStatus (lab phase : string) : RecoveryStatus :=
  mkStatus lab phase "" "" "" 0 "" 0 "" "" 0 0 0 0 0 "" false false false "" [] 0 0 0 0 false 0 "" [].

(** The part of a status that is read from the transaction. *)
Definition transactionStatus (lab : string) (tx : applyTransaction) (lease : option clusterLease)
    (now : Time) : RecoveryStatus :=
  let q := txReq tx in let r := txRecov tx in
  let until := match lease with Some l => lUntil l | None => 0 end in
  let owner := if negb (isZero until) && bool_decide (rOwner r = "")
               then match lease with Some l => lHolder l | None => "" end else rOwner r in
  let recovering := bool_decide (txPhase tx = transactionRecovering) in
  mkStatus lab (phaseString (txPhase tx)) (tGeneration tx) (tPreviousGen tx)
    (txMode q) (txUngraded q) (txPreviousMode q) (txPreviousUngraded q) owner (rStrategy r)
    (rStarted r) (rProgress r) (rDeadline r) (rTotal r) (if isZero until then 0 else until)
    (rTarget r) (recovering && negb (isZero (rDeadline r)) && negb (before now (rDeadline r)))
    (txCommitted tx) (rForwardAcknowledged r) (rForwardPhase r) (rForwardDataLossScope r)
    0 0 0 0 false (rAttempts r) (txFailure tx)
    (if txCommitted tx then ["rollback"] else ["rollback"; "forward"]).

(** The inventory a lab with a transaction is compared with. *)
Definition wantedInventory (tx : applyTransaction) (committed : option transactionInventory)
    : transactionInventory :=
  if bool_decide (txPhase tx = transactionRollbackNeeded)
     || bool_decide (txPhase tx = transactionRecovering)
     || bool_decide (txPhase tx = transactionRollbackFailed)
  then txPrestate tx
  else default zeroInventory committed.

Definition stat_with_counts (expC obsC expV obsV : Z) (consistent : bool) (error : string)
    (st : RecoveryStatus) : RecoveryStatus :=
  mkStatus (rvLab st) (rvPhase st) (rvGeneration st) (rvPreviousGeneration st) (rvMode st)
    (rvUngraded st) (rvPreviousMode st) (rvPreviousUngraded st) (rvOwner st) (rvStrategy st)
    (rvStartedAt st) (rvLastProgressAt st) (rvDeadline st) (rvTotalDeadline st)
    (rvLeaseExpiresAt st) (rvCurrentTarget st) (rvTakeoverAllowed st) (rvCommittedPending st)
    (rvForwardAcknowledged st) (rvForwardPhase st) (rvDataLossScope st) expC obsC expV obsV
    consistent (rvAttempts st) error (rvAllowedStrategies st).

(** The comparison that ends a status: [settled] is what [Consistent] becomes
    when the inventories agree. *)
Definition observeStatus (snapshot : result string transactionInventory)
    (migration : option string) (want : transactionInventory) (settled : bool)
    (st : RecoveryStatus) : RecoveryStatus :=
  let len {A} (l : list A) := Z.of_nat (length l) in
  let expC := len (invContainers want) in let expV := len (invVNIs want) in
  let keepError e := if decide (rvError st = "") then e else rvError st in
  match snapshot with
  | Err why => stat_with_counts expC 0 expV 0 false (keepError why) st
  | Ok got =>
      let report := stat_with_counts expC (len (invContainers got)) expV (len (invVNIs got)) in
      match migration with
      | Some why => report false ("migrate legacy committed overlay inventory: " +:+ why) st
      | None => match inventoryMatches want got with
                | Err _ => report false (keepError "inventory drift") st
                | Ok _ => report settled (rvError st) st
                end
      end
  end.

(** The host work of a status. *)
Record StatusEnv := mkStatusEnv {
  seNow : Time;
  seSnapshot : result string transactionInventory;
  seOverlays : result string (list LogicalBinding * list PhysicalTrunk);
  seMigrateSnapshot : result string transactionInventory;
  seRuntime : bool;
  seMigrateRepair : option string;
  seMigrateSnapshot2 : result string transactionInventory
}.

Definition canMigrateLegacyCommitted (lab : string) (s : Server) : bool :=
  bool_decide (is_Some (current s !! lab))
  || match store s with
     | Some st => bool_decide (is_Some (stTopology st !! lab))
     | None => false
     end.

(** [committedTopologyForInventory] fails without a readable topology. *)
Definition committedTopologyForInventory (lab : string) (s : Server) : result err Topology :=
  match current s !! lab with
  | Some top => Ok top
  | None => match persistedTopology s lab with
            | Some top => Ok top
            | None => Err (EHost "committed topology")
            end
  end.

Definition upgradeInventory (overlays : list LogicalBinding * list PhysicalTrunk)
    (i : transactionInventory) : transactionInventory :=
  mkInventory overlayInventorySchema (invTopologyHash i) (invGeneration i) (invContainers i)
    (bindingVNIs overlays.1) overlays.1 overlays.2 (invCapturedAt i) (invStateSafe i)
    (invSnapshots i) (invRuntimeSpecs i).

(** The last step of [migrateLegacyCommittedInventory]: the upgraded record
    replaces the old one and settles the committed transaction it belongs to;
    a lost write undoes both. *)
Definition storeUpgraded (lab : string) (upgraded : transactionInventory) : M transactionInventory :=
  s ← get;
  match Inventories (coord s) !! lab with
  | None => fail (EHost "disappeared during migration")
  | Some cur =>
      if overlayInventorySchema <=? invSchema cur then mret cur else
      let g := genOf s lab in
      let settles := match transactions s !! lab with
                     | Some tx => txCommitted tx && bool_decide (tGeneration tx = invGeneration upgraded)
                     | None => false
                     end in
      let unprepare := settles && bool_decide (gPrepared g = invGeneration upgraded) in
      modify (set_coord (fun c =>
        let c := set_Inventories <[lab := upgraded]> c in
        let c := if settles then set_Transactions (delete lab) c else c in
        if unprepare then set_Generations <[lab := mkGen (gCommitted g) "" (gAncestors g)]> c
        else c));;
      try_catch saveCoordinationLocked (fun e =>
        modify (set_coord (fun c => set_Generations <[lab := g]>
          (set_Transactions (restoreEntry lab (transactions s !! lab))
            (set_Inventories <[lab := cur]> c))));;
        fail e);;
      mret upgraded
  end.

Definition migrateLegacyCommittedInventory (env : StatusEnv) (lab : string)
    (committed : transactionInventory) : M transactionInventory :=
  _ ← inspect (committedTopologyForInventory lab);
  overlays ← hostValue (seOverlays env);
  got ← hostValue (seMigrateSnapshot env);
  refuse (invSchema got <? overlayInventorySchema) (EHost "schema");;
  let upgraded := upgradeInventory overlays committed in
  match inventoryMatches upgraded got with
  | Ok _ => storeUpgraded lab upgraded
  | Err e =>
      refuse (negb (seRuntime env)) e;;
      host (seMigrateRepair env);;
      got ← hostValue (seMigrateSnapshot2 env);
      lift (inventoryMatches upgraded got);;
      storeUpgraded lab upgraded
  end.

(** [transactionInventoryStatus] never fails. The transaction is read before
    the migration, as in the source. *)
Definition transactionInventoryStatus (env : StatusEnv) (lab : string) : M RecoveryStatus :=
  s ← get;
  let tx := transactions s !! lab in
  let committed := Inventories (coord s) !! lab in
  migrated ← (match committed with
              | Some c =>
                  if (invSchema c <? overlayInventorySchema) && canMigrateLegacyCommitted lab s then
                    r ← observe (migrateLegacyCommittedInventory env lab c);
                    mret (match r with
                          | Ok c' => (Some c', None)
                          | Err _ => (Some c, Some "migration")
                          end)
                  else mret (Some c, None)
              | None => mret (None, None)
              end);
  let '(committed, migration) := migrated in
  s1 ← get;
  mret (match tx, committed with
        | Some tx, _ =>
            observeStatus (seSnapshot env) migration (wantedInventory tx committed)
              (bool_decide (txPhase tx = transactionCommitted))
              (transactionStatus lab tx (mutations s !! lab) (seNow env))
        | None, Some c =>
            let generation := gCommitted (genOf s lab) in
            let generation := if decide (generation = "") then invGeneration c else generation in
            observeStatus (seSnapshot env) migration c true
              (mkStatus lab "committed" generation "" (lookup_or "" (modes s1) lab)
                 (lookup_or 0 (ungraded s1) lab) "" 0 "" "" 0 0 0 0 0 "" false false false "" []
                 0 0 0 0 false 0 "" [])
        | None, None => idleStatus lab "idle"
        end).

(** ** Rolling back *)

(** The host work of a rollback: removing a lab that did not exist before,
    or rebuilding the previous one, from its plan or from exact contracts. *)
Record RollbackEnv := mkRollbackEnv {
  rbDestroy : option string;
  rbOwned : option string;
  rbDestroyOverlays : option string;
  rbPlan : option string;
  rbPruneFailpoint : option string;
  rbOrphans : option (list string * list string * list string) -> option string;
  rbOverlays : option string;
  rbRuntime : bool;
  rbKeepWiring : result string bool;
  rbContracts : option string;
  rbRewire : option string;
  rbArtifacts : option string;
  rbReady : option string;
  rbStudentState : option string;
  rbPrune : option string;
  rbPhase : nat -> PhaseRun
}.

(** [store.ForgetTopology]. *)
Definition forgetTopology (lab : string) : M unit := fun s =>
  match store s with
  | None => (s, Ok tt)
  | Some st =>
      match srvFaults s with
      | true :: fs => (set_store (Some st) fs s, Err EPersist)
      | fs => (set_store (Some (mkStore (stCoordination st) (delete lab (stTopology st))
                 (stHolds st))) (tail fs) s, Ok tt)
      end
  end.

Definition forgetRecords (lab : string) : M unit :=
  modify (fun s => set_lab_records (delete lab (current s)) (delete lab (modes s))
                     (delete lab (ungraded s)) (delete lab (peers s)) s).
(** [s.current[lab] = top; s.rememberHow(lab, ...); s.peers[lab] = ...]. *)
Definition rememberTopology (lab : string) (top : Topology) (mode : string) (u : Z) (w : Wire)
    : M unit :=
  modify (fun s => set_lab_records (<[lab := top]> (current s)) (<[lab := mode]> (modes s))
                     (<[lab := u]> (ungraded s)) (<[lab := default ∅ (wPeerUnderlay w)]> (peers s)) s).

(** [transactionForwardTopology]. *)
Definition transactionForwardTopology (tx : applyTransaction) : result err (option Topology) :=
  match txRequested (txReq tx) with
  | RawEmpty => Ok None
  | RawInvalid => Err (EHost "forward topology")
  | RawWire w => match wTopology w with Some t => Ok (Some t) | None => Err (EHost "forward topology") end
  end.

(** [rollbackPrunePreservation]: what may be removed unread (preserved),
    what must not be read, and what of that may be removed. [sidecar] is the
    FRR control container of a device, if it has one. *)
Definition rollbackPrunePreservation (sidecar : Device -> option string) (tx : applyTransaction)
    (forward : option Topology) (node previous : string)
    : option (list string * list string * list string) :=
  match forward with
  | None => None
  | Some forward =>
      if negb (transactionWritesReference tx) then None
      else if bool_decide (previous = ModeSolve) then None
      else
        let existed := map tcName (invContainers (txPrestate tx)) in
        let written := sortStrings (dedup (concat (map (fun d =>
          devContainer d :: match sidecar d with Some c => [c] | None => [] end)
          (DevicesOnNode forward node)))) in
        let removable := List.filter (fun name =>
          negb (bool_decide (name ∈ existed)) || invStateSafe (txPrestate tx)) written in
        Some (match txSolveTransition (txEvid tx) with Some r => solvePreserved r | None => [] end,
              written, removable)
  end.

(** A transaction turned round: the engine that rebuilds the previous lab. *)
Definition rollbackRequest (tx : applyTransaction) (w : Wire) : applyTransaction :=
  let q := txReq tx in
  let '(mode, u) := recoveredMode tx w in
  tx_with_request (mkTxRequest (txPreviousGen q) (txExpected q) (txRequested q) (txPrevious q)
    (txPreviousGen q) (txPreviousMode q) (txPreviousUngraded q) mode u
    (default ∅ (wPeerUnderlay w)) false (txOnlySteps q) (txStateProofs q)) tx.

Section Recovery.
Variable cfg : RecoveryConfig.
Variable sidecar : Device -> option string.

Definition phaseRun (run : PhaseRun) (lab : string) (fence : Fence) (generation target : string)
    (limit : Duration) (fn : M unit) : M unit :=
  runRecoveryPhaseLimit (recoveryPhaseLimit cfg) run lab fence generation target limit fn.

(** [rollbackExactContracts]: its only marks on the agent's state are the
    phases it runs. *)
Definition rollbackExactContracts (env : RollbackEnv) (lab : string) (fence : Fence)
    (tx : applyTransaction) (w : Wire) (node : string) : M unit :=
  refuse (negb (rbRuntime env)) (EHost "no runtime");;
  _ ← lift (transactionEngine (rollbackRequest tx w));
  keep ← hostValue (rbKeepWiring env);
  host (rbContracts env);;
  when (negb keep)
    (phaseRun (rbPhase env 0) lab fence (tGeneration tx) "rollback: rewire prior topology"
       (recoveryArtifactLimit cfg) (host (rbRewire env)));;
  host (rbArtifacts env);;
  host (rbReady env);;
  host (rbStudentState env);;
  phaseRun (rbPhase env 1) lab fence (tGeneration tx)
    "prune: forward-only runtime objects and overlays" (recoveryRollbackLimit cfg node tx)
    (host (rbPrune env)).

Definition rollbackPreparedApply (env : RollbackEnv) (lab : string) (fence : Fence)
    (tx : applyTransaction) : M unit :=
  s ← get;
  match txPrevious (txReq tx) with
  | RawEmpty =>
      host (rbDestroy env);;
      host (rbOwned env);;
      host (rbDestroyOverlays env);;
      releaseOverlayClaims lab [];;
      forgetRecords lab;;
      forgetTopology lab
  | raw =>
      w ← lift (rawWire raw);
      oldTop ← lift (match wTopology w with
                     | Some t => Ok t
                     | None => Err (EHost "rehydrate previous topology")
                     end);
      if negb (bool_decide (invRuntimeSpecs (txPrestate tx) = [])) then
        rollbackExactContracts env lab fence tx w (srvNode s)
      else
        let '(mode, u) := recoveredMode tx w in
        _ ← lift (transactionEngine (rollbackRequest tx w));
        host (rbPlan env);;
        host (rbPruneFailpoint env);;
        forward ← lift (transactionForwardTopology tx);
        host (rbOrphans env (rollbackPrunePreservation sidecar tx forward (srvNode s) mode));;
        host (rbOverlays env);;
        putTopology lab raw;;
        rememberTopology lab oldTop mode u w;;
        restoreOverlayClaims lab fence (overlayVNIsOnNode oldTop (srvNode s))
  end.

(** [restoreRecoveredTopology]. *)
Definition restoreRecoveredTopology (lab : string) (tx : applyTransaction) : M unit :=
  match txPrevious (txReq tx) with
  | RawEmpty => mret tt
  | raw =>
      w ← lift (rawWire raw);
      top ← lift (match wTopology w with
                  | Some t => Ok t
                  | None => Err (EHost "rehydrate recovered topology")
                  end);
      refuse (negb (bool_decide (topName top = lab))) (EHost "another lab");;
      putTopology lab raw;;
      let '(mode, u) := recoveredMode tx w in
      rememberTopology lab top mode u w
  end.

(** [recoveryPreviousTopology]. *)
Definition recoveryPreviousTopology (lab : string) (tx : applyTransaction)
    : result err (option Topology) :=
  match txPrevious (txReq tx) with
  | RawEmpty => Ok None
  | RawInvalid => Err (EHost "read recovery pre-state topology")
  | RawWire w =>
      match wTopology w with
      | None => Err (EHost "rehydrate recovery pre-state topology")
      | Some top => if bool_decide (topName top = lab) then Ok (Some top)
                    else Err (EHost "another lab")
      end
  end.

(** ** Rolling forward *)

Record ForwardEnv := mkForwardEnv {
  fwClock : nat -> Time;
  fwKernel : Kernel;
  fwCapture : option string;
  fwBuild : option string;
  fwDirtyCreate : list string;
  fwDirtyVNIs : list Z;
  fwDirtySemantic : list string;
  fwExecute : option string;
  fwCommit : CommitEnv;
  fwCommitClock : nat -> Time;
  fwStatus : StatusEnv
}.

(** The transaction is adopted by the recovery's own fence. *)
Definition adoptForward (lab : string) (fence : Fence) (tx : applyTransaction) : M applyTransaction :=
  s ← get;
  let cur := lookup_or zeroTx (transactions s) lab in
  refuse (negb (bool_decide (tGeneration cur = tGeneration tx))) (EHost "transaction changed");;
  let cur := mkTx (txReq cur) (fGeneration fence) (txEvid cur) transactionApplying (txPrestate cur)
               "" (txRecov cur) (txApplied cur) (txCommitted cur) in
  putTx lab cur;;
  saveCoordinationLocked;;
  mret cur.

(** [return s.transactionInventoryStatus(ctx, lab), err]. *)
Definition statusFail {A} (env : StatusEnv) (lab : string) (e : err) : M A :=
  _ ← transactionInventoryStatus env lab; fail e.
Definition forwardFailed {A} (env : ForwardEnv) (lab : string) (fence : Fence)
    (generation why : string) (now : Time) (e : err) : M A :=
  ignore (markTransactionPhase lab fence generation transactionRollbackFailed why now);;
  statusFail (fwStatus env) lab e.

(** Reserving the overlays, adopting the transaction, capturing what runs. *)
Definition forwardStart (env : ForwardEnv) (lab : string) (fence : Fence) (tx : applyTransaction)
    (top : Topology) : M applyTransaction :=
  let generation := tGeneration tx in
  markForwardPhase lab fence generation "reserve desired overlays" (fwClock env 0) (fwClock env 1);;
  s ← get;
  _ ← try_catch (reserveOverlays (fwKernel env)
        (mkReserve lab "" fence (overlayVNIsOnNode top (srvNode s))) (fwClock env 2))
        (statusFail (fwStatus env) lab);
  cur ← adoptForward lab fence tx;
  s ← get;
  markForwardPhase lab fence generation "capture current durable state" (fwClock env 3) (fwClock env 4);;
  when (bool_decide (is_Some (current s !! lab)) && bool_decide (is_Some (store s)))
    (match fwCapture env with
     | None => mret tt
     | Some why =>
         if negb (rForwardAcknowledged (txRecov cur))
         then forwardFailed env lab fence generation "forward pre-state capture failed"
                (fwClock env 5) (EHost why)
         else try_catch (recordForwardDataLoss lab fence generation
                "current-state-capture-unavailable" (fwClock env 5)) (statusFail (fwStatus env) lab)
     end);;
  mret cur.

(** Building and running what is left of the recorded request. *)
Definition forwardApply (env : ForwardEnv) (lab : string) (fence : Fence) (generation : string)
    (cur : applyTransaction) : M applyTransaction :=
  match transactionEngine cur with
  | Ok _ => mret tt
  | Err e => statusFail (fwStatus env) lab e
  end;;
  markForwardPhase lab fence generation "build observed desired diff" (fwClock env 6) (fwClock env 7);;
  match fwBuild env with
  | None => mret tt
  | Some why => forwardFailed env lab fence generation why (fwClock env 8) (EHost why)
  end;;
  try_catch (recordGenerationTouched lab fence generation (fwDirtyCreate env) (fwDirtyVNIs env)
               (txTouchedKnown (txEvid cur)) (fwClock env 9)) (statusFail (fwStatus env) lab);;
  try_catch (recordGenerationSemantic lab fence generation (fwDirtySemantic env) (fwClock env 10))
    (statusFail (fwStatus env) lab);;
  s ← get;
  let cur := lookup_or zeroTx (transactions s) lab in
  markForwardPhase lab fence generation "apply remaining desired work" (fwClock env 11) (fwClock env 12);;
  match fwExecute env with
  | None => mret tt
  | Some why => forwardFailed env lab fence generation "forward recovery failed" (fwClock env 13)
                  (EHost why)
  end;;
  try_catch (markGenerationApplied lab fence generation (fwClock env 14)) (statusFail (fwStatus env) lab);;
  try_catch (markForwardPhase lab fence generation "verify and commit desired inventory"
               (fwClock env 15) (fwClock env 16)) (statusFail (fwStatus env) lab);;
  mret cur.

Definition forwardTransaction (env : ForwardEnv) (lab : string) (fence : Fence)
    (tx : applyTransaction) : M unit :=
  let generation := tGeneration tx in
  w ← lift (rawWire (txRequested (txReq tx)));
  top ← lift (rehydrateWire w);
  refuse (negb (bool_decide (topName top = lab))) (EHost "another lab");;
  refuse (negb (bool_decide (txStateProofs (txReq tx) = [])) && negb (txStateVerified (txEvid tx))
          && negb (rForwardAcknowledged (txRecov tx))) EStateUnverified;;
  cur ← forwardStart env lab fence tx top;
  cur ← forwardApply env lab fence generation cur;
  resp ← try_catch (commitAppliedTopology (fwCommitClock env) (fwCommit env) top w fence cur)
           (forwardFailed env lab fence generation "forward commit failed" (fwClock env 17));
  when (negb (bool_decide (apFailures resp = ∅)))
    (forwardFailed env lab fence generation "forward commit reported failures" (fwClock env 18)
       (EHost "forward commit reported failures"));;
  try_catch (finalizeCommittedGeneration lab fence generation (fwClock env 19))
    (statusFail (fwStatus env) lab);;
  _ ← transactionInventoryStatus (fwStatus env) lab;
  mret tt.

(** ** The recovery of one lab *)

Record RecoverEnv := mkRecoverEnv {
  reClock : nat -> Time;
  reStatus : StatusEnv;
  reSpecHash : Device -> string;
  reHealthy : option string;
  reYields : bool;
  rePhases : nat -> PhaseRun;
  rePeers : option string;
  reReplicas : option string;
  reFailpoint : option string;
  reRollback : RollbackEnv;
  reStudentState : option string;
  reControls : option string;
  reReplicate : option string;
  reSnapshot : result string transactionInventory;
  reControlsAgain : option string;
  reForward : ForwardEnv
}.

(** A record without a pre-state gets the one its previous topology implies. *)
Definition tx_with_prestate (p : transactionInventory) (tx : applyTransaction) : applyTransaction :=
  mkTx (txReq tx) (txFenceGeneration tx) (txEvid tx) (txPhase tx) p (txFailure tx) (txRecov tx)
    (txApplied tx) (txCommitted tx).
Definition legacyPrestate (env : RecoverEnv) (lab : string) (tx : applyTransaction)
    : M applyTransaction :=
  let p := txPrestate tx in
  match txPrevious (txReq tx) with
  | RawEmpty => mret tx
  | raw =>
      if negb (isZero (invCapturedAt p) && bool_decide (invContainers p = [])) then mret tx else
      w ← lift (rawWire raw);
      oldTop ← lift (match wTopology w with Some t => Ok t | None => Err (EHost "legacy pre-state") end);
      s ← get;
      let e := expectedTransactionInventory (reSpecHash env) oldTop (srvNode s) "" (reClock env 2) in
      let prestate := mkInventory (invSchema e) (invTopologyHash e) (tPreviousGen tx)
        (invContainers e) (invVNIs e) [] [] (reClock env 3)
        (bool_decide (is_Some (store s)) && negb (failed (reHealthy env))) [] [] in
      let cur := lookup_or zeroTx (transactions s) lab in
      if bool_decide (tGeneration cur = tGeneration tx) then
        putTx lab (tx_with_prestate prestate cur);;
        ignore saveCoordinationLocked;;
        mret (tx_with_prestate prestate cur)
      else mret tx
  end.

(** [replicateRecoveredDurability]. *)
Definition replicateRecoveredDurability (env : RecoverEnv) (tx : applyTransaction) : M unit :=
  s ← get;
  match store s, txPrevious (txReq tx) with
  | None, _ | _, RawEmpty => mret tt
  | Some _, raw =>
      w ← lift (rawWire raw);
      _ ← lift (rehydrateWire w);
      host (reReplicate env)
  end.

Definition recoveryFailed {A} (env : RecoverEnv) (lab : string) (fence : Fence)
    (generation : string) (now : Time) (e : err) : M A :=
  failRecovery lab fence generation now;;
  statusFail (reStatus env) lab e.

(** A phase of a rollback: one that fails marks the recovery failed. *)
Definition recoveryPhase (env : RecoverEnv) (lab : string) (fence : Fence) (generation : string)
    (n : nat) (target : string) (limit : Duration) (fn : M unit) : M unit :=
  try_catch (phaseRun (rePhases env n) lab fence generation target limit fn)
    (recoveryFailed env lab fence generation (reClock env (10 + n))).

(** The rollback strategy, up to the verified pre-state. *)
Definition rollbackPhases (env : RecoverEnv) (lab : string) (fence : Fence)
    (tx : applyTransaction) (node : string) : M unit :=
  let generation := tGeneration tx in
  let phase := recoveryPhase env lab fence generation in
  (if negb (bool_decide (invContainers (txPrestate tx) = [])) && negb (invStateSafe (txPrestate tx))
   then recoveryFailed env lab fence generation (reClock env 8) EPrestateUnsafe else mret tt);;
  previousTop ← (match recoveryPreviousTopology lab tx with
                 | Ok t => mret t
                 | Err e => recoveryFailed env lab fence generation (reClock env 9) e
                 end);
  when (bool_decide (is_Some previousTop))
    (phase 0%nat "peer: authenticated live peer quorum" (recoveryArtifactLimit cfg)
       (host (rePeers env));;
     phase 1%nat "replica: verify and fetch durable replicas" (recoveryArtifactLimit cfg)
       (host (reReplicas env)));;
  phase 2%nat "rollback: restore prior runtime inventory" (recoveryRollbackLimit cfg node tx)
    (host (reFailpoint env);; rollbackPreparedApply (reRollback env) lab fence tx);;
  phase 3%nat "restore: persist previous topology" (recoveryPhaseLimit cfg)
    (restoreRecoveredTopology lab tx);;
  phase 4%nat "verify: restored student state and runtime semantics"
    (recoveryVerifyLimit cfg node tx) (host (reStudentState env));;
  phase 5%nat "verify: expected FRR control sidecars" (recoveryVerifyLimit cfg node tx)
    (host (reControls env));;
  phase 6%nat "replicate: durable peer quorum" (recoveryVerifyLimit cfg node tx)
    (replicateRecoveredDurability env tx);;
  phase 7%nat "verify: exact prior inventory" (recoveryVerifyLimit cfg node tx)
    (got ← hostValue (reSnapshot env);
     lift (inventoryMatches (txPrestate tx) got);;
     host (reControlsAgain env)).

(** The whole rollback: the pre-state, then the recovered generation. *)
Definition rollbackRecovery (env : RecoverEnv) (lab : string) (fence : Fence)
    (tx : applyTransaction) (node : string) : M RecoveryStatus :=
  rollbackPhases env lab fence tx node;;
  recoveryPhase env lab fence (tGeneration tx) 8 "commit: persist recovered generation"
    (recoveryPhaseLimit cfg) (finishRecoveredGeneration lab fence (tGeneration tx) (reClock env 30));;
  transactionInventoryStatus (reStatus env) lab.

(** The forward strategy. *)
Definition forwardRecovery (env : RecoverEnv) (lab : string) (fence : Fence)
    (tx : applyTransaction) (node : string) : M RecoveryStatus :=
  try_catch (runRecoveryLongPhase (recoveryPhaseLimit cfg) (recoveryTotalLimit cfg node None)
               (rePhases env 9) lab fence (tGeneration tx) "forward: recorded desired transaction"
               (forwardTransaction (reForward env) lab fence tx))
    (recoveryFailed env lab fence (tGeneration tx) (reClock env 31));;
  transactionInventoryStatus (reStatus env) lab.

Definition recoverTransactionStrategyOptions (env : RecoverEnv) (lab : string) (fence : Fence)
    (strategy : string) (options : recoveryRunOptions) : M RecoveryStatus :=
  let clk := reClock env in
  let status := transactionInventoryStatus (reStatus env) lab in
  let forward := bool_decide (strategy = "forward") in
  refuse (negb (bool_decide (strategy = "rollback")) && negb forward) (ERequest "strategy");;
  requireMutationFence lab fence (clk 0%nat) (clk 1%nat);;
  s ← get;
  match transactions s !! lab with
  | None =>
      st ← status;
      refuse (negb (rvConsistent st) && negb (bool_decide (rvPhase st = "idle")))
        (EHost "inventory is not consistent");;
      mret st
  | Some tx =>
      tx ← legacyPrestate env lab tx;
      if txCommitted tx && (negb (optRollbackCommitted options) || forward) then
        st ← status;
        if rvConsistent st then mret st
        else ignore (markTransactionPhase lab fence (tGeneration tx) transactionRollbackFailed
                       "committed inventory drift" (clk 4%nat));;
             fail (EHost "committed inventory drift")
      else
        tx ← (if txCommitted tx
              then try_catch (reopenCommittedTransaction lab fence (tGeneration tx) (clk 4%nat)) (statusFail (reStatus env) lab)
              else mret tx);
        let limit := if forward then forwardRecoveryLimit cfg (srvNode s) tx
                     else recoveryTotalLimit cfg (srvNode s) (Some tx) in
        let total := clk 5%nat + limit in
        opID ← try_catch (acquireRecoveryOperation lab total (optTakeover options) (reYields env)
                            (clk 6%nat)) (statusFail (reStatus env) lab);
        deferring
          (tx ← try_catch (beginRecovery lab fence (tGeneration tx) strategy total options
                             (recoveryPhaseLimit cfg) (clk 7%nat)) (statusFail (reStatus env) lab);
           if forward then forwardRecovery env lab fence tx (srvNode s)
           else rollbackRecovery env lab fence tx (srvNode s))
          (releaseOperation lab opID)
  end.

(** [handleRecovery] and [handleApplyAbort]. *)
Record RecoveryRequest := mkRecoveryRequest {
  rcqLab : string; rcqFence : Fence; rcqStrategy : string; rcqTakeover : bool;
  rcqForwardAcknowledged : bool; rcqRollbackCommitted : bool
}.
Definition handleRecovery (env : RecoverEnv) (req : RecoveryRequest) : M RecoveryStatus :=
  refuse (bool_decide (rcqLab req = "")) ELabRequired;;
  recoverTransactionStrategyOptions env (rcqLab req) (rcqFence req)
    (if decide (rcqStrategy req = "") then "rollback" else rcqStrategy req)
    (mkRunOptions (rcqTakeover req) (rcqForwardAcknowledged req) (rcqRollbackCommitted req)).

Definition recoverTransaction (env : RecoverEnv) (lab : string) (fence : Fence) : M RecoveryStatus :=
  recoverTransactionStrategyOptions env lab fence "rollback" (mkRunOptions false false false).

Definition handleApplyAbort (env : RecoverEnv) (req : ApplyRequest) : M ApplyResponse :=
  let lab := requestLab req in
  refuse (bool_decide (lab = "")) ELabRequired;;
  st ← recoverTransaction env lab (arFence req);
  s ← get;
  mret (phaseResponse (srvNode s) (rvGeneration st) "abort").

(** ** Automatic recovery *)

(** The labs [resumeRecoveries] starts on. *)
Definition resumable (now : Time) (s : Server) (lab : string) (tx : applyTransaction) : bool :=
  negb (txCommitted tx)
  && negb (bool_decide (txPhase tx = transactionRecovering) && bool_decide (is_Some (ops s !! lab)))
  && negb (match mutations s !! lab with Some l => before now (lUntil l) | None => false end)
  && negb (negb (isZero (rNext (txRecov tx))) && before now (rNext (txRecov tx))).
Definition resumeRecoveries (now : Time) (s : Server) : list string :=
  sortStrings (map fst (List.filter (fun p => resumable now s p.1 p.2)
                          (map_to_list (transactions s)))).

(** The strategy an automatic recovery runs: the one the record names. *)
Definition automaticStrategy (tx : applyTransaction) : string :=
  if decide (rStrategy (txRecov tx) = "forward") then "forward" else "rollback".

Definition runAutomaticRecovery (env : RecoverEnv) (token : result err string) (ttl : Duration)
    (lab : string) (now1 now2 : Time) : M unit :=
  fence ← acquireRecoveryFence token lab ttl now1;
  deferring
    (s ← get;
     let tx := lookup_or zeroTx (transactions s) lab in
     ignore (recoverTransactionStrategyOptions env lab fence (automaticStrategy tx)
               (mkRunOptions true (rForwardAcknowledged (txRecov tx)) false)))
    (ignore (releaseMutationLease (mkRelease lab fence) now2)).
End Recovery.
