(* ===== verification/RecoverySafety.v ===== *)
(** * What the deployment handlers guarantee

    The handlers of [Handlers.v] and the recovery of [Recovery.v], seen from
    the transaction they drive: which of their steps keep the record a
    rollback needs, and where a successful commit, rollback or forward
    recovery leaves the lab. *)

From stdpp Require Import base gmap strings list fin_maps.
From Stdlib Require Import ZArith Lia.
From S2P Require Import Prelude Model Coordination Transactions Ephemeral Restart Fencing Claims.
From S2P Require Import TxSafety Inventory Handlers Recovery.

Open Scope Z_scope.

(** ** Two properties a recovery moves between

    [openTx]: the lab's transaction is there, uncommitted, with the request
    it was prepared with. [settledAt]: there is no transaction and the lab is
    committed at a generation. *)

Definition openTx (lab : string) (q : txRequest) (s : Server) : Prop :=
  exists tx, transactions s !! lab = Some tx /\ txReq tx = q /\ txCommitted tx = false.
Definition settledAt (lab generation : string) (s : Server) : Prop :=
  transactions s !! lab = None /\ gCommitted (genOf s lab) = generation.

Lemma mrel_deferring {A} (R : Server -> Server -> Prop) `{!PreOrder R} (m : M A) c :
  mrel R m -> mrel R c -> mrel R (deferring m c).
Proof.
  intros Hm Hc s. specialize (Hm s). unfold final, deferring in *.
  destruct (m s) as [s1 r]. simpl in *. specialize (Hc s1). unfold final in Hc.
  destruct (c s1) as [s2 r2]. simpl in *. by etransitivity.
Qed.

Lemma mrel_observe {S E A} (R : S -> S -> Prop) (m : SE S E A) :
  mrel R m -> mrel R (observe m).
Proof.
  intros Hm s. specialize (Hm s). unfold final, observe in *. by destruct (m s).
Qed.

Lemma mrel_host (R : Server -> Server -> Prop) `{!PreOrder R} o : mrel R (host o).
Proof. unfold host. mrel_steps. Qed.
Lemma mrel_hostValue {A} (R : Server -> Server -> Prop) `{!PreOrder R} (o : result string A) :
  mrel R (hostValue o).
Proof. unfold hostValue. mrel_steps. Qed.
Create HintDb frame.
Create HintDb steady.
#[export] Hint Extern 0 (mrel _ (host _)) => apply mrel_host; apply _ : frame.
#[export] Hint Extern 0 (mrel _ (hostValue _)) => apply mrel_hostValue; apply _ : frame.

(** What the properties of a lab below read: its transaction, its committed
    generation, its recorded inventory. *)
Definition labView (lab : string) (s : Server)
    : option applyTransaction * string * option transactionInventory :=
  (transactions s !! lab, gCommitted (genOf s lab), Inventories (coord s) !! lab).

Class Views (P : Server -> Prop) (lab : string) := views s s' :
  labView lab s' = labView lab s -> P s -> P s'.
#[export] Instance pending_views lab q : Views (openTx lab q) lab.
Proof. intros s s' [= Ht Hg Hi]. unfold openTx. by rewrite Ht. Qed.
#[export] Instance settled_views lab g : Views (settledAt lab g) lab.
Proof. intros s s' [= Ht Hg Hi]. unfold settledAt. by rewrite Ht, Hg. Qed.

(** *** Steps that leave the lab's records alone *)

Section Same.
Context (lab : string).
Abbreviation same := (unchanged (labView lab)) (only parsing).

Lemma same_frame s s' :
  Transactions (coord s') = Transactions (coord s) ->
  Generations (coord s') = Generations (coord s) ->
  Inventories (coord s') = Inventories (coord s) -> same s s'.
Proof.
  intros Ht Hg Hi. unfold unchanged, labView, transactions, genOf, generations. by rewrite Ht, Hg, Hi.
Qed.

Lemma same_save : mrel same saveCoordinationLocked.
Proof. apply mrel_save; intros; by apply same_frame. Qed.
Lemma same_expire now : mrel same (expireCoordinationLocked now).
Proof. intros s. by apply same_frame. Qed.
Hint Resolve same_save same_expire : same.
Ltac same_solve :=
  mrel_steps; try solve [ auto with same | by apply same_frame ].

Lemma same_checkFence l fence now : mrel same (checkFence l fence now).
Proof. unfold checkFence. same_solve. Qed.
Lemma same_requireMutationFence l fence now now' : mrel same (requireMutationFence l fence now now').
Proof. unfold requireMutationFence, checkFence. same_solve. Qed.
Lemma same_generationTransaction l g e : mrel same (generationTransaction l g e).
Proof. unfold generationTransaction. same_solve. Qed.
Lemma same_putTopology l raw : mrel same (putTopology l raw).
Proof.
  intros s. unfold final, putTopology. repeat case_match; by apply same_frame.
Qed.
Lemma same_forgetTopology l : mrel same (forgetTopology l).
Proof.
  intros s. unfold final, forgetTopology. repeat case_match; by apply same_frame.
Qed.
Lemma same_releaseOperation l id : mrel same (releaseOperation l id).
Proof. unfold releaseOperation. same_solve. Qed.
Lemma same_acquireOperation l k b : mrel same (acquireOperation l k b).
Proof. unfold acquireOperation. same_solve. Qed.
Lemma same_acquireRecoveryOperation l d t y now :
  mrel same (acquireRecoveryOperation l d t y now).
Proof. unfold acquireRecoveryOperation. same_solve. Qed.
Lemma same_releaseOverlayClaims l vnis : mrel same (releaseOverlayClaims l vnis).
Proof. unfold releaseOverlayClaims. same_solve. Qed.
Lemma same_restoreOverlayClaims l fence vnis : mrel same (restoreOverlayClaims l fence vnis).
Proof. unfold restoreOverlayClaims. same_solve. Qed.
Lemma same_rememberTopology l top mode u w : mrel same (rememberTopology l top mode u w).
Proof. unfold rememberTopology. same_solve. Qed.
Lemma same_forgetRecords l : mrel same (forgetRecords l).
Proof. unfold forgetRecords. same_solve. Qed.
Lemma same_promote l fence vnis now : mrel same (promoteOverlayReservations l fence vnis now).
Proof.
  unfold promoteOverlayReservations, checkFence. same_solve.
  generalize false. induction vnis as [|v vnis IH]; intros b; simpl; same_solve.
Qed.
Lemma same_rollbackAdoptions k l adopted prior :
  mrel same (rollbackLegacyAdoptionsLocked k l adopted prior).
Proof.
  intros s. unfold final, rollbackLegacyAdoptionsLocked.
  match goal with |- context [saveCoordinationLocked ?s1] => set (s1' := s1) end.
  pose proof (same_save s1') as Hq. unfold final in Hq.
  destruct (saveCoordinationLocked s1') as [s2 [?|?]]; simpl in *;
    (etransitivity; [|done]; by apply same_frame).
Qed.
Lemma same_adoptAll k l fence prior legacy adopted :
  mrel same (adoptAll k l fence prior legacy adopted).
Proof.
  revert adopted. induction legacy as [|vni legacy IH]; intros adopted; simpl; same_solve.
  apply same_rollbackAdoptions.
Qed.
Lemma same_expireAndCheck l fence now : mrel same (expireAndCheck l fence now).
Proof. unfold expireAndCheck, checkFence. same_solve. Qed.
Lemma same_reserveOverlays k req now : mrel same (reserveOverlays k req now).
Proof.
  unfold reserveOverlays. same_solve; [apply same_expireAndCheck|apply same_adoptAll].
Qed.
Lemma same_noteEphemeralLease l owner ttl generation now :
  mrel same (noteEphemeralLease l owner ttl generation now).
Proof. unfold noteEphemeralLease, putEphemeral. same_solve. Qed.
Lemma same_forgetEphemeralLease l : mrel same (forgetEphemeralLease l).
Proof. unfold forgetEphemeralLease, putEphemeral. same_solve. Qed.
Lemma same_refuseMutationIfHeld l token now : mrel same (refuseMutationIfHeld l token now).
Proof.
  unfold refuseMutationIfHeld. same_solve. unfold dropLapsedHold. repeat case_match; by apply same_frame.
Qed.
End Same.
#[export] Hint Resolve same_save same_expire same_checkFence same_requireMutationFence
  same_generationTransaction same_putTopology same_forgetTopology same_releaseOperation
  same_acquireOperation same_acquireRecoveryOperation same_releaseOverlayClaims
  same_restoreOverlayClaims same_rememberTopology same_forgetRecords same_promote
  same_reserveOverlays same_noteEphemeralLease same_forgetEphemeralLease
  same_refuseMutationIfHeld : frame.

(** A step that leaves the records alone keeps what is read from them. *)
Lemma kept_same {A} (P : Server -> Prop) lab `{!Views P lab} (m : M A) :
  mrel (unchanged (labView lab)) m -> mrel (kept P) m.
Proof. intros Hm s Hs. by apply (views s _ (Hm s)). Qed.

(** ** Steps that update the open transaction

    [Migrates P lab]: [P] survives the migration of a legacy inventory, which
    settles a committed transaction. *)
Class Migrates (P : Server -> Prop) (lab : string) := {
  migrates_views :: Views P lab;
  migrates s s' cur : P s -> Inventories (coord s) !! lab = Some cur ->
    invSchema cur < overlayInventorySchema -> gCommitted (genOf s' lab) = gCommitted (genOf s lab) ->
    transactions s' !! lab = transactions s !! lab \/
    (exists tx, transactions s !! lab = Some tx /\ txCommitted tx = true /\
       transactions s' !! lab = None) -> P s'
}.

(** A status migrates a legacy inventory; that settles only a transaction
    that is already committed. *)
Section Migrates.
Context (P : Server -> Prop) (lab : string) `{HP : !Migrates P lab}.
Lemma kept_storeUpgraded upgraded : mrel (kept P) (storeUpgraded lab upgraded).
Proof.
  unfold storeUpgraded. apply mrel_get_bind. intros s Hs.
  destruct (Inventories (coord s) !! lab) as [cur|] eqn:Hcur; [|done].
  destruct (Z.leb_spec overlayInventorySchema (invSchema cur)) as [|Hold]; [done|].
  unfold final, mbind, SE_bind, modify, try_catch. cbn zeta.
  match goal with |- context [saveCoordinationLocked ?t] => set (s0 := t) end.
  pose proof (same_save lab s0) as Hv. unfold final in Hv.
  destruct (saveCoordinationLocked s0) as [s1 [[]|e]] eqn:Esave; simpl in Hv |- *.
  - apply (migrates s s1 cur); [done..| |]; injection Hv as Ht Hg Hi; rewrite ?Ht, ?Hg;
      subst s0; unfold genOf, generations, transactions, lookup_or; simpl; repeat case_match;
      simpl; rewrite ?lookup_insert_eq, ?lookup_delete_eq; eauto;
      repeat match goal with H : _ && _ = true |- _ => apply andb_true_iff in H as [? ?] end; eauto.
  - apply (views s); [|done].
    unfold labView, genOf, generations, transactions, restoreEntry, lookup_or. simpl.
    rewrite lookup_partial_alter_eq, !lookup_insert_eq, Hcur. done.
Qed.

Lemma kept_status env : mrel (kept P) (transactionInventoryStatus env lab).
Proof.
  unfold transactionInventoryStatus, migrateLegacyCommittedInventory.
  mrel_steps; apply mrel_observe; mrel_steps; auto with frame; apply kept_storeUpgraded.
Qed.
End Migrates.

(** [Steady P lab]: [P] also survives any progress of the lab's transaction
    that keeps its request and its outcome. *)
Class Steady (P : Server -> Prop) (lab : string) := {
  steady_migrates :: Migrates P lab;
  steady_put s tx tx' : P s -> transactions s !! lab = Some tx -> txReq tx' = txReq tx ->
    txCommitted tx' = txCommitted tx -> P (set_coord (set_Transactions <[lab := tx']>) s)
}.
#[export] Instance pending_steady lab q : Steady (openTx lab q) lab.
Proof.
  split; [split; [apply _|]|].
  - intros s s' cur (tx & Ht & Hq & Hc) _ _ _ [Hs|(tx' & Ht' & Hc' & _)]; [|congruence].
    exists tx. by rewrite Hs.
  - intros s tx tx' (tx0 & Ht0 & Hq & Hc) Ht Hr Hcc. rewrite Ht in Ht0. injection Ht0 as <-.
    exists tx'. split; [|split; congruence]. unfold transactions. simpl. by rewrite lookup_insert_eq.
Qed.
#[export] Instance settled_steady lab g : Steady (settledAt lab g) lab.
Proof.
  split; [split; [apply _|]|].
  - intros s s' cur [Hn Hg] _ _ Hg' [Hs|(tx & Ht & _)]; [|congruence].
    unfold settledAt. by rewrite Hs, Hg'.
  - intros s tx tx' [Hn _] Ht. congruence.
Qed.

Section Steady.
Context (P : Server -> Prop) (lab : string) `{HP : !Steady P lab}.

Lemma kept_frame s s' : unchanged (labView lab) s s' -> kept P s s'.
Proof. intros Hv Hs. by apply (views s s' Hv). Qed.

Lemma kept_save : mrel (kept P) saveCoordinationLocked.
Proof. apply (kept_same P lab). auto with frame. Qed.

Lemma kept_update {A} generation e f (k : applyTransaction -> unit -> M A) :
  (forall tx, txReq (f tx) = txReq tx /\ txCommitted (f tx) = txCommitted tx) ->
  (forall tx u, mrel (kept P) (k tx u)) ->
  mrel (kept P) (generationTransaction lab generation e ≫= fun tx => putTx lab (f tx) ≫= k tx).
Proof.
  intros Hf Hk. apply mrel_generation; [apply _|]. intros s tx Ht _ Hs.
  apply (Hk tx tt (final (putTx lab (f tx)) s)).
  destruct (Hf tx) as [Hr Hc]. by apply (steady_put s tx).
Qed.

Lemma kept_owned {A} fence generation e f (k : applyTransaction -> unit -> M A) :
  (forall tx, txReq (f tx) = txReq tx /\ txCommitted (f tx) = txCommitted tx) ->
  (forall tx u, mrel (kept P) (k tx u)) ->
  mrel (kept P) (ownTransaction lab fence generation e ≫= fun tx => putTx lab (f tx) ≫= k tx).
Proof.
  intros Hf Hk. apply mrel_own; [apply _|]. intros s tx Ht _ _ Hs.
  apply (Hk tx tt (final (putTx lab (f tx)) s)).
  destruct (Hf tx) as [Hr Hc]. by apply (steady_put s tx).
Qed.

(** A guard that leaves the state as it is. *)
Lemma kept_pure {A B} (g : M A) (k : A -> M B) s :
  final g s = s -> (forall a, kept P s (final (k a) s)) -> kept P s (final (g ≫= k) s).
Proof.
  intros Hg Hk. unfold final, mbind, SE_bind in *.
  destruct (g s) as [s' [a|e]]; simpl in Hg; subst; [apply Hk|by intros ?].
Qed.

Lemma kept_put {A} s tx tx' (k : unit -> M A) :
  transactions s !! lab = Some tx -> txReq tx' = txReq tx -> txCommitted tx' = txCommitted tx ->
  (forall u, mrel (kept P) (k u)) -> kept P s (final (putTx lab tx' ≫= k) s).
Proof.
  intros Ht Hr Hc Hk Hs. apply (Hk tt (final (putTx lab tx') s)). by apply (steady_put s tx).
Qed.

Ltac fenced := unfold checkFence; apply mrel_bind; [apply _|by mrel_steps|intros _].
Ltac kept_solve := intros;
  mrel_steps; try solve [ apply kept_save | apply kept_frame; by apply same_frame
                        | apply (kept_same P lab); auto with frame ].

Lemma kept_progress fence generation target deadline force now :
  mrel (kept P) (recordRecoveryProgress lab fence generation target deadline force now).
Proof.
  unfold recordRecoveryProgress. fenced. apply kept_update; [done|].
  kept_solve.
Qed.

Lemma kept_heartbeat pl fence generation hard now :
  mrel (kept P) (heartbeatRecoveryProgress pl lab fence generation hard now).
Proof.
  unfold heartbeatRecoveryProgress. fenced. apply mrel_get_bind. intros s.
  destruct (transactions s !! lab) as [tx|] eqn:Ht; [|by intros ?].
  apply kept_pure; [apply refuse_pure|intros _]. apply (kept_put s tx); [done..|]. kept_solve.
Qed.

Lemma kept_heartbeats pl fence generation hard ticks :
  mrel (kept P) (heartbeats pl lab fence generation hard ticks).
Proof.
  induction ticks; simpl; [by mrel_steps|].
  apply mrel_bind; [apply _|apply kept_heartbeat|by intros _].
Qed.

Lemma kept_phase pl run fence generation target limit fn :
  mrel (kept P) fn ->
  mrel (kept P) (runRecoveryPhaseLimit pl run lab fence generation target limit fn).
Proof.
  intros Hfn. unfold runRecoveryPhaseLimit.
  mrel_steps; try apply kept_progress; try apply kept_heartbeats; by apply mrel_observe.
Qed.

Lemma kept_markPhase fence generation phase failure now :
  mrel (kept P) (markTransactionPhase lab fence generation phase failure now).
Proof. unfold markTransactionPhase. fenced. apply kept_update; [done|]. kept_solve. Qed.

Lemma kept_markForwardPhase fence generation phase now now' :
  mrel (kept P) (markForwardPhase lab fence generation phase now now').
Proof. unfold markForwardPhase. fenced. apply kept_update; [done|]. kept_solve. Qed.

Lemma kept_recordForwardDataLoss fence generation detail now :
  mrel (kept P) (recordForwardDataLoss lab fence generation detail now).
Proof. unfold recordForwardDataLoss. fenced. apply kept_update; [done|]. kept_solve. Qed.

Lemma kept_recordEvidence fence generation now f :
  mrel (kept P) (recordEvidence lab fence generation now f).
Proof.
  unfold recordEvidence. fenced.
  apply (kept_owned fence generation _ (fun tx => tx_with_evidence (f (txEvid tx)) tx)); [done|].
  kept_solve.
Qed.

Lemma kept_applying fence generation now :
  mrel (kept P) (markGenerationApplying lab fence generation now).
Proof.
  unfold markGenerationApplying. fenced.
  apply (kept_owned fence generation _ (tx_with_phase transactionApplying "")); [done|]. kept_solve.
Qed.

Lemma kept_applied fence generation now :
  mrel (kept P) (markGenerationApplied lab fence generation now).
Proof.
  unfold markGenerationApplied. fenced.
  apply (kept_owned fence generation _
           (fun tx => tx_with_phase transactionApplied "" (tx_with_applied true tx))); [done|].
  kept_solve.
Qed.

Lemma kept_beginRecovery fence generation strategy total o pl now :
  mrel (kept P) (beginRecovery lab fence generation strategy total o pl now).
Proof.
  unfold beginRecovery. fenced. apply mrel_generation; [apply _|]. intros s tx Ht _.
  apply kept_pure; [unfold requireModes, lift, final, mbind, SE_bind; by repeat case_match
                   |intros _].
  do 3 (apply kept_pure; [apply refuse_pure|intros _]).
  apply kept_pure; [done|intros s0]. apply kept_pure; [apply refuse_pure|intros _].
  apply (kept_put s tx); [done..|]. kept_solve.
Qed.

Lemma kept_statusFail {A} env e : mrel (kept P) (statusFail env lab e : M A).
Proof. unfold statusFail. mrel_steps. apply kept_status, _. Qed.

Lemma kept_recoveryFailed {A} env fence generation now e :
  mrel (kept P) (recoveryFailed env lab fence generation now e : M A).
Proof.
  unfold recoveryFailed, failRecovery. mrel_steps; [apply kept_markPhase|apply kept_statusFail].
Qed.

Lemma kept_forwardFailed {A} env fence generation why now e :
  mrel (kept P) (forwardFailed env lab fence generation why now e : M A).
Proof.
  unfold forwardFailed. mrel_steps; [apply kept_markPhase|apply kept_statusFail].
Qed.
End Steady.

#[export] Hint Extern 0 (mrel (kept _) saveCoordinationLocked) => eapply kept_save; apply _ : steady.
#[export] Hint Extern 0 (mrel (kept _) (markTransactionPhase _ _ _ _ _ _)) =>
  apply kept_markPhase; apply _ : steady.
#[export] Hint Extern 0 (mrel (kept _) (markForwardPhase _ _ _ _ _ _)) =>
  apply kept_markForwardPhase; apply _ : steady.
#[export] Hint Extern 0 (mrel (kept _) (recordForwardDataLoss _ _ _ _ _)) =>
  apply kept_recordForwardDataLoss; apply _ : steady.
#[export] Hint Extern 0 (mrel (kept _) (recordEvidence _ _ _ _ _)) =>
  apply kept_recordEvidence; apply _ : steady.
#[export] Hint Extern 0 (mrel (kept _) (markGenerationApplied _ _ _ _)) =>
  apply kept_applied; apply _ : steady.
#[export] Hint Extern 0 (mrel (kept _) (markGenerationApplying _ _ _ _)) =>
  apply kept_applying; apply _ : steady.
#[export] Hint Extern 0 (mrel (kept _) (beginRecovery _ _ _ _ _ _ _ _)) =>
  apply kept_beginRecovery; apply _ : steady.
#[export] Hint Extern 0 (mrel (kept _) (transactionInventoryStatus _ _)) =>
  apply kept_status; apply _ : steady.
#[export] Hint Extern 0 (mrel (kept _) (statusFail _ _ _)) => apply kept_statusFail; apply _ : steady.
#[export] Hint Extern 0 (mrel (kept _) (recoveryFailed _ _ _ _ _ _)) =>
  apply kept_recoveryFailed; apply _ : steady.
#[export] Hint Extern 0 (mrel (kept _) (forwardFailed _ _ _ _ _ _ _)) =>
  apply kept_forwardFailed; apply _ : steady.

(** Decomposes a computation and closes the steps known to be steady. *)
Ltac steady_steps := mrel_steps; try solve [ auto with steady | auto with frame ].

(** ** Chains of steps *)

(** From [P], after steps that keep it, a last step that reaches [Q]. *)
Lemma reach_bind {A B} (P Q : Server -> Prop) (m : M A) (k : A -> M B) s :
  (forall s0, P s0 -> Q s0) -> mrel (kept P) m ->
  (forall a s0, P s0 -> Q (final (k a) s0)) -> P s -> Q (final (m ≫= k) s).
Proof.
  intros HPQ Hm Hk Hs. specialize (Hm s Hs). unfold final, mbind, SE_bind in *.
  destruct (m s) as [s1 [a|e]]; simpl in *; [by apply (Hk a s1)|auto].
Qed.

Lemma ok_bind {A B} (P : Server -> Prop) (m : M A) (k : A -> M B) s s' b :
  (m ≫= k) s = (s', Ok b) -> mrel (kept P) m -> P s ->
  exists s1 a, m s = (s1, Ok a) /\ P s1 /\ k a s1 = (s', Ok b).
Proof.
  intros H Hm Hs. apply bind_ok_inv in H as (s1 & a & H1 & H2). exists s1, a.
  split; [done|]. split; [|done]. specialize (Hm s Hs). unfold final in Hm. by rewrite H1 in Hm.
Qed.

Lemma try_catch_ok_inv {A} (m : M A) (h : err -> M A) s s' a :
  (forall e s0 s1 b, h e s0 <> (s1, Ok b)) -> try_catch m h s = (s', Ok a) -> m s = (s', Ok a).
Proof.
  intros Hh. unfold try_catch. destruct (m s) as [s1 [b|e]]; [done|]. intros H. by apply Hh in H.
Qed.

Lemma host_ok o s s' : host o s = (s', Ok tt) -> s' = s.
Proof. destruct o; [done|]. by intros [= ->]. Qed.
Lemma hostValue_ok {A} (o : result string A) s s' a : hostValue o s = (s', Ok a) -> s' = s /\ o = Ok a.
Proof. destruct o; [|done]. by intros [= -> ->]. Qed.
Lemma lift_ok {A} (r : result err A) (s s' : Server) a : lift r s = (s', Ok a) -> s' = s /\ r = Ok a.
Proof. by intros [= -> ->]. Qed.
Lemma refuse_ok b (e : err) (s s' : Server) : refuse b e s = (s', Ok tt) -> s' = s /\ b = false.
Proof. rewrite refuse_run. destruct b; [done|]. by intros [= ->]. Qed.
Lemma when_ok b (m : M unit) (s s' : Server) :
  when b m s = (s', Ok tt) -> (b = true /\ m s = (s', Ok tt)) \/ (b = false /\ s' = s).
Proof. destruct b; simpl; [by left|]. intros [= ->]. by right. Qed.

Lemma statusFail_fails {A} env lab e s s1 (b : A) : statusFail env lab e s <> (s1, Ok b).
Proof. unfold statusFail. intros H. by apply bind_ok_inv in H as (? & ? & _ & ?). Qed.
Lemma recoveryFailed_fails {A} env lab fence g now e s s1 (b : A) :
  recoveryFailed env lab fence g now e s <> (s1, Ok b).
Proof.
  unfold recoveryFailed. intros H. apply bind_ok_inv in H as (? & ? & _ & H).
  by apply statusFail_fails in H.
Qed.
Lemma forwardFailed_fails {A} env lab fence g why now e s s1 (b : A) :
  forwardFailed env lab fence g why now e s <> (s1, Ok b).
Proof.
  unfold forwardFailed. intros H. apply bind_ok_inv in H as (? & ? & _ & H).
  by apply statusFail_fails in H.
Qed.

Lemma deferring_ok_inv {A} (m : M A) c s s' a :
  deferring m c s = (s', Ok a) -> exists s1, m s = (s1, Ok a) /\ s' = final c s1.
Proof.
  unfold deferring, final. destruct (m s) as [s1 r]. destruct (c s1) as [s2 r2] eqn:E.
  intros [= <- ->]. exists s1. by rewrite E.
Qed.

Lemma final_observe_bind {A B} (m : M A) (k : result err A -> M B) s :
  final (observe m ≫= k) s = final (k (value m s)) (final m s).
Proof. unfold final, value, observe, mbind, SE_bind. by destruct (m s). Qed.

(** The last phase of a recovery: the work settles the lab, the heartbeats
    that follow it find nothing left to report on. *)
Section Phase.
Context (P Q : Server -> Prop) (lab : string) `{!Steady P lab, !Steady Q lab}.
Context (pl : Duration) (run : PhaseRun) (fence : Fence) (generation target : string)
        (limit : Duration) (fn : M unit).

Lemma phase_reach s :
  (forall s0, P s0 -> P (final fn s0) \/ Q (final fn s0)) -> P s ->
  let s' := final (runRecoveryPhaseLimit pl run lab fence generation target limit fn) s in
  P s' \/ Q s'.
Proof.
  intros Hfn Hs. simpl. unfold runRecoveryPhaseLimit.
  apply (reach_bind P (fun s => P s \/ Q s)); [auto|by mrel_steps|clear s Hs|done].
  intros s0 s Hs.
  apply (reach_bind P (fun s => P s \/ Q s)); [auto|by mrel_steps|clear s Hs|done].
  intros _ s Hs.
  apply (reach_bind P (fun s => P s \/ Q s)); [auto|by apply kept_progress|clear s Hs|done].
  intros _ s Hs.
  apply (reach_bind P (fun s => P s \/ Q s)); [auto| |clear s Hs|done].
  { apply mrel_attempt. by apply kept_heartbeats. }
  intros beating s Hs. specialize (Hfn s Hs). rewrite final_observe_bind.
  set (r := value fn s). set (s1 := final fn s) in *.
  assert (mrel (kept (fun s => P s \/ Q s))
    (b ← (if beating then attempt (heartbeats pl lab fence generation
       (prNow run 1 + boundedRecoveryPhaseLimit lab generation limit (prNow run 0) s0)
       (prAfter run)) else mret false);
     refuse (negb b) (EHost "persist recovery heartbeat");; lift r)) as Hk.
  { mrel_steps. intros t [Ht|Ht]; [left|right];
      [by apply (kept_heartbeats P lab)|by apply (kept_heartbeats Q lab)]. }
  by apply (Hk s1).
Qed.

Lemma phase_ok s s' :
  runRecoveryPhaseLimit pl run lab fence generation target limit fn s = (s', Ok tt) -> P s ->
  (forall s0 s1, P s0 -> fn s0 = (s1, Ok tt) -> Q s1) -> Q s'.
Proof.
  intros H Hs Hfn. unfold runRecoveryPhaseLimit in H.
  apply (ok_bind P) in H as (s1 & s0 & _ & H1 & H); [|by mrel_steps|done].
  apply (ok_bind P) in H as (s2 & _ & _ & H2 & H); [|by mrel_steps|done].
  apply (ok_bind P) in H as (s3 & _ & _ & H3 & H); [|by apply kept_progress|done].
  apply (ok_bind P) in H as (s4 & b & _ & H4 & H);
    [|apply mrel_attempt; by apply kept_heartbeats|done].
  apply bind_ok_inv in H as (s5 & r & Hr & H). unfold observe in Hr.
  destruct (fn s4) as [s5' r'] eqn:Hf. injection Hr as -> ->.
  apply bind_ok_inv in H as (s6 & b' & Hb & H).
  apply bind_ok_inv in H as (s7 & [] & Hc & H). rewrite refuse_run in Hc.
  destruct b'; [|done]. injection Hc as <-. injection H as <- ->.
  assert (Q s5) as H5 by by apply (Hfn s4 s5).
  assert (mrel (kept Q) (if b then attempt (heartbeats pl lab fence generation
     (prNow run 1 + boundedRecoveryPhaseLimit lab generation limit (prNow run 0) s0)
     (prAfter run)) else mret false)) as Hk.
  { mrel_steps. by apply kept_heartbeats. }
  specialize (Hk s5 H5). unfold final in Hk. by rewrite Hb in Hk.
Qed.
End Phase.

(** A write of the journal leaves the memory alone. *)
Lemma wp_save_coord (Q : Server -> result err unit -> Prop) s :
  (forall s' r, coord s' = coord s -> Q s' r) -> wp saveCoordinationLocked Q s.
Proof.
  intros HQ. unfold wp.
  destruct (save_inv s) as [[-> _]|[(st & fs & _ & _ & ->)|(st & _ & ->)]]; by apply HQ.
Qed.

(** A step that keeps [P], in a run that may end in [P]. *)
Lemma wp_kept {A B} (P : Server -> Prop) (m : M A) (k : A -> M B) Q s :
  P s -> mrel (kept P) m -> (forall t e, P t -> Q t (Err e)) ->
  (forall a t, P t -> wp (k a) Q t) -> wp (m ≫= k) Q s.
Proof.
  intros Hs Hm He Hk. apply wp_bind. specialize (Hm s Hs). unfold wp, final in *.
  destruct (m s) as [t [a|e]]; simpl in *; [by apply Hk|by apply He].
Qed.

Lemma wp_deferring {A} (R : Server -> Prop) (m : M A) c s :
  (forall t, R t -> R (final c t)) -> wp m (fun t _ => R t) s ->
  wp (deferring m c) (fun t _ => R t) s.
Proof.
  intros Hc Hm. unfold wp, deferring in *. destruct (m s) as [t r]. simpl in *.
  specialize (Hc t Hm). unfold final in Hc. by destruct (c t).
Qed.

(** ** Rollback *)

Section Rollback.
Context (cfg : RecoveryConfig) (sidecar : Device -> option string).

Section KeptRollback.
Context (P : Server -> Prop) (lab : string) `{HP : !Steady P lab}.
Ltac same_step := apply (kept_same P lab); auto with frame.

Lemma kept_phaseRun run fence generation target limit fn :
  mrel (kept P) fn -> mrel (kept P) (phaseRun cfg run lab fence generation target limit fn).
Proof. apply kept_phase; apply _. Qed.

Lemma kept_exact env fence tx w node :
  mrel (kept P) (rollbackExactContracts cfg env lab fence tx w node).
Proof.
  unfold rollbackExactContracts.
  mrel_steps; auto with frame; apply kept_phaseRun; auto with frame.
Qed.

Lemma kept_rollbackPreparedApply env fence tx :
  mrel (kept P) (rollbackPreparedApply cfg sidecar env lab fence tx).
Proof.
  unfold rollbackPreparedApply. mrel_steps; auto with frame; try solve [same_step]; apply kept_exact.
Qed.

Lemma kept_restoreRecoveredTopology tx : mrel (kept P) (restoreRecoveredTopology lab tx).
Proof. unfold restoreRecoveredTopology. mrel_steps; same_step. Qed.

Lemma kept_replicateRecovered env tx : mrel (kept P) (replicateRecoveredDurability env tx).
Proof. unfold replicateRecoveredDurability. mrel_steps; auto with frame. Qed.

Lemma kept_recoveryPhase env fence generation n target limit fn :
  mrel (kept P) fn -> mrel (kept P) (recoveryPhase cfg env lab fence generation n target limit fn).
Proof.
  intros Hfn. unfold recoveryPhase. mrel_steps; [by apply kept_phaseRun|apply kept_recoveryFailed; apply _].
Qed.

Lemma kept_rollbackPhases env fence tx node :
  mrel (kept P) (rollbackPhases cfg sidecar env lab fence tx node).
Proof.
  unfold rollbackPhases. mrel_steps; try (apply kept_recoveryFailed; apply _);
    try apply kept_recoveryPhase; mrel_steps; auto with frame.
  - apply kept_rollbackPreparedApply.
  - apply kept_restoreRecoveredTopology.
  - apply kept_replicateRecovered.
Qed.
End KeptRollback.

(** The last phase: the recovered generation is persisted, or, when the
    journal cannot be written, the transaction is put back. *)
Lemma finishRecovered_spec lab fence q generation now s :
  openTx lab q s ->
  wp (finishRecoveredGeneration lab fence generation now) (fun s' r =>
    match r with
    | Ok _ => settledAt lab (txPreviousGen q) s'
    | Err _ => openTx lab q s'
    end) s.
Proof.
  intros (tx & Ht & Hq & Hc). assert (openTx lab q s) as Hp by by exists tx.
  unfold finishRecoveredGeneration, checkFence, generationTransaction. wp_steps.
  destruct (fenceErrorLocked lab fence now s); [|done]. wp_steps. rewrite Ht.
  destruct (decide (tGeneration tx = generation)); [|done]. wp_steps.
  apply wp_save_coord. intros s' [[]|?] Hc'.
  - unfold settledAt, transactions, genOf, generations, lookup_or. rewrite Hc'. simpl.
    rewrite lookup_delete_eq, lookup_insert_eq. simpl. unfold tPreviousGen. by rewrite Hq.
  - unfold putTx. wp_steps. exists tx. unfold transactions. simpl. by rewrite lookup_insert_eq.
Qed.

Section RollbackRun.
Context (env : RecoverEnv) (lab : string) (fence : Fence) (node : string) (q : txRequest).
Abbreviation P := (openTx lab q) (only parsing).
Abbreviation Q := (settledAt lab (txPreviousGen q)) (only parsing).

(** Steps that keep both ends keep "one of the two". *)
Lemma kept_either {A} (m : M A) :
  mrel (kept P) m -> mrel (kept Q) m -> mrel (kept (fun s => P s \/ Q s)) m.
Proof. intros HP HQ s [Hs|Hs]; [left; by apply HP|right; by apply HQ]. Qed.

Lemma either_bind {A B} (m : M A) (k : A -> M B) s :
  (P (final m s) \/ Q (final m s)) -> (forall a, mrel (kept (fun s => P s \/ Q s)) (k a)) ->
  P (final (m ≫= k) s) \/ Q (final (m ≫= k) s).
Proof.
  intros Hm Hk. unfold final, mbind, SE_bind in *.
  destruct (m s) as [s1 [a|e]]; simpl in *; [by apply (Hk a s1)|done].
Qed.

Lemma rollbackRecovery_reach tx s :
  P s -> let s' := final (rollbackRecovery cfg sidecar env lab fence tx node) s in P s' \/ Q s'.
Proof.
  intros Hs. simpl. unfold rollbackRecovery.
  apply (reach_bind P (fun s => P s \/ Q s)); [auto|apply kept_rollbackPhases; apply _| |done].
  clear s Hs. intros _ s Hs. apply either_bind.
  - unfold recoveryPhase.
    assert (P (final (phaseRun cfg (rePhases env 8) lab fence (tGeneration tx)
      "commit: persist recovered generation" (recoveryPhaseLimit cfg)
      (finishRecoveredGeneration lab fence (tGeneration tx) (reClock env 30))) s) \/
      Q (final (phaseRun cfg (rePhases env 8) lab fence (tGeneration tx)
      "commit: persist recovered generation" (recoveryPhaseLimit cfg)
      (finishRecoveredGeneration lab fence (tGeneration tx) (reClock env 30))) s)) as Hp.
    { apply (phase_reach P Q lab); [|done]. intros t Ht.
      pose proof (finishRecovered_spec lab fence q (tGeneration tx) (reClock env 30) t Ht) as Hw.
      unfold wp, final in *. destruct (finishRecoveredGeneration _ _ _ _ t) as [t' [?|?]]; auto. }
    unfold final, try_catch in *. destruct (phaseRun _ _ _ _ _ _ _ _ s) as [s1 [[]|e]]; [done|].
    apply (kept_either (recoveryFailed env lab fence (tGeneration tx) (reClock env 18) e));
      [apply kept_recoveryFailed; apply _..|done].
  - intros _. apply kept_either; apply kept_status; apply _.
Qed.

Lemma rollbackRecovery_ok tx s s' st :
  rollbackRecovery cfg sidecar env lab fence tx node s = (s', Ok st) -> P s -> Q s'.
Proof.
  intros H Hs. unfold rollbackRecovery in H.
  apply (ok_bind P) in H as (s1 & _ & _ & H1 & H); [|apply kept_rollbackPhases; apply _|done].
  apply bind_ok_inv in H as (s2 & [] & H2 & H). unfold recoveryPhase in H2.
  apply try_catch_ok_inv in H2; [|intros *; apply recoveryFailed_fails].
  assert (Q s2) as HQ.
  { refine (phase_ok P Q lab _ _ _ _ _ _ _ s1 s2 H2 H1 _). intros t t' Ht Hf.
    pose proof (finishRecovered_spec lab fence q (tGeneration tx) (reClock env 30) t Ht) as Hw.
    unfold wp in Hw. by rewrite Hf in Hw. }
  pose proof (kept_status Q lab (reStatus env) s2 HQ) as Hk. unfold final in Hk. by rewrite H in Hk.
Qed.
End RollbackRun.

(** *** Before the strategy runs *)

Lemma legacyPrestate_spec env lab tx s :
  transactions s !! lab = Some tx ->
  wp (legacyPrestate env lab tx) (fun s' r => exists tx',
    transactions s' !! lab = Some tx' /\ txReq tx' = txReq tx /\
    txCommitted tx' = txCommitted tx /\ (r = Ok tx' \/ exists e, r = Err e) /\
    txFenceGeneration tx' = txFenceGeneration tx /\ txPhase tx' = txPhase tx /\
    Inventories (coord s') = Inventories (coord s)) s.
Proof.
  intros Ht.
  assert (forall r, (r = Ok tx \/ exists e : err, r = Err e) ->
    exists tx', transactions s !! lab = Some tx' /\ txReq tx' = txReq tx /\
      txCommitted tx' = txCommitted tx /\ (r = Ok tx' \/ exists e, r = Err e) /\
      txFenceGeneration tx' = txFenceGeneration tx /\ txPhase tx' = txPhase tx /\
      Inventories (coord s) = Inventories (coord s)) as Hid.
  { intros r Hr. exists tx. split_and!; [done..| |done|done|done]. destruct Hr as [->|[e ->]]; eauto. }
  unfold legacyPrestate.
  destruct (txPrevious (txReq tx)) as [| |w]; [by apply Hid; auto| |];
    (destruct (negb (isZero _ && _)); [by apply Hid; auto|]); wp_step; wp_step; simpl;
    [by apply Hid; eauto|].
  wp_steps. destruct (wTopology w) as [top|]; [|apply Hid; eauto]. wp_steps.
  unfold lookup_or. rewrite Ht. simpl. rewrite bool_decide_true by done.
  unfold putTx. wp_steps. apply wp_save_coord. intros s' _ Hc. wp_steps.
  eexists. split; [unfold transactions; rewrite Hc; simpl; by rewrite lookup_insert_eq|].
  split_and!; [done|done|auto|done|done|by rewrite Hc].
Qed.

Lemma reopen_spec lab fence generation now tx s :
  transactions s !! lab = Some tx -> txCommitted tx = true ->
  wp (reopenCommittedTransaction lab fence generation now) (fun s' r =>
    match r with
    | Ok tx' => openTx lab (txReq tx) s' /\ txReq tx' = txReq tx
    | Err _ => True
    end) s.
Proof.
  intros Ht Hc. unfold reopenCommittedTransaction, checkFence, generationTransaction. wp_steps.
  destruct (fenceErrorLocked lab fence now s); [|done]. wp_steps. rewrite Ht.
  destruct (decide (tGeneration tx = generation)); [|done]. wp_steps. rewrite Hc. simpl. wp_steps;
    try done. apply wp_save_coord. intros s' [[]|?] Hco; wp_steps; [|done].
  split; [|done]. eexists.
  split; [unfold transactions; rewrite Hco; simpl; by rewrite lookup_insert_eq|done].
Qed.

(** The lab's records after the guards of a recovery. *)
Lemma requireFence_view lab fence now now' s s' r :
  requireMutationFence lab fence now now' s = (s', r) -> labView lab s' = labView lab s.
Proof.
  intros H. pose proof (same_requireMutationFence lab lab fence now now' s) as Hv.
  unfold final in Hv. rewrite H in Hv. exact Hv.
Qed.

End Rollback.

Lemma beginRecovery_request lab fence generation strategy total o pl now q s s' tx :
  openTx lab q s ->
  beginRecovery lab fence generation strategy total o pl now s = (s', Ok tx) -> txReq tx = q.
Proof.
  intros (tx1 & Ht & Hq & _). unfold beginRecovery. intros H. apply checkFence_ok_inv in H as [_ H].
  apply bind_ok_inv in H as (s1 & tx0 & H0 & H). unfold generationTransaction in H0.
  apply bind_ok_inv in H0 as (s2 & s3 & [= <- <-] & H0). rewrite Ht in H0.
  case_decide; [|done]. injection H0 as <- <-.
  do 4 (apply bind_ok_inv in H as (? & ? & _ & H)).
  apply bind_ok_inv in H as (? & s4 & _ & H). do 4 (apply bind_ok_inv in H as (? & ? & _ & H)).
  injection H as _ <-. done.
Qed.

(** A recovery that reports success has begun: the transaction was open
    (reopened, if it was committed and the cluster asked) when the strategy
    took over, and what it left is what the strategy left. *)
Lemma recovery_begins cfg sidecar env lab fence strategy options tx s s' st :
  transactions s !! lab = Some tx ->
  txCommitted tx && (negb (optRollbackCommitted options) || bool_decide (strategy = "forward"))
    = false ->
  recoverTransactionStrategyOptions cfg sidecar env lab fence strategy options s = (s', Ok st) ->
  exists s1 tx1 node s2 id, openTx lab (txReq tx) s1 /\ txReq tx1 = txReq tx /\
    (if bool_decide (strategy = "forward") then forwardRecovery cfg env lab fence tx1 node
     else rollbackRecovery cfg sidecar env lab fence tx1 node) s1 = (s2, Ok st) /\
    s' = final (releaseOperation lab id) s2.
Proof.
  intros Ht Hmay H. unfold recoverTransactionStrategyOptions in H. cbn beta zeta in H.
  apply bind_ok_inv in H as (? & [] & [-> _]%refuse_ok & H).
  apply bind_ok_inv in H as (s1 & [] & H1 & H).
  apply requireFence_view in H1 as [= Ht1 _]. rewrite Ht in Ht1.
  erewrite bind_ok in H by reflexivity. rewrite Ht1 in H.
  apply bind_ok_inv in H as (s2 & tx2 & H2 & H).
  pose proof (legacyPrestate_spec env lab tx s1 Ht1) as (tx' & Ht2 & Hq2 & Hc2 & Hr & _).
  unfold wp in Ht2. rewrite H2 in *. simpl in *. destruct Hr as [[= <-]|[e ?]]; [|done].
  rewrite Hc2, Hmay in H. apply bind_ok_inv in H as (s3 & tx3 & H3 & H).
  assert (openTx lab (txReq tx) s3) as Hp3.
  { destruct (txCommitted tx) eqn:Hc.
    - apply try_catch_ok_inv in H3; [|intros *; apply statusFail_fails].
      pose proof (reopen_spec lab fence (tGeneration tx2) (reClock env 4) tx2 s2 Ht2 Hc2) as Hw.
      unfold wp in Hw. rewrite H3, Hq2 in Hw. apply Hw.
    - injection H3 as <- <-. by exists tx2. }
  apply (ok_bind (openTx lab (txReq tx))) in H as (s4 & id & _ & Hp4 & H); [| |done].
  2: { steady_steps. apply (kept_same _ lab); auto with frame. }
  apply deferring_ok_inv in H as (s5 & H & ->).
  apply (ok_bind (openTx lab (txReq tx))) in H as (s6 & tx6 & H6 & Hp6 & H); [|by steady_steps|done].
  apply try_catch_ok_inv in H6; [|intros *; apply statusFail_fails].
  exists s6, tx6, (srvNode s1), s5, id. split_and!; [done| |done|done].
  by apply (beginRecovery_request _ _ _ _ _ _ _ _ _ _ _ _ Hp4 H6).
Qed.
