(* ===== verification/HandlerSafety.v ===== *)
(** * What a successful phase proves

    The theorems of the deployment handlers: what a prepare records, what a
    commit has observed before it acknowledges, that a forward recovery ends
    at the requested generation; and some behaviours of the error paths. *)

From stdpp Require Import base gmap strings list sorting fin_maps.
From Stdlib Require Import ZArith Lia.
From S2P Require Import Prelude Model Coordination Transactions Ephemeral Restart Fencing Claims.
From S2P Require Import TxSafety Inventory Handlers Recovery RecoverySafety.

Open Scope Z_scope.

(** ** The committed inventory *)

Lemma byDevice_none_from l (m : gmap string transactionContainer) id :
  fold_left (fun m c => <[tcDeviceID c := c]> m) l m !! id = None ->
  id ∉ map tcDeviceID l /\ m !! id = None.
Proof.
  revert m. induction l as [|x l IH]; intros m; simpl; [set_solver|].
  intros [Hl Hm]%IH. destruct (decide (tcDeviceID x = id)) as [<-|]; simplify_map_eq.
  split; [|done]. set_solver.
Qed.

Lemma expectedContainers_ids spec tx pre obs devices l :
  expectedContainers spec tx pre obs devices = Ok l -> map tcDeviceID l = map devID devices.
Proof.
  revert l. induction devices as [|d devices IH]; intros l; simpl; [by intros [= <-]|].
  repeat case_match; try done. intros [= <-]. simpl. f_equal. by apply IH.
Qed.

Lemma expectedFinal_ids spec ov top node tx obs now inv :
  expectedTransactionInventoryFinal spec ov top node tx obs now = Ok inv ->
  map tcDeviceID (invContainers inv) ≡ₚ map devID (DevicesOnNode top node).
Proof.
  unfold expectedTransactionInventoryFinal.
  destruct (expectedContainers _ _ _ _ _) as [l|] eqn:Hl; [|done].
  destruct ov as [ov|]; [|done]. destruct (preserveLegacyTrunkPort ov obs) as [bs ts].
  intros [= <-]. simpl. rewrite <- (expectedContainers_ids _ _ _ _ _ _ Hl).
  unfold sortContainers. by rewrite (merge_sort_Permutation byName l).
Qed.

(** The container of a device that the topology places on the node, under the
    name and with the final specification of that device. *)
Definition placedAs (env : CommitEnv) (top : Topology) (node : string)
    (c : transactionContainer) : Prop :=
  exists d, d ∈ DevicesOnNode top node /\ devID d = tcDeviceID c /\ devContainer d = tcName c /\
    ceFinalSpec env d = Ok (tcSpec c).

(** An object the commit may find on the node: of a device placed there, and
    recorded in the transaction if that records what it touched; or, when the
    deployment does not prune, of a device placed elsewhere. *)
Definition explained (env : CommitEnv) (tx : applyTransaction) (top : Topology) (node : string)
    (c : transactionContainer) : Prop :=
  (placedAs env top node c /\ (txTouchedKnown (txEvid tx) = true -> recordedOrigin tx c)) \/
  (txPrune (txReq tx) = false /\ tcDeviceID c ∉ map devID (DevicesOnNode top node)).

(** Every device placed on the node has an object in the list. *)
Definition complete (top : Topology) (node : string) (l : list transactionContainer) : Prop :=
  forall d, d ∈ DevicesOnNode top node -> devID d ∈ map tcDeviceID l.

Lemma expectedContainers_placed spec tx pre obs devices l :
  expectedContainers spec tx pre obs devices = Ok l ->
  Forall (fun c => exists d, d ∈ devices /\ devID d = tcDeviceID c /\ devContainer d = tcName c /\
                     spec d = Ok (tcSpec c)) l.
Proof.
  revert l. induction devices as [|d devices IH]; intros l; simpl; [intros [= <-]; constructor|].
  destruct (spec d) as [sp|] eqn:Hs; [|done]. destruct (expectedObjectGeneration _ _ _ _ _ _); [|done].
  destruct (expectedContainers _ _ _ _ _) as [rest|]; [|done]. intros [= <-]. constructor.
  - exists d. split_and!; [left|done..].
  - eapply Forall_impl; [by apply IH|]. intros c (d' & Hd & ?). exists d'. split; [by right|done].
Qed.

Lemma expectedFinal_placed spec ov top node tx obs now inv :
  expectedTransactionInventoryFinal spec ov top node tx obs now = Ok inv ->
  Forall (fun c => exists d, d ∈ DevicesOnNode top node /\ devID d = tcDeviceID c /\
                     devContainer d = tcName c /\ spec d = Ok (tcSpec c)) (invContainers inv).
Proof.
  unfold expectedTransactionInventoryFinal.
  destruct (expectedContainers _ _ _ _ _) as [l|] eqn:Hl; [|done].
  destruct ov as [ov|]; [|done]. destruct (preserveLegacyTrunkPort ov obs) as [bs ts].
  intros [= <-]. simpl. unfold sortContainers. rewrite (merge_sort_Permutation byName l).
  by eapply expectedContainers_placed.
Qed.

(** What the merge has seen is in its result. *)
Lemma mergeContainers_seen l0 seen l out seen' :
  mergeContainers (byDevice l0) seen l = Ok (out, seen') ->
  forall id, id ∈ seen' -> id ∈ seen \/ id ∈ map tcDeviceID out.
Proof.
  revert seen out seen'. induction l as [|c l IH]; intros seen out seen'; simpl.
  { intros [= <- <-] id ?. by left. }
  destruct (byDevice l0 !! tcDeviceID c) as [want|] eqn:Hw.
  - case_match; [done|]. case_match; [done|].
    destruct (mergeContainers _ _ l) as [[rest s2]|] eqn:E; [|done].
    intros [= <- <-] id Hid. apply byDevice_elem in Hw as [_ Hw].
    destruct (IH _ _ _ E id Hid) as [[->|?]%elem_of_cons|?]; [|by left|].
    + right. simpl. rewrite Hw. left.
    + right. simpl. by right.
  - destruct (mergeContainers _ _ l) as [[rest s2]|] eqn:E; [|done].
    intros [= <- <-] id Hid. destruct (IH _ _ _ E id Hid); [by left|right; simpl; by right].
Qed.

Lemma recordedOrigin_same tx a b :
  sameObject a b = true -> tcGeneration a = tcGeneration b -> recordedOrigin tx a ->
  recordedOrigin tx b.
Proof.
  intros Hs Hg [[Ht Hgen]|(p & Hp & Hsp & Hgp)]; [left|right].
  - apply sameObject_true in Hs as (_ & <- & _). by rewrite <- Hg.
  - exists p. split; [done|]. split; [|congruence].
    apply sameObject_true in Hs as (H1 & H2 & H3). apply sameObject_true in Hsp as (H4 & H5 & H6).
    unfold sameObject. rewrite !bool_decide_true by congruence. done.
Qed.

Lemma merged_complete top node e act m :
  map tcDeviceID (invContainers e) ≡ₚ map devID (DevicesOnNode top node) ->
  mergePreservedInventory e act = Ok m -> complete top node (invContainers m).
Proof.
  intros Hids Hm. unfold mergePreservedInventory in Hm.
  destruct (mergeContainers _ _ _) as [[cs seen]|] eqn:Hc; [|done].
  destruct (List.find _ (map fst _)) eqn:Hf; [done|].
  destruct (List.find _ (invVNIs e)); [done|].
  injection Hm as <-. simpl. intros d Hd.
  assert (devID d ∈ map tcDeviceID (invContainers e)) as Hin.
  { rewrite Hids. by apply list_elem_of_fmap_2. }
  destruct (byDevice (invContainers e) !! devID d) as [c|] eqn:Hb;
    [|by apply byDevice_none_from in Hb as [? _]].
  destruct (mergeContainers_seen _ _ _ _ _ Hc (devID d)) as [?%elem_of_nil|?]; [|done..].
  eapply List.find_none in Hf; [|apply list_elem_of_In, list_elem_of_fmap; exists (devID d, c);
    by rewrite elem_of_map_to_list]. by apply negb_false_iff, bool_decide_eq_true in Hf.
Qed.

Lemma verified_inventory_explained env top node tx now n actual inv :
  verifyCommitInventory env top node tx now n = Ok (actual, inv) ->
  Forall (explained env tx top node) (invContainers inv) /\ complete top node (invContainers inv).
Proof.
  unfold verifyCommitInventory. destruct (ceSnapshot env n) as [act|]; [|done].
  destruct (expectedTransactionInventoryFinal _ _ _ _ _ _ _) as [e|] eqn:He; [|done].
  pose proof (expectedFinal_placed _ _ _ _ _ _ _ _ He) as Hpl.
  pose proof (expectedFinal_ids _ _ _ _ _ _ _ _ He) as Hids.
  assert (forall c, c ∈ invContainers e -> explained env tx top node c) as Hex.
  { intros c Hc. left. split; [by eapply Forall_forall in Hpl|]. intros Hk.
    pose proof (expectedFinal_origin _ _ _ _ _ _ _ _ Hk He) as Ho. by eapply Forall_forall in Ho. }
  destruct (txPrune (txReq tx)) eqn:Hp.
  { intros [= <- <-]. split; [by apply Forall_forall|]. intros d Hd. rewrite Hids.
    by apply list_elem_of_fmap_2. }
  destruct (mergePreservedInventory e act) as [m|[]] eqn:Hm; [|done|done]. intros [= <- <-].
  split; [|by eapply merged_complete]. unfold mergePreservedInventory in Hm.
  destruct (mergeContainers _ _ _) as [[cs seen]|] eqn:Hc; [|done].
  destruct (List.find _ _); [done|]. destruct (List.find _ _); [done|]. injection Hm as <-. simpl.
  apply mergeContainers_from in Hc. eapply Forall_impl; [done|]. intros o [[id Hid]|[_ Hno]].
  - apply byDevice_elem in Hid as [Hid _]. by apply Hex.
  - right. split; [done|]. apply byDevice_none_from in Hno as [Hno _]. by rewrite Hids in Hno.
Qed.

Lemma observed_explained env tx top node inv actual :
  Forall (explained env tx top node) (invContainers inv) -> complete top node (invContainers inv) ->
  inventoryMatchesCommitted inv actual = Ok tt ->
  Forall (explained env tx top node) (invContainers actual) /\ complete top node (invContainers actual).
Proof.
  intros Hi Hco Hm. apply inventoryMatchesCommitted_containers in Hm. split.
  - clear Hco. induction Hm as [|a b l k [Hs Hg] _ IH]; [constructor|].
    inversion Hi as [|? ? Ha Hl]; subst. constructor; [|by apply IH].
    pose proof (sameObject_true _ _ Hs) as (H1 & H2 & H3).
    destruct Ha as [[(d & Hd & E1 & E2 & E3) Ho]|[Hp Hd]]; [left|right; by rewrite <- H2].
    split; [exists d; split_and!; congruence|].
    intros Hk. by apply (recordedOrigin_same tx a), Ho.
  - intros d Hd. specialize (Hco d Hd).
    enough (map tcDeviceID (invContainers inv) = map tcDeviceID (invContainers actual)) as <- by done.
    clear Hi Hco. induction Hm as [|a b l k [Hs _] _ IH]; [done|]. simpl.
    apply sameObject_true in Hs as (_ & -> & _). by f_equal.
Qed.

(** ** A commit that is acknowledged *)

Definition committedAt (lab generation : string) (s : Server) : Prop :=
  (exists tx, transactions s !! lab = Some tx /\ txCommitted tx = true /\
     tGeneration tx = generation) /\ gCommitted (genOf s lab) = generation.

Lemma finishCommitted_ok lab fence generation inv now s s' :
  finishCommittedGeneration lab fence generation (Some inv) now s = (s', Ok tt) ->
  committedAt lab generation s' /\ Inventories (coord s') !! lab = Some inv /\ durable s'.
Proof.
  intros H. unfold finishCommittedGeneration in H.
  apply checkFence_ok_inv in H as [_ H].
  apply ownApplied_ok_inv in H as (tx & Ht & Hg & _ & _ & H).
  erewrite bind_ok in H by reflexivity. apply try_save_ok_inv in H as [Hc Hd]; [|done].
  unfold committedAt, transactions, genOf, generations, lookup_or. rewrite Hc. simpl.
  rewrite !lookup_insert_eq. split_and!; try done. eexists. by split_and!.
Qed.

Lemma retryFrom_ok {A} ctx verify repair more n (a : A) :
  retryFrom ctx verify repair more n = Ok a -> exists k, verify k = Ok a.
Proof.
  revert n. induction more as [|more IH]; intros n; simpl; [done|].
  destruct (ctx n); [done|]. destruct (verify n) as [b|[]] eqn:Hv; [|destruct more|done].
  - intros [= <-]. eauto.
  - done.
  - destruct (repair n); [done|]. apply IH.
Qed.

(** What a commit has seen when it acknowledges. *)
Definition commitProof (env : CommitEnv) (top : Topology) (node : string) (tx : applyTransaction)
    (s' : Server) : Prop :=
  exists n actual inv, ceSnapshot env n = Ok actual /\
    inventoryMatchesCommitted inv actual = Ok tt /\
    Inventories (coord s') !! topName top = Some inv /\
    complete top node (invContainers actual) /\
    Forall (explained env tx top node) (invContainers actual).

Lemma sealCommit_ok clock env top fence tx resp s s' resp' :
  sealCommit clock env top fence tx resp s = (s', Ok resp') -> apFailures resp' = ∅ ->
  committedAt (topName top) (tGeneration tx) s' /\ durable s' /\
  commitProof env top (srvNode s) tx s'.
Proof.
  intros H Hf. unfold sealCommit in H. erewrite bind_ok in H by reflexivity.
  apply bind_ok_inv in H as (s1 & b & _ & H). case_match eqn:Hfail.
  { injection H as <- <-. by rewrite Hf in Hfail. }
  apply bind_ok_inv in H as (s2 & [actual inv] & Hv & H). rewrite lift_run in Hv.
  injection Hv as <- Hv.
  apply retryFrom_ok in Hv as [n Hv].
  apply bind_ok_inv in H as (s3 & [] & H3 & H). unfold inspect in H3. injection H3 as <- _.
  apply bind_ok_inv in H as (s4 & [] & H4 & H). rewrite lift_run in H4. injection H4 as <- Hm.
  apply bind_ok_inv in H as (s5 & [] & H5 & H).
  apply host_ok in H5 as ->.
  apply bind_ok_inv in H as (s6 & [] & H6 & H). injection H as <- _.
  apply finishCommitted_ok in H6 as (Hc & Hi & Hd). split_and!; [done..|].
  pose proof (verified_inventory_explained _ _ _ _ _ _ _ _ Hv) as [He Hco].
  destruct (observed_explained _ _ _ _ _ _ He Hco Hm) as [He' Hco'].
  exists n, actual, inv. split_and!; try done.
  unfold verifyCommitInventory in Hv. destruct (ceSnapshot env n); [|done].
  repeat case_match; try done; by injection Hv as -> _.
Qed.

Lemma transactionForCommit_ok lab fence generation now s s' tx :
  transactionForCommit lab fence generation now s = (s', Ok tx) ->
  s' = s /\ transactions s !! lab = Some tx /\ tGeneration tx = generation /\ txApplied tx = true.
Proof.
  intros H. unfold transactionForCommit in H. apply checkFence_ok_inv in H as [_ H].
  apply ownApplied_ok_inv in H as (tx0 & Ht & Hg & _ & Ha & H).
  do 2 (apply bind_ok_inv in H as (? & [] & [-> _]%refuse_ok & H)).
  apply bind_ok_inv in H as (s1 & [] & H1 & H). injection H as <- <-.
  split; [|done]. unfold requireModes in H1.
  do 2 (apply bind_ok_inv in H1 as (? & ? & [-> _]%lift_ok & H1)). by injection H1 as <-.
Qed.

(** *** The node keeps its name *)

Section Node.
Abbreviation sameNode := (unchanged srvNode) (only parsing).
Lemma node_save : mrel sameNode saveCoordinationLocked.
Proof. by apply mrel_save. Qed.
Lemma node_putTopology lab raw : mrel sameNode (putTopology lab raw).
Proof. intros s. unfold final, putTopology. by repeat case_match. Qed.
Hint Resolve node_save node_putTopology : node.
Ltac node_solve := mrel_steps; try solve [ auto with node | done ].

Lemma node_recordCommitted clock top w tx d p : mrel sameNode (recordCommitted clock top w tx d p).
Proof.
  unfold recordCommitted, noteEphemeralLease, forgetEphemeralLease, putEphemeral. node_solve.
Qed.
Lemma node_refuseIfHeld lab token now : mrel sameNode (refuseIfHeld lab token now).
Proof.
  unfold refuseIfHeld, refuseMutationIfHeld. node_solve. unfold dropLapsedHold.
  by repeat case_match.
Qed.
End Node.

Lemma unchanged_run {A T} (f : Server -> T) (m : M A) s s' r :
  mrel (unchanged f) m -> m s = (s', r) -> f s' = f s.
Proof. intros Hm H. specialize (Hm s). unfold final in Hm. by rewrite H in Hm. Qed.

Lemma commitApplied_ok clock env top w fence tx s s' resp :
  commitAppliedTopology clock env top w fence tx s = (s', Ok resp) -> apFailures resp = ∅ ->
  committedAt (topName top) (tGeneration tx) s' /\ durable s' /\
  commitProof env top (srvNode s) tx s'.
Proof.
  intros H Hf. unfold commitAppliedTopology in H.
  apply bind_ok_inv in H as (s1 & desired & H1 & H). apply lift_ok in H1 as [-> _].
  apply bind_ok_inv in H as (s2 & previous & H2 & H). apply lift_ok in H2 as [-> _].
  apply bind_ok_inv in H as (s3 & [] & H3 & H).
  pose proof (unchanged_run srvNode _ _ _ _ (node_recordCommitted _ _ _ _ _ _) H3) as <-.
  erewrite bind_ok in H by reflexivity.
  apply bind_ok_inv in H as (s4 & [] & H4 & H). apply lift_ok in H4 as [-> _].
  apply bind_ok_inv in H as (s5 & [] & H5 & H). assert (s5 = s3) as ->.
  { apply when_ok in H5 as [[_ H5]|[_ ->]]; [|done]. by apply lift_ok in H5 as [-> _]. }
  apply bind_ok_inv in H as (s6 & [] & H6 & H). assert (s6 = s3) as ->.
  { apply when_ok in H6 as [[_ H6]|[_ ->]]; [|done]. by apply host_ok in H6 as ->. }
  do 2 (apply bind_ok_inv in H as (? & [] & ?%host_ok & H); subst).
  destruct (txPrune (txReq tx)); [|by eapply sealCommit_ok].
  apply bind_ok_inv in H as (? & [] & ?%host_ok & H); subst.
  unfold commitPrune in H. destruct (solvePruneEntitlement _ _ _ _) as [p|e].
  - by eapply sealCommit_ok.
  - injection H as _ <-. exfalso. revert Hf. unfold addApplyFailure. simpl.
    apply insert_non_empty.
Qed.

Lemma commit_proven clock env req s s' resp :
  handleApplyCommit clock env req s = (s', Ok resp) -> apFailures resp = ∅ ->
  exists tx w top, transactions s !! requestLab req = Some tx /\
    tGeneration tx = arGeneration req /\ txApplied tx = true /\
    rawWire (txRequested (txReq tx)) = Ok w /\ rehydrateWire w = Ok top /\
    topName top = requestLab req /\
    (txCommitted tx = true \/
     (committedAt (requestLab req) (arGeneration req) s' /\ durable s' /\
      commitProof env top (srvNode s) tx s')).
Proof.
  intros H Hf. unfold handleApplyCommit in H.
  apply bind_ok_inv in H as (s0 & [] & H0 & H). apply refuse_ok in H0 as [-> _].
  apply bind_ok_inv in H as (s1 & [] & H1 & H).
  pose proof (unchanged_run srvNode _ _ _ _ (node_refuseIfHeld _ _ _) H1) as Hn1.
  assert (labView (requestLab req) s1 = labView (requestLab req) s) as Hv1.
  { refine (unchanged_run (labView (requestLab req)) _ _ _ _ _ H1). unfold refuseIfHeld.
    mrel_steps. auto with frame. }
  apply bind_ok_inv in H as (s2 & tx & H2 & H).
  apply transactionForCommit_ok in H2 as (-> & Ht & Hg & Ha).
  injection Hv1 as Hv1 _. rewrite Hv1 in Ht.
  apply bind_ok_inv in H as (s3 & w & H3 & H). apply lift_ok in H3 as [-> Hw].
  apply bind_ok_inv in H as (s4 & top & H4 & H). apply lift_ok in H4 as [-> Htop].
  erewrite bind_ok in H by reflexivity.
  apply bind_ok_inv in H as (s5 & [] & H5 & H). apply lift_ok in H5 as [-> _].
  apply bind_ok_inv in H as (s6 & [] & H6 & H). apply refuse_ok in H6 as [-> Hname].
  apply negb_false_iff, bool_decide_eq_true in Hname. exists tx, w, top. split_and!; try done.
  apply bind_ok_inv in H as (s7 & [] & H7 & H). assert (srvNode s7 = srvNode s) as Hn7.
  { rewrite <- Hn1. refine (unchanged_run srvNode _ _ _ _ _ H7). unfold acquire, acquireOperation.
    mrel_steps. done. }
  apply deferring_ok_inv in H as (s8 & H & ->).
  destruct (txCommitted tx) eqn:Hc; [by left|right].
  apply bind_ok_inv in H as (s9 & r & H9 & H).
  apply try_catch_ok_inv in H9; [|by intros].
  apply bind_ok_inv in H as (s10 & [] & H10 & H). injection H as <- <-.
  apply when_ok in H10 as [[Hne _]|[_ ->]]; [by rewrite bool_decide_true in Hne|].
  apply commitApplied_ok in H9 as (Hca & Hd & Hp); [|done].
  rewrite Hname, Hg in Hca. rewrite Hn7 in Hp. split_and!; done.
Qed.

(** C6. An acknowledged commit is a proven one. When the commit handler
    reports no failure, the transaction was an applied one of this
    generation, and either it had been committed before or the generation is
    now the committed one, in memory and in the journal, and the inventory
    recorded for it agrees with an observation of the node made during this
    commit, object by object, generation labels included: in it every device
    that the transaction's requested topology places on this node has its
    container, and every container is that of such a device, under its name and
    with its final specification, or (without pruning) of a device placed
    elsewhere. If the transaction recorded what it touched (transactions
    journalled by earlier versions may not), the containers of the first kind
    were touched by it and carry its generation, or stood there before it under
    the same name, specification and label. *)
Theorem commit_is_proven clock env req s s' resp :
  handleApplyCommit clock env req s = (s', Ok resp) -> apFailures resp = ∅ ->
  exists tx w top, transactions s !! requestLab req = Some tx /\
    tGeneration tx = arGeneration req /\ txApplied tx = true /\
    rawWire (txRequested (txReq tx)) = Ok w /\ rehydrateWire w = Ok top /\
    topName top = requestLab req /\
    (txCommitted tx = true \/
     (committedAt (requestLab req) (arGeneration req) s' /\ durable s' /\
      commitProof env top (srvNode s) tx s')).
Proof. apply commit_proven. Qed.

(** ** Rollback *)

Lemma rollback_settles cfg sidecar env lab fence options s s' st tx :
  transactions s !! lab = Some tx ->
  txCommitted tx = false \/ optRollbackCommitted options = true ->
  recoverTransactionStrategyOptions cfg sidecar env lab fence "rollback" options s = (s', Ok st) ->
  transactions s' !! lab = None /\ gCommitted (genOf s' lab) = tPreviousGen tx.
Proof.
  intros Ht Hmay H. apply recovery_begins with (tx := tx) in H
    as (s1 & tx1 & node & s2 & id & Hp & _ & H & ->); [|done|].
  - pose proof (rollbackRecovery_ok _ _ _ _ _ _ _ _ _ _ _ H Hp) as HQ.
    apply (kept_same (settledAt lab (tPreviousGen tx)) lab); [auto with frame|exact HQ].
  - rewrite orb_false_r. destruct Hmay as [->| ->]; [done|by rewrite andb_false_r].
Qed.

(** C7. A rollback ends at the previous generation. When a recovery with the
    rollback strategy reports success, whatever the host work, the clock and
    the journal did in between, the lab's transaction is gone and its
    committed generation is the one the transaction replaced; this also
    undoes a generation that this node had committed, when the cluster asked
    for that. *)
Theorem rollback_restores_previous cfg sidecar env lab fence options s s' st tx :
  transactions s !! lab = Some tx ->
  txCommitted tx = false \/ optRollbackCommitted options = true ->
  recoverTransactionStrategyOptions cfg sidecar env lab fence "rollback" options s = (s', Ok st) ->
  transactions s' !! lab = None /\ gCommitted (genOf s' lab) = tPreviousGen tx.
Proof. apply rollback_settles. Qed.

(** C8. A rollback never loses the material it works from. Whatever a recovery
    with the rollback strategy returns (a refusal, a failed phase, a lost
    write, a stopped heartbeat), an uncommitted transaction is afterwards
    either still there, uncommitted and with the request it was prepared
    with, so that the rollback can be run again, or gone with the lab back at
    the generation it replaced. *)
Theorem rollback_never_forgets cfg sidecar env lab fence options s tx :
  transactions s !! lab = Some tx -> txCommitted tx = false ->
  let s' := final (recoverTransactionStrategyOptions cfg sidecar env lab fence "rollback" options) s in
  (exists tx', transactions s' !! lab = Some tx' /\ txReq tx' = txReq tx /\
     txCommitted tx' = false) \/
  (transactions s' !! lab = None /\ gCommitted (genOf s' lab) = tPreviousGen tx).
Proof.
  intros Ht Hc. simpl.
  change (wp (recoverTransactionStrategyOptions cfg sidecar env lab fence "rollback" options)
    (fun s' _ => openTx lab (txReq tx) s' \/ settledAt lab (txPreviousGen (txReq tx)) s') s).
  assert (openTx lab (txReq tx) s) as Hs by by exists tx. revert Hs. generalize (txReq tx).
  clear tx Ht Hc. intros q Hs. unfold recoverTransactionStrategyOptions. cbn beta zeta.
  apply (wp_kept (openTx lab q)); [done|by mrel_steps|auto|]. clear s Hs. intros _ s Hs.
  apply (wp_kept (openTx lab q)); [done|apply (kept_same _ lab); auto with frame|auto|].
  clear s Hs. intros _ s (tx & Ht & Hq & Hc). apply wp_bind, wp_get. rewrite Ht.
  apply wp_bind. eapply wp_mono; [by apply legacyPrestate_spec|].
  intros s1 r (tx1 & Ht1 & Hq1 & Hc1 & Hr & _). assert (openTx lab q s1) as Hs.
  { exists tx1. split_and!; congruence. }
  destruct Hr as [->|[e ->]]; [|by left]. rewrite Hc1, Hc. cbn [andb]. apply wp_bind, wp_ret.
  apply (wp_kept (openTx lab q)); [done| |auto|].
  { mrel_steps; [|apply kept_statusFail; apply _]. apply (kept_same _ lab); auto with frame. }
  clear s1 Hs Ht1. intros id s1 Hs. rewrite bool_decide_false by done.
  apply wp_deferring; [intros s2 [H2|H2]|].
  - left. apply (kept_same (openTx lab q) lab); [auto with frame|done].
  - right. apply (kept_same (settledAt lab (txPreviousGen q)) lab); [auto with frame|done].
  - apply (wp_kept (openTx lab q)); [done| |auto|].
    { mrel_steps; [apply kept_beginRecovery|apply kept_statusFail]; apply _. }
    clear s1 Hs. intros tx2 s1 Hs. by apply rollbackRecovery_reach.
Qed.

(** ** Forward recovery *)

Section Forward.
Context (lab : string) (q : txRequest).
Abbreviation P := (openTx lab q) (only parsing).

Lemma kept_adoptForward fence tx : mrel (kept P) (adoptForward lab fence tx).
Proof.
  unfold adoptForward. apply mrel_get_bind. intros s (cur & Ht & Hq & Hc).
  unfold lookup_or. rewrite Ht. simpl. assert (P s) as Hs by by exists cur. revert Hs.
  apply (kept_pure P); [apply refuse_pure|intros _].
  apply (kept_put P lab s cur); [done..|]. intros _. mrel_steps. apply (kept_save P lab).
Qed.

Lemma kept_forwardStart env fence tx top : mrel (kept P) (forwardStart env lab fence tx top).
Proof.
  unfold forwardStart.
  steady_steps; [apply (kept_same P lab); auto with frame|apply kept_adoptForward].
Qed.

Lemma kept_forwardApply env fence generation cur :
  mrel (kept P) (forwardApply env lab fence generation cur).
Proof.
  unfold forwardApply, recordGenerationTouched, recordGenerationSemantic. steady_steps.
Qed.

(** The transaction the commit of a forward recovery works on. *)
Lemma forwardApply_request env fence generation cur s s' tx :
  P s -> forwardApply env lab fence generation cur s = (s', Ok tx) -> txReq tx = q.
Proof.
  intros Hs H. unfold forwardApply in H.
  do 5 (apply (ok_bind P) in H as (? & ? & _ & ? & H); [|
    unfold recordGenerationTouched, recordGenerationSemantic; by steady_steps|assumption]).
  erewrite bind_ok in H by reflexivity.
  do 4 (apply bind_ok_inv in H as (? & ? & _ & H)). injection H as _ <-.
  match goal with Hp : P ?t |- context [transactions ?t] =>
    destruct Hp as (tx0 & Ht & Hq & _) end.
  unfold lookup_or. by rewrite Ht.
Qed.

Lemma finalize_ok fence generation now s s' :
  finalizeCommittedGeneration lab fence generation now s = (s', Ok tt) ->
  transactions s' !! lab = None /\ gCommitted (genOf s' lab) = gCommitted (genOf s lab).
Proof.
  intros H. unfold finalizeCommittedGeneration in H. apply checkFence_ok_inv in H as [_ H].
  apply ownTransaction_ok_inv in H as (tx & Ht & _ & _ & H).
  apply bind_ok_inv in H as (? & [] & [-> _]%refuse_ok & H).
  apply try_save_ok_inv in H as [Hc _]; [|done].
  unfold transactions, genOf, generations. rewrite Hc. simpl. by rewrite lookup_delete_eq.
Qed.

Lemma forwardTransaction_ok env fence tx s s' :
  P s -> txReq tx = q -> forwardTransaction env lab fence tx s = (s', Ok tt) ->
  settledAt lab (txGeneration q) s'.
Proof.
  intros Hs Hq H. unfold forwardTransaction in H.
  apply bind_ok_inv in H as (? & w & [-> _]%lift_ok & H).
  apply bind_ok_inv in H as (? & top & [-> _]%lift_ok & H).
  apply bind_ok_inv in H as (? & [] & [-> Hname]%refuse_ok & H).
  apply negb_false_iff, bool_decide_eq_true in Hname.
  apply bind_ok_inv in H as (? & [] & [-> _]%refuse_ok & H).
  apply (ok_bind P) in H as (s1 & cur1 & _ & H1 & H); [|apply kept_forwardStart|done].
  apply bind_ok_inv in H as (s2 & cur & H2 & H).
  pose proof (forwardApply_request _ _ _ _ _ _ _ H1 H2) as Hcur.
  apply bind_ok_inv in H as (s3 & resp & H3 & H).
  apply try_catch_ok_inv in H3; [|intros *; apply forwardFailed_fails].
  apply bind_ok_inv in H as (s4 & [] & H4 & H).
  apply when_ok in H4 as [[_ H4]|[Hf ->]]; [by apply forwardFailed_fails in H4|].
  apply negb_false_iff, bool_decide_eq_true in Hf.
  apply commitApplied_ok in H3 as (Hc & _ & _); [|done].
  apply bind_ok_inv in H as (s5 & [] & H5 & H).
  apply try_catch_ok_inv in H5; [|intros *; apply statusFail_fails].
  apply finalize_ok in H5 as [Hn Hg]. destruct Hc as [_ Hc].
  assert (settledAt lab (txGeneration q) s5) as HQ.
  { split; [done|]. rewrite Hg, <- Hname, Hc. unfold tGeneration. by rewrite Hcur. }
  apply bind_ok_inv in H as (s6 & st & H6 & H). injection H as <-.
  pose proof (kept_status (settledAt lab (txGeneration q)) lab (fwStatus env) s5 HQ) as Hk.
  unfold final in Hk. by rewrite H6 in Hk.
Qed.
End Forward.

(** C28. A forward recovery ends at the requested generation. When a recovery
    with the forward strategy reports success on an uncommitted transaction,
    that transaction has been committed and finalized: it is gone and the
    lab's committed generation is the one it asked for. *)
Theorem forward_reaches_requested cfg sidecar env lab fence options s s' st tx :
  transactions s !! lab = Some tx -> txCommitted tx = false ->
  recoverTransactionStrategyOptions cfg sidecar env lab fence "forward" options s = (s', Ok st) ->
  transactions s' !! lab = None /\ gCommitted (genOf s' lab) = tGeneration tx.
Proof.
  intros Ht Hc H. apply recovery_begins with (tx := tx) in H
    as (s1 & tx1 & node & s2 & id & Hp & Hq & H & ->); [|done|by rewrite Hc].
  rewrite bool_decide_true in H by done. unfold forwardRecovery in H.
  apply bind_ok_inv in H as (s3 & [] & H3 & H).
  apply try_catch_ok_inv in H3; [|intros *; apply recoveryFailed_fails].
  unfold runRecoveryLongPhase in H3. erewrite bind_ok in H3 by reflexivity.
  assert (settledAt lab (tGeneration tx) s3) as HQ.
  { refine (phase_ok (openTx lab (txReq tx)) _ lab _ _ _ _ _ _ _ s1 s3 H3 Hp _).
    intros t t' Hpt Hf. by apply (forwardTransaction_ok lab (txReq tx)) in Hf. }
  apply (kept_same (settledAt lab (tGeneration tx)) lab); [auto with frame|].
  pose proof (kept_status _ lab (reStatus env) s3 HQ) as Hk. unfold final in Hk.
  by rewrite H in Hk.
Qed.

(** ** What a prepare leaves for the later phases *)

Lemma save_ok_coord s s' : saveCoordinationLocked s = (s', Ok tt) -> coord s' = coord s.
Proof.
  intros H. destruct (save_inv s) as [[E _]|[(st & fs & _ & _ & E)|(st & _ & E)]];
    rewrite E in H; [by injection H as <-|done|by injection H as <-].
Qed.

Lemma prepareGeneration_ok lab fence expected generation raw mode u pu prune only proofs pre now s s' :
  transactions s !! lab = None ->
  prepareGeneration lab fence expected generation raw mode u pu prune only proofs pre now s
    = (s', Ok tt) ->
  gCommitted (genOf s lab) = expected /\
  exists tx, transactions s' !! lab = Some tx /\ tGeneration tx = generation /\
    txFenceGeneration tx = fGeneration fence /\ RequireTransactionMode mode = Ok (txMode (txReq tx)) /\
    txRequested (txReq tx) = raw /\ txPreviousGen (txReq tx) = expected /\
    txPrune (txReq tx) = prune /\ txSolveTransition (txEvid tx) = None /\ txCommitted tx = false.
Proof.
  intros Hn H. unfold prepareGeneration in H.
  apply bind_ok_inv in H as (? & [] & [-> _]%refuse_ok & H).
  apply bind_ok_inv in H as (? & desired & [-> Hd]%lift_ok & H).
  apply bind_ok_inv in H as (? & [] & [-> _]%refuse_ok & H).
  do 2 (apply bind_ok_inv in H as (? & ? & [-> _]%lift_ok & H)).
  apply bind_ok_inv in H as (? & [] & [-> _]%refuse_ok & H).
  erewrite bind_ok in H by reflexivity. apply checkFence_ok_inv in H as [_ H]. rewrite Hn in H.
  apply bind_ok_inv in H as (? & [] & [-> He]%refuse_ok & H).
  apply negb_false_iff, bool_decide_eq_true in He. split; [done|].
  destruct (previousModeOf s lab _) as [pm pu']. apply bind_ok_inv in H as (? & ? & [-> _]%lift_ok & H).
  apply try_save_ok_inv in H as [Hc _]; [|done]. eexists. unfold transactions. rewrite Hc. simpl.
  rewrite lookup_insert_eq. split_and!; done.
Qed.

Lemma recordEvidence_ok lab fence generation now f tx s s' :
  transactions s !! lab = Some tx -> recordEvidence lab fence generation now f s = (s', Ok tt) ->
  transactions s' !! lab = Some (tx_with_evidence (f (txEvid tx)) tx) /\
  tGeneration tx = generation /\ txFenceGeneration tx = fGeneration fence.
Proof.
  intros Ht H. unfold recordEvidence in H. apply checkFence_ok_inv in H as [_ H].
  apply ownTransaction_ok_inv in H as (tx0 & Ht0 & Hg & Hf & H). rewrite Ht in Ht0.
  injection Ht0 as <-. apply bind_ok_inv in H as (s1 & [] & [= <-] & H).
  apply save_ok_coord in H. unfold transactions. rewrite H. simpl. by rewrite lookup_insert_eq.
Qed.

Lemma prepareRequest_ok env req s s' mode w top :
  prepareRequest env req s = (s', Ok (mode, w, top)) ->
  s' = s /\ arTopology req = Some w /\ wTopology w = Some top /\
  RequireTransactionMode (arMode req) = Ok mode.
Proof.
  intros H. unfold prepareRequest in H.
  apply bind_ok_inv in H as (? & m & [-> Hm]%lift_ok & H).
  apply bind_ok_inv in H as (? & w0 & [-> Hw]%lift_ok & H).
  apply bind_ok_inv in H as (? & wm & [-> _]%lift_ok & H).
  do 2 (apply bind_ok_inv in H as (? & [] & [-> _]%refuse_ok & H)).
  apply bind_ok_inv in H as (? & top0 & [-> Ht]%lift_ok & H).
  erewrite bind_ok in H by reflexivity.
  apply bind_ok_inv in H as (? & [] & [-> _]%lift_ok & H).
  do 2 (apply bind_ok_inv in H as (? & [] & [-> _]%refuse_ok & H)).
  apply bind_ok_inv in H as (? & [] & [-> _]%lift_ok & H). injection H as <- <- <- <-.
  unfold rehydrateWire in Ht. destruct (arTopology req); [|done]. injection Hw as ->.
  destruct (wTopology w0); [|done]. injection Ht as ->. done.
Qed.

(** The solve record a prepare makes entitles the prune of the commit. *)
Lemma preserve_entitles env top tx fence now s s' r :
  preserveSolveTransition env top tx fence now s = (s', Ok r) ->
  txPrune (txReq tx) = true -> txFenceGeneration tx = fGeneration fence ->
  s' = s /\ exists names, pePreserve env = Ok names /\
    forall tx', txReq tx' = txReq tx -> txFenceGeneration tx' = txFenceGeneration tx ->
      txSolveTransition (txEvid tx') = Some r ->
      solvePreservationRequired (txMode (txReq tx)) (txPreviousMode (txReq tx)) true = true ->
      solvePruneEntitlement tx' top (srvNode s) (txMode (txReq tx)) = Ok (Some names).
Proof.
  intros H Hp Hf. unfold preserveSolveTransition in H.
  apply bind_ok_inv in H as (? & names & [-> Hn]%hostValue_ok & H).
  erewrite bind_ok in H by reflexivity. apply bind_ok_inv in H as (s1 & b & H1 & H).
  assert (s1 = s) as ->.
  { destruct (bool_decide _); [|by injection H1]. destruct (peReplicate env); [|by injection H1].
    apply bind_ok_inv in H1 as (? & [] & [-> _]%lift_ok & H1). by injection H1. }
  injection H as <- <-. split; [done|]. exists names. split; [done|]. intros tx' Hq Hf' Hr Hreq.
  unfold solvePruneEntitlement. rewrite Hq, Hp, Hreq, Hr. simpl. rewrite Hp, Hf', Hf.
  unfold tGeneration. rewrite Hq. rewrite !bool_decide_true by done. rewrite !Z.eqb_refl. done.
Qed.

Lemma pure_run {A} (m : M A) s s' r : mrel eq m -> m s = (s', r) -> s' = s.
Proof. intros Hm H. specialize (Hm s). unfold final in Hm. by rewrite H in Hm. Qed.

Lemma prepareInventory_pure env top : mrel eq (prepareInventory env top).
Proof. unfold prepareInventory. mrel_steps; auto with frame. Qed.

Lemma node_requireMutationFence lab fence now now' :
  mrel (unchanged srvNode) (requireMutationFence lab fence now now').
Proof. unfold requireMutationFence, checkFence. mrel_steps; [done|apply node_save]. Qed.

Lemma requireMutationFence_named lab fence now now' s s' :
  requireMutationFence lab fence now now' s = (s', Ok tt) -> lab <> "".
Proof.
  unfold requireMutationFence. intros H. apply bind_ok_inv in H as (? & ? & _ & H).
  apply bind_ok_inv in H as (s1 & [] & _ & H). intros ->. unfold checkFence, inspect in H.
  by injection H.
Qed.

Lemma node_prepareGeneration lab fence e g raw mode u pu prune only proofs pre now :
  mrel (unchanged srvNode)
    (prepareGeneration lab fence e g raw mode u pu prune only proofs pre now).
Proof. unfold prepareGeneration, checkFence. mrel_steps; try done; apply node_save. Qed.

Lemma RequireTransactionMode_idem mode m :
  RequireTransactionMode mode = Ok m -> RequireTransactionMode m = Ok m.
Proof.
  unfold RequireTransactionMode. case_decide; [by intros [= <-]|].
  case_decide; [by intros [= <-]|done].
Qed.

(** The guards of a prepare, up to the transaction it records. *)
Lemma prepare_admission clock env req s s' resp :
  handleApplyPrepare clock env req s = (s', Ok resp) ->
  exists mode w top prestate ob s1,
    arTopology req = Some w /\ wTopology w = Some top /\
    RequireTransactionMode (arMode req) = Ok mode /\
    labView (topName top) s1 = labView (topName top) s /\ srvNode s1 = srvNode s /\
    transactions s !! topName top = None /\
    (prepareGeneration (topName top) (arFence req) (arExpectedGeneration req) (arGeneration req)
       (RawWire w) mode (arUngraded req) (arPeerUnderlay req) (arPrune req) (arOnlySteps req)
       (arStateProofs req) (Some prestate) (clock 3%nat);;
     s ← get;
     let prepared := lookup_or zeroTx (transactions s) (topName top) in
     when (solvePreservationRequired mode (txPreviousMode (txReq prepared))
             (txPrune (txReq prepared)))
       (record ← preserveSolveTransition env top prepared (arFence req) (clock 4%nat);
        recordGenerationSolveTransition (topName top) (arFence req) (arGeneration req)
          (Some record) (clock 5%nat));;
     recordGenerationDirtyCapture (topName top) (arFence req) (arGeneration req)
       (obDirtyCapture ob) (clock 6%nat);;
     recordGenerationSemantic (topName top) (arFence req) (arGeneration req)
       (obSemanticDirty ob) (clock 7%nat);;
     mret (withUnproven (obUnproven ob) (phaseResponse (srvNode s) (arGeneration req) "prepare")))
      s1 = (s', Ok resp).
Proof.
  intros H. unfold handleApplyPrepare in H.
  apply bind_ok_inv in H as (? & [[mode w] top] & H0 & H).
  apply prepareRequest_ok in H0 as (-> & Hw & Htop & Hm).
  apply bind_ok_inv in H as (s1 & [] & H1 & H).
  pose proof (unchanged_run srvNode _ _ _ _ (node_refuseIfHeld _ _ _) H1) as Hn1.
  assert (labView (topName top) s1 = labView (topName top) s) as Hv1.
  { refine (unchanged_run (labView (topName top)) _ _ _ _ _ H1). unfold refuseIfHeld.
    mrel_steps. auto with frame. }
  apply bind_ok_inv in H as (s2 & [] & H2 & H).
  pose proof (unchanged_run srvNode _ _ _ _ (node_requireMutationFence _ _ _ _) H2) as Hn2.
  pose proof (requireMutationFence_named _ _ _ _ _ _ H2) as Hlab.
  apply requireFence_view in H2. erewrite bind_ok in H by reflexivity.
  apply bind_ok_inv in H as (? & [] & [-> Hr]%refuse_ok & H).
  apply bind_ok_inv in H as (? & [] & [-> _]%refuse_ok & H).
  apply bind_ok_inv in H as (s3 & [prestate ob] & H3 & H).
  apply (pure_run _ _ _ _ (prepareInventory_pure _ _)) in H3 as ->.
  exists mode, w, top, prestate, ob, s2. split_and!; try done; [congruence..|].
  unfold recoveryMutationRefusal, ordinaryMaintenanceSuppression in Hr.
  rewrite (bool_decide_false (topName top = "")) in Hr by done. simpl in Hr.
  apply bool_decide_eq_false in Hr. apply eq_None_not_Some.
  assert (transactions s2 !! topName top = transactions s !! topName top) as <-; [|done].
  rewrite Hv1 in H2. by injection H2.
Qed.

(** The preservation step of a prepare, on the transaction just recorded. *)
Definition preservationRecorded (env : PrepareEnv) (top : Topology) (node : string)
    (tx tx' : applyTransaction) : Prop :=
  txReq tx' = txReq tx /\ txFenceGeneration tx' = txFenceGeneration tx /\
  txCommitted tx' = txCommitted tx /\
  (solvePreservationRequired (txMode (txReq tx)) (txPreviousMode (txReq tx))
     (txPrune (txReq tx)) = true ->
   exists r names, txSolveTransition (txEvid tx') = Some r /\ pePreserve env = Ok names /\
     forall tx2, txReq tx2 = txReq tx -> txFenceGeneration tx2 = txFenceGeneration tx ->
       txSolveTransition (txEvid tx2) = Some r ->
       solvePruneEntitlement tx2 top node (txMode (txReq tx)) = Ok (Some names)).

Lemma preservation_step env top fence generation now now' lab tx s s' :
  transactions s !! lab = Some tx -> txFenceGeneration tx = fGeneration fence ->
  when (solvePreservationRequired (txMode (txReq tx)) (txPreviousMode (txReq tx)) (txPrune (txReq tx)))
    (record ← preserveSolveTransition env top tx fence now;
     recordGenerationSolveTransition lab fence generation (Some record) now') s = (s', Ok tt) ->
  exists tx', transactions s' !! lab = Some tx' /\ preservationRecorded env top (srvNode s) tx tx'.
Proof.
  intros Ht Hf H.
  apply when_ok in H as [[Hreq H]|[Hreq ->]]; [|exists tx; split; [done|]; split_and!; try done; intros; congruence].
  apply bind_ok_inv in H as (s1 & r & H1 & H).
  pose proof Hreq as Hreq'. unfold solvePreservationRequired in Hreq'.
  apply andb_prop in Hreq' as [[Hp _]%andb_prop _].
  apply preserve_entitles in H1 as (-> & names & Hnames & He); [|done|done].
  apply (recordEvidence_ok _ _ _ _ _ tx) in H as (Ht' & _ & _); [|done].
  eexists. split; [exact Ht'|]. split_and!; [done..|]. intros _. exists r, names.
  split_and!; [done..|]. intros tx2 Hq2 Hf2 Hr2. apply He; try done. by rewrite Hp in Hreq.
Qed.

Lemma prepare_records clock env req s s' resp :
  handleApplyPrepare clock env req s = (s', Ok resp) ->
  exists w top tx, arTopology req = Some w /\ wTopology w = Some top /\
    transactions s !! topName top = None /\
    gCommitted (genOf s (topName top)) = arExpectedGeneration req /\
    transactions s' !! topName top = Some tx /\ tGeneration tx = arGeneration req /\
    txFenceGeneration tx = fGeneration (arFence req) /\ txCommitted tx = false /\
    txRequested (txReq tx) = RawWire w /\
    (solvePreservationRequired (txMode (txReq tx)) (txPreviousMode (txReq tx))
       (txPrune (txReq tx)) = true ->
     solveApplyRefusal tx = false /\
     exists names, pePreserve env = Ok names /\
       solvePruneEntitlement tx top (srvNode s) (txMode (txReq tx)) = Ok (Some names)).
Proof.
  intros H. apply prepare_admission in H
    as (mode & w & top & prestate & ob & s1 & Hw & Htop & Hm & Hv & Hn & Hnone & H).
  assert (transactions s1 !! topName top = None) as Hnone1.
  { injection Hv as -> _. done. }
  apply bind_ok_inv in H as (s2 & [] & H2 & H).
  pose proof (unchanged_run srvNode _ _ _ _ (node_prepareGeneration _ _ _ _ _ _ _ _ _ _ _ _ _) H2)
    as Hn2.
  apply prepareGeneration_ok in H2 as (Hexp & tx & Ht & Hg & Hf & Hmode & Hraw & _ & Hprune & _ & Hcom);
    [|done].
  rewrite (RequireTransactionMode_idem _ _ Hm) in Hmode. injection Hmode as ->.
  erewrite bind_ok in H by reflexivity. cbn zeta in H. unfold lookup_or in H. rewrite Ht in H.
  simpl in H. apply bind_ok_inv in H as (s3 & [] & H3 & H).
  apply preservation_step in H3 as (tx3 & Ht3 & Hq3 & Hf3 & Hc3 & Hent); [|done|done].
  apply bind_ok_inv in H as (s5 & [] & H5 & H).
  apply (recordEvidence_ok _ _ _ _ _ tx3) in H5 as (Ht5 & _ & _); [|done].
  apply bind_ok_inv in H as (s6 & [] & H6 & H). injection H as <- _.
  apply (recordEvidence_ok _ _ _ _ _ _ _ _ Ht5) in H6 as (Ht6 & _ & _).
  injection Hv as _ Hv. rewrite Hn2, Hn in Hent.
  eexists w, top, _. split_and!; [done|done|done|congruence|exact Ht6| | | | |];
    [unfold tGeneration in *; simpl; congruence|simpl; congruence|simpl; congruence|simpl; congruence|].
  simpl. rewrite Hq3. intros Hreq. destruct (Hent Hreq) as (r & names & Hr & Hnames & He).
  split; [|exists names; split; [done|by apply He]].
  unfold solveApplyRefusal. simpl. rewrite Hr. by rewrite andb_comm.
Qed.


(** ** A deployment, run

    A lab with one device in teaching mode is solved and pruned: prepare,
    apply, commit, finalize on one node with a store. *)

Definition hTop : Topology :=
  mkTopology "lab" "hash" false 0 (mkPolicy 1 None) [mkDevice "d1" 1 "node1" "twinet-lab-d1"] [].
Definition hWire : Wire :=
  mkWire "lab" "" ModeSolve 0 false 0 "" [("d1", "node1")] None (Some hTop).
Definition hReq (phase : string) : ApplyRequest :=
  mkApply phase "lab" "" txDemoFence "node1" ["d1"] true "g1" "g2" (Some hWire) ModeSolve 0
    false 0 "" false true [] ∅ [].
Definition hServer : Server :=
  set_lab_records {["lab" := hTop]} {["lab" := ModePlatform]} {["lab" := 0]} ∅
    (set_mutations (fun _ => {["lab" := mkLease "deploy" txDemoFence 1000]})
      (set_coord (fun _ => mkCoord ∅ ∅ {["lab" := mkGen "g1" "" ["g1"]]} ∅ ∅ ∅ ∅)
        (freshServer "node1" (Some (mkStore None ∅ ∅)) []))).
Definition hObject (spec generation : string) : transactionContainer :=
  mkTxContainer "twinet-lab-d1" "d1" spec generation StateRunning.
Definition hSeen (c : transactionContainer) : transactionInventory :=
  mkInventory 3 "" (tcGeneration c) [c] [] [] [] 5 false [] [].
Definition hClock : nat -> Time := fun _ => 10.

Definition hPrepareEnv : PrepareEnv :=
  mkPrepareEnv None None (Ok (hSeen (hObject "s1" "g1"))) (Ok (mkObservation ["d1"] ["d1"] ∅)) None
    (Ok []) (Ok []) (Ok ["twinet-lab-old"]) None.
Definition hApplyEnv : ApplyEnv :=
  mkApplyEnv None None ["d1"] [] (Ok ∅) (Ok ∅) noCounts ∅ ["d1"] ["d1"].
Definition hCommitEnv : CommitEnv :=
  mkCommitEnv None (fun _ => None) None None None (fun _ => Ok ["twinet-lab-old"]) (Ok [])
    (fun _ => None) (fun _ => Ok (hSeen (hObject "s2" "g2"))) (fun _ => Ok "s2") (Ok ([], []))
    (fun _ => None) None ∅.

Definition hPrepared : Server := final (handleApplyPrepare hClock hPrepareEnv (hReq "prepare")) hServer.
Definition hApplied : Server := final (handleApplyRun hClock hApplyEnv (hReq "apply")) hPrepared.
Definition hCommitted : Server :=
  final (handleApplyCommit hClock hCommitEnv (hReq "commit")) hApplied.

Definition hCommitResponse : ApplyResponse :=
  withPruned [] (withPruned ["twinet-lab-old"] (phaseResponse "node1" "g2" "commit")).
Lemma hPrepared_run :
  handleApplyPrepare hClock hPrepareEnv (hReq "prepare") hServer
  = (hPrepared, Ok (phaseResponse "node1" "g2" "prepare")).
Proof. unfold hPrepared. apply run_eq. vm_compute. reflexivity. Qed.
Lemma hCommitted_run :
  handleApplyCommit hClock hCommitEnv (hReq "commit") hApplied = (hCommitted, Ok hCommitResponse).
Proof. unfold hCommitted. apply run_eq. vm_compute. reflexivity. Qed.

(** The whole deployment, phase by phase. *)
Example deployment_runs :
  let tx := lookup_or zeroTx (transactions hPrepared) "lab" in
  solvePruneEntitlement tx hTop "node1" ModeSolve = Ok (Some ["twinet-lab-old"]) /\
  txPhase <$> transactions hApplied !! "lab" = Some transactionApplied /\
  txCommitted <$> transactions hCommitted !! "lab" = Some true /\
  gCommitted (genOf hCommitted "lab") = "g2" /\
  bool_decide (is_Some (transactions (final (handleApplyFinalize hClock (hReq "finalize"))
                                        hCommitted) !! "lab")) = false.
Proof. vm_compute. repeat split. Qed.


Lemma commit_is_proven_witness :
  exists tx w top, transactions hApplied !! "lab" = Some tx /\ txApplied tx = true /\
    rawWire (txRequested (txReq tx)) = Ok w /\ rehydrateWire w = Ok top /\
    (txCommitted tx = true \/ (committedAt "lab" "g2" hCommitted /\ durable hCommitted /\
       commitProof hCommitEnv top "node1" tx hCommitted)).
Proof.
  destruct (commit_is_proven hClock hCommitEnv (hReq "commit") hApplied hCommitted
    hCommitResponse) as (tx & w & top & Htx & _ & Ha & Hw & Htop & _ & H).
  - exact hCommitted_run.
  - reflexivity.
  - exists tx, w, top. split; [exact Htx|]. split; [exact Ha|].
    split; [exact Hw|]. split; [exact Htop|exact H].
Defined.

(** *** The same deployment, recovered after its apply phase *)

Definition hConfig : RecoveryConfig := mkRecoveryConfig 0 0 0 8 (fun _ => false).
Definition hPhase : PhaseRun := mkPhaseRun (fun _ => 20) [25] [26].
Definition hStatusEnv (c : transactionContainer) : StatusEnv :=
  mkStatusEnv 30 (Ok (hSeen c)) (Ok ([], [])) (Ok (hSeen c)) true None (Ok (hSeen c)).
Definition hRollbackEnv : RollbackEnv :=
  mkRollbackEnv None None None None None (fun _ => None) None true (Ok true) None None None None
    None None (fun _ => hPhase).
Definition hForwardEnv : ForwardEnv :=
  mkForwardEnv hClock (mkKernel (Ok ∅) (fun _ => true) (fun _ => true)) None None ["d1"] [] ["d1"]
    None hCommitEnv hClock (hStatusEnv (hObject "s2" "g2")).
Definition hRecoverEnv (c : transactionContainer) : RecoverEnv :=
  mkRecoverEnv hClock (hStatusEnv c) (fun _ => "s1") None true (fun _ => hPhase) None None None
    hRollbackEnv None None None (Ok (hSeen c)) None hForwardEnv.
Definition hOptions (rollbackCommitted : bool) : recoveryRunOptions :=
  mkRunOptions false true rollbackCommitted.
Definition hRecover (strategy : string) (c : transactionContainer) (o : recoveryRunOptions)
    : M RecoveryStatus :=
  recoverTransactionStrategyOptions hConfig (fun _ => None) (hRecoverEnv c) "lab" txDemoFence
    strategy o.

(** Rolled back, rolled forward, and a committed generation rolled back. *)
Example recoveries_run :
  let settled s := (bool_decide (is_Some (transactions s !! "lab")), gCommitted (genOf s "lab")) in
  let back := hRecover "rollback" (hObject "s1" "g1") in
  settled (final (back (hOptions false)) hApplied) = (false, "g1") /\
  settled (final (hRecover "forward" (hObject "s2" "g2") (hOptions false)) hApplied) = (false, "g2") /\
  settled (final (back (hOptions true)) hCommitted) = (false, "g1").
Proof. vm_compute. repeat split. Qed.

Lemma hApplied_tx : transactions hApplied !! "lab" = Some (lookup_or zeroTx (transactions hApplied) "lab").
Proof. vm_compute. reflexivity. Qed.

Definition hTx : applyTransaction := lookup_or zeroTx (transactions hApplied) "lab".
Definition hBack : M RecoveryStatus := hRecover "rollback" (hObject "s1" "g1") (hOptions false).
Definition hForward : M RecoveryStatus := hRecover "forward" (hObject "s2" "g2") (hOptions false).
Lemma hTx_open : txCommitted hTx = false.
Proof. vm_compute. reflexivity. Qed.
Lemma run_is_ok {A} (m : M A) s : is_ok (value m s) = true -> exists a, m s = (final m s, Ok a).
Proof. rewrite (run_value m s). destruct (value m s); [eauto|done]. Qed.
Lemma hBack_run : exists st, hBack hApplied = (final hBack hApplied, Ok st).
Proof. apply run_is_ok. vm_compute. reflexivity. Qed.
Lemma hForward_run : exists st, hForward hApplied = (final hForward hApplied, Ok st).
Proof. apply run_is_ok. vm_compute. reflexivity. Qed.

Lemma rollback_restores_previous_witness :
  transactions (final hBack hApplied) !! "lab" = None /\
  gCommitted (genOf (final hBack hApplied) "lab") = tPreviousGen hTx.
Proof.
  destruct hBack_run as [st H].
  exact (rollback_restores_previous hConfig (fun _ => None) (hRecoverEnv (hObject "s1" "g1"))
    "lab" txDemoFence (hOptions false) hApplied _ st hTx hApplied_tx (or_introl hTx_open) H).
Defined.

Lemma rollback_never_forgets_witness :
  let s' := final (hRecover "rollback" (hObject "s2" "g2") (hOptions false)) hApplied in
  (exists tx', transactions s' !! "lab" = Some tx' /\ txReq tx' = txReq hTx /\
     txCommitted tx' = false) \/
  (transactions s' !! "lab" = None /\ gCommitted (genOf s' "lab") = tPreviousGen hTx).
Proof.
  exact (rollback_never_forgets hConfig (fun _ => None) (hRecoverEnv (hObject "s2" "g2"))
    "lab" txDemoFence (hOptions false) hApplied hTx hApplied_tx hTx_open).
Defined.

Lemma forward_reaches_requested_witness :
  transactions (final hForward hApplied) !! "lab" = None /\
  gCommitted (genOf (final hForward hApplied) "lab") = tGeneration hTx.
Proof.
  destruct hForward_run as [st H].
  exact (forward_reaches_requested hConfig (fun _ => None) (hRecoverEnv (hObject "s2" "g2"))
    "lab" txDemoFence (hOptions false) hApplied _ st hTx hApplied_tx hTx_open H).
Defined.

(** ** Behaviours of the error paths *)

(** Drift found on a committed generation sticks. An ordinary recovery of
    a generation that is committed but not finalized marks the transaction
    [rollback_failed] when the node has drifted; from then on the status
    compares the node with the state before the deployment, so the same
    recovery fails again even when the node is exactly the committed
    inventory, and each status reports it as inconsistent. *)
Theorem committed_drift_sticks :
  let drifted := hRecover "rollback" (hObject "other" "g2") (hOptions false) in
  let repaired := hRecover "rollback" (hObject "s2" "g2") (hOptions false) in
  is_ok (value repaired hCommitted) = true /\
  value drifted hCommitted = Err (EHost "committed inventory drift") /\
  value repaired (final drifted hCommitted) = Err (EHost "committed inventory drift") /\
  txCommitted <$> transactions (final drifted hCommitted) !! "lab" = Some true.
Proof. vm_compute. repeat split. Qed.

(** A dry run in the apply phase executes nothing and still marks the prepared
    generation as applied. *)
Definition hDryReq : ApplyRequest :=
  mkApply "apply" "lab" "" txDemoFence "node1" ["d1"] true "g1" "g2" (Some hWire) ModeSolve 0
    false 0 "" true true [] ∅ [].
Example dry_run_marks_applied :
  let s' := final (handleApplyRun hClock hApplyEnv hDryReq) hPrepared in
  is_ok (value (handleApplyRun hClock hApplyEnv hDryReq) hPrepared) = true /\
  txApplied <$> transactions hPrepared !! "lab" = Some false /\
  txApplied <$> transactions s' !! "lab" = Some true.
Proof. vm_compute. repeat split. Qed.
