(* ===== verification/Cluster.v ===== *)
(** * The controller's side of a deployment

    Models [internal/client/coordination.go], [internal/client/recovery.go]
    and [internal/client/split_commit.go]: one controller driving the agents
    of a cluster through lease, reservation, prepare, apply, commit and
    finalize, and converging them again after a failure. The agents are an
    interface: a class of operations on a node's state, whose laws the client
    relies on and the agent of the other files discharges.

    Requests that are sent to all nodes at once act on one node each, so they
    are run here one node after another in the order of the results.
    [lease.Err()] is read through the lease, [mlErr n] being its [n]-th reading. *)

From stdpp Require Import base gmap strings pretty list sorting fin_maps.
From Stdlib Require Import ZArith Lia.
From S2P Require Import Prelude Model Coordination Transactions Ephemeral Restart Inventory.
From S2P Require Import Handlers Recovery.

Open Scope Z_scope.

(** ** The agent as the client sees it *)

(** The requests a client sends; an [Err] is a refusal, a lost request or a
    lost answer. *)
Class Agent (S : Type) := {
  agAcquire : LeaseAcquireRequest -> SE S string LeaseResponse;
  agRelease : LeaseReleaseRequest -> SE S string unit;
  agReserve : OverlayReservationRequest -> SE S string unit;
  agGenerations : SE S string (gmap string string);
  agApply : ApplyRequest -> SE S string ApplyResponse;
  agVerifyRestore : string -> Fence -> string -> SE S string unit;
  agRecover : RecoveryRequest -> SE S string RecoveryStatus;
  agStatus : string -> SE S string RecoveryStatus
}.

(** A cluster-wide lease: one fence per node. *)
Record MutationLease := mkMutationLease {
  mlLab : string; mlFences : gmap string Fence; mlErr : nat -> option string
}.

(** [RecoveryReport]. *)
Record RecoveryReport := mkReport {
  rpGeneration : string; rpNodes : gmap string RecoveryStatus
}.

(** ** Split commits *)

Record splitCommit := mkSplit { scTarget : string; scRollback : list string }.

(** The loop of [detectSplitCommit] over one node: the committed nodes, their
    previous generations, the generations of the settled nodes; [None] when a
    node is still moving. *)
Definition splitStep (acc : option (list string * gset string * gset string))
    (node : string) (st : RecoveryStatus) : option (list string * gset string * gset string) :=
  '(pending, previous, settled) ← acc;
  if rvCommittedPending st then
    Some (pending ++ [node], {[rvPreviousGeneration st]} ∪ previous, settled)
  else if bool_decide (rvPhase st = "recovering")
          || (negb (bool_decide (rvPhase st = "idle")) && negb (rvConsistent st))
  then None
  else Some (pending, previous, {[rvGeneration st]} ∪ settled).

Definition detectSplitCommit (report : RecoveryReport) : option splitCommit :=
  if Nat.ltb (size (rpNodes report)) 2 then None else
  '(pending, previous, settled) ←
    fold_left (fun acc p => splitStep acc p.1 p.2) (map_to_list (rpNodes report)) (Some ([], ∅, ∅));
  if bool_decide (pending = []) then None
  else match elements settled with
       | [target] =>
           if negb (Nat.eqb (size previous) 1) then None
           else if bool_decide (target = "") then None
           else if bool_decide (target ∈ previous)
           then Some (mkSplit target (sortStrings pending)) else None
       | _ => None
       end.

(** ** Topologies and requests *)

(** [overlayReservations], one node's part. *)
Definition overlayReservations (top : Topology) (node : string) : list Z :=
  sortInts (overlayVNIsOnNode top node).

Definition assignedWireDevices (w : Wire) (node : string) : list string :=
  sortStrings (map fst (List.filter (fun d => bool_decide (d.2 = node)) (wDevices w))).

(** [generatedGeneration]; [wireHash] is the digest of the serialised topology. *)
Definition generatedGeneration (wireHash : Topology -> string) (top : Topology)
    (req : ApplyRequest) (cur : string) : string :=
  if negb (bool_decide (arOnlySteps req = [])) && negb (bool_decide (cur = "")) then cur
  else if negb (bool_decide (arGeneration req = "")) then arGeneration req
  else if negb (bool_decide (topHash top = "")) then topHash top
  else wireHash top.

(** The wire of a deployment. *)
Definition deploymentWire (top : Topology) (mode : string) (req : ApplyRequest) : Wire :=
  let w := serialise top in
  mkWire (wLab w) (wGeneration w) mode (arUngraded req) (arEphemeral req || topEphemeral top)
    (if arEphemeralTTLSeconds req =? 0 then topEphemeralTTLSeconds top
     else arEphemeralTTLSeconds req)
    (arEphemeralOwner req) (wDevices w) (wPeerUnderlay w) (wTopology w).

Definition applyRequestForNode (req : ApplyRequest) (w : Wire) (peers : gmap string string)
    (fence : Fence) (node phase expected generation : string) : ApplyRequest :=
  mkApply phase (wLab w) (arHold req) fence node (assignedWireDevices w node) true expected
    generation (Some w) (arMode req) (arUngraded req) (arEphemeral req)
    (arEphemeralTTLSeconds req) (arEphemeralOwner req) (arDryRun req) (arPrune req)
    (arOnlySteps req) peers (arStateProofs req).

Definition with_phase_fields (mode : string) (ephemeral : bool) (ttl : Z) (req : ApplyRequest)
    : ApplyRequest :=
  mkApply (arPhase req) (arLab req) (arHold req) (arFence req) (arTargetNode req)
    (arAssignedDevices req) (arAssignmentKnown req) (arExpectedGeneration req) (arGeneration req)
    (arTopology req) mode (arUngraded req) ephemeral ttl (arEphemeralOwner req) (arDryRun req)
    (arPrune req) (arOnlySteps req) (arPeerUnderlay req) (arStateProofs req).
Definition with_proofs (proofs : list StateProof) (req : ApplyRequest) : ApplyRequest :=
  mkApply (arPhase req) (arLab req) (arHold req) (arFence req) (arTargetNode req)
    (arAssignedDevices req) (arAssignmentKnown req) (arExpectedGeneration req) (arGeneration req)
    (arTopology req) (arMode req) (arUngraded req) (arEphemeral req) (arEphemeralTTLSeconds req)
    (arEphemeralOwner req) (arDryRun req) (arPrune req) (arOnlySteps req) (arPeerUnderlay req) proofs.
Definition without_topology (req : ApplyRequest) : ApplyRequest :=
  mkApply (arPhase req) (arLab req) (arHold req) (arFence req) (arTargetNode req)
    (arAssignedDevices req) (arAssignmentKnown req) (arExpectedGeneration req) (arGeneration req)
    None (arMode req) (arUngraded req) (arEphemeral req) (arEphemeralTTLSeconds req)
    (arEphemeralOwner req) (arDryRun req) (arPrune req) (arOnlySteps req) (arPeerUnderlay req)
    (arStateProofs req).

(** [responseFailure]. *)
Definition responseFailure (resp : ApplyResponse) : option string :=
  if bool_decide (apFailures resp = ∅) then None else Some "degraded scopes".

(** [mergeUnprovenNamespaces]: the later phase wins. *)
Definition mergeUnprovenNamespaces (first second : gmap string string) : gmap string string :=
  second ∪ first.

(** What a commit's response keeps of the apply's. *)
Definition mergeCommit (applied resp : ApplyResponse) : ApplyResponse :=
  mkApplyResponse (apNode resp) (apGeneration resp) (apPhase resp) (apImageDigests applied)
    (apCounts applied) (apFailures resp) (apPruned resp)
    (mergeUnprovenNamespaces (apUnprovenNamespaces applied) (apUnprovenNamespaces resp)).

(** ** Results *)

(** The error of a node's result: before the commit, or [ErrCommitted]. *)
Inductive clientErr := DidNotCommit (cause : string) | ErrCommitted (stage cause : string).
Record NodeResult := mkNodeResult {
  nrNode : string; nrValue : ApplyResponse; nrErr : option clientErr
}.
Abbreviation Values := (gmap string ApplyResponse) (only parsing).
Definition zeroResponse : ApplyResponse := phaseResponse "" "" "".

Definition transactionFailure (nodes : list string) (values : Values) (cause : string)
    : list NodeResult :=
  map (fun n => mkNodeResult n (lookup_or zeroResponse values n) (Some (DidNotCommit cause))) nodes.
Definition postCommitFailure (nodes : list string) (values : Values) (stage cause : string)
    : list NodeResult :=
  map (fun n => mkNodeResult n (lookup_or zeroResponse values n) (Some (ErrCommitted stage cause)))
    nodes.

Definition isCommitted (e : clientErr) : bool :=
  match e with ErrCommitted _ _ => true | DidNotCommit _ => false end.
Definition CommittedResults (results : list NodeResult) : bool :=
  let errs := omap nrErr results in
  negb (bool_decide (length errs = 0%nat)) && forallb isCommitted errs.

(** How an apply ends early: whether a recovery is still owed, and on which
    side of the commit it stopped. *)
Inductive applyFailure :=
| NotStarted (cause : string)
| Recoverable (values : Values) (cause : string)
| Unfinished (values : Values) (stage cause : string)
| LeaseLost (values : Values) (cause : string).

(** ** The cluster *)

(** A cluster is the state of each node by name; a request acts on one. *)
Definition onNode {S A} (name : string) (m : SE S string A) : SE (gmap string S) string A := fun cl =>
  match cl !! name with
  | None => (cl, Err "not in this cluster")
  | Some s => let '(s', r) := m s in (<[name := s']> cl, r)
  end.

(** [fanOut]: every node answers for itself; the results are in name order. *)
Fixpoint fanOut {S A} (nodes : list string) (f : string -> SE (gmap string S) string A)
    : SE (gmap string S) string (list (string * result string A)) :=
  match nodes with
  | [] => mret []
  | n :: rest => r ← observe (f n); more ← fanOut rest f; mret ((n, r) :: more)
  end.

(** A loop that stops at the first error. *)
Fixpoint forEach {S A} (l : list A) (f : A -> SE S string unit) : SE S string unit :=
  match l with [] => mret tt | a :: l => f a;; forEach l f end.

(** The first error of a fan-out. *)
Definition firstErr {A} (results : list (string * result string A)) : option string :=
  head (omap (fun p => match p.2 with Err e => Some (p.1 +:+ ": " +:+ e) | Ok _ => None end) results).

(** Another error type for the rest of a computation. *)
Definition orElse {S E E' A} (m : SE S E A) (f : E -> E') : SE S E' A := fun s =>
  let '(s', r) := m s in (s', match r with Ok a => Ok a | Err e => Err (f e) end).

(** What a controller brings to its leases: the holder of its [k]-th
    acquisition and the renewal errors that lease will report. *)
Record Controller := mkController {
  ctlHolder : nat -> string; ctlErr : nat -> nat -> option string
}.
Definition zeroFence : Fence := mkFence "" 0.
Definition mutationLeaseSeconds : Z := 90.

(** [RecoveryOptions]. *)
Record RecoveryOptions := mkRecoveryOptions {
  roWait : Duration; roTakeover : bool; roForwardAcknowledged : bool
}.
Definition noOptions : RecoveryOptions := mkRecoveryOptions 0 false false.
Definition defaultRecoveryWait : Duration := 2 * minute.

(** [recoveryActivity]: a recovery is running, the strategy it runs when that
    is another one, and whether all of them are past their deadline. The
    source stops at the first conflict it meets. *)
Definition recoveryActivity (report : RecoveryReport) (strategy : string)
    : bool * option string * bool :=
  let running := List.filter (fun st => bool_decide (rvPhase st = "recovering"))
                   (map snd (map_to_list (rpNodes report))) in
  match List.find (fun st => negb (bool_decide (rvStrategy st = ""))
                             && negb (bool_decide (rvStrategy st = strategy))) running with
  | Some st => (true, Some (rvStrategy st), false)
  | None => (negb (bool_decide (running = [])), None,
             negb (bool_decide (running = [])) && forallb rvTakeoverAllowed running)
  end.

(** What one status adds to a report being read: its generation and whether
    anything is left to recover. *)
Definition readStatus (node : string) (st : RecoveryStatus) (acc : RecoveryReport * bool)
    : RecoveryReport * bool :=
  let '(report, pending) := acc in
  let differs := negb (bool_decide (rvGeneration st = ""))
                 && negb (bool_decide (rpGeneration report = ""))
                 && negb (bool_decide (rpGeneration report = rvGeneration st)) in
  let generation := if decide (rvGeneration st = "") then rpGeneration report
                    else if decide (rpGeneration report = "") then rvGeneration st
                    else rpGeneration report in
  (mkReport generation (<[node := st]> (rpNodes report)),
   pending || differs || rvCommittedPending st
   || (negb (bool_decide (rvPhase st = "idle"))
       && (negb (rvConsistent st) || negb (bool_decide (rvPhase st = "committed"))))).

Definition noReport : RecoveryReport := mkReport "" ∅.

Section Client.
Context {S : Type} {agent : Agent S}.
Abbreviation Cl := (gmap string S) (only parsing).
Abbreviation C A := (SE Cl string A) (only parsing).
Variable Nodes : list string.

Definition sortedNodes : list string := sortStrings Nodes.

(** ** Leases *)

Definition fenceOf (lease : MutationLease) (node : string) : C Fence :=
  match mlFences lease !! node with
  | Some fence => mret fence
  | None => fail ("no mutation fence for node " +:+ node)
  end.

(** [Release] and the rollback of a failed acquisition: in reverse order,
    whatever each release answers. *)
Fixpoint releaseFences (lab : string) (fences : gmap string Fence) (nodes : list string) : C unit :=
  match nodes with
  | [] => mret tt
  | n :: rest =>
      match fences !! n with
      | Some fence => ignore (onNode n (agRelease (mkRelease lab fence)))
      | None => mret tt
      end;;
      releaseFences lab fences rest
  end.
Definition Release (lease : MutationLease) : C unit :=
  releaseFences (mlLab lease) (mlFences lease) (rev sortedNodes).

Fixpoint acquireFences (lab holder : string) (nodes : list string) (fences : gmap string Fence)
    : C (gmap string Fence) :=
  match nodes with
  | [] => mret fences
  | n :: rest =>
      resp ← try_catch (onNode n (agAcquire (mkAcquire lab holder mutationLeaseSeconds)))
               (fun e => releaseFences lab fences (rev sortedNodes);;
                         fail ("acquire mutation lease on " +:+ n +:+ ": " +:+ e));
      acquireFences lab holder rest (<[n := lrFence resp]> fences)
  end.

Definition AcquireMutationLease (ctl : Controller) (k : nat) (lab : string)
    : C (option MutationLease) :=
  refuse (bool_decide (lab = "")) "a mutation lease needs a lab name";;
  if decide (sortedNodes = []) then mret None else
  fences ← acquireFences lab (ctlHolder ctl k) sortedNodes ∅;
  mret (Some (mkMutationLease lab fences (ctlErr ctl k))).

(** [defer lease.Release()]. *)
Definition withLease {A} (lease : MutationLease) (m : C A) : C A := fun cl =>
  let '(cl1, r) := m cl in let '(cl2, _) := Release lease cl1 in (cl2, r).

Definition reserveOverlays (lease : MutationLease) (top : Topology) (hold : string) : C unit :=
  forEach sortedNodes (fun n =>
    match overlayReservations top n with
    | [] => mret tt
    | vnis => fence ← fenceOf lease n;
              onNode n (agReserve (mkReserve (topName top) hold fence vnis))
    end).

(** [clusterGeneration]: one value on every node, or an error. *)
Definition clusterGeneration (lab : string) : C string :=
  results ← fanOut sortedNodes (fun n => onNode n agGenerations);
  let answers := omap (fun p => match p.2 with Ok gens => Some (lookup_or "" gens lab) | Err _ => None end)
                   results in
  let want := default "" (head answers) in
  refuse (negb (forallb (fun p => is_ok p.2) results)
          || negb (forallb (fun g => bool_decide (g = want)) answers))
    "not a single compare-and-swap value";;
  mret want.

(** ** Recovery *)

(** Reading every node; a node that does not answer is a problem. *)
Fixpoint readNodes (lab : string) (nodes : list string) (acc : RecoveryReport * bool)
    (problems : list string) : C (RecoveryReport * bool * list string) :=
  match nodes with
  | [] => mret (acc.1, acc.2, problems)
  | n :: rest =>
      r ← observe (onNode n (agStatus lab));
      match r with
      | Err e => readNodes lab rest acc (problems ++ [n +:+ " recovery status: " +:+ e])
      | Ok st => readNodes lab rest (readStatus n st acc) problems
      end
  end.
Definition readRecoveryStatuses (lab : string) : C (RecoveryReport * bool * list string) :=
  '(report, pending, problems) ← readNodes lab sortedNodes (noReport, false) [];
  mret (report, pending || negb (bool_decide (problems = [])), problems).

(** [observeNodes]: a node that does not answer keeps what is known of it; an
    unknown one empties the report. *)
Fixpoint observeFrom (lab : string) (fallback : RecoveryReport) (nodes : list string)
    (out : gmap string RecoveryStatus) : C RecoveryReport :=
  match nodes with
  | [] => mret (mkReport "" out)
  | n :: rest =>
      r ← observe (onNode n (agStatus lab));
      match r, rpNodes fallback !! n with
      | Ok st, _ => observeFrom lab fallback rest (<[n := st]> out)
      | Err _, Some known => observeFrom lab fallback rest (<[n := known]> out)
      | Err _, None => mret noReport
      end
  end.
Definition observeNodes (lab : string) (fallback : RecoveryReport) : C RecoveryReport :=
  observeFrom lab fallback sortedNodes ∅.

(** A loop over nodes that collects what went wrong on each. *)
Fixpoint collectProblems (nodes : list string) (f : string -> C unit) : C (list string) :=
  match nodes with
  | [] => mret []
  | n :: rest =>
      r ← observe (f n);
      more ← collectProblems rest f;
      mret (match r with Ok _ => more | Err e => (n +:+ " " +:+ e) :: more end)
  end.

Definition resolveSplitCommit (lab : string) (lease : MutationLease) (split : splitCommit)
    (options : RecoveryOptions) : C (list string) :=
  collectProblems (scRollback split) (fun n =>
    refuse (negb (bool_decide (n ∈ Nodes))) "is not in this cluster";;
    fence ← fenceOf lease n;
    _ ← onNode n (agRecover (mkRecoveryRequest lab fence "rollback" (roTakeover options) false true));
    mret tt).

(** The generation every node reports as committed, with the nodes that still
    hold its transaction. *)
Fixpoint convergedPending (report : RecoveryReport) (nodes : list string) (generation : string)
    : option (string * list string) :=
  match nodes with
  | [] => Some (generation, [])
  | n :: rest =>
      match rpNodes report !! n with
      | None => None
      | Some st =>
          if negb (bool_decide (rvPhase st = "committed")) || negb (rvConsistent st)
             || bool_decide (rvGeneration st = "") then None
          else if negb (bool_decide (generation = ""))
                  && negb (bool_decide (rvGeneration st = generation)) then None
          else '(g, pending) ← convergedPending report rest (rvGeneration st);
               Some (g, if rvCommittedPending st then n :: pending else pending)
      end
  end.

Definition finalizeRequest (lab : string) (fence : Fence) (generation : string) : ApplyRequest :=
  mkApply "finalize" lab "" fence "" [] false "" generation None "" 0 false 0 "" false false [] ∅ [].

Definition finalizeConvergedCommit (lab : string) (lease : MutationLease) (report : RecoveryReport)
    : C (list string) :=
  match convergedPending report sortedNodes "" with
  | None => mret []
  | Some (generation, pending) =>
      collectProblems pending (fun n =>
        refuse (negb (bool_decide (n ∈ Nodes))) "is not in this cluster";;
        fence ← fenceOf lease n;
        _ ← onNode n (agApply (finalizeRequest lab fence generation));
        mret tt)
  end.

(** The last pass: what a status must not show, and the one generation. *)
Definition finalStatus (n : string) (st : RecoveryStatus) (report : RecoveryReport)
    : RecoveryReport * list string :=
  let nodes := <[n := st]> (rpNodes report) in
  let keep problems := (mkReport (rpGeneration report) nodes, problems) in
  if negb (bool_decide (rvPhase st = "idle")) && negb (rvConsistent st)
  then keep [n +:+ " is " +:+ rvPhase st]
  else if rvCommittedPending st then keep [n +:+ " still holds a committed generation"]
  else if bool_decide (rvGeneration st = "") then keep []
  else if bool_decide (rpGeneration report = "") then (mkReport (rvGeneration st) nodes, [])
  else if bool_decide (rpGeneration report = rvGeneration st) then keep []
  else keep [n +:+ " recovered another generation"].
Fixpoint finalStatuses (lab : string) (nodes : list string) (report : RecoveryReport)
    : C (RecoveryReport * list string) :=
  match nodes with
  | [] => mret (report, [])
  | n :: rest =>
      r ← observe (onNode n (agStatus lab));
      let '(report, here) := match r with
                             | Ok st => finalStatus n st report
                             | Err e => (report, [n +:+ " recovery status: " +:+ e])
                             end in
      '(report, more) ← finalStatuses lab rest report;
      mret (report, here ++ more)
  end.

(** The recovery each node is asked for. *)
Definition recoverNode (lab strategy : string) (lease : MutationLease) (options : RecoveryOptions)
    (n : string) : C RecoveryStatus :=
  fence ← fenceOf lease n;
  onNode n (agRecover (mkRecoveryRequest lab fence strategy (roTakeover options)
                         (roForwardAcknowledged options) false)).

(** [recoverWithLeaseStrategyOptions]: the report and the problems, none on
    success. *)
Definition recoverWithLeaseStrategyOptions (lab : string) (lease : MutationLease)
    (strategy : string) (options : RecoveryOptions) : C (RecoveryReport * list string) :=
  results ← fanOut sortedNodes (recoverNode lab strategy lease options);
  let problems := omap (fun p => match p.2 with Err e => Some (p.1 +:+ " recovery: " +:+ e) | Ok _ => None end)
                    results in
  let report := mkReport "" (list_to_map (omap (fun p => match p.2 with
                                                         | Ok st => Some (p.1, st)
                                                         | Err _ => None
                                                         end) results)) in
  split ← (if decide (strategy = "rollback") then
             observed ← observeNodes lab report;
             match detectSplitCommit observed with
             | Some split => resolveSplitCommit lab lease split options
             | None => mret []
             end
           else mret []);
  let problems := problems ++ split in
  finalized ← (if decide (problems = []) then
                 observed ← observeNodes lab report;
                 finalizeConvergedCommit lab lease observed
               else mret []);
  '(report, last) ← finalStatuses lab sortedNodes report;
  mret (report, problems ++ finalized ++ last
                ++ match mlErr lease 2 with Some e => [e] | None => [] end).
Definition recoverWithLease (lab : string) (lease : MutationLease)
    : C (RecoveryReport * list string) :=
  recoverWithLeaseStrategyOptions lab lease "rollback" noOptions.

(** ** Joining a recovery that is already running *)

(** A blocked loop: waiting for the next status, or for a lease to take over with. *)
Inductive blocked := AwaitStatus (report : RecoveryReport) | AwaitLease (why : string) (report : RecoveryReport).
(** The [select] of the wait loops; when no event is left, its deadline fires. *)
Inductive selected := Tick | Cancelled.

Abbreviation Answer := (RecoveryReport * list string)%type (only parsing).

(** A recovery under a lease of one's own, which is released at the end. *)
Definition recoverOwning (lab strategy : string) (options : RecoveryOptions) (lease : MutationLease)
    : C Answer :=
  withLease lease (recoverWithLeaseStrategyOptions lab lease strategy options).

(** One round of [takeoverRecovery]: an answer, or a wait. *)
Definition takeoverTry (ctl : Controller) (k : nat) (lab strategy : string)
    (options : RecoveryOptions) : C (Answer + blocked) :=
  let taking := mkRecoveryOptions (roWait options) true (roForwardAcknowledged options) in
  acquired ← observe (AcquireMutationLease ctl k lab);
  match acquired with
  | Ok None => mret (inl (noReport, []))
  | Ok (Some lease) => a ← recoverOwning lab strategy taking lease; mret (inl a)
  | Err e =>
      '(report, _, unread) ← readRecoveryStatuses lab;
      if decide (unread = []) then
        let '(active, conflict, stale) := recoveryActivity report strategy in
        match conflict with
        | Some other => mret (inl (report, ["already running strategy " +:+ other]))
        | None =>
            if active && negb stale then
              mret (if roWait options <=? 0 then inl (report, ["still in progress"])
                    else inr (AwaitStatus report))
            else if roWait options <=? 0 then mret (inl (report, ["not yet fenced: " +:+ e]))
            else mret (inr (AwaitLease e report))
        end
      else mret (inl (noReport, [e]))
  end.

(** One tick of [waitForRecovery]. *)
Definition waitTick (ctl : Controller) (k : nat) (lab strategy : string)
    (options : RecoveryOptions) : C (Answer + blocked) :=
  '(report, pending, unread) ← readRecoveryStatuses lab;
  if decide (unread <> []) then mret (inl (report, unread))
  else if negb pending then mret (inl (report, []))
  else
    let '(active, conflict, stale) := recoveryActivity report strategy in
    match conflict with
    | Some other => mret (inl (report, ["switched to strategy " +:+ other]))
    | None =>
        if (active : bool) then
          if (stale : bool) then
            if roTakeover options then takeoverTry ctl k lab strategy options
            else mret (inl (report, ["exceeded its phase deadline"]))
          else mret (inr (AwaitStatus report))
        else
          acquired ← observe (AcquireMutationLease ctl k lab);
          match acquired with
          | Err e => mret (inl (report, [e]))
          | Ok None => mret (inl (report, []))
          | Ok (Some lease) => a ← recoverOwning lab strategy options lease; mret (inl a)
          end
    end.

(** [waitForRecovery] and [takeoverRecovery], which call each other, as one
    loop over the events they select; the [k]-th event is the [k]-th attempt
    to acquire. *)
Fixpoint joinRecovery (ctl : Controller) (k : nat) (lab strategy : string)
    (options : RecoveryOptions) (events : list selected) (w : blocked) : C Answer :=
  let report := match w with AwaitStatus r | AwaitLease _ r => r end in
  match events with
  | [] => mret (report, [match w with
                         | AwaitStatus _ => "still in progress"
                         | AwaitLease e _ => "not yet fenced: " +:+ e
                         end])
  | Cancelled :: _ => mret (report, ["context canceled"])
  | Tick :: rest =>
      next ← (match w with
              | AwaitStatus _ => waitTick ctl k lab strategy options
              | AwaitLease _ _ => takeoverTry ctl k lab strategy options
              end);
      match next with
      | inl answer => mret answer
      | inr w => joinRecovery ctl (Datatypes.S k) lab strategy options rest w
      end
  end.

(** [waitForRecovery] and [takeoverRecovery] from their start. *)
Definition joinStart (ctl : Controller) (lab strategy : string) (options : RecoveryOptions)
    (events : list selected) (stale : bool) (report : RecoveryReport) : C Answer :=
  if stale && roTakeover options then
    next ← takeoverTry ctl 1 lab strategy options;
    match next with
    | inl answer => mret answer
    | inr w => joinRecovery ctl 2 lab strategy options events w
    end
  else if roWait options <=? 0 then mret (report, ["still in progress"])
  else joinRecovery ctl 2 lab strategy options events (AwaitStatus report).

Definition RecoverWithOptions (ctl : Controller) (lab strategy : string)
    (options : RecoveryOptions) (events : list selected) : C Answer :=
  if negb (bool_decide (strategy = "rollback")) && negb (bool_decide (strategy = "forward"))
  then mret (noReport, ["unknown recovery strategy"]) else
  '(initial, pending, unread) ← readRecoveryStatuses lab;
  if decide (unread <> []) then mret (initial, unread)
  else if negb pending then mret (initial, [])
  else
    let '(active, conflict, stale) := recoveryActivity initial strategy in
    match conflict with
    | Some other => mret (initial, ["already running strategy " +:+ other])
    | None =>
        if (active : bool) then joinStart ctl lab strategy options events stale initial
        else
          acquired ← observe (AcquireMutationLease ctl 0 lab);
          match acquired with
          | Ok None => mret (initial, [])
          | Ok (Some lease) => recoverOwning lab strategy options lease
          | Err e =>
              '(now, _, unread) ← readRecoveryStatuses lab;
              let '(active, conflict, stale) := recoveryActivity now strategy in
              if decide (unread = []) then
                match conflict with
                | Some other => mret (now, ["already running strategy " +:+ other])
                | None => if (active : bool) then joinStart ctl lab strategy options events stale now
                          else mret (initial, [e])
                end
              else mret (initial, [e])
          end
    end.
Definition Recover (ctl : Controller) (lab : string) (events : list selected) : C Answer :=
  RecoverWithOptions ctl lab "rollback" (mkRecoveryOptions defaultRecoveryWait false false) events.

(** ** A coordinated apply *)

(** What a deployment is made of; [dpProofs] are the state proofs each node
    must restore, [dpPlacement] the nodes of the manifest with their underlay
    addresses. *)
Record Deployment := mkDeployment {
  dpTop : Topology; dpRequest : ApplyRequest; dpProofs : gmap string (list StateProof);
  dpPlacement : list (string * string)
}.

Definition placementPeers (placement : list (string * string)) : gmap string string :=
  fold_left (fun m '(name, ip) => if decide (ip = "") then m else <[name := ip]> m) placement ∅.

Variable wireHash : Topology -> string.
Variable verifyAppliedImageDigests : Topology -> string -> ApplyResponse -> option string.

(** The request with its canonical mode and its lifetime, and its wire. *)
Definition normalRequest (mode : string) (dp : Deployment) : ApplyRequest :=
  let req := dpRequest dp in
  let w := deploymentWire (dpTop dp) mode req in
  with_phase_fields mode (wEphemeral w) (wEphemeralTTLSeconds w) req.

Section Phases.
Variable dp : Deployment.
Variable lease : MutationLease.
Abbreviation top := (dpTop dp) (only parsing).

(** One phase's request to a node. *)
Definition phaseRequest (mode expected generation phase n : string) : ApplyRequest :=
  let req := normalRequest mode dp in
  applyRequestForNode req (deploymentWire top mode (dpRequest dp)) (placementPeers (dpPlacement dp))
    (default zeroFence (mlFences lease !! n)) n phase expected generation.

Definition preparePhase (mode expected generation : string) : C unit :=
  results ← fanOut sortedNodes (fun n => onNode n (agApply
    (with_proofs (lookup_or [] (dpProofs dp) n) (phaseRequest mode expected generation "prepare" n))));
  lift (match firstErr results with Some e => Err ("prepare " +:+ e) | None => Ok tt end).

(** The apply phase: the responses, with the first failure. *)
Definition applyPhases (mode expected generation : string) : C (Values * option string) :=
  results ← fanOut sortedNodes (fun n => onNode n (agApply
    (phaseRequest mode expected generation "apply" n)));
  let values := list_to_map (map (fun p => (p.1, match p.2 with Ok r => r | Err _ => zeroResponse end))
                               results) in
  let failures := omap (fun p => match p.2 with Ok r => responseFailure r | Err e => Some e end) results in
  mret (values, match head failures with
                | Some e => Some e
                | None => mlErr lease 0
                end).

Definition postpullVerify (values : Values) : option string :=
  head (omap (fun n => verifyAppliedImageDigests top n (lookup_or zeroResponse values n)) sortedNodes).

Definition stateRestoreVerify (generation : string) : C unit :=
  forEach sortedNodes (fun n =>
    match lookup_or [] (dpProofs dp) n with
    | [] => mret tt
    | _ => fence ← fenceOf lease n;
           onNode n (agVerifyRestore (topName top) fence generation)
    end).

Definition commitNode (mode expected generation n : string) : C ApplyResponse :=
  resp ← onNode n (agApply (without_topology (phaseRequest mode expected generation "commit" n)));
  match responseFailure resp with Some e => fail e | None => mret resp end.
(** The responses up to the first error, merged with those of the apply. *)
Fixpoint mergeCommits (results : list (string * result string ApplyResponse)) (values : Values)
    : Values * option string :=
  match results with
  | [] => (values, None)
  | (n, Err e) :: _ => (values, Some ("commit " +:+ n +:+ ": " +:+ e))
  | (n, Ok resp) :: rest =>
      mergeCommits rest (<[n := match values !! n with
                                | Some applied => mergeCommit applied resp
                                | None => resp
                                end]> values)
  end.
Definition commitPhase (mode expected generation : string) (values : Values)
    : C (Values * option string) :=
  results ← fanOut sortedNodes (commitNode mode expected generation);
  mret (mergeCommits results values).

Definition finalizePhase (mode expected generation : string) : C unit :=
  results ← fanOut sortedNodes (fun n => onNode n (agApply
    (without_topology (phaseRequest mode expected generation "finalize" n))));
  lift (match firstErr results with Some e => Err ("finalize " +:+ e) | None => Ok tt end).

(** [verifyCommittedRecovery]. *)
Definition verifyCommittedRecovery (lab generation : string) : C unit :=
  problems ← collectProblems sortedNodes (fun n =>
    st ← onNode n (agStatus lab);
    refuse (negb (rvConsistent st) || negb (bool_decide (rvGeneration st = generation)))
      "reports another generation");
  refuse (negb (bool_decide (problems = []))) "did not verify exact inventory on every node".

(** The phases from the lease to the verified generation. *)
Definition transactionPhases : SE Cl applyFailure Values :=
  mode ← orElse (lift (match RequireTransactionMode (arMode (dpRequest dp)) with
                       | Ok mode => Ok mode
                       | Err _ => Err "mode"
                       end)) NotStarted;
  expected ← orElse (clusterGeneration (topName top)) NotStarted;
  let generation := generatedGeneration wireHash top (dpRequest dp) expected in
  refuse (bool_decide (generation = "")) (NotStarted "could not derive a deployment generation");;
  orElse (reserveOverlays lease top (arHold (dpRequest dp))) NotStarted;;
  orElse (preparePhase mode expected generation) (Recoverable ∅);;
  '(values, failure) ← orElse (applyPhases mode expected generation) (Recoverable ∅);
  lift (match failure with Some e => Err (Recoverable values e) | None => Ok tt end);;
  lift (match postpullVerify values with Some e => Err (Recoverable values e) | None => Ok tt end);;
  orElse (stateRestoreVerify generation) (Recoverable values);;
  '(values', failure) ← orElse (commitPhase mode expected generation values) (Recoverable values);
  lift (match failure with Some e => Err (Recoverable values' e) | None => Ok tt end);;
  orElse (finalizePhase mode expected generation) (Unfinished values' "finalization");;
  orElse (verifyCommittedRecovery (topName top) generation)
    (Unfinished values' "post-commit inventory verification");;
  lift (match mlErr lease 1 with Some e => Err (LeaseLost values' e) | None => Ok tt end);;
  mret values'.

Definition recoverFailedApply (cause : string) : C string :=
  '(_, problems) ← recoverWithLease (topName top) lease;
  mret (if decide (problems = []) then cause +:+ "; prior generation was recovered and inventory verified"
        else cause +:+ "; recovery failed").

(** [coordinatedApplyWithLease]. *)
Definition coordinatedApplyWithLeaseTimed : C (list NodeResult) := fun cl =>
  match transactionPhases cl with
  | (cl', Ok values) =>
      (cl', Ok (map (fun n => mkNodeResult n (lookup_or zeroResponse values n) None) sortedNodes))
  | (cl', Err (NotStarted cause)) => (cl', Ok (transactionFailure sortedNodes ∅ cause))
  | (cl', Err (Recoverable values cause)) =>
      (cause ← recoverFailedApply cause; mret (transactionFailure sortedNodes values cause)) cl'
  | (cl', Err (Unfinished values stage cause)) =>
      (cl', Ok (postCommitFailure sortedNodes values stage cause))
  | (cl', Err (LeaseLost values cause)) =>
      (cause ← recoverFailedApply cause;
       mret (postCommitFailure sortedNodes values "the fenced mutation lease" cause)) cl'
  end.
End Phases.

(** [unfencedApply], a dry run's. *)
Definition unfencedApply (dp : Deployment) : C (list NodeResult) :=
  let req := dpRequest dp in
  let w := deploymentWire (dpTop dp) (arMode req) req in
  results ← fanOut Nodes (fun n => onNode n (agApply
    (applyRequestForNode (normalRequest (arMode req) dp) w (placementPeers (dpPlacement dp))
       (arFence req) n "" "" (arGeneration req))));
  mret (map (fun p => match p.2 with
                      | Ok r => mkNodeResult p.1 r None
                      | Err e => mkNodeResult p.1 zeroResponse (Some (DidNotCommit e))
                      end) results).

Definition coordinatedApply (ctl : Controller) (dp : Deployment) (events : list selected)
    : C (list NodeResult) :=
  if arDryRun (dpRequest dp) || bool_decide (sortedNodes = []) then unfencedApply dp else
  '(_, problems) ← Recover ctl (topName (dpTop dp)) events;
  if decide (problems <> []) then mret (transactionFailure sortedNodes ∅ "prior transaction recovery is incomplete")
  else
    acquired ← observe (AcquireMutationLease ctl (3 + length events) (topName (dpTop dp)));
    match acquired with
    | Err e => mret (transactionFailure sortedNodes ∅ e)
    | Ok None => mret (transactionFailure sortedNodes ∅ "a coordinated apply needs a mutation lease")
    | Ok (Some lease) => withLease lease (coordinatedApplyWithLeaseTimed dp lease)
    end.
End Client.
