(* ===== verification/AgentNode.v ===== *)
(** * An agent behind its HTTP endpoints

    The rest of the handlers a controller talks to ([handleApply],
    [handleStateVerify], [handleRecoveryStatus], the lease and overlay
    endpoints) and a node as the client of [Cluster.v] sees it: a server, the
    environments its future requests will run in, and a network that may lose
    a request before it is served or its answer afterwards. *)

From stdpp Require Import base gmap strings pretty list fin_maps.
From Stdlib Require Import ZArith Lia.
From S2P Require Import Prelude Model Coordination Transactions Ephemeral Restart Inventory.
From S2P Require Import Handlers Recovery Cluster.

Open Scope Z_scope.

(** ** Environments *)

(** Everything a request can meet on the node. *)
Record RequestEnv := mkRequestEnv {
  rqeDelivered : bool;
  rqeAnswered : bool;
  rqeClock : nat -> Time;
  rqeToken : result err string;
  rqeKernel : Kernel;
  rqePrepare : PrepareEnv;
  rqeApply : ApplyEnv;
  rqeCommit : CommitEnv;
  rqeRecover : RecoverEnv;
  rqeStatus : StatusEnv;
  rqeRestored : StateProof -> option string
}.

Section Serving.
Variable cfg : RecoveryConfig.
Variable sidecar : Device -> option string.

(** ** Handlers *)

Definition handleApply (env : RequestEnv) (req : ApplyRequest) : M ApplyResponse :=
  let phase := arPhase req in
  if decide (phase = "prepare") then handleApplyPrepare (rqeClock env) (rqePrepare env) req
  else if decide (phase = "commit") then handleApplyCommit (rqeClock env) (rqeCommit env) req
  else if decide (phase = "finalize") then handleApplyFinalize (rqeClock env) req
  else if decide (phase = "abort") then handleApplyAbort cfg sidecar (rqeRecover env) req
  else if decide (phase = "" \/ phase = "apply") then handleApplyRun (rqeClock env) (rqeApply env) req
  else fail (ERequest "unknown apply phase").

(** The loop over the state proofs: [rqeRestored] is the comparison of a
    proof with what was restored. *)
Fixpoint verifyProofs (restored : StateProof -> option string) (proofs : list StateProof) : M unit :=
  match proofs with
  | [] => mret tt
  | p :: rest => host (restored p);; verifyProofs restored rest
  end.
Definition handleStateVerify (env : RequestEnv) (lab : string) (fence : Fence)
    (generation : string) : M unit :=
  refuse (bool_decide (lab = "") || bool_decide (generation = "")) (ERequest "lab and generation");;
  tx ← transactionForStateVerify lab fence generation (rqeClock env 0);
  w ← lift (rawWire (txRequested (txReq tx)));
  _ ← lift (rehydrateWire w);
  verifyProofs (rqeRestored env) (txStateProofs (txReq tx));;
  markStateVerified lab fence generation (rqeClock env 1).

Definition handleRecoveryStatus (env : RequestEnv) (lab : string) : M RecoveryStatus :=
  refuse (bool_decide (lab = "")) ELabRequired;;
  transactionInventoryStatus (rqeStatus env) lab.

(** [recoveryStatuses]: one status per lab with a record. *)
Fixpoint statusesOf (env : StatusEnv) (labs : list string) : M (gmap string RecoveryStatus) :=
  match labs with
  | [] => mret ∅
  | lab :: rest =>
      st ← transactionInventoryStatus env lab;
      more ← statusesOf env rest;
      mret (<[lab := st]> more)
  end.
Definition recoveryStatuses (env : StatusEnv) : M (gmap string RecoveryStatus) :=
  s ← get;
  statusesOf env (elements (dom (transactions s) ∪ dom (Inventories (coord s)))).

(** The generations of [handleStatus], which also reads every lab's status. *)
Definition handleStatus (env : RequestEnv) : M (gmap string string) :=
  s ← get;
  _ ← recoveryStatuses (rqeStatus env);
  mret (committedGenerations s).

Definition handleOverlayReserve (env : RequestEnv) (req : OverlayReservationRequest) : M unit :=
  refuseIfHeld (rqLab req) (rqHold req) (rqeClock env 0);;
  _ ← Coordination.reserveOverlays (rqeKernel env) req (rqeClock env 1);
  mret tt.

(** ** A node on the network *)

Record NodeState := mkNodeState {
  nsServer : Server; nsEnv : nat -> RequestEnv; nsServed : nat
}.

(** One request: it may be lost, and so may its answer. *)
Definition serve {A} (handler : RequestEnv -> M A) : SE NodeState string A := fun n =>
  let env := nsEnv n (nsServed n) in
  if rqeDelivered env then
    let '(s, r) := handler env (nsServer n) in
    (mkNodeState s (nsEnv n) (S (nsServed n)),
     match r with
     | Ok a => if rqeAnswered env then Ok a else Err "no answer"
     | Err _ => Err "refused"
     end)
  else (mkNodeState (nsServer n) (nsEnv n) (S (nsServed n)), Err "not delivered").

#[export] Instance nodeAgent : Agent NodeState := {|
  agAcquire req := serve (fun env => acquireMutationLease (rqeToken env) req (rqeClock env 0));
  agRelease req := serve (fun env => releaseMutationLease req (rqeClock env 0));
  agReserve req := serve (fun env => handleOverlayReserve env req);
  agGenerations := serve handleStatus;
  agApply req := serve (fun env => handleApply env req);
  agVerifyRestore lab fence generation :=
    serve (fun env => handleStateVerify env lab fence generation);
  agRecover req := serve (fun env => handleRecovery cfg sidecar (rqeRecover env) req);
  agStatus lab := serve (fun env => handleRecoveryStatus env lab)
|}.
End Serving.
