(* ===== verification/ClusterSafety.v ===== *)
(** * What a coordinated deployment guarantees

    The laws a controller relies on from each agent, as a class, and what
    follows for a whole cluster: a deployment that reports success left every
    node settled at one generation; a failure reported as committed is one; a
    recovery that reports success left the cluster in agreement; a split
    commit is recognised exactly and resolved towards the generation the rest
    of the cluster holds. *)

From stdpp Require Import base gmap strings list sorting fin_maps.
From Stdlib Require Import ZArith Lia.
From S2P Require Import Prelude Model Coordination Transactions Ephemeral Restart Fencing Claims.
From S2P Require Import TxSafety Inventory Handlers Recovery RecoverySafety Cluster.

Open Scope Z_scope.

(** ** The agent's promises *)

(** What a node's journal says of a lab's transaction; [tvSettling] is the
    phase [committed]. *)
Record txView := mkTxView {
  tvGeneration : string; tvPrevious : string; tvCommitted : bool; tvSettling : bool
}.
Class AgentView (S : Type) := {
  agTx : string -> S -> option txView;
  agGen : string -> S -> string
}.

Section Views.
Context {S : Type} {view : AgentView S}.

(** A prepared transaction, not yet committed. *)
Definition openHere (lab generation : string) (s : S) : Prop :=
  exists v, agTx lab s = Some v /\ tvGeneration v = generation /\ tvCommitted v = false.
(** The lab is committed at a generation, finalized or not. *)
Definition committedHere (lab generation : string) (s : S) : Prop :=
  agGen lab s = generation /\
  forall v, agTx lab s = Some v -> tvGeneration v = generation /\ tvCommitted v = true.
(** Nothing is left of the transaction. *)
Definition settledHere (lab generation : string) (s : S) : Prop :=
  agTx lab s = None /\ agGen lab s = generation.

(** A status agrees with the journal. *)
Definition tells (lab : string) (s : S) (st : RecoveryStatus) : Prop :=
  match agTx lab s with
  | Some v => rvGeneration st = tvGeneration v /\ rvPreviousGeneration st = tvPrevious v /\
      rvCommittedPending st = tvCommitted v /\ rvPhase st <> "idle" /\
      (rvConsistent st = true -> tvSettling v = true)
  | None => rvCommittedPending st = false /\
      (rvPhase st = "idle" /\ rvGeneration st = "" \/
       rvPhase st = "committed" /\ (agGen lab s <> "" -> rvGeneration st = agGen lab s))
  end.

Lemma settled_committed lab g s : settledHere lab g s -> committedHere lab g s.
Proof. intros [Hn Hg]. split; [done|]. intros v. by rewrite Hn. Qed.
End Views.

(** What the controller relies on. A law about a result holds of every state
    the agent may be in; a law about what is kept holds of every outcome, a
    lost answer included. *)
Class AgentLaws (S : Type) {agent : Agent S} {view : AgentView S} := {
  law_prepare req w top s s' r :
    arPhase req = "prepare" -> arTopology req = Some w -> wTopology w = Some top ->
    agApply req s = (s', Ok r) -> openHere (topName top) (arGeneration req) s';
  law_apply req w top g :
    arPhase req = "apply" -> arTopology req = Some w -> wTopology w = Some top ->
    mrel (kept (openHere (topName top) g)) (agApply req);
  law_verify lab fence generation g :
    mrel (kept (openHere lab g)) (agVerifyRestore lab fence generation);
  law_commit req s s' r :
    arPhase req = "commit" -> openHere (requestLab req) (arGeneration req) s ->
    agApply req s = (s', Ok r) -> apFailures r = ∅ ->
    committedHere (requestLab req) (arGeneration req) s';
  law_finalize req s s' r :
    arPhase req = "finalize" -> committedHere (requestLab req) (arGeneration req) s ->
    agApply req s = (s', Ok r) -> settledHere (requestLab req) (arGeneration req) s';
  law_finalize_keeps req g :
    arPhase req = "finalize" ->
    mrel (kept (committedHere (requestLab req) g)) (agApply req) /\
    mrel (kept (settledHere (requestLab req) g)) (agApply req);
  law_status_keeps lab s s' r :
    agStatus lab s = (s', r) -> agGen lab s' = agGen lab s /\
    (agTx lab s' = agTx lab s \/
     exists v, agTx lab s = Some v /\ tvCommitted v = true /\ agTx lab s' = None);
  law_status_tells lab s s' st : agStatus lab s = (s', Ok st) -> tells lab s st;
  law_recover_settled req g :
    mrel (kept (settledHere (rcqLab req) g)) (agRecover req);
  law_rollback req s s' st v :
    rcqStrategy req = "rollback" -> rcqRollbackCommitted req = true ->
    agTx (rcqLab req) s = Some v -> agRecover req s = (s', Ok st) ->
    settledHere (rcqLab req) (tvPrevious v) s';
  law_release req lab :
    mrel (unchanged (fun s => (agTx lab s, agGen lab s))) (agRelease req)
}.

(** ** Requests to many nodes *)

Section Nodes.
Context {S : Type}.
Abbreviation Cl := (gmap string S) (only parsing).

(** Every node of a list is there and satisfies a property. *)
Definition each (nodes : list string) (P : string -> S -> Prop) (cl : Cl) : Prop :=
  forall n, n ∈ nodes -> exists s, cl !! n = Some s /\ P n s.

Lemma each_mono nodes (P Q : string -> S -> Prop) cl :
  (forall n s, P n s -> Q n s) -> each nodes P cl -> each nodes Q cl.
Proof. intros H Hp n Hn. destruct (Hp n Hn) as (s & Hs & HP). eauto. Qed.

Lemma mrel_onNode {A} nodes (P : string -> S -> Prop) n (m : SE S string A) :
  mrel (kept (P n)) m -> mrel (kept (each nodes P)) (onNode n m).
Proof.
  intros Hm cl Hcl. unfold final, onNode. destruct (cl !! n) as [s|] eqn:Hs; [|done].
  specialize (Hm s). unfold final in Hm. destruct (m s) as [s' r]. simpl in *.
  intros k Hk. destruct (Hcl k Hk) as (t & Ht & HP). destruct (decide (k = n)) as [->|Hne].
  - exists s'. rewrite lookup_insert_eq. split; [done|]. apply Hm. congruence.
  - exists t. by rewrite lookup_insert_ne.
Qed.

Section Loops.
Context (R : Cl -> Cl -> Prop) `{!PreOrder R}.
Lemma mrel_fanOut {A} nodes (f : string -> SE Cl string A) :
  (forall n, mrel R (f n)) -> mrel R (fanOut nodes f).
Proof. intros Hf. induction nodes; simpl; mrel_steps; [by apply mrel_observe|done]. Qed.
Lemma mrel_forEach {A} (l : list A) (f : A -> SE Cl string unit) :
  (forall a, mrel R (f a)) -> mrel R (forEach l f).
Proof. intros Hf. induction l; simpl; mrel_steps; auto. Qed.
Lemma mrel_collect nodes (f : string -> SE Cl string unit) :
  (forall n, mrel R (f n)) -> mrel R (collectProblems nodes f).
Proof. intros Hf. induction nodes; simpl; mrel_steps; [by apply mrel_observe|done]. Qed.
Lemma mrel_orElse {E E' A} (m : SE Cl E A) (f : E -> E') : mrel R m -> mrel R (orElse m f).
Proof. intros Hm cl. specialize (Hm cl). unfold final, orElse in *. by destruct (m cl). Qed.
End Loops.

(** [actsOn n c Pre Post]: [c] acts on node [n] only, and takes a state with
    [Pre] to one with [Post] for what it returns. *)
Definition actsOn {A} (n : string) (c : SE Cl string A) (Pre : S -> Prop)
    (Post : S -> result string A -> Prop) : Prop :=
  forall cl cl' r, c cl = (cl', r) ->
    (forall m, m <> n -> cl' !! m = cl !! m) /\
    (forall s, cl !! n = Some s -> Pre s -> exists s', cl' !! n = Some s' /\ Post s' r) /\
    (cl !! n = None -> is_ok r = false /\ cl' = cl).

Lemma actsOn_onNode {A} n (m : SE S string A) (Pre : S -> Prop) (Post : S -> result string A -> Prop) :
  (forall s s' r, Pre s -> m s = (s', r) -> Post s' r) -> actsOn n (onNode n m) Pre Post.
Proof.
  intros Hm cl cl' r H. unfold onNode in H. destruct (cl !! n) as [s|] eqn:Hs.
  - destruct (m s) as [s' r'] eqn:Hr. injection H as <- <-. split_and!; [|intros t Ht Hp|done].
    + intros k Hk. by rewrite lookup_insert_ne.
    + injection Ht as <-. exists s'. rewrite lookup_insert_eq. eauto.
  - injection H as <- <-. split_and!; done.
Qed.

Lemma fanOut_spec {A} nodes (f : string -> SE Cl string A) Pre Post cl cl' r :
  NoDup nodes -> (forall n, n ∈ nodes -> actsOn n (f n) (Pre n) (Post n)) ->
  fanOut nodes f cl = (cl', r) ->
  exists rs, r = Ok rs /\ map fst rs = nodes /\ (forall m, m ∉ nodes -> cl' !! m = cl !! m) /\
    forall n x, (n, x) ∈ rs ->
      (forall s, cl !! n = Some s -> Pre n s -> exists s', cl' !! n = Some s' /\ Post n s' x) /\
      (cl !! n = None -> is_ok x = false).
Proof.
  intros Hnd Hf. revert cl cl' r. induction nodes as [|n nodes IH]; intros cl cl' r H.
  { injection H as <- <-. exists []. split_and!; try done. by intros ? ? H%elem_of_nil. }
  apply NoDup_cons in Hnd as [Hn Hnd]. simpl in H.
  unfold mbind, SE_bind, observe in H. destruct (f n cl) as [cl1 x] eqn:Hx.
  apply Hf in Hx as (Hframe & Hpost & Hnone); [|set_solver].
  destruct (fanOut nodes f cl1) as [cl2 r2] eqn:H2.
  apply IH in H2 as (rs & -> & Hrs & Hout & Hin); [|done|intros; apply Hf; set_solver].
  injection H as <- <-. exists ((n, x) :: rs). split_and!; [done|by simpl; f_equal| |].
  - intros m Hm. apply not_elem_of_cons in Hm as [Hm1 Hm2]. rewrite Hout by done. by apply Hframe.
  - intros k y Hky. apply elem_of_cons in Hky as [[= -> ->]|Hky].
    + rewrite Hout by done. split; [done|]. intros Hk. by apply Hnone in Hk as [? _].
    + assert (k <> n) as Hkn.
      { intros ->. apply Hn. rewrite <- Hrs. by apply (list_elem_of_fmap_2 fst _ (n, y)). }
      destruct (Hin k y Hky) as [H1 H3]. rewrite <- (Hframe k Hkn). done.
Qed.
End Nodes.

Lemma firstErr_none {A} (results : list (string * result string A)) :
  firstErr results = None -> forall n x, (n, x) ∈ results -> exists a, x = Ok a.
Proof.
  unfold firstErr. intros H n x Hx. destruct x as [a|e]; [by exists a|]. exfalso.
  apply head_None in H.
  assert ((n +:+ ": " +:+ e)%string ∈ @nil string) as Hin; [|by apply elem_of_nil in Hin].
  rewrite <- H. apply list_elem_of_omap. by exists (n, Err e).
Qed.

(** ** One deployment *)

Section Deployment.
Context {S : Type} {agent : Agent S} {view : AgentView S} {laws : AgentLaws S}.
Context (Nodes : list string) (HNodes : NoDup Nodes).
Context (wireHash : Topology -> string)
  (verifyDigests : Topology -> string -> ApplyResponse -> option string).
Context (dp : Deployment) (lease : MutationLease).
Abbreviation Cl := (gmap string S) (only parsing).
Abbreviation lab := (topName (dpTop dp)) (only parsing).
Abbreviation sorted := (sortedNodes Nodes) (only parsing).
Abbreviation all P := (each sorted (fun _ : string => P)) (only parsing).

Lemma sorted_NoDup : NoDup sorted.
Proof. by apply NoDup_sortStrings. Qed.

Lemma phaseRequest_lab mode expected generation phase n :
  requestLab (without_topology (phaseRequest dp lease mode expected generation phase n)) = lab.
Proof. unfold requestLab. simpl. by case_decide. Qed.

(** Every node of a successful fan-out satisfies its postcondition. *)
Lemma fanOut_all {A} (f : string -> SE Cl string A) (Pre : S -> Prop) (Post : S -> A -> Prop) cl cl' rs :
  (forall n, actsOn n (f n) Pre (fun s' r => forall a, r = Ok a -> Post s' a)) ->
  (forall n s, cl !! n = Some s -> n ∈ sorted -> Pre s) ->
  fanOut sorted f cl = (cl', Ok rs) -> (forall n x, (n, x) ∈ rs -> exists a, x = Ok a) ->
  all (fun s => exists a, Post s a) cl'.
Proof.
  intros Hf Hpre H Hok n Hn.
  apply (fanOut_spec sorted f (fun _ => Pre) (fun _ s' r => forall a, r = Ok a -> Post s' a))
    in H as (rs' & [= <-] & Hrs & _ & Hin); [|by apply sorted_NoDup|by intros].
  assert (n ∈ map fst rs) as Hm by by rewrite Hrs.
  apply list_elem_of_fmap in Hm as ([k x] & -> & Hx). simpl in *.
  destruct (Hok k x Hx) as [a ->]. destruct (Hin k (Ok a) Hx) as [H1 H2].
  destruct (cl !! k) as [s|] eqn:Hs; [|by specialize (H2 eq_refl)].
  destruct (H1 s eq_refl) as (s' & Hs' & HP); [by eapply Hpre|]. exists s'. eauto.
Qed.

Lemma fanOut_ok {A} nodes (f : string -> SE Cl string A) cl cl' r :
  fanOut nodes f cl = (cl', r) -> exists rs, r = Ok rs.
Proof.
  revert cl cl' r. induction nodes as [|n nodes IH]; intros cl cl' r; simpl.
  { intros [= <- <-]. eauto. }
  unfold mbind, SE_bind, observe. destruct (f n cl) as [cl1 x].
  destruct (fanOut nodes f cl1) as [cl2 r2] eqn:H2. destruct (IH _ _ _ H2) as [rs ->].
  intros [= <- <-]. eauto.
Qed.

Lemma prepare_opens mode expected generation cl cl' :
  preparePhase Nodes dp lease mode expected generation cl = (cl', Ok tt) ->
  all (openHere lab generation) cl'.
Proof.
  intros H. unfold preparePhase in H. apply bind_ok_inv in H as (cl1 & rs & Hf & H).
  unfold lift in H. destruct (firstErr rs) eqn:He; [done|]. injection H as <-.
  apply (fanOut_all _ (fun _ => True) (fun s _ => openHere lab generation s)) in Hf;
    [|intros n|done|by apply firstErr_none].
  - eapply each_mono; [|exact Hf]. by intros k t [_ Ht].
  - apply actsOn_onNode. intros s s' r _ Hr a ->. by eapply law_prepare in Hr.
Qed.

Lemma apply_keeps mode expected generation g :
  mrel (kept (all (openHere lab g))) (applyPhases Nodes dp lease mode expected generation).
Proof.
  unfold applyPhases. mrel_steps. apply mrel_fanOut; [apply _|]. intros n.
  apply mrel_onNode. by eapply law_apply.
Qed.

Lemma verify_keeps generation g :
  mrel (kept (all (openHere lab g))) (stateRestoreVerify Nodes dp lease generation).
Proof.
  unfold stateRestoreVerify, fenceOf. apply mrel_forEach; [apply _|]. intros n. mrel_steps.
  apply mrel_onNode, law_verify.
Qed.

Lemma mergeCommits_none rs values values' :
  mergeCommits rs values = (values', None) -> forall n x, (n, x) ∈ rs -> exists a, x = Ok a.
Proof.
  revert values. induction rs as [|[k [y|e]] rs IH]; intros values; simpl; [|intros H|done].
  - by intros _ ? ? ?%elem_of_nil.
  - intros n x [[= -> ->]|Hx]%elem_of_cons; eauto.
Qed.

Lemma commit_commits mode expected generation values values' cl cl' :
  all (openHere lab generation) cl ->
  commitPhase Nodes dp lease mode expected generation values cl = (cl', Ok (values', None)) ->
  all (committedHere lab generation) cl'.
Proof.
  intros Hopen H. unfold commitPhase in H. apply bind_ok_inv in H as (cl1 & rs & Hf & H).
  injection H as <- H.
  apply (fanOut_all _ (openHere lab generation) (fun s _ => committedHere lab generation s)) in Hf.
  - eapply each_mono; [|exact Hf]. by intros k t [_ Ht].
  - intros n. set (req := without_topology (phaseRequest dp lease mode expected generation "commit" n)).
    assert (requestLab req = lab) as Hlab by apply phaseRequest_lab.
    intros c c' r Hr. unfold commitNode, mbind, SE_bind in Hr. fold req in Hr.
    destruct (onNode n (agApply req) c) as [c1 r1] eqn:H1.
    apply (actsOn_onNode n (agApply req) (openHere lab generation) (fun s' r =>
      forall a, r = Ok a -> apFailures a = ∅ -> committedHere lab generation s'))
      in H1 as (Hframe & Hpost & Hnone); [|intros s s' x Hs Hx a -> Ha; rewrite <- Hlab in *;
                                           by eapply (law_commit req)].
    assert (c' = c1 /\ (forall a, r = Ok a -> r1 = Ok a /\ apFailures a = ∅) /\
            (is_ok r1 = false -> is_ok r = false)) as (-> & Hok & Herr).
    { destruct r1 as [a|e]; [|by injection Hr as <- <-]. unfold responseFailure in Hr.
      case_bool_decide; injection Hr as <- <-; split_and!; try done; by intros ? [= <-]. }
    split_and!; [done| |intros Hn; destruct (Hnone Hn) as [? ->]; auto].
    intros s Hs Hp. destruct (Hpost s Hs Hp) as (s' & Hs' & HP). exists s'. split; [done|].
    intros a Ha. destruct (Hok a Ha). eauto.
  - intros n s Hs Hn. destruct (Hopen n Hn) as (t & Ht & HP). congruence.
  - by eapply mergeCommits_none.
Qed.

Lemma finalize_keeps (P : string -> S -> Prop) mode expected generation :
  (forall g, P g = committedHere lab g) \/ (forall g, P g = settledHere lab g) ->
  forall g, mrel (kept (all (P g))) (finalizePhase Nodes dp lease mode expected generation).
Proof.
  intros HP g. unfold finalizePhase. mrel_steps. apply mrel_fanOut; [apply _|]. intros n.
  apply mrel_onNode.
  rewrite <- (phaseRequest_lab mode expected generation "finalize" n) in HP.
  destruct HP as [-> | ->]; by apply law_finalize_keeps.
Qed.

Lemma finalize_settles mode expected generation cl cl' :
  all (committedHere lab generation) cl ->
  finalizePhase Nodes dp lease mode expected generation cl = (cl', Ok tt) ->
  all (settledHere lab generation) cl'.
Proof.
  intros Hc H. unfold finalizePhase in H. apply bind_ok_inv in H as (cl1 & rs & Hf & H).
  unfold lift in H. destruct (firstErr rs) eqn:He; [done|]. injection H as <-.
  apply (fanOut_all _ (committedHere lab generation) (fun s _ => settledHere lab generation s)) in Hf;
    [|intros n|intros n s Hs Hn; destruct (Hc n Hn) as (t & Ht & HP); congruence
     |by apply firstErr_none].
  - eapply each_mono; [|exact Hf]. by intros k t [_ Ht].
  - apply actsOn_onNode. intros s s' r Hs Hr a ->.
    rewrite <- (phaseRequest_lab mode expected generation "finalize" n) in *.
    by apply law_finalize in Hr.
Qed.

Lemma status_keeps g : mrel (kept (committedHere lab g)) (agStatus lab) /\
  mrel (kept (settledHere lab g)) (agStatus lab).
Proof.
  split; intros s Hs; unfold final; destruct (agStatus lab s) as [s' r] eqn:H; simpl;
    apply law_status_keeps in H as [Hg Ht].
  - destruct Hs as [Hs1 Hs2]. split; [congruence|]. intros v Hv.
    destruct Ht as [Ht|(w & _ & _ & Ht)]; [|congruence]. apply Hs2. congruence.
  - destruct Hs as [Hs1 Hs2]. split; [|congruence].
    destruct Ht as [Ht|(w & Hw & _ & _)]; congruence.
Qed.
(** *** Recovery leaves a settled cluster alone *)

Section Settled.
Context (g : string).
Abbreviation P := (each sorted (fun _ => settledHere lab g)) (only parsing).

Lemma settled_status n : mrel (kept P) (onNode n (agStatus lab)).
Proof. apply mrel_onNode, status_keeps. Qed.
Lemma settled_observe_from fallback nodes out :
  mrel (kept P) (observeFrom lab fallback nodes out).
Proof.
  revert out. induction nodes as [|n nodes IH]; intros out; simpl; mrel_steps; auto.
  apply mrel_observe, settled_status.
Qed.
Lemma settled_recover n req : rcqLab req = lab -> mrel (kept P) (onNode n (agRecover req)).
Proof. intros <-. apply mrel_onNode, law_recover_settled. Qed.
Lemma settled_finals nodes report : mrel (kept P) (finalStatuses lab nodes report).
Proof.
  revert report. induction nodes as [|n nodes IH]; intros report; simpl; mrel_steps; auto.
  apply mrel_observe, settled_status.
Qed.
Lemma settled_finalize n fence generation :
  mrel (kept P) (onNode n (agApply (finalizeRequest lab fence generation))).
Proof.
  assert (requestLab (finalizeRequest lab fence generation) = lab) as Hlab.
  { unfold requestLab. simpl. by case_decide. }
  destruct (law_finalize_keeps (finalizeRequest lab fence generation) g eq_refl) as [_ Hk].
  rewrite Hlab in Hk. by apply mrel_onNode.
Qed.

Lemma settled_recoverWithLease : mrel (kept P) (recoverWithLease Nodes lab lease).
Proof.
  unfold recoverWithLease, recoverWithLeaseStrategyOptions, recoverNode, resolveSplitCommit,
    finalizeConvergedCommit, observeNodes, fenceOf.
  mrel_steps; try apply settled_observe_from; try apply settled_finals.
  - apply mrel_fanOut; [apply _|]. intros n. mrel_steps. by apply settled_recover.
  - apply mrel_collect; [apply _|]. intros n. mrel_steps. by apply settled_recover.
  - apply mrel_collect; [apply _|]. intros n. mrel_steps. apply settled_finalize.
Qed.
End Settled.

(** *** How the phases end *)

Lemma wp_else {A B} (m : SE Cl string A) (f : string -> applyFailure) (k : A -> SE Cl applyFailure B)
    Q cl :
  (forall cl' a, m cl = (cl', Ok a) -> wp (k a) Q cl') ->
  (forall cl' e, m cl = (cl', Err e) -> Q cl' (Err (f e))) -> wp (orElse m f ≫= k) Q cl.
Proof.
  intros Hok Herr. apply wp_bind. unfold wp, orElse. destruct (m cl) as [cl' [a|e]]; simpl; auto.
  by apply Hok.
Qed.

Definition ended (generation : string) (cl : Cl) (r : result applyFailure (gmap string ApplyResponse))
    : Prop :=
  match r with
  | Ok _ | Err (LeaseLost _ _) => all (settledHere lab generation) cl
  | Err (Unfinished _ _ _) => all (committedHere lab generation) cl
  | Err (NotStarted _) | Err (Recoverable _ _) => True
  end.

(** From the commit on, given that every node has prepared. *)
Lemma kept_run {A} (P : Cl -> Prop) (m : SE Cl string A) cl cl' r :
  mrel (kept P) m -> m cl = (cl', r) -> P cl -> P cl'.
Proof. intros Hm H. specialize (Hm cl). unfold final in Hm. by rewrite H in Hm. Qed.

Lemma verifyCommitted_keeps (P : S -> Prop) generation :
  mrel (kept P) (agStatus lab) ->
  mrel (kept (all P)) (verifyCommittedRecovery Nodes lab generation).
Proof.
  intros HP. unfold verifyCommittedRecovery. mrel_steps.
  apply mrel_collect; [apply _|]. intros n. mrel_steps. by apply mrel_onNode.
Qed.

Lemma phases_end cl :
  exists expected, wp (transactionPhases Nodes wireHash verifyDigests dp lease)
    (ended (generatedGeneration wireHash (dpTop dp) (dpRequest dp) expected)) cl.
Proof.
  destruct (RequireTransactionMode (arMode (dpRequest dp))) as [mode|] eqn:Hmode;
    [|exists ""; unfold transactionPhases; rewrite Hmode; by apply wp_bind].
  destruct (clusterGeneration Nodes lab cl) as [cl1 [expected|e]] eqn:Hgen;
    [exists expected|exists ""]; unfold transactionPhases; rewrite Hmode;
    (apply wp_else; [intros ? ? [= <- <-]|done]); (apply wp_else; rewrite Hgen; try done).
  intros ? ? [= <- <-]. cbn zeta. generalize (generatedGeneration wireHash (dpTop dp) (dpRequest dp) expected).
  intros generation. apply wp_bind, wp_refuse; intros _; [done|].
  apply wp_else; [intros cl2 [] _|done]. apply wp_else; [intros cl3 [] Hprep|done].
  apply prepare_opens in Hprep. apply wp_else; [intros cl4 [values failure] Happ|done].
  apply (kept_run _ _ _ _ _ (apply_keeps _ _ _ _) Happ) in Hprep as H4.
  apply wp_bind, wp_lift. destruct failure; [done|].
  apply wp_bind, wp_lift. destruct (postpullVerify _ _ _ _) ; [done|].
  apply wp_else; [intros cl5 [] Hver|done]. apply (kept_run _ _ _ _ _ (verify_keeps _ _) Hver) in H4.
  apply wp_else; [intros cl6 [values' failure] Hcommit|done].
  apply wp_bind, wp_lift. destruct failure; [done|]. apply commit_commits in Hcommit; [|done].
  apply wp_else; intros cl7 r Hfin; [destruct r|].
  2:{ refine (kept_run _ _ _ _ _ (finalize_keeps (committedHere lab) _ _ _ _ _) Hfin Hcommit). by left. }
  apply finalize_settles in Hfin; [|done].
  apply wp_else; intros cl8 r Hst; apply (kept_run _ _ _ _ _
    (verifyCommitted_keeps _ _ (proj2 (status_keeps _))) Hst) in Hfin.
  - apply wp_bind, wp_lift. destruct (mlErr lease 1); [done|]. by apply wp_ret.
  - eapply each_mono; [|exact Hfin]. intros; by apply settled_committed.
Qed.
(** *** The verdicts *)

Lemma nodeResults_clean nodes (f : string -> NodeResult) :
  nodes <> [] -> (forall n, is_Some (nrErr (f n))) ->
  ~ Forall (fun r => nrErr r = None) (map f nodes).
Proof.
  intros Hne Hf H. destruct nodes as [|n nodes]; [done|].
  inversion H as [|? ? Hn _]; subst. destruct (Hf n). congruence.
Qed.
Lemma precommit_not_committed nodes values cause :
  CommittedResults (transactionFailure nodes values cause) = false.
Proof. destruct nodes; [done|]. unfold CommittedResults, transactionFailure. simpl. done. Qed.

Lemma wp_recoverFailed generation cause (k : string -> list NodeResult) cl cl' results :
  all (settledHere lab generation) cl ->
  (cause ← recoverFailedApply Nodes dp lease cause; mret (k cause)) cl = (cl', Ok results) ->
  all (settledHere lab generation) cl'.
Proof.
  intros Hs H. refine (kept_run _ _ _ _ _ _ H Hs). unfold recoverFailedApply. mrel_steps.
  apply settled_recoverWithLease.
Qed.

Lemma coordinated_verdict cl cl' results :
  coordinatedApplyWithLeaseTimed Nodes wireHash verifyDigests dp lease cl = (cl', Ok results) ->
  exists expected, let g := generatedGeneration wireHash (dpTop dp) (dpRequest dp) expected in
    (sorted <> [] -> Forall (fun r => nrErr r = None) results -> all (settledHere lab g) cl') /\
    (CommittedResults results = true -> all (committedHere lab g) cl').
Proof.
  intros H. destruct (phases_end cl) as [expected Hend]. exists expected. cbn zeta.
  revert Hend. generalize (generatedGeneration wireHash (dpTop dp) (dpRequest dp) expected) as g.
  intros g Hend. unfold wp in Hend. unfold coordinatedApplyWithLeaseTimed in H.
  destruct (transactionPhases _ _ _ _ _ cl) as [cl1 [values|[]]]; simpl in Hend.
  - injection H as <- <-. split; [done|]. unfold CommittedResults. intros Hc. exfalso.
    revert Hc. replace (omap nrErr _) with (@nil clientErr); [done|].
    clear. induction sorted; simpl; auto.
  - injection H as <- <-. split; [intros Hne Hall|by rewrite precommit_not_committed].
    exfalso. revert Hall. by apply nodeResults_clean.
  - apply bind_ok_inv in H as (cl2 & c & _ & H). injection H as <- <-.
    split; [intros Hne Hall|by rewrite precommit_not_committed].
    exfalso. revert Hall. by apply nodeResults_clean.
  - injection H as <- <-. split; [|done]. intros Hne Hall.
    exfalso. revert Hall. by apply nodeResults_clean.
  - apply (wp_recoverFailed g) in H as Hs; [|done]. split.
    + done.
    + intros _. eapply each_mono; [|exact Hs]. intros; by apply settled_committed.
Qed.

Lemma release_keeps (P : S -> Prop) g :
  P = committedHere lab g \/ P = settledHere lab g ->
  mrel (kept (all P)) (Release Nodes lease).
Proof.
  intros HP. unfold Release. generalize (rev sorted) as nodes. intros nodes.
  induction nodes as [|n nodes IH]; simpl; mrel_steps; auto. apply mrel_onNode.
  intros s Hs. pose proof (law_release (mkRelease (mlLab lease) f) lab s) as Hu.
  unfold unchanged in Hu. injection Hu as Ht Hg.
  destruct HP as [-> | ->]; unfold committedHere, settledHere in *; by rewrite Ht, Hg.
Qed.
End Deployment.

Section Verdicts.
Context {S : Type} {agent : Agent S} {view : AgentView S} {laws : AgentLaws S}.

(** A deployment under its own lease: the verdict, the release included. *)
Lemma apply_verdict Nodes wireHash verifyDigests ctl dp events (cl cl' : gmap string S) results :
  NoDup Nodes -> arDryRun (dpRequest dp) = false ->
  coordinatedApply Nodes wireHash verifyDigests ctl dp events cl = (cl', Ok results) ->
  exists expected, let g := generatedGeneration wireHash (dpTop dp) (dpRequest dp) expected in
    (Nodes <> [] -> Forall (fun r => nrErr r = None) results ->
     each Nodes (fun _ => settledHere (topName (dpTop dp)) g) cl') /\
    (CommittedResults results = true ->
     each Nodes (fun _ => committedHere (topName (dpTop dp)) g) cl').
Proof.
  intros Hnd Hdry H. unfold coordinatedApply in H. rewrite Hdry in H. simpl in H.
  assert (forall n, n ∈ Nodes -> n ∈ sortedNodes Nodes) as Hin.
  { intros n. by rewrite elem_of_sortStrings. }
  assert (forall cl2 values cause, exists expected : string, let g := generatedGeneration wireHash
    (dpTop dp) (dpRequest dp) expected in
    (Nodes <> [] -> Forall (fun r => nrErr r = None) (transactionFailure (sortedNodes Nodes) values cause) ->
     each Nodes (fun _ => settledHere (topName (dpTop dp)) g) cl2) /\
    (CommittedResults (transactionFailure (sortedNodes Nodes) values cause) = true ->
     each Nodes (fun _ => committedHere (topName (dpTop dp)) g) cl2)) as Hno.
  { intros cl2 values cause. exists "". split; [|by rewrite precommit_not_committed].
    intros Hne Hall. exfalso. revert Hall. apply nodeResults_clean; [|done].
    intros Hs. destruct Nodes as [|n ?]; [done|].
    assert (n ∈ @nil string) as Hx by (rewrite <- Hs; apply Hin; set_solver).
    by apply elem_of_nil in Hx. }
  destruct (bool_decide (sortedNodes Nodes = [])) eqn:Hempty.
  { apply bool_decide_eq_true in Hempty. exists "". split.
    - intros _ _ n Hn%Hin. rewrite Hempty in Hn. by apply elem_of_nil in Hn.
    - intros _ n Hn%Hin. rewrite Hempty in Hn. by apply elem_of_nil in Hn. }
  apply bool_decide_eq_false in Hempty.
  apply bind_ok_inv in H as (cl1 & [rep problems] & _ & H).
  destruct (decide (problems <> [])); [injection H as <- <-; apply Hno|].
  apply bind_ok_inv in H as (cl2 & acquired & _ & H).
  destruct acquired as [[lease|]|]; [|injection H as <- <-; apply Hno..].
  unfold withLease in H. destruct (coordinatedApplyWithLeaseTimed _ _ _ _ _ cl2) as [cl3 r] eqn:H3.
  destruct (Release Nodes lease cl3) as [cl4 rr] eqn:H4. injection H as <- ->.
  apply coordinated_verdict in H3 as (expected & Hok & Hc); [|done]. exists expected.
  split; [intros _ Hall|intros Hall].
  - apply Hok in Hall; [|done]. refine (fun n Hn => kept_run _ _ _ _ _
      (release_keeps _ _ _ _ _ (or_intror eq_refl)) H4 Hall n (Hin n Hn)).
  - apply Hc in Hall. refine (fun n Hn => kept_run _ _ _ _ _
      (release_keeps _ _ _ _ _ (or_introl eq_refl)) H4 Hall n (Hin n Hn)).
Qed.

(** C4. A deployment that reports success left every node settled at one
    generation. Whatever was lost, refused or retried on the way, when a
    coordinated apply that is not a dry run returns no error for any node,
    every node of the cluster has committed the same generation, the one
    derived for this deployment, and holds nothing of the transaction any
    more. *)
Theorem successful_deployment_agrees Nodes wireHash verifyDigests ctl dp events
    (cl cl' : gmap string S) results :
  NoDup Nodes -> Nodes <> [] -> arDryRun (dpRequest dp) = false ->
  coordinatedApply Nodes wireHash verifyDigests ctl dp events cl = (cl', Ok results) ->
  Forall (fun r => nrErr r = None) results ->
  exists expected,
    each Nodes (fun _ => settledHere (topName (dpTop dp))
                           (generatedGeneration wireHash (dpTop dp) (dpRequest dp) expected)) cl'.
Proof.
  intros Hnd Hne Hdry H Hall. apply apply_verdict in H as (expected & H & _); [|done..].
  exists expected. by apply H.
Qed.

(** C27. A failure reported as committed is committed. When [CommittedResults]
    says that all errors of a coordinated apply are post-commit ones, the
    deployment's generation is the committed one on every node of the
    cluster, whichever node failed to finalize, to verify its inventory or to
    keep its lease, and also after the recovery the last case runs. *)
Theorem committed_verdict_is_true Nodes wireHash verifyDigests ctl dp events
    (cl cl' : gmap string S) results :
  NoDup Nodes -> arDryRun (dpRequest dp) = false ->
  coordinatedApply Nodes wireHash verifyDigests ctl dp events cl = (cl', Ok results) ->
  CommittedResults results = true ->
  exists expected,
    each Nodes (fun _ => committedHere (topName (dpTop dp))
                           (generatedGeneration wireHash (dpTop dp) (dpRequest dp) expected)) cl'.
Proof.
  intros Hnd Hdry H Hall. apply apply_verdict in H as (expected & _ & H); [|done..].
  exists expected. by apply H.
Qed.
End Verdicts.

(** ** Split commits *)

(** A node that is verifiably somewhere. *)
Definition settledStatus (st : RecoveryStatus) : Prop :=
  rvPhase st <> "recovering" /\ (rvPhase st = "idle" \/ rvConsistent st = true).
(** A node the generation [t] is the answer for: it holds a committed
    generation that replaced [t], or is settled at [t]. *)
Definition convergesOn (t : string) (st : RecoveryStatus) : Prop :=
  if rvCommittedPending st then rvPreviousGeneration st = t
  else settledStatus st /\ rvGeneration st = t.

Definition moving (st : RecoveryStatus) : bool :=
  bool_decide (rvPhase st = "recovering")
  || (negb (bool_decide (rvPhase st = "idle")) && negb (rvConsistent st)).
Lemma moving_spec st : moving st = false <-> settledStatus st.
Proof.
  unfold moving, settledStatus. destruct (rvConsistent st);
    repeat case_bool_decide; simpl; naive_solver.
Qed.

(** The sets the loop of [detectSplitCommit] builds. *)
Section Fold.
Implicit Types (l : list (string * RecoveryStatus)).
Abbreviation scan l start := (fold_left (fun acc p => splitStep acc p.1 p.2) l start) (only parsing).
Definition isHolding (p : string * RecoveryStatus) : bool := rvCommittedPending p.2.
Definition pendingOf l : list string := map fst (List.filter isHolding l).
Definition previousOf l : gset string :=
  list_to_set (map (fun p => rvPreviousGeneration p.2) (List.filter isHolding l)).
Definition settledOf l : gset string :=
  list_to_set (map (fun p => rvGeneration p.2) (List.filter (fun p => negb (isHolding p)) l)).

Ltac sets_equal :=
  match goal with |- Some (_, ?a, ?b) = Some (_, ?c, ?d) =>
    let H1 := fresh in let H2 := fresh in
    assert (a = c) as H1 by set_solver; assert (b = d) as H2 by set_solver;
    try rewrite H1; try rewrite H2; done
  end.
Lemma scan_none l : scan l None = None.
Proof. by induction l. Qed.
Lemma scan_some l p pr se :
  scan l (Some (p, pr, se)) =
  if forallb (fun x => isHolding x || negb (moving x.2)) l
  then Some (p ++ pendingOf l, previousOf l ∪ pr, settledOf l ∪ se) else None.
Proof.
  revert p pr se. induction l as [|[n st] l IH]; intros p pr se; simpl.
  { unfold pendingOf, previousOf, settledOf. simpl. by rewrite app_nil_r, !(left_id_L ∅ (∪)). }
  unfold pendingOf, previousOf, settledOf in *. cbn [List.filter].
  change (isHolding (n, st)) with (rvCommittedPending st). destruct (rvCommittedPending st); simpl.
  - rewrite IH. case_match; [|done]. rewrite <- app_assoc. sets_equal.
  - fold (moving st). destruct (moving st); simpl; [apply scan_none|].
    rewrite IH. case_match; [|done]. sets_equal.
Qed.

Lemma elem_pending l n : n ∈ pendingOf l <-> exists st, (n, st) ∈ l /\ rvCommittedPending st = true.
Proof.
  unfold pendingOf. rewrite list_elem_of_In, in_map_iff. setoid_rewrite filter_In.
  setoid_rewrite <- list_elem_of_In. split.
  - intros ([k st] & <- & H). by exists st.
  - intros (st & H). by exists (n, st).
Qed.
Lemma elem_previous l x :
  x ∈ previousOf l <-> exists p, p ∈ l /\ rvCommittedPending p.2 = true /\ rvPreviousGeneration p.2 = x.
Proof.
  unfold previousOf. rewrite elem_of_list_to_set, list_elem_of_In, in_map_iff.
  setoid_rewrite filter_In. setoid_rewrite <- list_elem_of_In. naive_solver.
Qed.
Lemma elem_settled l x :
  x ∈ settledOf l <-> exists p, p ∈ l /\ rvCommittedPending p.2 = false /\ rvGeneration p.2 = x.
Proof.
  unfold settledOf. rewrite elem_of_list_to_set, list_elem_of_In, in_map_iff.
  setoid_rewrite filter_In. setoid_rewrite <- list_elem_of_In. unfold isHolding.
  setoid_rewrite negb_true_iff. naive_solver.
Qed.

(** All nodes converge on [t], seen through the sets. *)
Lemma converges_sets l t :
  (forall p, p ∈ l -> convergesOn t p.2) <->
  forallb (fun x => isHolding x || negb (moving x.2)) l = true /\
  (forall x, x ∈ previousOf l -> x = t) /\ (forall x, x ∈ settledOf l -> x = t).
Proof.
  setoid_rewrite elem_previous. setoid_rewrite elem_settled.
  rewrite forallb_forall. setoid_rewrite <- list_elem_of_In. unfold isHolding, convergesOn.
  split.
  - intros H. split_and!.
    + intros p Hp. specialize (H p Hp). destruct (rvCommittedPending p.2); [done|].
      simpl. destruct H as [H _]. by apply moving_spec in H as ->.
    + intros x (p & Hp & Hc & <-). specialize (H p Hp). by rewrite Hc in H.
    + intros x (p & Hp & Hc & <-). specialize (H p Hp). rewrite Hc in H. by destruct H.
  - intros (Hok & Hpr & Hse) p Hp. specialize (Hok p Hp).
    destruct (rvCommittedPending p.2) eqn:Hc; [eauto|]. simpl in Hok.
    split; [apply moving_spec; by apply negb_true_iff|eauto].
Qed.
End Fold.

Lemma set_is_singleton (X : gset string) t :
  t ∈ X -> (forall x, x ∈ X -> x = t) -> X = {[t]}.
Proof. set_solver. Qed.
Lemma two_elements {A} (l : list A) a b : a ∈ l -> b ∈ l -> a <> b -> Nat.ltb (length l) 2 = false.
Proof.
  intros Ha Hb Hne. apply Nat.ltb_ge. destruct l as [|x [|y l]]; simpl; [set_solver|set_solver|lia].
Qed.

Lemma detectSplit_spec report t rollback :
  detectSplitCommit report = Some (mkSplit t rollback) <->
  t <> "" /\ rollback <> [] /\
  rollback = sortStrings (pendingOf (map_to_list (rpNodes report))) /\
  (exists n st, rpNodes report !! n = Some st /\ rvCommittedPending st = false) /\
  map_Forall (fun _ => convergesOn t) (rpNodes report).
Proof.
  unfold detectSplitCommit. set (l := map_to_list (rpNodes report)).
  assert (forall n st, rpNodes report !! n = Some st <-> (n, st) ∈ l) as Hl.
  { intros n st. symmetry. apply elem_of_map_to_list. }
  assert (map_Forall (fun _ => convergesOn t) (rpNodes report) <->
          forall p, p ∈ l -> convergesOn t p.2) as ->.
  { unfold map_Forall. setoid_rewrite Hl. split; [intros H [n st]; apply H|intros H n st; apply (H (n, st))]. }
  assert (size (rpNodes report) = length l) as ->.
  { symmetry. apply length_map_to_list. }
  rewrite scan_some. simpl. rewrite !(right_id_L ∅ (∪)), converges_sets. setoid_rewrite Hl. clear Hl.
  clearbody l. split.
  - destruct (Nat.ltb (length l) 2); [done|]. case_match eqn:Hok; [|done]. simpl.
    case_bool_decide as Hp; [done|].
    destruct (elements (settledOf l)) as [|target [|]] eqn:He; [done| |done].
    assert (forall x, x ∈ settledOf l <-> x = target) as Hse.
    { intros x. rewrite <- elem_of_elements, He. set_solver. }
    destruct (Nat.eqb_spec (size (previousOf l)) 1) as [Hsz|]; [|done]. simpl.
    case_bool_decide as Ht; [done|]. case_bool_decide as Hpr; [|done]. intros [= <- <-].
    apply size_1_elem_of in Hsz as [y Hy]. split_and!; try done.
    + intros Hs. apply Hp. apply Permutation_nil. rewrite <- Hs. unfold sortStrings.
      by rewrite merge_sort_Permutation.
    + destruct (proj1 (elem_settled l target) (proj2 (Hse target) eq_refl)) as ([n st] & H1 & H2 & _).
      by exists n, st.
    + intros x Hx. rewrite Hy in Hpr, Hx. apply elem_of_singleton in Hpr, Hx. congruence.
    + intros x Hx. by apply Hse.
  - intros (Ht & Hne & -> & (n & st & Hst & Hc) & Hok & Hpr & Hse).
    assert (pendingOf l <> []) as Hp.
    { intros Hp. by rewrite Hp in Hne. }
    destruct (pendingOf l) as [|k ks] eqn:Hk; [done|].
    destruct (proj1 (elem_pending l k)) as (sk & Hsk & Hck); [rewrite Hk; set_solver|].
    rewrite (two_elements l (n, st) (k, sk)), Hok by (try done; congruence). simpl.
    assert (settledOf l = {[t]}) as ->.
    { apply set_is_singleton; [|done]. assert (rvGeneration st ∈ settledOf l) as Hi.
      { apply elem_settled. by exists (n, st). } by rewrite <- (Hse _ Hi). }
    assert (previousOf l = {[t]}) as ->.
    { apply set_is_singleton; [|done]. assert (rvPreviousGeneration sk ∈ previousOf l) as Hi.
      { apply elem_previous. by exists (k, sk). } by rewrite <- (Hpr _ Hi). }
    rewrite elements_singleton, size_singleton. simpl.
    rewrite !bool_decide_false, bool_decide_true by set_solver. done.
Qed.

Lemma split_commit_sound report t rollback :
  detectSplitCommit report = Some (mkSplit t rollback) ->
  NoDup rollback /\
  (forall n, n ∈ rollback <-> exists st, rpNodes report !! n = Some st /\ rvCommittedPending st = true) /\
  map_Forall (fun _ => convergesOn t) (rpNodes report).
Proof.
  intros (_ & _ & -> & _ & Hall)%detectSplit_spec. split_and!; [|intros n|done].
  - apply NoDup_sortStrings. unfold pendingOf.
    pose proof (NoDup_fst_map_to_list (rpNodes report)) as Hnd.
    generalize dependent (map_to_list (rpNodes report)). intros l Hl.
    induction l as [|[n st] l IH]; simpl in *; [constructor|].
    apply NoDup_cons in Hl as [Hn Hl]. destruct (isHolding _); simpl; [|auto].
    apply NoDup_cons. split; [|auto]. intros (x & Hx & Hin)%list_elem_of_In%in_map_iff.
    apply filter_In in Hin as [Hin _]. apply Hn, list_elem_of_In, in_map_iff. eauto.
  - rewrite elem_of_sortStrings, elem_pending. by setoid_rewrite elem_of_map_to_list.
Qed.

(** A split commit is recognised exactly. [detectSplitCommit] decides on a
    target precisely when some node still holds a committed transaction,
    some node does not, and the target is a generation that every holding
    node replaced and every other node is settled at (not recovering, and
    idle or verified); it then names the holding nodes, in order. In every
    other situation (an unfinished node, two settled generations, a node
    that came from elsewhere, a target without a name) it decides nothing. *)
Theorem split_commit_recognised report t rollback :
  detectSplitCommit report = Some (mkSplit t rollback) <->
  t <> "" /\ rollback <> [] /\
  rollback = sortStrings (pendingOf (map_to_list (rpNodes report))) /\
  (exists n st, rpNodes report !! n = Some st /\ rvCommittedPending st = false) /\
  map_Forall (fun _ => convergesOn t) (rpNodes report).
Proof. apply detectSplit_spec. Qed.

(** ** Recovery *)

Section Recovered.
Context {S : Type} {agent : Agent S} {view : AgentView S} {laws : AgentLaws S}.
Abbreviation Cl := (gmap string S) (only parsing).

(** What the last pass of a recovery accepts of a node. *)
Definition acceptable (g : string) (st : RecoveryStatus) : Prop :=
  (rvPhase st = "idle" \/ rvConsistent st = true) /\ rvCommittedPending st = false /\
  (rvGeneration st = "" \/ rvGeneration st = g).

Lemma finalStatus_ok n st report report' :
  finalStatus n st report = (report', []) ->
  rpNodes report' = <[n := st]> (rpNodes report) /\ acceptable (rpGeneration report') st /\
  (rpGeneration report = "" \/ rpGeneration report' = rpGeneration report).
Proof.
  unfold finalStatus, acceptable.
  destruct (rvConsistent st), (rvCommittedPending st); repeat case_bool_decide; simpl;
    intros [= <-]; simpl; naive_solver.
Qed.

Lemma finals_ok lab nodes report report' (cl cl' : Cl) :
  NoDup nodes -> finalStatuses lab nodes report cl = (cl', Ok (report', [])) ->
  (rpGeneration report = "" \/ rpGeneration report' = rpGeneration report) /\
  (forall m, m ∉ nodes -> cl' !! m = cl !! m /\ rpNodes report' !! m = rpNodes report !! m) /\
  forall n, n ∈ nodes -> exists s s' st, agStatus lab s = (s', Ok st) /\ cl' !! n = Some s' /\
    rpNodes report' !! n = Some st /\ acceptable (rpGeneration report') st.
Proof.
  intros Hnd. revert report cl. induction nodes as [|n nodes IH]; intros report cl H; simpl in H.
  { injection H as <- <-. split_and!; [by right|done|]. by intros n Hn%elem_of_nil. }
  apply NoDup_cons in Hnd as [Hn Hnd]. apply bind_ok_inv in H as (cl1 & r & H1 & H).
  unfold observe, onNode in H1. destruct (cl !! n) as [s|] eqn:Hs.
  2:{ injection H1 as <- <-. apply bind_ok_inv in H as (? & [] & _ & H). done. }
  destruct (agStatus lab s) as [s' r'] eqn:Hst. injection H1 as <- <-.
  destruct r' as [st|e]; [|by apply bind_ok_inv in H as (? & [] & _ & H)].
  destruct (finalStatus n st report) as [report1 here] eqn:Hf.
  apply bind_ok_inv in H as (cl2 & [report2 more] & H2 & H). injection H as <- -> Happ.
  apply app_eq_nil in Happ as [-> ->]. apply finalStatus_ok in Hf as (Hnodes & Hacc & Hgen).
  apply IH in H2 as (Hg2 & Hout & Hin); [|done]. split_and!.
  - destruct Hgen as [?| <-]; auto.
  - intros m Hm. apply not_elem_of_cons in Hm as [Hm1 Hm2]. destruct (Hout m Hm2) as [-> ->].
    rewrite Hnodes, !lookup_insert_ne by done. done.
  - intros k [->|Hk]%elem_of_cons; [|by apply Hin]. exists s, s', st.
    destruct (Hout n Hn) as [-> ->]. rewrite Hnodes, !lookup_insert_eq. split_and!; try done.
    destruct Hacc as (Ha & Hb & Hc). split_and!; [done..|]. destruct Hc as [?|Hc]; [by left|].
    destruct Hg2 as [Hg2|Hg2]; [left|right]; congruence.
Qed.

(** C5. A recovery that reports success left the cluster in agreement on one
    generation, the one the report names. When
    [recoverWithLeaseStrategyOptions] returns no problem, every node answered
    the last pass; a node that has no transaction left, has a record of the lab
    and a committed generation, is at that generation; and a transaction that a
    node still has is one whose status counts as consistent (its phase is the
    committed one) although it is not marked committed, and it is a transaction
    of that generation. The last kind of node is tolerated by the code, and
    nothing is claimed about its committed generation; no node is left with a
    committed transaction that waits to be finalized. *)
Theorem successful_recovery_agrees Nodes lab lease strategy options (cl cl' : Cl) report :
  NoDup Nodes ->
  recoverWithLeaseStrategyOptions Nodes lab lease strategy options cl = (cl', Ok (report, [])) ->
  forall n, n ∈ Nodes -> exists s st, cl' !! n = Some s /\ rpNodes report !! n = Some st /\
    match agTx lab s with
    | Some v => tvCommitted v = false /\ tvSettling v = true /\
                (tvGeneration v <> "" -> tvGeneration v = rpGeneration report)
    | None => rvPhase st <> "idle" -> agGen lab s <> "" -> agGen lab s = rpGeneration report
    end.
Proof.
  intros Hnd H n Hn. unfold recoverWithLeaseStrategyOptions in H.
  apply bind_ok_inv in H as (cl1 & results & _ & H). cbn zeta in H.
  apply bind_ok_inv in H as (cl2 & split & _ & H). apply bind_ok_inv in H as (cl3 & finalized & _ & H).
  apply bind_ok_inv in H as (cl4 & [report4 last] & H4 & H). injection H as <- <- Happ.
  apply app_eq_nil in Happ as [_ Happ]. apply app_eq_nil in Happ as [_ Happ].
  apply app_eq_nil in Happ as [-> _].
  apply finals_ok in H4 as (_ & _ & Hin); [|by apply sorted_NoDup].
  destruct (Hin n) as (s & s' & st & Hst & Hs' & Hrep & Hphase & Hpend & Hgen);
    [by apply elem_of_sortStrings|].
  exists s', st. pose proof (law_status_tells _ _ _ _ Hst) as Htells.
  apply law_status_keeps in Hst as [Hg Ht]. unfold tells in Htells.
  destruct (agTx lab s) as [v|] eqn:Hv.
  - destruct Htells as (He & _ & Hc & Hidle & Hcons). rewrite Hpend in Hc.
    destruct Ht as [Ht|(w & [= <-] & Hw & _)]; [|congruence]. rewrite Ht. split_and!; try done.
    + apply Hcons. by destruct Hphase.
    + intros Hne. rewrite <- He in Hne |- *. by destruct Hgen.
  - destruct Ht as [Ht|(w & [=] & _)]. rewrite Ht. split_and!; try done.
    intros Hidle Hne. rewrite Hg in *. destruct Htells as [_ [[? _]|[_ He]]]; [done|].
    rewrite He in Hgen by done. by destruct Hgen.
Qed.
End Recovered.

Section Resolution.
Context {S : Type} {agent : Agent S} {view : AgentView S} {laws : AgentLaws S}.
Abbreviation Cl := (gmap string S) (only parsing).

Lemma collect_spec nodes (f : string -> SE Cl string unit) Pre Post (cl cl' : Cl) :
  NoDup nodes -> (forall n, n ∈ nodes -> actsOn n (f n) (Pre n) (Post n)) ->
  collectProblems nodes f cl = (cl', Ok []) ->
  (forall m, m ∉ nodes -> cl' !! m = cl !! m) /\
  forall n s, n ∈ nodes -> cl !! n = Some s -> Pre n s ->
    exists s', cl' !! n = Some s' /\ Post n s' (Ok tt).
Proof.
  intros Hnd Hf. revert cl. induction nodes as [|n nodes IH]; intros cl H; simpl in H.
  { injection H as <-. split; [done|]. by intros n s Hn%elem_of_nil. }
  apply NoDup_cons in Hnd as [Hn Hnd]. unfold mbind, SE_bind, observe in H.
  destruct (f n cl) as [cl1 r] eqn:Hr. apply Hf in Hr as (Hframe & Hpost & _); [|set_solver].
  destruct (collectProblems nodes f cl1) as [cl2 [more|e]] eqn:H2; [|done].
  destruct r as [[]|e]; [|done]. injection H as <- ->.
  apply IH in H2 as [Hout Hin]; [|done|intros; apply Hf; set_solver]. split.
  - intros m [Hm1 Hm2]%not_elem_of_cons. rewrite Hout by done. by apply Hframe.
  - intros k s [->|Hk]%elem_of_cons Hs Hp; [rewrite Hout by done; eauto|].
    apply (Hin k s); [done| |done]. rewrite Hframe; [done|]. by intros ->.
Qed.

Lemma actsOn_then {A} n (m : SE S string A) (Pre : S -> Prop) (Post : S -> Prop) :
  (forall s s' a, Pre s -> m s = (s', Ok a) -> Post s') ->
  actsOn n (_ ← onNode n m; mret tt) Pre (fun s' r => r = Ok tt -> Post s').
Proof.
  intros Hm cl cl' r H. unfold mbind, SE_bind in H.
  destruct (onNode n m cl) as [cl1 r1] eqn:H1.
  apply (actsOn_onNode n m Pre (fun s' r => forall a, r = Ok a -> Post s')) in H1
    as (Hframe & Hpost & Hnone); [|intros s s' x Hs Hx a ->; by eapply Hm].
  destruct r1 as [a|e]; injection H as <- <-; split_and!; try done.
  - intros s Hs Hp. destruct (Hpost s Hs Hp) as (s' & Hs' & HP). eauto.
  - intros s Hs Hp. destruct (Hpost s Hs Hp) as (s' & Hs' & HP). exists s'. split; [done|]. done.
Qed.
Lemma resolve_acts (Nodes : list string) lab lease options target n :
  actsOn n (refuse (negb (bool_decide (n ∈ Nodes))) "is not in this cluster";;
             fence ← fenceOf lease n;
             _ ← onNode n (agRecover (mkRecoveryRequest lab fence "rollback" (roTakeover options)
                                        false true));
             mret tt)
    (fun s => exists v, agTx lab s = Some v /\ tvPrevious v = target)
    (fun s' r => r = Ok tt -> settledHere lab target s').
Proof.
  unfold fenceOf. destruct (negb _); [|destruct (mlFences lease !! n) as [fence|]].
  - intros cl cl' r [= <- <-]. split_and!; try done. intros s Hs Hp. by exists s.
  - apply actsOn_then. intros s s' st (v & Hv & <-) H. by eapply law_rollback in H.
  - intros cl cl' r [= <- <-]. split_and!; try done. intros s Hs Hp. by exists s.
Qed.

(** C26. Resolving a split commit converges the cluster. When the report the
    decision was made on agrees with the nodes' journals and the resolution
    reports no problem, every node that was asked to abandon its generation
    holds no transaction and is back at the target; no other node was
    touched, and each of those had reported the target as its generation. *)
Theorem split_resolution_converges Nodes lab lease options report target rollback (cl cl' : Cl) :
  detectSplitCommit report = Some (mkSplit target rollback) ->
  (forall n st, rpNodes report !! n = Some st -> exists s, cl !! n = Some s /\ tells lab s st) ->
  resolveSplitCommit Nodes lab lease (mkSplit target rollback) options cl = (cl', Ok []) ->
  (forall n, n ∈ rollback -> exists s', cl' !! n = Some s' /\ settledHere lab target s') /\
  (forall n, n ∉ rollback -> cl' !! n = cl !! n) /\
  (forall n st, n ∉ rollback -> rpNodes report !! n = Some st -> rvGeneration st = target).
Proof.
  intros Hd Htells H. apply split_commit_sound in Hd as (Hnd & Hroll & Hall).
  unfold resolveSplitCommit in H. simpl in H.
  apply (collect_spec _ _ (fun _ s => exists v, agTx lab s = Some v /\ tvPrevious v = target)
           (fun _ s' r => r = Ok tt -> settledHere lab target s')) in H as [Hout Hin];
    [|done|intros n _; apply resolve_acts].
  split_and!; [|done|].
  - intros n Hn. apply Hroll in Hn as Hst. destruct Hst as (st & Hst & Hc).
    destruct (Htells n st Hst) as (s & Hs & Ht). pose proof (Hall n st Hst) as Hconv.
    unfold convergesOn in Hconv. rewrite Hc in Hconv. unfold tells in Ht.
    destruct (agTx lab s) as [v|] eqn:Hv; [|by destruct Ht; congruence].
    destruct (Hin n s Hn Hs) as (s' & Hs' & HP); [|by eauto].
    exists v. split; [done|]. destruct Ht as (_ & <- & _). done.
  - intros n st Hn Hst. specialize (Hall n st Hst). unfold convergesOn in Hall.
    destruct (rvCommittedPending st) eqn:Hc; [|by destruct Hall].
    exfalso. apply Hn, Hroll. by exists st.
Qed.
End Resolution.

(** ** A commit nobody finalized *)

(** What an agent does with a committed transaction of another fence:
    [agHeld lab f s] says the node holds one, prepared under fence
    generation [f], with an inventory in the current schema. *)
Class StrandedLaws (S : Type) {agent : Agent S} := {
  agHeld : string -> Z -> S -> Prop;
  law_held_status lab f s s' r : agHeld lab f s -> agStatus lab s = (s', r) ->
    agHeld lab f s' /\ forall st, r = Ok st -> rvCommittedPending st = true;
  law_held_recover req f s s' r : rcqRollbackCommitted req = false -> agHeld (rcqLab req) f s ->
    agRecover req s = (s', r) ->
    agHeld (rcqLab req) f s' /\ forall st, r = Ok st -> rvCommittedPending st = true;
  law_held_finalize req f s s' r : arPhase req = "finalize" -> fGeneration (arFence req) <> f ->
    agHeld (requestLab req) f s -> agApply req s = (s', r) ->
    agHeld (requestLab req) f s' /\ is_ok r = false
}.

Section Stranded.
Context {S : Type} {agent : Agent S} {laws : StrandedLaws S}.
Context (Nodes : list string) (HNodes : NoDup Nodes) (lab : string) (lease : MutationLease).
Abbreviation Cl := (gmap string S) (only parsing).
Abbreviation sorted := (sortedNodes Nodes) (only parsing).

(** The lease at hand is not the one the transaction was prepared under. *)
Definition heldBefore (n : string) (s : S) : Prop :=
  exists f, agHeld lab f s /\ forall fence, mlFences lease !! n = Some fence -> fGeneration fence <> f.
Definition allPending (nodes : gmap string RecoveryStatus) : Prop :=
  map_Forall (fun _ st => rvCommittedPending st = true) nodes.

Lemma held_status_run n s s' r : heldBefore n s -> agStatus lab s = (s', r) ->
  heldBefore n s' /\ forall st, r = Ok st -> rvCommittedPending st = true.
Proof.
  intros (f & Hf & Hne) H. destruct (law_held_status _ _ _ _ _ Hf H) as [Hf' Hst].
  split; [by exists f|done].
Qed.
Lemma held_status n : mrel (kept (each sorted heldBefore)) (onNode n (agStatus lab)).
Proof.
  apply mrel_onNode. intros s Hs. unfold final. destruct (agStatus lab s) eqn:H. simpl.
  by eapply held_status_run.
Qed.

Lemma onNode_status n (cl cl' : Cl) st :
  each sorted heldBefore cl -> n ∈ sorted -> onNode n (agStatus lab) cl = (cl', Ok st) ->
  rvCommittedPending st = true.
Proof.
  intros Hcl Hn H. unfold onNode in H. destruct (Hcl n Hn) as (s & Hs & HP). rewrite Hs in H.
  destruct (agStatus lab s) as [s' r] eqn:Hst. injection H as <- ->.
  apply (held_status_run n) in Hst as [_ Hst]; [by apply Hst|done].
Qed.

Lemma observe_all_pending fallback nodes out (cl cl' : Cl) r :
  (forall n, n ∈ nodes -> n ∈ sorted) -> each sorted heldBefore cl ->
  allPending (rpNodes fallback) -> allPending out ->
  observeFrom lab fallback nodes out cl = (cl', r) ->
  each sorted heldBefore cl' /\ forall rep, r = Ok rep -> allPending (rpNodes rep).
Proof.
  intros Hsub Hcl Hfb. revert out cl Hcl. induction nodes as [|n nodes IH]; intros out cl Hcl Hout H.
  { injection H as <- <-. split; [done|]. by intros rep [= <-]. }
  simpl in H. unfold mbind, SE_bind, observe in H.
  destruct (onNode n (agStatus lab) cl) as [cl1 x] eqn:Hx.
  pose proof (kept_run _ _ _ _ _ (held_status n) Hx Hcl) as Hcl1.
  assert (forall k, k ∈ nodes -> k ∈ sorted) as Hsub' by (intros; apply Hsub; set_solver).
  destruct x as [st|e].
  - refine (IH Hsub' (<[n := st]> out) cl1 Hcl1 _ H). apply map_Forall_insert_2; [|done].
    refine (onNode_status n cl cl1 st Hcl _ Hx). apply Hsub. set_solver.
  - destruct (rpNodes fallback !! n) as [known|] eqn:Hk.
    + refine (IH Hsub' (<[n := known]> out) cl1 Hcl1 _ H). apply map_Forall_insert_2; [|done].
      by apply (Hfb n).
    + injection H as <- <-. split; [done|]. intros rep [= <-]. apply map_Forall_empty.
Qed.

Lemma all_pending_no_split report : allPending (rpNodes report) -> detectSplitCommit report = None.
Proof.
  intros Hall. destruct (detectSplitCommit report) as [[t l]|] eqn:H; [|done].
  apply detectSplit_spec in H as (_ & _ & _ & (n & st & Hst & Hc) & _).
  specialize (Hall n st Hst). simpl in Hall. congruence.
Qed.

Lemma recoverNode_acts strategy options n :
  actsOn n (recoverNode lab strategy lease options n) (heldBefore n)
    (fun s' r => heldBefore n s' /\ forall st, r = Ok st -> rvCommittedPending st = true).
Proof.
  unfold recoverNode, fenceOf. destruct (mlFences lease !! n) as [fence|] eqn:Hf.
  - apply actsOn_onNode. intros s s' r (f & Hh & Hne) H.
    eapply (law_held_recover _ f) in H as [Hh' Hst]; [|done..]. split; [by exists f|done].
  - intros cl cl' r [= <- <-]. split_and!; try done. intros s Hs Hp. by exists s.
Qed.

Lemma recover_all_pending strategy options (cl cl' : Cl) results :
  each sorted heldBefore cl ->
  fanOut sorted (recoverNode lab strategy lease options) cl = (cl', Ok results) ->
  each sorted heldBefore cl' /\
  allPending (list_to_map (omap (fun p => match p.2 with
                                          | Ok st => Some (p.1, st)
                                          | Err _ => None
                                          end) results)).
Proof.
  intros Hcl H.
  apply (fanOut_spec sorted _ heldBefore (fun n s' r => heldBefore n s' /\
    forall st, r = Ok st -> rvCommittedPending st = true)) in H as (rs & [= <-] & Hrs & _ & Hin);
    [|by apply sorted_NoDup|intros n _; apply recoverNode_acts].
  assert (forall n x, (n, x) ∈ results -> exists s', cl' !! n = Some s' /\ heldBefore n s' /\
    forall st, x = Ok st -> rvCommittedPending st = true) as Hrun.
  { intros n x Hx. destruct (Hin n x Hx) as [H1 _]. destruct (Hcl n) as (s & Hs & HP).
    { rewrite <- Hrs. apply (list_elem_of_fmap_2 fst _ (n, x) Hx). }
    by apply (H1 s). }
  split.
  - intros n Hn. rewrite <- Hrs in Hn. apply list_elem_of_fmap in Hn as ([k x] & -> & Hx).
    destruct (Hrun k x Hx) as (s' & Hs' & HP & _). eauto.
  - intros n st Hst. apply elem_of_list_to_map_2 in Hst.
    apply list_elem_of_omap in Hst as ([k [y|e]] & Hx & [= -> ->]).
    destruct (Hrun n (Ok st) Hx) as (_ & _ & _ & Hp). by apply Hp.
Qed.

Lemma held_finalize report : mrel (kept (each sorted heldBefore)) (finalizeConvergedCommit Nodes lab lease report).
Proof.
  unfold finalizeConvergedCommit, fenceOf. mrel_steps. apply mrel_collect; [apply _|]. intros n.
  destruct (mlFences lease !! n) as [fence|] eqn:Hf;
    [mrel_steps|apply mrel_bind; [apply _|by mrel_steps|by intros _ c Hc]].
  apply mrel_onNode. intros t (h & Hh & Hne). unfold final.
  match goal with |- context [agApply ?q t] => set (req := q) end.
  destruct (agApply req t) as [t' r] eqn:H. exists h. split; [|done]. simpl.
  assert (requestLab req = lab) as Hlab by (unfold requestLab; simpl; by case_decide).
  eapply (law_held_finalize _ h) in H as [Hh' _];
    [by rewrite Hlab in Hh'|done|by eapply Hne|by rewrite Hlab].
Qed.

Lemma finals_refuse nodes report (cl cl' : Cl) report' problems :
  (forall n, n ∈ nodes -> n ∈ sorted) -> each sorted heldBefore cl ->
  finalStatuses lab nodes report cl = (cl', Ok (report', problems)) ->
  each sorted heldBefore cl' /\ (nodes <> [] -> problems <> []).
Proof.
  intros Hsub. revert report cl problems.
  induction nodes as [|n nodes IH]; intros report cl problems Hcl H; simpl in H.
  { by injection H as <- <- <-. }
  unfold mbind, SE_bind, observe in H.
  destruct (onNode n (agStatus lab) cl) as [cl1 x] eqn:Hx.
  pose proof (kept_run _ _ _ _ _ (held_status n) Hx Hcl) as Hcl1.
  assert (forall rep here, match x with
            | Ok st => finalStatus n st report
            | Err e => (report, [n +:+ " recovery status: " +:+ e])
            end = (rep, here) -> here <> []) as Hhere.
  { intros rep here Hr. destruct x as [st|e]; [|by injection Hr as <- <-].
    apply onNode_status in Hx; [|done|apply Hsub; set_solver]. unfold finalStatus in Hr.
    rewrite Hx in Hr. destruct (negb _ && negb _); by injection Hr as <- <-. }
  destruct (match x with Ok _ => _ | Err _ => _ end) as [rep here] eqn:Hr.
  destruct (finalStatuses lab nodes rep cl1) as [cl2 [[rep2 more]|e]] eqn:H2; [|done].
  injection H as <- <- <-. apply IH in H2 as [Hcl2 _]; [|intros; apply Hsub; set_solver|done].
  split; [done|]. intros _ Happ. apply app_eq_nil in Happ as [-> _]. by eapply Hhere.
Qed.

(** A cluster whose controller stopped between commit and finalize cannot
    be recovered. If every node holds the generation committed but not
    finalized, under a fence older than the recovery's own, then a recovery
    of either strategy and with any options reports a problem and leaves
    every node exactly that far: it never finalizes, because an agent
    finalizes only for the fence that prepared, and never rolls back,
    because the cluster is not split. So does every later recovery, and with
    it every later deployment of the lab. *)
Theorem unfinalized_commit_is_stranded strategy options (cl cl' : Cl) report problems :
  Nodes <> [] -> each Nodes heldBefore cl ->
  recoverWithLeaseStrategyOptions Nodes lab lease strategy options cl =
    (cl', Ok (report, problems)) ->
  problems <> [] /\ each Nodes heldBefore cl'.
Proof.
  intros Hne Hcl H. assert (forall n, n ∈ sorted <-> n ∈ Nodes) as Hin.
  { intros n. apply elem_of_sortStrings. }
  assert (each sorted heldBefore cl) as Hs by (intros n Hn; apply Hcl; by apply Hin).
  unfold recoverWithLeaseStrategyOptions in H.
  apply bind_ok_inv in H as (cl1 & results & H1 & H). cbn zeta in H.
  apply recover_all_pending in H1 as [Hs1 Hpend]; [|done].
  apply bind_ok_inv in H as (cl2 & split & H2 & H).
  assert (each sorted heldBefore cl2) as Hs2.
  { destruct (decide (strategy = "rollback")); [|by injection H2 as <- <-].
    apply bind_ok_inv in H2 as (cl2' & observed & H2' & H2).
    unfold observeNodes in H2'. apply observe_all_pending in H2' as [Hs2 Hobs]; [|done..|apply map_Forall_empty].
    rewrite all_pending_no_split in H2 by by apply Hobs. by injection H2 as <- <-. }
  apply bind_ok_inv in H as (cl3 & finalized & H3 & H).
  assert (each sorted heldBefore cl3) as Hs3.
  { refine (kept_run _ _ _ _ _ _ H3 Hs2). case_decide; [|by mrel_steps].
    apply mrel_bind; [apply _| |intros; apply held_finalize].
    intros c Hc. unfold final, observeNodes. destruct (observeFrom _ _ _ _ c) eqn:Ho.
    by apply observe_all_pending in Ho as [Ho _]; [|done..|apply map_Forall_empty]. }
  apply bind_ok_inv in H as (cl4 & [report4 last] & H4 & H). injection H as <- <- <-.
  apply finals_refuse in H4 as [Hs4 Hlast]; [|done..]. split.
  - intros Happ. apply app_eq_nil in Happ as [_ Happ]. apply app_eq_nil in Happ as [_ Happ].
    apply app_eq_nil in Happ as [Happ _]. revert Happ. apply Hlast. intros Hnil.
    destruct Nodes as [|n ?]; [done|]. assert (n ∈ @nil string) as Hx.
    { rewrite <- Hnil. apply Hin. set_solver. } by apply elem_of_nil in Hx.
  - intros n Hn. apply Hs4. by apply Hin.
Qed.
End Stranded.
