(* ===== verification/AgentPromises.v ===== *)
(** * The agent keeps its promises

    The laws of [ClusterSafety.v] hold of the agent of the other files served
    over an unreliable network ([AgentNode.v]): instances of [AgentView],
    [AgentLaws] and [StrandedLaws], and the cluster theorems at a concrete
    cluster of two nodes. *)

From stdpp Require Import base gmap strings list sorting fin_maps.
From Stdlib Require Import ZArith Lia.
From S2P Require Import Prelude Model Coordination Transactions Ephemeral Restart Fencing Claims.
From S2P Require Import TxSafety Inventory Handlers Recovery RecoverySafety HandlerSafety Cluster.
From S2P Require Import AgentNode ClusterSafety.

Open Scope Z_scope.

(** ** What each handler keeps *)

Section Kept.
Context (lab : string) (q : txRequest).
Abbreviation P := (openTx lab q) (only parsing).
Ltac keep :=
  steady_steps; try solve [ eapply kept_same; [apply _|auto with frame]
                          | eapply kept_frame; [apply _|by apply same_frame] ].

Lemma kept_applyPhase clock env req top :
  topName top = lab -> mrel (kept P) (applyPhase clock env req top).
Proof.
  intros <-. unfold applyPhase, applyAdmission, transactionForApply, requireModes,
    recordGenerationTouched, recordGenerationDirtyCapture, recordGenerationSemantic,
    needsRollback, ownTransaction. keep.
Qed.

Lemma kept_handleApplyRun clock env req w top :
  arTopology req = Some w -> wTopology w = Some top -> topName top = lab ->
  mrel (kept P) (handleApplyRun clock env req).
Proof.
  intros Hw Htop Hlab. unfold handleApplyRun, rehydrateWire, refuseIfHeld, checkPreparedGeneration,
    requireOverlayReservations, ownTransaction, dryRun. rewrite Hw. simpl.
  apply mrel_ret_bind. rewrite Htop. apply mrel_ret_bind. keep.
  apply mrel_deferring; [apply _| |keep]. keep. by apply kept_applyPhase.
Qed.

Lemma kept_handleStateVerify env fence generation :
  mrel (kept P) (handleStateVerify env lab fence generation).
Proof.
  unfold handleStateVerify, transactionForStateVerify, ownApplied, ownTransaction. keep.
  - induction (txStateProofs (txReq a0)); simpl; keep.
  - unfold markStateVerified. apply mrel_bind; [apply _|keep|intros _].
    apply mrel_own_applied; [apply _|]. intros s tx Ht _ _. cbn zeta.
    apply (kept_put P lab s tx); [done..|]. keep.
Qed.

(** A release or a status of another lab's lease. *)
Lemma same_releaseMutationLease l req now :
  mrel (unchanged (labView l)) (releaseMutationLease req now).
Proof.
  unfold releaseMutationLease.
  mrel_steps; try solve [auto with frame|apply same_expireAndCheck|by apply same_frame].
Qed.

(** Finalizing changes at most one thing: the transaction goes. *)
Lemma finalize_run clock req s s' r :
  requestLab req = lab -> handleApplyFinalize clock req s = (s', r) ->
  gCommitted (genOf s' lab) = gCommitted (genOf s lab) /\
  (transactions s' !! lab = transactions s !! lab \/ transactions s' !! lab = None) /\
  (is_ok r = true -> transactions s' !! lab = None).
Proof.
  intros <- H. cut (wp (handleApplyFinalize clock req) (fun s' r =>
    gCommitted (genOf s' (requestLab req)) = gCommitted (genOf s (requestLab req)) /\
    (transactions s' !! requestLab req = transactions s !! requestLab req \/
     transactions s' !! requestLab req = None) /\
    (is_ok r = true -> transactions s' !! requestLab req = None)) s).
  { unfold wp. by rewrite H. }
  clear H s' r. unfold handleApplyFinalize, finalizeCommittedGeneration, checkFence, ownTransaction.
  wp_steps; [by split_and!; auto|]. destruct (fenceErrorLocked _ _ _ _); [|by split_and!; auto]. wp_steps.
  destruct (transactions s !! requestLab req) as [tx|] eqn:Ht; [|by wp_steps; split_and!; auto].
  destruct (decide (tGeneration tx = arGeneration req)); [|by wp_steps; split_and!; auto].
  destruct (txFenceGeneration tx =? fGeneration (arFence req)); [|by wp_steps; split_and!; auto].
  wp_steps; [by split_and!; auto|]. apply wp_save_coord. intros s' [[]|x] Hc; wp_steps;
    unfold genOf, generations, transactions; simpl; rewrite ?Hc; simpl;
    rewrite ?lookup_delete_eq, ?lookup_insert_eq; split_and!; auto; done.
Qed.
End Kept.

(** ** The status *)

Definition viewTx (tx : applyTransaction) : txView :=
  mkTxView (tGeneration tx) (tPreviousGen tx) (txCommitted tx)
    (bool_decide (txPhase tx = transactionCommitted)).

(** A status leaves the lab as it found it, but for settling a committed
    transaction. *)
Definition afterStatus (lab : string) (tx : option applyTransaction) (g : string) (s : Server) : Prop :=
  gCommitted (genOf s lab) = g /\
  (transactions s !! lab = tx \/
   exists t, tx = Some t /\ txCommitted t = true /\ transactions s !! lab = None).
#[export] Instance afterStatus_migrates lab tx g : Migrates (afterStatus lab tx g) lab.
Proof.
  split.
  - intros s s' [= Ht Hg Hi]. unfold afterStatus. by rewrite Ht, Hg.
  - intros s s' cur [Hg Ht] _ _ Hg' Hs. split; [congruence|].
    destruct Hs as [->|(t & Hs & Hc & ->)]; [done|].
    destruct Ht as [Ht|(? & ? & ? & Ht)]; [|congruence]. right. exists t. split_and!; congruence.
Qed.

Lemma status_run env lab s s' r :
  transactionInventoryStatus env lab s = (s', r) ->
  afterStatus lab (transactions s !! lab) (gCommitted (genOf s lab)) s'.
Proof.
  intros H. pose proof (kept_status (afterStatus lab (transactions s !! lab)
    (gCommitted (genOf s lab))) lab env s) as Hk.
  unfold final in Hk. rewrite H in Hk. apply Hk. split; [done|by left].
Qed.

Lemma observeStatus_fields snapshot migration want settled st :
  let st' := observeStatus snapshot migration want settled st in
  rvGeneration st' = rvGeneration st /\ rvPreviousGeneration st' = rvPreviousGeneration st /\
  rvCommittedPending st' = rvCommittedPending st /\ rvPhase st' = rvPhase st /\
  (rvConsistent st' = true -> settled = true).
Proof.
  unfold observeStatus. destruct snapshot as [got|]; [|done]. destruct migration; [done|].
  by destruct (inventoryMatches want got).
Qed.

Lemma phaseString_active p : phaseString p <> "idle".
Proof. by destruct p. Qed.

(** What a status says of the state it was asked in. *)
Definition statusTells (lab : string) (s : Server) (st : RecoveryStatus) : Prop :=
  match transactions s !! lab with
  | Some tx => rvGeneration st = tGeneration tx /\ rvPreviousGeneration st = tPreviousGen tx /\
      rvCommittedPending st = txCommitted tx /\ rvPhase st <> "idle" /\
      (rvConsistent st = true -> txPhase tx = transactionCommitted)
  | None => rvCommittedPending st = false /\
      (rvPhase st = "idle" /\ rvGeneration st = "" \/
       rvPhase st = "committed" /\
       (gCommitted (genOf s lab) <> "" -> rvGeneration st = gCommitted (genOf s lab)))
  end.
Lemma status_tells env lab s s' st :
  transactionInventoryStatus env lab s = (s', Ok st) -> statusTells lab s st.
Proof.
  intros H. unfold transactionInventoryStatus in H. erewrite bind_ok in H by reflexivity.
  apply bind_ok_inv in H as (s1 & [committed migration] & _ & H).
  apply bind_ok_inv in H as (s2 & s3 & [= <- <-] & H). injection H as <- <-.
  unfold statusTells. destruct (transactions s !! lab) as [tx|].
  - edestruct observeStatus_fields as (-> & -> & -> & -> & Hc). simpl. split_and!; try done.
    + apply phaseString_active.
    + intros Hx. apply Hc in Hx. by apply bool_decide_eq_true in Hx.
  - destruct committed as [c|]; [|split; [done|by left]].
    edestruct observeStatus_fields as (-> & _ & -> & -> & _). simpl. split; [done|]. right.
    split; [done|]. intros Hne. by rewrite decide_False.
Qed.

(** A status is always answered. *)
Lemma status_answers env lab s s' r :
  transactionInventoryStatus env lab s = (s', r) -> exists st, r = Ok st.
Proof.
  intros H. cut (wp (transactionInventoryStatus env lab) (fun _ r => exists st, r = Ok st) s).
  { unfold wp. by rewrite H. }
  clear H. unfold transactionInventoryStatus. wp_steps.
  destruct (Inventories (coord s) !! lab) as [c|]; [|wp_steps; eauto].
  destruct (_ && _); [|wp_steps; eauto]. wp_steps. unfold wp, observe.
  destruct (migrateLegacyCommittedInventory env lab c s) as [s1 [c'|e]]; simpl; eauto.
Qed.

(** ** Recovery of a settled lab, and of a committed transaction *)

Lemma kept_recovery_settled cfg sidecar env req g :
  mrel (kept (settledAt (rcqLab req) g)) (handleRecovery cfg sidecar env req).
Proof.
  unfold handleRecovery, recoverTransactionStrategyOptions. cbn zeta.
  apply mrel_bind; [apply _|by mrel_steps|intros _].
  apply mrel_bind; [apply _|by mrel_steps|intros _].
  apply mrel_bind; [apply _|eapply kept_same; [apply _|auto with frame]|intros _].
  apply mrel_get_bind. intros s Hs. pose proof Hs as [Hn _]. rewrite Hn. revert Hs.
  set (m := mbind _ _). enough (mrel (kept (settledAt (rcqLab req) g)) m) as Hm by apply Hm.
  subst m. mrel_steps. apply kept_status, _.
Qed.

(** A committed transaction of fence [f], with an inventory in the current
    schema. *)
Definition holds (lab : string) (f : Z) (s : Server) : Prop :=
  exists tx, transactions s !! lab = Some tx /\ txCommitted tx = true /\ txFenceGeneration tx = f /\
    forall c, Inventories (coord s) !! lab = Some c -> overlayInventorySchema <= invSchema c.

Lemma holds_view lab f s s' : labView lab s' = labView lab s -> holds lab f s -> holds lab f s'.
Proof. intros [= Ht Hg Hi]. unfold holds. by rewrite Ht, Hi. Qed.

Lemma holds_status env lab f s s' r :
  holds lab f s -> transactionInventoryStatus env lab s = (s', r) ->
  s' = s /\ exists st, r = Ok st /\ rvCommittedPending st = true.
Proof.
  intros (tx & Ht & Hc & Hf & Hi) H.
  assert (s' = s) as ->.
  { unfold transactionInventoryStatus in H. unfold mbind, SE_bind, get in H.
    destruct (Inventories (coord s) !! lab) as [c|] eqn:Hinv; [|by injection H].
    destruct (Z.ltb_spec (invSchema c) overlayInventorySchema); [|by injection H].
    specialize (Hi c eq_refl). lia. }
  split; [done|]. destruct r as [st|e].
  - exists st. split; [done|]. apply status_tells in H. unfold statusTells in H. rewrite Ht in H.
    destruct H as (_ & _ & -> & _). done.
  - by destruct (status_answers env lab s _ _ H).
Qed.

Lemma holds_markPhase lab f fence generation phase why now :
  mrel (kept (holds lab f)) (markTransactionPhase lab fence generation phase why now).
Proof.
  unfold markTransactionPhase. apply mrel_bind; [apply _| |intros _].
  { intros s Hs. refine (holds_view lab f s _ _ Hs). apply (same_checkFence lab). }
  apply mrel_generation; [apply _|]. intros s tx Ht _ (tx0 & Ht0 & Hc & Hf & Hi).
  rewrite Ht in Ht0. injection Ht0 as <-.
  set (m := mbind _ _). cut (wp m (fun s' _ => holds lab f s') s); [done|]. subst m.
  unfold putTx. wp_steps. apply wp_save_coord. intros s' r Hco.
  eexists. unfold transactions. rewrite Hco. simpl. rewrite lookup_insert_eq. split_and!; done.
Qed.

Lemma holds_recovery cfg sidecar env req f s s' r :
  rcqRollbackCommitted req = false -> holds (rcqLab req) f s ->
  handleRecovery cfg sidecar env req s = (s', r) ->
  holds (rcqLab req) f s' /\ forall st, r = Ok st -> rvCommittedPending st = true.
Proof.
  intros Hroll Hs H. cut (wp (handleRecovery cfg sidecar env req) (fun s' r =>
    holds (rcqLab req) f s' /\ forall st, r = Ok st -> rvCommittedPending st = true) s).
  { unfold wp. by rewrite H. }
  clear H s' r. unfold handleRecovery, recoverTransactionStrategyOptions. cbn zeta. wp_steps; [done|done|].
  destruct (requireMutationFence (rcqLab req) (rcqFence req) (reClock env 0) (reClock env 1) s)
    as [s1 r1] eqn:H1. unfold wp at 1. rewrite H1. simpl.
  apply requireFence_view in H1. apply (holds_view _ f _ _ H1) in Hs. clear H1.
  destruct r1 as [[]|]; [|done]. wp_steps. pose proof Hs as (tx & Ht & Hc & Hf & Hi). rewrite Ht.
  wp_steps. eapply wp_mono; [by apply legacyPrestate_spec|].
  intros s2 r2 (tx2 & Ht2 & _ & Hc2 & Hr2 & Hf2 & _ & Hi2). rewrite Hc in Hc2.
  assert (holds (rcqLab req) f s2) as Hs2.
  { exists tx2. split_and!; [done|done|congruence|]. rewrite Hi2. apply Hi. }
  destruct Hr2 as [->|[e ->]]; [|done]. rewrite Hc2, Hroll. simpl. wp_steps.
  destruct (transactionInventoryStatus (reStatus env) (rcqLab req) s2) as [s3 r3] eqn:H3.
  apply (holds_status _ _ f) in H3 as H4; [|done]. destruct H4 as (-> & st & -> & Hst).
  unfold wp at 1. rewrite H3. simpl. destruct (rvConsistent st).
  - apply wp_ret. split; [done|]. by intros st' [= <-].
  - wp_steps. unfold wp.
    pose proof (holds_markPhase (rcqLab req) f (rcqFence req) (tGeneration tx2)
      transactionRollbackFailed "committed inventory drift" (reClock env 4) s2 Hs2) as Hk.
    unfold final in Hk. split; [exact Hk|done].
Qed.

Lemma holds_finalize clock req f s s' r :
  fGeneration (arFence req) <> f -> holds (requestLab req) f s ->
  handleApplyFinalize clock req s = (s', r) -> holds (requestLab req) f s' /\ is_ok r = false.
Proof.
  intros Hne Hs H. pose proof Hs as (tx & Ht & _ & Hf & _).
  cut (wp (handleApplyFinalize clock req) (fun s' r => s' = s /\ is_ok r = false) s).
  { unfold wp. rewrite H. simpl. by intros [-> ?]. }
  unfold handleApplyFinalize, finalizeCommittedGeneration, checkFence, ownTransaction.
  wp_steps; [done|]. destruct (fenceErrorLocked _ _ _ _); [|done]. wp_steps. rewrite Ht.
  destruct (decide (tGeneration tx = arGeneration req)); [|done].
  destruct (Z.eqb_spec (txFenceGeneration tx) (fGeneration (arFence req))); [congruence|done].
Qed.

(** ** The node *)

Lemma serve_run {A} (h : RequestEnv -> M A) n n' r :
  serve h n = (n', r) ->
  (nsServer n' = nsServer n /\ is_ok r = false) \/
  (exists env x, h env (nsServer n) = (nsServer n', x) /\ forall a, r = Ok a -> x = Ok a).
Proof.
  unfold serve. destruct (rqeDelivered _); [|intros [= <- <-]; by left].
  destruct (h _ (nsServer n)) as [s x] eqn:Hh. intros [= <- <-]. right. eexists _, _.
  split; [exact Hh|]. intros a. destruct x as [b|]; [|done]. destruct (rqeAnswered _); [by intros [= ->]|done].
Qed.
Lemma serve_ok {A} (h : RequestEnv -> M A) n n' a :
  serve h n = (n', Ok a) -> exists env, h env (nsServer n) = (nsServer n', Ok a).
Proof.
  intros [[_ ?]|(env & x & H & Hx)]%serve_run; [done|]. exists env. by rewrite (Hx a eq_refl) in H.
Qed.
Lemma mrel_serve {A} (R : Server -> Server -> Prop) `{!PreOrder R} (h : RequestEnv -> M A) :
  (forall env, mrel R (h env)) -> mrel (fun n n' => R (nsServer n) (nsServer n')) (serve h).
Proof.
  intros Hh n. unfold final. destruct (serve h n) as [n' r] eqn:H.
  simpl. apply serve_run in H as [[-> _]|(env & x & H & _)]; [reflexivity|].
  specialize (Hh env (nsServer n)). unfold final in Hh. by rewrite H in Hh.
Qed.

#[export] Instance nodeView : AgentView NodeState := {|
  agTx lab n := viewTx <$> transactions (nsServer n) !! lab;
  agGen lab n := gCommitted (genOf (nsServer n) lab)
|}.

Lemma open_pending lab g n :
  openHere lab g n <-> exists q, openTx lab q (nsServer n) /\ txGeneration q = g.
Proof.
  unfold openHere, openTx. simpl. split.
  - intros (v & Hv & <- & Hc). destruct (transactions (nsServer n) !! lab) as [tx|] eqn:Ht; [|done].
    injection Hv as <-. exists (txReq tx). split; [|done]. eauto.
  - intros (q & (tx & Ht & <- & Hc) & <-). rewrite Ht. simpl. eauto.
Qed.
Lemma settled_settledAt lab g n : settledHere lab g n <-> settledAt lab g (nsServer n).
Proof.
  unfold settledHere, settledAt. simpl.
  destruct (transactions (nsServer n) !! lab); simpl; naive_solver.
Qed.

Lemma kept_open {A} lab g (h : RequestEnv -> M A) :
  (forall q env, mrel (kept (openTx lab q)) (h env)) -> mrel (kept (openHere lab g)) (serve h).
Proof.
  intros Hh n (q & Hq & Hg)%open_pending. apply open_pending. exists q. split; [|done].
  by apply (mrel_serve _ h (Hh q) n).
Qed.
Lemma kept_settled {A} lab g (h : RequestEnv -> M A) :
  (forall env, mrel (kept (settledAt lab g)) (h env)) -> mrel (kept (settledHere lab g)) (serve h).
Proof.
  intros Hh n Hn%settled_settledAt. apply settled_settledAt. by apply (mrel_serve _ h Hh n).
Qed.

Section Laws.
Context (cfg : RecoveryConfig) (sidecar : Device -> option string).
#[local] Instance servedAgent : Agent NodeState := nodeAgent cfg sidecar.
Abbreviation handle := (handleApply cfg sidecar) (only parsing).

Lemma committed_view lab g s n :
  nsServer n = s -> committedAt lab g s -> committedHere lab g n.
Proof.
  intros <- [(tx & Ht & Hc & Hg) Hgen]. split; [done|]. simpl. rewrite Ht. simpl.
  by intros v [= <-].
Qed.

Lemma finalize_view req n n' r :
  arPhase req = "finalize" -> serve (fun env => handle env req) n = (n', r) ->
  agGen (requestLab req) n' = agGen (requestLab req) n /\
  (agTx (requestLab req) n' = agTx (requestLab req) n \/ agTx (requestLab req) n' = None) /\
  (is_ok r = true -> agTx (requestLab req) n' = None).
Proof.
  intros Hp [[Hs Hr]|(env & x & H & Hx)]%serve_run; simpl.
  { rewrite Hs. split_and!; auto. by destruct r. }
  unfold handleApply in H. rewrite Hp in H. simpl in H.
  apply (finalize_run (requestLab req)) in H as (Hg & Ht & Hok); [|done].
  split_and!; [done|destruct Ht as [-> | ->]; auto|].
  destruct r as [a|]; [|done]. intros _. by rewrite Hok by by rewrite (Hx a eq_refl).
Qed.

#[export] Instance nodeLaws : @AgentLaws NodeState (nodeAgent cfg sidecar) nodeView.
Proof.
  split.
  - intros req w top n n' r Hp Hw Htop H. apply serve_ok in H as [env H].
    unfold handleApply in H. rewrite Hp in H. simpl in H.
    apply prepare_records in H as (w' & top' & tx & Hw' & Htop' & _ & _ & Ht & Hg & _ & Hc & _).
    simplify_eq. apply open_pending. exists (txReq tx). split; [by exists tx|done].
  - intros req w top g Hp Hw Htop. apply kept_open. intros q env. unfold handleApply. rewrite Hp. simpl.
    by eapply kept_handleApplyRun.
  - intros lab fence generation g. apply kept_open. intros q env. apply kept_handleStateVerify.
  - intros req n n' r Hp Ho H Hf. apply serve_ok in H as [env H]. apply open_pending in Ho as (q & Hq & _).
    unfold handleApply in H. rewrite Hp in H. simpl in H.
    apply commit_proven in H as (tx & w & top & Ht & _ & _ & _ & _ & _ & [Hc|(Hc & _)]); [|by eapply committed_view|done].
    destruct Hq as (tx' & Ht' & _ & Hc'). congruence.
  - intros req n n' r Hp [Hg _] H. apply finalize_view in H as (Hg' & _ & Hok); [|done].
    split; [by apply Hok|congruence].
  - intros req g Hp. split; intros n Hn; unfold final;
      destruct (agApply req n) as [n' r] eqn:H; apply finalize_view in H as (Hg' & Ht' & _); try done; simpl.
    + destruct Hn as [Hg Ht]. split; [congruence|]. intros v Hv. apply Ht.
      destruct Ht' as [<- | Ht']; congruence.
    + destruct Hn as [Ht Hg]. split; [|congruence]. destruct Ht' as [-> | ->]; done.
  - intros lab n n' r H. apply serve_run in H as [[Hs _]|(env & x & H & _)]; simpl; [by rewrite Hs; auto|].
    unfold handleRecoveryStatus, mbind, SE_bind in H. destruct (bool_decide (lab = "")).
    { injection H as <- <-. auto. }
    apply status_run in H as [Hg Ht]. split; [done|].
    destruct Ht as [-> |(t & -> & Hc & ->)]; [by left|right]. by exists (viewTx t).
  - intros lab n n' st H. apply serve_ok in H as [env H]. unfold handleRecoveryStatus in H.
    apply bind_ok_inv in H as (? & [] & [-> _]%refuse_ok & H). apply status_tells in H.
    unfold statusTells in H. unfold tells. simpl.
    destruct (transactions (nsServer n) !! lab) as [tx|]; [|done]. simpl.
    destruct H as (? & ? & ? & ? & Hc). split_and!; try done. intros Hx. by apply bool_decide_eq_true, Hc.
  - intros req g. apply kept_settled. intros env. apply kept_recovery_settled.
  - intros req n n' st v Hs Hr Hv H. apply serve_ok in H as [env H]. simpl in Hv.
    destruct (transactions (nsServer n) !! rcqLab req) as [tx|] eqn:Ht; [|done]. injection Hv as <-.
    unfold handleRecovery in H. apply bind_ok_inv in H as (? & [] & [-> _]%refuse_ok & H).
    rewrite Hs in H. simpl in H.
    apply settled_settledAt. eapply rollback_settles in H; [exact H|exact Ht|]. simpl. by right.
  - intros req lab. intros n. pose proof (mrel_serve _ (fun env => releaseMutationLease req (rqeClock env 0))
      (fun env => same_releaseMutationLease lab req (rqeClock env 0)) n) as Hu.
    unfold unchanged, labView in *. injection Hu as Ht Hg _. simpl. by rewrite Ht, Hg.
Qed.

Definition nodeHeld (lab : string) (f : Z) (n : NodeState) : Prop := holds lab f (nsServer n).
Lemma held_agStatus lab f n n' r :
  nodeHeld lab f n -> agStatus lab n = (n', r) ->
  nodeHeld lab f n' /\ forall st, r = Ok st -> rvCommittedPending st = true.
Proof.
  unfold nodeHeld.
  intros Hs H. apply serve_run in H as [[Hn Hr]|(env & x & H & Hx)];
    [by split; [rewrite Hn|intros st ->]|].
  unfold handleRecoveryStatus, mbind, SE_bind in H. destruct (bool_decide (lab = "")).
  { injection H as Hn <-. split; [by rewrite <- Hn|]. by intros st Hst%Hx. }
  apply (holds_status _ _ f) in H as (-> & st & -> & Hst); [|done]. split; [done|].
  intros st' Hst'%Hx. congruence.
Qed.
Lemma held_agRecover req f n n' r :
  rcqRollbackCommitted req = false -> nodeHeld (rcqLab req) f n -> agRecover req n = (n', r) ->
  nodeHeld (rcqLab req) f n' /\ forall st, r = Ok st -> rvCommittedPending st = true.
Proof.
  unfold nodeHeld.
  intros Hroll Hs H. apply serve_run in H as [[Hn Hr]|(env & x & H & Hx)];
    [by split; [rewrite Hn|intros st ->]|].
  apply (holds_recovery _ _ _ _ f) in H as [Hs' Hst]; [|done|done]. split; [done|].
  intros st Hr%Hx. by apply Hst.
Qed.
Lemma held_agFinalize req f n n' r :
  arPhase req = "finalize" -> fGeneration (arFence req) <> f -> nodeHeld (requestLab req) f n ->
  agApply req n = (n', r) -> nodeHeld (requestLab req) f n' /\ is_ok r = false.
Proof.
  unfold nodeHeld.
  intros Hp Hne Hs H. apply serve_run in H as [[Hn Hr]|(env & x & H & Hx)]; [by rewrite Hn|].
  unfold handleApply in H. rewrite Hp in H. simpl in H.
  apply (holds_finalize _ _ f) in H as [Hs' Hx']; [|done|done]. split; [done|].
  destruct r as [a|]; [|done]. by rewrite (Hx a eq_refl) in Hx'.
Qed.
#[export] Instance nodeStranded : @StrandedLaws NodeState (nodeAgent cfg sidecar) := {|
  agHeld := nodeHeld;
  law_held_status := held_agStatus;
  law_held_recover := held_agRecover;
  law_held_finalize := held_agFinalize
|}.
End Laws.

(** ** A cluster of two nodes

    The deployment of [HandlerSafety.v], on a node with the lab's device and
    one without. *)

Section Demo.
#[local] Instance demoAgent : Agent NodeState := nodeAgent hConfig (fun _ => None).

Definition cSeen (node spec generation : string) : transactionInventory :=
  if decide (node = "node1") then hSeen (hObject spec generation)
  else mkInventory 3 "" generation [] [] [] [] 5 false [] [].
Definition cDirty (node : string) : list string := if decide (node = "node1") then ["d1"] else [].
Definition cStatusEnv (node spec generation : string) : StatusEnv :=
  mkStatusEnv 30 (Ok (cSeen node spec generation)) (Ok ([], [])) (Ok (cSeen node spec generation))
    true None (Ok (cSeen node spec generation)).
(** A request on a node where the containers have this specification; [None]
    is a request that is lost. *)
Definition cEnv (node spec generation : string) (fate : option bool) : RequestEnv :=
  mkRequestEnv (bool_decide (is_Some fate)) (default false fate) hClock (Ok "token")
    (mkKernel (Ok ∅) (fun _ => true) (fun _ => true))
    (mkPrepareEnv None None (Ok (cSeen node spec generation))
       (Ok (mkObservation (cDirty node) (cDirty node) ∅)) None (Ok []) (Ok []) (Ok ["twinet-lab-old"])
       None)
    (mkApplyEnv None None (cDirty node) [] (Ok ∅) (Ok ∅) noCounts ∅ (cDirty node) (cDirty node))
    (mkCommitEnv None (fun _ => None) None None None (fun _ => Ok ["twinet-lab-old"]) (Ok [])
       (fun _ => None) (fun _ => Ok (cSeen node "s2" "g2")) (fun _ => Ok "s2") (Ok ([], []))
       (fun _ => None) None ∅)
    (mkRecoverEnv hClock (cStatusEnv node spec generation) (fun _ => "s1") None true (fun _ => hPhase)
       None None None hRollbackEnv None None None (Ok (cSeen node spec generation)) None hForwardEnv)
    (cStatusEnv node spec generation) (fun _ => None).

Definition cServer (node : string) : Server :=
  set_lab_records {["lab" := hTop]} {["lab" := ModePlatform]} {["lab" := 0]} ∅
    (set_coord (fun _ => mkCoord ∅ ∅ {["lab" := mkGen "g1" "" ["g1"]]} ∅ ∅ ∅ ∅)
      (freshServer node (Some (mkStore None ∅ ∅)) [])).
(** The device is replaced between the third and the fourth request; [fate]
    is what happens to the seventh, which finalizes. *)
Definition cNode (node : string) (fate : option bool) : NodeState :=
  mkNodeState (cServer node)
    (fun k => if Nat.leb k 3 then cEnv node "s1" "g1" (Some true)
              else cEnv node "s2" "g2" (if Nat.eqb k 6 then fate else Some true)) 0.
Definition cNames : list string := ["node2"; "node1"].
Definition cCluster (fate1 fate2 : option bool) : gmap string NodeState :=
  {["node1" := cNode "node1" fate1; "node2" := cNode "node2" fate2]}.
Definition cController : Controller := mkController (fun _ => "controller") (fun _ _ => None).
Definition cDeployment : Deployment := mkDeployment hTop (hReq "") ∅ [].
Definition cApply : SE (gmap string NodeState) string (list NodeResult) :=
  coordinatedApply cNames topHash (fun _ _ _ => None) cController cDeployment [].

Lemma cNames_NoDup : NoDup cNames.
Proof. exact (bool_decide_eq_true_1 (NoDup cNames) eq_refl). Qed.

Lemma cNames_some : cNames <> [].
Proof. discriminate. Qed.

Definition cDone : gmap string NodeState := final cApply (cCluster (Some true) (Some true)).
Definition cResults : list NodeResult :=
  match value cApply (cCluster (Some true) (Some true)) with Ok l => l | Err _ => [] end.
Lemma cDone_run : cApply (cCluster (Some true) (Some true)) = (cDone, Ok cResults).
Proof. unfold cDone. apply run_eq. vm_compute. reflexivity. Qed.
Definition clean (r : NodeResult) : bool := match nrErr r with None => true | Some _ => false end.
Lemma clean_results l : forallb clean l = true -> Forall (fun r => nrErr r = None) l.
Proof.
  intros H. induction l as [|r l IH]; simpl in H; constructor; apply andb_prop in H as [Hr H]; auto.
  unfold clean in Hr. by destruct (nrErr r).
Qed.
Lemma cResults_clean : Forall (fun r => nrErr r = None) cResults.
Proof. apply clean_results. vm_compute. reflexivity. Qed.
Lemma successful_deployment_agrees_witness :
  exists expected, each cNames (fun _ => settledHere "lab"
    (generatedGeneration topHash hTop (hReq "") expected)) cDone.
Proof.
  exact (successful_deployment_agrees cNames topHash (fun _ _ _ => None) cController cDeployment []
    (cCluster (Some true) (Some true)) cDone cResults cNames_NoDup cNames_some eq_refl cDone_run
    cResults_clean).
Defined.

(** The answer of one finalization is lost. *)
Definition cUnsure : gmap string NodeState := final cApply (cCluster (Some true) (Some false)).
Definition cUnsureResults : list NodeResult :=
  match value cApply (cCluster (Some true) (Some false)) with Ok l => l | Err _ => [] end.
Lemma cUnsure_run : cApply (cCluster (Some true) (Some false)) = (cUnsure, Ok cUnsureResults).
Proof. unfold cUnsure. apply run_eq. vm_compute. reflexivity. Qed.
Lemma cUnsure_committed : CommittedResults cUnsureResults = true.
Proof. vm_compute. reflexivity. Qed.
Lemma committed_verdict_is_true_witness :
  exists expected, each cNames (fun _ => committedHere "lab"
    (generatedGeneration topHash hTop (hReq "") expected)) cUnsure.
Proof.
  exact (committed_verdict_is_true cNames topHash (fun _ _ _ => None) cController cDeployment []
    (cCluster (Some true) (Some false)) cUnsure cUnsureResults cNames_NoDup eq_refl cUnsure_run
    cUnsure_committed).
Defined.

(** The controller stops before any finalization; a recovery comes later. *)
Definition cDied : gmap string NodeState := final cApply (cCluster None None).
Definition cFresh : SE (gmap string NodeState) string (option MutationLease) :=
  AcquireMutationLease cNames cController 1 "lab".
Definition cLease : MutationLease :=
  match value cFresh cDied with Ok (Some lease) => lease | _ => mkMutationLease "" ∅ (fun _ => None) end.
Definition cLeased : gmap string NodeState := final cFresh cDied.

Definition cHeld (lease : MutationLease) (cl : gmap string NodeState) (n : string) : bool :=
  match cl !! n with
  | Some node =>
      match transactions (nsServer node) !! "lab" with
      | Some tx =>
          txCommitted tx
          && match Inventories (coord (nsServer node)) !! "lab" with
             | Some c => overlayInventorySchema <=? invSchema c
             | None => true
             end
          && match mlFences lease !! n with
             | Some fence => negb (fGeneration fence =? txFenceGeneration tx)
             | None => true
             end
      | None => false
      end
  | None => false
  end.
Lemma cHeld_sound lease cl nodes :
  forallb (cHeld lease cl) nodes = true -> each nodes (heldBefore "lab" lease) cl.
Proof.
  intros H n Hn. rewrite forallb_forall in H. apply list_elem_of_In, H in Hn. unfold cHeld in Hn.
  destruct (cl !! n) as [node|]; [|done]. exists node. split; [done|].
  destruct (transactions (nsServer node) !! "lab") as [tx|] eqn:Ht; [|done].
  apply andb_prop in Hn as [[Hc Hi]%andb_prop Hf]. exists (txFenceGeneration tx). split.
  - exists tx. split_and!; try done. intros c Hc'. rewrite Hc' in Hi. by apply Z.leb_le.
  - intros fence Hfence. rewrite Hfence in Hf. by apply negb_true_iff, Z.eqb_neq in Hf.
Qed.
Lemma cLeased_held : each cNames (heldBefore "lab" cLease) cLeased.
Proof. apply cHeld_sound. vm_compute. reflexivity. Qed.

Definition cRecover : SE (gmap string NodeState) string (RecoveryReport * list string) :=
  recoverWithLeaseStrategyOptions cNames "lab" cLease "rollback" noOptions.
Definition cAnswer : RecoveryReport * list string :=
  match value cRecover cLeased with Ok a => a | Err _ => (noReport, []) end.
Lemma cRecover_run : cRecover cLeased = (final cRecover cLeased, Ok (cAnswer.1, cAnswer.2)).
Proof. apply run_eq. vm_compute. reflexivity. Qed.
Lemma unfinalized_commit_is_stranded_witness :
  cAnswer.2 <> [] /\ each cNames (heldBefore "lab" cLease) (final cRecover cLeased).
Proof.
  exact (unfinalized_commit_is_stranded cNames cNames_NoDup "lab" cLease "rollback" noOptions cLeased
    (final cRecover cLeased) cAnswer.1 cAnswer.2 cNames_some cLeased_held cRecover_run).
Defined.

(** *** Recovery after the apply phase, and after half a commit *)

Definition oCluster : gmap string NodeState :=
  let node n := mkNodeState (cServer n) (fun _ => cEnv n "s1" "g1" (Some true)) 0 in
  {["node1" := node "node1"; "node2" := node "node2"]}.
Definition oLease : MutationLease :=
  match value cFresh oCluster with Ok (Some lease) => lease | _ => mkMutationLease "" ∅ (fun _ => None) end.
Definition oApplied : gmap string NodeState :=
  final (preparePhase cNames cDeployment oLease ModeSolve "g1" "g2";;
         applyPhases cNames cDeployment oLease ModeSolve "g1" "g2") (final cFresh oCluster).
Definition oRecover : SE (gmap string NodeState) string (RecoveryReport * list string) :=
  recoverWithLeaseStrategyOptions cNames "lab" oLease "rollback" noOptions.
Definition oReport : RecoveryReport :=
  match value oRecover oApplied with Ok a => a.1 | Err _ => noReport end.
Lemma oRecover_run : oRecover oApplied = (final oRecover oApplied, Ok (oReport, [])).
Proof. apply run_eq. vm_compute. reflexivity. Qed.
Lemma successful_recovery_agrees_witness :
  exists s st, final oRecover oApplied !! "node1" = Some s /\
    rpNodes oReport !! "node1" = Some st /\
    match agTx "lab" s with
    | Some v => tvCommitted v = false /\ tvSettling v = true /\
                (tvGeneration v <> "" -> tvGeneration v = rpGeneration oReport)
    | None => rvPhase st <> "idle" -> agGen "lab" s <> "" -> agGen "lab" s = rpGeneration oReport
    end.
Proof.
  apply (successful_recovery_agrees cNames "lab" oLease "rollback" noOptions oApplied
    (final oRecover oApplied) oReport cNames_NoDup oRecover_run). set_solver.
Defined.

(** One node has committed, the other has rolled back. *)
Definition oSplit : gmap string NodeState :=
  final (commitNode cDeployment oLease ModeSolve "g1" "g2" "node1";;
         recoverNode "lab" "rollback" oLease noOptions "node2") oApplied.
Definition oStatus (n : string) : RecoveryStatus :=
  match value (onNode n (agStatus "lab")) oSplit with Ok st => st | Err _ => idleStatus "" "" end.
Definition oObserved : RecoveryReport :=
  mkReport "" (<["node1" := oStatus "node1"]> (<["node2" := oStatus "node2"]> ∅)).
Definition oResolve : SE (gmap string NodeState) string (list string) :=
  resolveSplitCommit cNames "lab" oLease (mkSplit "g1" ["node1"]) noOptions.
Lemma oObserved_split : detectSplitCommit oObserved = Some (mkSplit "g1" ["node1"]).
Proof. vm_compute. reflexivity. Qed.
Lemma oResolve_run : oResolve oSplit = (final oResolve oSplit, Ok []).
Proof. apply run_eq. vm_compute. reflexivity. Qed.

(** The status a node was just asked for agrees with its journal. *)
Lemma oStatus_tells n :
  is_ok (value (onNode n (agStatus "lab")) oSplit) = true ->
  exists s, oSplit !! n = Some s /\ tells "lab" s (oStatus n).
Proof.
  unfold oStatus, value, onNode. destruct (oSplit !! n) as [s|]; [|done].
  destruct (agStatus "lab" s) as [s' [st|e]] eqn:H; [|done]. intros _. exists s. split; [done|].
  by apply law_status_tells in H.
Qed.
Lemma oObserved_tells n st :
  rpNodes oObserved !! n = Some st -> exists s, oSplit !! n = Some s /\ tells "lab" s st.
Proof.
  unfold oObserved. cbn [rpNodes].
  intros [[<- <-]|[_ [[<- <-]|[_ H]]%lookup_insert_Some]]%lookup_insert_Some; [| |done];
    apply oStatus_tells; vm_compute; reflexivity.
Qed.
Lemma split_resolution_converges_witness :
  (forall n, n ∈ ["node1"] -> exists s', final oResolve oSplit !! n = Some s' /\
     settledHere "lab" "g1" s') /\
  (forall n, n ∉ ["node1"] -> final oResolve oSplit !! n = oSplit !! n) /\
  (forall n st, n ∉ ["node1"] -> rpNodes oObserved !! n = Some st -> rvGeneration st = "g1").
Proof.
  exact (@split_resolution_converges NodeState demoAgent nodeView (nodeLaws hConfig (fun _ => None))
    cNames "lab" oLease noOptions oObserved "g1" ["node1"] oSplit
    (final oResolve oSplit) oObserved_split oObserved_tells oResolve_run).
Defined.
End Demo.
