(* ===== verification/Lifetimes.v ===== *)
(** * Disposable labs and holds: lifetimes are bounded, records are kept

    Theorems about [Ephemeral]: the hard ceiling of a disposable lab survives
    heartbeats, redeployments and restarts; a reclamation destroys nothing
    under a lease or a hold and keeps its records while objects remain; a
    grading hold excludes other tokens and cannot be long. *)

From stdpp Require Import base gmap strings list fin_maps.
From Stdlib Require Import ZArith Lia.
From S2P Require Import Prelude Model Coordination Transactions Ephemeral GcFence Restart Fencing.
From S2P Require Import TxSafety.

Open Scope Z_scope.

(** ** Invariants of the lease table

    Every operation of the running agent treats the table of lifetime leases
    in one of four ways: it drops leases, writes the journal, renews a lease
    under the same anchor, or notes a deployment. So an invariant that bears
    the first three bears every operation but the last. *)

Definition leases (s : Server) : gmap string ephemeralLease := Ephemeral (coord s).

(** The creation time and the ceiling of a lease. *)
Definition anchor (l : ephemeralLease) : Time * Time := (eCreatedAt l, eHardExpiresAt l).

(** The memory is on disk, if there is a disk. *)
Definition written (s : Server) : Prop := store s = None \/ journal s = Some (coord s).

Section LeaseTable.
Context (Q : Server -> Prop).
Hypothesis table_frame : forall s s',
  leases s' = leases s -> journal s' = journal s -> (store s' = None <-> store s = None) ->
  kept Q s s'.
Hypothesis Q_written : forall s s', leases s' = leases s -> written s' -> kept Q s s'.

Lemma table_save : mrel (kept Q) saveCoordinationLocked.
Proof.
  apply mrel_save; [| |by intros s ?].
  - intros s st fs Hst. apply table_frame; unfold journal; simpl; rewrite ?Hst; done.
  - intros s st fs Hst. apply Q_written; [done|by right].
Qed.

#[local] Hint Resolve table_save : table.
Ltac table_solve :=
  mrel_steps; try solve [ auto with table | apply table_frame; reflexivity
                        | match goal with H : _ |- _ => apply H, delete_subseteq end ].

Lemma table_expire now : mrel (kept Q) (expireCoordinationLocked now).
Proof. intros s. by apply table_frame. Qed.
#[local] Hint Resolve table_expire : table.
Lemma table_other_record s s' st fs tops hs :
  store s = Some st -> coord s' = coord s ->
  kept Q s (set_store (Some (mkStore (stCoordination st) tops hs)) fs s').
Proof.
  intros Hst Hc. apply table_frame; unfold leases, journal; simpl; [by rewrite Hc|by rewrite Hst|].
  by rewrite Hst.
Qed.

(** Loading the journal's leases and rehydrating, when a lease may be granted
    to a lab that has none. *)
Lemma table_rehydrate rd now :
  (forall s lab ttl gen, kept Q s (final (restoreEphemeralLeaseLocked lab ttl gen now) s)) ->
  mrel (kept Q) (rehydrate rd now).
Proof.
  intros Hres.
  assert (forall w top mode u, mrel (kept Q) (rehydrateTop w top mode u now)) as Ht.
  { intros w top mode u. unfold rehydrateTop. mrel_steps; try (by apply table_frame).
    - intros s. apply Hres.
    - intros s. unfold final, loadHolds. repeat case_match; by apply table_frame. }
  assert (forall lab, mrel (kept Q) (rehydrateLab rd lab now)) as Hl.
  { intros lab. unfold rehydrateLab. mrel_steps; try apply Ht.
    intros s. unfold final, putTopology. destruct (store s) as [st|] eqn:Hst; [|by intros ?].
    destruct (srvFaults s) as [|[] fs]; simpl; try by apply table_other_record.
    destruct st as [c t h]. by apply (table_other_record s s (mkStore c t h)). }
  assert (forall labs b, mrel (kept Q) (rehydrateAll rd labs b now)) as Ha.
  { induction labs as [|l labs IH]; intros b; simpl; table_solve. }
  unfold rehydrate. mrel_steps. apply Ha.
Qed.

Lemma table_restart rd now faults s :
  (forall s0 lab ttl gen, kept Q s0 (final (restoreEphemeralLeaseLocked lab ttl gen now) s0)) ->
  let s0 := freshServer (srvNode s) (store s) faults in
  Q (match readCoordination rd s with
     | Some disk => set_coord (loadCoord now disk) s0
     | None => s0
     end) ->
  Q (restart rd now faults s).
Proof.
  intros Hres s0 HQ. unfold restart. fold s0.
  assert (Q (final (loadCoordination rd now) s0)) as Hl.
  { unfold loadCoordination. rewrite final_get_bind.
    change (readCoordination rd s0) with (readCoordination rd s).
    destruct (readCoordination rd s) as [disk|]; [|done].
    rewrite final_modify_bind. revert HQ. generalize (set_coord (loadCoord now disk) s0).
    change (mrel (kept Q) (expireCoordinationLocked now ≫= fun _ =>
      when (loadMigrated disk) (ignore saveCoordinationLocked))). table_solve. }
  revert Hl. unfold final, mbind, SE_bind.
  destruct (loadCoordination rd now s0) as [s1 [[]|e]]; simpl; [|done].
  apply (table_rehydrate rd now Hres s1).
Qed.
(** The other operations may also drop leases, and renew one. *)
Hypothesis table_drop : forall s f,
  f (leases s) ⊆ leases s -> kept Q s (set_coord (set_Ephemeral f) s).
Hypothesis Q_renewed : forall s s' lab l l',
  leases s !! lab = Some l -> anchor l' = anchor l ->
  leases s' = <[lab := l']> (leases s) -> written s' -> kept Q s s'.

Lemma table_heartbeat req now : mrel (kept Q) (renewEphemeralLease req now).
Proof.
  unfold renewEphemeralLease. apply mrel_bind; [apply _|by mrel_steps|intros _].
  apply mrel_get_bind. intros s Hs.
  destruct (Ephemeral (coord s) !! erLab req) as [l|] eqn:Hl; [|done].
  unfold final, putEphemeral, refuse, fail, mbind, SE_bind, try_catch, modify, mret, SE_ret.
  destruct (_ && negb (bool_decide (eOwner l = erOwner req))); [done|].
  destruct (erRelease req); [|destruct (expired l now); [done|]]; cbv beta iota zeta.
  - set (s1 := set_coord (set_Ephemeral (delete (erLab req))) s).
    assert (Q s1) as H1 by (revert Hs; apply table_drop, delete_subseteq).
    destruct (save_inv s1) as [[Hr _]|[(st & fs & Hst & _ & Hr)|(st & Hst & Hr)]]; rewrite Hr; simpl.
    + done.
    + revert Hs. apply table_frame; unfold leases, journal in *; simpl in *.
      * by rewrite insert_delete_eq, insert_id.
      * by rewrite Hst.
      * by rewrite Hst.
    + revert H1. apply Q_written; [done|by right].
  - set (s1 := set_coord (set_Ephemeral <[erLab req := renewed l req now]>) s).
    destruct (save_inv s1) as [[Hr Hn]|[(st & fs & Hst & _ & Hr)|(st & Hst & Hr)]]; rewrite Hr; simpl.
    + revert Hs. eapply Q_renewed; [exact Hl| |reflexivity|by left]. done.
    + revert Hs. apply table_frame; unfold leases, journal in *; simpl in *.
      * by rewrite insert_insert_eq, insert_id.
      * by rewrite Hst.
      * by rewrite Hst.
    + revert Hs. eapply Q_renewed; [exact Hl| |reflexivity|by right]. done.
Qed.

Lemma table_destroyed lab fence now : mrel (kept Q) (finishDestroyedLab lab fence now).
Proof.
  unfold finishDestroyedLab, checkFence. apply mrel_bind; [apply _|by mrel_steps|intros _].
  apply mrel_get_bind. intros s Hs. rewrite final_modify_bind.
  set (s1 := set_coord (forgetLab lab) s).
  assert (Q s1) as H1.
  { apply (table_frame (set_coord (set_Ephemeral (delete lab)) s)); [done..|].
    revert Hs. apply table_drop, delete_subseteq. }
  pose proof (table_save s1 H1) as H2.
  unfold final, mbind, SE_bind, try_catch in *.
  destruct (save_inv s1) as [[Hr _]|[(st & fs & Hst & _ & Hr)|(st & Hst & Hr)]];
    rewrite Hr in *; simpl in *; [|revert Hs; apply table_frame|].
  - revert H2. by apply table_frame.
  - transitivity (Ephemeral (restoreLab lab (coord s) (forgetLab lab (coord s))));
      [done|by rewrite restoreLab_forgetLab].
  - unfold journal. simpl. by rewrite Hst.
  - simpl. by rewrite Hst.
  - revert H2. by apply table_frame.
Qed.

Lemma table_forgetLease lab : mrel (kept Q) (forgetEphemeralLease lab).
Proof.
  unfold forgetEphemeralLease. apply mrel_get_bind. intros s Hs.
  destruct (Ephemeral (coord s) !! lab) as [p|] eqn:Hp; [|done]. rewrite final_modify_bind.
  set (s1 := set_coord _ s).
  assert (Q s1) as H1 by (revert Hs; apply table_drop, delete_subseteq).
  unfold final, try_catch.
  destruct (save_inv s1) as [[Hr _]|[(st & fs & Hst & _ & Hr)|(st & Hst & Hr)]]; rewrite Hr; simpl.
  - done.
  - revert Hs. apply table_frame; unfold leases, journal in *; simpl in *.
    + by rewrite insert_delete_eq, insert_id.
    + by rewrite Hst.
    + by rewrite Hst.
  - revert H1. apply Q_written; [done|by right].
Qed.

Lemma table_rollbackAdoptions k lab adopted before :
  mrel (kept Q) (rollbackLegacyAdoptionsLocked k lab adopted before).
Proof.
  intros s Hs. unfold final, rollbackLegacyAdoptionsLocked.
  set (s1 := set_coord _ s). assert (Q s1) as H1 by (revert Hs; by apply table_frame).
  pose proof (table_save s1 H1) as H2. unfold final in H2.
  by destruct (saveCoordinationLocked s1) as [s2 [?|?]].
Qed.

Lemma table_adoptAll k lab fence before legacy adopted :
  mrel (kept Q) (adoptAll k lab fence before legacy adopted).
Proof.
  revert adopted. induction legacy as [|v l IH]; intros adopted; simpl; table_solve.
  apply table_rollbackAdoptions.
Qed.

Lemma table_promoteLoop lab fence vnis b : mrel (kept Q) (promoteLoop lab fence vnis b).
Proof. revert b. induction vnis as [|v vnis IH]; intros b; simpl; table_solve. Qed.

Lemma table_saveHolds lab now : mrel (kept Q) (saveHoldsLocked lab now).
Proof.
  intros s. unfold final, saveHoldsLocked. destruct (store s) as [st|] eqn:Hst; [|by intros ?].
  set (s1 := match holds s !! lab with Some h => _ | None => _ end).
  assert (coord s1 = coord s) as Hc by (unfold s1; by repeat case_match).
  destruct (srvFaults s1) as [|[] fs]; simpl; try by apply table_other_record.
  destruct st as [c t h]. by apply (table_other_record s s1 (mkStore c t h)).
Qed.
Lemma table_forget lab : mrel (kept Q) (storeForget lab).
Proof.
  intros s. unfold final, storeForget. destruct (store s) as [st|] eqn:Hst; [|by intros ?].
  destruct (srvFaults s) as [|[] fs]; simpl; try by apply table_other_record.
  destruct st as [c t h]. by apply (table_other_record s s (mkStore c t h)).
Qed.
Lemma table_lapsedHold lab now s : kept Q s (dropLapsedHold lab now s).
Proof. unfold dropLapsedHold. repeat case_match; by apply table_frame. Qed.
#[local] Hint Resolve table_saveHolds table_forget table_lapsedHold
  table_heartbeat table_destroyed table_forgetLease table_adoptAll table_promoteLoop : table.

Lemma table_quietOp g s :
  (forall lab o ttl gen now, kept Q s (final (noteEphemeralLease lab o ttl gen now) s)) ->
  quietOp g -> kept Q s (g s).
Proof.
  intros Hnote. destruct 1; try apply Hnote;
  match goal with |- kept _ ?s (final ?m ?s) =>
    let H := fresh in assert (mrel (kept Q) m) as H; [|exact (H s)] end;
  first [ solve [auto with table]
        | match goal with |- mrel _ ?m => let h := head_of m in unfold h end;
          unfold expireAndCheck, checkFence, ownApplied, ownTransaction, generationTransaction,
            requireModes, putTx, putEphemeral, acquireOperation, releaseOperation;
          try case_match; table_solve ].
Qed.

(** Every step of the running process. *)
Lemma table_step s new s' :
  (forall lab o ttl gen now, kept Q s (final (noteEphemeralLease lab o ttl gen now) s)) ->
  step s new s' -> (forall b, Restarted b ∉ new) -> Q s -> Q s'.
Proof.
  intros Hnote Hstep Hno HQ.
  assert (forall token req now, mrel (kept Q) (acquireMutationLease token req now)) as Ha
    by (intros; unfold acquireMutationLease; table_solve).
  assert (forall token lab ttl now, mrel (kept Q) (acquireRecoveryFence token lab ttl now))
    as Hb by (intros; unfold acquireRecoveryFence; table_solve).
  destruct Hstep as [token req now s s' resp H|token req now s s' e H
    |token lab ttl now s s' f H|token lab ttl now s s' e H|g s Hq|rd now faults s Hst].
  - specialize (Ha token req now s HQ). unfold final in Ha. by rewrite H in Ha.
  - specialize (Ha token req now s HQ). unfold final in Ha. by rewrite H in Ha.
  - specialize (Hb token lab ttl now s HQ). unfold final in Hb. by rewrite H in Hb.
  - specialize (Hb token lab ttl now s HQ). unfold final in Hb. by rewrite H in Hb.
  - by apply table_quietOp.
  - exfalso. apply (Hno (rdCoordination rd)). by left.
Qed.

End LeaseTable.

(** What noting a deployment does to the table: nothing, or it writes a lease
    that keeps the anchor of the one it replaces. *)
Lemma note_cases lab owner ttl generation now s :
  let s' := final (noteEphemeralLease lab owner ttl generation now) s in
  (leases s' = leases s /\ journal s' = journal s /\ (store s' = None <-> store s = None)) \/
  (exists l', leases s' = <[lab := l']> (leases s) /\ written s' /\
     match leases s !! lab with
     | Some l => eCreatedAt l <> 0 -> eHardExpiresAt l <> 0 -> anchor l' = anchor l
     | None => True
     end /\
     (anchor l' = (now, now + maxEphemeralLifetime) \/
      exists l, leases s !! lab = Some l /\ anchor l' = anchor l)).
Proof.
  unfold final, noteEphemeralLease, putEphemeral, refuse, fail, mbind, SE_bind, try_catch, modify,
    get, mret, SE_ret. case_bool_decide; [by left|]. cbv beta iota zeta.
  set (l' := match leases s !! lab with
             | Some p => if negb (isZero (eCreatedAt p)) && negb (isZero (eHardExpiresAt p))
                         then (eCreatedAt p, eHardExpiresAt p) else (now, now + maxEphemeralLifetime)
             | None => (now, now + maxEphemeralLifetime)
             end).
  change (Ephemeral (coord s) !! lab) with (leases s !! lab). fold l'.
  destruct l' as [created hard] eqn:El. unfold l' in El. clear l'.
  match goal with |- context [set_Ephemeral <[lab := ?x]>] => set (l' := x) end.
  set (s1 := set_coord _ s).
  assert (match leases s !! lab with
     | Some l => eCreatedAt l <> 0 -> eHardExpiresAt l <> 0 -> anchor l' = anchor l
     | None => True
     end /\
     (anchor l' = (now, now + maxEphemeralLifetime) \/
      exists l, leases s !! lab = Some l /\ anchor l' = anchor l)) as Ha.
  { unfold anchor, l'. simpl. destruct (leases s !! lab) as [l|]; [|split; [done|left; congruence]].
    unfold isZero in El. destruct (Z.eqb_spec (eCreatedAt l) 0), (Z.eqb_spec (eHardExpiresAt l) 0);
      simpl in El; injection El as <- <-; (split; [done|]); eauto. }
  destruct (save_inv s1) as [[Hr Hn]|[(st & fs & Hst & _ & Hr)|(st & Hst & Hr)]]; rewrite Hr; simpl.
  - right. exists l'. split_and!; [done|by left|apply Ha..].
  - left. unfold leases, journal. simpl in Hst |- *. rewrite Hst. split_and!; try done.
    apply map_eq. intros lab'. unfold restoreEntry. destruct (decide (lab' = lab)) as [->|].
    + by rewrite lookup_partial_alter_eq.
    + by rewrite lookup_partial_alter_ne, lookup_insert_ne.
  - right. exists l'. split_and!; [done|by right|apply Ha..].
Qed.

(** ** The hard ceiling *)

Definition ceilingOK (l : ephemeralLease) : Prop :=
  eHardExpiresAt l = eCreatedAt l + maxEphemeralLifetime.

Definition allCeilings (m : gmap string ephemeralLease) : Prop :=
  forall lab l, m !! lab = Some l -> ceilingOK l.

Lemma allCeilings_insert m lab l :
  ceilingOK l -> allCeilings m -> allCeilings (<[lab := l]> m).
Proof. intros Hl Hm lab' l'. rewrite lookup_insert. case_decide; [by intros [= <-]|]. apply Hm. Qed.

Lemma ceilingOK_anchor l l' : anchor l' = anchor l -> ceilingOK l -> ceilingOK l'.
Proof. unfold ceilingOK. intros [= -> ->]. done. Qed.

(** Of the memory and of the journal. *)
Definition bounded (s : Server) : Prop :=
  allCeilings (leases s) /\ forall c, journal s = Some c -> allCeilings (Ephemeral c).

Lemma bounded_frame s s' : leases s' = leases s -> journal s' = journal s -> kept bounded s s'.
Proof. intros Hl Hj. unfold kept, bounded. by rewrite Hl, Hj. Qed.

Lemma bounded_written s' :
  written s' -> allCeilings (leases s') -> bounded s'.
Proof.
  intros [Hn|Hj] Ha; (split; [done|]).
  - unfold journal. by rewrite Hn.
  - rewrite Hj. by intros c [= <-].
Qed.

Lemma bounded_note lab owner ttl generation now s :
  kept bounded s (final (noteEphemeralLease lab owner ttl generation now) s).
Proof.
  intros Hs. destruct (note_cases lab owner ttl generation now s)
    as [(Hl & Hj & _)|(l' & Hl & Hw & _ & Ha)]; [revert Hs; by apply bounded_frame|].
  apply bounded_written; [done|]. rewrite Hl. apply allCeilings_insert; [|exact (proj1 Hs)].
  destruct Ha as [[= Hc Hh]|(l & Hin & Ha)]; [by unfold ceilingOK; rewrite Hc, Hh|].
  eapply ceilingOK_anchor; [exact Ha|]. by apply (proj1 Hs lab).
Qed.

Lemma loadEphemeral_anchor now lab l : ceilingOK l -> anchor (loadEphemeral now lab l) = anchor l.
Proof.
  unfold ceilingOK, anchor, loadEphemeral. simpl. unfold isZero. intros Hl.
  destruct (eHardExpiresAt l =? 0) eqn:E; [|done]. apply Z.eqb_eq in E.
  destruct (eCreatedAt l =? 0) eqn:F; [|by rewrite Hl]. apply Z.eqb_eq in F.
  rewrite E, F in Hl. done.
Qed.

Lemma loaded_leases now disk s lab l' :
  leases s = ∅ -> leases (set_coord (loadCoord now disk) s) !! lab = Some l' ->
  exists l, Ephemeral disk !! lab = Some l /\ l' = loadEphemeral now lab l.
Proof.
  intros He. unfold leases in *. simpl. rewrite He, map_union_empty, map_lookup_imap.
  destruct (Ephemeral disk !! lab) as [l|]; [|done]. simpl. intros [= <-]. eauto.
Qed.

Lemma bounded_restart rd now faults s : bounded s -> bounded (restart rd now faults s).
Proof.
  intros [_ Hj]. apply table_restart.
  - intros. by apply bounded_frame.
  - intros s1 s2 Hl Hw Hb. apply bounded_written; [done|]. rewrite Hl. exact (proj1 Hb).
  - intros s0 lab ttl gen Hb. unfold restoreEphemeralLeaseLocked. rewrite final_get_bind.
    destruct (_ !! lab); [done|]. split; [|exact (proj2 Hb)]. by apply allCeilings_insert, (proj1 Hb).
  - set (s0 := freshServer _ _ _). unfold readCoordination.
    destruct (rdCoordination rd); [|by split].
    destruct (store s ≫= stCoordination) as [disk|] eqn:Hd; [|by split; [|unfold journal; simpl; rewrite Hd]].
    split; [|exact Hj]. intros lab l' Hl'.
    apply loaded_leases in Hl' as (l & Hl & ->); [|done].
    eapply ceilingOK_anchor; [apply loadEphemeral_anchor|]; by apply (Hj disk Hd lab).
Qed.

Lemma step_restarts s new s' :
  step s new s' -> (forall b, Restarted b ∉ new) \/
  exists rd now faults, new = [Restarted (rdCoordination rd)] /\ store s <> None /\
                        s' = restart rd now faults s.
Proof.
  destruct 1; [left|left|left|left|left|right; by eexists _, _, _];
    intros b; rewrite ?not_elem_of_cons; auto using not_elem_of_nil.
Qed.

Lemma bounded_reach n tr s : reach n tr s -> bounded s.
Proof.
  induction 1 as [node st faults Hst|n tr s new s' Hr IH Hstep].
  { split; [done|]. unfold journal. simpl. by rewrite Hst. }
  destruct (step_restarts _ _ _ Hstep) as [Hno|(rd & now & faults & -> & _ & ->)];
    [|by apply bounded_restart].
  revert IH. apply (table_step bounded) with (new := new); try done.
  - intros. by apply bounded_frame.
  - intros s1 s2 Hl Hw Hb. apply bounded_written; [done|]. rewrite Hl. exact (proj1 Hb).
  - intros s0 f Hf Hb. split; [|exact (proj2 Hb)]. intros lab l Hl. apply (proj1 Hb lab).
    by eapply lookup_weaken.
  - intros s0 s1 lab l l' Hl Ha Hs Hw Hb. apply bounded_written; [done|]. rewrite Hs.
    apply allCeilings_insert; [|exact (proj1 Hb)]. eapply ceilingOK_anchor; [exact Ha|]. by apply (proj1 Hb lab).
  - intros. apply bounded_note.
Qed.

(** ** The anchor *)

(** No lease of the lab has another anchor. *)
Definition anchoredAt (lab : string) (a : Time * Time) (s : Server) : Prop :=
  forall l, leases s !! lab = Some l -> anchor l = a.

Lemma step_keeps_anchor s new s' lab l l' :
  step s new s' -> (forall b, Restarted b ∉ new) -> leases s !! lab = Some l ->
  eCreatedAt l <> 0 -> eHardExpiresAt l <> 0 -> leases s' !! lab = Some l' -> anchor l' = anchor l.
Proof.
  intros Hstep Hno Hl Hc Hh. revert l'. change (anchoredAt lab (anchor l) s').
  assert (anchoredAt lab (anchor l) s) as Hs by (intros l0 ?; congruence). revert Hs.
  apply (table_step (anchoredAt lab (anchor l))) with (new := new); try done.
  - intros s0 s1 E _ _ H0 l0. rewrite E. apply H0.
  - intros s0 s1 E _ H0 l0. rewrite E. apply H0.
  - intros s0 f Hf H0 l0 Hl0. apply H0. by eapply lookup_weaken.
  - intros s0 s1 lab0 l0 l1 Hl0 Ha E _ H0 l2. rewrite E, lookup_insert. case_decide; [|apply H0].
    intros [= <-]. subst. rewrite Ha. by apply H0.
  - intros lab0 o ttl gen now H0. destruct (note_cases lab0 o ttl gen now s)
      as [(E & _)|(l1 & E & _ & Ha & _)]; intros l2; rewrite E; [apply H0|].
    rewrite lookup_insert. case_decide; [|apply H0]. intros [= <-]. subst. rewrite Hl in Ha. auto.
Qed.

(** A lease that was not granted by a restart is in the journal, with its
    anchor. *)
Definition agrees (s : Server) : Prop :=
  forall lab l, leases s !! lab = Some l -> eRestored l = false -> store s <> None ->
    exists c j, journal s = Some c /\ Ephemeral c !! lab = Some j /\ anchor j = anchor l.

Lemma agrees_written s : written s -> agrees s.
Proof. intros [?|Hj] lab l Hl _ Hst; [done|]. by exists (coord s), l. Qed.

Lemma agrees_frame s s' :
  leases s' ⊆ leases s -> journal s' = journal s -> (store s' = None <-> store s = None) ->
  kept agrees s s'.
Proof.
  intros Hl Hj Hs Ha lab l Hin Hr Hst. rewrite Hj. apply (Ha lab); [|done|by rewrite <- Hs].
  by eapply lookup_weaken.
Qed.

Lemma agrees_restart rd now faults s : bounded s -> agrees (restart rd now faults s).
Proof.
  intros [_ Hb]. apply table_restart.
  - intros s1 s2 Hl. apply agrees_frame. by rewrite Hl.
  - intros s1 s2 Hl Hw _. by apply agrees_written.
  - intros s0 lab ttl gen Ha. unfold restoreEphemeralLeaseLocked. rewrite final_get_bind.
    destruct (Ephemeral (coord s0) !! lab) eqn:En; [done|]. intros lab' l. unfold leases. simpl.
    rewrite lookup_insert. case_decide; [by intros [= <-]|]. apply (Ha lab').
  - set (s0 := freshServer _ _ _). unfold readCoordination.
    destruct (rdCoordination rd); [|done].
    destruct (store s ≫= stCoordination) as [disk|] eqn:Hd; [|done].
    intros lab l' Hl' _ _. apply loaded_leases in Hl' as (l & Hl & ->); [|done].
    exists disk, l. split_and!; [exact Hd|done|]. symmetry.
    apply loadEphemeral_anchor. by apply (Hb disk Hd lab).
Qed.

Lemma agrees_reach n tr s : reach n tr s -> agrees s.
Proof.
  induction 1 as [node st faults Hst|n tr s new s' Hr IH Hstep]; [done|].
  destruct (step_restarts _ _ _ Hstep) as [Hno|(rd & now & faults & -> & _ & ->)];
    [|by eapply agrees_restart, bounded_reach].
  revert IH. apply (table_step agrees) with (new := new); try done.
  - intros s1 s2 Hl. apply agrees_frame. by rewrite Hl.
  - intros s1 s2 Hl Hw _. by apply agrees_written.
  - intros s0 f Hf. by apply agrees_frame.
  - intros s0 s1 lab l l' _ _ _ Hw _. by apply agrees_written.
  - intros lab o ttl gen now. destruct (note_cases lab o ttl gen now s)
      as [(E & Hj & Hs)|(l1 & E & Hw & _)]; [apply agrees_frame; [by rewrite E|done..]|].
    intros _. by apply agrees_written.
Qed.

(** A restart that reads the journal keeps the anchor of a journalled lease. *)
Lemma restart_keeps_anchor rd now faults s lab c j l' :
  rdCoordination rd = true -> journal s = Some c -> Ephemeral c !! lab = Some j -> ceilingOK j ->
  leases (restart rd now faults s) !! lab = Some l' -> anchor l' = anchor j.
Proof.
  intros Hrd Hj Hl Hc. enough (leases (restart rd now faults s) !! lab
    = Some (loadEphemeral now lab j)) as -> by (intros [= <-]; by apply loadEphemeral_anchor).
  apply (table_restart (fun s0 => leases s0 !! lab = Some (loadEphemeral now lab j))).
  - intros s1 s2 E _ _. unfold kept. by rewrite E.
  - intros s1 s2 E _. unfold kept. by rewrite E.
  - intros s0 lab0 ttl gen H0. unfold restoreEphemeralLeaseLocked. rewrite final_get_bind.
    destruct (Ephemeral (coord s0) !! lab0) eqn:En; [done|]. unfold leases in *. simpl.
    rewrite lookup_insert_ne; [done|]. congruence.
  - unfold readCoordination. rewrite Hrd. unfold journal in Hj. rewrite Hj.
    unfold leases. simpl. by rewrite map_union_empty, map_lookup_imap, Hl.
Qed.

(** C40. A disposable lab cannot outlive its ceiling. In every execution, with
    any number of heartbeats, redeployments, lost writes, crashes and restarts,
    the deadline of a lease that has a creation time (one that was granted at
    the zero time has none) is at most eight hours after its creation time; and
    the creation time and the ceiling are never moved while the lab has its
    lease: whatever the running process does next, a redeployment of the same
    name included, a lease the lab then has carries the same two times, and so
    it does after a restart that reads the journal, unless the lease was itself
    granted by a restart. (A restart that finds a disposable lab but no lease
    of it in the journal grants it a new bounded one.) *)
Theorem disposable_lab_is_bounded n tr s lab l :
  reach n tr s -> Ephemeral (coord s) !! lab = Some l -> 0 < eCreatedAt l ->
  deadline l <= eCreatedAt l + maxEphemeralLifetime /\
  forall new s' l', step s new s' -> Ephemeral (coord s') !! lab = Some l' ->
    (forall b, Restarted b ∉ new) \/ (eRestored l = false /\ legible new) ->
    eCreatedAt l' = eCreatedAt l /\ eHardExpiresAt l' = eHardExpiresAt l.
Proof.
  intros Hr Hl Hpos. destruct (bounded_reach _ _ _ Hr) as [Hb Hjb].
  pose proof (Hb lab l Hl) as H. unfold ceilingOK, maxEphemeralLifetime, second in H. split.
  - unfold deadline, isZero, before, maxEphemeralLifetime, second.
    destruct (_ =? 0) eqn:E; [apply Z.eqb_eq in E; lia|]. simpl.
    destruct (_ <? _) eqn:F; [lia|]. apply Z.ltb_ge in F. lia.
  - intros new s' l' Hstep Hl' Hcase.
    enough (anchor l' = anchor l) as [= -> ->] by done.
    destruct (step_restarts _ _ _ Hstep) as [Hno|(rd & now & faults & -> & Hst & ->)];
      [by eapply step_keeps_anchor; try done; lia|].
    destruct Hcase as [Hno|[Hres Hleg]]; [exfalso; apply (Hno (rdCoordination rd)); by left|].
    destruct (agrees_reach _ _ _ Hr lab l Hl Hres Hst) as (c & j & Hj & Hjl & <-).
    eapply restart_keeps_anchor; [|exact Hj|exact Hjl|by apply (Hjb c Hj lab)|exact Hl'].
    unfold legible in Hleg. destruct (rdCoordination rd); [done|set_solver].
Qed.

(** ** Heartbeats *)

Lemma clamp_bounds n : second <= clampEphemeralTTL n <= maxEphemeralTTLSeconds * second.
Proof.
  unfold clampEphemeralTTL, defaultEphemeralTTLSeconds, maxEphemeralTTLSeconds, second.
  destruct (n <=? 0) eqn:E; simpl; [lia|]. apply Z.leb_gt in E.
  destruct (3600 <? n) eqn:F; [lia|]. apply Z.ltb_ge in F. lia.
Qed.

(** What a heartbeat does: it never creates a lease and never revives an
    expired one or another owner's; the lease it leaves keeps its owner,
    generation, creation time and ceiling, ends after [now] plus at most one
    hour and never past the ceiling, and is durable. *)
Theorem heartbeat_extends_live_lease req now s s' resp :
  renewEphemeralLease req now s = (s', Ok resp) -> erRelease req = false ->
  exists l l', Ephemeral (coord s) !! erLab req = Some l /\ expired l now = false /\
    (eOwner l = "" \/ erOwner req = "" \/ eOwner l = erOwner req) /\
    Ephemeral (coord s') = <[erLab req := l']> (Ephemeral (coord s)) /\
    eOwner l' = eOwner l /\ eGeneration l' = eGeneration l /\ eCreatedAt l' = eCreatedAt l /\
    eHardExpiresAt l' = eHardExpiresAt l /\
    eExpiresAt l' <= now + maxEphemeralTTLSeconds * second /\
    (eHardExpiresAt l <> 0 -> eExpiresAt l' <= eHardExpiresAt l) /\
    epExpiresAt resp = eExpiresAt l' /\ durable s'.
Proof.
  intros H Hrel. unfold renewEphemeralLease in H.
  apply bind_ok_inv in H as (s1 & [] & H1 & H). rewrite refuse_run in H1.
  injection H1 as <- _. erewrite bind_ok in H by reflexivity.
  destruct (Ephemeral (coord s) !! erLab req) as [l|] eqn:Hl; [|done].
  apply bind_ok_inv in H as (s1 & [] & H1 & H). rewrite refuse_run in H1.
  destruct (_ && negb (bool_decide (eOwner l = erOwner req))) eqn:Ho; [done|].
  injection H1 as <-. rewrite Hrel in H.
  apply bind_ok_inv in H as (s1 & [] & H1 & H). rewrite refuse_run in H1.
  destruct (expired l now) eqn:Hx; [done|]. injection H1 as <-.
  erewrite bind_ok in H by reflexivity.
  exists l, (renewed l req now). split; [done|]. split; [done|]. split.
  { destruct (decide (eOwner l = "")); [by left|].
    destruct (decide (erOwner req = "")); [by right; left|].
    destruct (decide (eOwner l = erOwner req)) as [|Hne]; [by right; right|].
    rewrite !bool_decide_eq_false_2 in Ho by done. done. }
  assert (Ephemeral (coord s') = <[erLab req := renewed l req now]> (Ephemeral (coord s)) /\
          durable s' /\ epExpiresAt resp = eExpiresAt (renewed l req now)) as (He & Hd & Hr).
  { unfold try_catch, mbind, SE_bind in H.
    destruct (save_inv (set_coord (set_Ephemeral <[erLab req := renewed l req now]>) s))
      as [[Hr Hn]|[(st & fs & Hst & _ & Hr)|(st & Hst & Hr)]]; rewrite Hr in H; [|done|].
    - injection H as <- <-. split_and!; [done|by left|done].
    - injection H as <- <-. split_and!; [done|by right|done]. }
  do 5 (split; [done|]). clear Ho H.
  set (ttl := if (erTTLSeconds req <=? 0) && (0 <? eTTLSeconds l)
              then clampEphemeralTTL (eTTLSeconds l) else clampEphemeralTTL (erTTLSeconds req)).
  assert (second <= ttl <= maxEphemeralTTLSeconds * second) as Httl
    by (unfold ttl; destruct (_ && _); apply clamp_bounds).
  assert (eExpiresAt (renewed l req now) =
    if negb (isZero (eHardExpiresAt l)) && before (eHardExpiresAt l) (now + ttl)
    then eHardExpiresAt l else now + ttl) as Hexp by reflexivity.
  unfold isZero, before in Hexp.
  destruct (eHardExpiresAt l =? 0) eqn:E; cbn [negb andb] in Hexp.
  - apply Z.eqb_eq in E. split_and!; [lia|lia|done|done].
  - destruct (eHardExpiresAt l <? now + ttl) eqn:F;
      [apply Z.ltb_lt in F|apply Z.ltb_ge in F]; split_and!; lia || done.
Qed.

(** ** Reclamation *)

(** Nothing of the lab is left in the coordination state. *)
Definition labGone (lab : string) (c : coordinationState) : Prop :=
  Ephemeral c !! lab = None /\ Generations c !! lab = None /\ Transactions c !! lab = None /\
  Inventories c !! lab = None /\ OverlayLineage c !! lab = None /\
  forall vni cl, Overlays c !! vni = Some cl -> cLab cl <> lab.

Definition gone (lab : string) (s : Server) : Prop := labGone lab (coord s).

Lemma gone_move lab s s' :
  Ephemeral (coord s') ⊆ Ephemeral (coord s) ->
  Generations (coord s') = Generations (coord s) ->
  Transactions (coord s') = Transactions (coord s) ->
  Inventories (coord s') = Inventories (coord s) ->
  OverlayLineage (coord s') = OverlayLineage (coord s) ->
  Overlays (coord s') ⊆ Overlays (coord s) -> kept (gone lab) s s'.
Proof.
  intros He Hg Ht Hi Hl Ho (A & B & C & D & E & F). unfold gone, labGone.
  rewrite Hg, Ht, Hi, Hl. split_and!; try done.
  - by eapply lookup_weaken_None.
  - intros vni cl Hv. eapply F, lookup_weaken; [exact Hv|exact Ho].
Qed.

Lemma gone_save lab : mrel (kept (gone lab)) saveCoordinationLocked.
Proof. apply mrel_save; intros; by apply gone_move. Qed.

#[export] Hint Resolve gone_save : gone.
Ltac gone_solve :=
  mrel_steps; try solve [ auto with gone | apply gone_move; simpl;
    first [done | apply map_drop_subseteq | apply delete_subseteq] ].

Lemma gone_release lab req now : mrel (kept (gone lab)) (releaseMutationLease req now).
Proof.
  assert (mrel (kept (gone lab)) (expireCoordinationLocked now)) as Hx.
  { intros s. apply gone_move; try done. apply map_drop_subseteq. }
  unfold releaseMutationLease, expireAndCheck, checkFence. gone_solve.
Qed.

Lemma finishDestroyedLab_gone lab fence now s s' :
  finishDestroyedLab lab fence now s = (s', Ok tt) -> gone lab s'.
Proof.
  intros Hd. unfold finishDestroyedLab in Hd. apply checkFence_ok_inv in Hd as [_ Hd].
  erewrite bind_ok in Hd by reflexivity.
  assert (exists sd, (modify (set_coord (forgetLab lab));; try_catch saveCoordinationLocked
            (fun e => modify (set_coord (restoreLab lab (coord s)));; fail e)) s
            = (sd, Ok tt) /\ coord s' = coord sd) as (sd & Hd' & Hc).
  { revert Hd. unfold mbind, SE_bind, modify.
    destruct (try_catch saveCoordinationLocked _ _) as [sd [[]|e]]; [|done].
    intros [= <-]. by exists sd. }
  apply try_save_ok_inv in Hd' as [Hcd _]; [|done].
  unfold gone. rewrite Hc, Hcd. unfold labGone. simpl. rewrite !lookup_delete_eq.
  split_and!; try done. intros vni cl [_ Hv]%lookup_map_drop_Some.
  by apply bool_decide_eq_false in Hv.
Qed.

Lemma reclaimObjects_gone env lab fence now s s' :
  reclaimObjects env lab fence now s = (s', Ok true) -> gone lab s'.
Proof.
  unfold reclaimObjects. destruct (negb (reDestroyed env)); [done|]. intros H.
  apply bind_ok_inv in H as (sa & forgot & _ & H).
  apply bind_ok_inv in H as (sb & finished & Hf & H).
  injection H as <- Hok. apply andb_true_iff in Hok as [_ ->].
  unfold attempt in Hf. injection Hf as <- Hok.
  destruct (finishDestroyedLab lab fence now sa) as [sc [[]|e]] eqn:Hd; [|done].
  by apply finishDestroyedLab_gone in Hd.
Qed.

(** The two guards of a reclamation. *)
Lemma mutationLeaseHolder_free lab now s s1 :
  mutationLeaseHolder lab now s = (s1, Ok "") ->
  s1 = expire now s /\ forall lease, mutations s !! lab = Some lease -> lUntil lease <= now.
Proof.
  unfold mutationLeaseHolder, mbind, SE_bind, get, expireCoordinationLocked.
  cbn -[expire]. unfold mret, SE_ret. intros H.
  assert (s1 = expire now s /\ mutations (expire now s) !! lab = None) as [-> Hm].
  { destruct (mutations (expire now s) !! lab) as [l|]; [|by injection H as <-].
    injection H as <- H. by case_decide. }
  split; [done|]. intros lease Hl. simpl in Hm.
  apply lookup_map_drop_None in Hm as [Hm|(v & Hv & Hx)]; [congruence|].
  unfold leaseExpired, before in Hx. apply negb_true_iff, Z.ltb_ge in Hx. by simplify_eq.
Qed.

Lemma heldBy_free lab now s s1 :
  heldBy lab now s = (s1, Ok "") -> forall h, holds s !! lab = Some h -> hUntil h < now.
Proof.
  intros H h Hh. destruct (decide (hUntil h < now)) as [|Hlt]; [done|]. exfalso.
  unfold heldBy, mbind, SE_bind, modify, get, mret, SE_ret, dropLapsedHold in H.
  rewrite Hh in H. unfold before in H.
  destruct (hUntil h <? now) eqn:E; [apply Z.ltb_lt in E; lia|].
  injection H as _ H. rewrite Hh in H. by case_decide.
Qed.

(** A successful reclamation of an abandoned lab happened under no live
    controller lease and no live grading hold, and leaves nothing of the lab
    in the coordination state: no lifetime lease, generation, transaction,
    inventory, lineage or overlay claim. *)
Theorem reclaim_is_complete env lab now s s' :
  reclaimEphemeralLab env lab now s = (s', Ok tt) ->
  (forall lease, mutations s !! lab = Some lease -> lUntil lease <= now) /\
  (forall h, holds s !! lab = Some h -> hUntil h < now) /\
  labGone lab (coord s').
Proof.
  intros H. unfold reclaimEphemeralLab in H.
  apply bind_ok_inv in H as (s1 & holder & H1 & H).
  apply bind_ok_inv in H as (s2 & [] & H2 & H). rewrite refuse_run in H2.
  destruct (bool_decide (holder = "")) eqn:Eh; [|done]. injection H2 as <-.
  apply bool_decide_eq_true in Eh as ->. apply mutationLeaseHolder_free in H1 as [-> Hm].
  apply bind_ok_inv in H as (s3 & held & H3 & H).
  apply bind_ok_inv in H as (s4 & [] & H4 & H). rewrite refuse_run in H4.
  destruct (bool_decide (held = "")) eqn:Ee; [|done]. injection H4 as <-.
  apply bool_decide_eq_true in Ee as ->.
  split_and!; [exact Hm|exact (heldBy_free _ _ _ _ H3)|].
  apply bind_ok_inv in H as (s5 & fence & H5 & H).
  apply bind_ok_inv in H as (s6 & opID & H6 & H).
  apply bind_ok_inv in H as (s7 & ok & H7 & H).
  apply bind_ok_inv in H as (s8 & [] & H8 & H).
  apply bind_ok_inv in H as (s9 & [] & H9 & H).
  apply bind_ok_inv in H as (s10 & [] & H10 & H). rewrite refuse_run in H.
  destruct ok; [|done]. injection H as <-.
  assert (gone lab s7) as Hg by (by eapply reclaimObjects_gone).
  assert (gone lab s8) as Hg8.
  { assert (mrel (kept (gone lab)) (dropEphemeralLease lab)) as K
      by (unfold dropEphemeralLease; gone_solve).
    specialize (K s7 Hg). unfold final in K. simpl in H8. by rewrite H8 in K. }
  assert (gone lab s9) as Hg9.
  { assert (mrel (kept (gone lab)) (releaseOperation lab opID)) as K
      by (unfold releaseOperation; gone_solve).
    specialize (K s8 Hg8). unfold final in K. by rewrite H9 in K. }
  pose proof (gone_release lab (mkRelease lab fence) now s9 Hg9) as K.
  unfold ignore in H10. injection H10 as <-. exact K.
Qed.

(** The records a retry needs. *)
Definition labRecords (lab : string) (s : Server) :=
  (Ephemeral (coord s) !! lab, Generations (coord s) !! lab, Transactions (coord s) !! lab,
   Inventories (coord s) !! lab).

Lemma records_save lab : mrel (unchanged (labRecords lab)) saveCoordinationLocked.
Proof. by apply mrel_save. Qed.

(** A reclamation whose host objects did not come down keeps every record
    of the lab, above all its lifetime lease, and reports an error: the next
    pass tries again. *)
Theorem failed_reclaim_keeps_records env lab now s :
  reDestroyed env = false ->
  labRecords lab (final (reclaimEphemeralLab env lab now) s) = labRecords lab s /\
  exists e, value (reclaimEphemeralLab env lab now) s = Err e.
Proof.
  intros Hd. split.
  - assert (mrel (unchanged (labRecords lab)) (reclaimEphemeralLab env lab now)) as H; [|apply H].
    unfold reclaimEphemeralLab, reclaimObjects, mutationLeaseHolder, heldBy,
      acquireRecoveryFence, acquireForcedOperation, acquireOperation, releaseOperation,
      releaseMutationLease, expireAndCheck, checkFence. rewrite Hd. simpl.
    mrel_steps; try apply records_save; try done.
    unfold unchanged, labRecords, dropLapsedHold. by repeat case_match.
  - destruct (value (reclaimEphemeralLab env lab now) s) as [[]|e] eqn:Hv; [|by exists e].
    exfalso. apply run_eq in Hv. unfold reclaimEphemeralLab in Hv.
    do 6 (apply bind_ok_inv in Hv as (? & ? & _ & Hv)).
    apply bind_ok_inv in Hv as (s7 & ok & Ho & Hv).
    unfold reclaimObjects in Ho. rewrite Hd in Ho. injection Ho as _ <-.
    do 3 (apply bind_ok_inv in Hv as (? & ? & _ & Hv)). done.
Qed.

(** A node whose disposable lab expired, with a store that loses the write
    that forgets the lab's state and accepts the one after it. *)
Definition reapLease : ephemeralLease := mkEphemeral "lab" "ci" 900 "g1" 5 10 50 false.
Definition reapServer (faults : list bool) : Server :=
  set_coord (set_Ephemeral (fun _ => {["lab" := reapLease]}))
    (freshServer "node1" (Some (mkStore None {["lab" := RawInvalid]} ∅)) faults).
Definition reapEnv (down : bool) : ReapEnv := mkReapEnv (Ok "token") (60 * second) true down.

(** When the objects came down and only the removal of the lab's stored
    state failed, the reclamation reports a problem but has already dropped
    the lifetime lease: the lab is not retried although its stored topology
    is still there. *)
Theorem failed_forget_drops_lease :
  let s := reapServer [false; true] in
  let s' := final (reclaimEphemeralLab (reapEnv true) "lab" 100) s in
  value (reclaimEphemeralLab (reapEnv true) "lab" 100) s = Err EProblems /\
  expiredEphemeralLabs 100 s = ["lab"] /\
  expiredEphemeralLabs 100 s' = [] /\ Ephemeral (coord s') !! "lab" = None /\
  (st ← store s'; stTopology st !! "lab") = Some RawInvalid.
Proof. split_and!; vm_compute; reflexivity. Qed.

(** ** Holds *)

Definition holdConflict (now : Time) (h : hold) (token : string) : bool :=
  before now (hUntil h) && negb (bool_decide (hToken h = ""))
  && negb (bool_decide (hToken h = token)).

Definition holdSeconds (req : HoldRequest) : Z :=
  if maxHoldSeconds <? hrSeconds req then maxHoldSeconds else hrSeconds req.

(** The state [applyHold] tries to persist. *)
Definition newHold (req : HoldRequest) (now : Time) (s : Server) : Server :=
  set_holds (if holdSeconds req <=? 0 then delete (hrLab req)
             else <[hrLab req := mkHold (hrHolder req) (hrToken req)
                                   (now + holdSeconds req * second)]>) s.

Lemma applyHold_cases req now s :
  (exists h, holds s !! hrLab req = Some h /\ holdConflict now h (hrToken req) = true /\
     applyHold req now s = (s, Err (EHeld (hHolder h)))) \/
  ((forall h, holds s !! hrLab req = Some h -> holdConflict now h (hrToken req) = false) /\
   applyHold req now s =
     try_catch (saveHoldsLocked (hrLab req) now) (fun e =>
       modify (set_holds (restoreEntry (hrLab req) (holds s !! hrLab req)));; fail e)
       (newHold req now s)).
Proof.
  unfold applyHold, newHold, holdSeconds. erewrite bind_ok by reflexivity.
  destruct (holds s !! hrLab req) as [h|] eqn:Hh.
  - destruct (holdConflict now h (hrToken req)) eqn:Hc; unfold holdConflict in Hc; rewrite Hc.
    + left. exists h. done.
    + right. split; [by intros h' [= <-]|]. erewrite bind_ok by reflexivity.
      by destruct (_ <=? 0).
  - right. split; [done|]. erewrite bind_ok by reflexivity. by destruct (_ <=? 0).
Qed.

Lemma newHold_other req now s l :
  l <> hrLab req -> holds (newHold req now s) !! l = holds s !! l.
Proof.
  intros. unfold newHold. simpl.
  destruct (_ <=? 0); [by rewrite lookup_delete_ne|by rewrite lookup_insert_ne].
Qed.

Lemma saveHolds_holds lab now s :
  let s' := final (saveHoldsLocked lab now) s in
  (forall l, l <> lab -> holds s' !! l = holds s !! l) /\
  (holds s' !! lab = holds s !! lab \/ holds s' !! lab = None).
Proof.
  unfold final, saveHoldsLocked. destruct (store s); [|by split; [|left]].
  destruct (holds s !! lab) as [h|] eqn:Eh; [destruct (before now (hUntil h))|];
    destruct (srvFaults _) as [|[] fs]; simpl; rewrite ?lookup_delete_eq;
    (split; [intros; by rewrite ?lookup_delete_ne by done|auto]).
Qed.

(** A grading hold excludes other tokens and is short: while a hold with
    a token is live, a hold request or a mutation with another token is
    refused and changes nothing; an accepted hold carries its request's token
    and lasts at most ten minutes; and a hold request whose write is lost
    changes no hold. *)
Theorem hold_excludes_other_tokens req now s :
  (forall h, holds s !! hrLab req = Some h -> now < hUntil h -> hToken h <> "" ->
     hToken h <> hrToken req ->
     applyHold req now s = (s, Err (EHeld (hHolder h))) /\
     (hrLab req <> "" ->
      value (refuseMutationIfHeld (hrLab req) (hrToken req) now) s = Ok true)) /\
  (forall s' h', applyHold req now s = (s', Ok tt) -> holds s' !! hrLab req = Some h' ->
     hToken h' = hrToken req /\ hUntil h' <= now + maxHoldSeconds * second) /\
  (forall s', applyHold req now s = (s', Err EPersist) -> holds s' = holds s).
Proof.
  pose proof (saveHolds_holds (hrLab req) now (newHold req now s)) as [Hother Hsame].
  split_and!.
  - intros h Hh Hlt Hne Htok. apply Z.ltb_lt in Hlt as Hb. split.
    + destruct (applyHold_cases req now s) as [(h' & ? & _ & ?)|[Hno _]]; [by simplify_eq|].
      specialize (Hno h Hh). unfold holdConflict, before in Hno.
      by rewrite Hb, !bool_decide_eq_false_2 in Hno.
    + intros Hlab. unfold refuseMutationIfHeld. case_decide; [done|].
      unfold value, mbind, SE_bind, modify, get, mret, SE_ret, dropLapsedHold, before.
      rewrite Hh. destruct (hUntil h <? now) eqn:E; [apply Z.ltb_lt in E; lia|]. simpl.
      rewrite Hh, !bool_decide_eq_false_2 by done. reflexivity.
  - intros s' h' H Hh'.
    destruct (applyHold_cases req now s) as [(h & _ & _ & Hr)|[_ Hr]]; [congruence|].
    rewrite Hr in H. unfold try_catch, final in *.
    destruct (saveHoldsLocked _ _ _) as [s2 [[]|e]]; [|done]. injection H as <-. simpl in Hsame.
    destruct Hsame as [Hs|Hs]; [|congruence]. rewrite Hs in Hh'. unfold newHold in Hh'. simpl in Hh'.
    destruct (_ <=? 0); [by rewrite lookup_delete_eq in Hh'|].
    rewrite lookup_insert_eq in Hh'. injection Hh' as <-. simpl. split; [done|].
    unfold holdSeconds. destruct (_ <? _) eqn:E; [lia|]. apply Z.ltb_ge in E.
    unfold maxHoldSeconds, second in *. lia.
  - intros s' H.
    destruct (applyHold_cases req now s) as [(h & _ & _ & Hr)|[_ Hr]]; [congruence|].
    rewrite Hr in H. unfold try_catch, final in *.
    destruct (saveHoldsLocked _ _ _) as [s2 [[]|e]]; [done|]. injection H as <- _. simpl in *.
    apply map_eq. intros l. unfold restoreEntry. destruct (decide (l = hrLab req)) as [->|];
      [by rewrite lookup_partial_alter_eq|].
    rewrite lookup_partial_alter_ne, Hother by done. by apply newHold_other.
Qed.

(** ** The lab of a container *)

#[local] Transparent String.prefix.
Lemma prefix_app p s : String.prefix p s = true <-> exists r, s = (p +:+ r)%string.
Proof.
  revert s. induction p as [|c p IH]; intros s; simpl.
  - split; [intros _; by exists s|by destruct s].
  - destruct s as [|c' s]; simpl; [by split; [|intros (r & ?)]|].
    destruct (Ascii.ascii_dec c c') as [->|Hne].
    + rewrite IH. split; intros (r & Hr); exists r; [by rewrite Hr|by injection Hr].
    + split; [done|]. intros (r & Hr). by injection Hr.
Qed.

Lemma app_same_length a b x y :
  String.length a = String.length b -> (a +:+ x)%string = (b +:+ y)%string -> a = b.
Proof.
  revert b. induction a as [|c a IH]; intros [|c' b]; simpl; try done.
  intros [= Hl] [= -> He]. f_equal. by apply IH.
Qed.

(** Two labs of the same length cannot both match. *)
Lemma matching_labs_unique rest a b :
  hasPrefix rest (a +:+ "-") = true -> hasPrefix rest (b +:+ "-") = true ->
  String.length a = String.length b -> a = b.
Proof.
  unfold hasPrefix. rewrite !prefix_app. intros (x & ->) (y & He) Hl.
  assert (forall u v w : string, ((u +:+ v) +:+ w)%string = (u +:+ (v +:+ w))%string) as Hassoc.
  { induction u as [|c u IH]; intros v w; [done|]. exact (f_equal (String c) (IH v w)). }
  rewrite !Hassoc in He. by eapply app_same_length.
Qed.

Lemma longest_spec rest labs best :
  let r := fold_left (longerLab rest) labs best in
  (r = best \/ r ∈ labs /\ hasPrefix rest (r +:+ "-") = true) /\
  (String.length best <= String.length r)%nat /\
  (forall lab, lab ∈ labs -> hasPrefix rest (lab +:+ "-") = true ->
     (String.length lab <= String.length r)%nat).
Proof.
  revert best. induction labs as [|x labs IH]; intros best; simpl.
  { split_and!; [by left|lia|]. by intros lab ?%not_elem_of_nil. }
  specialize (IH (longerLab rest best x)) as (A & B & C). unfold longerLab in A, B, C |- *.
  destruct (hasPrefix rest (x +:+ "-")) eqn:Hx; simpl in *.
  - destruct (Nat.ltb_spec (String.length best) (String.length x)) as [Hlt|Hge].
    + split_and!; [|lia|].
      * right. destruct A as [->|[A1 A2]]; [split; [left|done]|split; [by right|done]].
      * intros lab [->|Hin]%elem_of_cons Hl; [done|]. by apply C.
    + split_and!; [|done|].
      * destruct A as [->|[A1 A2]]; [by left|right; split; [by right|done]].
      * intros lab [->|Hin]%elem_of_cons Hl; [lia|]. by apply C.
  - split_and!; [|done|].
    + destruct A as [->|[A1 A2]]; [by left|right; split; [by right|done]].
    + intros lab [->|Hin]%elem_of_cons Hl; [congruence|]. by apply C.
Qed.

(** The lab a container belongs to does not depend on the order in which
    the map of hosted labs is walked, although lab names may contain the
    separator and be prefixes of one another: it is the longest hosted lab
    whose name and a dash start the rest of the container's name. *)
Theorem container_lab_is_order_independent rest labs labs' :
  labs ≡ₚ labs' ->
  fold_left (longerLab rest) labs "" = fold_left (longerLab rest) labs' "".
Proof.
  intros HP.
  destruct (longest_spec rest labs "") as (A & _ & B).
  destruct (longest_spec rest labs' "") as (A' & _ & B').
  set (r := fold_left (longerLab rest) labs "") in *.
  set (r' := fold_left (longerLab rest) labs' "") in *.
  assert (forall x : string, String.length x = 0%nat -> x = "") as Hnil by by intros [].
  destruct A as [A|[A1 A2]], A' as [A'|[A1' A2']].
  - congruence.
  - rewrite <- HP in A1'. specialize (B r' A1' A2'). rewrite A in *. simpl in B.
    symmetry. apply Hnil. lia.
  - rewrite HP in A1. specialize (B' r A1 A2). rewrite A' in *. simpl in B'. apply Hnil. lia.
  - rewrite HP in A1. rewrite <- HP in A1'.
    apply (matching_labs_unique rest); [done|done|].
    specialize (B r' A1' A2'). specialize (B' r A1 A2). lia.
Qed.

(** ** Witnesses *)

Definition life1 : Server := final (noteEphemeralLease "ci" "runner" 600 "g1" 5000) demo0.
Definition life2 : Server := restart allRead 6000 [] life1.

Lemma life2_reach : reach 2 [Restarted true] life2.
Proof.
  apply (reach_step 1 [] life1 [Restarted true]); [|by apply (step_restart allRead)].
  apply (reach_step 0 [] demo0 []); [by apply reach_init|]. apply step_op, q_note.
Qed.

Definition lifeLease : ephemeralLease :=
  mkEphemeral "ci" "runner" 600 "g1" 5000 600000005000 28800000005000 false.

(** A redeployment an hour later. *)
Definition life3 : Server :=
  final (noteEphemeralLease "ci" "runner" 600 "g2" (5000 + 3600 * second)) life2.

Lemma disposable_lab_is_bounded_witness :
  Ephemeral (coord life2) !! "ci" = Some lifeLease /\
  deadline lifeLease <= eCreatedAt lifeLease + maxEphemeralLifetime /\
  exists l', Ephemeral (coord life3) !! "ci" = Some l' /\ eGeneration l' = "g2" /\
             eCreatedAt l' = 5000 /\ eHardExpiresAt l' = eHardExpiresAt lifeLease.
Proof.
  assert (Ephemeral (coord life2) !! "ci" = Some lifeLease) as H by (vm_compute; reflexivity).
  split; [exact H|].
  destruct (disposable_lab_is_bounded 2 _ life2 "ci" lifeLease life2_reach H eq_refl) as [Hd Hs].
  split; [exact Hd|]. eexists. split; [vm_compute; reflexivity|]. split; [reflexivity|].
  apply (Hs [] life3); [apply step_op, q_note|vm_compute; reflexivity|].
  left. intros b. apply not_elem_of_nil.
Defined.

Definition beat : EphemeralRequest := mkEphemeralRequest "ci" "runner" 60 false.

Lemma heartbeat_extends_live_lease_witness :
  exists l', Ephemeral (coord (final (renewEphemeralLease beat 7000) life2))
               = <["ci" := l']> (Ephemeral (coord life2)) /\
             eCreatedAt l' = 5000 /\ eExpiresAt l' <= 7000 + maxEphemeralTTLSeconds * second.
Proof.
  assert (renewEphemeralLease beat 7000 life2 =
    (final (renewEphemeralLease beat 7000) life2,
     Ok (mkEphemeralResponse "ci" true "runner" 60 60000007000 28800000005000))) as H
    by (apply run_eq; vm_compute; reflexivity).
  destruct (heartbeat_extends_live_lease beat 7000 life2 _ _ H eq_refl)
    as (l & l' & Hl & _ & _ & He & _ & _ & Hc & _ & Hx & _).
  exists l'. split; [exact He|]. split; [|exact Hx].
  rewrite Hc. assert (Ephemeral (coord life2) !! "ci" =
    Some (mkEphemeral "ci" "runner" 600 "g1" 5000 600000005000 28800000005000 false)) as H0
    by (vm_compute; reflexivity).
  simpl in Hl. rewrite H0 in Hl. injection Hl as <-. reflexivity.
Defined.

Lemma reclaim_is_complete_witness :
  let s' := final (reclaimEphemeralLab (reapEnv true) "lab" 100) (reapServer []) in
  Ephemeral (coord (reapServer [])) !! "lab" = Some reapLease /\ labGone "lab" (coord s').
Proof.
  split; [reflexivity|].
  apply (reclaim_is_complete (reapEnv true) "lab" 100 (reapServer [])).
  apply run_eq. vm_compute. reflexivity.
Defined.

Lemma failed_reclaim_keeps_records_witness :
  labRecords "lab" (final (reclaimEphemeralLab (reapEnv false) "lab" 100) (reapServer []))
    = (Some reapLease, None, None, None).
Proof.
  rewrite (proj1 (failed_reclaim_keeps_records (reapEnv false) "lab" 100 (reapServer [])
                    eq_refl)).
  vm_compute. reflexivity.
Defined.

Definition holdServer : Server :=
  set_holds (fun _ => {["lab" := mkHold "grader" "secret" 500]})
    (freshServer "node1" None []).

Lemma hold_excludes_other_tokens_witness :
  applyHold (mkHoldRequest "lab" "intruder" 60 "other") 100 holdServer
    = (holdServer, Err (EHeld "grader")) /\
  value (applyHold (mkHoldRequest "lab" "grader" 60 "secret") 100) holdServer = Ok tt.
Proof.
  split; [|vm_compute; reflexivity].
  refine (proj1 (proj1 (hold_excludes_other_tokens
            (mkHoldRequest "lab" "intruder" 60 "other") 100 holdServer)
            (mkHold "grader" "secret" 500) _ _ _ _)); [reflexivity|reflexivity| |];
    discriminate.
Defined.

Lemma container_lab_is_order_independent_witness :
  fold_left (longerLab "cos-461-r1") ["cos"; "cos-461"; "cs"] "" = "cos-461" /\
  fold_left (longerLab "cos-461-r1") ["cos-461"; "cos"; "cs"] "" = "cos-461".
Proof.
  split; [vm_compute; reflexivity|].
  rewrite (container_lab_is_order_independent "cos-461-r1" ["cos-461"; "cos"; "cs"]
             ["cos"; "cos-461"; "cs"]); [vm_compute; reflexivity|apply perm_swap].
Defined.
