(* ===== verification/Plan.v ===== *)
(** * Deployment plans: validation, cycle detection and restriction

    Models the planning half of [internal/plan/plan.go]: building a plan,
    [Validate] with its depth-first cycle search, and [Restrict]. *)

From stdpp Require Import base gmap strings list fin_maps relations well_founded.
From Stdlib Require Import ZArith Lia.
From S2P Require Import Prelude.

(** ** Data *)

(** [Stage]; a stage outside the canonical list keeps its name. *)
Inductive Stage :=
| StageImage | StageCreate | StageWire | StageConfigure | StageReady
| StageOther (name : string).
#[export] Instance Stage_eq_dec : EqDecision Stage.
Proof. solve_decision. Defined.

Definition StageOrder : list Stage :=
  [StageImage; StageCreate; StageWire; StageConfigure; StageReady].

(** [Step], without the function it runs, which is the environment's. *)
Record Step := mkStep {
  sID : string; sStage : Stage; sScope : string; sDescribe : string;
  sNeeds : list string; sOptional : bool
}.

(** [Plan]. *)
Record Plan := mkPlan { steps : gmap string Step; order : list string }.

Definition New : Plan := mkPlan ∅ [].

(** [Add]; [None] is its panic. *)
Definition Add (s : Step) (p : Plan) : option Plan :=
  if decide (sID s = "") then None
  else if decide (is_Some (steps p !! sID s)) then None
  else Some (mkPlan (<[sID s := s]> (steps p)) (order p ++ [sID s])).

Definition Len (p : Plan) : nat := size (steps p).

Definition Steps (p : Plan) : list Step := omap (fun id => steps p !! id) (order p).

(** [p.steps[id].Needs]. *)
Definition needsOf (p : Plan) (id : string) : list string :=
  match steps p !! id with Some s => sNeeds s | None => [] end.

(** ** Cycle search *)

Inductive Colour := white | grey | black.
#[export] Instance Colour_eq_dec : EqDecision Colour.
Proof. solve_decision. Defined.

Definition colourOf (colour : gmap string Colour) (id : string) : Colour :=
  lookup_or white colour id.

(** [walk] returns nil with the colours it leaves, or a cycle; [WFuel] marks
    that the recursion was deeper than the fuel. *)
Inductive walkResult :=
| WDone (colour : gmap string Colour)
| WCycle (cycle : list string)
| WFuel.

Section Walk.
Context (p : Plan).

(** The loop over the needs of one step, [rec] being the recursive call. *)
Fixpoint walkNeeds (rec : string -> gmap string Colour -> walkResult) (path : list string)
    (needs : list string) (colour : gmap string Colour) : walkResult :=
  match needs with
  | [] => WDone colour
  | need :: needs =>
      match colourOf colour need with
      | grey => WCycle (path ++ [need])
      | white => match rec need colour with
                 | WDone colour => walkNeeds rec path needs colour
                 | r => r
                 end
      | black => walkNeeds rec path needs colour
      end
  end.

Fixpoint walk (fuel : nat) (id : string) (path : list string)
    (colour : gmap string Colour) : walkResult :=
  match fuel with
  | O => WFuel
  | S fuel =>
      let path := path ++ [id] in
      match walkNeeds (fun need c => walk fuel need path c) path (needsOf p id)
              (<[id := grey]> colour) with
      | WDone colour => WDone (<[id := black]> colour)
      | r => r
      end
  end.

Fixpoint walkAll (fuel : nat) (ids : list string) (colour : gmap string Colour)
    : walkResult :=
  match ids with
  | [] => WDone colour
  | id :: ids =>
      match colourOf colour id with
      | white => match walk fuel id [] colour with
                 | WDone colour => walkAll fuel ids colour
                 | r => r
                 end
      | _ => walkAll fuel ids colour
      end
  end.

(** [findCycle]. The recursion is never deeper than the number of steps. *)
Definition findCycle : option (list string) :=
  match walkAll (length (order p)) (sortStrings (order p)) ∅ with
  | WCycle c => Some c
  | _ => None
  end.
End Walk.

(** ** Validation *)

Inductive planErr :=
| PDangling (missing : list string)
| PCycle (cycle : list string)
| PStage (id need : string).

Definition missingNeeds (p : Plan) : list (string * string) :=
  id ← order p; need ← filter (fun need => steps p !! need = None) (needsOf p id); [(id, need)].

(** The rank of a stage; Go's map read gives an unknown stage the rank 0. *)
Definition rank (st : Stage) : nat :=
  match st with
  | StageImage => 0 | StageCreate => 1 | StageWire => 2 | StageConfigure => 3
  | StageReady => 4 | StageOther _ => 0
  end.

Definition stageOf (p : Plan) (id : string) : Stage :=
  match steps p !! id with Some s => sStage s | None => StageOther "" end.

Definition stageViolations (p : Plan) : list (string * string) :=
  id ← order p;
  need ← filter (fun need => rank (stageOf p id) < rank (stageOf p need)) (needsOf p id);
  [(id, need)].

(** [Validate]; the stage check reports the first violation. *)
Definition Validate (p : Plan) : result planErr unit :=
  match missingNeeds p with
  | [] =>
      match findCycle p with
      | Some cycle => Err (PCycle cycle)
      | None =>
          match stageViolations p with
          | [] => Ok tt
          | (id, need) :: _ => Err (PStage id need)
          end
      end
  | missing => Err (PDangling (sortStrings (map (fun '(id, need) =>
      (id +:+ " needs " +:+ need +:+ ", which does not exist")%string) missing)))
  end.

(** ** Restriction *)

(** [need]: marks a step and everything it depends on. *)
Fixpoint need (p : Plan) (fuel : nat) (id : string) (keep : gset string) : gset string :=
  match fuel with
  | O => keep
  | S fuel =>
      if decide (id ∈ keep) then keep
      else fold_left (fun keep dep =>
             if decide (is_Some (steps p !! dep)) then need p fuel dep keep else keep)
             (needsOf p id) ({[id]} ∪ keep)
  end.

Definition keepAll (p : Plan) (fuel : nat) (ids : list string) (keep : gset string)
    : gset string :=
  fold_left (fun keep id => need p fuel id keep) ids keep.

Definition matching (p : Plan) (mtch : Step -> bool) : list string :=
  List.filter (fun id => match steps p !! id with Some s => mtch s | None => false end)
    (order p).

Definition kept_set (p : Plan) (mtch : Step -> bool) : gset string :=
  keepAll p (S (length (order p))) (matching p mtch) ∅.

Definition narrow (keep : gset string) (s : Step) : Step :=
  mkStep (sID s) (sStage s) (sScope s) (sDescribe s)
    (filter (fun dep => dep ∈ keep) (sNeeds s)) (sOptional s).

(** [Restrict]; the copy is rebuilt by [Add] in plan order, and [None] would
    be its panic. *)
Definition Restrict (p : Plan) (mtch : Step -> bool) : option Plan :=
  let keep := kept_set p mtch in
  foldl (fun out id =>
           out ← out;
           if decide (id ∈ keep) then
             s ← steps p !! id; Add (narrow keep s) out
           else Some out) (Some New) (order p).

(** ** Well-formed plans *)

Record wfPlan (p : Plan) : Prop := {
  wf_nodup : NoDup (order p);
  wf_dom id : id ∈ order p <-> is_Some (steps p !! id);
  wf_id id s : steps p !! id = Some s -> sID s = id /\ id <> ""
}.

Lemma wf_New : wfPlan New.
Proof.
  split; simpl.
  - constructor.
  - intros id. rewrite lookup_empty. split; [by intros ?%not_elem_of_nil|by intros []].
  - intros id s. by rewrite lookup_empty.
Qed.

Lemma wf_Add s p p' : wfPlan p -> Add s p = Some p' -> wfPlan p'.
Proof.
  intros [A B C]. unfold Add. case_decide as Hid; [done|]. case_decide as Hdup; [done|].
  intros [= <-]. split; simpl.
  - apply NoDup_app. split_and!; [done| |apply NoDup_singleton].
    intros id Hin ->%list_elem_of_singleton. by apply Hdup, B.
  - intros id. rewrite elem_of_app, list_elem_of_singleton, B.
    destruct (decide (sID s = id)) as [<-|].
    + rewrite lookup_insert_eq. split; [by eexists|by right].
    + rewrite lookup_insert_ne by done. naive_solver.
  - intros id s'. destruct (decide (sID s = id)) as [<-|].
    + rewrite lookup_insert_eq. by intros [= <-].
    + rewrite lookup_insert_ne by done. apply C.
Qed.

(** Every need is a step of the plan. *)
Definition closed (p : Plan) : Prop :=
  forall id need, id ∈ order p -> need ∈ needsOf p id -> need ∈ order p.

(** [dep p y x]: step [x] needs step [y]. *)
Definition dep (p : Plan) (y x : string) : Prop := y ∈ needsOf p x.

(** The graph has no cycle through these steps: going down the needs ends. *)
Definition acyclic (p : Plan) : Prop := forall id, id ∈ order p -> Acc (dep p) id.

(** ** The cycle search is sound and complete *)

Section Search.
Context (p : Plan) (Hclosed : closed p).

Fixpoint chain (l : list string) : Prop :=
  match l with
  | x :: r => match r with y :: _ => dep p y x /\ chain r | [] => True end
  | [] => True
  end.

Lemma chain_snoc l x y : chain (l ++ [x]) -> dep p y x -> chain (l ++ [x; y]).
Proof.
  induction l as [|a l IH]; simpl; [done|]. intros H Hd.
  destruct l as [|b l]; simpl in *; [by destruct H|].
  destruct H as [H1 H2]. split; [done|]. by apply IH.
Qed.

Lemma chain_tc x l y : chain (x :: l ++ [y]) -> tc (flip (dep p)) x y.
Proof.
  revert x. induction l as [|a l IH]; intros x; simpl; intros [H1 H2].
  - by apply tc_once.
  - eapply tc_l; [exact H1|]. by apply IH.
Qed.

Lemma chain_suffix l l' : chain (l ++ l') -> chain l'.
Proof.
  induction l as [|a l IH]; [done|]. simpl. intros H. apply IH.
  destruct (l ++ l') as [|b r]; [done|]. by destruct H.
Qed.

(** A list that walks down the needs and ends at a step it visited. *)
Definition isCycle (c : list string) : Prop :=
  chain c /\ exists pre x mid, c = pre ++ x :: mid ++ [x].

Lemma Acc_tc_irrefl x : Acc (dep p) x -> ~ tc (flip (dep p)) x x.
Proof.
  intros H. induction H as [x _ IH]. intros Hc.
  inversion Hc as [? ? H|? y ? H Ht]; subst.
  - apply (IH x H). by apply tc_once.
  - apply (IH y H). eapply tc_r; [exact Ht|exact H].
Qed.

Lemma isCycle_not_acyclic c : isCycle c -> c ⊆ order p -> ~ acyclic p.
Proof.
  intros (Hc & pre & x & mid & ->) Hsub Ha. apply chain_suffix in Hc.
  apply (Acc_tc_irrefl x).
  - apply Ha, Hsub. set_solver.
  - by apply (chain_tc x mid x).
Qed.

(** What holds between calls: the grey steps are those on the path, and
    going down from a black step ends. *)
Record searchOK (path : list string) (c : gmap string Colour) : Prop := {
  so_grey x : colourOf c x = grey <-> x ∈ path;
  so_black x : colourOf c x = black -> Acc (dep p) x
}.

(** The outcome of a search that started at [path] with colours [c]. *)
Definition outcome (path : list string) (c : gmap string Colour)
    (done : list string) (r : walkResult) : Prop :=
  match r with
  | WDone c' => searchOK path c' /\
      (forall x, colourOf c x = black -> colourOf c' x = black) /\
      (forall x, x ∈ done -> colourOf c' x = black)
  | WCycle cyc => isCycle cyc /\ cyc ⊆ order p
  | WFuel => False
  end.

Lemma colourOf_insert c x k y :
  colourOf (<[x := k]> c) y = if decide (x = y) then k else colourOf c y.
Proof.
  unfold colourOf, lookup_or. case_decide as H; [subst; by rewrite lookup_insert_eq|].
  by rewrite lookup_insert_ne.
Qed.

Lemma walkNeeds_ok rec path x needs c :
  (forall need c, need ∈ order p -> dep p need x -> colourOf c need = white ->
     searchOK (path ++ [x]) c -> outcome (path ++ [x]) c [need] (rec need c)) ->
  chain (path ++ [x]) -> path ++ [x] ⊆ order p ->
  (forall need, need ∈ needs -> dep p need x) ->
  searchOK (path ++ [x]) c ->
  outcome (path ++ [x]) c needs (walkNeeds rec (path ++ [x]) needs c).
Proof.
  intros Hrec Hch Hsub. revert c.
  induction needs as [|need needs IH]; intros c Hn Hs; simpl.
  { split_and!; [done|done|]. by intros y ?%not_elem_of_nil. }
  assert (dep p need x) as Hdep by (apply Hn; left).
  assert (x ∈ order p) as Hx by (apply Hsub; set_solver).
  assert (need ∈ order p) as Hin by by apply (Hclosed x).
  assert (forall need, need ∈ needs -> dep p need x) as Hn' by (intros; apply Hn; by right).
  destruct (colourOf c need) eqn:E.
  - pose proof (Hrec need c Hin Hdep E Hs) as Ho.
    destruct (rec need c) as [c1|cyc|]; [|done|done].
    destruct Ho as (H1 & H2 & H3). specialize (IH c1 Hn' H1).
    destruct (walkNeeds rec (path ++ [x]) needs c1) as [c2|cyc|]; [|done|done].
    destruct IH as (I1 & I2 & I3). split_and!; [done|auto|].
    intros y [->|Hy]%elem_of_cons; [|auto]. apply I2, H3. left.
  - split; [|set_solver]. split.
    + rewrite <- app_assoc. by apply chain_snoc.
    + apply (so_grey _ _ Hs) in E. apply list_elem_of_split in E as (pre & post & E).
      exists pre, need, post. rewrite E, <- app_assoc. done.
  - specialize (IH c Hn' Hs).
    destruct (walkNeeds rec (path ++ [x]) needs c) as [c2|cyc|]; [|done|done].
    destruct IH as (I1 & I2 & I3). split_and!; [done|done|].
    intros y [->|Hy]%elem_of_cons; auto.
Qed.

Lemma walk_ok fuel id path c :
  id ∈ order p -> colourOf c id = white -> searchOK path c ->
  chain (path ++ [id]) -> path ⊆ order p -> NoDup path ->
  (length (order p) <= length path + fuel)%nat ->
  outcome path c [id] (walk p fuel id path c).
Proof.
  revert id path c. induction fuel as [|fuel IH];
    intros id path c Hid Hw Hs Hch Hsub Hnd Hfuel;
    (assert (id ∉ path) as Hnew by (intros Hin; apply (so_grey _ _ Hs) in Hin; congruence));
    (assert (NoDup (path ++ [id])) as Hnd'
      by (apply NoDup_app; split_and!; [done|set_solver|apply NoDup_singleton]));
    (assert (path ++ [id] ⊆ order p) as Hsub' by set_solver);
    (assert (length path + 1 <= length (order p))%nat as Hlen
      by (change 1%nat with (length [id]); rewrite <- length_app;
          by apply submseteq_length, NoDup_submseteq)).
  - lia.
  - simpl.
    assert (searchOK (path ++ [id]) (<[id := grey]> c)) as Hs1.
    { split; intros y; rewrite colourOf_insert; case_decide as E.
      - subst. split; [set_solver|done].
      - rewrite (so_grey _ _ Hs). set_solver.
      - done.
      - apply (so_black _ _ Hs). }
    assert (outcome (path ++ [id]) (<[id := grey]> c) (needsOf p id)
              (walkNeeds (fun need c => walk p fuel need (path ++ [id]) c) (path ++ [id])
                 (needsOf p id) (<[id := grey]> c))) as Ho.
    { apply walkNeeds_ok; [|done|done|done|done]. intros need c0 Hin Hdep Hc0 Hsc.
      apply IH; [done|done|done| |done|done|rewrite length_app; simpl; lia].
      rewrite <- app_assoc. by apply chain_snoc. }
    destruct (walkNeeds _ _ _ _) as [c1|cyc|]; [|done|done].
    destruct Ho as (H1 & H2 & H3). split_and!.
    + split; intros y; rewrite colourOf_insert; case_decide as E.
      * subst. split; [done|]. intros Hin. by apply (so_grey _ _ Hs) in Hin; rewrite Hw in Hin.
      * rewrite (so_grey _ _ H1). set_solver.
      * subst. intros _. constructor. intros z Hz. apply (so_black _ _ H1), H3, Hz.
      * apply (so_black _ _ H1).
    + intros y Hy. rewrite colourOf_insert. case_decide as E; [done|]. apply H2.
      rewrite colourOf_insert. by case_decide.
    + intros y ->%list_elem_of_singleton. rewrite colourOf_insert. by case_decide.
Qed.

Lemma walkAll_ok ids c :
  ids ⊆ order p -> searchOK [] c ->
  outcome [] c ids (walkAll p (length (order p)) ids c).
Proof.
  revert c. induction ids as [|id ids IH]; intros c Hsub Hs; simpl.
  { split_and!; [done|done|]. by intros y ?%not_elem_of_nil. }
  assert (ids ⊆ order p) as Hsub' by set_solver.
  destruct (colourOf c id) eqn:E.
  - assert (outcome [] c [id] (walk p (length (order p)) id [] c)) as Ho.
    { apply walk_ok; [set_solver|done|done|done|set_solver|constructor|simpl; lia]. }
    destruct (walk p (length (order p)) id [] c) as [c1|cyc|]; [|done|done].
    destruct Ho as (H1 & H2 & H3). specialize (IH c1 Hsub' H1).
    destruct (walkAll _ _ _ _) as [c2|cyc|]; [|done|done].
    destruct IH as (I1 & I2 & I3). split_and!; [done|auto|].
    intros y [->|Hy]%elem_of_cons; [|auto]. apply I2, H3. left.
  - apply (so_grey _ _ Hs) in E. by apply not_elem_of_nil in E.
  - specialize (IH c Hsub' Hs). destruct (walkAll _ _ _ _) as [c2|cyc|]; [|done|done].
    destruct IH as (I1 & I2 & I3). split_and!; [done|done|].
    intros y [->|Hy]%elem_of_cons; auto.
Qed.

Lemma findCycle_spec :
  match findCycle p with
  | None => acyclic p
  | Some c => isCycle c /\ c ⊆ order p
  end.
Proof.
  unfold findCycle.
  assert (sortStrings (order p) ⊆ order p) as Hsub by (intros x; by rewrite elem_of_sortStrings).
  assert (searchOK [] ∅) as Hs0.
  { split; intros x; unfold colourOf, lookup_or; rewrite lookup_empty; simpl; [|done].
    split; [done|by intros ?%not_elem_of_nil]. }
  pose proof (walkAll_ok (sortStrings (order p)) ∅ Hsub Hs0) as Ho.
  destruct (walkAll _ _ _ _) as [c|cyc|]; [|done|done].
  destruct Ho as (H1 & _ & H3). intros id Hid. apply (so_black _ _ H1), H3.
  by rewrite elem_of_sortStrings.
Qed.
End Search.

(** ** What a valid plan is *)

Definition stagesOK (p : Plan) : Prop :=
  forall id need, id ∈ order p -> need ∈ needsOf p id ->
    (rank (stageOf p need) <= rank (stageOf p id))%nat.

Lemma pairs_nil {A B} (l : list A) (f : A -> list B) :
  (x ← l; y ← f x; [(x, y)]) = [] <-> forall x y, x ∈ l -> y ∉ f x.
Proof.
  split.
  - intros H x y Hx Hy. assert ((x, y) ∈ (x ← l; y ← f x; [(x, y)])) as Hin.
    { apply list_elem_of_bind. exists x. split; [|done].
      apply list_elem_of_bind. exists y. split; [left|done]. }
    rewrite H in Hin. by apply not_elem_of_nil in Hin.
  - intros H.
    destruct (x ← l; y ← f x; [(x, y)]) as [|[x y] r] eqn:E; [done|]. exfalso.
    assert ((x, y) ∈ (x ← l; y ← f x; [(x, y)])) as Hin by (rewrite E; left).
    apply list_elem_of_bind in Hin as (x' & Hin & Hx').
    apply list_elem_of_bind in Hin as (y' & Hin & Hy').
    apply list_elem_of_singleton in Hin. simplify_eq. by apply (H x' y').
Qed.

Lemma missingNeeds_nil p : wfPlan p -> missingNeeds p = [] <-> closed p.
Proof.
  intros Hwf. unfold missingNeeds. rewrite pairs_nil. split; intros H id nd Hid.
  - intros Hn. apply (wf_dom _ Hwf). specialize (H id nd Hid).
    rewrite list_elem_of_filter in H. destruct (steps p !! nd) eqn:E; [by eexists|].
    exfalso. by apply H.
  - rewrite list_elem_of_filter. intros [Hnone Hn]. specialize (H id nd Hid Hn).
    apply (wf_dom _ Hwf) in H as [s Hs]. congruence.
Qed.

Lemma stageViolations_nil p : stageViolations p = [] <-> stagesOK p.
Proof.
  unfold stageViolations. rewrite pairs_nil. split; intros H id nd Hid.
  - intros Hn. specialize (H id nd Hid). rewrite list_elem_of_filter in H.
    destruct (decide (rank (stageOf p id) < rank (stageOf p nd))%nat); [|lia]. by destruct H.
  - rewrite list_elem_of_filter. intros [Hlt Hn]. specialize (H id nd Hid Hn). lia.
Qed.

Lemma Validate_ok_iff p :
  wfPlan p -> Validate p = Ok tt <-> closed p /\ acyclic p /\ stagesOK p.
Proof.
  intros Hwf. unfold Validate.
  pose proof (missingNeeds_nil p Hwf) as Hm. pose proof (stageViolations_nil p) as Hst.
  destruct (missingNeeds p) as [|m ms] eqn:Em.
  2:{ split; [done|]. intros (Hc & _). by apply Hm in Hc. }
  assert (closed p) as Hc by by apply Hm. pose proof (findCycle_spec p Hc) as Hf.
  destruct (findCycle p) as [c|].
  - destruct Hf as [Hcy Hsub]. pose proof (isCycle_not_acyclic p Hc c Hcy Hsub) as Hna.
    split; [done|]. by intros (_ & Ha & _).
  - destruct (stageViolations p) as [|[id nd] r] eqn:Es.
    + split; [|done]. intros _. split_and!; [done|done|]. by apply Hst.
    + split; [done|]. intros (_ & _ & Hs). by apply Hst in Hs.
Qed.

Lemma Validate_cycle p c :
  wfPlan p -> Validate p = Err (PCycle c) -> isCycle p c /\ c ⊆ order p /\ ~ acyclic p.
Proof.
  intros Hwf. unfold Validate. pose proof (missingNeeds_nil p Hwf) as Hm.
  destruct (missingNeeds p) as [|m ms]; [|done].
  assert (closed p) as Hc by by apply Hm. pose proof (findCycle_spec p Hc) as Hf.
  destruct (findCycle p) as [c'|]; [|by destruct (stageViolations p) as [|[]]].
  destruct Hf as [Hcy Hsub]. intros [= <-]. by eauto using isCycle_not_acyclic.
Qed.

(** C39. [Validate] decides exactly what it promises: it accepts a plan if and
    only if every dependency exists, going down the dependencies always ends
    (there is no cycle), and no step depends on a later stage; and a cycle it
    reports is a real walk along dependencies that comes back to a step it
    visited. The depth-first search never runs out of its fuel, the number of
    steps. *)
Theorem validate_correct p :
  wfPlan p ->
  (Validate p = Ok tt <-> closed p /\ acyclic p /\ stagesOK p) /\
  (forall c, Validate p = Err (PCycle c) -> isCycle p c /\ c ⊆ order p /\ ~ acyclic p).
Proof. intros Hwf. split; [by apply Validate_ok_iff|]. intros c. by apply Validate_cycle. Qed.

(** ** Restriction keeps exactly what is needed *)

Lemma list_filter_all {A} (P : A -> Prop) `{!forall x, Decision (P x)} (l : list A) :
  (forall x, x ∈ l -> P x) -> filter P l = l.
Proof.
  induction l as [|x l IH]; intros Hl; [done|].
  rewrite filter_cons, decide_True by (apply Hl; left).
  f_equal. apply IH. intros y Hy. apply Hl. by right.
Qed.

Section Restriction.
Context (p : Plan) (Hwf : wfPlan p).

(** A dependency that exists; [Restrict] follows no other. *)
Definition edge (x y : string) : Prop := y ∈ needsOf p x /\ is_Some (steps p !! y).

Definition unkept (keep : gset string) : nat := size (list_to_set (order p) ∖ keep).

(** What marking one or several steps [ids] does to the set. *)
Record marks (ids : list string) (keep keep' : gset string) : Prop := {
  ma_mono : keep ⊆ keep';
  ma_ids : forall x, x ∈ ids -> x ∈ keep';
  ma_sound : forall x, x ∈ keep' -> x ∈ keep \/ exists y, y ∈ ids /\ rtc edge y x;
  ma_closed : forall x y, x ∈ keep' -> x ∉ keep -> edge x y -> y ∈ keep'
}.

Lemma marks_refl keep : marks [] keep keep.
Proof. split; [done|by intros x ?%not_elem_of_nil|by left|done]. Qed.

Lemma marks_trans ids ids' k1 k2 k3 :
  marks ids k1 k2 -> marks ids' k2 k3 -> marks (ids ++ ids') k1 k3.
Proof.
  intros [A1 B1 C1 D1] [A2 B2 C2 D2]. split.
  - set_solver.
  - intros x [Hx|Hx]%elem_of_app; [|by apply B2]. apply A2. by apply B1.
  - intros x Hx. destruct (C2 x Hx) as [Hk|(y & Hy & Hr)].
    + destruct (C1 x Hk) as [?|(y & Hy & Hr)]; [by left|]. right. exists y. set_solver.
    + right. exists y. set_solver.
  - intros x y Hx Hn He. destruct (decide (x ∈ k2)) as [H2|H2].
    + apply A2. by apply (D1 x).
    + by apply (D2 x).
Qed.

Lemma unkept_mono k k' : k ⊆ k' -> (unkept k' <= unkept k)%nat.
Proof. intros. unfold unkept. apply subseteq_size. set_solver. Qed.

Lemma unkept_add id k :
  id ∈ order p -> id ∉ k -> (unkept ({[id]} ∪ k) < unkept k)%nat.
Proof. intros. unfold unkept. apply subset_size. set_solver. Qed.

Lemma need_marks fuel id keep :
  id ∈ order p -> (unkept keep < fuel)%nat -> marks [id] keep (need p fuel id keep).
Proof.
  revert id keep. induction fuel as [|fuel IH]; intros id keep Hid Hfuel; [lia|]. simpl.
  case_decide as Hin.
  { split; [done| |by left|done]. by intros x ->%list_elem_of_singleton. }
  pose proof (unkept_add id keep Hid Hin) as Hlt.
  set (k1 := {[id]} ∪ keep) in *.
  set (step := fun keep dep => if decide (is_Some (steps p !! dep)) then need p fuel dep keep
                               else keep).
  assert (forall l k, k1 ⊆ k ->
    marks (filter (fun d => is_Some (steps p !! d)) l) k (fold_left step l k)) as Hloop.
  { induction l as [|d l IHl]; intros k Hk; simpl; [apply marks_refl|]. unfold step at 2.
    rewrite filter_cons. case_decide as Hd; [|by apply IHl].
    assert (marks [d] k (need p fuel d k)) as Hm.
    { apply IH; [by apply (wf_dom _ Hwf)|]. pose proof (unkept_mono k1 k Hk). lia. }
    apply (marks_trans [d] _ k (need p fuel d k)); [done|]. apply IHl.
    pose proof (ma_mono _ _ _ Hm). set_solver. }
  destruct (Hloop (needsOf p id) k1 ltac:(done)) as [A B C D].
  split.
  - set_solver.
  - intros x ->%list_elem_of_singleton. set_solver.
  - intros x Hx. destruct (C x Hx) as [Hk|(y & Hy & Hr)].
    + unfold k1 in Hk. apply elem_of_union in Hk as [->%elem_of_singleton|?]; [|by left].
      right. exists id. split; [left|apply rtc_refl].
    + right. exists id. split; [left|]. apply list_elem_of_filter in Hy as [Hs Hn].
      eapply rtc_l; [|exact Hr]. by split.
  - intros x y Hx Hn He. destruct (decide (x ∈ k1)) as [Hk|Hk]; [|by apply (D x)].
    assert (x = id) as -> by set_solver. apply B. destruct He as [H1 H2].
    by apply list_elem_of_filter.
Qed.

Lemma keepAll_marks ids keep :
  ids ⊆ order p -> marks ids keep (keepAll p (S (length (order p))) ids keep).
Proof.
  revert keep. induction ids as [|id ids IH]; intros keep Hsub; [apply marks_refl|]. simpl.
  apply (marks_trans [id] ids keep (need p (S (length (order p))) id keep)).
  - apply need_marks; [set_solver|]. unfold unkept.
    assert (size (list_to_set (C:=gset string) (order p) ∖ keep) <= length (order p))%nat;
      [|lia].
    rewrite <- (size_list_to_set (C:=gset string) (order p)) by apply (wf_nodup _ Hwf).
    apply subseteq_size. set_solver.
  - apply IH. set_solver.
Qed.

Lemma matching_order m : matching p m ⊆ order p.
Proof.
  intros x. unfold matching. rewrite list_elem_of_In, filter_In, <- list_elem_of_In. tauto.
Qed.

(** The kept set is the closure of the matching steps. *)
Lemma kept_set_spec m x :
  x ∈ kept_set p m <-> exists y, y ∈ matching p m /\ rtc edge y x.
Proof.
  destruct (keepAll_marks (matching p m) ∅ (matching_order m)) as [A B C D].
  fold (kept_set p m) in *. split.
  - intros Hx. destruct (C x Hx) as [?|?]; [set_solver|done].
  - intros (y & Hy & Hr). apply B in Hy. clear A B C.
    induction Hr as [z|z1 z2 z3 He _ IH]; [done|]. apply IH. apply (D z1); set_solver.
Qed.

Lemma kept_order m x : x ∈ kept_set p m -> x ∈ order p.
Proof.
  intros (y & Hy & Hr)%kept_set_spec. apply matching_order in Hy.
  induction Hr as [z|z1 z2 z3 [_ He] _ IH]; [done|]. apply IH. by apply (wf_dom _ Hwf).
Qed.

Lemma kept_down m x y : x ∈ kept_set p m -> edge x y -> y ∈ kept_set p m.
Proof.
  rewrite !kept_set_spec. intros (z & Hz & Hr) He. exists z. split; [done|].
  by eapply rtc_r.
Qed.

(** *** The rebuilt plan *)

Lemma restrict_fold keep ids done0 out :
  NoDup (done0 ++ ids) -> ids ⊆ order p ->
  order out = filter (fun id => id ∈ keep) done0 ->
  (forall id, steps out !! id = if decide (id ∈ done0 /\ id ∈ keep)
                                then narrow keep <$> steps p !! id else None) ->
  exists out',
    foldl (fun out id => out ← out; if decide (id ∈ keep)
             then s ← steps p !! id; Add (narrow keep s) out else Some out) (Some out) ids
      = Some out' /\
    order out' = filter (fun id => id ∈ keep) (done0 ++ ids) /\
    (forall id, steps out' !! id = if decide (id ∈ done0 ++ ids /\ id ∈ keep)
                                   then narrow keep <$> steps p !! id else None).
Proof.
  revert done0 out. induction ids as [|id ids IH]; intros done0 out Hnd Hsub Ho Hs.
  { rewrite app_nil_r. by exists out. }
  assert (id ∉ done0) as Hnew by (apply NoDup_app in Hnd as (_ & Hd & _); set_solver).
  replace (done0 ++ id :: ids) with ((done0 ++ [id]) ++ ids) in * by by rewrite <- app_assoc.
  simpl. case_decide as Hk.
  - destruct (steps p !! id) as [st|] eqn:Est.
    2:{ assert (id ∈ order p) as [? ?]%(wf_dom _ Hwf) by (apply Hsub; left). congruence. }
    destruct (wf_id _ Hwf id st Est) as [Hid Hne].
    simpl. unfold Add. simpl. rewrite Hid.
    rewrite decide_False by done. rewrite decide_False.
    2:{ rewrite Hs, decide_False by naive_solver. by intros []. }
    apply IH; [done|set_solver|simpl|].
    + rewrite filter_app, filter_cons, decide_True by done. by rewrite Ho.
    + intros id'. simpl. destruct (decide (id = id')) as [<-|Hne'].
      * rewrite lookup_insert_eq, decide_True, Est by set_solver. done.
      * rewrite lookup_insert_ne, Hs by done.
        destruct (decide (id' ∈ done0 /\ id' ∈ keep)), (decide (id' ∈ done0 ++ [id] /\ id' ∈ keep));
          set_solver.
  - apply IH; [done|set_solver| |].
    + rewrite filter_app, filter_cons, decide_False by done. by rewrite Ho, app_nil_r.
    + intros id'. rewrite Hs.
      destruct (decide (id' ∈ done0 /\ id' ∈ keep)), (decide (id' ∈ done0 ++ [id] /\ id' ∈ keep));
        set_solver.
Qed.

Lemma Restrict_spec m :
  exists p', Restrict p m = Some p' /\
    order p' = filter (fun id => id ∈ kept_set p m) (order p) /\
    (forall id, steps p' !! id = if decide (id ∈ kept_set p m)
                                 then narrow (kept_set p m) <$> steps p !! id else None).
Proof.
  destruct (restrict_fold (kept_set p m) (order p) [] New) as (p' & Hr & Ho & Hs).
  - apply (wf_nodup _ Hwf).
  - done.
  - done.
  - intros id. change (steps New !! id) with (@None Step).
    case_decide as H; [|done]. by destruct H as [?%not_elem_of_nil _].
  - exists p'. split; [done|]. split; [done|]. intros id. rewrite Hs. simpl.
    pose proof (kept_order m id).
    destruct (decide (id ∈ kept_set p m)); [|rewrite decide_False by tauto; done].
    by rewrite decide_True by auto.
Qed.

Lemma restricted_wf m p' :
  order p' = filter (fun id => id ∈ kept_set p m) (order p) ->
  (forall id, steps p' !! id = if decide (id ∈ kept_set p m)
                               then narrow (kept_set p m) <$> steps p !! id else None) ->
  wfPlan p'.
Proof.
  intros Ho Hs. split.
  - rewrite Ho. apply NoDup_filter, (wf_nodup _ Hwf).
  - intros id. rewrite Ho, list_elem_of_filter, Hs, (wf_dom _ Hwf). case_decide as Hk.
    + rewrite fmap_is_Some. tauto.
    + split; [tauto|by intros []].
  - intros id s. rewrite Hs. case_decide; [|done].
    rewrite fmap_Some. intros (s0 & H0 & ->). simpl. by apply (wf_id _ Hwf).
Qed.
End Restriction.

Lemma closed_edge p x y :
  wfPlan p -> closed p -> x ∈ order p -> (edge p x y <-> dep p y x).
Proof.
  intros Hwf Hc Hx. split; [by intros [? _]|]. intros Hd. split; [done|].
  apply (wf_dom _ Hwf). by apply (Hc x).
Qed.

(** A restricted closed plan leaves every step it keeps as it was. *)
Lemma restricted_steps p m p' id :
  wfPlan p -> closed p ->
  steps p' !! id = (if decide (id ∈ kept_set p m)
                    then narrow (kept_set p m) <$> steps p !! id else None) ->
  id ∈ kept_set p m -> steps p' !! id = steps p !! id.
Proof.
  intros Hwf Hc -> Hid. rewrite decide_True by done.
  destruct (steps p !! id) as [s|] eqn:E; [|done]. simpl. f_equal. destruct s. unfold narrow. simpl.
  f_equal. apply list_filter_all. intros y Hy.
  apply (kept_down p Hwf m id); [done|].
  apply closed_edge; [done|done|by apply (kept_order p Hwf m)|].
  unfold dep, needsOf. by rewrite E.
Qed.

(** Narrowing the work keeps the plan whole: restricting a valid plan
    never fails, keeps exactly the matching steps and everything they
    transitively need, in the same order, every kept step keeps all its
    dependencies and its other fields, and the result is again valid. *)
Theorem restrict_keeps_closure p m :
  wfPlan p -> Validate p = Ok tt ->
  exists p', Restrict p m = Some p' /\
    (forall x, x ∈ order p' <-> exists y, y ∈ matching p m /\ rtc (flip (dep p)) y x) /\
    order p' = filter (fun id => id ∈ order p') (order p) /\
    (forall id, id ∈ order p' -> steps p' !! id = steps p !! id) /\
    Validate p' = Ok tt.
Proof.
  intros Hwf HV. apply (Validate_ok_iff p Hwf) in HV as (Hc & Ha & Hst).
  destruct (Restrict_spec p Hwf m) as (p' & Hr & Ho & Hs).
  pose proof (restricted_wf p Hwf m p' Ho Hs) as Hwf'.
  assert (forall x, x ∈ order p' <-> x ∈ kept_set p m) as Hin.
  { intros x. rewrite Ho, list_elem_of_filter. pose proof (kept_order p Hwf m x). tauto. }
  pose proof (fun x y => closed_edge p x y Hwf Hc) as Hedge.
  assert (forall id, id ∈ order p' -> steps p' !! id = steps p !! id) as Hsame.
  { intros id Hid%Hin. by apply (restricted_steps p m). }
  assert (forall id, id ∈ order p' -> needsOf p' id = needsOf p id) as Hneeds.
  { intros id Hid. unfold needsOf. by rewrite Hsame. }
  assert (forall x y, dep p' y x -> dep p y x) as Hsub.
  { intros x y. unfold dep, needsOf. destruct (decide (x ∈ order p')) as [Hx|Hx].
    - by rewrite Hsame.
    - rewrite Hs. rewrite Hin in Hx. rewrite decide_False by done. by intros ?%not_elem_of_nil. }
  exists p'. split_and!; try done.
  - intros x. rewrite Hin, (kept_set_spec p Hwf). split; intros (y & Hy & Hr'); exists y;
      (split; [done|]); apply matching_order in Hy as Hyo.
    + clear Hy. induction Hr' as [|z1 z2 z3 He _ IH]; [apply rtc_refl|].
      apply (rtc_l _ z1 z2); [exact (proj1 (Hedge z1 z2 Hyo) He)|].
      apply IH. apply (Hc z1); [done|exact (proj1 (Hedge z1 z2 Hyo) He)].
    + clear Hy. induction Hr' as [|z1 z2 z3 He _ IH]; [apply rtc_refl|].
      apply (rtc_l _ z1 z2); [exact (proj2 (Hedge z1 z2 Hyo) He)|].
      apply IH. by apply (Hc z1).
  - rewrite Ho at 1. apply list_filter_iff. intros x. by rewrite Hin.
  - apply (Validate_ok_iff p' Hwf'). split_and!.
    + intros x y Hx Hy. rewrite Hneeds in Hy by done. apply Hin in Hx.
      apply Hin, (kept_down p Hwf m x); [done|]. apply Hedge; [by apply (kept_order p Hwf m)|done].
    + intros x Hx%Hin%(kept_order p Hwf m). eapply Acc_impl; [by apply Ha|]. intros y1 y2. apply Hsub.
    + intros x y Hx Hy. pose proof Hx as Hx'. rewrite Hneeds in Hy by done. unfold stageOf.
      rewrite !Hsame; [|done|].
      * apply Hst; [|done]. by apply (kept_order p Hwf m), Hin.
      * apply Hin, (kept_down p Hwf m x); [by apply Hin|].
        apply Hedge; [by apply (kept_order p Hwf m), Hin|done].
Qed.

(** ** Witnesses: a plan of three steps, and one with a cycle *)

Definition demoStep (id : string) (st : Stage) (needs : list string) : Step :=
  mkStep id st "as1" id needs false.
Definition planOf (l : list Step) : Plan :=
  default New (foldl (fun p s => p ← p; Add s p) (Some New) l).
Definition demoPlan : Plan :=
  planOf [demoStep "create" StageCreate []; demoStep "wire" StageWire ["create"];
          demoStep "spare" StageCreate []; demoStep "conf" StageConfigure ["wire"; "create"]].
Definition cyclicPlan : Plan :=
  planOf [demoStep "a" StageCreate ["b"]; demoStep "b" StageCreate ["c"];
          demoStep "c" StageCreate ["b"]].

Lemma wf_planOf l : wfPlan (planOf l).
Proof.
  unfold planOf. assert (forall l op, (forall q, op = Some q -> wfPlan q) ->
    forall q, foldl (fun p s => p ← p; Add s p) op l = Some q -> wfPlan q) as H.
  { induction l0 as [|s l0 IH]; intros op Hop q; simpl; [apply Hop|]. apply IH.
    intros q' Hq'. destruct op as [p0|]; [|done]. simpl in Hq'.
    apply (wf_Add s p0); [by apply Hop|done]. }
  destruct (foldl _ (Some New) l) as [q|] eqn:E; simpl; [|apply wf_New].
  apply (H l (Some New)); [|done]. intros q' [= <-]. apply wf_New.
Qed.

Lemma validate_correct_witness :
  Validate demoPlan = Ok tt /\ acyclic demoPlan /\
  Validate cyclicPlan = Err (PCycle ["a"; "b"; "c"; "b"]) /\ ~ acyclic cyclicPlan.
Proof.
  assert (Validate demoPlan = Ok tt) as H1 by (vm_compute; reflexivity).
  assert (Validate cyclicPlan = Err (PCycle ["a"; "b"; "c"; "b"])) as H2
    by (vm_compute; reflexivity).
  split; [exact H1|]. split.
  - exact (proj1 (proj2 (proj1 (proj1 (validate_correct demoPlan (wf_planOf _))) H1))).
  - split; [exact H2|].
    exact (proj2 (proj2 (proj2 (validate_correct cyclicPlan (wf_planOf _)) _ H2))).
Defined.

Definition onlyWire (s : Step) : bool := bool_decide (sStage s = StageWire).

Lemma restrict_keeps_closure_witness :
  exists p', Restrict demoPlan onlyWire = Some p' /\ order p' = ["create"; "wire"] /\
             Validate p' = Ok tt.
Proof.
  destruct (restrict_keeps_closure demoPlan onlyWire (wf_planOf _)
              ltac:(vm_compute; reflexivity)) as (p' & Hr & _ & _ & _ & HV).
  exists p'. split; [exact Hr|]. split; [|exact HV].
  assert (order <$> Restrict demoPlan onlyWire = Some ["create"; "wire"]) as H
    by (vm_compute; reflexivity).
  rewrite Hr in H. simpl in H. injection H as H. exact H.
Defined.
