(* ===== verification/PlanExec.v ===== *)
(** * Executing a plan: the bounded dependency scheduler

    Models [Execute] and [reportFromResults] of [internal/plan/plan.go]. The
    scheduler goroutine owns all the state; the workers and the context are
    the environment, whose choices (which running step reports next and with
    what result, and when the context is cancelled) are the events. *)

From stdpp Require Import base gmap strings list fin_maps sorting relations.
From Stdlib Require Import ZArith Lia.
From S2P Require Import Prelude Plan.

(** ** Data *)

(** [Result], by its step's ID; durations are not modelled. *)
Record Result := mkResult { rErr : option string; rSkipped : bool }.

(** [Options]; [optWorkers] is the number after the default was applied. *)
Record Options := mkOptions { optWorkers : nat; ContinueOnError : bool; DryRun : bool }.

Inductive stopReason :=
| StopContext
| StopStep (id err : string)
| StopDeadlock (pending : list string).

(** The scheduler's local variables. [running] names the steps that are in
    flight; the source keeps their number. *)
Record exec := mkExec {
  remaining : gmap string Z;
  ready : list string;
  running : list string;
  results : gmap string Result;
  failedScopes : gset string;
  failedSteps : gset string;
  stopped : option stopReason
}.

Inductive event :=
| EvCancel                      (** the context is done *)
| EvRun                         (** the loop runs up to its next wait *)
| EvDone (id : string) (r : Result). (** a worker reports *)

Section Execute.
Context (p : Plan) (opts : Options).

Definition stepScope (id : string) : string :=
  match steps p !! id with Some s => sScope s | None => "" end.
Definition stepOptional (id : string) : bool :=
  match steps p !! id with Some s => sOptional s | None => false end.

(** [dependents]: one entry per occurrence in [Needs]. *)
Definition dependents (need : string) : list string :=
  id ← order p; _ ← filter (fun n => n = need) (needsOf p id); [id].

(** The rank that [sort.SliceStable] orders the ready list by. *)
Definition position (id : string) : nat :=
  default 0%nat (fst <$> list_find (fun x => x = id) (order p)).
Definition byPosition (a b : string) : Prop := (position a <= position b)%nat.
#[local] Instance byPosition_dec : RelDecision byPosition :=
  fun a b => decide (position a <= position b)%nat.
Definition sortReady (l : list string) : list string := merge_sort byPosition l.

Definition initExec : exec :=
  let rem : gmap string Z := list_to_map (map (fun id => (id, Z.of_nat (length (needsOf p id)))) (order p)) in
  mkExec rem (filter (fun id => lookup_or 0%Z rem id = 0%Z) (order p)) [] ∅ ∅ ∅ None.

(** One iteration of the loop over [dependents]. *)
Definition release (st : gmap string Z * list string) (dep : string)
    : gmap string Z * list string :=
  let n := (lookup_or 0 st.1 dep - 1)%Z in
  (<[dep := n]> st.1, if decide (n = 0%Z) then st.2 ++ [dep] else st.2).

Definition failedHard (id : string) (r : Result) : bool :=
  bool_decide (is_Some (rErr r)) && negb (rSkipped r) && negb (stepOptional id).

Definition scopeOrLab (id : string) : string :=
  if decide (stepScope id = "") then "lab" else stepScope id.

(** [settle]. *)
Definition settle (id : string) (r : Result) (skippedByFailure : bool) (st : exec) : exec :=
  let '(rem, rdy) := fold_left release (dependents id) (remaining st, ready st) in
  mkExec rem (sortReady rdy) (running st) (<[id := r]> (results st))
    (if failedHard id r then {[scopeOrLab id]} ∪ failedScopes st else failedScopes st)
    (if skippedByFailure || failedHard id r then {[id]} ∪ failedSteps st
     else failedSteps st)
    (stopped st).

(** [skip]: the result of a step that must not run, and whether a failure
    blocked it. *)
Definition skip (st : exec) (id : string) : option (Result * bool) :=
  if DryRun opts then Some (mkResult None true, false)
  else if negb (bool_decide (stepScope id = "")) && bool_decide (stepScope id ∈ failedScopes st)
  then Some (mkResult None true, true)
  else match filter (fun need => need ∈ failedSteps st) (needsOf p id) with
       | need :: _ =>
           Some (mkResult (Some ("skipped: its prerequisite " +:+ need +:+ " failed")) true,
                 true)
       | [] => None
       end.

Definition with_ready (l : list string) (st : exec) : exec :=
  mkExec (remaining st) l (running st) (results st) (failedScopes st) (failedSteps st)
    (stopped st).
Definition with_running (l : list string) (st : exec) : exec :=
  mkExec (remaining st) (ready st) l (results st) (failedScopes st) (failedSteps st)
    (stopped st).
Definition stop (why : stopReason) (st : exec) : exec :=
  mkExec (remaining st) (ready st) (running st) (results st) (failedScopes st)
    (failedSteps st) (Some why).

Definition pending (st : exec) : list string :=
  filter (fun id => results st !! id = None) (order p).

(** The loop condition. *)
Definition finished (st : exec) : bool :=
  bool_decide (is_Some (stopped st)) || Nat.leb (Len p) (size (results st)).

(** The loop waits for a worker: the head of the ready list may run but the
    pool is full, or nothing is ready and something is running. *)
Definition waiting (st : exec) : bool :=
  negb (bool_decide (running st = [])) &&
  match ready st with
  | [] => true
  | id :: _ => match skip st id with
               | Some _ => false
               | None => Nat.leb (optWorkers opts) (length (running st))
               end
  end.

(** One iteration; [None] when the event cannot happen now. *)
Definition advance (ev : event) (st : exec) : option exec :=
  if finished st then None else
  match ev with
  | EvCancel => Some (stop StopContext st)
  | EvRun =>
      match ready st with
      | id :: rest =>
          match skip st id with
          | Some (r, blocked) => Some (settle id r blocked (with_ready rest st))
          | None =>
              if Nat.ltb (length (running st)) (optWorkers opts)
              then Some (with_running (id :: running st) (with_ready rest st))
              else None
          end
      | [] => if decide (running st = []) then Some (stop (StopDeadlock (pending st)) st)
              else None
      end
  | EvDone id r =>
      if waiting st && bool_decide (id ∈ running st) then
        let st' := settle id r false
                     (with_running (filter (fun x => x <> id) (running st)) st) in
        Some (match rErr r with
              | Some e => if negb (stepOptional id) && negb (ContinueOnError opts)
                          then stop (StopStep id e) st' else st'
              | None => st'
              end)
      else None
  end.

Inductive reachable : nat -> exec -> Prop :=
| reachable_init : reachable 0 initExec
| reachable_advance n ev st st' :
    reachable n st -> advance ev st = Some st' -> reachable (S n) st'.

(** ** The report *)

Record Report := mkReport {
  repResults : list (string * Result);
  ScopeErrors : gmap string (list (string * string))
}.

(** The loop body of [reportFromResults] for [ScopeErrors]. *)
Definition noteError (res : gmap string Result) (m : gmap string (list (string * string)))
    (id : string) : gmap string (list (string * string)) :=
  match res !! id with
  | Some r =>
      match rErr r with
      | Some e => if failedHard id r
                  then <[scopeOrLab id := lookup_or [] m (scopeOrLab id) ++ [(id, e)]]> m
                  else m
      | None => m
      end
  | None => m
  end.

(** [reportFromResults]: in plan order, not in completion order. *)
Definition reportFromResults (res : gmap string Result) : Report :=
  mkReport (omap (fun id => r ← res !! id; Some (id, r)) (order p))
    (fold_left (noteError res) (order p) ∅).

(** [Failed], [FailedScopes], [Completed], [Planned] and [Done]. *)
Definition Failed (r : Report) : bool := Nat.ltb 0 (size (ScopeErrors r)).
Definition FailedScopes (r : Report) : list string :=
  sortStrings (map fst (map_to_list (ScopeErrors r))).
Definition succeeded (r : Result) : bool := negb (rSkipped r) && negb (bool_decide (is_Some (rErr r))).
Definition Planned (st : Stage) (r : Report) : nat :=
  length (List.filter (fun '(id, _) => bool_decide (stageOf p id = st)) (repResults r)).
Definition Completed (st : Stage) (r : Report) : nat :=
  length (List.filter (fun '(id, res) => bool_decide (stageOf p id = st) && succeeded res)
            (repResults r)).
Definition Done (r : Report) : nat :=
  length (List.filter (fun '(_, res) => succeeded res) (repResults r)).
End Execute.

(** ** The invariant of the scheduler *)

Lemma list_filter_iff' {A} (P : A -> Prop) `{!forall x, Decision (P x)}
    (Q : A -> Prop) `{!forall x, Decision (Q x)} (l : list A) :
  (forall x, x ∈ l -> (P x <-> Q x)) -> filter P l = filter Q l.
Proof.
  induction l as [|x l IH]; intros Hl; [done|].
  assert (filter P l = filter Q l) as Heq by (apply IH; intros y Hy; apply Hl; by right).
  assert (P x <-> Q x) as Hx by (apply Hl; left).
  rewrite !filter_cons, Heq. by do 2 case_decide; [|tauto|tauto|] || tauto.
Qed.

Section Invariant.
Context (p : Plan) (opts : Options) (Hwf : wfPlan p) (Hclosed : closed p).

(** The prerequisites of a step that have not settled yet, counted as
    [Needs] lists them. *)
Definition unsettled (res : gmap string Result) (id : string) : nat :=
  length (filter (fun n => res !! n = None) (needsOf p id)).

Record execOK (st : exec) : Prop := {
  eo_remaining id : id ∈ order p ->
    lookup_or 0%Z (remaining st) id = Z.of_nat (unsettled (results st) id);
  eo_nodup : NoDup (ready st ++ running st);
  eo_active id : id ∈ ready st ++ running st ->
    id ∈ order p /\ results st !! id = None /\ unsettled (results st) id = 0%nat;
  eo_blocked id : id ∈ order p -> results st !! id = None -> id ∉ ready st ++ running st ->
    (0 < unsettled (results st) id)%nat;
  eo_settled id r : results st !! id = Some r ->
    id ∈ order p /\ unsettled (results st) id = 0%nat;
  eo_failed id : id ∈ failedSteps st -> is_Some (results st !! id);
  eo_hard id r : results st !! id = Some r -> failedHard p id r = true -> id ∈ failedSteps st;
  eo_pool : (length (running st) <= optWorkers opts)%nat;
  eo_ran id n : id ∈ running st \/ (exists r, results st !! id = Some r /\ rSkipped r = false) ->
    n ∈ needsOf p id -> n ∉ failedSteps st;
  eo_scopes sc : sc ∈ failedScopes st <->
    exists id r, results st !! id = Some r /\ failedHard p id r = true /\ scopeOrLab p id = sc
}.

(** *** The bookkeeping loop *)

Definition occ (id x : string) : nat := length (filter (fun n => n = id) (needsOf p x)).

Lemma bind_const {A B} (l : list A) (x : B) : (_ ← l; [x]) = replicate (length l) x.
Proof. induction l as [|a l IH]; [done|]. csimpl. by rewrite IH. Qed.

Lemma dependents_eq id : dependents p id = (x ← order p; replicate (occ id x) x).
Proof.
  unfold dependents, occ. induction (order p) as [|x l IH]; [done|]. csimpl.
  by rewrite bind_const, IH.
Qed.

Lemma lookup_or_insert {V} (d v : V) (m : gmap string V) x y :
  lookup_or d (<[x := v]> m) y = if decide (x = y) then v else lookup_or d m y.
Proof.
  unfold lookup_or. case_decide as H; [subst; by rewrite lookup_insert_eq|].
  by rewrite lookup_insert_ne.
Qed.

Lemma release_many k x rem rdy :
  (Z.of_nat k <= lookup_or 0 rem x)%Z ->
  let st := fold_left release (replicate k x) (rem, rdy) in
  (forall y, lookup_or 0%Z st.1 y = if decide (x = y) then (lookup_or 0 rem x - Z.of_nat k)%Z
                                    else lookup_or 0%Z rem y) /\
  st.2 = rdy ++ (if decide ((0 < k)%nat /\ lookup_or 0%Z rem x = Z.of_nat k) then [x] else []).
Proof.
  revert rem rdy. induction k as [|k IH]; intros rem rdy Hk; simpl.
  { split; [|symmetry; apply app_nil_r].
    intros y. case_decide; [subst; lia|done]. }
  set (n := lookup_or 0%Z rem x) in *.
  change (release (rem, rdy) x) with
    (<[x := (n - 1)%Z]> rem, if decide ((n - 1)%Z = 0%Z) then rdy ++ [x] else rdy).
  specialize (IH (<[x := (n - 1)%Z]> rem) (if decide (n - 1 = 0)%Z then rdy ++ [x] else rdy)).
  rewrite lookup_or_insert, decide_True in IH by done.
  destruct IH as [H1 H2]; [lia|]. split.
  - intros y. rewrite H1, lookup_or_insert. destruct (decide (x = y)); [lia|done].
  - rewrite H2. clear H1 H2. repeat case_decide; try lia; by rewrite ?app_nil_r.
Qed.

Lemma release_all id l rem rdy :
  NoDup l -> (forall x, x ∈ l -> (Z.of_nat (occ id x) <= lookup_or 0 rem x)%Z) ->
  let st := fold_left release (x ← l; replicate (occ id x) x) (rem, rdy) in
  (forall y, lookup_or 0%Z st.1 y =
     if decide (y ∈ l) then (lookup_or 0 rem y - Z.of_nat (occ id y))%Z
     else lookup_or 0%Z rem y) /\
  st.2 = rdy ++ filter (fun x => (0 < occ id x)%nat /\ lookup_or 0%Z rem x = Z.of_nat (occ id x)) l.
Proof.
  revert rem rdy. induction l as [|x l IH]; intros rem rdy Hnd Hle.
  { simpl. split; [|by rewrite app_nil_r]. intros y.
    destruct (decide (y ∈ [])) as [H|]; [|done]. by apply not_elem_of_nil in H. }
  apply NoDup_cons in Hnd as [Hx Hnd]. csimpl. rewrite fold_left_app.
  destruct (release_many (occ id x) x rem rdy) as [R1 R2]; [apply Hle; left|].
  set (st := fold_left release (replicate (occ id x) x) (rem, rdy)) in *.
  destruct st as [rem1 rdy1]. simpl in R1, R2.
  assert (forall y, y ∈ l -> lookup_or 0%Z rem1 y = lookup_or 0%Z rem y) as Hsame.
  { intros y Hy. rewrite R1. destruct (decide (x = y)); [by subst|done]. }
  destruct (IH rem1 rdy1 Hnd) as [I1 I2].
  { intros y Hy. rewrite Hsame by done. apply Hle. by right. }
  split.
  - intros y. rewrite I1, R1. destruct (decide (y ∈ l)) as [Hy|Hy].
    + rewrite (decide_True (P := y ∈ x :: l)) by (by right).
      destruct (decide (x = y)); [subst; done|done].
    + destruct (decide (x = y)) as [->|Hne].
      * rewrite (decide_True (P := y ∈ y :: l)) by left. done.
      * rewrite (decide_False (P := y ∈ x :: l)); [done|]. set_solver.
  - rewrite I2, R2, <- app_assoc. f_equal. rewrite filter_cons.
    assert (filter (fun y => (0 < occ id y)%nat /\ lookup_or 0%Z rem1 y = Z.of_nat (occ id y)) l =
            filter (fun y => (0 < occ id y)%nat /\ lookup_or 0%Z rem y = Z.of_nat (occ id y)) l) as ->.
    { apply list_filter_iff'. intros y Hy. by rewrite Hsame. }
    by case_decide.
Qed.

(** Settling a step lowers the count of every step that needs it. *)
Lemma unsettled_settle res id r x :
  res !! id = None ->
  (unsettled (<[id := r]> res) x + occ id x = unsettled res x)%nat.
Proof.
  intros Hid. unfold unsettled, occ. induction (needsOf p x) as [|n l IH]; [done|].
  rewrite !filter_cons. destruct (decide (n = id)) as [->|Hne].
  - rewrite lookup_insert_eq. rewrite decide_False by done. rewrite (decide_True (P:=res !! id = None)) by done.
    simpl. lia.
  - rewrite lookup_insert_ne by done. destruct (decide (res !! n = None)); simpl; lia.
Qed.

Lemma sortReady_perm l : sortReady p l ≡ₚ l.
Proof. apply merge_sort_Permutation. Qed.

(** A step about to settle: it is active no more ([rdy] and [rng] are the
    lists without it), and its own prerequisites have settled. *)
Section Settle.
Context (id : string) (r : Result) (b : bool) (rdy rng : list string) (st : exec).
Context (HI : execOK st) (Hid : id ∈ order p) (Hres : results st !! id = None).
Context (Hun : unsettled (results st) id = 0%nat).
Context (Hact : forall x, x ∈ rdy ++ rng <-> x ∈ ready st ++ running st /\ x <> id).
Context (Hnd : NoDup (rdy ++ rng)) (Hpool : (length rng <= optWorkers opts)%nat).
Context (Hrng : forall x, x ∈ rng -> x ∈ running st).
Context (Hran : rSkipped r = false -> forall n, n ∈ needsOf p id -> n ∉ failedSteps st).

Let res' := <[id := r]> (results st).
Let st' := settle p id r b (with_running rng (with_ready rdy st)).

(** The steps that become ready. *)
Definition newly : list string :=
  filter (fun x => (0 < occ id x)%nat /\
                   lookup_or 0%Z (remaining st) x = Z.of_nat (occ id x)) (order p).

Lemma settle_count x : (unsettled res' x + occ id x = unsettled (results st) x)%nat.
Proof. by apply unsettled_settle. Qed.

Lemma settle_shape :
  (forall y, y ∈ order p ->
     lookup_or 0%Z (remaining st') y = Z.of_nat (unsettled res' y)) /\
  ready st' ≡ₚ rdy ++ newly /\ running st' = rng /\ results st' = res' /\
  failedScopes st' = (if failedHard p id r then {[scopeOrLab p id]} ∪ failedScopes st
                      else failedScopes st) /\
  failedSteps st' = (if b || failedHard p id r then {[id]} ∪ failedSteps st
                     else failedSteps st).
Proof.
  unfold st', settle. simpl. rewrite dependents_eq.
  destruct (release_all id (order p) (remaining st) rdy) as [R1 R2].
  { apply (wf_nodup _ Hwf). }
  { intros x Hx. rewrite (eo_remaining _ HI) by done. pose proof (settle_count x). lia. }
  destruct (fold_left release _ _) as [rem rdy']. simpl in R1, R2 |- *.
  split_and!; try done.
  - intros y Hy. rewrite R1, decide_True, (eo_remaining _ HI) by done.
    pose proof (settle_count y). lia.
  - by rewrite sortReady_perm, R2.
Qed.

Lemma elem_of_newly x :
  x ∈ newly <-> x ∈ order p /\ (0 < occ id x)%nat /\ unsettled res' x = 0%nat.
Proof.
  unfold newly. rewrite list_elem_of_filter. pose proof (settle_count x).
  split; [intros [[H1 H2] Hx]|intros (Hx & H1 & H2)];
    rewrite (eo_remaining _ HI) in * by done; split_and!; lia || done.
Qed.

Lemma newly_fresh x :
  x ∈ newly -> x ∉ ready st ++ running st /\ results st !! x = None /\ x <> id.
Proof.
  intros (Hx & Ho & Hu)%elem_of_newly. pose proof (settle_count x) as Hc. split_and!.
  - intros (_ & _ & Hz)%(eo_active _ HI). lia.
  - destruct (results st !! x) as [rx|] eqn:Ex; [|done].
    destruct (eo_settled _ HI _ _ Ex). lia.
  - intros ->. lia.
Qed.

Lemma settle_active x : x ∈ ready st' ++ running st' <-> x ∈ rdy ++ rng \/ x ∈ newly.
Proof.
  destruct settle_shape as (_ & Hr & Hg & _). rewrite Hr, Hg, !elem_of_app. tauto.
Qed.

(** Every step that needs [id] was waiting for it. *)
Lemma needs_id_unsettled x : id ∈ needsOf p x -> (0 < unsettled (results st) x)%nat.
Proof.
  intros Hn. unfold unsettled.
  assert (id ∈ filter (fun n => results st !! n = None) (needsOf p x)) as Hin
    by by apply list_elem_of_filter.
  destruct (filter _ (needsOf p x)); [by apply not_elem_of_nil in Hin|simpl; lia].
Qed.

Lemma settle_ran x n :
  x ∈ running st' \/ (exists r0, results st' !! x = Some r0 /\ rSkipped r0 = false) ->
  n ∈ needsOf p x -> n ∉ failedSteps st'.
Proof.
  destruct settle_shape as (_ & _ & Hg & Hrs & _ & Hfs). rewrite Hg, Hrs, Hfs.
  intros Hx Hn Hfail.
  assert (x ∈ running st \/ (exists r0, results st !! x = Some r0 /\ rSkipped r0 = false) \/
          (x = id /\ rSkipped r = false)) as Hcase.
  { destruct Hx as [Hx|(rx & Hx & Hs)]; [left; by apply Hrng|]. right. unfold res' in Hx.
    destruct (decide (x = id)) as [->|]; [rewrite lookup_insert_eq in Hx|
      rewrite lookup_insert_ne in Hx by done]; simplify_eq; eauto. }
  assert (n <> id) as Hnid.
  { intros ->. pose proof (needs_id_unsettled x Hn).
    destruct Hcase as [Hc|[(r0 & Hc & _)|[-> _]]].
    - assert (x ∈ ready st ++ running st) as (_ & _ & Hz)%(eo_active _ HI) by set_solver. lia.
    - destruct (eo_settled _ HI _ _ Hc). lia.
    - lia. }
  assert (n ∈ failedSteps st) as Hn' by (destruct (b || failedHard p id r); set_solver).
  destruct Hcase as [Hc|[Hc|[-> Hs]]].
  - by apply (eo_ran _ HI x n); [left| |].
  - by apply (eo_ran _ HI x n); [right| |].
  - by apply (Hran Hs n).
Qed.

Lemma settle_scopes sc :
  sc ∈ failedScopes st' <->
  exists x rx, results st' !! x = Some rx /\ failedHard p x rx = true /\ scopeOrLab p x = sc.
Proof.
  destruct settle_shape as (_ & _ & _ & -> & -> & _). unfold res'.
  destruct (failedHard p id r) eqn:Ef'.
  - rewrite elem_of_union, elem_of_singleton, (eo_scopes _ HI). split.
    + intros [->|(x & rx & Hx & Hf & Hs)]; [exists id, r; by rewrite lookup_insert_eq|].
      exists x, rx. rewrite lookup_insert_ne; [done|]. intros ->. congruence.
    + intros (x & rx & Hx & Hf & Hs). destruct (decide (x = id)) as [->|]; [by left|].
      rewrite lookup_insert_ne in Hx by done. right. eauto.
  - rewrite (eo_scopes _ HI). split; intros (x & rx & Hx & Hf & Hs); exists x, rx.
    + rewrite lookup_insert_ne; [done|]. intros ->. congruence.
    + destruct (decide (x = id)) as [->|]; [rewrite lookup_insert_eq in Hx; congruence|].
      by rewrite lookup_insert_ne in Hx.
Qed.

Lemma settle_ok : execOK st'.
Proof.
  destruct settle_shape as (Hrem & Hrdy & Hg & Hrs & _ & Hfs).
  split; [..|exact settle_ran|exact settle_scopes].
  - intros x Hx. by rewrite Hrem, Hrs.
  - rewrite Hrdy, Hg, <- app_assoc, (Permutation_app_comm newly rng), app_assoc.
    apply NoDup_app. split_and!; [done| |apply NoDup_filter, (wf_nodup _ Hwf)].
    intros x Hx%Hact Hn%newly_fresh. tauto.
  - rewrite Hrs. intros x [Hx|Hx]%settle_active.
    + apply Hact in Hx as [Hx Hxne]. apply (eo_active _ HI) in Hx as (H1 & H2 & H3).
      unfold res' at 1. rewrite lookup_insert_ne by done.
      pose proof (settle_count x). split_and!; [done|done|lia].
    + pose proof (newly_fresh x Hx) as (_ & Hn & Hne). apply elem_of_newly in Hx as (H1 & _ & H3).
      unfold res' at 1. by rewrite lookup_insert_ne.
  - rewrite Hrs. intros x Hx Hnone Hout. unfold res' in Hnone at 1.
    destruct (decide (x = id)) as [->|Hxid]; [by rewrite lookup_insert_eq in Hnone|].
    rewrite lookup_insert_ne in Hnone by done. rewrite settle_active in Hout.
    destruct (decide (unsettled res' x = 0%nat)) as [Hz|]; [|lia]. exfalso. apply Hout.
    destruct (decide (0 < occ id x)%nat) as [Ho|Ho]; [by right; apply elem_of_newly|].
    left. apply Hact. split; [|done].
    destruct (decide (x ∈ ready st ++ running st)) as [|n]; [done|].
    pose proof (eo_blocked _ HI x Hx Hnone n). pose proof (settle_count x). lia.
  - rewrite Hrs. intros x rx Hx. pose proof (settle_count x) as Hc. unfold res' in Hx.
    destruct (decide (x = id)) as [->|Hxid]; [split; [done|lia]|].
    rewrite lookup_insert_ne in Hx by done. destruct (eo_settled _ HI _ _ Hx). split; [done|lia].
  - rewrite Hrs, Hfs. unfold res'. intros x Hx. destruct (decide (x = id)) as [->|Hxid];
      [rewrite lookup_insert_eq; by eexists|]. rewrite lookup_insert_ne by done.
    apply (eo_failed _ HI). destruct (b || failedHard p id r); set_solver.
  - rewrite Hrs, Hfs. unfold res'. intros x rx Hx Hf. destruct (decide (x = id)) as [->|Hxid].
    + rewrite lookup_insert_eq in Hx. injection Hx as <-. rewrite Hf, orb_true_r. set_solver.
    + rewrite lookup_insert_ne in Hx by done. pose proof (eo_hard _ HI _ _ Hx Hf).
      destruct (b || failedHard p id r); set_solver.
  - by rewrite Hg.
Qed.
End Settle.

Lemma init_ok : execOK (initExec p).
Proof.
  unfold initExec. set (rem := list_to_map _ : gmap string Z).
  assert (forall id, id ∈ order p -> lookup_or 0%Z rem id = Z.of_nat (length (needsOf p id))) as Hrem.
  { intros id Hid. unfold lookup_or, rem.
    rewrite (elem_of_list_to_map_1 _ id (Z.of_nat (length (needsOf p id)))); [done| |].
    - rewrite <- list_fmap_compose. simpl. rewrite list_fmap_id. apply (wf_nodup _ Hwf).
    - apply list_elem_of_fmap. by exists id. }
  assert (forall id, unsettled ∅ id = length (needsOf p id)) as Hall.
  { intros id. unfold unsettled. f_equal. apply list_filter_all. intros n _. apply lookup_empty. }
  split; simpl; rewrite ?app_nil_r.
  - intros id Hid. by rewrite Hrem, Hall.
  - apply NoDup_filter, (wf_nodup _ Hwf).
  - intros id [Hz Hid]%list_elem_of_filter. rewrite Hrem in Hz by done.
    split_and!; [done|apply lookup_empty|rewrite Hall; lia].
  - intros id Hid _ Hn. rewrite Hall. rewrite list_elem_of_filter, Hrem in Hn by done.
    destruct (length (needsOf p id)); [|lia]. exfalso. by apply Hn.
  - intros id r. by rewrite lookup_empty.
  - intros id. set_solver.
  - intros id r. by rewrite lookup_empty.
  - lia.
  - intros id n _ _. set_solver.
  - intros sc. split; [set_solver|]. intros (id & r & Hr & _). by rewrite lookup_empty in Hr.
Qed.

(** Stopping changes nothing the invariant speaks of. *)
Lemma stop_ok why st : execOK st -> execOK (stop why st).
Proof. intros [A B C D E F F' G H K]. by split. Qed.

Lemma skip_none st id n : skip p opts st id = None -> n ∈ needsOf p id -> n ∉ failedSteps st.
Proof.
  unfold skip. destruct (DryRun opts); [done|]. destruct (_ && _); [done|].
  destruct (filter _ (needsOf p id)) as [|x l] eqn:E; [|done]. intros _ Hn Hf.
  assert (n ∈ filter (fun need => need ∈ failedSteps st) (needsOf p id)) as Hin
    by by apply list_elem_of_filter. rewrite E in Hin. by apply not_elem_of_nil in Hin.
Qed.

Lemma skip_some st id r b : skip p opts st id = Some (r, b) -> rSkipped r = true.
Proof.
  unfold skip. destruct (DryRun opts); [by intros [= <- _]|].
  destruct (_ && _); [by intros [= <- _]|].
  destruct (filter _ (needsOf p id)); [done|by intros [= <- _]].
Qed.

Lemma NoDup_remove_filter (l : list string) x :
  NoDup l -> x ∈ l -> S (length (filter (fun y => y <> x) l)) = length l.
Proof.
  induction 1 as [|y l Hy Hl IH]; [by intros ?%not_elem_of_nil|].
  intros Hx. rewrite filter_cons. destruct (decide (y = x)) as [->|Hne].
  - rewrite decide_False by (by intros H). simpl. f_equal. f_equal. apply list_filter_all.
    intros z Hz ->. done.
  - rewrite decide_True by done. simpl. f_equal. apply IH. set_solver.
Qed.

(** The three ways an iteration goes on. *)
Inductive moved (st : exec) : exec -> Prop :=
| moved_skip id rest r b : ready st = id :: rest -> rSkipped r = true ->
    moved st (settle p id r b (with_running (running st) (with_ready rest st)))
| moved_dispatch id rest : ready st = id :: rest -> skip p opts st id = None ->
    (length (running st) < optWorkers opts)%nat ->
    moved st (with_running (id :: running st) (with_ready rest st))
| moved_done id r : id ∈ running st ->
    moved st (settle p id r false
      (with_running (filter (fun x => x <> id) (running st)) (with_ready (ready st) st))).

Lemma advance_cases ev st st' :
  advance p opts ev st = Some st' ->
  finished p st = false /\
  (moved st st' \/
   (exists st1 why, moved st st1 /\ st' = stop why st1 /\
      (forall l, why <> StopDeadlock l)) \/
   st' = stop StopContext st \/
   (st' = stop (StopDeadlock (pending p st)) st /\ ready st = [] /\ running st = [])).
Proof.
  unfold advance. destruct (finished p st) eqn:Hf; [done|]. intros H. split; [done|].
  destruct ev as [| |id r].
  - injection H as <-. tauto.
  - destruct (ready st) as [|id rest] eqn:Er.
    + case_decide as Hr; [|done]. injection H as <-. do 3 right. done.
    + destruct (skip p opts st id) as [[r b]|] eqn:Es.
      * injection H as <-. left. apply (moved_skip st id rest r b); [done|].
        by apply (skip_some st id r b).
      * destruct (Nat.ltb_spec (length (running st)) (optWorkers opts)); [|done].
        injection H as <-. left. by apply (moved_dispatch st id rest).
  - destruct (waiting p opts st && bool_decide (id ∈ running st)) eqn:Hw; [|done].
    apply andb_true_iff in Hw as [_ Hin%bool_decide_eq_true].
    pose proof (moved_done st id r Hin) as Hm. injection H as <-.
    destruct (rErr r) as [e|]; [|by left]. destruct (_ && _); [|by left].
    right. left. eexists _, (StopStep id e). split; [exact Hm|done].
Qed.

Lemma moved_ok st st' : execOK st -> moved st st' -> execOK st'.
Proof.
  intros HI Hm. pose proof (eo_nodup _ HI) as Hnd.
  destruct Hm as [id rest r b Er Hs|id rest Er Hs Hlt|id r Hin].
  - rewrite Er in Hnd. simpl in Hnd. apply NoDup_cons in Hnd as [Hn Hnd].
    assert (id ∈ ready st ++ running st) as Ha by (rewrite Er; left).
    destruct (eo_active _ HI id Ha) as (H1 & H2 & H3).
    apply settle_ok; try done; [|by apply (eo_pool _ HI)|by rewrite Hs].
    intros x. rewrite Er. simpl. rewrite elem_of_cons. split; [|naive_solver].
    intros Hx. split; [by right|]. by intros ->.
  - assert (ready st ++ running st ≡ₚ rest ++ id :: running st) as HP.
    { rewrite Er. simpl. by rewrite Permutation_middle. }
    destruct HI as [A B C D E F F' G H K]. split; simpl; try done.
    + by rewrite <- HP.
    + intros x. rewrite <- HP. apply C.
    + intros x. rewrite <- HP. apply D.
    + intros x n [[->|Hx]%elem_of_cons|Hx] Hn.
      * by apply (skip_none st id n).
      * apply (H x n); auto.
      * apply (H x n); auto.
  - assert (id ∈ ready st ++ running st) as Ha by set_solver.
    destruct (eo_active _ HI id Ha) as (H1 & H2 & H3).
    apply settle_ok; try done.
    + intros x. rewrite !elem_of_app, list_elem_of_filter. apply NoDup_app in Hnd as (_ & Hd & _).
      split; [|naive_solver]. intros [Hx|[? ?]]; [|tauto]. split; [by left|].
      intros ->. by apply (Hd id).
    + apply NoDup_app in Hnd as (Hd1 & Hd2 & Hd3). apply NoDup_app. split_and!; [done| |].
      * intros x Hx [_ Hf]%list_elem_of_filter. by apply (Hd2 x).
      * by apply NoDup_filter.
    + pose proof (eo_pool _ HI). pose proof (length_filter (fun x => x <> id) (running st)). lia.
    + by intros x [_ ?]%list_elem_of_filter.
    + intros _ n Hn. apply (eo_ran _ HI id n); auto.
Qed.

Lemma reachable_ok n st : reachable p opts n st -> execOK st.
Proof.
  induction 1 as [|n ev st st' _ IH Ha]; [apply init_ok|].
  apply advance_cases in Ha as (_ & [Hm|[(st1 & why & Hm & -> & _)|[->|[-> _]]]]).
  - by apply (moved_ok st).
  - apply stop_ok. by apply (moved_ok st).
  - by apply stop_ok.
  - by apply stop_ok.
Qed.

(** *** Progress *)

Lemma Len_order : Len p = length (order p).
Proof.
  unfold Len. rewrite <- (size_dom (D:=gset string)).
  assert (dom (steps p) = list_to_set (order p)) as ->.
  { apply set_eq. intros x. rewrite elem_of_dom, elem_of_list_to_set. symmetry.
    apply (wf_dom _ Hwf). }
  apply size_list_to_set, (wf_nodup _ Hwf).
Qed.

Lemma active_bound st :
  execOK st -> (size (results st) + length (running st) <= length (order p))%nat.
Proof.
  intros HI.
  assert (NoDup ((map_to_list (results st)).*1 ++ running st)) as Hnd.
  { apply NoDup_app. split_and!; [apply NoDup_fst_map_to_list| |].
    - intros x Hx Hr. apply list_elem_of_fmap in Hx as ([y ry] & -> & Hy).
      apply elem_of_map_to_list in Hy. simpl in Hr.
      assert (y ∈ ready st ++ running st) as (_ & Hn & _)%(eo_active _ HI) by set_solver.
      congruence.
    - pose proof (eo_nodup _ HI) as H. by apply NoDup_app in H as (_ & _ & ?). }
  assert ((map_to_list (results st)).*1 ++ running st ⊆ order p) as Hsub.
  { intros x [Hx|Hx]%elem_of_app.
    - apply list_elem_of_fmap in Hx as ([y ry] & -> & Hy). apply elem_of_map_to_list in Hy.
      by apply (eo_settled _ HI _ _ Hy).
    - apply (eo_active _ HI). set_solver. }
  pose proof (submseteq_length _ _ (NoDup_submseteq _ _ Hnd Hsub)) as Hlen.
  rewrite length_app, length_fmap, length_map_to_list in Hlen. done.
Qed.

(** If nothing is active, going down from an unsettled step would never
    end. *)
Lemma idle_is_complete st id :
  execOK st -> acyclic p -> ready st = [] -> running st = [] -> id ∈ order p ->
  is_Some (results st !! id).
Proof.
  intros HI Hac Hrd Hrn Hid. pose proof (Hac id Hid) as Hacc. revert Hid.
  induction Hacc as [id _ IH]. intros Hid.
  destruct (results st !! id) as [r|] eqn:E; [by eexists|]. exfalso.
  pose proof (eo_blocked _ HI id Hid E) as Hb. rewrite Hrd, Hrn in Hb.
  specialize (Hb (not_elem_of_nil _)). unfold unsettled in Hb.
  destruct (filter _ (needsOf p id)) as [|n l] eqn:Ef; [simpl in Hb; lia|].
  assert (n ∈ filter (fun n => results st !! n = None) (needsOf p id)) as Hn
    by (rewrite Ef; left).
  apply list_elem_of_filter in Hn as [Hnone Hn].
  destruct (IH n Hn) as [rn Hrn']; [by apply (Hclosed id)|]. congruence.
Qed.

Lemma all_settled_size st :
  execOK st -> (forall id, id ∈ order p -> is_Some (results st !! id)) ->
  size (results st) = Len p.
Proof.
  intros HI Hall. rewrite Len_order, <- (size_dom (D:=gset string)).
  rewrite <- (size_list_to_set (C:=gset string) (order p)) by apply (wf_nodup _ Hwf).
  f_equal. apply set_eq. intros x. rewrite elem_of_dom, elem_of_list_to_set.
  split; [|apply Hall]. intros [r Hr]. by apply (eo_settled _ HI _ _ Hr).
Qed.

Lemma full_is_complete st id :
  execOK st -> (Len p <= size (results st))%nat -> id ∈ order p -> is_Some (results st !! id).
Proof.
  intros HI Hsz Hid. apply elem_of_dom.
  assert (dom (results st) = list_to_set (C:=gset string) (order p)) as ->;
    [|by apply elem_of_list_to_set].
  apply set_subseteq_size_eq.
  - intros x [r Hr]%elem_of_dom. apply elem_of_list_to_set. by apply (eo_settled _ HI _ _ Hr).
  - rewrite size_dom, size_list_to_set by apply (wf_nodup _ Hwf). by rewrite <- Len_order.
Qed.

(** Each move settles a step or starts one. *)
Definition work (st : exec) : nat := 2 * size (results st) + length (running st).

Lemma moved_work st st' : execOK st -> moved st st' ->
  (S (work st) <= work st')%nat /\ stopped st' = stopped st.
Proof.
  intros HI Hm. unfold work. destruct Hm as [id rest r b Er Hs|id rest Er Hs Hlt|id r Hin].
  - assert (id ∈ ready st ++ running st) as Ha by (rewrite Er; left).
    destruct (eo_active _ HI id Ha) as (_ & H2 & _). unfold settle.
    destruct (fold_left _ _ _) as [rem rdy]. simpl. rewrite map_size_insert_None by done.
    split; [lia|done].
  - simpl. split; [lia|done].
  - assert (id ∈ ready st ++ running st) as Ha by set_solver.
    destruct (eo_active _ HI id Ha) as (_ & H2 & _). unfold settle.
    destruct (fold_left _ _ _) as [rem rdy]. simpl. rewrite map_size_insert_None by done.
    pose proof (eo_nodup _ HI) as Hnd. apply NoDup_app in Hnd as (_ & _ & Hnd).
    pose proof (NoDup_remove_filter (running st) id Hnd Hin). split; [lia|done].
Qed.

Lemma reachable_work n st :
  reachable p opts n st ->
  (n <= work st + (if decide (stopped st = None) then 0 else 1))%nat.
Proof.
  induction 1 as [|n ev st st' Hr IH Ha]; [simpl; lia|].
  pose proof (reachable_ok _ _ Hr) as HI.
  apply advance_cases in Ha as (Hf & Hc). unfold finished in Hf.
  apply orb_false_iff in Hf as [Hs%bool_decide_eq_false _].
  assert (stopped st = None) as Hs' by (destruct (stopped st); [exfalso; eauto|done]).
  rewrite decide_True in IH by done.
  destruct Hc as [Hm|[(st1 & why & Hm & -> & _)|[->|[-> _]]]].
  - destruct (moved_work _ _ HI Hm) as [H1 H2]. rewrite decide_True by congruence. lia.
  - destruct (moved_work _ _ HI Hm) as [H1 H2]. rewrite decide_False by done.
    change (work (stop why st1)) with (work st1). lia.
  - rewrite decide_False by done. change (work (stop _ st)) with (work st). lia.
  - rewrite decide_False by done. change (work (stop _ st)) with (work st). lia.
Qed.

Lemma reachable_no_deadlock n st l :
  acyclic p -> reachable p opts n st -> stopped st <> Some (StopDeadlock l).
Proof.
  intros Hac. induction 1 as [|n ev st st' Hr IH Ha]; [done|].
  pose proof (reachable_ok _ _ Hr) as HI.
  apply advance_cases in Ha as (Hf & Hc). pose proof Hf as Hf'. unfold finished in Hf.
  apply orb_false_iff in Hf as [_ Hlt]. apply Nat.leb_gt in Hlt.
  destruct Hc as [Hm|[(st1 & why & Hm & -> & Hwhy)|[->|(-> & Hrd & Hrn)]]].
  - destruct (moved_work _ _ HI Hm) as [_ ->]. done.
  - simpl. intros [= ->]. by apply (Hwhy l).
  - done.
  - exfalso. assert (size (results st) = Len p); [|lia].
    apply all_settled_size; [done|]. intros id Hid. by apply idle_is_complete.
Qed.
End Invariant.

(** ** The theorems *)

(** An execution of the scheduler: the iterations it took, one per event. *)
Fixpoint run (p : Plan) (opts : Options) (evs : list event) (st : exec) : option exec :=
  match evs with
  | [] => Some st
  | ev :: evs => st' ← advance p opts ev st; run p opts evs st'
  end.

Lemma run_reachable p opts evs st n st' :
  reachable p opts n st -> run p opts evs st = Some st' ->
  reachable p opts (n + length evs) st'.
Proof.
  revert st n. induction evs as [|ev evs IH]; intros st n Hr H; simpl in *.
  - injection H as <-. by rewrite Nat.add_0_r.
  - destruct (advance p opts ev st) as [st1|] eqn:E; [|done]. simpl in H.
    replace (n + S (length evs))%nat with (S n + length evs)%nat by lia.
    apply (IH st1); [|done]. by eapply reachable_advance.
Qed.

(** A settled step that did not fail, and was not skipped because another one
    did, was reported by a worker. *)
Record reported (opts : Options) (tr : list event) (st : exec) : Prop := {
  rp_dry : DryRun opts = true -> running st = [] /\
    forall id r, results st !! id = Some r -> rSkipped r = true;
  rp_worked id r : DryRun opts = false -> results st !! id = Some r -> id ∉ failedSteps st ->
    EvDone id r ∈ tr
}.

Lemma reported_mono opts tr tr' st : tr ⊆ tr' -> reported opts tr st -> reported opts tr' st.
Proof. intros Hs [A B]. split; [done|]. intros id r Hd Hr Hf. apply Hs. eauto. Qed.

Lemma reported_stop opts tr why st : reported opts tr st -> reported opts tr (stop why st).
Proof. intros [A B]. by split. Qed.

Lemma reported_settle p opts tr id r b l st :
  (DryRun opts = true -> l = [] /\ rSkipped r = true) ->
  (DryRun opts = false -> b = false -> EvDone id r ∈ tr) ->
  reported opts tr st -> reported opts tr (settle p id r b (with_running l st)).
Proof.
  intros Hdry Hw [A B]. unfold settle. destruct (fold_left _ _ _) as [rem rdy]. split; simpl.
  - intros Hd. destruct (Hdry Hd) as [-> Hr]. split; [done|]. intros x rx.
    rewrite lookup_insert. case_decide; [by intros [= <-]|]. by apply A.
  - intros x rx Hd. rewrite lookup_insert. case_decide as E.
    + subst. intros [= <-] Hf. apply Hw; [done|]. destruct b; [|done]. exfalso. apply Hf. set_solver.
    + intros Hx Hf. apply B; [done..|]. destruct (b || failedHard p id r); set_solver.
Qed.

Lemma reported_advance p opts tr ev st st' :
  advance p opts ev st = Some st' -> reported opts tr st -> reported opts (tr ++ [ev]) st'.
Proof.
  intros Ha Hr. apply (reported_mono _ _ (tr ++ [ev])) in Hr; [|set_solver].
  unfold advance in Ha. destruct (finished p st); [done|]. destruct ev as [| |id r].
  - injection Ha as <-. by apply reported_stop.
  - destruct (ready st) as [|id rest]; [case_decide; [injection Ha as <-; by apply reported_stop|done]|].
    destruct (skip p opts st id) as [[r blocked]|] eqn:Hs.
    + injection Ha as <-. apply (reported_settle p opts _ id r blocked (running st) (with_ready rest st)).
      * intros Hd. split; [by apply Hr|by eapply skip_some].
      * intros Hd ->. exfalso. unfold skip in Hs. rewrite Hd in Hs.
        destruct (_ && _); [done|]. by destruct (filter _ _).
      * destruct Hr as [A B]. by split.
    + destruct (Nat.ltb _ _); [|done]. injection Ha as <-. destruct Hr as [A B]. split; [|done].
      intros Hd. unfold skip in Hs. by rewrite Hd in Hs.
  - destruct (waiting p opts st && bool_decide (id ∈ running st)) eqn:Hc; [|done].
    apply andb_prop in Hc as [_ Hin%bool_decide_eq_true]. injection Ha as <-.
    enough (reported opts (tr ++ [EvDone id r])
              (settle p id r false (with_running (filter (fun x => x <> id) (running st)) st))).
    { destruct (rErr r); [destruct (_ && _)|]; [by apply reported_stop|done..]. }
    apply reported_settle; [| |done].
    + intros Hd. destruct (rp_dry _ _ _ Hr Hd) as [Hn _]. rewrite Hn in Hin.
      by apply not_elem_of_nil in Hin.
    + intros _ _. set_solver.
Qed.

Lemma reported_run p opts evs tr st st' :
  run p opts evs st = Some st' -> reported opts tr st -> reported opts (tr ++ evs) st'.
Proof.
  revert tr st. induction evs as [|ev evs IH]; intros tr st; simpl.
  - intros [= <-]. by rewrite app_nil_r.
  - destruct (advance p opts ev st) as [st1|] eqn:E; [|done]. simpl. intros H Hr.
    rewrite cons_middle, app_assoc. eapply IH; [done|]. by eapply reported_advance.
Qed.

(** C17. The scheduler respects the dependencies: at every point of every
    execution, whatever order workers report in, at most the configured
    number of steps is in flight, a step in flight has no result yet, and
    every prerequisite of a step that is in flight or has run is settled, was
    itself handed to a worker, which reported that result, and did not fail
    (a failed optional step is tolerated): a step is never run after a
    prerequisite that was skipped because of another failure. *)
Theorem dependencies_before_dependents p opts tr st id need :
  wfPlan p -> Validate p = Ok tt -> run p opts tr (initExec p) = Some st ->
  (length (running st) <= optWorkers opts)%nat /\
  (id ∈ running st -> results st !! id = None) /\
  (id ∈ running st \/ (exists r, results st !! id = Some r /\ rSkipped r = false) ->
   need ∈ needsOf p id ->
   exists r, results st !! need = Some r /\ EvDone need r ∈ tr /\ failedHard p need r = false).
Proof.
  intros Hwf HV Hrun. apply (Validate_ok_iff p Hwf) in HV as (Hc & Ha & _).
  pose proof (run_reachable _ _ _ _ _ _ (reachable_init p opts) Hrun) as Hr.
  pose proof (reachable_ok p opts Hwf Hc _ st Hr) as HI.
  assert (reported opts tr st) as [Hdry Hrep].
  { apply (reported_run p opts tr [] (initExec p) st Hrun). split; [by split|].
    intros x r _. simpl. by rewrite lookup_empty. }
  split; [apply (eo_pool _ _ _ HI)|]. split.
  { intros Hin. assert (id ∈ ready st ++ running st) as H by set_solver.
    by apply (eo_active _ _ _ HI) in H as (_ & ? & _). }
  intros Hran Hneed. pose proof (eo_ran _ _ _ HI id need Hran Hneed) as Hok.
  assert (DryRun opts = false) as Hd.
  { destruct (DryRun opts) eqn:Hd; [|done]. destruct (Hdry eq_refl) as [Hn Hall].
    rewrite Hn in Hran. destruct Hran as [?%not_elem_of_nil|(r & Hr' & Hs)]; [done|].
    by rewrite (Hall _ _ Hr') in Hs. }
  assert (unsettled p (results st) id = 0%nat) as Hz.
  { destruct Hran as [Hin|(r & Hres & _)].
    - assert (id ∈ ready st ++ running st) as H by set_solver.
      by apply (eo_active _ _ _ HI) in H as (_ & _ & ?).
    - by apply (eo_settled _ _ _ HI id r). }
  destruct (results st !! need) as [r|] eqn:E.
  - exists r. split; [done|]. split; [by apply Hrep|]. destruct (failedHard p need r) eqn:Ef; [|done].
    by destruct Hok; apply (eo_hard _ _ _ HI need r).
  - exfalso. assert (need ∈ filter (fun n => results st !! n = None) (needsOf p id)) as Hin
      by by apply list_elem_of_filter.
    unfold unsettled in Hz. destruct (filter _ _); [by apply not_elem_of_nil in Hin|done].
Qed.

(** C18. A valid plan never deadlocks and always finishes: the scheduler's
    deadlock branch is unreachable; while steps are missing, it can go on
    without the context being cancelled, by itself or when any worker
    reports; it makes at most two iterations per step and one more; and when
    it ends without being stopped every step has a result. *)
Theorem valid_plan_finishes p opts n st :
  wfPlan p -> Validate p = Ok tt -> (0 < optWorkers opts)%nat -> reachable p opts n st ->
  (forall l, stopped st <> Some (StopDeadlock l)) /\
  (n <= 2 * Len p + 1)%nat /\
  (finished p st = false ->
     is_Some (advance p opts EvRun st) \/
     (running st <> [] /\ forall id r, id ∈ running st -> is_Some (advance p opts (EvDone id r) st))) /\
  (finished p st = true -> stopped st = None ->
     forall id, id ∈ order p -> is_Some (results st !! id)).
Proof.
  intros Hwf HV Hw Hr. apply (Validate_ok_iff p Hwf) in HV as (Hc & Ha & _).
  pose proof (reachable_ok p opts Hwf Hc n st Hr) as HI. split_and!.
  - intros l. by apply (reachable_no_deadlock p opts Hwf Hc n).
  - pose proof (reachable_work p opts Hwf Hc n st Hr). pose proof (active_bound p opts Hwf Hc st HI).
    rewrite (Len_order p Hwf). unfold work in *. destruct (decide (stopped st = None)); lia.
  - intros Hf. unfold advance. rewrite Hf. unfold waiting.
    destruct (ready st) as [|id rest].
    + case_decide as Hrn; [left; by eexists|]. right. split; [done|]. intros id r Hin.
      rewrite (bool_decide_eq_false_2 (running st = [])) by done.
      rewrite bool_decide_eq_true_2 by done. by eexists.
    + destruct (skip p opts st id) as [[r b]|]; [left; by eexists|].
      destruct (Nat.ltb_spec (length (running st)) (optWorkers opts)); [left; by eexists|].
      right. assert (running st <> []) as Hne by (intros E; rewrite E in *; simpl in *; lia).
      split; [done|]. intros id' r Hin.
      rewrite (bool_decide_eq_false_2 (running st = [])) by done.
      rewrite (bool_decide_eq_true_2 (id' ∈ running st)) by done.
      rewrite (proj2 (Nat.leb_le _ _)) by done. by eexists.
  - intros Hf Hs id Hid. unfold finished in Hf. rewrite Hs in Hf.
    rewrite bool_decide_eq_false_2 in Hf by (by intros []). simpl in Hf. apply Nat.leb_le in Hf.
    by apply (full_is_complete p opts Hwf st id HI).
Qed.

(** *** The report *)

Lemma scopeErrors_in p res l m sc :
  is_Some (fold_left (noteError p res) l m !! sc) <->
  is_Some (m !! sc) \/
  exists id r, id ∈ l /\ res !! id = Some r /\ failedHard p id r = true /\ scopeOrLab p id = sc.
Proof.
  revert m. induction l as [|x l IH]; intros m; simpl.
  { split; [by left|]. intros [?|(id & r & ?%not_elem_of_nil & _)]; done. }
  rewrite IH. clear IH. unfold noteError. destruct (res !! x) as [r|] eqn:Er.
  2:{ split; (intros [?|(id & r & Hin & H)]; [by left|right; exists id, r]); split; try done;
      [by right|]. apply elem_of_cons in Hin as [->|?]; [|done]. destruct H. congruence. }
  assert (failedHard p x r = true -> is_Some (rErr r)) as Hhard.
  { unfold failedHard. rewrite !andb_true_iff. by intros [[?%bool_decide_eq_true _] _]. }
  destruct (failedHard p x r) eqn:Ef.
  - destruct (Hhard eq_refl) as [e He]. rewrite He. split.
    + intros [Hm|(id & r' & Hin & H)].
      * destruct (decide (scopeOrLab p x = sc)) as [<-|Hne].
        -- right. exists x, r. by split; [left|].
        -- rewrite lookup_insert_ne in Hm by done. by left.
      * right. exists id, r'. by split; [right|].
    + intros [Hm|(id & r' & [->|Hin]%elem_of_cons & Hr & Hf & Hs)].
      * left. destruct (decide (scopeOrLab p x = sc)) as [<-|Hne];
          [rewrite lookup_insert_eq; by eexists|by rewrite lookup_insert_ne].
      * left. rewrite Hs, lookup_insert_eq. by eexists.
      * right. eauto 6.
  - assert (match rErr r with Some _ => m | None => m end = m) as -> by by destruct (rErr r).
    split; (intros [?|(id & r' & Hin & H)]; [by left|right; exists id, r']); split; try done;
      [by right|]. apply elem_of_cons in Hin as [->|?]; [|done].
    destruct H as (H1 & H2 & _). congruence.
Qed.

(** The report names exactly what failed: at the end of any execution
    the results are listed in plan order whatever order the workers finished
    in, and the scopes with errors are exactly the scopes the scheduler
    isolated, each with a required step of that scope that ran and failed. *)
Theorem report_names_failed_scopes p opts n st :
  wfPlan p -> Validate p = Ok tt -> reachable p opts n st ->
  let rep := reportFromResults p (results st) in
  map fst (repResults rep) = filter (fun id => is_Some (results st !! id)) (order p) /\
  (forall sc, is_Some (ScopeErrors rep !! sc) <-> sc ∈ failedScopes st) /\
  (Failed rep = true <->
     exists id r, results st !! id = Some r /\ failedHard p id r = true).
Proof.
  intros Hwf HV Hr rep. apply (Validate_ok_iff p Hwf) in HV as (Hc & _ & _).
  pose proof (reachable_ok p opts Hwf Hc n st Hr) as HI.
  assert (forall sc, is_Some (ScopeErrors rep !! sc) <-> sc ∈ failedScopes st) as Hsc.
  { intros sc. unfold rep. simpl. rewrite scopeErrors_in, lookup_empty, (eo_scopes _ _ _ HI).
    split.
    - intros [[? ?]|(id & r & _ & ? & ? & ?)]; [done|]. eauto.
    - intros (id & r & Hres & ? & ?). right. exists id, r.
      split; [by apply (eo_settled _ _ _ HI id r)|done]. }
  split_and!; [|exact Hsc|].
  - simpl. induction (order p) as [|x l IH]; [done|]. rewrite filter_cons.
    destruct (decide (is_Some (results st !! x))) as [[r Hx]|Hx].
    + simpl. rewrite Hx. simpl. f_equal. exact IH.
    + simpl. destruct (results st !! x); [by destruct Hx|exact IH].
  - unfold Failed. rewrite Nat.ltb_lt.
    assert (0 < size (ScopeErrors rep) <-> ScopeErrors rep <> ∅)%nat as ->.
    { rewrite <- (map_size_empty_iff (ScopeErrors rep)). lia. }
    split.
    + intros Hne.
      destruct (map_choose _ Hne) as (sc & es & Hin).
      assert (sc ∈ failedScopes st) as (id & r & ? & ? & _)%(eo_scopes _ _ _ HI)
        by (apply Hsc; by eexists). eauto.
    + intros (id & r & Hres & Hf) He.
      assert (is_Some (ScopeErrors rep !! scopeOrLab p id)) as [es Hes].
      { apply Hsc, (eo_scopes _ _ _ HI). eauto. }
      rewrite He, lookup_empty in Hes. done.
Qed.

(** ** Witnesses: a run with a failing step *)

Definition demoOpts : Options := mkOptions 2 true false.

Definition ok : Result := mkResult None false.
Definition broken : Result := mkResult (Some "boom") false.

(** [create] and [spare] start, [create] fails: [wire] and [conf] are
    skipped with it, their scope being the same. *)
Definition demoEvents : list event :=
  [EvRun; EvRun; EvDone "create" broken; EvRun; EvRun; EvDone "spare" ok].
Definition demoEnd : exec :=
  default (initExec demoPlan) (run demoPlan demoOpts demoEvents (initExec demoPlan)).

Lemma demoEnd_reachable : reachable demoPlan demoOpts 6 demoEnd.
Proof.
  apply (run_reachable demoPlan demoOpts demoEvents (initExec demoPlan) 0);
    [apply reachable_init|vm_compute; reflexivity].
Qed.

(** When [create] succeeds, [wire] is started. *)
Definition demoWiring : list event := [EvRun; EvRun; EvDone "create" ok; EvRun].
Definition demoWired : exec :=
  default (initExec demoPlan) (run demoPlan demoOpts demoWiring (initExec demoPlan)).

Lemma dependencies_before_dependents_witness :
  running demoWired = ["wire"; "spare"] /\ (length (running demoWired) <= 2)%nat /\
  exists r, results demoWired !! "create" = Some r /\ EvDone "create" r ∈ demoWiring.
Proof.
  split; [vm_compute; reflexivity|].
  destruct (dependencies_before_dependents demoPlan demoOpts demoWiring demoWired "wire" "create"
    (wf_planOf _) ltac:(vm_compute; reflexivity) ltac:(vm_compute; reflexivity)) as (H1 & _ & H2).
  split; [exact H1|].
  destruct H2 as (r & Hr & Hin & _); [left; apply list_elem_of_In; vm_compute; tauto| |].
  - apply list_elem_of_In. vm_compute. tauto.
  - exists r. split; [exact Hr|exact Hin].
Defined.

Lemma valid_plan_finishes_witness :
  finished demoPlan demoEnd = true /\ is_Some (results demoEnd !! "conf").
Proof.
  split; [vm_compute; reflexivity|].
  refine (proj2 (proj2 (proj2 (valid_plan_finishes demoPlan demoOpts 6 demoEnd (wf_planOf _)
    ltac:(vm_compute; reflexivity) ltac:(simpl; lia) demoEnd_reachable))) _ _ "conf" _);
    [vm_compute; reflexivity|vm_compute; reflexivity|].
  apply (bool_decide_eq_true_1 _). vm_compute. reflexivity.
Defined.

Lemma report_names_failed_scopes_witness :
  FailedScopes (reportFromResults demoPlan (results demoEnd)) = ["as1"] /\
  map fst (repResults (reportFromResults demoPlan (results demoEnd)))
    = ["create"; "wire"; "spare"; "conf"].
Proof.
  split; [vm_compute; reflexivity|].
  rewrite (proj1 (report_names_failed_scopes demoPlan demoOpts 6 demoEnd (wf_planOf _)
    ltac:(vm_compute; reflexivity) demoEnd_reachable)).
  vm_compute. reflexivity.
Defined.
