(* ===== verification/Alloc.v ===== *)
(** * Derived resources: VNIs, names and their collisions

    Models [internal/alloc/alloc.go]: every allocated identifier is a pure
    function of the lab, with FNV-1a hashing and deterministic re-probing. *)

From stdpp Require Import base gmap strings list fin_maps sorting pretty.
From Stdlib Require Import ZArith Lia Ascii.
From S2P Require Import Prelude Text.

Open Scope Z_scope.

(** ** FNV-1a, 64 bits *)

Definition fnvOffset : Z := 14695981039346656037.
Definition fnvPrime : Z := 1099511628211.

Definition byteOf (c : ascii) : Z := Z.of_N (N_of_ascii c).
Fixpoint bytesOf (s : string) : list Z :=
  match s with
  | EmptyString => []
  | String c s => byteOf c :: bytesOf s
  end.

(** [h.Write(b)]. *)
Definition fnvWrite (h : Z) (b : list Z) : Z :=
  fold_left (fun h x => wrap64 (Z.lxor h x * fnvPrime)) b h.

(** [h.Sum64()] after writing the given parts separated by a zero byte. *)
Definition fnvParts (parts : list (list Z)) : Z :=
  match parts with
  | [] => fnvOffset
  | x :: xs => fold_left (fun h b => fnvWrite (fnvWrite h [0]) b) xs (fnvWrite fnvOffset x)
  end.

(** [binary.BigEndian.PutUint32]. *)
Definition beUint32 (n : Z) : list Z :=
  map (fun sh => Z.land (Z.shiftr (wrap32 n) sh) 255) [24; 16; 8; 0].

(** ** VNIs *)

Definition vniMin : Z := 4096.
Definition vniMax : Z := 16000000.

Definition VNI (lab linkID : string) (salt : Z) : Z :=
  let parts := [bytesOf lab; bytesOf linkID] ++ (if 0 <? salt then [beUint32 salt] else []) in
  wrap32 (fnvParts parts mod (vniMax - vniMin)) + vniMin.

(** The insertion sort of [sortStrings]: [ins] moves the new element left past
    the greater ones; the sorted part is kept greatest first. *)
Fixpoint ins (x : string) (sorted : list string) : list string :=
  match sorted with
  | [] => [x]
  | y :: rest => if String.ltb x y then y :: ins x rest else x :: sorted
  end.
Definition sortStringsIns (s : list string) : list string :=
  rev (fold_left (fun acc x => ins x acc) s []).

(** The probe loop: the first salt from [salt] on whose candidate is usable.
    The source loops without bound; [None] means the fuel ended first. *)
Fixpoint probe (fuel : nat) (lab id : string) (usable : Z -> bool) (salt : Z) : option Z :=
  match fuel with
  | O => None
  | S fuel => let v := VNI lab id salt in
              if usable v then Some v else probe fuel lab id usable (salt + 1)
  end.

(** [AssignVNIs]; [fuel] bounds every probe. *)
Fixpoint assignLoop (fuel : nat) (lab : string) (ids : list string) (used : gset Z)
    (out : gmap string Z) : option (gmap string Z) :=
  match ids with
  | [] => Some out
  | id :: ids =>
      v ← probe fuel lab id (fun v => bool_decide (v ∉ used)) 0;
      assignLoop fuel lab ids ({[v]} ∪ used) (<[id := v]> out)
  end.
Definition AssignVNIs (fuel : nat) (lab : string) (linkIDs : list string)
    : option (gmap string Z) :=
  assignLoop fuel lab (sortStringsIns linkIDs) ∅ ∅.

(** [Deconflict]. *)
Definition ownerOf (inUse : gmap Z string) (v : Z) : string := lookup_or "" inUse v.

Definition clashes (lab : string) (inUse : gmap Z string) (v : Z) : bool :=
  match inUse !! v with
  | None => false
  | Some owner => negb (bool_decide (owner = lab)) && negb (bool_decide (owner = ""))
  end.

Definition usableCand (lab : string) (inUse : gmap Z string) (taken : gset Z) (c : Z) : bool :=
  bool_decide (c ∉ taken)
  && (bool_decide (ownerOf inUse c = "") || bool_decide (ownerOf inUse c = lab)).

Fixpoint deconflictLoop (fuel : nat) (lab : string) (inUse : gmap Z string)
    (ids : list string) (taken : gset Z) (assigned : gmap string Z) (moved : nat)
    : option (gmap string Z * nat) :=
  match ids with
  | [] => Some (assigned, moved)
  | id :: ids =>
      let v := lookup_or 0 assigned id in
      if clashes lab inUse v then
        let taken := taken ∖ {[v]} in
        c ← probe fuel lab id (usableCand lab inUse taken) 1;
        deconflictLoop fuel lab inUse ids ({[c]} ∪ taken) (<[id := c]> assigned) (S moved)
      else deconflictLoop fuel lab inUse ids taken assigned moved
  end.

Definition initiallyTaken (lab : string) (assigned : gmap string Z) (inUse : gmap Z string)
    : gset Z :=
  list_to_set (map fst (filter (fun kv => kv.2 <> lab) (map_to_list inUse)))
  ∪ list_to_set (map snd (map_to_list assigned)).

Definition Deconflict (fuel : nat) (lab : string) (assigned : gmap string Z)
    (inUse : gmap Z string) : option (gmap string Z * nat) :=
  deconflictLoop fuel lab inUse (sortStringsIns (map fst (map_to_list assigned)))
    (initiallyTaken lab assigned inUse) assigned 0.

(** ** Names *)

Definition hexDigit (n : Z) : ascii :=
  ascii_of_N (Z.to_N (if n <? 10 then 48 + n else 87 + n)).

(** [%x]: lower case, without leading zeros; [digits] bounds the number. *)
Fixpoint hexOf (digits : nat) (n : Z) (acc : string) : string :=
  match digits with
  | O => acc
  | S d => let acc := String (hexDigit (n mod 16)) acc in
           if n / 16 =? 0 then acc else hexOf d (n / 16) acc
  end.
(** [%0wx]. *)
Fixpoint hexPadded (width : nat) (n : Z) (acc : string) : string :=
  match width with
  | O => acc
  | S w => hexPadded w (n / 16) (String (hexDigit (n mod 16)) acc)
  end.

Definition MAC (lab deviceID iface : string) : string :=
  let sum := fnvParts [bytesOf lab; bytesOf deviceID; bytesOf iface] in
  let b i := hexPadded 2 (Z.land (Z.shiftr sum (56 - 8 * i)) 255) "" in
  "02:" +:+ b 0 +:+ ":" +:+ b 1 +:+ ":" +:+ b 2 +:+ ":" +:+ b 3 +:+ ":" +:+ b 4.

Definition LinkAltname (lab linkID : string) : string :=
  "tw-" +:+ hexOf 16 (fnvParts [bytesOf lab; bytesOf linkID]) "".

(** [%c] of a byte is the UTF-8 encoding of that code point. *)
Definition charOf (side : Z) : string :=
  if side <? 128 then String (ascii_of_N (Z.to_N side)) ""
  else String (ascii_of_N (Z.to_N (192 + side / 64)))
         (String (ascii_of_N (Z.to_N (128 + side mod 64))) "").

Definition TempIfName (lab linkID : string) (side : Z) : string :=
  "tw" +:+ hexPadded 11 (Z.land (fnvParts [bytesOf lab; bytesOf linkID]) 17592186044415) ""
  +:+ charOf side.

(** [%d]. *)
Fixpoint decOf (digits : nat) (n : Z) (acc : string) : string :=
  match digits with
  | O => acc
  | S d => let acc := String (ascii_of_N (Z.to_N (48 + n mod 10))) acc in
           if n / 10 =? 0 then acc else decOf d (n / 10) acc
  end.

Definition BridgeName (vni : Z) : string := "twbr" +:+ decOf 10 vni "".
Definition VxlanName (vni : Z) : string := "twvx" +:+ decOf 10 vni "".

Definition LegacyPort (base asn : Z) : Z := base + asn.

(** [sanitize]. *)
Definition keepChar (c : ascii) : bool :=
  let n := N_of_ascii c in
  ((97 <=? n) && (n <=? 122))%N || ((48 <=? n) && (n <=? 57))%N || (n =? 45)%N.
Fixpoint sanitizeLower (s : string) : string :=
  match s with
  | EmptyString => EmptyString
  | String c s => String (if keepChar c then c else "-"%char) (sanitizeLower s)
  end.
Definition sanitize (s : string) : string := sanitizeLower (toLower s).
Definition Netns (lab name : string) : string :=
  "tw-" +:+ sanitize lab +:+ "-" +:+ sanitize name.

(** ** Sorting *)

Lemma ltb_le x y : String.ltb x y = false -> String.le y x.
Proof.
  unfold String.le, String.ltb, String.leb. rewrite (String.compare_antisym y x).
  by destruct (String.compare x y).
Qed.
Lemma ltb_lt_le x y : String.ltb x y = true -> String.le x y.
Proof.
  unfold String.le, String.ltb, String.leb. by destruct (String.compare x y).
Qed.

Lemma ins_perm x l : ins x l ≡ₚ x :: l.
Proof.
  induction l as [|y l IH]; simpl; [done|]. destruct (String.ltb x y); [|done].
  rewrite IH. apply perm_swap.
Qed.

Lemma ins_sorted x l :
  StronglySorted (flip String.le) l -> StronglySorted (flip String.le) (ins x l).
Proof.
  induction 1 as [|y l Hl IH Hy]; simpl; [repeat constructor|].
  destruct (String.ltb x y) eqn:E.
  - constructor; [done|]. rewrite ins_perm. constructor; [|done]. by apply ltb_lt_le.
  - apply ltb_le in E. constructor; [by constructor|]. constructor; [done|].
    eapply Forall_impl; [exact Hy|]. intros z Hz. unfold flip in *. by etrans.
Qed.

(** The package's insertion sort is [sort.Strings]. *)
Lemma sortStringsIns_eq l : sortStringsIns l = sortStrings l.
Proof.
  assert (forall l acc, StronglySorted (flip String.le) acc ->
    StronglySorted (flip String.le) (fold_left (fun acc x => ins x acc) l acc) /\
    fold_left (fun acc x => ins x acc) l acc ≡ₚ l ++ acc) as H.
  { induction l0 as [|x l0 IH]; intros acc Hacc; simpl; [done|].
    destruct (IH (ins x acc) (ins_sorted x acc Hacc)) as [H1 H2]. split; [done|].
    rewrite H2, ins_perm. by rewrite Permutation_middle. }
  destruct (H l [] ltac:(constructor)) as [Hs Hp]. unfold sortStringsIns, sortStrings.
  apply (StronglySorted_unique String.le).
  - clear Hp. induction Hs as [|x r Hr IH Hx]; simpl; [constructor|].
    apply StronglySorted_app. split_and!; [|done|repeat constructor].
    intros y z Hy ->%list_elem_of_singleton. rewrite Forall_forall in Hx.
    apply Hx. apply list_elem_of_In, in_rev. by apply list_elem_of_In.
  - apply StronglySorted_merge_sort; apply _.
  - rewrite merge_sort_Permutation, <- Permutation_rev, Hp. by rewrite app_nil_r.
Qed.

(** ** Probing *)

Lemma VNI_range lab id salt : vniMin <= VNI lab id salt < vniMax.
Proof.
  unfold VNI, vniMin, vniMax. set (h := fnvParts _).
  pose proof (Z.mod_pos_bound h (16000000 - 4096) ltac:(lia)).
  unfold wrap32. rewrite (Z.mod_small (h mod _)); lia.
Qed.

Lemma probe_some fuel lab id usable salt v :
  probe fuel lab id usable salt = Some v -> usable v = true /\ exists k, v = VNI lab id k.
Proof.
  revert salt. induction fuel as [|fuel IH]; intros salt; simpl; [done|].
  destruct (usable (VNI lab id salt)) eqn:E; [|apply IH]. intros [= <-]. eauto.
Qed.

(** The source's unbounded loop ends as soon as some candidate is usable. *)
Lemma probe_total lab id usable salt k :
  usable (VNI lab id (salt + Z.of_nat k)) = true ->
  is_Some (probe (S k) lab id usable salt).
Proof.
  revert salt. induction k as [|k IH]; intros salt H.
  - rewrite Z.add_0_r in H. simpl. rewrite H. by eexists.
  - cbn [probe]. destruct (usable (VNI lab id salt)); [by eexists|].
    apply IH. by replace (salt + 1 + Z.of_nat k) with (salt + Z.of_nat (S k)) by lia.
Qed.

(** More fuel finds the same candidate. *)
Lemma probe_mono fuel fuel' lab id usable salt v :
  (fuel <= fuel')%nat -> probe fuel lab id usable salt = Some v ->
  probe fuel' lab id usable salt = Some v.
Proof.
  revert fuel' salt. induction fuel as [|fuel IH]; intros fuel' salt Hle; simpl; [done|].
  destruct fuel' as [|fuel']; [lia|]. simpl. destruct (usable _); [done|]. apply IH. lia.
Qed.

(** ** Assignment *)

Lemma assignLoop_ok fuel lab ids used out out' :
  assignLoop fuel lab ids used out = Some out' ->
  (forall id v, out !! id = Some v -> vniMin <= v < vniMax /\ v ∈ used) ->
  (forall id1 id2 v, out !! id1 = Some v -> out !! id2 = Some v -> id1 = id2) ->
  (forall id, is_Some (out' !! id) <-> is_Some (out !! id) \/ id ∈ ids) /\
  (forall id v, out' !! id = Some v -> vniMin <= v < vniMax) /\
  (forall id1 id2 v, out' !! id1 = Some v -> out' !! id2 = Some v -> id1 = id2).
Proof.
  revert used out. induction ids as [|x ids IH]; intros used out H Hr Hinj; simpl in H.
  { injection H as <-. split_and!; [|intros; by eapply Hr|done].
    intros id. split; [by left|]. intros [?|?%not_elem_of_nil]; done. }
  destruct (probe fuel lab x _ 0) as [v|] eqn:Hp; [|done]. simpl in H.
  apply probe_some in Hp as (Hu%bool_decide_eq_true & k & Hv).
  apply IH in H as (A & B & C).
  - split_and!; [|done|done]. intros id. rewrite A, elem_of_cons.
    destruct (decide (x = id)) as [<-|]; [rewrite lookup_insert_eq; naive_solver|].
    rewrite lookup_insert_ne by done. naive_solver.
  - intros id w Hw. destruct (decide (x = id)) as [<-|].
    + rewrite lookup_insert_eq in Hw. injection Hw as <-. rewrite Hv at 1 2.
      split; [apply VNI_range|set_solver].
    + rewrite lookup_insert_ne in Hw by done. destruct (Hr _ _ Hw). split; [done|set_solver].
  - intros id1 id2 w H1 H2. destruct (decide (x = id1)) as [<-|], (decide (x = id2)) as [<-|];
      rewrite ?lookup_insert_eq, ?lookup_insert_ne in * by done; simplify_eq; [done| | |].
    + by destruct (Hr _ _ H2).
    + by destruct (Hr _ _ H1).
    + by eapply Hinj.
Qed.

Lemma AssignVNIs_inj fuel lab ids out :
  AssignVNIs fuel lab ids = Some out ->
  forall id1 id2 v, out !! id1 = Some v -> out !! id2 = Some v -> id1 = id2.
Proof.
  intros H. apply assignLoop_ok in H as (_ & _ & ?); [done| |]; intros; by simplify_map_eq.
Qed.

(** VNI assignment: every link gets a VNI of the reserved range, no two
    links of the lab share one, and the result does not depend on the order
    in which the links are listed, which is what lets two nodes compute it
    independently. *)
Theorem assigned_vnis_are_unique fuel lab ids ids' out :
  AssignVNIs fuel lab ids = Some out -> ids ≡ₚ ids' ->
  (forall id, is_Some (out !! id) <-> id ∈ ids) /\
  (forall id v, out !! id = Some v -> vniMin <= v < vniMax) /\
  (forall id1 id2 v, out !! id1 = Some v -> out !! id2 = Some v -> id1 = id2) /\
  AssignVNIs fuel lab ids' = Some out.
Proof.
  intros H Hp. unfold AssignVNIs in *. rewrite !sortStringsIns_eq in *.
  assert (sortStrings ids = sortStrings ids') as Heq.
  { apply (StronglySorted_unique String.le);
      [apply StronglySorted_merge_sort; apply _|apply StronglySorted_merge_sort; apply _|].
    unfold sortStrings. by rewrite !merge_sort_Permutation. }
  rewrite <- Heq. apply assignLoop_ok in H as Hok; [|by intros ??; rewrite lookup_empty|].
  2:{ intros ???. by rewrite lookup_empty. }
  destruct Hok as (A & B & C). split_and!; [|done|done|done].
  intros id. rewrite A, lookup_empty, elem_of_sortStrings.
  split; [intros [[? ?]|?]; done|by right].
Qed.

(** ** Deconfliction *)

Definition noForeign (lab : string) (inUse : gmap Z string) (v : Z) : Prop :=
  ownerOf inUse v = "" \/ ownerOf inUse v = lab.

Lemma clashes_false lab inUse v : clashes lab inUse v = false <-> noForeign lab inUse v.
Proof.
  unfold clashes, noForeign, ownerOf, lookup_or. destruct (inUse !! v) as [o|]; simpl; [|tauto].
  rewrite andb_false_iff, !negb_false_iff, !bool_decide_eq_true. tauto.
Qed.

(** A usable candidate is no other link's VNI and no other lab's. *)
Lemma usableCand_fresh lab inUse taken (assigned : gmap string Z) v c :
  usableCand lab inUse (taken ∖ {[v]}) c = true -> clashes lab inUse v = true ->
  (forall id w, assigned !! id = Some w -> w ∈ taken \/ clashes lab inUse w = true) ->
  noForeign lab inUse c /\ forall id w, assigned !! id = Some w -> w <> c.
Proof.
  intros Hu Hcl Htak. unfold usableCand in Hu.
  apply andb_true_iff in Hu as [Hfree%bool_decide_eq_true Hown].
  assert (noForeign lab inUse c) as Hc.
  { apply orb_true_iff in Hown as [?%bool_decide_eq_true|?%bool_decide_eq_true]; [by left|by right]. }
  split; [done|]. intros id w Hw ->. apply clashes_false in Hc.
  destruct (Htak _ _ Hw) as [Hin|Hcc]; [|congruence].
  apply not_elem_of_difference in Hfree as [?|Hcv]; [done|].
  apply elem_of_singleton in Hcv as ->. congruence.
Qed.

Lemma insert_fresh_inj (m : gmap string Z) x c :
  (forall id w, m !! id = Some w -> w <> c) ->
  (forall id1 id2 v, m !! id1 = Some v -> m !! id2 = Some v -> id1 = id2) ->
  forall id1 id2 v, <[x := c]> m !! id1 = Some v -> <[x := c]> m !! id2 = Some v -> id1 = id2.
Proof.
  intros Hfresh Hinj id1 id2 w H1 H2.
  destruct (decide (x = id1)) as [<-|], (decide (x = id2)) as [<-|];
    rewrite ?lookup_insert_eq, ?lookup_insert_ne in * by done; simplify_eq; [done| | |].
  - by destruct (Hfresh _ _ H2).
  - by destruct (Hfresh _ _ H1).
  - by eapply Hinj.
Qed.

Lemma deconflictLoop_ok fuel lab inUse ids taken assigned moved out n :
  deconflictLoop fuel lab inUse ids taken assigned moved = Some (out, n) ->
  NoDup ids -> (forall id, id ∈ ids -> is_Some (assigned !! id)) ->
  (forall id v, assigned !! id = Some v -> v ∈ taken \/ clashes lab inUse v = true) ->
  (forall id1 id2 v, assigned !! id1 = Some v -> assigned !! id2 = Some v -> id1 = id2) ->
  (forall id1 id2 v, out !! id1 = Some v -> out !! id2 = Some v -> id1 = id2) /\
  (forall id v, id ∈ ids -> out !! id = Some v -> noForeign lab inUse v) /\
  (forall id, id ∉ ids -> out !! id = assigned !! id) /\
  (forall id v, assigned !! id = Some v -> noForeign lab inUse v -> out !! id = Some v) /\
  (forall id, is_Some (out !! id) <-> is_Some (assigned !! id)).
Proof.
  revert taken assigned moved.
  induction ids as [|x ids IH]; intros taken assigned moved H Hnd Hdom Htak Hinj; simpl in H.
  { injection H as <- _. split_and!; try done. by intros ?? ?%not_elem_of_nil. }
  apply NoDup_cons in Hnd as [Hx Hnd].
  assert (is_Some (assigned !! x)) as [v Hv] by (apply Hdom; left).
  assert (forall id, id ∈ ids -> is_Some (assigned !! id)) as Hdom' by (intros; apply Hdom; by right).
  unfold lookup_or in H. rewrite Hv in H. simpl in H.
  destruct (clashes lab inUse v) eqn:Hcl.
  - destruct (probe fuel lab x _ 1) as [c|] eqn:Hp; [|done]. simpl in H.
    apply probe_some in Hp as (Hu & _).
    destruct (usableCand_fresh _ _ _ _ _ _ Hu Hcl Htak) as [Hc Hfresh].
    apply IH in H as (A & B & C & D & E); [|done|by intros; apply lookup_insert_is_Some'; auto| |].
    + split_and!.
      * done.
      * intros id w [->|Hin]%elem_of_cons Hw; [|by eapply B].
        rewrite C in Hw by done. rewrite lookup_insert_eq in Hw. by injection Hw as <-.
      * intros id Hid. apply not_elem_of_cons in Hid as [Hne Hid].
        rewrite C by done. by rewrite lookup_insert_ne.
      * intros id w Hw Hnf. destruct (decide (x = id)) as [<-|Hne].
        -- simplify_eq. apply clashes_false in Hnf. congruence.
        -- apply D; [by rewrite lookup_insert_ne|done].
      * intros id. rewrite E. destruct (decide (x = id)) as [<-|Hne].
        -- rewrite lookup_insert_eq, Hv. split; intros _; by eexists.
        -- by rewrite lookup_insert_ne.
    + intros id w Hw. destruct (decide (x = id)) as [<-|Hne].
      * rewrite lookup_insert_eq in Hw. injection Hw as <-. left. by apply elem_of_union_l, elem_of_singleton.
      * rewrite lookup_insert_ne in Hw by done. destruct (Htak _ _ Hw) as [Hin|?]; [|by right].
        left. apply elem_of_union_r, elem_of_difference. split; [done|].
        intros ->%elem_of_singleton. by destruct Hne; apply (Hinj x id v).
    + by apply insert_fresh_inj.
  - apply IH in H as (A & B & C & D & E); [|done|done|done|done].
    split_and!; [done| |set_solver|done|done].
    intros id w [->|Hin]%elem_of_cons Hw; [|by eapply B].
    rewrite C, Hv in Hw by done. injection Hw as <-. by apply clashes_false.
Qed.

(** Deconfliction keeps labs apart: from a collision-free assignment, the
    result still gives every link its own VNI, none of them one that another
    lab is using, and a link whose VNI was not in conflict keeps it, so that
    redeploying an unchanged lab moves no tunnel. *)
Theorem deconflicted_vnis_are_private fuel lab assigned inUse out n :
  Deconflict fuel lab assigned inUse = Some (out, n) ->
  (forall id1 id2 v, assigned !! id1 = Some v -> assigned !! id2 = Some v -> id1 = id2) ->
  (forall id, is_Some (out !! id) <-> is_Some (assigned !! id)) /\
  (forall id1 id2 v, out !! id1 = Some v -> out !! id2 = Some v -> id1 = id2) /\
  (forall id v, out !! id = Some v -> ownerOf inUse v = "" \/ ownerOf inUse v = lab) /\
  (forall id v, assigned !! id = Some v -> (ownerOf inUse v = "" \/ ownerOf inUse v = lab) ->
     out !! id = Some v).
Proof.
  intros H Hinj. unfold Deconflict in H. rewrite sortStringsIns_eq in H.
  assert (forall id, id ∈ sortStrings (map fst (map_to_list assigned)) <->
                     is_Some (assigned !! id)) as Hids.
  { intros id. rewrite elem_of_sortStrings, list_elem_of_fmap. split.
    - intros ([k v] & -> & Hin%elem_of_map_to_list). by eexists.
    - intros [v Hv]. exists (id, v). split; [done|]. by apply elem_of_map_to_list. }
  apply deconflictLoop_ok in H as (A & B & C & D & E).
  - split_and!; [exact E|exact A| |exact D]. intros id v Hv.
    apply (B id v); [|done]. apply Hids, E. by eexists.
  - apply NoDup_sortStrings, NoDup_fst_map_to_list.
  - intros id. apply Hids.
  - intros id v Hv. left. unfold initiallyTaken. apply elem_of_union_r, elem_of_list_to_set.
    apply list_elem_of_fmap. exists (id, v). split; [done|]. by apply elem_of_map_to_list.
  - exact Hinj.
Qed.

(** ** The loops end *)

(** The different VNIs among the first [fuel] salts from [from] on. *)
Definition candidates (fuel : nat) (lab id : string) (from : Z) : gset Z :=
  list_to_set (map (fun k => VNI lab id (from + Z.of_nat k)) (seq 0 fuel)).

Lemma probe_enough fuel lab id usable salt (unusable : gset Z) :
  (forall v, usable v = false -> v ∈ unusable) ->
  (size unusable < size (candidates fuel lab id salt))%nat ->
  is_Some (probe fuel lab id usable salt).
Proof.
  intros Hu Hlt. destruct (decide (candidates fuel lab id salt ⊆ unusable)) as [Hsub|Hsub].
  { apply subseteq_size in Hsub. lia. }
  assert (exists k, (k < fuel)%nat /\ usable (VNI lab id (salt + Z.of_nat k)) = true) as (k & Hk & E).
  { destruct (decide (Exists (fun k => usable (VNI lab id (salt + Z.of_nat k)) = true) (seq 0 fuel)))
      as [He|He].
    - apply Exists_exists in He as (k & Hk & ?). apply elem_of_seq in Hk. exists k. split; [lia|done].
    - destruct Hsub. intros v Hv. apply elem_of_list_to_set, list_elem_of_fmap in Hv as (k & -> & Hk).
      apply Hu. destruct (usable _) eqn:E; [|done]. destruct He. apply Exists_exists. eauto. }
  destruct (probe_total lab id usable salt k E) as [v Hv]. exists v. by eapply probe_mono.
Qed.

Lemma assignLoop_enough fuel lab ids used out :
  (forall id, id ∈ ids -> (size used + length ids <= size (candidates fuel lab id 0))%nat) ->
  is_Some (assignLoop fuel lab ids used out).
Proof.
  revert used out. induction ids as [|x ids IH]; intros used out H; simpl; [by eexists|].
  destruct (probe_enough fuel lab x (fun v => bool_decide (v ∉ used)) 0 used) as [v Hv].
  { intros v Hv. apply bool_decide_eq_false in Hv. destruct (decide (v ∈ used)); [done|tauto]. }
  { specialize (H x ltac:(left)). simpl in H. lia. }
  rewrite Hv. simpl. apply IH. intros id Hid. specialize (H id ltac:(by right)). simpl in H.
  assert (size ({[v]} ∪ used) <= S (size used))%nat; [|lia].
  rewrite (size_union_alt {[v]} used), size_singleton.
  assert (size (used ∖ {[v]}) <= size used)%nat by (apply subseteq_size; set_solver). lia.
Qed.

Definition valuesOf (assigned : gmap string Z) : gset Z :=
  list_to_set (map snd (map_to_list assigned)).

Lemma elem_of_valuesOf assigned v :
  v ∈ valuesOf assigned <-> exists id, assigned !! id = Some v.
Proof.
  unfold valuesOf. rewrite elem_of_list_to_set, list_elem_of_fmap. split.
  - intros ([id w] & -> & H). apply elem_of_map_to_list in H. eauto.
  - intros [id H]. exists (id, v). split; [done|]. by apply elem_of_map_to_list.
Qed.

Lemma size_union_le (X Y : gset Z) : (size (X ∪ Y) <= size X + size Y)%nat.
Proof.
  rewrite size_union_alt. assert (size (Y ∖ X) <= size Y)%nat by (apply subseteq_size; set_solver).
  lia.
Qed.

Lemma size_list_le (l : list Z) : (size (list_to_set l : gset Z) <= length l)%nat.
Proof.
  induction l as [|x l IH]; cbn [list_to_set length]; [done|].
  pose proof (size_union_le {[x]} (list_to_set l)). rewrite size_singleton in *. lia.
Qed.

Lemma size_valuesOf assigned : (size (valuesOf assigned) <= size assigned)%nat.
Proof.
  unfold valuesOf. etrans; [apply size_list_le|]. by rewrite length_map, length_map_to_list.
Qed.

Lemma deconflictLoop_enough fuel lab inUse ids taken assigned moved :
  taken ⊆ dom inUse ∪ valuesOf assigned ->
  (forall id, id ∈ ids -> is_Some (assigned !! id) /\
     (size inUse + size assigned < size (candidates fuel lab id 1))%nat) ->
  is_Some (deconflictLoop fuel lab inUse ids taken assigned moved).
Proof.
  revert taken assigned moved.
  induction ids as [|x ids IH]; intros taken assigned moved Ht H; simpl; [by eexists|].
  destruct (H x ltac:(left)) as [[v Hx] Hc].
  destruct (clashes _ _ _) eqn:Ec; [|apply IH; [done|]; intros id Hid; apply H; by right].
  unfold lookup_or in *. rewrite Hx in *. simpl in *.
  destruct (probe_enough fuel lab x (usableCand lab inUse (taken ∖ {[v]})) 1
    (dom inUse ∪ valuesOf assigned)) as [c Hv].
  { intros w Hw. unfold usableCand, ownerOf, lookup_or in Hw.
    apply andb_false_iff in Hw as [Hw|Hw].
    - apply bool_decide_eq_false in Hw. destruct (decide (w ∈ taken)); [by apply Ht|set_solver].
    - apply elem_of_union_l, elem_of_dom. destruct (inUse !! w) eqn:E; [by eexists|].
      done. }
  { pose proof (size_valuesOf assigned). pose proof (size_dom inUse) as Hd.
    pose proof (size_union_le (dom inUse) (valuesOf assigned)). lia. }
  rewrite Hv. simpl. apply IH.
  - intros w [->%elem_of_singleton|Hw]%elem_of_union.
    { apply elem_of_union_r, elem_of_valuesOf. exists x. by rewrite lookup_insert_eq. }
    apply elem_of_difference in Hw as [Hw Hne]. rewrite elem_of_singleton in Hne.
    apply Ht, elem_of_union in Hw as [?|[id Hid]%elem_of_valuesOf]; [by apply elem_of_union_l|].
    apply elem_of_union_r, elem_of_valuesOf. exists id.
    rewrite lookup_insert_ne by (intros <-; congruence). done.
  - intros id Hid. destruct (H id ltac:(by right)) as [Hs Hl].
    rewrite map_size_insert_Some by (by eexists). split; [|done].
    destruct (decide (x = id)) as [<-|]; [rewrite lookup_insert_eq; by eexists|].
    by rewrite lookup_insert_ne.
Qed.

Lemma assignLoop_mono fuel fuel' lab ids used out r :
  (fuel <= fuel')%nat -> assignLoop fuel lab ids used out = Some r ->
  assignLoop fuel' lab ids used out = Some r.
Proof.
  intros Hle. revert used out. induction ids as [|x ids IH]; intros used out; simpl; [done|].
  destruct (probe fuel lab x _ 0) as [v|] eqn:E; [|done]. simpl.
  rewrite (probe_mono _ _ _ _ _ _ _ ltac:(exact Hle) E). apply IH.
Qed.

(** The unbounded probe loops end: when every link has, among its first
    [fuel] salts, as many different candidates as there are links, assignment
    returns, and when it has more of them than identifiers are in use or
    assigned, deconfliction returns; the bound on the salts has no influence
    on the assignment. *)
Theorem probing_terminates fuel lab ids assigned inUse :
  ((forall id, id ∈ ids -> (length ids <= size (candidates fuel lab id 0))%nat) ->
     exists out, AssignVNIs fuel lab ids = Some out /\
       forall fuel', (fuel <= fuel')%nat -> AssignVNIs fuel' lab ids = Some out) /\
  ((forall id, is_Some (assigned !! id) ->
      (size inUse + size assigned < size (candidates fuel lab id 1))%nat) ->
     is_Some (Deconflict fuel lab assigned inUse)).
Proof.
  split; intros H.
  - destruct (assignLoop_enough fuel lab (sortStringsIns ids) ∅ ∅) as [out Ho].
    { rewrite sortStringsIns_eq. intros id Hid. rewrite elem_of_sortStrings in Hid.
      rewrite size_empty. unfold sortStrings. rewrite merge_sort_Permutation. by apply H. }
    exists out. split; [done|]. intros fuel' Hle. by eapply assignLoop_mono.
  - apply deconflictLoop_enough.
    + unfold initiallyTaken. apply union_mono; [|done]. intros v Hv.
      apply elem_of_list_to_set, list_elem_of_fmap in Hv as ([w o] & -> & Hw).
      apply list_elem_of_filter in Hw as [_ Hw]. apply elem_of_map_to_list in Hw.
      by apply elem_of_dom_2 in Hw.
    + intros id Hid. rewrite sortStringsIns_eq, elem_of_sortStrings in Hid.
      apply list_elem_of_fmap in Hid as ([i v] & -> & Hi).
      apply elem_of_map_to_list in Hi. simpl. split; [by eexists|]. apply H. by eexists.
Qed.

(** ** Names fit the kernel and tell links apart *)

Lemma length_hexPadded w n acc :
  String.length (hexPadded w n acc) = (w + String.length acc)%nat.
Proof.
  revert n acc. induction w as [|w IH]; intros n acc; simpl; [done|]. rewrite IH. simpl. lia.
Qed.

Lemma length_decOf d n acc :
  (String.length (decOf d n acc) <= d + String.length acc)%nat.
Proof.
  revert n acc. induction d as [|d IH]; intros n acc; simpl; [lia|].
  destruct (_ =? 0); simpl; [lia|]. specialize (IH (n / 10) (String (ascii_of_N (Z.to_N (48 + n mod 10))) acc)).
  simpl in IH. lia.
Qed.

(** Reading a decimal numeral back. *)
Fixpoint readDec (v : Z) (s : string) : Z :=
  match s with
  | EmptyString => v
  | String c s => readDec (10 * v + (byteOf c - 48)) s
  end.

Lemma readDec_digit n v s : 0 <= n < 10 ->
  readDec v (String (ascii_of_N (Z.to_N (48 + n))) s) = readDec (10 * v + n) s.
Proof.
  intros Hn. simpl. f_equal. unfold byteOf. rewrite N_ascii_embedding by lia. lia.
Qed.

Lemma readDec_decOf d n acc :
  0 <= n < 10 ^ Z.of_nat d -> (0 < d)%nat -> readDec 0 (decOf d n acc) = readDec n acc.
Proof.
  revert n acc. induction d as [|d IH]; intros n acc Hn Hd; [lia|]. cbn [decOf].
  pose proof (Z.mod_pos_bound n 10 ltac:(lia)) as Hmod.
  pose proof (Z.div_mod n 10 ltac:(lia)) as Hdm.
  destruct (n / 10 =? 0) eqn:E.
  - apply Z.eqb_eq in E. rewrite readDec_digit by lia. f_equal. lia.
  - apply Z.eqb_neq in E. rewrite Nat2Z.inj_succ, Z.pow_succ_r in Hn by lia.
    assert (0 <= n / 10 < 10 ^ Z.of_nat d) as Hq
      by (split; [apply Z.div_pos; lia|apply Z.div_lt_upper_bound; lia]).
    destruct d as [|d]; [simpl in Hq; lia|].
    rewrite IH by (done || lia). rewrite readDec_digit by lia. f_equal. lia.
Qed.

(** Interface names fit the kernel's 15 bytes and identify the tunnel:
    bridge, VXLAN and temporary interface names are at most 15 bytes long for
    every 32-bit VNI and every side byte, and two VNIs never share a bridge or
    a VXLAN device. *)
Theorem interface_names_fit lab linkID side v w :
  0 <= v < 2 ^ 32 -> 0 <= w < 2 ^ 32 ->
  (String.length (BridgeName v) <= 15)%nat /\ (String.length (VxlanName v) <= 15)%nat /\
  (String.length (TempIfName lab linkID side) <= 15)%nat /\
  (BridgeName v = BridgeName w -> v = w) /\ (VxlanName v = VxlanName w -> v = w).
Proof.
  intros Hv Hw.
  assert (forall p q, p < 2 ^ 32 -> q < 2 ^ 32 -> 0 <= p -> 0 <= q ->
            decOf 10 p "" = decOf 10 q "" -> p = q) as Hinj.
  { intros p q Hp Hq Hp0 Hq0 Heq. apply (f_equal (readDec 0)) in Heq.
    rewrite !readDec_decOf in Heq; simpl; lia || done. }
  unfold BridgeName, VxlanName, TempIfName. rewrite !length_append.
  pose proof (length_decOf 10 v "") as Hl. simpl in Hl. split_and!; try (simpl; lia).
  - rewrite length_hexPadded. unfold charOf. destruct (side <? 128); simpl; lia.
  - intros H. apply Hinj; try lia. by injection H.
  - intros H. apply Hinj; try lia. by injection H.
Qed.

(** ** Witnesses *)

Definition demoLinks : list string := ["as2--as1"; "as1--as3"; "as1--as4"].
Definition demoAssigned : gmap string Z := default ∅ (AssignVNIs 3 "cos461" demoLinks).
(** Another lab already uses the VNI of the first link. *)
Definition demoInUse : gmap Z string :=
  {[VNI "cos461" "as1--as3" 0 := "other"; VNI "cos461" "as1--as4" 0 := "cos461"]}.

Lemma assigned_vnis_are_unique_witness :
  size demoAssigned = 3%nat /\
  AssignVNIs 3 "cos461" ["as1--as3"; "as2--as1"; "as1--as4"] = Some demoAssigned.
Proof.
  split; [vm_compute; reflexivity|].
  assert (AssignVNIs 3 "cos461" demoLinks = Some demoAssigned) as H by (vm_compute; reflexivity).
  exact (proj2 (proj2 (proj2 (assigned_vnis_are_unique 3 "cos461" demoLinks
    ["as1--as3"; "as2--as1"; "as1--as4"] demoAssigned H (perm_swap _ _ _))))).
Defined.

Lemma deconflicted_vnis_are_private_witness :
  exists out, Deconflict 3 "cos461" demoAssigned demoInUse = Some (out, 1%nat) /\
    out !! "as1--as4" = demoAssigned !! "as1--as4".
Proof.
  set (r := Deconflict 3 "cos461" demoAssigned demoInUse).
  assert (exists out, r = Some (out, 1%nat)) as [out H].
  { exists (match r with Some (o, _) => o | None => ∅ end). vm_compute. reflexivity. }
  exists out. split; [exact H|].
  assert (AssignVNIs 3 "cos461" demoLinks = Some demoAssigned) as Ha by (vm_compute; reflexivity).
  assert (demoAssigned !! "as1--as4" = Some (VNI "cos461" "as1--as4" 0)) as Hv
    by (vm_compute; reflexivity).
  rewrite Hv.
  apply (proj2 (proj2 (proj2 (deconflicted_vnis_are_private 3 "cos461" demoAssigned demoInUse
           out 1 H (AssignVNIs_inj _ _ _ _ Ha))))); [exact Hv|].
  right. vm_compute. reflexivity.
Defined.

Lemma interface_names_fit_witness :
  BridgeName 15999999 = "twbr15999999" /\ (String.length (BridgeName 15999999) <= 15)%nat.
Proof.
  split; [vm_compute; reflexivity|].
  apply (interface_names_fit "lab" "l" 97 15999999 0); lia.
Defined.

Lemma probing_terminates_witness :
  (exists out, AssignVNIs 8 "cos461" demoLinks = Some out /\
     forall fuel', (8 <= fuel')%nat -> AssignVNIs fuel' "cos461" demoLinks = Some out) /\
  is_Some (Deconflict 8 "cos461" demoAssigned demoInUse).
Proof.
  destruct (probing_terminates 8 "cos461" demoLinks demoAssigned demoInUse) as [H1 H2].
  split; [apply H1|apply H2].
  - apply Forall_forall. apply (bool_decide_eq_true_1 _). vm_compute. reflexivity.
  - intros id [v Hv].
    assert (Forall (fun kv => (size demoInUse + size demoAssigned
      < size (candidates 8 "cos461" kv.1 1))%nat) (map_to_list demoAssigned)) as F.
    { apply (bool_decide_eq_true_1 _). vm_compute. reflexivity. }
    exact (proj1 (Forall_forall _ _) F (id, v) (proj2 (elem_of_map_to_list _ _ _) Hv)).
Defined.
