(* ===== verification/Ipam.v ===== *)
(** * Addressing: prefixes, subnets and overlap detection

    Models the overlap checker of [internal/ipam/plan.go] and the CIDR helpers
    of [internal/ipam/funcs.go], with the part of [net/netip] they use. The
    helpers take the outcome of [netip.ParsePrefix] instead of its text. *)

From stdpp Require Import base strings list sorting.
From Stdlib Require Import ZArith Lia.
From S2P Require Import Prelude.

Open Scope Z_scope.

(** ** [net/netip] *)

Record Addr := mkAddr { Is4 : bool; aval : Z }.
#[export] Instance Addr_eq_dec : EqDecision Addr.
Proof. solve_decision. Defined.

Record Prefix := mkPrefix { pAddr : Addr; pBits : Z }.
#[export] Instance Prefix_eq_dec : EqDecision Prefix.
Proof. solve_decision. Defined.

Definition BitLen (a : Addr) : Z := if Is4 a then 32 else 128.

(** [Addr.Less]: shorter families first, then by value. *)
Definition Less (a b : Addr) : bool :=
  if BitLen a =? BitLen b then aval a <? aval b else BitLen a <? BitLen b.

Definition hostBits (p : Prefix) : Z := BitLen (pAddr p) - pBits p.

(** [Prefix.Masked]. *)
Definition maskTo (h v : Z) : Z := Z.shiftl (Z.shiftr v h) h.
Definition Masked (p : Prefix) : Prefix :=
  mkPrefix (mkAddr (Is4 (pAddr p)) (maskTo (hostBits p) (aval (pAddr p)))) (pBits p).

(** [Prefix.Contains]. *)
Definition Contains (p : Prefix) (a : Addr) : bool :=
  eqb (Is4 (pAddr p)) (Is4 a)
  && (Z.shiftr (aval (pAddr p)) (hostBits p) =? Z.shiftr (aval a) (hostBits p)).

(** [Prefix.Overlaps]: the shorter of the two lengths decides. *)
Definition Overlaps (p o : Prefix) : bool :=
  eqb (Is4 (pAddr p)) (Is4 (pAddr o)) &&
  let h := BitLen (pAddr p) - Z.min (pBits p) (pBits o) in
  (Z.shiftr (aval (pAddr p)) h =? Z.shiftr (aval (pAddr o)) h).

(** [addrToBig]: the sixteen-byte form, IPv4 mapped. *)
Definition addrToBig (a : Addr) : Z :=
  if Is4 a then Z.shiftl 65535 32 + aval a else aval a.

(** [bigToAddr]: the bytes of the absolute value, the last sixteen of them,
    and [Unmap] for IPv4. *)
Definition bigToAddr (n : Z) (is4 : bool) : Addr :=
  let b := Z.abs n mod 2 ^ 128 in
  if is4 && (Z.shiftr b 32 =? 65535) then mkAddr true (b mod 2 ^ 32) else mkAddr false b.

Definition lastAddr (p : Prefix) : Addr :=
  let a := pAddr (Masked p) in
  let host := BitLen a - pBits p in
  if host =? 0 then a else bigToAddr (addrToBig a + Z.shiftl 1 host - 1) (Is4 a).

(** A prefix as [ParsePrefix] or [Masked] yields it. *)
Definition validAddr (a : Addr) : Prop := 0 <= aval a < 2 ^ BitLen a.
Definition valid (p : Prefix) : Prop := validAddr (pAddr p) /\ 0 <= pBits p <= BitLen (pAddr p).
Definition masked (p : Prefix) : Prop := valid p /\ Masked p = p.

(** ** The registry *)

Record Claim := mkClaimIP {
  clPrefix : Prefix; clOwner : string; clField : string; clScope : string
}.
Record Registry := mkRegistry { claims : list Claim; exempt : list Claim }.

Definition NewRegistry : Registry := mkRegistry [] [].

(** [Registry.Exempt] and [Registry.Claim]. *)
Definition Exempt (p : Prefix) (scope : string) (r : Registry) : Registry :=
  mkRegistry (claims r) (exempt r ++ [mkClaimIP (Masked p) "" "" scope]).
Definition addClaim (p : Prefix) (owner field scope : string) (r : Registry) : Registry :=
  mkRegistry (claims r ++ [mkClaimIP (Masked p) owner field scope]) (exempt r).

Definition aggregateFor (r : Registry) (p : Prefix) : option Claim :=
  head (filter (fun e => clPrefix e = p) (exempt r)).

Definition contains (outer inner : Prefix) : bool :=
  (pBits outer <=? pBits inner) && Contains outer (pAddr inner).

Definition exemptPair (r : Registry) (a b : Claim) : bool :=
  match aggregateFor r (clPrefix a), aggregateFor r (clPrefix b) with
  | Some _, Some _ => false
  | Some e, None => contains (clPrefix a) (clPrefix b) && bool_decide (clScope e = clScope b)
  | None, Some e => contains (clPrefix b) (clPrefix a) && bool_decide (clScope e = clScope a)
  | None, None => false
  end.

(** The inner loop of [Conflicts] for one claim; [[]] on its [break]. *)
Fixpoint scan (r : Registry) (a : Claim) (rest : list Claim) : list (Claim * Claim) :=
  match rest with
  | [] => []
  | b :: rest =>
      if negb (eqb (Is4 (pAddr (clPrefix a))) (Is4 (pAddr (clPrefix b)))) then scan r a rest
      else if negb (Overlaps (clPrefix a) (clPrefix b)) then
        if Less (pAddr (clPrefix b)) (lastAddr (clPrefix a))
           || bool_decide (pAddr (clPrefix b) = lastAddr (clPrefix a))
        then scan r a rest else []
      else if exemptPair r a b then scan r a rest
      else (a, b) :: scan r a rest
  end.

Fixpoint sweep (r : Registry) (l : list Claim) : list (Claim * Claim) :=
  match l with
  | [] => []
  | a :: rest => scan r a rest ++ sweep r rest
  end.

(** The order the claims are sorted by. *)
Definition claimLe (a b : Claim) : Prop :=
  let pa := clPrefix a in let pb := clPrefix b in
  if decide (pAddr pa = pAddr pb) then pBits pa <= pBits pb
  else Less (pAddr pa) (pAddr pb) = true.
#[export] Instance claimLe_dec : RelDecision claimLe.
Proof. intros a b. unfold claimLe. case_decide; apply _. Defined.

Definition Conflicts (r : Registry) : list (Claim * Claim) :=
  sweep r (merge_sort claimLe (claims r)).

(** ** CIDR helpers *)

Inductive ipErr := ENotPrefix | EBitsRange | EIndexRange.

Definition cidrSubnet (base : option Prefix) (index newBits : Z) : result ipErr Prefix :=
  match base with
  | None => Err ENotPrefix
  | Some p =>
      let p := Masked p in
      if (newBits <? pBits p) || (BitLen (pAddr p) <? newBits) then Err EBitsRange
      else
        let shift := BitLen (pAddr p) - newBits in
        if Z.shiftl 1 (newBits - pBits p) <=? index then Err EIndexRange
        else
          let n := addrToBig (pAddr p) + Z.shiftl index shift in
          Ok (mkPrefix (bigToAddr n (Is4 (pAddr p))) newBits)
  end.

Definition cidrHost (base : option Prefix) (index : Z) : result ipErr Prefix :=
  match base with
  | None => Err ENotPrefix
  | Some p =>
      let p := Masked p in
      let host := BitLen (pAddr p) - pBits p in
      if Z.shiftl 1 host <=? index then Err EIndexRange
      else Ok (mkPrefix (bigToAddr (addrToBig (pAddr p) + index) (Is4 (pAddr p))) (pBits p))
  end.

Definition cidrAddr (s : option Prefix) : result ipErr Addr :=
  match s with None => Err ENotPrefix | Some p => Ok (pAddr p) end.
Definition cidrNetwork (s : option Prefix) : result ipErr Prefix :=
  match s with None => Err ENotPrefix | Some p => Ok (Masked p) end.
Definition cidrBits (s : option Prefix) : result ipErr Z :=
  match s with None => Err ENotPrefix | Some p => Ok (pBits p) end.

(** [Host]. *)
Definition Host (subnet : option Prefix) (n : Z) : result ipErr Prefix := cidrHost subnet n.

(** ** Arithmetic of prefixes *)

Lemma BitLen_cases a : BitLen a = 32 \/ BitLen a = 128.
Proof. unfold BitLen. destruct (Is4 a); auto. Qed.

Lemma maskTo_div h v : 0 <= h -> maskTo h v = v / 2 ^ h * 2 ^ h.
Proof. intros. unfold maskTo. by rewrite Z.shiftl_mul_pow2, Z.shiftr_div_pow2 by done. Qed.

Lemma pow_pos h : 0 <= h -> 0 < 2 ^ h.
Proof. intros. by apply Z.pow_pos_nonneg. Qed.

(** Being in the block of [2^h] addresses that starts at a multiple. *)
Lemma block_iff h m v : 0 <= h -> (m / 2 ^ h * 2 ^ h = m) ->
  (m / 2 ^ h = v / 2 ^ h <-> m <= v < m + 2 ^ h).
Proof.
  intros Hh Hm. pose proof (pow_pos h Hh) as Hp.
  pose proof (Z.div_mod v (2 ^ h) ltac:(lia)). pose proof (Z.mod_pos_bound v (2 ^ h) Hp).
  set (q := m / 2 ^ h) in *. set (q' := v / 2 ^ h) in *. split; [intros ->; nia|nia].
Qed.

Lemma bigToAddr_in4 v : 0 <= v < 2 ^ 32 ->
  bigToAddr (Z.shiftl 65535 32 + v) true = mkAddr true v.
Proof.
  intros Hv. unfold bigToAddr. rewrite Z.shiftl_mul_pow2 by lia.
  rewrite Z.abs_eq by lia. rewrite (Z.mod_small (65535 * 2 ^ 32 + v)) by lia.
  rewrite Z.shiftr_div_pow2, Z.div_add_l, (Z.div_small v) by lia. simpl.
  f_equal. rewrite Z.add_comm, Z.mod_add, Z.mod_small by lia. done.
Qed.

Lemma bigToAddr_in6 v : 0 <= v < 2 ^ 128 -> bigToAddr v false = mkAddr false v.
Proof.
  intros Hv. unfold bigToAddr. rewrite Z.abs_eq, Z.mod_small by lia. done.
Qed.

(** Adding an offset that stays within the family. *)
Lemma bigToAddr_offset a k :
  0 <= aval a + k < 2 ^ BitLen a ->
  bigToAddr (addrToBig a + k) (Is4 a) = mkAddr (Is4 a) (aval a + k).
Proof.
  destruct a as [b v]. unfold addrToBig, BitLen. simpl. destruct b; intros H.
  - rewrite <- Z.add_assoc. by apply bigToAddr_in4.
  - by apply bigToAddr_in6.
Qed.

Section Masked.
Context (p : Prefix) (Hp : masked p).

Lemma hostBits_range : 0 <= hostBits p <= BitLen (pAddr p).
Proof. destruct Hp as [[_ ?] _]. unfold hostBits. lia. Qed.

Lemma masked_div : aval (pAddr p) / 2 ^ hostBits p * 2 ^ hostBits p = aval (pAddr p).
Proof.
  pose proof hostBits_range. rewrite <- maskTo_div by lia.
  destruct Hp as [_ H']. by rewrite <- H' at 3.
Qed.

(** The block of a prefix ends inside its family. *)
Lemma block_end : aval (pAddr p) + 2 ^ hostBits p <= 2 ^ BitLen (pAddr p).
Proof.
  pose proof hostBits_range as Hh. pose proof masked_div as Hd.
  destruct Hp as [[[H0 H1] _] _]. pose proof (pow_pos (hostBits p) ltac:(lia)) as Hpos.
  assert (2 ^ BitLen (pAddr p) = 2 ^ hostBits p * 2 ^ (BitLen (pAddr p) - hostBits p)) as E.
  { rewrite <- Z.pow_add_r by lia. f_equal. lia. }
  rewrite E in *. set (x := 2 ^ hostBits p) in *.
  set (y := 2 ^ (BitLen (pAddr p) - hostBits p)) in *.
  set (q := aval (pAddr p) / x) in *. assert (q < y) by nia. nia.
Qed.

Lemma lastAddr_eq :
  lastAddr p = mkAddr (Is4 (pAddr p)) (aval (pAddr p) + 2 ^ hostBits p - 1).
Proof.
  pose proof hostBits_range as Hh. pose proof block_end as He.
  destruct Hp as [[[H0 H1] _] Hm]. unfold lastAddr. rewrite Hm. fold (hostBits p).
  pose proof (pow_pos (hostBits p) ltac:(lia)).
  destruct (hostBits p =? 0) eqn:E.
  - apply Z.eqb_eq in E. rewrite E. destruct (pAddr p). simpl. f_equal. lia.
  - rewrite Z.shiftl_mul_pow2, Z.mul_1_l by lia.
    replace (addrToBig (pAddr p) + 2 ^ hostBits p - 1)
      with (addrToBig (pAddr p) + (2 ^ hostBits p - 1)) by lia.
    rewrite bigToAddr_offset; [f_equal; lia|]. unfold validAddr in *. lia.
Qed.

Lemma Contains_iff a :
  Contains p a = true <->
  Is4 a = Is4 (pAddr p) /\ aval (pAddr p) <= aval a < aval (pAddr p) + 2 ^ hostBits p.
Proof.
  pose proof hostBits_range as Hh. unfold Contains.
  rewrite andb_true_iff, eqb_true_iff, Z.eqb_eq, !Z.shiftr_div_pow2 by lia.
  rewrite (block_iff (hostBits p) _ _ ltac:(lia) masked_div). naive_solver.
Qed.
End Masked.

(** Two masked prefixes overlap when one contains the other's first
    address. *)
Lemma Overlaps_iff p o : masked p -> masked o ->
  Overlaps p o = true <->
  Is4 (pAddr p) = Is4 (pAddr o) /\
  aval (pAddr p) < aval (pAddr o) + 2 ^ hostBits o /\
  aval (pAddr o) < aval (pAddr p) + 2 ^ hostBits p.
Proof.
  intros Hp Ho. unfold Overlaps. rewrite andb_true_iff, eqb_true_iff.
  pose proof (hostBits_range p Hp) as H1. pose proof (hostBits_range o Ho) as H2.
  pose proof (pow_pos (hostBits p) ltac:(lia)). pose proof (pow_pos (hostBits o) ltac:(lia)).
  destruct (decide (Is4 (pAddr p) = Is4 (pAddr o))) as [E|E]; [|naive_solver].
  assert (BitLen (pAddr p) = BitLen (pAddr o)) as Hb by (unfold BitLen; by rewrite E).
  rewrite Z.eqb_eq. destruct (Z.le_ge_cases (pBits p) (pBits o)) as [Hle|Hle].
  - rewrite Z.min_l by done. fold (hostBits p). rewrite !Z.shiftr_div_pow2 by lia.
    rewrite (block_iff (hostBits p) _ _ ltac:(lia) (masked_div p Hp)).
    split; [intros [_ ?]; split_and!; [done|lia|lia]|]. intros (_ & A & B). split; [done|].
    assert (hostBits o <= hostBits p) as Hh by (unfold hostBits in *; lia).
    pose proof (masked_div p Hp) as Dp. pose proof (masked_div o Ho) as Do.
    replace (hostBits p) with (hostBits o + (hostBits p - hostBits o)) in Dp by lia.
    rewrite Z.pow_add_r in Dp by lia. pose proof (pow_pos (hostBits p - hostBits o) ltac:(lia)).
    set (x := 2 ^ hostBits o) in *. set (y := 2 ^ (hostBits p - hostBits o)) in *.
    set (q := aval (pAddr p) / (x * y)) in *. set (q' := aval (pAddr o) / x) in *.
    split; [|lia]. assert (x * (q * y) < x * (q' + 1)) as Hq by lia.
    apply Z.mul_lt_mono_pos_l in Hq; [|lia]. assert (q * y <= q') as Hq' by lia.
    apply (Z.mul_le_mono_nonneg_r _ _ x) in Hq'; lia.
  - rewrite Z.min_r by done. rewrite Hb. fold (hostBits o). rewrite !Z.shiftr_div_pow2 by lia.
    assert (forall u w : Z, u = w <-> w = u) as Hsym by (split; auto).
    rewrite (Hsym (aval (pAddr p) / _)).
    rewrite (block_iff (hostBits o) _ _ ltac:(lia) (masked_div o Ho)).
    split; [intros [_ ?]; split_and!; [done|lia|lia]|]. intros (_ & A & B). split; [done|].
    assert (hostBits p <= hostBits o) as Hh by (unfold hostBits in *; lia).
    pose proof (masked_div p Hp) as Dp. pose proof (masked_div o Ho) as Do.
    replace (hostBits o) with (hostBits p + (hostBits o - hostBits p)) in Do by lia.
    rewrite Z.pow_add_r in Do by lia. pose proof (pow_pos (hostBits o - hostBits p) ltac:(lia)).
    set (x := 2 ^ hostBits p) in *. set (y := 2 ^ (hostBits o - hostBits p)) in *.
    set (q := aval (pAddr o) / (x * y)) in *. set (q' := aval (pAddr p) / x) in *.
    split; [|lia]. assert (x * (q * y) < x * (q' + 1)) as Hq by lia.
    apply Z.mul_lt_mono_pos_l in Hq; [|lia]. assert (q * y <= q') as Hq' by lia.
    apply (Z.mul_le_mono_nonneg_r _ _ x) in Hq'; lia.
Qed.

Lemma maskTo_range h v L : 0 <= h -> 0 <= v < 2 ^ L -> 0 <= maskTo h v <= v.
Proof.
  intros Hh Hv. rewrite maskTo_div by done. pose proof (pow_pos h Hh).
  pose proof (Z.div_mod v (2 ^ h) ltac:(lia)). pose proof (Z.mod_pos_bound v (2 ^ h) ltac:(lia)).
  pose proof (Z.div_pos v (2 ^ h) ltac:(lia) ltac:(lia)). split; nia.
Qed.

Lemma Masked_masked p : valid p -> masked (Masked p).
Proof.
  intros [[H0 H1] Hb]. assert (0 <= hostBits p) as Hh by (unfold hostBits; lia).
  pose proof (maskTo_range (hostBits p) _ _ Hh (conj H0 H1)) as Hr.
  split; [split; [|done]|].
  - unfold validAddr. simpl. change (BitLen (mkAddr _ _)) with (BitLen (pAddr p)). lia.
  - unfold Masked. simpl. change (hostBits (mkPrefix _ _)) with (hostBits p).
    f_equal. f_equal. rewrite !maskTo_div by done. rewrite Z.div_mul; [done|].
    pose proof (pow_pos _ Hh). lia.
Qed.

(** ** The sweep *)

(** The pairs a full comparison would report. *)
Fixpoint allPairs (r : Registry) (l : list Claim) : list (Claim * Claim) :=
  match l with
  | [] => []
  | a :: rest =>
      map (fun b => (a, b))
        (List.filter (fun b => Overlaps (clPrefix a) (clPrefix b) && negb (exemptPair r a b)) rest)
      ++ allPairs r rest
  end.

Lemma Less_iff a b : Is4 a = Is4 b -> Less a b = (aval a <? aval b).
Proof. intros E. unfold Less, BitLen. rewrite E, Z.eqb_refl. done. Qed.

Lemma claimLe_addr a b :
  claimLe a b -> Is4 (pAddr (clPrefix a)) = Is4 (pAddr (clPrefix b)) ->
  aval (pAddr (clPrefix a)) <= aval (pAddr (clPrefix b)).
Proof.
  unfold claimLe. intros H E. case_decide as Ha; [rewrite Ha; lia|].
  rewrite Less_iff in H by done. apply Z.ltb_lt in H. lia.
Qed.

Lemma scan_filter r a rest :
  masked (clPrefix a) -> Forall (fun c => masked (clPrefix c)) rest ->
  StronglySorted claimLe (a :: rest) ->
  scan r a rest = map (fun b => (a, b)) (List.filter
    (fun b => Overlaps (clPrefix a) (clPrefix b) && negb (exemptPair r a b)) rest).
Proof.
  intros Ha. induction rest as [|b rest IH]; intros Hm Hs; [done|].
  apply Forall_cons in Hm as [Hb Hm].
  apply StronglySorted_cons in Hs as [Hab Hs]. apply Forall_cons in Hab as [Hab Har].
  apply StronglySorted_cons in Hs as [Hbr Hs].
  assert (StronglySorted claimLe (a :: rest)) as Hs' by (by apply StronglySorted_cons).
  specialize (IH Hm Hs'). cbn [scan List.filter].
  destruct (eqb (Is4 (pAddr (clPrefix a))) (Is4 (pAddr (clPrefix b)))) eqn:Ef; simpl.
  2:{ rewrite IH. unfold Overlaps. by rewrite Ef. }
  apply eqb_prop in Ef.
  destruct (Overlaps (clPrefix a) (clPrefix b)) eqn:Eo; simpl.
  { destruct (exemptPair r a b); simpl; by rewrite IH. }
  destruct (_ || _) eqn:Ec; [done|]. symmetry.
  assert (List.filter (fun b => Overlaps (clPrefix a) (clPrefix b)
            && negb (exemptPair r a b)) rest = []) as ->; [|done].
  apply orb_false_iff in Ec as [El En]. apply bool_decide_eq_false in En.
  rewrite (lastAddr_eq _ Ha) in El, En. rewrite Less_iff in El by (simpl; congruence). simpl in El.
  apply Z.ltb_ge in El.
  assert (aval (pAddr (clPrefix a)) + 2 ^ hostBits (clPrefix a) <= aval (pAddr (clPrefix b))) as Hgt.
  { destruct (decide (aval (pAddr (clPrefix b)) =
      aval (pAddr (clPrefix a)) + 2 ^ hostBits (clPrefix a) - 1)) as [E|]; [|lia].
    exfalso. apply En. rewrite <- E, Ef. by destruct (pAddr (clPrefix b)). }
  clear El En IH. induction rest as [|c rest IHr]; [done|]. simpl.
  apply Forall_cons in Hm as [Hc Hm]. apply Forall_cons in Har as [Hac Har].
  apply Forall_cons in Hbr as [Hbc Hbr].
  destruct (Overlaps (clPrefix a) (clPrefix c)) eqn:Eac.
  - exfalso. apply Overlaps_iff in Eac as (E1 & _ & E3); [|done|done].
    pose proof (claimLe_addr b c Hbc ltac:(congruence)). lia.
  - simpl. apply StronglySorted_cons in Hs as [_ Hs]. apply IHr; try done.
    by apply StronglySorted_cons.
Qed.

(** The overlap sweep misses nothing: for every sorted arrangement of
    masked claims, also the one an unstable sort may choose among equal
    prefixes, the sweep that stops at the first claim beyond the end reports
    exactly the pairs that comparing every claim with every later one would
    report. *)
Theorem sweep_reports_every_conflict r l :
  l ≡ₚ claims r -> StronglySorted claimLe l ->
  Forall (fun c => masked (clPrefix c)) (claims r) ->
  sweep r l = allPairs r l.
Proof.
  intros Hp Hs Hm. rewrite <- Hp in Hm. clear Hp.
  induction l as [|a rest IH]; [done|]. simpl.
  apply Forall_cons in Hm as [Ha Hm].
  rewrite scan_filter by done. f_equal. apply IH; [|done].
  by apply StronglySorted_cons in Hs as [_ ?].
Qed.

(** ** Subnets *)

Lemma subnet_offset p index newBits :
  masked p -> pBits p <= newBits <= BitLen (pAddr p) -> 0 <= index < 2 ^ (newBits - pBits p) ->
  0 <= index * 2 ^ (BitLen (pAddr p) - newBits) /\
  aval (pAddr p) + (index + 1) * 2 ^ (BitLen (pAddr p) - newBits)
    <= aval (pAddr p) + 2 ^ hostBits p.
Proof.
  intros Hp Hb Hi. pose proof (pow_pos (BitLen (pAddr p) - newBits) ltac:(lia)) as Hpos.
  assert (2 ^ hostBits p = 2 ^ (newBits - pBits p) * 2 ^ (BitLen (pAddr p) - newBits)) as E.
  { rewrite <- Z.pow_add_r by (destruct Hp as [[_ ?] _]; lia). f_equal. unfold hostBits. lia. }
  rewrite E. split; nia.
Qed.

Lemma shiftl_1 n : 0 <= n -> Z.shiftl 1 n = 2 ^ n.
Proof. intros. by rewrite Z.shiftl_mul_pow2, Z.mul_1_l. Qed.

Lemma cidrSubnet_value p index newBits :
  valid p -> pBits p <= newBits <= BitLen (pAddr p) -> 0 <= index < 2 ^ (newBits - pBits p) ->
  cidrSubnet (Some p) index newBits =
    Ok (mkPrefix (mkAddr (Is4 (pAddr p)) (aval (pAddr (Masked p))
          + index * 2 ^ (BitLen (pAddr p) - newBits))) newBits).
Proof.
  intros Hv Hb Hi. pose proof (Masked_masked p Hv) as Hm.
  unfold cidrSubnet. set (q := Masked p) in *.
  assert (BitLen (pAddr q) = BitLen (pAddr p)) as Hl by done.
  change (pBits q) with (pBits p). change (Is4 (pAddr q)) with (Is4 (pAddr p)). rewrite Hl.
  rewrite (proj2 (Z.ltb_ge _ _)), (proj2 (Z.ltb_ge _ _)) by lia. simpl.
  rewrite shiftl_1 by lia. rewrite (proj2 (Z.leb_gt _ _)) by lia.
  rewrite Z.shiftl_mul_pow2 by lia.
  destruct (subnet_offset q index newBits Hm Hb Hi) as [H1 H2].
  pose proof (block_end q Hm) as He. rewrite Hl in *.
  pose proof (pow_pos (BitLen (pAddr p) - newBits) ltac:(lia)).
  destruct Hm as [[[H0 _] _] _].
  change (Is4 (pAddr p)) with (Is4 (pAddr q)). rewrite bigToAddr_offset; [done|]. rewrite Hl. nia.
Qed.

Lemma aligned_masked b v bits (L := BitLen (mkAddr b v)) :
  0 <= v < 2 ^ L -> 0 <= bits <= L -> v / 2 ^ (L - bits) * 2 ^ (L - bits) = v ->
  masked (mkPrefix (mkAddr b v) bits).
Proof.
  intros Hv Hb Ha. split; [by split|]. unfold Masked, hostBits. simpl. fold L.
  rewrite maskTo_div, Ha by lia. done.
Qed.

Lemma cidrSubnet_fits p k newBits :
  pBits p <= newBits <= BitLen (pAddr p) ->
  is_ok (cidrSubnet (Some p) k newBits) = true -> k < 2 ^ (newBits - pBits p).
Proof.
  intros Hb. unfold cidrSubnet. change (pBits (Masked p)) with (pBits p).
  change (BitLen (pAddr (Masked p))) with (BitLen (pAddr p)).
  rewrite (proj2 (Z.ltb_ge _ _)), (proj2 (Z.ltb_ge _ _)) by lia. simpl. rewrite shiftl_1 by lia.
  destruct (_ <=? k) eqn:E; [done|]. by apply Z.leb_gt in E.
Qed.

Lemma cidrSubnet_ok p newBits k q (w := 2 ^ (BitLen (pAddr p) - newBits)) :
  valid p -> pBits p <= newBits <= BitLen (pAddr p) -> 0 <= k ->
  cidrSubnet (Some p) k newBits = Ok q ->
  masked q /\ Is4 (pAddr q) = Is4 (pAddr p) /\ pBits q = newBits /\
  aval (pAddr q) = aval (pAddr (Masked p)) + k * w /\ k < 2 ^ (newBits - pBits p).
Proof.
  intros Hv Hb Hk H. pose proof (Masked_masked p Hv) as Hm.
  assert (k < 2 ^ (newBits - pBits p)) as Hlt by (apply cidrSubnet_fits; [done|by rewrite H]).
  rewrite cidrSubnet_value in H by lia || done.
  match type of H with Ok ?x = _ => assert (q = x) as -> by congruence end. clear H. fold w.
  assert (0 < w) as Hw by (apply pow_pos; lia).
  destruct (subnet_offset (Masked p) k newBits Hm Hb (conj Hk Hlt)) as [O1 O2].
  change (BitLen (pAddr (Masked p))) with (BitLen (pAddr p)) in *. fold w in O1, O2.
  pose proof (block_end (Masked p) Hm) as He. pose proof (masked_div (Masked p) Hm) as Hd.
  pose proof Hm as [[[H0 _] _] _]. destruct Hv as [_ Hbp].
  assert (2 ^ hostBits (Masked p) = 2 ^ (newBits - pBits p) * w) as E.
  { unfold w. rewrite <- Z.pow_add_r by lia. f_equal.
    change (hostBits (Masked p)) with (BitLen (pAddr p) - pBits p). lia. }
  generalize dependent (aval (pAddr (Masked p))). intros m O2 He Hd H0.
  split_and!; try done. apply aligned_masked;
    change (BitLen (mkAddr (Is4 (pAddr p)) _)) with (BitLen (pAddr p)); fold w; [|lia|].
  - change (BitLen (pAddr (Masked p))) with (BitLen (pAddr p)) in He.
    rewrite Z.mul_add_distr_r in O2. lia.
  - rewrite E in Hd. set (d := m / (2 ^ (newBits - pBits p) * w)) in *.
    replace (m + k * w) with ((d * 2 ^ (newBits - pBits p) + k) * w) by lia.
    by rewrite Z.div_mul by lia.
Qed.

(** [cidrSubnet] carves disjoint blocks: for every valid base, every
    longer length and every non-negative index it accepts exactly the indices
    that fit; the result has the requested length, is aligned to it and lies
    inside the base; and two different indices give blocks that do not
    overlap. *)
Theorem subnets_are_disjoint_blocks p newBits i j :
  valid p -> pBits p <= newBits <= BitLen (pAddr p) -> 0 <= i -> 0 <= j ->
  (is_ok (cidrSubnet (Some p) i newBits) = true <-> i < 2 ^ (newBits - pBits p)) /\
  (forall q, cidrSubnet (Some p) i newBits = Ok q ->
     pBits q = newBits /\ masked q /\ contains (Masked p) q = true) /\
  (forall q q', cidrSubnet (Some p) i newBits = Ok q -> cidrSubnet (Some p) j newBits = Ok q' ->
     i <> j -> Overlaps q q' = false).
Proof.
  intros Hv Hb Hi Hj. pose proof (Masked_masked p Hv) as Hm.
  set (w := 2 ^ (BitLen (pAddr p) - newBits)).
  assert (0 < w) as Hw by (apply pow_pos; lia).
  split_and!.
  - split; [by apply cidrSubnet_fits|]. intros Hlt. by rewrite cidrSubnet_value by lia || done.
  - intros q H. destruct (cidrSubnet_ok p newBits i q Hv Hb Hi H) as (A & B & C & D & E).
    split_and!; [done|done|].
    unfold contains. apply andb_true_iff. change (pBits (Masked p)) with (pBits p). rewrite C.
    split; [apply Z.leb_le; lia|]. apply Contains_iff; [done|]. split; [done|].
    destruct (subnet_offset (Masked p) i newBits Hm Hb (conj Hi E)) as [O1 O2].
    change (BitLen (pAddr (Masked p))) with (BitLen (pAddr p)) in *. fold w in O1, O2, D.
    rewrite D. nia.
  - intros q q' H H' Hne.
    destruct (cidrSubnet_ok p newBits i q Hv Hb Hi H) as (A & B & C & D & _).
    destruct (cidrSubnet_ok p newBits j q' Hv Hb Hj H') as (A' & B' & C' & D' & _).
    destruct (Overlaps q q') eqn:E; [|done]. exfalso.
    apply Overlaps_iff in E as (_ & E1 & E2); [|done|done].
    unfold hostBits in E1, E2. unfold BitLen in E1, E2. rewrite B in E2. rewrite B' in E1.
    fold (BitLen (pAddr p)) in E1, E2. rewrite C in E2. rewrite C' in E1. fold w in E1, E2, D, D'.
    assert (i * w < (j + 1) * w /\ j * w < (i + 1) * w) as [F1 F2] by lia.
    apply Z.mul_lt_mono_pos_r in F1, F2; lia.
Qed.

(** A negative index is not refused and leaves the base: the helpers
    documented to return a well-formed value or an error give the last block
    before the base, an address outside it. *)
Theorem negative_index_escapes_base :
  let base := mkPrefix (mkAddr true (10 * 2 ^ 24)) 24 in
  cidrSubnet (Some base) (-1) 28 = Ok (mkPrefix (mkAddr true (10 * 2 ^ 24 - 16)) 28) /\
  cidrHost (Some base) (-1) = Ok (mkPrefix (mkAddr true (10 * 2 ^ 24 - 1)) 24) /\
  Contains base (mkAddr true (10 * 2 ^ 24 - 1)) = false /\
  Contains base (mkAddr true (10 * 2 ^ 24 - 16)) = false.
Proof. split_and!; vm_compute; reflexivity. Qed.

(** ** Witnesses *)

Definition ip4 (a b c d bits : Z) : Prefix :=
  mkPrefix (mkAddr true (((a * 256 + b) * 256 + c) * 256 + d)) bits.
Definition demoRegistry : Registry :=
  addClaim (ip4 10 0 1 0 24) "as1 link" "router_router" "as1"
    (addClaim (ip4 10 0 1 128 25) "as2 link" "router_router" "as2"
      (addClaim (ip4 10 0 0 0 16) "as1" "as_block" "as1"
        (Exempt (ip4 10 0 0 0 16) "as1" NewRegistry))).

Lemma sweep_reports_every_conflict_witness :
  length (Conflicts demoRegistry) = 2%nat /\
  sweep demoRegistry (merge_sort claimLe (claims demoRegistry))
    = allPairs demoRegistry (merge_sort claimLe (claims demoRegistry)).
Proof.
  split; [vm_compute; reflexivity|].
  apply (sweep_reports_every_conflict demoRegistry (merge_sort claimLe (claims demoRegistry))).
  - apply merge_sort_Permutation.
  - apply (bool_decide_eq_true_1 _). vm_compute. reflexivity.
  - repeat constructor; simpl; lia || discriminate.
Defined.

Lemma subnets_are_disjoint_blocks_witness :
  cidrSubnet (Some (ip4 179 0 0 0 8)) 42 24 = Ok (ip4 179 0 42 0 24) /\
  cidrSubnet (Some (ip4 179 0 0 0 8)) 43 24 = Ok (ip4 179 0 43 0 24) /\
  Overlaps (ip4 179 0 42 0 24) (ip4 179 0 43 0 24) = false.
Proof.
  assert (cidrSubnet (Some (ip4 179 0 0 0 8)) 42 24 = Ok (ip4 179 0 42 0 24)) as H1
    by (vm_compute; reflexivity).
  assert (cidrSubnet (Some (ip4 179 0 0 0 8)) 43 24 = Ok (ip4 179 0 43 0 24)) as H2
    by (vm_compute; reflexivity).
  split; [exact H1|]. split; [exact H2|].
  refine (proj2 (proj2 (subnets_are_disjoint_blocks (ip4 179 0 0 0 8) 24 42 43 _ _ _ _)) _ _ H1 H2 _);
    [|unfold BitLen; simpl; lia|lia|lia|lia].
  split; [split; vm_compute; [discriminate|reflexivity]|split; vm_compute; discriminate].
Defined.
