(* ===== verification/Limiter.v ===== *)
(** * Node-wide backpressure

    Models [internal/limiter/limiter.go]: one counted budget per operation
    class, shared by every lab of the agent. The goroutines that call
    [Acquire] and later the release function interleave at the grain of the
    code: one step is one section under the mutex or one channel operation,
    so the statistics may lag behind the channels as they do in the code. *)

From stdpp Require Import base gmap strings list fin_maps sorting.
From Stdlib Require Import ZArith Lia.
From S2P Require Import Prelude.

Open Scope Z_scope.

(** ** Budgets *)

Abbreviation Kind := string (only parsing).
Definition Apply : Kind := "apply".
Definition Lifecycle : Kind := "lifecycle".
Definition ContainerCreate : Kind := "container_create".
Definition ContainerStart : Kind := "container_start".
Definition ExecProbe : Kind := "exec_probe".
Definition Netlink : Kind := "netlink".
Definition ImagePull : Kind := "image_pull".
Definition Capture : Kind := "capture".
Definition Convergence : Kind := "convergence".

Definition allKinds : list Kind :=
  [Apply; Lifecycle; ContainerCreate; ContainerStart; ExecProbe; Netlink; ImagePull; Capture;
   Convergence].

Record Config := mkConfig {
  cfApply : Z; cfLifecycle : Z; cfContainerCreate : Z; cfContainerStart : Z;
  cfExecProbe : Z; cfNetlink : Z; cfImagePull : Z; cfCapture : Z; cfConvergence : Z
}.

Definition bounded (value low high : Z) : Z :=
  if value <? low then low else if high <? value then high else value.

(** [defaultConfigForRuntime]; [n] is [runtime.NumCPU()]. *)
Definition defaultConfigForRuntime (n : Z) (name : string) : Config :=
  let name := toLower (trimSpace name) in
  if decide (name = "podman") then
    mkConfig (bounded (n * 2) 4 48) (bounded (n * 2) 8 48) 8 8 (bounded (n * 4) 8 48)
      (bounded n 2 12) 2 (bounded n 2 8) (bounded n 2 8)
  else if decide (name = "containerd") then
    mkConfig (bounded n 16 64) (bounded n 16 64) (bounded n 16 48) 16 (bounded n 16 64)
      (bounded n 8 24) 2 (bounded n 2 8) (bounded n 8 64)
  else
    mkConfig (bounded (n * 2) 4 48) (bounded (n * 2) 8 48) 4 4 (bounded (n * 4) 8 48)
      (bounded n 2 12) 2 (bounded n 2 8) (bounded n 2 8).

(** [WithDefaultsForRuntime]: a non-positive field takes the default. *)
Definition orDefault (v d : Z) : Z := if v <=? 0 then d else v.
Definition WithDefaultsForRuntime (n : Z) (cfg : Config) (runtimeName : string) : Config :=
  let d := defaultConfigForRuntime n runtimeName in
  mkConfig (orDefault (cfApply cfg) (cfApply d)) (orDefault (cfLifecycle cfg) (cfLifecycle d))
    (orDefault (cfContainerCreate cfg) (cfContainerCreate d))
    (orDefault (cfContainerStart cfg) (cfContainerStart d))
    (orDefault (cfExecProbe cfg) (cfExecProbe d)) (orDefault (cfNetlink cfg) (cfNetlink d))
    (orDefault (cfImagePull cfg) (cfImagePull d)) (orDefault (cfCapture cfg) (cfCapture d))
    (orDefault (cfConvergence cfg) (cfConvergence d)).

(** ** The limiter's state *)

Record Stats := mkStats {
  sLimit : Z; InFlight : Z; QueueDepth : Z; Acquisitions : Z;
  TotalWait : Duration; MaxWait : Duration; LastWait : Duration
}.

(** [slots] counts the tokens in the channel, [sCap] is its capacity. *)
Record bucket := mkBucket { slots : Z; sCap : Z; stats : Stats }.

Abbreviation Limiter := (gmap string bucket) (only parsing).

(** The [limits] literal of [New]. *)
Definition limits (cfg : Config) : gmap string Z :=
  list_to_map [(Apply, cfApply cfg); (Lifecycle, cfLifecycle cfg);
    (ContainerCreate, cfContainerCreate cfg); (ContainerStart, cfContainerStart cfg);
    (ExecProbe, cfExecProbe cfg); (Netlink, cfNetlink cfg); (ImagePull, cfImagePull cfg);
    (Capture, cfCapture cfg); (Convergence, cfConvergence cfg)].

Definition newBucket (limit : Z) : bucket :=
  let limit := if limit <=? 0 then 1 else limit in
  mkBucket 0 limit (mkStats limit 0 0 0 0 0 0).

Definition New (cfg : Config) : Limiter :=
  list_to_map (map (fun kind => (kind, newBucket (lookup_or 0 (limits cfg) kind))) allKinds).

Definition normaliseKinds (kinds : list Kind) : list Kind := sortStrings (dedup kinds).

Definition with_slots (d : Z) (b : bucket) : bucket :=
  mkBucket (slots b + d) (sCap b) (stats b).
Definition with_queue (d : Z) (b : bucket) : bucket :=
  let s := stats b in
  mkBucket (slots b) (sCap b)
    (mkStats (sLimit s) (InFlight s) (QueueDepth s + d) (Acquisitions s)
       (TotalWait s) (MaxWait s) (LastWait s)).
Definition with_inflight (d : Z) (b : bucket) : bucket :=
  let s := stats b in
  mkBucket (slots b) (sCap b)
    (mkStats (sLimit s) (InFlight s + d) (QueueDepth s) (Acquisitions s)
       (TotalWait s) (MaxWait s) (LastWait s)).
(** The bookkeeping after a slot was obtained. *)
Definition admitted (wait : Duration) (b : bucket) : bucket :=
  let s := stats b in
  mkBucket (slots b) (sCap b)
    (mkStats (sLimit s) (InFlight s + 1) (QueueDepth s - 1) (wrap64 (Acquisitions s + 1))
       (TotalWait s + wait) (if MaxWait s <? wait then wait else MaxWait s) wait).

(** ** One caller of [Acquire]

    The program points between two atomic sections: the head of the loop
    over the wanted kinds; blocked in the [select]; past the channel send,
    before the second lock; past [ctx.Done()], before the lock; [Acquire]
    returned and the protected operation runs; in [releaseKinds], before a
    receive and between a receive and its lock; finished, with whether the
    acquisition succeeded. *)
Inductive client :=
| CNext (acquired todo : list Kind)
| CWait (acquired : list Kind) (kind : Kind) (todo : list Kind)
| CGot (acquired : list Kind) (kind : Kind) (todo : list Kind) (wait : Duration)
| CCancel (acquired : list Kind) (kind : Kind)
| CHold (acquired : list Kind)
| CDrain (rest : list Kind) (granted : bool)
| CDrained (kind : Kind) (rest : list Kind) (granted : bool)
| CDone (granted : bool).

Inductive event :=
| EvStep
| EvSend (wait : Duration)
| EvCtxDone.

(** The start of [Acquire]. *)
Definition startClient (kinds : list Kind) : client :=
  match kinds with
  | [] => CHold []
  | _ => CNext [] (normaliseKinds kinds)
  end.

Definition stepClient (l : Limiter) (c : client) (ev : event) : option (Limiter * client) :=
  match c, ev with
  | CNext acquired [], EvStep => Some (l, CHold acquired)
  | CNext acquired (kind :: todo), EvStep =>
      match l !! kind with
      | None => Some (l, CDrain (rev acquired) false)
      | Some b => Some (<[kind := with_queue 1 b]> l, CWait acquired kind todo)
      end
  | CWait acquired kind todo, EvSend wait =>
      b ← l !! kind;
      if slots b <? sCap b
      then Some (<[kind := with_slots 1 b]> l, CGot acquired kind todo wait) else None
  | CWait acquired kind _, EvCtxDone => Some (l, CCancel acquired kind)
  | CGot acquired kind todo wait, EvStep =>
      b ← l !! kind; Some (<[kind := admitted wait b]> l, CNext (acquired ++ [kind]) todo)
  | CCancel acquired kind, EvStep =>
      b ← l !! kind; Some (<[kind := with_queue (-1) b]> l, CDrain (rev acquired) false)
  | CHold acquired, EvStep => Some (l, CDrain (rev acquired) true)
  | CDrain [] granted, EvStep => Some (l, CDone granted)
  | CDrain (kind :: rest) granted, EvStep =>
      match l !! kind with
      | None => Some (l, CDrain rest granted)
      | Some b => if 0 <? slots b
                  then Some (<[kind := with_slots (-1) b]> l, CDrained kind rest granted)
                  else None
      end
  | CDrained kind rest granted, EvStep =>
      b ← l !! kind; Some (<[kind := with_inflight (-1) b]> l, CDrain rest granted)
  | _, _ => None
  end.

(** ** Any number of callers *)

Record node := mkNode { limiter : Limiter; callers : list client }.

Definition start (cfg : Config) (requests : list (list Kind)) : node :=
  mkNode (New cfg) (map startClient requests).

Definition step (n : node) (i : nat) (ev : event) : option node :=
  c ← callers n !! i;
  '(l, c') ← stepClient (limiter n) c ev;
  Some (mkNode l (<[i := c']> (callers n))).

Inductive run (cfg : Config) (requests : list (list Kind)) : nat -> node -> Prop :=
| run_start : run cfg requests 0 (start cfg requests)
| run_step k n n' i ev : run cfg requests k n -> step n i ev = Some n' ->
    run cfg requests (S k) n'.

(** ** Reading the limits *)

Definition Limit (l : option Limiter) (kind : Kind) : Z :=
  match l with
  | None => 0
  | Some l => match l !! kind with Some b => sLimit (stats b) | None => 0 end
  end.

Definition Snapshot (l : option Limiter) : gmap string Stats :=
  match l with None => ∅ | Some l => stats <$> l end.

Definition ClampWorkers (l : option Limiter) (kind : Kind) (requested : Z) : Z :=
  let limit := Limit l kind in
  if limit <=? 0 then requested
  else if (requested <=? 0) || (limit <? requested) then limit
  else requested.

(** ** What a caller occupies *)

(** The kinds whose slot the caller has in the channel. *)
Definition held (c : client) : list Kind :=
  match c with
  | CNext acquired _ | CWait acquired _ _ | CCancel acquired _ | CHold acquired => acquired
  | CGot acquired kind _ _ => acquired ++ [kind]
  | CDrain rest _ | CDrained _ rest _ => rest
  | CDone _ => []
  end.

(** The kinds in whose [InFlight] it is counted. *)
Definition counted (c : client) : list Kind :=
  match c with
  | CGot acquired _ _ _ => acquired
  | CDrained kind rest _ => kind :: rest
  | _ => held c
  end.

(** The kind in whose [QueueDepth] it is counted. *)
Definition queued (c : client) : list Kind :=
  match c with
  | CWait _ kind _ | CGot _ kind _ _ | CCancel _ kind => [kind]
  | _ => []
  end.

Definition occ (k : Kind) (l : list Kind) : nat := length (filter (fun x => x = k) l).

(** How many times the callers, taken together, have [k] in [f]. *)
Definition tally (f : client -> list Kind) (k : Kind) (cs : list client) : nat :=
  sum_list_with (fun c => occ k (f c)) cs.

Lemma occ_app k l l' : occ k (l ++ l') = (occ k l + occ k l')%nat.
Proof. unfold occ. by rewrite filter_app, length_app. Qed.

Lemma occ_cons k x l : occ k (x :: l) = ((if decide (x = k) then 1 else 0) + occ k l)%nat.
Proof. unfold occ. rewrite filter_cons. by case_decide. Qed.

Lemma occ_rev k l : occ k (rev l) = occ k l.
Proof. unfold occ. by rewrite <- (Permutation_rev l). Qed.

Lemma in_released k (l : list Kind) : k ∈ rev l <-> k ∈ l.
Proof. by rewrite <- (Permutation_rev l). Qed.

Lemma occ_pos k l : (0 < occ k l)%nat <-> k ∈ l.
Proof.
  unfold occ. split.
  - destruct (filter _ l) as [|x r] eqn:E; simpl; [lia|]. intros _.
    assert (x ∈ filter (fun x => x = k) l) as H by (rewrite E; left).
    apply list_elem_of_filter in H as [-> ?]. done.
  - intros H. destruct (filter (fun x => x = k) l) eqn:E; simpl; [|lia].
    assert (k ∈ filter (fun x => x = k) l) as H' by by apply list_elem_of_filter.
    rewrite E in H'. by apply elem_of_nil in H'.
Qed.

Lemma sum_insert {A} (f : A -> nat) (l : list A) i x y :
  l !! i = Some x -> (sum_list_with f (<[i := y]> l) + f x = sum_list_with f l + f y)%nat.
Proof.
  revert i. induction l as [|a l IH]; intros [|i] H; simpl in *; simplify_eq; [lia|].
  specialize (IH _ H). lia.
Qed.

Lemma sum_lookup {A} (f : A -> nat) (l : list A) i x :
  l !! i = Some x -> (f x <= sum_list_with f l)%nat.
Proof.
  revert i. induction l as [|a l IH]; intros [|i] H; simpl in *; simplify_eq; [lia|].
  specialize (IH _ H). lia.
Qed.

Lemma sum_zero {A} (f : A -> nat) (l : list A) :
  (forall x, x ∈ l -> f x = 0%nat) -> sum_list_with f l = 0%nat.
Proof.
  induction l as [|a l IH]; intros H; simpl; [done|].
  rewrite H by left. apply IH. intros x Hx. apply H. by right.
Qed.

(** ** What one step does to one budget *)

Record moved (c c' : client) (k : Kind) (b b' : bucket) : Prop := {
  mv_cap : sCap b' = sCap b;
  mv_limit : sLimit (stats b') = sLimit (stats b);
  mv_slots : slots b' + Z.of_nat (occ k (held c)) = slots b + Z.of_nat (occ k (held c'));
  mv_inflight : InFlight (stats b') + Z.of_nat (occ k (counted c))
    = InFlight (stats b) + Z.of_nat (occ k (counted c'));
  mv_queue : QueueDepth (stats b') + Z.of_nat (occ k (queued c))
    = QueueDepth (stats b) + Z.of_nat (occ k (queued c'));
  mv_fits : slots b <= sCap b -> slots b' <= sCap b'
}.

Ltac count_kinds :=
  constructor; simpl; rewrite ?occ_app, ?occ_rev, ?occ_cons; simpl; repeat case_decide;
  simplify_eq; unfold occ in *; simpl in *; lia || done.

Lemma stepClient_bucket l c ev l' c' k b' :
  stepClient l c ev = Some (l', c') -> l' !! k = Some b' ->
  exists b, l !! k = Some b /\ moved c c' k b b'.
Proof.
  intros H Hk.
  assert (forall kind b f, l !! kind = Some b -> l' = <[kind := f b]> l ->
    (moved c c' kind b (f b)) -> (forall b, kind <> k -> moved c c' k b b) ->
    exists b, l !! k = Some b /\ moved c c' k b b') as Hput.
  { intros kind b f Hb -> Hm Ho. destruct (decide (kind = k)) as [->|Hne].
    - rewrite lookup_insert_eq in Hk. simplify_eq. eauto.
    - rewrite lookup_insert_ne in Hk by done. eauto. }
  destruct c as [a [|kind t]|a kind t|a kind t w|a kind|a|[|kind r] g|kind r g|g], ev; simpl in H;
    try done; try (destruct (l !! kind) as [b|] eqn:Hb; simpl in H; try done);
    try (destruct (_ <? _) eqn:Hlt in H; [apply Z.ltb_lt in Hlt|done]); simplify_eq;
    try (exists b'; split; [done|]; count_kinds);
    eapply Hput; try done; intros; count_kinds.
Qed.

Lemma stepClient_dom l c ev l' c' k :
  stepClient l c ev = Some (l', c') -> is_Some (l' !! k) <-> is_Some (l !! k).
Proof.
  intros H. destruct c as [a [|kind t]|a kind t|a kind t w|a kind|a|[|kind r] g|kind r g|g], ev;
    simpl in H; try done; try (destruct (l !! kind) as [b|] eqn:Hb; simpl in H; try done);
    try (destruct (_ <? _) in H; [|done]); simplify_eq; try done;
    (destruct (decide (kind = k)) as [->|]; [rewrite lookup_insert_eq, Hb; split; by eauto|
       by rewrite lookup_insert_ne]).
Qed.

(** ** The order of acquisition *)

Definition ordered (l : list Kind) : Prop := StronglySorted String.le l /\ NoDup l.

Record wfClient (l : Limiter) (c : client) : Prop := {
  wf_known k : k ∈ held c \/ k ∈ counted c \/ k ∈ queued c -> is_Some (l !! k);
  wf_order : match c with
             | CNext a t => ordered (a ++ t)
             | CWait a k t | CGot a k t _ => ordered (a ++ k :: t)
             | _ => True
             end
}.

Lemma wfClient_step l c ev l' c' :
  stepClient l c ev = Some (l', c') -> wfClient l c -> wfClient l' c'.
Proof.
  intros H [Hk Ho]. pose proof (fun k => stepClient_dom _ _ _ _ _ k H) as Hd.
  split.
  - intros k Hin. apply Hd.
    destruct c as [a [|kind t]|a kind t|a kind t w|a kind|a|[|kind r] g|kind r g|g], ev;
      simpl in H; try done; try (destruct (l !! kind) as [b|] eqn:Hb; simpl in H; try done);
      try (destruct (_ <? _) in H; [|done]); simplify_eq; simpl in *;
      rewrite ?elem_of_app, ?list_elem_of_singleton, ?elem_of_cons, ?elem_of_nil,
        ?in_released in *; try (destruct (decide (k = kind)) as [->|]; [by eauto|]);
      apply Hk; rewrite ?elem_of_app, ?list_elem_of_singleton, ?elem_of_cons; tauto.
  - destruct c as [a [|kind t]|a kind t|a kind t w|a kind|a|[|kind r] g|kind r g|g], ev;
      simpl in H; try done; try (destruct (l !! kind) as [b|] eqn:Hb; simpl in H; try done);
      try (destruct (_ <? _) in H; [|done]); simplify_eq; try done.
    by rewrite <- app_assoc.
Qed.

(** ** The invariant *)

Record nodeOK (cfg : Config) (n : node) : Prop := {
  ok_bucket k b : limiter n !! k = Some b ->
    sCap b = Limit (Some (New cfg)) k /\ sLimit (stats b) = sCap b /\ 1 <= sCap b /\
    slots b <= sCap b /\
    slots b = Z.of_nat (tally held k (callers n)) /\
    InFlight (stats b) = Z.of_nat (tally counted k (callers n)) /\
    QueueDepth (stats b) = Z.of_nat (tally queued k (callers n));
  ok_clients : Forall (wfClient (limiter n)) (callers n)
}.

Lemma New_lookup cfg k b :
  New cfg !! k = Some b -> k ∈ allKinds /\ b = newBucket (lookup_or 0 (limits cfg) k).
Proof.
  unfold New. intros H. apply elem_of_list_to_map_2 in H.
  apply list_elem_of_fmap in H as (k' & [= -> ->] & ?). done.
Qed.

Lemma tally_start f k reqs :
  (forall ks, f (startClient ks) = []) -> tally f k (map startClient reqs) = 0%nat.
Proof.
  intros H. unfold tally. induction reqs as [|ks reqs IH]; simpl; [done|]. by rewrite H, IH.
Qed.

Lemma nodeOK_start cfg reqs : nodeOK cfg (start cfg reqs).
Proof.
  split; simpl.
  - intros k b Hb. pose proof (New_lookup _ _ _ Hb) as [_ ->].
    rewrite !tally_start by (by intros [|??]). unfold Limit. rewrite Hb. simpl.
    split_and!; try done; unfold newBucket; simpl; destruct (_ <=? 0) eqn:E; try lia;
      apply Z.leb_gt in E; lia.
  - apply Forall_forall. intros c Hc. apply list_elem_of_fmap in Hc as (ks & -> & _).
    destruct ks as [|k ks]; split; simpl; try set_solver.
    split; [apply StronglySorted_merge_sort; apply _|].
    apply NoDup_sortStrings, NoDup_dedup.
Qed.

Lemma nodeOK_step cfg n i ev n' : step n i ev = Some n' -> nodeOK cfg n -> nodeOK cfg n'.
Proof.
  unfold step. intros H [Hb Hc].
  destruct (callers n !! i) as [c|] eqn:Hi; simpl in H; [|done].
  destruct (stepClient _ _ _) as [[l' c']|] eqn:Hs; simpl in H; [|done]. simplify_eq.
  split; simpl.
  - intros k b' Hk. destruct (stepClient_bucket _ _ _ _ _ _ _ Hs Hk) as (b & Hkb & []).
    destruct (Hb _ _ Hkb) as (? & ? & ? & ? & ? & ? & ?).
    pose proof (sum_insert (fun c => occ k (held c)) _ _ _ c' Hi).
    pose proof (sum_insert (fun c => occ k (counted c)) _ _ _ c' Hi).
    pose proof (sum_insert (fun c => occ k (queued c)) _ _ _ c' Hi).
    unfold tally in *. change (match New cfg !! k with Some _ => _ | None => _ end)
      with (Limit (Some (New cfg)) k). split_and!; congruence || lia || auto.
  - apply Forall_insert.
    + eapply Forall_impl; [done|]. intros d [H1 H2]. split; [|done].
      intros k Hk. apply (stepClient_dom _ _ _ _ _ _ Hs). auto.
    + eapply wfClient_step; [done|]. by apply (Forall_lookup_1 _ _ _ _ Hc Hi).
Qed.

Lemma run_ok cfg reqs m n : run cfg reqs m n -> nodeOK cfg n.
Proof. induction 1; eauto using nodeOK_start, nodeOK_step. Qed.

(** ** Budgets are respected *)

Definition protected (k : Kind) (c : client) : bool :=
  match c with CHold a => bool_decide (k ∈ a) | _ => false end.
Definition finished (c : client) : bool := match c with CDone _ => true | _ => false end.

Lemma protected_tally k cs : (length (List.filter (protected k) cs) <= tally held k cs)%nat.
Proof.
  unfold tally. induction cs as [|c cs IH]; simpl; [lia|].
  destruct (protected k c) eqn:E; simpl; [|lia].
  destruct c as [| | | |a| | |]; simpl in *; try done.
  apply bool_decide_eq_true_1, occ_pos in E. lia.
Qed.

Lemma tally_finished f k cs :
  (forall g, f (CDone g) = []) -> Forall (fun c => finished c = true) cs -> tally f k cs = 0%nat.
Proof.
  intros Hf. unfold tally. induction 1 as [|c cs Hc _ IH]; simpl; [done|].
  destruct c; try done. rewrite Hf, IH. done.
Qed.

(** The field of the configuration that a budget is named after. *)
Definition configured (cfg : Config) (k : Kind) : Z :=
  if decide (k = Apply) then cfApply cfg
  else if decide (k = Lifecycle) then cfLifecycle cfg
  else if decide (k = ContainerCreate) then cfContainerCreate cfg
  else if decide (k = ContainerStart) then cfContainerStart cfg
  else if decide (k = ExecProbe) then cfExecProbe cfg
  else if decide (k = Netlink) then cfNetlink cfg
  else if decide (k = ImagePull) then cfImagePull cfg
  else if decide (k = Capture) then cfCapture cfg
  else cfConvergence cfg.

Lemma Limit_configured cfg k :
  1 <= Limit (Some (New cfg)) k ->
  k ∈ allKinds /\
  Limit (Some (New cfg)) k = if configured cfg k <=? 0 then 1 else configured cfg k.
Proof.
  simpl. destruct (New cfg !! k) as [b|] eqn:Hb; [|lia]. apply New_lookup in Hb as [Hk ->].
  intros _. split; [done|]. unfold allKinds in Hk. rewrite !elem_of_cons, elem_of_nil in Hk.
  by destruct Hk as [->|[->|[->|[->|[->|[->|[->|[->|[->|[]]]]]]]]]].
Qed.

(** C33. Backpressure holds under every interleaving: at any moment the
    operations running under one budget are at most its limit, which is the
    field of the configuration that the budget is named after, or one if that
    field is not positive; the statistics count exactly the callers that are
    past their bookkeeping; and when every caller has finished, acquisition
    refused or not, no slot, no in-flight and no queue count is left behind. *)
Theorem budgets_are_respected cfg reqs m n k b :
  run cfg reqs m n -> limiter n !! k = Some b ->
  k ∈ allKinds /\ sCap b = (if configured cfg k <=? 0 then 1 else configured cfg k) /\
  sCap b = Limit (Some (New cfg)) k /\ 1 <= sCap b /\
  Z.of_nat (length (List.filter (protected k) (callers n))) <= slots b <= sCap b /\
  InFlight (stats b) = Z.of_nat (tally counted k (callers n)) /\
  QueueDepth (stats b) = Z.of_nat (tally queued k (callers n)) /\
  (Forall (fun c => finished c = true) (callers n) ->
     slots b = 0 /\ InFlight (stats b) = 0 /\ QueueDepth (stats b) = 0).
Proof.
  intros Hr Hb. destruct (run_ok _ _ _ _ Hr) as [H _].
  destruct (H _ _ Hb) as (Hcap & ? & ? & ? & Hs & Hi & Hq).
  pose proof (protected_tally k (callers n)).
  destruct (Limit_configured cfg k) as [Hk Hc]; [lia|].
  split_and!; try done; [congruence|lia|]. intros Hd.
  rewrite Hs, Hi, Hq, !tally_finished by done. done.
Qed.

(** ** Acquisition cannot deadlock *)

(** Steps a caller still has to take at most. *)
Definition remaining (c : client) : nat :=
  match c with
  | CNext a t => 5 * length t + 2 * length a + 3
  | CWait a _ t => 5 * length t + 2 * length a + 7
  | CGot a _ t _ => 5 * length t + 2 * length a + 6
  | CCancel a _ | CHold a => 2 * length a + 2
  | CDrain r _ => 2 * length r + 1
  | CDrained _ r _ => 2 * length r + 2
  | CDone _ => 0
  end.

Definition budgetOf (reqs : list (list Kind)) : nat :=
  sum_list_with (fun ks => 5 * length (normaliseKinds ks) + 3)%nat reqs.

Lemma remaining_step l c ev l' c' :
  stepClient l c ev = Some (l', c') -> (remaining c' < remaining c)%nat.
Proof.
  intros H. destruct c as [a [|kind t]|a kind t|a kind t w|a kind|a|[|kind r] g|kind r g|g], ev;
    simpl in H; try done; try (destruct (l !! kind) as [b|] eqn:Hb; simpl in H; try done);
    try (destruct (_ <? _) in H; [|done]); simplify_eq; simpl;
    rewrite ?length_app, ?length_rev; simpl; lia.
Qed.

Lemma run_bound cfg reqs m n :
  run cfg reqs m n -> (m + sum_list_with remaining (callers n) <= budgetOf reqs)%nat.
Proof.
  induction 1 as [|m n n' i ev Hr IH Hs].
  - unfold budgetOf, start. simpl. induction reqs as [|ks reqs IH]; simpl; [lia|].
    assert (remaining (startClient ks) <= 5 * length (normaliseKinds ks) + 3)%nat.
    { destruct ks as [|k ks]; [simpl; lia|]. simpl. lia. }
    simpl in IH. lia.
  - unfold step in Hs. destruct (callers n !! i) as [c|] eqn:Hi; simpl in Hs; [|done].
    destruct (stepClient _ _ _) as [[l' c']|] eqn:E; simpl in Hs; [|done]. simplify_eq. simpl.
    pose proof (remaining_step _ _ _ _ _ E).
    pose proof (sum_insert remaining _ _ _ c' Hi). lia.
Qed.

(** What can block a caller: only a full channel in the [select]. *)
Lemma only_waiting_blocks cfg n i c :
  nodeOK cfg n -> callers n !! i = Some c -> finished c = false ->
  (exists a k t, c = CWait a k t) \/ exists n', step n i EvStep = Some n'.
Proof.
  intros [Hb Hc] Hi Hf. pose proof (Forall_lookup_1 _ _ _ _ Hc Hi) as [Hk _].
  assert (forall k, k ∈ held c \/ k ∈ counted c \/ k ∈ queued c ->
    exists b, limiter n !! k = Some b /\ slots b = Z.of_nat (tally held k (callers n))) as Hk'.
  { intros k Hin. destruct (Hk k Hin) as [b Hkb]. exists b. split; [done|]. by apply Hb. }
  unfold step. rewrite Hi. simpl.
  destruct c as [a [|k t]|a k t|a k t w|a k|a|[|k r] g|k r g|g]; simpl in *; eauto; try done;
    right;
    try (destruct (Hk' k ltac:(first [left; left | right; left; left | right; right; left]))
           as (b & Hkb & Hsl); rewrite Hkb; simpl; eauto).
  - destruct (limiter n !! k); eauto.
  - assert (0 < slots b) as Hpos.
    { rewrite Hsl. pose proof (sum_lookup (fun c => occ k (held c)) _ _ _ Hi) as Hle.
      simpl in Hle. rewrite occ_cons, decide_True in Hle by done. unfold tally. lia. }
    rewrite (proj2 (Z.ltb_lt _ _)) by lia. eauto.
Qed.

(** Among callers that all wait, one waits for the greatest kind. *)
Definition waitsFor (c : client) : option Kind :=
  match c with CWait _ k _ => Some k | _ => None end.

Lemma greatest_string (l : list string) :
  l <> [] -> exists m, m ∈ l /\ forall x, x ∈ l -> String.le x m.
Proof.
  induction l as [|x l IH]; [done|]. intros _. destruct (decide (l = [])) as [->|Hne].
  - exists x. split; [left|]. intros y Hy. apply list_elem_of_singleton in Hy as ->. done.
  - destruct (IH Hne) as (m & Hm & Hmax). destruct (total String.le x m) as [Hle|Hle].
    + exists m. split; [by right|]. intros y [->|Hy]%elem_of_cons; auto.
    + exists x. split; [left|]. intros y [->|Hy]%elem_of_cons; [done|].
      etrans; [by apply Hmax|done].
Qed.

Lemma ordered_before a k t k' : ordered (a ++ k :: t) -> k' ∈ a -> String.le k' k /\ k' <> k.
Proof.
  intros [Hs Hn] Hin. split.
  - apply (StronglySorted_app_1_elem_of _ a (k :: t)); [done|done|left].
  - intros ->. apply NoDup_app in Hn as (_ & Hn & _). apply (Hn _ Hin). left.
Qed.

(** With nobody under protection, a caller that is not finished implies a
    step that no cancellation forces: the caller that waits for the greatest
    kind finds a free slot, since whoever occupied that slot would wait for a
    greater kind. *)
Lemma some_step cfg n i c :
  nodeOK cfg n -> callers n !! i = Some c -> finished c = false ->
  (forall c, c ∈ callers n -> forall a, c <> CHold a) ->
  exists j ev n', ev <> EvCtxDone /\ step n j ev = Some n'.
Proof.
  intros Hok Hi Hf Hnh.
  destruct (decide (Exists (fun c => finished c = false /\ waitsFor c = None) (callers n)))
    as [He|He].
  { apply Exists_exists in He as (d & Hd & Hfd & Hw). apply list_elem_of_lookup in Hd as [j Hj].
    destruct (only_waiting_blocks _ _ _ _ Hok Hj Hfd) as [(a & k & t & ->)|[n' Hs]]; [done|].
    by exists j, EvStep, n'. }
  assert (forall d, d ∈ callers n -> finished d = false -> exists a k t, d = CWait a k t) as Hall.
  { intros d Hd Hfd. destruct d; try (by eauto); exfalso; apply He, Exists_exists; by eauto. }
  destruct (greatest_string (omap waitsFor (callers n))) as (m & Hm & Hmax).
  { destruct (Hall c) as (a & k & t & ->); [by eapply list_elem_of_lookup_2|done|].
    intros Hnil. assert (k ∈ omap waitsFor (callers n)) as Hin.
    { apply list_elem_of_omap. eexists. split; [by eapply list_elem_of_lookup_2|done]. }
    rewrite Hnil in Hin. by apply elem_of_nil in Hin. }
  apply list_elem_of_omap in Hm as (d & Hd & Hw).
  destruct d as [|a k t| | | | | |]; try done. injection Hw as ->.
  apply list_elem_of_lookup in Hd as [j Hj]. destruct Hok as [Hb Hc].
  destruct (wf_known _ _ (Forall_lookup_1 _ _ _ _ Hc Hj) m) as [b Hbm].
  { right; right. left. }
  destruct (Hb _ _ Hbm) as (_ & _ & Hcap & _ & Hsl & _).
  assert (tally held m (callers n) = 0%nat) as Hz.
  { unfold tally. apply sum_zero. intros d Hd.
    destruct (decide (m ∈ held d)) as [Hin|Hin]; [|by destruct (occ m (held d)) eqn:E;
      [done|exfalso; apply Hin, occ_pos; lia]].
    exfalso. destruct (finished d) eqn:Ed; [by destruct d; try done; apply elem_of_nil in Hin|].
    destruct (Hall d Hd Ed) as (a' & k' & t' & ->). simpl in Hin.
    pose proof (wf_order _ _ (proj1 (Forall_forall _ _) Hc _ Hd)) as Ho. simpl in Ho.
    destruct (ordered_before _ _ _ _ Ho Hin) as [Hle Hne]. apply Hne, (anti_symm String.le); [done|].
    apply Hmax, list_elem_of_omap. by eexists. }
  exists j, (EvSend 0). unfold step. rewrite Hj. simpl. rewrite Hbm. simpl.
  rewrite (proj2 (Z.ltb_lt _ _)) by lia. eauto.
Qed.

(** C34. Acquiring several budgets at once cannot deadlock: every execution
    is finite, with a number of steps bounded by the requests alone; and as
    long as a caller has not finished, either some caller is running its
    protected operation, or some caller can go on without being cancelled. *)
Theorem acquisition_makes_progress cfg reqs m n :
  run cfg reqs m n ->
  (m <= budgetOf reqs)%nat /\
  ((exists c, c ∈ callers n /\ finished c = false) ->
   (exists c a, c ∈ callers n /\ c = CHold a) \/
   exists i ev n', ev <> EvCtxDone /\ step n i ev = Some n').
Proof.
  intros Hr. split; [pose proof (run_bound _ _ _ _ Hr); lia|].
  intros (c & Hc & Hf). apply list_elem_of_lookup in Hc as [i Hi].
  destruct (decide (Exists (fun c => (match c with CHold _ => true | _ => false end) = true) (callers n)))
    as [He|He].
  - left. apply Exists_exists in He as (d & Hd & E). destruct d; try done. eauto.
  - right. eapply some_step; [by eapply run_ok|done|done|].
    intros d Hd a ->. apply He, Exists_exists. eauto.
Qed.

(** The worker count a plan gets from the agent's limiter is at least one and
    at most the budget, and a request within the budget is granted as is. *)
Lemma clamped_workers_fit cpus cfg name kind requested (l := New (WithDefaultsForRuntime cpus cfg name)) :
  kind ∈ allKinds ->
  1 <= ClampWorkers (Some l) kind requested <= Limit (Some l) kind /\
  (1 <= requested <= Limit (Some l) kind -> ClampWorkers (Some l) kind requested = requested).
Proof.
  intros Hk. assert (is_Some (l !! kind)) as [b Hb].
  { destruct (l !! kind) as [b|] eqn:E; [by eauto|].
    apply not_elem_of_list_to_map in E. destruct E.
    change (kind ∈ map fst (map (fun kind => (kind, newBucket (lookup_or 0 (limits
      (WithDefaultsForRuntime cpus cfg name)) kind))) allKinds)).
    rewrite map_map, map_id. done. }
  assert (1 <= Limit (Some l) kind) as Hl.
  { unfold Limit. rewrite Hb. apply New_lookup in Hb as [_ ->]. unfold newBucket. simpl.
    destruct (_ <=? 0) eqn:E; [lia|]. apply Z.leb_gt in E. lia. }
  unfold ClampWorkers. generalize dependent (Limit (Some l) kind). intros z Hz.
  destruct (z <=? 0) eqn:E1; [lia|]. destruct (requested <=? 0) eqn:E2, (z <? requested) eqn:E3;
    simpl; lia.
Qed.

(** ** Witnesses: two callers that name the same two budgets of width one in
    opposite order. *)

Definition demoConfig : Config := mkConfig 1 0 0 0 0 1 0 0 0.
Definition demoRequests : list (list Kind) := [[Netlink; Apply]; [Apply; Netlink; Apply]].

Fixpoint replay (evs : list (nat * event)) (n : node) : option node :=
  match evs with
  | [] => Some n
  | (i, ev) :: evs => n ← step n i ev; replay evs n
  end.

Lemma replay_run cfg reqs evs m n n' :
  run cfg reqs m n -> replay evs n = Some n' -> run cfg reqs (length evs + m) n'.
Proof.
  revert m n. induction evs as [|[i ev] evs IH]; intros m n Hr H; simpl in *; [by simplify_eq|].
  destruct (step n i ev) as [n1|] eqn:E; [|done].
  replace (S (length evs + m)) with (length evs + S m)%nat by lia.
  eapply IH; [|done]. by eapply run_step.
Qed.

(** The first caller has both budgets, the second waits for the first one. *)
Definition demoTrace : list (nat * event) :=
  [(0%nat, EvStep); (1%nat, EvStep); (0%nat, EvSend 5); (0%nat, EvStep); (0%nat, EvStep);
   (0%nat, EvSend 7); (0%nat, EvStep); (0%nat, EvStep)].
Definition demoNode : node := default (start demoConfig demoRequests)
  (replay demoTrace (start demoConfig demoRequests)).

Lemma demoNode_run : run demoConfig demoRequests 8 demoNode.
Proof.
  apply (replay_run _ _ demoTrace 0 (start demoConfig demoRequests)); [constructor|].
  vm_compute. reflexivity.
Qed.

Lemma budgets_are_respected_witness :
  callers demoNode = [CHold [Apply; Netlink]; CWait [] Apply [Netlink]] /\
  exists b, limiter demoNode !! Apply = Some b /\ sCap b = 1 /\ slots b <= sCap b.
Proof.
  split; [vm_compute; reflexivity|].
  destruct (limiter demoNode !! Apply) as [b|] eqn:E; [|vm_compute in E; discriminate E].
  exists b. split; [reflexivity|].
  destruct (budgets_are_respected demoConfig demoRequests 8 demoNode Apply b demoNode_run E)
    as (_ & H1 & _ & _ & [_ H2] & _).
  split; [rewrite H1; vm_compute; reflexivity|exact H2].
Defined.

Lemma acquisition_makes_progress_witness :
  (8 <= budgetOf demoRequests)%nat /\
  ((exists c a, c ∈ callers demoNode /\ c = CHold a) \/
   exists i ev n', ev <> EvCtxDone /\ step demoNode i ev = Some n').
Proof.
  destruct (acquisition_makes_progress demoConfig demoRequests 8 demoNode demoNode_run) as [H1 H2].
  split; [exact H1|]. apply H2. exists (CWait [] Apply [Netlink]). split; [|reflexivity].
  apply (list_elem_of_lookup_2 _ 1%nat). vm_compute. reflexivity.
Defined.
