(* ===== verification/Capacity.v ===== *)
(** * Resource accounting and capacity-safe scheduling

    Models [internal/place/resources.go], the capacity state of
    [internal/place/admission.go] and [internal/place/schedule.go]: what a
    workload requests, what a node can take, and how grading harnesses are
    packed into waves that no node is overcommitted by.

    [float64] is IEEE 754 binary64, computed by the Standard Library's
    [SpecFloat]; [int] and [int64] arithmetic wraps at 64 bits. A quantity
    written as text in the manifest ([512Mi]) enters as the result of
    [runtime.ParseMemory], [None] where it fails. *)

From stdpp Require Import base gmap strings list fin_maps sorting.
From Stdlib Require Import ZArith Lia SpecFloat.
From S2P Require Import Prelude.

Open Scope Z_scope.

(** ** Numbers *)

Definition int64 (n : Z) : Z := (n + 2 ^ 63) mod 2 ^ 64 - 2 ^ 63.

Abbreviation float64 := spec_float (only parsing).
Definition fzero : float64 := S754_zero false.
Definition fminus1 : float64 := binary_normalize 53 1024 (-1) 0 false.
Definition fadd (a b : float64) : float64 := SFadd 53 1024 a b.
Definition fsub (a b : float64) : float64 := SFsub 53 1024 a b.
(** [a < b] and [a == b]; both are false on a NaN. *)
Definition flt (a b : float64) : bool := SFltb a b.
Definition feq (a b : float64) : bool := SFeqb a b.

Definition fdiv (a b : float64) : float64 := SFdiv 53 1024 a b.
Definition fmul (a b : float64) : float64 := SFmul 53 1024 a b.
(** [a <= b], false on a NaN. *)
Definition fle (a b : float64) : bool := SFleb a b.
(** [float64(n)] of an integer, and a constant [m * 2^e]. *)
Definition fint (n : Z) : float64 := binary_normalize 53 1024 n 0 false.
Definition fconst (m e : Z) : float64 := binary_normalize 53 1024 m e false.

(** [math.Min]: a NaN wins, and so does a negative zero over a positive one. *)
Definition fmin (a b : float64) : float64 :=
  match a, b with
  | S754_nan, _ | _, S754_nan => S754_nan
  | S754_zero s, S754_zero s' => S754_zero (s || s')
  | _, _ => if flt a b then a else b
  end.

Lemma int64_small n : -2 ^ 63 <= n < 2 ^ 63 -> int64 n = n.
Proof. intros. unfold int64. rewrite Z.mod_small; lia. Qed.

(** ** Requests *)

Record Resources := mkRes {
  Containers : Z; CPUs : float64; MemoryBytes : Z; MemBytes : Z; DiskBytes : Z;
  Pids : Z; FileDescriptors : Z; NetDevices : Z
}.
Definition zeroRes : Resources := mkRes 0 fzero 0 0 0 0 0 0.

Definition memoryBytes (d : Resources) : Z :=
  if negb (MemoryBytes d =? 0) then MemoryBytes d else MemBytes d.

Definition add (d o : Resources) : Resources :=
  let memory := int64 (memoryBytes d + memoryBytes o) in
  mkRes (int64 (Containers d + Containers o)) (fadd (CPUs d) (CPUs o)) memory memory
    (int64 (DiskBytes d + DiskBytes o)) (int64 (Pids d + Pids o))
    (int64 (FileDescriptors d + FileDescriptors o)) (int64 (NetDevices d + NetDevices o)).

Definition sub (d o : Resources) : Resources :=
  let memory := int64 (memoryBytes d - memoryBytes o) in
  mkRes (int64 (Containers d - Containers o)) (fsub (CPUs d) (CPUs o)) memory memory
    (int64 (DiskBytes d - DiskBytes o)) (int64 (Pids d - Pids o))
    (int64 (FileDescriptors d - FileDescriptors o)) (int64 (NetDevices d - NetDevices o)).

Definition empty (d : Resources) : bool :=
  (Containers d =? 0) && feq (CPUs d) fzero && (memoryBytes d =? 0) && (DiskBytes d =? 0)
  && (Pids d =? 0) && (FileDescriptors d =? 0) && (NetDevices d =? 0).

(** [fits]: a dimension of a capacity is exhausted when negative, bounds when
    positive and says nothing when zero. *)
Definition fits (load need cap : Resources) (has : bool) : bool :=
  if negb has then true
  else if ((Containers cap <? 0) && (0 <? Containers need))
       || (flt (CPUs cap) fzero && flt fzero (CPUs need))
       || ((memoryBytes cap <? 0) && (0 <? memoryBytes need))
       || ((DiskBytes cap <? 0) && (0 <? DiskBytes need))
       || ((Pids cap <? 0) && (0 <? Pids need))
       || ((FileDescriptors cap <? 0) && (0 <? FileDescriptors need))
       || ((NetDevices cap <? 0) && (0 <? NetDevices need)) then false
  else if (0 <? Containers cap) && (Containers cap <? int64 (Containers load + Containers need))
  then false
  else if flt fzero (CPUs cap) && flt (CPUs cap) (fadd (CPUs load) (CPUs need)) then false
  else if (0 <? memoryBytes cap)
       && (memoryBytes cap <? int64 (memoryBytes load + memoryBytes need)) then false
  else if (0 <? DiskBytes cap) && (DiskBytes cap <? int64 (DiskBytes load + DiskBytes need))
  then false
  else if (0 <? Pids cap) && (Pids cap <? int64 (Pids load + Pids need)) then false
  else if (0 <? FileDescriptors cap)
       && (FileDescriptors cap <? int64 (FileDescriptors load + FileDescriptors need)) then false
  else if (0 <? NetDevices cap) && (NetDevices cap <? int64 (NetDevices load + NetDevices need))
  then false
  else true.

(** ** What a node can take *)

Record Capacity := mkCapacity {
  capContainers : option Z; capCPUs : option float64; capMemoryBytes : option Z;
  capDiskBytes : option Z; capPids : option Z; capFileDescriptors : option Z;
  capNetDevices : option Z
}.
Definition noCapacity : Capacity := mkCapacity None None None None None None None.

Record NodeInventory := mkInv {
  invName : string; invAllocatable : Capacity; invReserved : Resources;
  invReservedByLab : gmap string Resources; invUnlimited : list string
}.

(** [model.Budget]; [bStorage] is the parsed [Storage()]. *)
Record Budget := mkBudget {
  bCPUs : float64; bMemory : option Z; bPids : Z; bStorage : option Z;
  bFileDescriptors : Z; bNetDevices : Z; bContainers : Z
}.

Record NodeSpec := mkNodeSpec { nName : string; nPool : string; nCapacity : option Budget }.

Record Placement := mkPlacement {
  plNodes : list NodeSpec; plNodePool : string; plReserve : gmap string Budget
}.

Definition budgetDemand (b : Budget) : Resources :=
  let memory := default 0 (bMemory b) in
  mkRes (bContainers b) (bCPUs b) memory memory (default 0 (bStorage b)) (bPids b)
    (bFileDescriptors b) (bNetDevices b).

Definition clampInt (v : Z) : Z := if v <? 0 then -1 else v.

Definition clampCapacity (d : Resources) : Resources :=
  mkRes (clampInt (Containers d)) (if flt (CPUs d) fzero then fminus1 else CPUs d)
    (if memoryBytes d <? 0 then -1 else MemoryBytes d)
    (if memoryBytes d <? 0 then -1 else MemBytes d)
    (clampInt (DiskBytes d)) (clampInt (Pids d)) (clampInt (FileDescriptors d))
    (clampInt (NetDevices d)).

(** [capacityOf]. *)
Definition capacityOf (n : NodeSpec) (reserve : gmap string Budget) : Resources * bool :=
  match nCapacity n with
  | None => (zeroRes, false)
  | Some b =>
      let cap := budgetDemand b in
      let cap := match reserve !! nName n with
                 | Some r => sub cap (budgetDemand r)
                 | None => cap
                 end in
      let cap := clampCapacity cap in
      (cap, negb (empty cap))
  end.

(** [chooseInt] and [chooseCount] for a declared bound and a live one: the
    value, the dimensions it adds to [missing], and whether it sets [have]. *)
Definition choose (unlimited : list string) (name : string) (declared : Z) (live : option Z)
    : Z * list string * bool :=
  match 0 <? declared, live with
  | false, None => (0, (if decide (name ∈ unlimited) then [] else [name]), false)
  | true, Some v => (if declared <? v then declared else v, [], true)
  | true, None => (declared, [], true)
  | false, Some v => (v, [], true)
  end.

Definition chooseFloat (unlimited : list string) (name : string) (declared : float64)
    (live : option float64) : float64 * list string * bool :=
  match flt fzero declared, live with
  | false, None => (fzero, (if decide (name ∈ unlimited) then [] else [name]), false)
  | true, Some v => (fmin declared v, [], true)
  | true, None => (declared, [], true)
  | false, Some v => (v, [], true)
  end.

(** The sentinel for a known capacity of zero. *)
Definition sentinel (missing unlimited : list string) (name : string) (v : Z) : Z :=
  if bool_decide (name ∉ missing) && bool_decide (name ∉ unlimited) && (v =? 0) then -1 else v.

Definition effectiveCapacityOf (n : NodeSpec) (reserve : gmap string Budget)
    (inv : option NodeInventory) : Resources * bool * list string :=
  let live := match inv with Some i => invAllocatable i | None => noCapacity end in
  let unl := match inv with Some i => invUnlimited i | None => [] end in
  let decl := match nCapacity n with Some b => budgetDemand b | None => zeroRes end in
  let '(c, m1, h1) := choose unl "containers" (Containers decl) (capContainers live) in
  let '(cpu, m2, h2) := chooseFloat unl "cpu" (CPUs decl) (capCPUs live) in
  let '(mem, m3, h3) := choose unl "memory" (memoryBytes decl) (capMemoryBytes live) in
  let '(disk, m4, h4) := choose unl "ephemeral storage" (DiskBytes decl) (capDiskBytes live) in
  let '(pids, m5, h5) := choose unl "pids" (Pids decl) (capPids live) in
  let '(fds, m6, h6) :=
    choose unl "file descriptors" (FileDescriptors decl) (capFileDescriptors live) in
  let '(nd, m7, h7) := choose unl "netdevs" (NetDevices decl) (capNetDevices live) in
  let missing := m1 ++ m2 ++ m3 ++ m4 ++ m5 ++ m6 ++ m7 in
  let have := h1 || h2 || h3 || h4 || h5 || h6 || h7 in
  let out := mkRes c cpu mem mem disk pids fds nd in
  let out := match reserve !! nName n with
             | Some r => sub out (budgetDemand r)
             | None => out
             end in
  let out := clampCapacity out in
  let s := sentinel missing unl in
  let exhaustedMem := bool_decide ("memory" ∉ missing) && bool_decide ("memory" ∉ unl)
                      && (MemoryBytes out =? 0) in
  (mkRes (s "containers" (Containers out))
     (if bool_decide ("cpu" ∉ missing) && bool_decide ("cpu" ∉ unl) && feq (CPUs out) fzero
      then fminus1 else CPUs out)
     (if exhaustedMem then -1 else MemoryBytes out)
     (if exhaustedMem then -1 else MemBytes out)
     (s "ephemeral storage" (DiskBytes out)) (s "pids" (Pids out))
     (s "file descriptors" (FileDescriptors out)) (s "netdevs" (NetDevices out)),
   have, sortStrings missing).

(** [max] of the package. *)
Definition fmax (a b : float64) : float64 := if flt b a then a else b.

(** [pressure]: the fullest dimension. *)
Definition pressure (load cap : Resources) (has : bool) (nominal : Z) : float64 :=
  if negb has then fdiv (fint (Containers load)) (fint (if nominal <=? 0 then 1 else nominal))
  else
    let ratio (worst : float64) (bounded : bool) (r : float64) :=
      if bounded then fmax worst r else worst in
    let w := ratio fzero (0 <? Containers cap)
               (fdiv (fint (Containers load)) (fint (Containers cap))) in
    let w := ratio w (flt fzero (CPUs cap)) (fdiv (CPUs load) (CPUs cap)) in
    let w := ratio w (0 <? memoryBytes cap)
               (fdiv (fint (memoryBytes load)) (fint (memoryBytes cap))) in
    let w := ratio w (0 <? DiskBytes cap)
               (fdiv (fint (DiskBytes load)) (fint (DiskBytes cap))) in
    let w := ratio w (0 <? Pids cap) (fdiv (fint (Pids load)) (fint (Pids cap))) in
    let w := ratio w (0 <? FileDescriptors cap)
               (fdiv (fint (FileDescriptors load)) (fint (FileDescriptors cap))) in
    ratio w (0 <? NetDevices cap)
      (fdiv (fint (NetDevices load)) (fint (NetDevices cap))).

Definition placementPressure (load cap : Resources) (has : bool) (nominal : Z)
    (weight : float64) : float64 :=
  fdiv (pressure load cap has nominal) (if fle weight fzero then fint 1 else weight).

Definition nominalCapacity (names : list string) (caps : gmap string Resources)
    (hasCap : gmap string bool) (tot : Z) : Z :=
  let best := fold_left (fun best n =>
    if lookup_or false hasCap n && (best <? Containers (lookup_or zeroRes caps n))
    then Containers (lookup_or zeroRes caps n) else best) names 0 in
  let best := if (best =? 0) && (0 <? Z.of_nat (length names))
              then (tot + Z.of_nat (length names) - 1) ÷ Z.of_nat (length names) else best in
  if best <=? 0 then 1 else best.

(** ** The capacity state *)

Definition nonNegInt (v : Z) : Z := if v <? 0 then 0 else v.
Definition nonNegative (v : Resources) : Resources :=
  mkRes (nonNegInt (Containers v)) (if flt (CPUs v) fzero then fzero else CPUs v)
    (if memoryBytes v <? 0 then 0 else MemoryBytes v)
    (if memoryBytes v <? 0 then 0 else MemBytes v)
    (nonNegInt (DiskBytes v)) (nonNegInt (Pids v)) (nonNegInt (FileDescriptors v))
    (nonNegInt (NetDevices v)).

Record capacityState := mkState {
  names : list string; caps : gmap string Resources; hasCap : gmap string bool;
  baseline : gmap string Resources; unknown : gmap string (list string);
  allNodeName : gset string
}.
Definition noState : capacityState := mkState [] ∅ ∅ ∅ ∅ ∅.

(** The part of [Options] the capacity state reads. *)
Record Options := mkOpts {
  oInventory : list NodeInventory; oStrict : bool; oOvercommit : bool; oUnavailable : gset string
}.

(** [inventories[inv.Name] = inv]: a later entry replaces an earlier one. *)
Definition inventories (l : list NodeInventory) : gmap string NodeInventory :=
  fold_left (fun m inv => if decide (invName inv = "") then m else <[invName inv := inv]> m) l ∅.

(** One node of the loop of [buildCapacityState]. *)
Definition capacityNode (topName : string) (pl : Placement) (opts : Options)
    (out : capacityState) (node : NodeSpec) : capacityState :=
  if negb (bool_decide (plNodePool pl = "")) && negb (bool_decide (nPool node = plNodePool pl))
  then out
  else if decide (nName node ∈ oUnavailable opts) then out
  else
    let inv := inventories (oInventory opts) !! nName node in
    let '(cap, has, missing) := effectiveCapacityOf node (plReserve pl) inv in
    let base := match inv with
                | None => baseline out
                | Some i =>
                    let base := match invReservedByLab i !! topName with
                                | Some own => sub (invReserved i) own
                                | None => invReserved i
                                end in
                    <[nName node := nonNegative base]> (baseline out)
                end in
    mkState
      (if oStrict opts && negb (oOvercommit opts) && negb (bool_decide (missing = []))
       then names out else names out ++ [nName node])
      (<[nName node := cap]> (caps out)) (<[nName node := has]> (hasCap out)) base
      (if decide (missing = []) then unknown out else <[nName node := missing]> (unknown out))
      ({[nName node]} ∪ allNodeName out).

Definition buildCapacityState (topName : string) (pl : Placement) (opts : Options)
    : capacityState :=
  let s := fold_left (capacityNode topName pl opts) (plNodes pl) noState in
  mkState (sortStrings (names s)) (caps s) (hasCap s) (baseline s) (unknown s) (allNodeName s).

(** ** Waves *)

Record Workload := mkWorkload { wName : string; DemandByNode : gmap string Resources }.

Definition loadOf (loads : gmap string Resources) (node : string) : Resources :=
  lookup_or zeroRes loads node.
Definition capOf (st : capacityState) (node : string) : Resources := lookup_or zeroRes (caps st) node.
Definition hasOf (st : capacityState) (node : string) : bool := lookup_or false (hasCap st) node.

(** Whether [workloadFits] returns nil. *)
Definition nodeFits (st : capacityState) (loads : gmap string Resources) (node : string)
    (need : Resources) : bool :=
  bool_decide (node ∈ allNodeName st) && bool_decide (lookup_or [] (unknown st) node = [])
  && fits (loadOf loads node) need (capOf st node) (hasOf st node).
Definition workloadFits (st : capacityState) (loads : gmap string Resources) (w : Workload)
    : bool :=
  forallb (fun kv => nodeFits st loads kv.1 kv.2) (map_to_list (DemandByNode w)).

Definition addWorkload (loads : gmap string Resources) (w : Workload) : gmap string Resources :=
  merge (fun load need => match need with
                          | Some need => Some (add (default zeroRes load) need)
                          | None => load
                          end) loads (DemandByNode w).

Record wave := mkWave { indices : list nat; loads : gmap string Resources }.

(** The inner loop: the first wave with room takes the workload. *)
Fixpoint placeInWaves (st : capacityState) (max : nat) (i : nat) (w : Workload)
    (waves : list wave) : option (list wave) :=
  match waves with
  | [] => None
  | v :: rest =>
      if (max <=? length (indices v))%nat || negb (workloadFits st (loads v) w)
      then cons v <$> placeInWaves st max i w rest
      else Some (mkWave (indices v ++ [i]) (addWorkload (loads v) w) :: rest)
  end.

Inductive waveErr := WNoInventory | WOvercommitted (node : string) | WUnfit (workload : string).

Fixpoint packWaves (st : capacityState) (max : nat) (i : nat) (ws : list Workload)
    (waves : list wave) : result waveErr (list wave) :=
  match ws with
  | [] => Ok waves
  | w :: ws =>
      if negb (workloadFits st (baseline st) w) then Err (WUnfit (wName w))
      else
        match placeInWaves st max i w waves with
        | Some waves => packWaves st max (S i) ws waves
        | None => packWaves st max (S i) ws
                    (waves ++ [mkWave [i] (addWorkload (baseline st) w)])
        end
  end.

(** [ScheduleWaves]; the nil lab is not a value of the model. *)
Definition ScheduleWaves (pl : Placement) (inventory : list NodeInventory)
    (ws : list Workload) (max : Z) : result waveErr (list (list nat)) :=
  let max := if max <=? 0 then 1 else max in
  let st := buildCapacityState "__harness_scheduler__" pl (mkOpts inventory true false ∅) in
  if decide (names st = []) then Err WNoInventory
  else
    match List.filter (fun n => negb (fits zeroRes (loadOf (baseline st) n) (capOf st n) (hasOf st n)))
            (names st) with
    | n :: _ => Err (WOvercommitted n)
    | [] => match packWaves st (Z.to_nat max) 0 ws [] with
            | Ok waves => Ok (map indices waves)
            | Err e => Err e
            end
    end.

Definition SafeWorkerCount (pl : Placement) (inventory : list NodeInventory)
    (ws : list Workload) (requested : Z) : result waveErr Z :=
  if decide (ws = []) then Ok 0
  else
    let n := Z.of_nat (length ws) in
    let requested := if (requested <=? 0) || (n <? requested) then n else requested in
    match ScheduleWaves pl inventory ws requested with
    | Err e => Err e
    | Ok [] => Ok 0
    | Ok (w :: _) => Ok (Z.of_nat (length w))
    end.

(** ** Dimensions *)

Inductive dim := DContainers | DMemory | DDisk | DPids | DFds | DNetdevs.

Definition amount (d : dim) (r : Resources) : Z :=
  match d with
  | DContainers => Containers r
  | DMemory => memoryBytes r
  | DDisk => DiskBytes r
  | DPids => Pids r
  | DFds => FileDescriptors r
  | DNetdevs => NetDevices r
  end.

Lemma amount_add d a b : amount d (add a b) = int64 (amount d a + amount d b).
Proof. destruct d; try done. unfold add, amount, memoryBytes at 1. simpl. by case_match. Qed.

Lemma amount_sub d a b : amount d (sub a b) = int64 (amount d a - amount d b).
Proof. destruct d; try done. unfold sub, amount, memoryBytes at 1. simpl. by case_match. Qed.

(** A load stays under a capacity in every dimension the capacity bounds. *)
Definition underCap (load cap : Resources) (has : bool) : Prop :=
  has = true ->
  (forall d, 0 < amount d cap -> amount d load <= amount d cap) /\
  (flt fzero (CPUs cap) = true -> flt (CPUs cap) (CPUs load) = false).

(** A request asks nothing of an exhausted dimension. *)
Definition sparesExhausted (need cap : Resources) (has : bool) : Prop :=
  has = true ->
  (forall d, amount d cap < 0 -> amount d need <= 0) /\
  (flt (CPUs cap) fzero = true -> flt fzero (CPUs need) = false).

Ltac split_fits H :=
  repeat match type of H with
         | (if ?c then false else _) = true => destruct c eqn:? in H; [discriminate H|]
         end;
  repeat match goal with
         | E : _ || _ = false |- _ => apply orb_false_iff in E as [? ?]
         end.

Lemma fits_spec load need cap has :
  fits load need cap has = true ->
  sparesExhausted need cap has /\ underCap (add load need) cap has.
Proof.
  intros H. split; intros ->; unfold fits in H; simpl negb in H; cbv iota in H; split_fits H; split.
  - intros d Hd. destruct d; simpl in *;
      match goal with E : (?a <? 0) && (0 <? ?b) = false |- ?b <= 0 =>
        apply andb_false_iff in E as [E|E]; apply Z.ltb_ge in E; lia end.
  - intros Hc. match goal with E : flt (CPUs cap) fzero && _ = false |- _ =>
      rewrite Hc in E; exact E end.
  - intros d Hd. rewrite amount_add. destruct d; simpl in *;
      match goal with E : (0 <? ?a) && (?a <? ?b) = false |- ?b <= ?a =>
        apply andb_false_iff in E as [E|E]; apply Z.ltb_ge in E; lia end.
  - intros Hc. match goal with E : flt fzero (CPUs cap) && _ = false |- _ =>
      rewrite Hc in E; exact E end.
Qed.

(** ** What a wave adds up to *)

Definition demandOn (ws : list Workload) (node : string) (i : nat) : option Resources :=
  w ← ws !! i; DemandByNode w !! node.

Definition waveLoad (st : capacityState) (ws : list Workload) (idx : list nat)
    : gmap string Resources :=
  fold_left (fun l i => match ws !! i with Some w => addWorkload l w | None => l end) idx
    (baseline st).

Definition summed (st : capacityState) (ws : list Workload) (d : dim) (node : string)
    (idx : list nat) : Z :=
  fold_left (fun t i => t + match demandOn ws node i with Some need => amount d need | None => 0 end)
    idx (amount d (loadOf (baseline st) node)).

Lemma loadOf_addWorkload l w node :
  loadOf (addWorkload l w) node =
    match DemandByNode w !! node with
    | Some need => add (loadOf l node) need
    | None => loadOf l node
    end.
Proof.
  unfold loadOf, lookup_or, addWorkload. rewrite lookup_merge. unfold diag_None.
  destruct (l !! node), (DemandByNode w !! node); done.
Qed.

(** Amounts small enough for exact 64-bit sums. *)
Definition small (st : capacityState) (ws : list Workload) : Prop :=
  forall d node,
    0 <= amount d (loadOf (baseline st) node) < 2 ^ 62 /\ amount d (capOf st node) < 2 ^ 62 /\
    forall i need, demandOn ws node i = Some need -> 0 <= amount d need < 2 ^ 62.

Section Waves.
Context (st : capacityState) (ws : list Workload) (max : nat).
Hypothesis Hmax : (1 <= max)%nat.

Record waveOK (v : wave) : Prop := {
  w_load : loads v = waveLoad st ws (indices v);
  w_size : (length (indices v) <= max)%nat;
  w_safe i node need : i ∈ indices v -> demandOn ws node i = Some need ->
    node ∈ allNodeName st /\ lookup_or [] (unknown st) node = [] /\
    sparesExhausted need (capOf st node) (hasOf st node) /\
    underCap (loadOf (loads v) node) (capOf st node) (hasOf st node);
  w_exact d node : small st ws -> hasOf st node = true -> 0 < amount d (capOf st node) ->
    amount d (loadOf (loads v) node) = summed st ws d node (indices v) /\
    0 <= amount d (loadOf (loads v) node) < 2 ^ 62
}.

Lemma workloadFits_node l w node need :
  workloadFits st l w = true -> DemandByNode w !! node = Some need ->
  node ∈ allNodeName st /\ lookup_or [] (unknown st) node = [] /\
  sparesExhausted need (capOf st node) (hasOf st node) /\
  underCap (add (loadOf l node) need) (capOf st node) (hasOf st node).
Proof.
  unfold workloadFits. intros H Hn. rewrite forallb_forall in H.
  specialize (H (node, need)). simpl in H. unfold nodeFits in H.
  apply andb_true_iff in H as [[H1 H2]%andb_true_iff H3];
    [|by apply list_elem_of_In, elem_of_map_to_list].
  apply bool_decide_eq_true in H1, H2. apply fits_spec in H3 as [? ?]. done.
Qed.

Lemma waveOK_add v i w :
  waveOK v -> (length (indices v) < max)%nat -> ws !! i = Some w ->
  workloadFits st (loads v) w = true ->
  waveOK (mkWave (indices v ++ [i]) (addWorkload (loads v) w)).
Proof.
  intros [Hl Hs Hsafe He] Hlt Hi Hf.
  pose proof (fun node need => workloadFits_node _ _ node need Hf) as Hnew.
  split; simpl.
  - unfold waveLoad. rewrite fold_left_app. simpl. rewrite Hi, Hl. done.
  - rewrite length_app. simpl. lia.
  - intros j node need Hj Hd. rewrite loadOf_addWorkload.
    apply elem_of_app in Hj as [Hj| ->%list_elem_of_singleton].
    + destruct (Hsafe _ _ _ Hj Hd) as (A & B & C & D). split_and!; try done.
      destruct (DemandByNode w !! node) as [n'|] eqn:E; [by apply Hnew|done].
    + unfold demandOn in Hd. rewrite Hi in Hd. simpl in Hd. rewrite Hd. by apply Hnew.
  - intros d node Hsm Hh Hc. destruct (He d node Hsm Hh Hc) as [E1 E2].
    unfold summed. rewrite fold_left_app. simpl. fold (summed st ws d node (indices v)).
    unfold demandOn. rewrite Hi. simpl. rewrite loadOf_addWorkload.
    destruct (DemandByNode w !! node) as [n'|] eqn:E; [|by rewrite Z.add_0_r].
    destruct (Hsm d node) as (_ & Hcap & Hneed).
    specialize (Hneed i n'). unfold demandOn in Hneed. rewrite Hi in Hneed. specialize (Hneed E).
    destruct (Hnew _ _ E) as (_ & _ & _ & Hu). destruct (Hu Hh) as [Hu' _]. specialize (Hu' d Hc).
    rewrite amount_add in *. rewrite int64_small in * by lia. split; lia.
Qed.

Lemma waveOK_empty : waveOK (mkWave [] (baseline st)).
Proof.
  split; simpl; [done|lia| |].
  - intros i node need Hi. by apply elem_of_nil in Hi.
  - intros d node Hsm _ _. split; [done|]. apply (Hsm d node).
Qed.

Definition used (waves : list wave) : list nat := concat (map indices waves).

Lemma placeInWaves_ok i w waves waves' :
  ws !! i = Some w -> placeInWaves st max i w waves = Some waves' -> Forall waveOK waves ->
  Forall waveOK waves' /\ used waves' ≡ₚ i :: used waves /\
  (Forall (fun v => indices v <> []) waves -> Forall (fun v => indices v <> []) waves').
Proof.
  intros Hi. revert waves'. induction waves as [|v rest IH]; intros waves' H Hok; simpl in H; [done|].
  apply Forall_cons in Hok as [Hv Hr].
  destruct (_ || _) eqn:E.
  - destruct (placeInWaves st max i w rest) as [r|]; [|done]. simpl in H. simplify_eq.
    destruct (IH r eq_refl Hr) as (A & B & C). split_and!.
    + by constructor.
    + unfold used in *. simpl. rewrite B. by rewrite Permutation_middle.
    + intros [? ?]%Forall_cons. constructor; auto.
  - simplify_eq. apply orb_false_iff in E as [E1 E2]. apply Nat.leb_gt in E1.
    apply negb_false_iff in E2. split_and!.
    + constructor; [by apply waveOK_add|done].
    + unfold used. simpl. rewrite <- app_assoc. simpl. by rewrite <- Permutation_middle.
    + intros [? ?]%Forall_cons. constructor; [|done]. simpl. by destruct (indices v).
Qed.

Lemma packWaves_ok i rest waves waves' :
  drop i ws = rest -> packWaves st max i rest waves = Ok waves' ->
  Forall waveOK waves -> Forall (fun v => indices v <> []) waves -> used waves ≡ₚ seq 0 i ->
  Forall waveOK waves' /\ Forall (fun v => indices v <> []) waves' /\
  used waves' ≡ₚ seq 0 (i + length rest).
Proof.
  revert i waves. induction rest as [|w rest IH]; intros i waves Hd H Hok Hne Hu; simpl in H.
  { simplify_eq. by rewrite Nat.add_0_r. }
  assert (ws !! i = Some w) as Hi.
  { rewrite <- (Nat.add_0_r i), <- lookup_drop, Hd. done. }
  assert (drop (S i) ws = rest) as Hd'.
  { replace (S i) with (i + 1)%nat by lia. rewrite <- drop_drop, Hd. done. }
  assert (seq 0 (S i) ≡ₚ i :: seq 0 i) as Hseq.
  { rewrite seq_S. simpl. by rewrite <- Permutation_cons_append. }
  destruct (negb _) eqn:Ef; [done|]. apply negb_false_iff in Ef.
  replace (i + length (w :: rest))%nat with (S i + length rest)%nat by (simpl; lia).
  destruct (placeInWaves st max i w waves) as [waves1|] eqn:Ep.
  - destruct (placeInWaves_ok _ _ _ _ Hi Ep Hok) as (A & B & C).
    apply (IH (S i) waves1); [done|done|done|by apply C|]. by rewrite B, Hseq, Hu.
  - apply (IH (S i) (waves ++ [mkWave [i] (addWorkload (baseline st) w)])); [done|done| | |].
    + apply Forall_app. split; [done|]. constructor; [|done].
      apply (waveOK_add (mkWave [] (baseline st))); [apply waveOK_empty|simpl; lia|done|done].
    + apply Forall_app. split; [done|]. by constructor.
    + unfold used in *. rewrite map_app, concat_app. simpl.
      by rewrite <- Permutation_cons_append, Hseq, Hu.
Qed.
End Waves.

(** Waves are capacity-safe. When [ScheduleWaves] returns, every workload
    is in exactly one wave and no wave is empty or wider than allowed; a wave
    uses only declared nodes whose inventory is complete; the load it puts on
    such a node, on top of the reservations already there, is within the
    effective capacity in every dimension, and nothing is asked of an
    exhausted one; and for amounts below 2^62 the load accounted for is the
    exact sum of the requests, no 64-bit addition having wrapped. *)
Theorem waves_are_capacity_safe pl inventory ws max out
    (st := buildCapacityState "__harness_scheduler__" pl (mkOpts inventory true false ∅)) :
  ScheduleWaves pl inventory ws max = Ok out ->
  concat out ≡ₚ seq 0 (length ws) /\
  forall idx, idx ∈ out ->
    1 <= Z.of_nat (length idx) <= Z.max 1 max /\
    forall i node need, i ∈ idx -> demandOn ws node i = Some need ->
      node ∈ allNodeName st /\ lookup_or [] (unknown st) node = [] /\
      sparesExhausted need (capOf st node) (hasOf st node) /\
      underCap (loadOf (waveLoad st ws idx) node) (capOf st node) (hasOf st node) /\
      (small st ws -> hasOf st node = true -> forall d, 0 < amount d (capOf st node) ->
         amount d (loadOf (waveLoad st ws idx) node) = summed st ws d node idx).
Proof.
  unfold ScheduleWaves. fold st. intros H.
  destruct (decide (names st = [])); [done|]. destruct (List.filter _ _); [|done].
  set (m := Z.to_nat (if max <=? 0 then 1 else max)) in *.
  assert ((1 <= m)%nat /\ Z.of_nat m = Z.max 1 max) as [Hm1 Hm2].
  { unfold m. destruct (max <=? 0) eqn:E; [apply Z.leb_le in E|apply Z.leb_gt in E]; lia. }
  destruct (packWaves st m 0 ws []) as [waves|] eqn:Hp; [|done]. simplify_eq.
  destruct (packWaves_ok st ws m Hm1 0 ws [] waves) as (A & B & C); [done|done|done|done|done|].
  split; [exact C|]. intros idx Hidx. apply list_elem_of_fmap in Hidx as (v & -> & Hv).
  pose proof (proj1 (Forall_forall _ _) A v Hv) as [Hl Hs Hsafe He].
  pose proof (proj1 (Forall_forall _ _) B v Hv) as Hne. simpl in Hne. rewrite <- Hl. split.
  - destruct (indices v); [done|]. simpl in *. lia.
  - intros i node need Hi Hd. destruct (Hsafe i node need Hi Hd) as (? & ? & ? & ?).
    split_and!; try done. intros Hsm Hh d Hc. by apply He.
Qed.

(** ** Effective capacity *)

Definition dimName (d : dim) : string :=
  match d with
  | DContainers => "containers"
  | DMemory => "memory"
  | DDisk => "ephemeral storage"
  | DPids => "pids"
  | DFds => "file descriptors"
  | DNetdevs => "netdevs"
  end.

Definition liveBound (d : dim) (c : Capacity) : option Z :=
  match d with
  | DContainers => capContainers c
  | DMemory => capMemoryBytes c
  | DDisk => capDiskBytes c
  | DPids => capPids c
  | DFds => capFileDescriptors c
  | DNetdevs => capNetDevices c
  end.

(** What the manifest declares, what the agent reports and what is reserved. *)
Definition declaredOf (n : NodeSpec) (d : dim) : Z :=
  match nCapacity n with Some b => amount d (budgetDemand b) | None => 0 end.
Definition liveOf (inv : option NodeInventory) (d : dim) : option Z :=
  i ← inv; liveBound d (invAllocatable i).
Definition unlimitedOf (inv : option NodeInventory) : list string :=
  match inv with Some i => invUnlimited i | None => [] end.
Definition reservedOf (n : NodeSpec) (reserve : gmap string Budget) (d : dim) : Z :=
  match reserve !! nName n with Some r => amount d (budgetDemand r) | None => 0 end.

Lemma choose_known unl name declared live v m h :
  choose unl name declared live = (v, m, h) -> name ∉ m -> name ∉ unl ->
  h = true /\ (0 < declared -> v <= declared) /\ (forall l, live = Some l -> v <= l) /\
  (v = declared /\ 0 < declared \/ live = Some v).
Proof.
  unfold choose. intros H Hm Hu.
  destruct (0 <? declared) eqn:E, live as [l|]; simpl in H;
    try apply Z.ltb_lt in E; try apply Z.ltb_ge in E.
  - destruct (declared <? l) eqn:E2; simplify_eq; [apply Z.ltb_lt in E2|apply Z.ltb_ge in E2];
      split_and!; try done; try naive_solver lia.
  - simplify_eq. split_and!; try done; naive_solver lia.
  - simplify_eq. split_and!; try done; naive_solver lia.
  - rewrite decide_False in H by done. simplify_eq. destruct Hm. left.
Qed.

Lemma memory_twice r : MemoryBytes r = MemBytes r -> memoryBytes r = MemoryBytes r.
Proof. unfold memoryBytes. intros ->. by case_match. Qed.

(** The pipeline of one dimension: the smaller bound, less the reserve,
    clamped, with the sentinel for zero. *)
Lemma effective_amount n reserve inv d cap has missing :
  effectiveCapacityOf n reserve inv = (cap, has, missing) ->
  dimName d ∉ missing -> dimName d ∉ unlimitedOf inv ->
  exists v m h, choose (unlimitedOf inv) (dimName d) (declaredOf n d) (liveOf inv d) = (v, m, h) /\
    dimName d ∉ m /\ (h = true -> has = true) /\
    let x := match reserve !! nName n with
             | Some r => int64 (v - amount d (budgetDemand r))
             | None => v
             end in
    amount d cap = if x <=? 0 then -1 else x.
Proof.
  intros H Hm Hu. unfold effectiveCapacityOf in H.
  set (live := match inv with Some i => invAllocatable i | None => noCapacity end) in *.
  change (match inv with Some i => invUnlimited i | None => [] end) with (unlimitedOf inv) in H.
  set (decl := match nCapacity n with Some b => budgetDemand b | None => zeroRes end) in *.
  assert (forall d, declaredOf n d = amount d decl) as Hdecl.
  { intros d'. unfold declaredOf, decl. by destruct (nCapacity n), d'. }
  assert (forall d, liveOf inv d = liveBound d live) as Hlive.
  { intros d'. unfold liveOf, live. by destruct inv, d'. }
  rewrite Hdecl, Hlive.
  destruct (choose _ "containers" _ _) as [[c m1] h1] eqn:E1.
  destruct (chooseFloat _ _ _ _) as [[cpu m2] h2].
  destruct (choose _ "memory" _ _) as [[mem m3] h3] eqn:E3.
  destruct (choose _ "ephemeral storage" _ _) as [[disk m4] h4] eqn:E4.
  destruct (choose _ "pids" _ _) as [[pids m5] h5] eqn:E5.
  destruct (choose _ "file descriptors" _ _) as [[fds m6] h6] eqn:E6.
  destruct (choose _ "netdevs" _ _) as [[nd m7] h7] eqn:E7.
  set (mm := m1 ++ m2 ++ m3 ++ m4 ++ m5 ++ m6 ++ m7) in *.
  set (u := unlimitedOf inv) in *. simplify_eq.
  rewrite elem_of_sortStrings in Hm.
  assert (forall x, sentinel mm u (dimName d) (clampInt x) = if x <=? 0 then -1 else x) as Hsent.
  { intros x. unfold sentinel, clampInt. rewrite !bool_decide_true by done. simpl.
    destruct (x <? 0) eqn:A, (x <=? 0) eqn:B, (x =? 0) eqn:C; simpl; lia. }
  assert (forall m, m ⊆ mm -> dimName d ∉ m) as Hsub by set_solver.
  destruct d; cbn [dimName amount liveBound] in *;
    (eexists _, _, _; split; [eassumption|]; split; [apply Hsub; unfold mm; set_solver|];
     split; [intros ->; by rewrite ?orb_true_r|]); try (by destruct (reserve !! nName n); apply Hsent).
  match goal with |- context [clampCapacity ?p] => set (pre := p) end.
  match goal with |- _ = if ?x <=? 0 then _ else _ => set (y := x) end.
  assert (MemoryBytes pre = y /\ MemBytes pre = y) as [Hp1 Hp2].
  { unfold pre, y. destruct (reserve !! nName n); [|done]. unfold sub. simpl.
    by rewrite (memory_twice (mkRes c cpu mem mem disk pids fds nd)). }
  rewrite memory_twice; simpl; rewrite (memory_twice pre), Hp1, ?Hp2 by congruence; [|done].
  apply Hsent.
Qed.

(** Admission respects every bound. Let a node's capacity be the one
    [effectiveCapacityOf] derives, and a dimension be known and not
    unlimited: a request [fits] admits in that dimension leaves the load,
    plus the static reserve, within the manifest's bound and within the live
    one. A capacity used up exactly refuses every further request. *)
Theorem admission_respects_bounds n reserve inv cap has missing d load need :
  effectiveCapacityOf n reserve inv = (cap, has, missing) ->
  dimName d ∉ missing -> dimName d ∉ unlimitedOf inv ->
  0 <= amount d load < 2 ^ 62 -> 0 < amount d need < 2 ^ 62 ->
  0 <= reservedOf n reserve d < 2 ^ 62 -> declaredOf n d < 2 ^ 62 ->
  (forall l, liveOf inv d = Some l -> - 2 ^ 62 < l < 2 ^ 62) ->
  fits load need cap has = true ->
  (0 < declaredOf n d ->
     amount d load + amount d need + reservedOf n reserve d <= declaredOf n d) /\
  (forall l, liveOf inv d = Some l ->
     amount d load + amount d need + reservedOf n reserve d <= l).
Proof.
  intros He Hm Hu Hl Hn Hr Hd Hlive Hf.
  destruct (effective_amount _ _ _ _ _ _ _ He Hm Hu) as (v & m & h & Hc & Hm' & Hh & Hx).
  destruct (choose_known _ _ _ _ _ _ _ Hc Hm' Hu) as (-> & H1 & H2 & Hv).
  specialize (Hh eq_refl). subst has. apply fits_spec in Hf as [Hs Hcap].
  destruct (Hs eq_refl) as [Hs' _]. destruct (Hcap eq_refl) as [Hcap' _].
  specialize (Hs' d). specialize (Hcap' d). rewrite amount_add, int64_small in Hcap' by lia.
  assert (- 2 ^ 62 < v < 2 ^ 62) as Hrange.
  { destruct Hv as [[-> ?]|Hv]; [lia|]. by apply Hlive. }
  assert (match reserve !! nName n with
          | Some r => int64 (v - amount d (budgetDemand r)) | None => v end
          = v - reservedOf n reserve d) as E.
  { unfold reservedOf in *. destruct (reserve !! nName n); [apply int64_small; lia|lia]. }
  cbv zeta in Hx. rewrite E in Hx.
  destruct (v - reservedOf n reserve d <=? 0) eqn:Ez; rewrite Hx in Hs', Hcap'.
  { specialize (Hs' ltac:(done)). lia. }
  apply Z.leb_gt in Ez. specialize (Hcap' Ez). split; [intros Hpos; specialize (H1 Hpos)|intros l Hlv; specialize (H2 l Hlv)]; lia.
Qed.

(** A static reserve turns an unlimited dimension into an exhausted one:
    on a node whose kernel bounds no file descriptors, any reserve of file
    descriptors makes [fits] refuse every request for them, though the
    dimension is documented to stay unconstrained. *)
Theorem reserve_exhausts_unlimited :
  let inv := mkInv "n1" (mkCapacity (Some 100) (Some (binary_normalize 53 1024 8 0 false))
               (Some (2 ^ 34)) (Some (2 ^ 36)) (Some 32768) None (Some 4096)) zeroRes ∅
               ["file descriptors"] in
  let need := mkRes 1 fzero 0 0 0 0 1024 0 in
  let admits reserve :=
    let '(cap, has, missing) := effectiveCapacityOf (mkNodeSpec "n1" "" None) reserve (Some inv) in
    (fits zeroRes need cap has, missing) in
  admits ∅ = (true, []) /\
  admits {["n1" := mkBudget fzero None 0 None 64 0 0]} = (false, []).
Proof. split; vm_compute; reflexivity. Qed.

(** ** Witnesses *)

Definition demoNode (name : string) : NodeSpec :=
  mkNodeSpec name "" (Some (mkBudget (binary_normalize 53 1024 4 0 false) (Some (2 ^ 33)) 4096
    (Some (2 ^ 35)) 65536 512 10)).
Definition demoInv (name : string) : NodeInventory :=
  mkInv name (mkCapacity (Some 8) (Some (binary_normalize 53 1024 8 0 false)) (Some (2 ^ 32))
    (Some (2 ^ 36)) (Some 32768) (Some 65536) (Some 4096)) (mkRes 2 fzero 0 0 0 64 0 0) ∅ [].
Definition demoPlacement : Placement := mkPlacement [demoNode "n1"; demoNode "n2"] "" ∅.
Definition demoWork (name node : string) (c : Z) : Workload :=
  mkWorkload name {[node := mkRes c (binary_normalize 53 1024 1 0 false) (2 ^ 30) (2 ^ 30) 0 64 0 8]}.
Definition demoWorks : list Workload :=
  [demoWork "a" "n1" 4; demoWork "b" "n1" 4; demoWork "c" "n2" 5; demoWork "d" "n1" 2].

Lemma waves_are_capacity_safe_witness :
  ScheduleWaves demoPlacement [demoInv "n1"; demoInv "n2"] demoWorks 3 = Ok [[0; 2; 3]; [1]]%nat /\
  concat [[0; 2; 3]; [1]]%nat ≡ₚ seq 0 4.
Proof.
  assert (ScheduleWaves demoPlacement [demoInv "n1"; demoInv "n2"] demoWorks 3
    = Ok [[0; 2; 3]; [1]]%nat) as H by (vm_compute; reflexivity).
  split; [exact H|]. exact (proj1 (waves_are_capacity_safe _ _ _ _ _ H)).
Defined.

Lemma admission_respects_bounds_witness :
  let '(cap, has, missing) := effectiveCapacityOf (demoNode "n1") ∅ (Some (demoInv "n1")) in
  fits (mkRes 5 fzero 0 0 0 0 0 0) (mkRes 3 fzero 0 0 0 0 0 0) cap has = true /\
  amount DContainers (mkRes 5 fzero 0 0 0 0 0 0) + amount DContainers (mkRes 3 fzero 0 0 0 0 0 0)
    + reservedOf (demoNode "n1") ∅ DContainers <= 8.
Proof.
  destruct (effectiveCapacityOf (demoNode "n1") ∅ (Some (demoInv "n1"))) as [[cap has] missing] eqn:E.
  assert (missing = []) as Hm by (vm_compute in E; congruence).
  assert (fits (mkRes 5 fzero 0 0 0 0 0 0) (mkRes 3 fzero 0 0 0 0 0 0) cap has = true) as Hf.
  { vm_compute in E. injection E as <- <- _. vm_compute. reflexivity. }
  split; [exact Hf|].
  refine (proj2 (admission_respects_bounds (demoNode "n1") ∅ (Some (demoInv "n1")) cap has missing
    DContainers (mkRes 5 fzero 0 0 0 0 0 0) (mkRes 3 fzero 0 0 0 0 0 0) E _ _ _ _ _ _ _ Hf) 8 eq_refl).
  - rewrite Hm. apply not_elem_of_nil.
  - apply not_elem_of_nil.
  - simpl. lia.
  - simpl. lia.
  - vm_compute. split; [discriminate|reflexivity].
  - vm_compute. reflexivity.
  - intros l [= <-]. lia.
Defined.
