(* ===== verification/Affinity.v ===== *)
(** * Placement by locality

    Models [internal/place/affinity.go]: the graph of links between
    autonomous systems, the order in which they are placed and the local
    search that repairs a greedy placement. An AS number of 0 stands for a
    lab-global service, as in the code. *)

From stdpp Require Import base gmap strings list fin_maps sorting relations.
From Stdlib Require Import ZArith Lia SpecFloat.
From S2P Require Import Prelude Model Capacity.

Open Scope Z_scope.

(** ** The graph *)

Record affinityGraph := mkGraph {
  peers : gmap Z (gmap Z Z);
  svc : gmap Z (gmap string Z);
  legacySvc : gmap Z Z
}.
Definition emptyGraph : affinityGraph := mkGraph ∅ ∅ ∅.

(** [m[k]++] on a map of counters. *)
Definition incr {K} `{Countable K} (k : K) (m : gmap K Z) : gmap K Z :=
  <[k := lookup_or 0 m k + 1]> m.
(** [m[a][b]++], creating the inner map. *)
Definition incr2 {K} `{Countable K} (a : Z) (b : K) (m : gmap Z (gmap K Z)) : gmap Z (gmap K Z) :=
  <[a := incr b (lookup_or ∅ m a)]> m.

(** One service link: [y] is the AS, [d] the service's device. *)
Definition serviceLink (y : Z) (d : Device) (g : affinityGraph) : affinityGraph :=
  if decide (devNode d = "")
  then mkGraph (peers g) (svc g) (incr y (legacySvc g))
  else mkGraph (peers g) (incr2 y (devNode d) (svc g)) (legacySvc g).

Definition addLink (g : affinityGraph) (l : Link) : affinityGraph :=
  match (a ← linkA l; b ← linkB l; da ← ifaceDevice a; db ← ifaceDevice b; Some (da, db)) with
  | None => g
  | Some (da, db) =>
      let x := devASN da in
      let y := devASN db in
      if x =? y then g
      else if (x =? 0) || (y =? 0) then
        if (x =? 0) && negb (y =? 0) then serviceLink y da g
        else if (y =? 0) && negb (x =? 0) then serviceLink x db g
        else g
      else mkGraph (incr2 y x (incr2 x y (peers g))) (svc g) (legacySvc g)
  end.

Definition buildAffinity (links : list Link) : affinityGraph :=
  fold_left addLink links emptyGraph.

Definition peersOf (g : affinityGraph) (asn : Z) : gmap Z Z := lookup_or ∅ (peers g) asn.
Definition svcPull (g : affinityGraph) (front : string) (asn : Z) (n : string) : Z :=
  lookup_or 0 (lookup_or ∅ (svc g) asn) n
  + (if decide (n = front) then lookup_or 0 (legacySvc g) asn else 0).

Definition degree (g : affinityGraph) (asn : Z) : Z :=
  map_fold (fun _ c n => n + c) 0 (peersOf g asn).

(** [pull], and the [local] closure of [refine]: the links AS [asn] keeps
    inside node [n]. *)
Definition pull (g : affinityGraph) (asn : Z) (n : string) (byAS : gmap Z string)
    (front : string) : Z :=
  map_fold (fun peer count score => if decide (lookup_or "" byAS peer = n)
                                    then score + count else score) 0 (peersOf g asn)
  + svcPull g front asn n.

(** ** Local search *)

(** The constant 1e-9. *)
Definition nano : spec_float := fconst 4835703278458517 (-82).

Section Refine.
Context (names : list string) (g : affinityGraph) (weight : gmap Z Resources)
  (caps : gmap string Resources) (hasCap : gmap string bool)
  (placementWeights : gmap string spec_float) (pinned : gmap Z string) (front : string)
  (tolerance : spec_float) (nominal : Z).

Definition weightOf (asn : Z) : Resources := lookup_or zeroRes weight asn.
Definition pressureAt (l : Resources) (n : string) : spec_float :=
  placementPressure l (lookup_or zeroRes caps n) (lookup_or false hasCap n) nominal
    (lookup_or fzero placementWeights n).

(** The ASes that may move, in ascending order. *)
Definition movable (byAS : gmap Z string) : list Z :=
  sortInts (List.filter (fun asn => bool_decide (pinned !! asn = None)) (map fst (map_to_list byAS))).

Definition ceiling (loads : gmap string Resources) : spec_float :=
  fadd (fold_left (fun c n => fmax c (pressureAt (loadOf loads n) n)) names fzero) tolerance.

Definition within (ceil : spec_float) (l : Resources) (n : string) : bool :=
  fits zeroRes l (lookup_or zeroRes caps n) (lookup_or false hasCap n)
  && fle (pressureAt l n) (fadd ceil nano).

(** The placement and the loads the search updates together. *)
Record search := mkSearch { byAS : gmap Z string; sLoads : gmap string Resources }.

Definition nodeOf (s : search) (asn : Z) : string := lookup_or "" (byAS s) asn.
Definition localTo (s : search) (asn : Z) (n : string) : Z := pull g asn n (byAS s) front.

(** The scan for the best destination of one AS. *)
Definition bestMove (ceil : spec_float) (s : search) (asn : Z) : Z * string :=
  let from := nodeOf s asn in
  fold_left (fun best n =>
    if decide (n = from) then best
    else
      let delta := localTo s asn n - localTo s asn from in
      if delta <=? best.1 then best
      else if negb (within ceil (add (loadOf (sLoads s) n) (weightOf asn)) n) then best
      else (delta, n)) names (0, "").

Definition tryMove (ceil : spec_float) (s : search) (asn : Z) : option search :=
  let from := nodeOf s asn in
  let '(_, to) := bestMove ceil s asn in
  if decide (to = "") then None
  else
    let loads := <[from := sub (loadOf (sLoads s) from) (weightOf asn)]> (sLoads s) in
    Some (mkSearch (<[asn := to]> (byAS s))
            (<[to := add (loadOf loads to) (weightOf asn)]> loads)).

(** The test and the update of one pair. *)
Definition trySwap (ceil : spec_float) (s : search) (x y : Z) : option search :=
  let nx := nodeOf s x in
  let ny := nodeOf s y in
  if decide (nx = ny) then None
  else
    let bef := localTo s x nx + localTo s y ny in
    let s' := mkSearch (<[y := nx]> (<[x := ny]> (byAS s))) (sLoads s) in
    let aft := localTo s' x ny + localTo s' y nx in
    if aft <=? bef then None
    else
      let lx := add (sub (loadOf (sLoads s) nx) (weightOf x)) (weightOf y) in
      let ly := add (sub (loadOf (sLoads s) ny) (weightOf y)) (weightOf x) in
      if negb (within ceil lx nx) || negb (within ceil ly ny) then None
      else Some (mkSearch (byAS s') (<[ny := ly]> (<[nx := lx]> (sLoads s)))).

(** Run a list of attempts, counting the successes. *)
Fixpoint attempts (tries : list (search -> option search)) (s : search) (moved : nat)
    : search * nat :=
  match tries with
  | [] => (s, moved)
  | t :: tries => match t s with
                  | Some s => attempts tries s (S moved)
                  | None => attempts tries s moved
                  end
  end.

(** The pairs [i < j] in the order of the nested loops. *)
Fixpoint pairs (l : list Z) : list (Z * Z) :=
  match l with
  | [] => []
  | x :: l => map (pair x) l ++ pairs l
  end.

Definition oneRound (ceil : spec_float) (mov : list Z) : list (search -> option search) :=
  map (fun asn s => tryMove ceil s asn) mov
  ++ map (fun xy s => trySwap ceil s xy.1 xy.2) (pairs mov).

Fixpoint rounds (k : nat) (ceil : spec_float) (mov : list Z) (s : search) (moved : nat)
    : search * nat :=
  match k with
  | O => (s, moved)
  | S k =>
      let '(s', moved') := attempts (oneRound ceil mov) s moved in
      if (moved' =? moved)%nat then (s', moved') else rounds k ceil mov s' moved'
  end.

Definition refine (s : search) : search * nat :=
  let mov := movable (byAS s) in
  if (length mov <? 2)%nat then (s, 0%nat)
  else rounds 8 (ceiling (sLoads s)) mov s 0.
End Refine.

(** ** The graph is undirected *)

Definition links (g : affinityGraph) (x y : Z) : Z := lookup_or 0 (peersOf g x) y.

Definition undirected (g : affinityGraph) : Prop :=
  (forall x y, links g x y = links g y x) /\ (forall x, links g x x = 0).

Lemma lookup_incr {K} `{Countable K} (k k' : K) m :
  lookup_or 0 (incr k m) k' = lookup_or 0 m k' + (if decide (k = k') then 1 else 0).
Proof.
  unfold incr, lookup_or. destruct (decide (k = k')) as [->|];
    [by rewrite lookup_insert_eq|rewrite lookup_insert_ne by done; simpl; lia].
Qed.

Lemma lookup_incr2 {K} `{Countable K} a (b : K) m a' b' :
  lookup_or 0 (lookup_or ∅ (incr2 a b m) a') b'
  = lookup_or 0 (lookup_or ∅ m a') b' + (if decide (a = a' /\ b = b') then 1 else 0).
Proof.
  unfold incr2. unfold lookup_or at 2. destruct (decide (a = a')) as [->|Hne].
  - rewrite lookup_insert_eq. simpl. rewrite lookup_incr.
    repeat case_decide; naive_solver lia.
  - rewrite lookup_insert_ne by done. rewrite decide_False by naive_solver.
    rewrite Z.add_0_r. done.
Qed.

Lemma buildAffinity_undirected ls : undirected (buildAffinity ls).
Proof.
  unfold buildAffinity.
  assert (forall g, undirected g -> undirected (fold_left addLink ls g)) as H.
  2:{ apply H. split; done. }
  induction ls as [|l ls IH]; intros g Hg; simpl; [done|]. apply IH. clear IH.
  unfold addLink. destruct (_ ≫= _) as [[da db]|]; [|done].
  destruct (devASN da =? devASN db) eqn:E; [done|]. apply Z.eqb_neq in E.
  assert (forall y d, undirected (serviceLink y d g)) as Hs.
  { intros y d. unfold serviceLink. by destruct (decide _). }
  destruct (_ || _); [destruct (_ && _); [done|destruct (_ && _); done]|].
  destruct Hg as [H1 H2]. split; [intros x y|intros x]; unfold links, peersOf in *; cbn [peers];
    rewrite !lookup_incr2.
  - rewrite (H1 x y). repeat case_decide; lia || naive_solver.
  - rewrite H2. repeat case_decide; lia || naive_solver.
Qed.

(** ** Counting the links a placement keeps inside nodes *)

Definition sumZ (f : Z -> Z) (l : list Z) : Z := fold_right (fun a t => f a + t) 0 l.

(** The links between ASes of [A] that a placement [at] keeps inside a node,
    counted from both ends, and the service links kept local, counted
    twice. *)
Definition locality (g : affinityGraph) (front : string) (A : list Z) (loc : Z -> string) : Z :=
  sumZ (fun a => sumZ (fun p => if decide (loc a = loc p) then links g a p else 0) A) A
  + 2 * sumZ (fun a => svcPull g front a (loc a)) A.

Lemma sumZ_ext f h l : (forall a, a ∈ l -> f a = h a) -> sumZ f l = sumZ h l.
Proof.
  induction l as [|a l IH]; intros H; simpl; [done|].
  rewrite H by left. f_equal. apply IH. intros b Hb. apply H. by right.
Qed.

Lemma sumZ_perm f l l' : l ≡ₚ l' -> sumZ f l = sumZ f l'.
Proof. induction 1; simpl; lia. Qed.

Lemma sumZ_add f h l : sumZ (fun a => f a + h a) l = sumZ f l + sumZ h l.
Proof. induction l as [|a l IH]; simpl; lia. Qed.

Lemma sumZ_update f h i l :
  NoDup l -> i ∈ l -> (forall a, a <> i -> h a = f a) -> sumZ h l = sumZ f l + h i - f i.
Proof.
  intros Hn Hi H. induction Hn as [|a l Ha Hn IH]; [by apply elem_of_nil in Hi|]. simpl.
  apply elem_of_cons in Hi as [<-|Hi].
  - rewrite (sumZ_ext h f l); [lia|]. intros b Hb. apply H. by intros ->.
  - rewrite IH by done. rewrite (H a) by (by intros ->). lia.
Qed.

Lemma fold_sumZ (P : Z -> Prop) `{!forall p, Decision (P p)} (m : gmap Z Z) A :
  NoDup A -> (forall k, is_Some (m !! k) -> k ∈ A) ->
  map_fold (fun p c s => if decide (P p) then s + c else s) 0 m
  = sumZ (fun p => if decide (P p) then lookup_or 0 m p else 0) A.
Proof.
  intros Hn.
  apply (map_fold_weak_ind (fun r m => (forall k, is_Some (m !! k) -> k ∈ A) ->
    r = sumZ (fun p => if decide (P p) then lookup_or 0 m p else 0) A)).
  - intros _. clear Hn. unfold lookup_or. induction A as [|a A IH]; simpl; [done|].
    rewrite <- IH, lookup_empty. simpl. by destruct (decide (P a)).
  - intros i x m' r Hi IH Hd.
    rewrite (sumZ_update (fun p => if decide (P p) then lookup_or 0 m' p else 0) _ i); [|done| |].
    + rewrite <- IH.
      * unfold lookup_or. rewrite lookup_insert_eq, Hi. simpl. destruct (decide (P i)); lia.
      * intros k Hk. apply Hd. destruct (decide (i = k)) as [->|]; [by rewrite lookup_insert_eq|].
        by rewrite lookup_insert_ne.
    + apply Hd. by rewrite lookup_insert_eq.
    + intros a Ha. unfold lookup_or. by rewrite lookup_insert_ne.
Qed.

Section Locality.
Context (g : affinityGraph) (front : string) (A : list Z).
Hypothesis Hg : undirected g.
Hypothesis HA : NoDup A.
Hypothesis Hpeers : forall x k, is_Some (peersOf g x !! k) -> k ∈ A.

Definition at_ (m : gmap Z string) (asn : Z) : string := lookup_or "" m asn.

Lemma pull_sum x n m :
  pull g x n m front = sumZ (fun p => if decide (at_ m p = n) then links g x p else 0) A
                       + svcPull g front x n.
Proof.
  unfold pull. f_equal. exact (fold_sumZ (fun p => at_ m p = n) (peersOf g x) A HA (Hpeers x)).
Qed.

Lemma locality_perm loc l l' : l ≡ₚ l' -> locality g front l loc = locality g front l' loc.
Proof.
  intros Hp. unfold locality. rewrite (sumZ_perm _ l l' Hp), (sumZ_perm _ l l' Hp).
  f_equal. apply sumZ_ext. intros a _. by apply sumZ_perm.
Qed.

(** What one AS contributes. *)
Lemma locality_cons loc x l :
  locality g front (x :: l) loc = locality g front l loc
    + 2 * sumZ (fun p => if decide (loc p = loc x) then links g x p else 0) l
    + 2 * svcPull g front x (loc x).
Proof.
  destruct Hg as [Hsym Hirr]. unfold locality. simpl.
  rewrite decide_True by done. rewrite Hirr.
  rewrite (sumZ_add (fun a => if decide (loc a = loc x) then links g a x else 0)).
  rewrite (sumZ_ext (fun a => if decide (loc a = loc x) then links g a x else 0)
                    (fun p => if decide (loc p = loc x) then links g x p else 0))
    by (intros; by rewrite Hsym).
  rewrite (sumZ_ext (fun p => if decide (loc x = loc p) then links g x p else 0)
                    (fun p => if decide (loc p = loc x) then links g x p else 0))
    by (intros; repeat case_decide; congruence).
  lia.
Qed.

Lemma locality_ext loc loc' l :
  (forall a, a ∈ l -> loc a = loc' a) -> locality g front l loc = locality g front l loc'.
Proof.
  intros H. unfold locality. f_equal.
  - apply sumZ_ext. intros a Ha. apply sumZ_ext. intros p Hp. by rewrite (H a Ha), (H p Hp).
  - f_equal. apply sumZ_ext. intros a Ha. by rewrite (H a Ha).
Qed.

(** Moving one AS gains twice what its pull gains. *)
Lemma locality_move m x to :
  x ∈ A ->
  locality g front A (at_ (<[x := to]> m)) - locality g front A (at_ m)
  = 2 * (pull g x to m front - pull g x (at_ m x) m front).
Proof.
  intros Hx. destruct (proj1 (elem_of_Permutation A x) Hx) as [l Hl].
  assert (x ∉ l) as Hn by (rewrite Hl in HA; by apply NoDup_cons in HA as [? _]).
  rewrite !(locality_perm _ A (x :: l) Hl), !locality_cons.
  assert (forall a, a ∈ l -> at_ (<[x := to]> m) a = at_ m a) as Hsame.
  { intros a Ha. unfold at_, lookup_or. rewrite lookup_insert_ne by (by intros ->). done. }
  rewrite (locality_ext (at_ (<[x := to]> m)) (at_ m) l Hsame).
  assert (at_ (<[x := to]> m) x = to) as -> by (unfold at_, lookup_or; by rewrite lookup_insert_eq).
  rewrite (sumZ_ext (fun p => if decide (at_ (<[x := to]> m) p = to) then links g x p else 0)
                    (fun p => if decide (at_ m p = to) then links g x p else 0))
    by (intros a Ha; by rewrite Hsame).
  rewrite !pull_sum, !(sumZ_perm _ A (x :: l) Hl). simpl. rewrite (proj2 Hg).
  repeat case_decide; lia.
Qed.

(** Exchanging two ASes of different nodes gains twice what their pulls, each
    measured after the exchange, gain. *)
Lemma locality_swap m x y (m' := <[y := at_ m x]> (<[x := at_ m y]> m)) :
  x ∈ A -> y ∈ A -> at_ m x <> at_ m y ->
  locality g front A (at_ m') - locality g front A (at_ m)
  = 2 * (pull g x (at_ m y) m' front + pull g y (at_ m x) m' front
         - (pull g x (at_ m x) m front + pull g y (at_ m y) m front)).
Proof.
  intros Hx Hy Hne. assert (x <> y) as Hxy by congruence.
  destruct (proj1 (elem_of_Permutation A x) Hx) as [l1 Hl1].
  assert (y ∈ l1) as Hy1 by (rewrite Hl1 in Hy; by apply elem_of_cons in Hy as [?|?]).
  destruct (proj1 (elem_of_Permutation l1 y) Hy1) as [l Hl2].
  assert (A ≡ₚ x :: y :: l) as Hl by (by rewrite Hl1, Hl2).
  assert (x ∉ l /\ y ∉ l) as [Hnx Hny].
  { rewrite Hl in HA. apply NoDup_cons in HA as [H1 [H2 _]%NoDup_cons].
    rewrite elem_of_cons in H1. tauto. }
  assert (at_ m' x = at_ m y /\ at_ m' y = at_ m x) as [Hmx Hmy].
  { unfold m', at_, lookup_or. rewrite lookup_insert_ne, !lookup_insert_eq by done. done. }
  assert (forall a, a ∈ l -> at_ m' a = at_ m a) as Hsame.
  { intros a Ha. unfold m', at_, lookup_or. by rewrite !lookup_insert_ne by (by intros ->). }
  assert (forall z n, sumZ (fun p => if decide (at_ m' p = n) then links g z p else 0) l
    = sumZ (fun p => if decide (at_ m p = n) then links g z p else 0) l) as Hs.
  { intros z n. apply sumZ_ext. intros a Ha. by rewrite Hsame. }
  rewrite !(locality_perm _ A (x :: y :: l) Hl), !locality_cons.
  rewrite (locality_ext (at_ m') (at_ m) l Hsame).
  rewrite !pull_sum, !(sumZ_perm _ A (x :: y :: l) Hl). simpl.
  rewrite Hmx, Hmy, !Hs, !(proj2 Hg).
  repeat case_decide; try congruence; lia.
Qed.
End Locality.

(** ** The search only improves *)

Section Improve.
Context (names : list string) (g : affinityGraph) (weight : gmap Z Resources)
  (caps : gmap string Resources) (hasCap : gmap string bool)
  (placementWeights : gmap string spec_float) (pinned : gmap Z string) (front : string)
  (tolerance : spec_float) (nominal : Z) (A : list Z).

Abbreviation within_ := (within caps hasCap placementWeights nominal).

(** One accepted change: at least one more link stays inside a node, pinned
    ASes and the set of placed ASes are untouched, an AS only goes to a
    declared node or to one that another AS was on, and a node that receives
    an AS can take its load and stays under the balance ceiling. *)
Record improves (ceil : spec_float) (s s' : search) : Prop := {
  imp_locality : locality g front A (nodeOf s) + 2 <= locality g front A (nodeOf s');
  imp_pinned x : is_Some (pinned !! x) -> byAS s' !! x = byAS s !! x;
  imp_dom x : is_Some (byAS s' !! x) <-> is_Some (byAS s !! x);
  imp_nodes x : nodeOf s' x ∈ names \/ exists y, nodeOf s' x = nodeOf s y;
  imp_within x : nodeOf s' x <> nodeOf s x ->
    within_ ceil (loadOf (sLoads s') (nodeOf s' x)) (nodeOf s' x) = true
}.

Hypothesis Hg : undirected g.
Hypothesis HA : NoDup A.
Hypothesis Hpeers : forall x k, is_Some (peersOf g x !! k) -> k ∈ A.

Lemma nodeOf_insert m l x n y :
  nodeOf (mkSearch (<[x := n]> m) l) y = if decide (x = y) then n else nodeOf (mkSearch m l) y.
Proof.
  unfold nodeOf, lookup_or. simpl. case_decide as E;
    [subst; by rewrite lookup_insert_eq|by rewrite lookup_insert_ne].
Qed.

Lemma loadOf_insert l n r n' :
  loadOf (<[n := r]> l) n' = if decide (n = n') then r else loadOf l n'.
Proof.
  unfold loadOf, lookup_or. case_decide as E;
    [subst; by rewrite lookup_insert_eq|by rewrite lookup_insert_ne].
Qed.

Lemma bestMove_spec ceil s asn gain to :
  bestMove names g weight caps hasCap placementWeights front nominal ceil s asn = (gain, to) ->
  to <> "" ->
  to ∈ names /\ to <> nodeOf s asn /\
  0 < localTo g front s asn to - localTo g front s asn (nodeOf s asn) /\
  within_ ceil (add (loadOf (sLoads s) to) (weightOf weight asn)) to = true.
Proof.
  unfold bestMove. set (good n := n ∈ names /\ n <> nodeOf s asn /\
    0 < localTo g front s asn n - localTo g front s asn (nodeOf s asn) /\
    within_ ceil (add (loadOf (sLoads s) n) (weightOf weight asn)) n = true).
  intros H Hto. change (good to).
  assert (forall l best, (forall n, n ∈ l -> n ∈ names) -> 0 <= best.1 ->
    (best.2 <> "" -> good best.2) ->
    let r := fold_left (fun best n =>
      if decide (n = nodeOf s asn) then best
      else
        let delta := localTo g front s asn n - localTo g front s asn (nodeOf s asn) in
        if delta <=? best.1 then best
        else if negb (within_ ceil (add (loadOf (sLoads s) n) (weightOf weight asn)) n) then best
        else (delta, n)) l best in r.2 <> "" -> good r.2) as Hf.
  { induction l as [|n l IH]; intros best Hin H0 Hb; simpl; [done|].
    assert (forall n, n ∈ l -> n ∈ names) as Hin' by (intros; apply Hin; by right).
    case_decide as E; [by apply IH|]. destruct (_ <=? _) eqn:Ed; [by apply IH|].
    apply Z.leb_gt in Ed. destruct (within _ _ _ _ _ _ _) eqn:Ew; [|by apply IH].
    apply IH; [done|simpl; lia|]. intros _. simpl. split_and!; [apply Hin; left|done|lia|done]. }
  specialize (Hf names (0, "") (fun n H => H) ltac:(done) ltac:(by intros ?)).
  simpl in Hf. rewrite H in Hf. by apply Hf.
Qed.

Lemma tryMove_improves ceil s asn s' :
  asn ∈ A -> pinned !! asn = None -> is_Some (byAS s !! asn) ->
  tryMove names g weight caps hasCap placementWeights front nominal ceil s asn = Some s' ->
  improves ceil s s'.
Proof.
  intros Hin Hp Hd H. unfold tryMove in H.
  destruct (bestMove _ _ _ _ _ _ _ _ _ _ _) as [gain to] eqn:Hb.
  destruct (decide (to = "")) as [|Hto]; [done|].
  destruct (bestMove_spec _ _ _ _ _ Hb Hto) as (H1 & H2 & H3 & H4). simplify_eq.
  destruct s as [m l]. simpl in *. split; simpl.
  - pose proof (locality_move g front A Hg HA Hpeers m asn to Hin) as E.
    change (nodeOf (mkSearch (<[asn := to]> m) _)) with (at_ (<[asn := to]> m)).
    change (nodeOf (mkSearch m l)) with (at_ m) in *. unfold localTo in H3. simpl in H3. lia.
  - intros x Hx. rewrite lookup_insert_ne; [done|]. intros ->. rewrite Hp in Hx. by destruct Hx.
  - intros x. destruct (decide (asn = x)) as [->|]; [rewrite lookup_insert_eq; split; by eauto|].
    by rewrite lookup_insert_ne.
  - intros x. rewrite nodeOf_insert. case_decide; [by left|right; by exists x].
  - intros x. rewrite nodeOf_insert. case_decide; [|done]. intros _.
    rewrite !loadOf_insert, decide_True, decide_False by done. done.
Qed.

Lemma trySwap_improves ceil s x y s' :
  x ∈ A -> y ∈ A -> pinned !! x = None -> pinned !! y = None ->
  is_Some (byAS s !! x) -> is_Some (byAS s !! y) ->
  trySwap g weight caps hasCap placementWeights front nominal ceil s x y = Some s' ->
  improves ceil s s'.
Proof.
  intros Hx Hy Hpx Hpy Hdx Hdy H. unfold trySwap in H.
  destruct (decide (nodeOf s x = nodeOf s y)) as [|Hne]; [done|].
  destruct (_ <=? _) eqn:E; [done|]. apply Z.leb_gt in E.
  destruct (_ || _) eqn:Ew; [done|]. apply orb_false_iff in Ew as [W1%negb_false_iff W2%negb_false_iff].
  simplify_eq. destruct s as [m l]. simpl in *. split; simpl.
  - pose proof (locality_swap g front A Hg HA Hpeers m x y Hx Hy Hne) as Hl.
    change (nodeOf (mkSearch (<[y := nodeOf (mkSearch m l) x]> _) _))
      with (at_ (<[y := at_ m x]> (<[x := at_ m y]> m))).
    change (nodeOf (mkSearch m l)) with (at_ m) in *. unfold localTo in E. simpl in E. lia.
  - intros z Hz. rewrite !lookup_insert_ne; [done| |]; intros ->; rewrite ?Hpx, ?Hpy in Hz;
      by destruct Hz.
  - intros z. destruct (decide (y = z)) as [->|]; [rewrite lookup_insert_eq; split; by eauto|].
    rewrite lookup_insert_ne by done.
    destruct (decide (x = z)) as [->|]; [rewrite lookup_insert_eq; split; by eauto|].
    by rewrite lookup_insert_ne.
  - intros z. right. rewrite !nodeOf_insert. repeat case_decide; eauto.
  - intros z. rewrite !nodeOf_insert. repeat case_decide; try done; intros _;
      rewrite !loadOf_insert; repeat case_decide; done.
Qed.

Section Rounds.
Context (ceil : spec_float) (mov : list Z).
Hypothesis Hmov : forall x, x ∈ mov -> x ∈ A /\ pinned !! x = None.

Definition placed (s : search) : Prop := forall x, x ∈ mov -> is_Some (byAS s !! x).

Lemma elem_of_pairs l x y : (x, y) ∈ pairs l -> x ∈ l /\ y ∈ l.
Proof.
  induction l as [|z l IH]; simpl; intros H; [by apply elem_of_nil in H|].
  apply elem_of_app in H as [H|H].
  - apply list_elem_of_fmap in H as (w & [= -> ->] & Hw). split; [left|by right].
  - destruct (IH H). split; by right.
Qed.

Lemma oneRound_improves t s s' :
  t ∈ oneRound names g weight caps hasCap placementWeights front nominal ceil mov ->
  placed s -> t s = Some s' -> improves ceil s s'.
Proof.
  intros Ht Hs H. apply elem_of_app in Ht as [Ht|Ht].
  - apply list_elem_of_fmap in Ht as (x & -> & Hx). destruct (Hmov x Hx).
    eapply tryMove_improves; eauto.
  - apply list_elem_of_fmap in Ht as ([x y] & -> & [Hx Hy]%elem_of_pairs).
    destruct (Hmov x Hx), (Hmov y Hy).
    apply (trySwap_improves ceil s x y s'); auto.
Qed.

Lemma placed_improves s s' : improves ceil s s' -> placed s -> placed s'.
Proof. intros Hi Hs x Hx. by apply (imp_dom _ _ _ Hi), Hs. Qed.

Lemma attempts_steps tries s moved s' moved' :
  (forall t, t ∈ tries ->
     t ∈ oneRound names g weight caps hasCap placementWeights front nominal ceil mov) ->
  placed s -> attempts tries s moved = (s', moved') ->
  placed s' /\ exists k, moved' = (moved + k)%nat /\ nsteps (improves ceil) k s s'.
Proof.
  revert s moved. induction tries as [|t tries IH]; intros s moved Ht Hs H; simpl in H.
  { simplify_eq. split; [done|]. exists 0%nat. split; [lia|constructor]. }
  assert (forall t, t ∈ tries -> t ∈ oneRound names g weight caps hasCap placementWeights front
    nominal ceil mov) as Ht' by (intros; apply Ht; by right).
  destruct (t s) as [s1|] eqn:E; [|by apply IH].
  assert (improves ceil s s1) as Hi by (eapply oneRound_improves; [apply Ht; left|done|done]).
  destruct (IH s1 (S moved) Ht' (placed_improves _ _ Hi Hs) H) as (Hp & k & -> & Hk).
  split; [done|]. exists (S k). split; [lia|by econstructor].
Qed.

Lemma rounds_steps n s moved s' moved' :
  placed s ->
  rounds names g weight caps hasCap placementWeights front nominal n ceil mov s moved
    = (s', moved') ->
  exists k, moved' = (moved + k)%nat /\ nsteps (improves ceil) k s s'.
Proof.
  revert s moved. induction n as [|n IH]; intros s moved Hs H; simpl in H.
  { simplify_eq. exists 0%nat. split; [lia|constructor]. }
  destruct (attempts _ s moved) as [s1 moved1] eqn:E.
  destruct (attempts_steps _ _ _ _ _ (fun t Ht => Ht) Hs E) as (Hp & k & -> & Hk).
  destruct (_ =? _)%nat; [simplify_eq; eauto|].
  destruct (IH _ _ Hp H) as (k' & -> & Hk'). exists (k + k')%nat. split; [lia|].
  by eapply nsteps_trans.
Qed.
End Rounds.

Lemma movable_spec m x :
  x ∈ movable pinned m <-> is_Some (m !! x) /\ pinned !! x = None.
Proof.
  unfold movable. rewrite elem_of_sortInts, list_elem_of_In, filter_In, bool_decide_eq_true,
    <- list_elem_of_In, list_elem_of_fmap. split.
  - intros [([k v] & -> & H) Hp]. apply elem_of_map_to_list in H. simpl in *. split; [by eexists|done].
  - intros [[v Hv] Hp]. split; [|done]. exists (x, v). split; [done|]. by apply elem_of_map_to_list.
Qed.

Lemma refine_steps s s' k :
  (forall x, is_Some (byAS s !! x) -> x ∈ A) ->
  refine names g weight caps hasCap placementWeights pinned front tolerance nominal s = (s', k) ->
  nsteps (improves (ceiling names caps hasCap placementWeights tolerance nominal (sLoads s)))
    k s s'.
Proof.
  intros Hd H. unfold refine in H.
  destruct (_ <? _)%nat; [simplify_eq; constructor|].
  destruct (rounds_steps (ceiling names caps hasCap placementWeights tolerance nominal (sLoads s))
    (movable pinned (byAS s))) with (n := 8%nat) (s := s) (moved := 0%nat) (s' := s') (moved' := k)
    as (k' & -> & Hk); [| |done|done].
  - intros x [Hx Hp]%movable_spec. split; [by apply Hd|done].
  - by intros x [Hx _]%movable_spec.
Qed.

Lemma improves_steps ceil k s s' :
  nsteps (improves ceil) k s s' ->
  locality g front A (nodeOf s) + 2 * Z.of_nat k <= locality g front A (nodeOf s') /\
  (forall x, is_Some (pinned !! x) -> byAS s' !! x = byAS s !! x) /\
  (forall x, is_Some (byAS s' !! x) <-> is_Some (byAS s !! x)).
Proof.
  induction 1 as [s|k s1 s2 s3 [L P D _ _] _ (L' & P' & D')]; [split_and!; [lia|done|done]|].
  split_and!; [lia|intros x Hx; by rewrite P', P|intros x; by rewrite D'].
Qed.
End Improve.

(** The local search only improves a placement: for the graph of any
    list of links, [refine] performs a sequence of accepted changes, as many
    as it reports, and each keeps at least one more link inside a node,
    leaves pinned ASes where they are and sends an AS only to a node that can
    take the load under the balance ceiling of the initial placement. The
    links between ASes that cross nodes therefore never become more, every
    AS stays placed, and a count of zero means nothing changed. *)
Theorem refinement_only_improves names ls weight caps hasCap placementWeights pinned front
    tolerance nominal (A : list Z) s s' k (g := buildAffinity ls)
    (ceil := ceiling names caps hasCap placementWeights tolerance nominal (sLoads s)) :
  NoDup A ->
  (forall x, is_Some (byAS s !! x) -> x ∈ A) ->
  (forall x p, is_Some (peersOf g x !! p) -> p ∈ A) ->
  refine names g weight caps hasCap placementWeights pinned front tolerance nominal s = (s', k) ->
  nsteps (improves names g caps hasCap placementWeights pinned front nominal A ceil) k s s' /\
  locality g front A (nodeOf s) + 2 * Z.of_nat k <= locality g front A (nodeOf s') /\
  (forall x, is_Some (pinned !! x) -> byAS s' !! x = byAS s !! x) /\
  (forall x, is_Some (byAS s' !! x) <-> is_Some (byAS s !! x)) /\
  (k = 0%nat -> s' = s).
Proof.
  intros HA Hd Hp H.
  pose proof (refine_steps names g weight caps hasCap placementWeights pinned front tolerance
    nominal A (buildAffinity_undirected ls) HA Hp s s' k Hd H) as Hk.
  destruct (improves_steps _ _ _ _ _ _ _ _ _ _ _ _ _ Hk) as (L & P & D).
  split_and!; try done. intros ->. by inversion Hk.
Qed.

(** ** Witness: AS 1 joins its peer, AS 3 is pinned where it is. *)

Definition demoLink (x y : Z) : Link :=
  mkLink "l" 0 (Some (mkIface "a" (Some (mkDevice "x" x "" "")))) 
    (Some (mkIface "b" (Some (mkDevice "y" y "" "")))).
Definition demoLinks : list Link := [demoLink 1 2; demoLink 2 1; demoLink 2 3].
Definition demoSearch : search :=
  mkSearch {[1 := "n1"; 2 := "n2"; 3 := "n1"; 4 := "n1"]} {["n1" := zeroRes; "n2" := zeroRes]}.
Definition demoRefine : search * nat :=
  refine ["n1"; "n2"] (buildAffinity demoLinks) ∅ ∅ ∅ ∅ {[3 := "n1"]} "n1" fzero 10 demoSearch.

Lemma refinement_only_improves_witness :
  byAS demoRefine.1 !! 1 = Some "n2" /\ demoRefine.2 = 1%nat /\
  locality (buildAffinity demoLinks) "n1" [1; 2; 3; 4] (nodeOf demoSearch) + 2
    <= locality (buildAffinity demoLinks) "n1" [1; 2; 3; 4] (nodeOf demoRefine.1) /\
  byAS demoRefine.1 !! 3 = byAS demoSearch !! 3.
Proof.
  destruct (refinement_only_improves ["n1"; "n2"] demoLinks ∅ ∅ ∅ ∅ {[3 := "n1"]} "n1" fzero 10
    [1; 2; 3; 4] demoSearch demoRefine.1 demoRefine.2) as (_ & H1 & H2 & _).
  - apply (bool_decide_eq_true_1 _). vm_compute. reflexivity.
  - assert (map_Forall (fun x _ => x ∈ [1; 2; 3; 4]) (byAS demoSearch)) as H
      by (apply (bool_decide_eq_true_1 _); vm_compute; reflexivity).
    intros x [v Hv]. exact (H x v Hv).
  - assert (map_Forall (fun _ m => map_Forall (fun p _ => p ∈ [1; 2; 3; 4]) m)
      (peers (buildAffinity demoLinks))) as H
      by (apply (bool_decide_eq_true_1 _); vm_compute; reflexivity).
    intros x p [c Hc]. unfold peersOf, lookup_or in Hc.
    destruct (peers (buildAffinity demoLinks) !! x) as [m|] eqn:E; [|discriminate Hc].
    exact (H x m E p c Hc).
  - exact (surjective_pairing demoRefine).
  - assert (demoRefine.2 = 1%nat) as E by (vm_compute; reflexivity).
    rewrite E in H1. split; [vm_compute; reflexivity|]. split; [exact E|].
    split; [exact H1|]. apply H2. exists "n1". vm_compute. reflexivity.
Defined.
