(* ===== verification/Contract.v ===== *)
(** * Contract: version ranges two builds agree on before they interact

    Models [internal/contract/version.go]: the dotted versions, their order,
    the advertised ranges and the three-part contract of a controller and a
    node. *)

From stdpp Require Import base gmap strings list sorting pretty.
From Stdlib Require Import ZArith Lia Ascii.
From S2P Require Import Prelude Text.

Open Scope Z_scope.

(** ** Versions *)

Record version := Version { major : Z; minor : Z; patch : Z }.
#[export] Instance version_eq_dec : EqDecision version.
Proof. solve_decision. Defined.

Inductive versionErr := VEmpty | VTooMany | VEmptyPart | VNotNumeric.

(** The loop over [parts]: [values[i] = n], or the first refusal. *)
Fixpoint parseParts (parts : list string) : result versionErr (list Z) :=
  match parts with
  | [] => Ok []
  | part :: parts =>
      if decide (part = "") then Err VEmptyPart
      else match atoi part with
           | None => Err VNotNumeric
           | Some n => if n <? 0 then Err VNotNumeric
                       else match parseParts parts with
                            | Ok ns => Ok (n :: ns)
                            | Err e => Err e
                            end
           end
  end.

Definition parse (value : string) : result versionErr version :=
  let value := trimPrefixByte "v" (trimSpace value) in
  if decide (value = "") then Err VEmpty
  else
    let core := (cut "-" value).1 in
    let parts := split "." core in
    if decide (3 < length parts)%nat then Err VTooMany
    else match parseParts parts with
         | Err e => Err e
         | Ok ns => Ok (Version (nth 0 ns 0) (nth 1 ns 0) (nth 2 ns 0))
         end.

Definition compareInt (a b : Z) : Z :=
  if a <? b then -1 else if b <? a then 1 else 0.

Definition compare (v other : version) : Z :=
  if negb (major v =? major other) then compareInt (major v) (major other)
  else if negb (minor v =? minor other) then compareInt (minor v) (minor other)
  else compareInt (patch v) (patch other).

Definition within (v minimum maximum : version) : bool :=
  (0 <=? compare v minimum) && (compare v maximum <=? 0).

(** ** Ranges and contracts *)

Record Range := MkRange { Current : string; MinCompatible : string; MaxCompatible : string }.
Record Set_ := MkSet { Protocol : Range; Renderer : Range; State : Range }.

Inductive rangeErr :=
| BadCurrent (e : versionErr)
| BadMinimum (e : versionErr)
| BadMaximum (e : versionErr)
| MinExceedsMax
| CurrentOutside.

Definition Validate (r : Range) : result rangeErr unit :=
  match parse (Current r) with
  | Err e => Err (BadCurrent e)
  | Ok current =>
  match parse (MinCompatible r) with
  | Err e => Err (BadMinimum e)
  | Ok minimum =>
  match parse (MaxCompatible r) with
  | Err e => Err (BadMaximum e)
  | Ok maximum =>
      if 0 <? compare minimum maximum then Err MinExceedsMax
      else if negb (within current minimum maximum) then Err CurrentOutside
      else Ok tt
  end end end.

(** [v, _ := parse(s)]: the zero version on an error. *)
Definition parsed (s : string) : version :=
  match parse s with Ok v => v | Err _ => Version 0 0 0 end.

Definition rangeCompatible (r other : Range) : result rangeErr bool :=
  match Validate r with
  | Err e => Err e
  | Ok _ =>
  match Validate other with
  | Err e => Err e
  | Ok _ =>
      Ok (within (parsed (Current r)) (parsed (MinCompatible other)) (parsed (MaxCompatible other))
          && within (parsed (Current other)) (parsed (MinCompatible r)) (parsed (MaxCompatible r)))
  end end.

Definition Empty (s : Set_) : bool :=
  bool_decide (Current (Protocol s) = "") && bool_decide (Current (Renderer s) = "")
  && bool_decide (Current (State s) = "").

Inductive contractErr :=
| ContractInvalid (name : string) (e : rangeErr)
| ContractIncompatible (name : string).

(** The loop over the three parts, in order. *)
Fixpoint compatibleParts (parts : list (string * Range * Range)) : result contractErr unit :=
  match parts with
  | [] => Ok tt
  | (name, a, b) :: parts =>
      match rangeCompatible a b with
      | Err e => Err (ContractInvalid name e)
      | Ok ok => if negb ok then Err (ContractIncompatible name) else compatibleParts parts
      end
  end.

Definition Compatible (s other : Set_) : result contractErr unit :=
  compatibleParts [("protocol", Protocol s, Protocol other);
                   ("renderer", Renderer s, Renderer other);
                   ("state", State s, State other)].

(** ** The order of versions *)

(** The lexicographic order the comparison decides. *)
Definition vle (v w : version) : Prop :=
  major v < major w
  \/ major v = major w /\ (minor v < minor w \/ minor v = minor w /\ patch v <= patch w).

Ltac unfold_compare :=
  unfold within, compare, compareInt, vle;
  repeat match goal with |- context [negb (?a =? ?b)] => destruct (Z.eqb_spec a b); simpl end;
  repeat match goal with |- context [?a <? ?b] => destruct (Z.ltb_spec a b) end.

Lemma compare_le v w : compare v w <= 0 <-> vle v w.
Proof. unfold_compare; lia. Qed.

Lemma compare_ge v w : 0 <= compare v w <-> vle w v.
Proof. unfold_compare; lia. Qed.

Lemma compare_gt v w : 0 < compare v w <-> ~ vle v w.
Proof. unfold_compare; lia. Qed.

Lemma within_spec v a b : within v a b = true <-> vle a v /\ vle v b.
Proof. unfold within. rewrite andb_true_iff, !Z.leb_le, compare_ge, compare_le. done. Qed.

#[export] Instance vle_total_order : TotalOrder vle.
Proof.
  split; [split; [split|]|].
  - intros v. unfold vle. lia.
  - intros u v w. unfold vle. lia.
  - intros [] []. unfold vle. simpl. intros. f_equal; lia.
  - intros v w. unfold strict, vle.
    destruct (decide (v = w)); [naive_solver|].
    destruct v as [a b c], w as [a' b' c']; simpl in *.
    destruct (Z.lt_trichotomy a a') as [|[|]]; [left; lia| |right; right; lia].
    destruct (Z.lt_trichotomy b b') as [|[|]]; [left; lia| |right; right; lia].
    destruct (Z.lt_trichotomy c c') as [|[|]]; [left; lia| |right; right; lia].
    subst. naive_solver.
Qed.

(** ** Reading versions back *)

Lemma allDigits_visible c s : allDigits (String c s) = true -> isSpace c = false /\ c <> "v"%char.
Proof.
  simpl. intros [Hc _]%andb_true_iff. apply bool_decide_eq_true in Hc as [d Hd].
  apply digitOf_range in Hd as Hr. split; [|by intros ->].
  unfold isSpace. rewrite orb_false_iff, andb_false_iff, N.eqb_neq, !N.leb_gt. lia.
Qed.

Lemma parseParts_pretty l :
  Forall (fun n => Z.of_N n < 2 ^ 63) l ->
  parseParts (map pretty l) = Ok (map Z.of_N l).
Proof.
  induction 1 as [|n l Hn _ IH]; [done|]. simpl.
  destruct (pretty_digits n) as (_ & Hne & _). rewrite decide_False by done.
  rewrite atoi_pretty by done. rewrite (proj2 (Z.ltb_ge _ _)) by lia. by rewrite IH.
Qed.

(** The text of a version, [M.m.p]. *)
Definition dotted (M m p : N) : string := pretty M +:+ "." +:+ pretty m +:+ "." +:+ pretty p.

Lemma digits_free c (n : N) : digitOf c = None -> occurs c (pretty n) = false.
Proof. intros. apply allDigits_occurs; [done|]. apply pretty_digits. Qed.

Lemma dotted_split M m p : split "." (dotted M m p) = map pretty [M; m; p].
Proof.
  unfold dotted. rewrite !append_byte.
  rewrite !split_app, split_none by (by apply digits_free). done.
Qed.

Lemma dotted_no_dash M m p : occurs "-" (dotted M m p) = false.
Proof. unfold dotted. rewrite !occurs_app, !digits_free by done. done. Qed.

(** The first character of a version's text, and its last one. *)
Lemma dotted_head M m p t :
  exists c s, dotted M m p +:+ t = String c s /\ isSpace c = false /\ c <> "v"%char.
Proof.
  unfold dotted. destruct (pretty_digits M) as (Ha & Hne & _).
  destruct (pretty M) as [|c s]; [done|]. rewrite !append_cons. do 2 eexists. split; [done|].
  by apply (allDigits_visible _ s).
Qed.

Lemma digits_last s :
  allDigits s = true -> s <> "" -> exists a c, s = a +:+ String c "" /\ isSpace c = false.
Proof.
  induction s as [|c s IH]; [done|]. intros H _.
  destruct s as [|d s].
  - exists "", c. split; [done|]. by apply (allDigits_visible _ "").
  - simpl in H. apply andb_true_iff in H as [_ H].
    destruct (IH H) as (a & e & -> & He); [done|]. by exists (String c a), e.
Qed.

Lemma dotted_last M m p : exists a c, dotted M m p = a +:+ String c "" /\ isSpace c = false.
Proof.
  destruct (pretty_digits p) as (Ha & Hne & _).
  destruct (digits_last (pretty p) Ha Hne) as (a & c & E & Hc).
  exists (pretty M +:+ "." +:+ pretty m +:+ "." +:+ a), c.
  unfold dotted. rewrite E. by rewrite !append_assoc.
Qed.

(** The optional parts around a version: a leading [v] and a [-] suffix. *)
Definition vPrefix (b : bool) : string := if b then "v" else "".
Definition buildSuffix (o : option string) : string :=
  match o with Some t => String "-" t | None => "" end.

Lemma trim_version b M m p o :
  exists o', trimSpace (vPrefix b +:+ dotted M m p +:+ buildSuffix o)
             = vPrefix b +:+ dotted M m p +:+ buildSuffix o'.
Proof.
  assert (exists c s, vPrefix b +:+ dotted M m p +:+ buildSuffix o = String c s
                      /\ isSpace c = false) as (c & s & E & Hc).
  { destruct b; [by do 2 eexists|].
    destruct (dotted_head M m p (buildSuffix o)) as (c & s & E & ? & _).
    exists c, s. by rewrite <- E. }
  destruct o as [t|]; cbn [buildSuffix] in *.
  - rewrite <- append_assoc in E |- *.
    destruct (trimSpace_app _ _ _ _ _ E Hc) as (t' & -> & _); [done|].
    exists (Some t'). by rewrite append_assoc.
  - rewrite append_nil_r in *. destruct (dotted_last M m p) as (a & d & Ed & Hd).
    rewrite Ed in *. rewrite <- append_assoc in E |- *.
    destruct (trimSpace_app _ _ _ _ _ E Hc Hd) as (t' & -> & Ht).
    exists None. rewrite Ht by done. change (buildSuffix None) with "". rewrite append_nil_r.
    by rewrite append_assoc.
Qed.

Lemma trimPrefix_version b M m p t :
  trimPrefixByte "v" (vPrefix b +:+ dotted M m p +:+ t) = dotted M m p +:+ t.
Proof.
  destruct (dotted_head M m p t) as (c & s & E & _ & Hv).
  destruct b; [done|]. change (vPrefix false) with "".
  change ("" +:+ ?s) with s. rewrite E. simpl. by rewrite decide_False by done.
Qed.

Lemma cut_suffix s o : occurs "-" s = false -> (cut "-" (s +:+ buildSuffix o)).1 = s.
Proof.
  intros H. destruct o as [t|]; cbn [buildSuffix].
  - by rewrite cut_app.
  - rewrite append_nil_r. by rewrite cut_none.
Qed.

(** The text of a version reads back as that version: with or without the
    leading [v], with any build suffix after a dash, [parse] returns the three
    numbers that were printed, whenever they fit Go's [int]. *)
Theorem parse_reads_printed_version (b : bool) (M m p : N) (o : option string) :
  Z.of_N M < 2 ^ 63 -> Z.of_N m < 2 ^ 63 -> Z.of_N p < 2 ^ 63 ->
  parse (vPrefix b +:+ dotted M m p +:+ buildSuffix o)
  = Ok (Version (Z.of_N M) (Z.of_N m) (Z.of_N p)).
Proof.
  intros HM Hm Hp. unfold parse.
  destruct (trim_version b M m p o) as (o' & ->). rewrite trimPrefix_version.
  destruct (dotted_head M m p (buildSuffix o')) as (c & s & E & _).
  rewrite decide_False by (by rewrite E).
  rewrite cut_suffix by apply dotted_no_dash. rewrite dotted_split. simpl length.
  rewrite decide_False by lia. rewrite parseParts_pretty by (repeat constructor; done).
  done.
Qed.

Lemma parse_reads_printed_version_witness :
  parse "v1.4.20-rc1+build " = Ok (Version 1 4 20).
Proof.
  apply (parse_reads_printed_version true 1 4 20 (Some "rc1+build ")); lia.
Defined.

(** ** Agreement *)

(** What one side accepts: its versions are readable, its own current version
    lies in its interval, and so does the other side's. *)
Definition accepts (a b : Range) : Prop :=
  exists cur lo hi theirs,
    parse (Current a) = Ok cur /\ parse (MinCompatible a) = Ok lo
    /\ parse (MaxCompatible a) = Ok hi /\ parse (Current b) = Ok theirs
    /\ vle lo cur /\ vle cur hi /\ vle lo theirs /\ vle theirs hi.

Lemma Validate_ok r :
  Validate r = Ok tt <->
  exists cur lo hi, parse (Current r) = Ok cur /\ parse (MinCompatible r) = Ok lo
    /\ parse (MaxCompatible r) = Ok hi /\ vle lo cur /\ vle cur hi.
Proof.
  unfold Validate. split.
  - destruct (parse (Current r)) as [c|], (parse (MinCompatible r)) as [l|],
      (parse (MaxCompatible r)) as [h|]; try done.
    case_match; [done|]. destruct (within c l h) eqn:E; [|done]. intros _.
    apply within_spec in E as []. eauto 10.
  - intros (c & l & h & -> & -> & -> & Hl & Hh).
    destruct (Z.ltb_spec 0 (compare l h)) as [E|E].
    + apply compare_gt in E. destruct E. by trans c.
    + by rewrite (proj2 (within_spec c l h)).
Qed.

Lemma parsed_ok s v : parse s = Ok v -> parsed s = v.
Proof. unfold parsed. by intros ->. Qed.

Lemma rangeCompatible_ok a b :
  rangeCompatible a b = Ok true <-> accepts a b /\ accepts b a.
Proof.
  split.
  - unfold rangeCompatible.
    destruct (Validate a) as [[]|] eqn:Ea; [|done]. destruct (Validate b) as [[]|] eqn:Eb; [|done].
    apply Validate_ok in Ea as (ca & la & ha & Hca & Hla & Hha & ? & ?).
    apply Validate_ok in Eb as (cb & lb & hb & Hcb & Hlb & Hhb & ? & ?).
    rewrite !(parsed_ok _ _ Hca), !(parsed_ok _ _ Hcb), (parsed_ok _ _ Hla),
      (parsed_ok _ _ Hha), (parsed_ok _ _ Hlb), (parsed_ok _ _ Hhb).
    intros [= [[]%within_spec []%within_spec]%andb_true_iff].
    split; [exists ca, la, ha, cb|exists cb, lb, hb, ca]; auto 10.
  - intros [(ca & la & ha & cb & Hca & Hla & Hha & Hcb & ? & ? & ? & ?)
            (cb' & lb & hb & ca' & Hcb' & Hlb & Hhb & Hca' & ? & ? & ? & ?)].
    assert (cb' = cb) as -> by congruence. assert (ca' = ca) as -> by congruence.
    unfold rangeCompatible.
    rewrite (proj2 (Validate_ok a)) by eauto 10.
    rewrite (proj2 (Validate_ok b)) by eauto 10.
    rewrite !(parsed_ok _ _ Hca), !(parsed_ok _ _ Hcb), (parsed_ok _ _ Hla),
      (parsed_ok _ _ Hha), (parsed_ok _ _ Hlb), (parsed_ok _ _ Hhb).
    rewrite !(proj2 (within_spec _ _ _)) by done. done.
Qed.

Lemma compatibleParts_ok parts :
  compatibleParts parts = Ok tt <->
  Forall (fun '(_, a, b) => accepts a b /\ accepts b a) parts.
Proof.
  induction parts as [|[[name a] b] parts IH]; simpl.
  - split; [constructor|done].
  - rewrite Forall_cons, <- rangeCompatible_ok, <- IH.
    destruct (rangeCompatible a b) as [[]|]; simpl; naive_solver.
Qed.

(** A controller and a node may interact exactly when, for each of the
    wire protocol, the renderer and the persisted state, both current versions
    lie in both advertised intervals; the answer is the same from either
    side. *)
Theorem Compatible_spec (s o : Set_) :
  (Compatible s o = Ok tt <->
   (accepts (Protocol s) (Protocol o) /\ accepts (Protocol o) (Protocol s))
   /\ (accepts (Renderer s) (Renderer o) /\ accepts (Renderer o) (Renderer s))
   /\ (accepts (State s) (State o) /\ accepts (State o) (State s)))
  /\ (Compatible s o = Ok tt <-> Compatible o s = Ok tt).
Proof.
  unfold Compatible. rewrite !compatibleParts_ok, !Forall_cons, !Forall_nil. tauto.
Qed.

(** A rebuild that changes a build suffix only stays compatible; one whose
    current version left the peer's interval does not, although the intervals
    overlap. *)
Example contract_examples :
  let r c lo hi := MkRange c lo hi in
  rangeCompatible (r "v1.2.0-abc" "1.0" "1.9") (r "1.2-def" "1" "1.9") = Ok true
  /\ rangeCompatible (r "1.8" "1.0" "1.9") (r "1.2" "1.1" "1.5") = Ok false
  /\ Validate (r "1.2" "1.3" "1.1") = Err MinExceedsMax
  /\ Validate (r "1.2.3.4" "1" "2") = Err (BadCurrent VTooMany)
  /\ Validate (r "1.2" "-" "2") = Err (BadMinimum VEmptyPart).
Proof. vm_compute. repeat split. Qed.
