(* ===== verification/Replicas.v ===== *)
(** * Service replicas: identities and the choice of a replica

    Models the replica part of [internal/service/replicas.go],
    [internal/model/service_selection.go] and the replication policy of
    [internal/model/lab.go]: names and identities of replicas, rendezvous
    hashing, the selection of a healthy replica, and shard targets. *)

From stdpp Require Import base gmap strings list fin_maps sorting pretty.
From Stdlib Require Import ZArith Lia Ascii.
From S2P Require Import Prelude Text Alloc.

Open Scope Z_scope.

(** ** Policies *)

Definition ServiceSingleton : string := "singleton".
Definition ServicePerNode : string := "per-node".
Definition ServiceReplicas : string := "replicas".
Definition ServiceSharded : string := "sharded".

Definition ServiceShardByAS : string := "as".
Definition ServiceShardByHash : string := "hash".
Definition ServiceShardByNode : string := "node".
Definition ServiceShardByRegion : string := "region".

Record ServiceReplicationPolicy := mkPolicy {
  Mode : string; polReplicas : Z; ShardSize : Z; Selector : string
}.

Definition Declared (p : ServiceReplicationPolicy) : bool :=
  negb (bool_decide (Mode p = "")) || negb (polReplicas p =? 0)
  || negb (ShardSize p =? 0) || negb (bool_decide (Selector p = "")).

Definition scalableBuiltinService (kind : string) : bool :=
  bool_decide (kind ∈ ["builtin.dns"; "builtin.rpki"; "builtin.matrix"; "builtin.measurement"]).

Definition Effective (p : ServiceReplicationPolicy) (kind : string)
    (attached scalableDefaults : bool) : ServiceReplicationPolicy :=
  let mode :=
    if decide (Mode p = "") then
      if 0 <? polReplicas p then ServiceReplicas
      else if (0 <? ShardSize p) || negb (bool_decide (Selector p = "")) then ServiceSharded
      else if scalableDefaults && attached && scalableBuiltinService kind then ServicePerNode
      else ServiceSingleton
    else Mode p in
  mkPolicy mode (polReplicas p) (ShardSize p)
    (if decide (Selector p = "") then ServiceShardByAS else Selector p).

(** ** Names *)

Fixpoint zeros (n : nat) : string :=
  match n with O => "" | S n => String "0" (zeros n) end.
Definition padTo (w : nat) (s : string) : string := zeros (w - String.length s) +:+ s.
(** [%03d]: the width counts the sign. *)
Definition pad03 (n : Z) : string :=
  if n <? 0 then "-" +:+ padTo 2 (pretty (Z.to_N (- n))) else padTo 3 (pretty (Z.to_N n)).

Definition nameByte (c : ascii) : ascii :=
  let n := N_of_ascii c in
  if ((97 <=? n)%N && (n <=? 122)%N) || ((48 <=? n)%N && (n <=? 57)%N) || (n =? 45)%N
  then c else "-"%char.
Fixpoint mapBytes (f : ascii -> ascii) (s : string) : string :=
  match s with "" => "" | String c s => String (f c) (mapBytes f s) end.
(** [strings.Trim(s, "-")]. *)
Fixpoint trimLeftDash (s : string) : string :=
  match s with
  | String c s' => if decide (c = "-"%char) then trimLeftDash s' else s
  | "" => ""
  end.
Definition trimDash (s : string) : string :=
  String.rev (trimLeftDash (String.rev (trimLeftDash s))).

(** [serviceNamePart], on ASCII text. *)
Definition serviceNamePart (s : string) : string :=
  let out := trimDash (mapBytes nameByte (toLower s)) in
  if decide (out = "") then "node" else out.

Definition ReplicaName (service : string) (policy : ServiceReplicationPolicy) (index : Z)
    (node : string) : string :=
  if decide (Mode policy = ServicePerNode) then service +:+ "-" +:+ serviceNamePart node
  else if decide (Mode policy = ServiceSharded) then service +:+ "-shard-" +:+ pad03 (index + 1)
  else service +:+ "-replica-" +:+ pad03 (index + 1).

Definition ReplicaID (service : string) (policy : ServiceReplicationPolicy) (index : Z)
    (node : string) : string :=
  if decide (Mode policy = ServicePerNode) then service +:+ "/" +:+ node
  else if decide (Mode policy = ServiceSharded) then service +:+ "/shard-" +:+ pad03 (index + 1)
  else service +:+ "/replica-" +:+ pad03 (index + 1).

Definition ReplicaIdentity (service : string) (policy : ServiceReplicationPolicy) (index : Z)
    : string :=
  if decide (Mode policy = ServiceSharded)
  then "shard:" +:+ service +:+ ":" +:+ pad03 (index + 1)
  else "anycast:" +:+ service.

(** ** Replicas and their choice *)

(** [model.ServiceReplica]; [repDevice] is its device's ID, [None] a nil
    pointer. *)
Record ServiceReplica := mkReplica { repID : string; repNode : string; repDevice : option string }.
#[export] Instance ServiceReplica_eq_dec : EqDecision ServiceReplica.
Proof. solve_decision. Defined.

Definition repLe (a b : ServiceReplica) : Prop := String.le (repID a) (repID b).
#[export] Instance repLe_dec : RelDecision repLe.
Proof. unfold repLe. intros ??. apply _. Defined.
#[export] Instance repLe_total : Total repLe.
Proof. intros a b. apply String.le_total. Qed.
#[export] Instance repLe_trans : Transitive repLe.
Proof. intros a b c. unfold repLe. apply transitivity. Qed.

(** [SortedReplicas]. *)
Definition SortedReplicas (l : list ServiceReplica) : list ServiceReplica := merge_sort repLe l.

(** [service.Replica(id)]. *)
Definition Replica (l : list ServiceReplica) (id : string) : option ServiceReplica :=
  List.find (fun r => bool_decide (repID r = id)) l.

(** The score of a replica: FNV-1a over the key, a zero byte and its ID. *)
Definition score (key : string) (r : ServiceReplica) : Z :=
  fnvParts [bytesOf key; bytesOf (repID r)].

Fixpoint rendezvousLoop (key : string) (best : option (ServiceReplica * Z))
    (replicas : list ServiceReplica) : option ServiceReplica :=
  match replicas with
  | [] => fst <$> best
  | r :: rs =>
      let s := score key r in
      let take := match best with
                  | None => true
                  | Some (b, bs) => (bs <? s) || ((s =? bs) && String.ltb (repID r) (repID b))
                  end in
      rendezvousLoop key (if take then Some (r, s) else best) rs
  end.

Definition rendezvous (key : string) (replicas : list ServiceReplica) : option ServiceReplica :=
  rendezvousLoop key None replicas.

(** [rendezvousReplica]: sorted first, then the first maximum. The hash reads
    the text [service NUL asn NUL id]. *)
Definition scoreReplica (service : string) (asn : Z) (r : ServiceReplica) : Z :=
  fnvWrite fnvOffset (bytesOf (service +:+ nul +:+ itoa asn +:+ nul +:+ repID r)).

Fixpoint firstMax (service : string) (asn : Z) (best : option (ServiceReplica * Z))
    (l : list ServiceReplica) : option ServiceReplica :=
  match l with
  | [] => fst <$> best
  | r :: rs =>
      let s := scoreReplica service asn r in
      let take := match best with None => true | Some (_, bs) => bs <? s end in
      firstMax service asn (if take then Some (r, s) else best) rs
  end.

Definition rendezvousReplica (service : string) (asn : Z) (candidates : list ServiceReplica)
    : option ServiceReplica :=
  match candidates with
  | [] => None
  | _ => firstMax service asn None (SortedReplicas candidates)
  end.

(** [model.Service], as far as selection reads it. [svcDevice] is the legacy
    singleton's device with its node. *)
Record Service := mkService {
  svcName : string;
  svcReplicas : list ServiceReplica;
  svcDevice : option (string * string);
  svcPolicy : ServiceReplicationPolicy
}.

Inductive selectErr := NoHealthyReplica.

Definition isHealthy (health : gmap string bool) (id : string) : bool := lookup_or false health id.

Definition isLocal (localNode : string) (r : ServiceReplica) : bool :=
  negb (bool_decide (localNode = "")) && bool_decide (repNode r = localNode).

Definition SelectHealthyReplica (s : Service) (asn : Z) (localNode : string)
    (health : gmap string bool) : result selectErr ServiceReplica :=
  let candidates := SortedReplicas (svcReplicas s) in
  match candidates, svcDevice s with
  | [], Some (id, node) =>
      if isHealthy health id then Ok (mkReplica id node (Some id)) else Err NoHealthyReplica
  | _, _ =>
      let healthy := List.filter (fun r => isHealthy health (repID r)) candidates in
      let local := List.filter (isLocal localNode) healthy in
      let remote := List.filter (fun r => negb (isLocal localNode r)) healthy in
      match rendezvousReplica (svcName s) asn local with
      | Some r => Ok r
      | None => match rendezvousReplica (svcName s) asn remote with
                | Some r => Ok r
                | None => Err NoHealthyReplica
                end
      end
  end.

(** [attachmentReplica]: local first, then the shard target, then rendezvous. *)
Definition asnKey (service : string) (asn : Z) : string := service +:+ nul +:+ itoa asn.

Definition attachmentReplica (s : Service) (asn : Z) (localNode sharded : string)
    : option ServiceReplica :=
  let replicas := SortedReplicas (svcReplicas s) in
  let local := List.filter (isLocal localNode) replicas in
  match local with
  | _ :: _ => rendezvous (asnKey (svcName s) asn) local
  | [] =>
      match (if decide (sharded = "") then None else Replica (svcReplicas s) sharded) with
      | Some r => Some r
      | None => rendezvous (asnKey (svcName s) asn) replicas
      end
  end.

(** [shardTargets], for the ASes in order: an AS's region and the node of its
    attachment router (or its own) are functions of the topology. *)
Definition shardTarget (s : Service) (replicas : list ServiceReplica) (region node : Z -> string)
    (index : nat) (asn : Z) : option ServiceReplica :=
  let sel := Selector (svcPolicy s) in
  if decide (sel = ServiceShardByAS) then
    let size := if ShardSize (svcPolicy s) <=? 0 then 1 else ShardSize (svcPolicy s) in
    replicas !! Z.to_nat ((Z.of_nat index / size) mod Z.of_nat (length replicas))
  else if decide (sel = ServiceShardByRegion) then
    rendezvous (svcName s +:+ nul +:+ region asn) replicas
  else if decide (sel = ServiceShardByNode) then
    rendezvous (svcName s +:+ nul +:+ node asn) replicas
  else rendezvous (svcName s +:+ nul +:+ itoa asn) replicas.

Definition shardTargets (s : Service) (region node : Z -> string) (asns : list Z)
    : gmap Z string :=
  if negb (bool_decide (Mode (svcPolicy s) = ServiceSharded))
     || bool_decide (svcReplicas s = []) then ∅
  else
    let replicas := SortedReplicas (svcReplicas s) in
    list_to_map (omap (fun '(i, asn) => r ← shardTarget s replicas region node i asn;
                                        Some (asn, repID r))
                      (zip (seq 0 (length asns)) asns)).

(** ** Expansion of a replicated service

    [internal/expand/expand.go]: how many replicas a policy asks for, their
    preferred nodes and identities. [attached] is the number of ASes that have
    the attachment router; [nodes] the declared placement nodes. *)
Definition serviceReplicaCount (policy : ServiceReplicationPolicy) (nodes : list string)
    (attached : nat) : Z :=
  if decide (Mode policy = ServicePerNode) then Z.of_nat (length nodes)
  else if decide (Mode policy = ServiceReplicas) then polReplicas policy
  else if decide (Mode policy = ServiceSharded) then
    if ShardSize policy <=? 0
    then if 0 <? polReplicas policy then polReplicas policy else 1
    else (Z.of_nat attached + ShardSize policy - 1) / ShardSize policy
  else 1.

Definition homeOf (policy : ServiceReplicationPolicy) (nodes : list string) (front : string)
    (index : nat) : string :=
  if bool_decide (Mode policy = ServicePerNode) && bool_decide (index < length nodes)%nat
  then nth index nodes ""
  else if bool_decide (nodes <> []) then nth (index `mod` length nodes) nodes ""
  else front.

Definition expandReplica (name : string) (policy : ServiceReplicationPolicy)
    (nodes : list string) (front : string) (index : nat) : ServiceReplica :=
  let home := homeOf policy nodes front index in
  mkReplica (ReplicaID name policy (Z.of_nat index) home) home
    (Some ("svc/" +:+ ReplicaName name policy (Z.of_nat index) home)).

Definition expandServiceReplicas (name : string) (policy : ServiceReplicationPolicy)
    (nodes : list string) (front : string) (attached : nat) : list ServiceReplica :=
  let count := Z.max 1 (serviceReplicaCount policy nodes attached) in
  map (expandReplica name policy nodes front) (seq 0 (Z.to_nat count)).

(** ** Rendezvous picks the unique best replica *)

Definition ids (l : list ServiceReplica) : list string := map repID l.

(** [a] ranks at least as high as [b]: a greater score, or the same score and
    an ID that is not greater. *)
Definition ranks (key : string) (a b : ServiceReplica) : Prop :=
  score key b < score key a
  \/ score key b = score key a /\ String.le (repID a) (repID b).

Definition isBest (key : string) (l : list ServiceReplica) (r : ServiceReplica) : Prop :=
  r ∈ l /\ forall x, x ∈ l -> ranks key r x.

#[export] Instance ranks_preorder key : PreOrder (ranks key).
Proof.
  split.
  - intros a. right. split; [done|]. reflexivity.
  - intros a b c [?|[? Hab]] [?|[? Hbc]]; unfold ranks; try (left; lia).
    right. split; [lia|]. by trans (repID b).
Qed.

Lemma ranks_antisym key a b : ranks key a b -> ranks key b a -> repID a = repID b.
Proof.
  intros [?|[? Hab]] [?|[? Hba]]; try lia. by apply (anti_symm String.le).
Qed.

Lemma ids_inj l a b : NoDup (ids l) -> a ∈ l -> b ∈ l -> repID a = repID b -> a = b.
Proof.
  induction l as [|x l IH]; [set_solver|].
  simpl. rewrite NoDup_cons. intros [Hx Hl]. rewrite !elem_of_cons.
  assert (forall y, y ∈ l -> repID y <> repID x) as Hne.
  { intros y Hy E. apply Hx. rewrite <- E. apply list_elem_of_fmap. eauto. }
  intros [->|Ha] [->|Hb] E; [done|by destruct (Hne b)|by destruct (Hne a)|auto].
Qed.

Lemma isBest_unique key l a b : NoDup (ids l) -> isBest key l a -> isBest key l b -> a = b.
Proof.
  intros Hl [Ha Ha'] [Hb Hb']. eapply ids_inj; eauto. eapply ranks_antisym; eauto.
Qed.

(** Pushing one more candidate into a best one keeps the better of the two. *)
Lemma isBest_step key b x l r :
  (ranks key b x /\ isBest key (b :: l) r) \/ (ranks key x b /\ isBest key (x :: l) r) ->
  isBest key (b :: x :: l) r.
Proof.
  unfold isBest. setoid_rewrite elem_of_cons. setoid_rewrite elem_of_cons.
  intros [[Hr [Hin H]]|[Hr [Hin H]]]; (split; [tauto|]).
  - intros y [->|[->|Hy]]; auto. trans b; auto.
  - intros y [->|[->|Hy]]; auto. trans x; auto.
Qed.

Lemma rendezvousLoop_best key b l :
  exists r, rendezvousLoop key (Some (b, score key b)) l = Some r /\ isBest key (b :: l) r.
Proof.
  revert b. induction l as [|x l IH]; intros b; cbn [rendezvousLoop].
  - exists b. split; [done|]. split; [set_solver|]. intros x ->%list_elem_of_singleton. reflexivity.
  - destruct (_ || _) eqn:E.
    + destruct (IH x) as (r & -> & Hr). exists r. split; [done|]. apply isBest_step. right.
      split; [|done]. unfold ranks. apply orb_true_iff in E as [?%Z.ltb_lt|E]; [lia|].
      apply andb_true_iff in E as [?%Z.eqb_eq ?%ltb_lt_le]. right. split; [lia|done].
    + destruct (IH b) as (r & -> & Hr). exists r. split; [done|]. apply isBest_step. left.
      split; [|done]. unfold ranks. apply orb_false_iff in E as [?%Z.ltb_ge E].
      apply andb_false_iff in E as [?%Z.eqb_neq|?%ltb_le]; [lia|].
      destruct (decide (score key x = score key b)); [right|left]; [done|lia].
Qed.

Lemma rendezvous_best key l : l <> [] -> exists r, rendezvous key l = Some r /\ isBest key l r.
Proof. destruct l as [|x l]; [done|]. intros _. apply (rendezvousLoop_best key x l). Qed.

Lemma rendezvous_Some key l r :
  NoDup (ids l) -> rendezvous key l = Some r <-> isBest key l r.
Proof.
  intros Hl. split.
  - intros E. destruct (rendezvous_best key l) as (r' & E' & Hr'); [by intros ->|].
    by simplify_eq.
  - intros Hr. destruct (rendezvous_best key l) as (r' & E' & Hr').
    { intros ->. destruct Hr as [Hr _]. by apply not_elem_of_nil in Hr. }
    rewrite E'. f_equal. by eapply isBest_unique.
Qed.

Lemma rendezvous_None key l : rendezvous key l = None <-> l = [].
Proof.
  split; [|by intros ->]. intros E. destruct l as [|x l]; [done|].
  destruct (rendezvous_best key (x :: l)) as (r & E' & _); [done|]. by simplify_eq.
Qed.

(** The choice does not depend on the order of the candidates. *)
Lemma rendezvous_perm key l l' :
  NoDup (ids l) -> l ≡ₚ l' -> rendezvous key l = rendezvous key l'.
Proof.
  intros Hl Hp. assert (NoDup (ids l')) as Hl' by (unfold ids in *; by rewrite <- Hp).
  destruct (rendezvous key l') as [r|] eqn:E.
  - apply (rendezvous_Some key l' r Hl') in E. apply rendezvous_Some; [done|].
    destruct E as [Hr H]. split; [by rewrite Hp|]. intros x. rewrite Hp. auto.
  - apply rendezvous_None in E as ->. apply rendezvous_None. by apply Permutation_nil_r.
Qed.

(** Restricting the candidates to ones that include the choice keeps it. *)
Lemma rendezvous_subset key l l' r :
  NoDup (ids l) -> NoDup (ids l') -> (forall x, x ∈ l' -> x ∈ l) ->
  rendezvous key l = Some r -> r ∈ l' -> rendezvous key l' = Some r.
Proof.
  intros Hl Hl' Hsub E Hr. apply rendezvous_Some in E as [_ H]; [|done].
  apply rendezvous_Some; [done|]. split; auto.
Qed.

(** Rendezvous hashing moves as little as it can: when a replica [n] is
    added to a service (at any position of the list), every key either keeps
    the replica it had or moves to [n]; dually, removing a replica moves only
    the keys that had chosen it. *)
Theorem rendezvous_minimal_disruption (key : string) (l l' : list ServiceReplica)
    (n : ServiceReplica) :
  NoDup (ids (n :: l)) -> l' ≡ₚ n :: l ->
  rendezvous key l' = Some n \/ rendezvous key l' = rendezvous key l.
Proof.
  intros Hn Hp. rewrite (rendezvous_perm key l' (n :: l)); [|unfold ids in *; by rewrite Hp|done].
  pose proof Hn as [_ Hl]%NoDup_cons.
  destruct (rendezvous_best key (n :: l)) as (r & E & Hr); [done|]. rewrite E.
  destruct (decide (r = n)) as [->|Hne]; [by left|right]. symmetry.
  apply (rendezvous_subset key (n :: l) l); auto; [set_solver|].
  destruct Hr as [Hr _]. set_solver.
Qed.

Lemma rendezvous_minimal_disruption_witness :
  let a := mkReplica "dns/a" "n1" None in
  let b := mkReplica "dns/b" "n2" None in
  let c := mkReplica "dns/c" "n3" None in
  rendezvous "k" [a; c; b] = Some c \/ rendezvous "k" [a; c; b] = rendezvous "k" [a; b].
Proof.
  simpl. apply (rendezvous_minimal_disruption "k"
    [mkReplica "dns/a" "n1" None; mkReplica "dns/b" "n2" None]).
  - apply (bool_decide_eq_true_1 _). vm_compute. reflexivity.
  - apply (bool_decide_eq_true_1 _). vm_compute. reflexivity.
Defined.

(** ** The two selectors agree *)

Lemma bytesOf_app s t : bytesOf (s +:+ t) = bytesOf s ++ bytesOf t.
Proof. induction s as [|c s IH]; [done|]. rewrite append_cons. simpl. by rewrite IH. Qed.

Lemma scoreReplica_score service asn r :
  scoreReplica service asn r = score (asnKey service asn) r.
Proof.
  unfold scoreReplica, score, fnvParts, fnvWrite, asnKey.
  rewrite !bytesOf_app, !fold_left_app. done.
Qed.

Lemma firstMax_best service asn b l :
  StronglySorted repLe (b :: l) ->
  exists r, firstMax service asn (Some (b, scoreReplica service asn b)) l = Some r
            /\ isBest (asnKey service asn) (b :: l) r.
Proof.
  revert b. induction l as [|x l IH]; intros b Hs; cbn [firstMax].
  - exists b. split; [done|]. split; [set_solver|]. intros x ->%list_elem_of_singleton. reflexivity.
  - inversion Hs as [|? ? Hs' Hf]; subst. inversion Hs' as [|? ? Hs'' Hf']; subst.
    apply Forall_cons in Hf as [Hbx Hf].
    rewrite !scoreReplica_score. destruct (Z.ltb_spec (score (asnKey service asn) b)
      (score (asnKey service asn) x)); rewrite <- !scoreReplica_score.
    + destruct (IH x Hs') as (r & -> & Hr). exists r. split; [done|]. apply isBest_step. right.
      split; [|done]. left. done.
    + destruct (IH b) as (r & -> & Hr); [by constructor|]. exists r. split; [done|].
      apply isBest_step. left. split; [|done]. unfold ranks.
      destruct (decide (score (asnKey service asn) x = score (asnKey service asn) b));
        [by right|left; lia].
Qed.

Lemma SortedReplicas_perm l : SortedReplicas l ≡ₚ l.
Proof. apply merge_sort_Permutation. Qed.

Lemma NoDup_ids_perm l l' : l ≡ₚ l' -> NoDup (ids l) -> NoDup (ids l').
Proof. unfold ids. by intros ->. Qed.

Lemma NoDup_ids_sorted l : NoDup (ids l) -> NoDup (ids (SortedReplicas l)).
Proof. apply NoDup_ids_perm. symmetry. apply SortedReplicas_perm. Qed.

Lemma NoDup_ids_filter f l : NoDup (ids l) -> NoDup (ids (List.filter f l)).
Proof.
  unfold ids. induction l as [|x l IH]; [done|]. simpl. rewrite NoDup_cons.
  intros [Hx Hl]. destruct (f x); [|auto]. simpl. constructor; [|auto].
  intros (y & E & Hy)%list_elem_of_fmap. apply Hx, list_elem_of_fmap. exists y.
  split; [done|]. apply list_elem_of_In, filter_In, proj1, list_elem_of_In in Hy. done.
Qed.

Lemma rendezvousReplica_eq service asn l :
  NoDup (ids l) -> rendezvousReplica service asn l = rendezvous (asnKey service asn) l.
Proof.
  intros Hl. destruct l as [|x l]; [done|]. unfold rendezvousReplica.
  rewrite (rendezvous_perm _ _ (SortedReplicas (x :: l)) Hl) by (by rewrite SortedReplicas_perm).
  pose proof (StronglySorted_merge_sort repLe (x :: l)) as Hs.
  pose proof (NoDup_ids_sorted _ Hl) as Hn. fold (SortedReplicas (x :: l)) in Hs.
  destruct (SortedReplicas (x :: l)) as [|b m] eqn:E.
  { exfalso. pose proof (SortedReplicas_perm (x :: l)) as Hp. rewrite E in Hp.
    by apply Permutation_nil_cons in Hp. }
  destruct (firstMax_best service asn b m Hs) as (r & Hr & Hb).
  transitivity (Some r); [exact Hr|]. symmetry. by apply rendezvous_Some.
Qed.

(** ** Healthy selection *)

Section Select.
Context (s : Service) (asn : Z) (localNode : string).
Implicit Types (h : gmap string bool) (r : ServiceReplica).

Definition healthyOf h : list ServiceReplica :=
  List.filter (fun r => isHealthy h (repID r)) (SortedReplicas (svcReplicas s)).
Definition localOf h : list ServiceReplica := List.filter (isLocal localNode) (healthyOf h).
Definition remoteOf h : list ServiceReplica :=
  List.filter (fun r => negb (isLocal localNode r)) (healthyOf h).

Lemma elem_of_healthyOf h r :
  r ∈ healthyOf h <-> r ∈ svcReplicas s /\ isHealthy h (repID r) = true.
Proof.
  unfold healthyOf. rewrite list_elem_of_In, filter_In, <- list_elem_of_In.
  by rewrite (elem_of_Permutation_proper _ _ _ (SortedReplicas_perm _)).
Qed.

Lemma elem_of_localOf h r :
  r ∈ localOf h <-> r ∈ svcReplicas s /\ isHealthy h (repID r) = true /\ isLocal localNode r = true.
Proof.
  unfold localOf. rewrite list_elem_of_In, filter_In, <- list_elem_of_In, elem_of_healthyOf. tauto.
Qed.

Lemma elem_of_remoteOf h r :
  r ∈ remoteOf h <->
  r ∈ svcReplicas s /\ isHealthy h (repID r) = true /\ isLocal localNode r = false.
Proof.
  unfold remoteOf. rewrite list_elem_of_In, filter_In, <- list_elem_of_In, elem_of_healthyOf.
  rewrite negb_true_iff. tauto.
Qed.

Hypothesis Hids : NoDup (ids (svcReplicas s)).
Hypothesis Hne : svcReplicas s <> [].

Lemma NoDup_localOf h : NoDup (ids (localOf h)).
Proof. by apply NoDup_ids_filter, NoDup_ids_filter, NoDup_ids_sorted. Qed.
Lemma NoDup_remoteOf h : NoDup (ids (remoteOf h)).
Proof. by apply NoDup_ids_filter, NoDup_ids_filter, NoDup_ids_sorted. Qed.

(** Selection with the planner's rendezvous. *)
Lemma SelectHealthyReplica_eq h :
  SelectHealthyReplica s asn localNode h =
  match rendezvous (asnKey (svcName s) asn) (localOf h) with
  | Some r => Ok r
  | None => match rendezvous (asnKey (svcName s) asn) (remoteOf h) with
            | Some r => Ok r
            | None => Err NoHealthyReplica
            end
  end.
Proof.
  unfold SelectHealthyReplica.
  rewrite <- !rendezvousReplica_eq by (apply NoDup_localOf || apply NoDup_remoteOf).
  unfold localOf, remoteOf, healthyOf.
  destruct (SortedReplicas (svcReplicas s)) as [|x l] eqn:E; [|done].
  pose proof (SortedReplicas_perm (svcReplicas s)) as Hp. rewrite E in Hp.
  by apply Permutation_nil_l in Hp.
Qed.

(** Which list the choice came from. *)
Lemma SelectHealthyReplica_Ok h r :
  SelectHealthyReplica s asn localNode h = Ok r <->
  isBest (asnKey (svcName s) asn) (localOf h) r
  \/ localOf h = [] /\ isBest (asnKey (svcName s) asn) (remoteOf h) r.
Proof.
  rewrite SelectHealthyReplica_eq. rewrite <- !rendezvous_Some by (apply NoDup_localOf || apply NoDup_remoteOf).
  rewrite <- (rendezvous_None (asnKey (svcName s) asn)).
  destruct (rendezvous _ (localOf h)) as [r'|]; [naive_solver|].
  destruct (rendezvous _ (remoteOf h)); naive_solver.
Qed.

Lemma SelectHealthyReplica_Err h e :
  SelectHealthyReplica s asn localNode h = Err e <->
  forall r, r ∈ svcReplicas s -> isHealthy h (repID r) = false.
Proof.
  rewrite SelectHealthyReplica_eq. destruct e. split.
  - destruct (rendezvous _ (localOf h)) eqn:El; [done|].
    destruct (rendezvous _ (remoteOf h)) eqn:Er; [done|]. intros _ r Hr.
    apply rendezvous_None in El, Er. apply not_true_iff_false. intros Hh.
    destruct (isLocal localNode r) eqn:Hl.
    + assert (r ∈ localOf h) as H by (by apply elem_of_localOf). rewrite El in H. by apply not_elem_of_nil in H.
    + assert (r ∈ remoteOf h) as H by (by apply elem_of_remoteOf). rewrite Er in H. by apply not_elem_of_nil in H.
  - intros Hall.
    assert (healthyOf h = []) as E.
    { destruct (healthyOf h) as [|x l] eqn:E; [done|].
      assert (x ∈ healthyOf h) as H by (rewrite E; left).
      apply elem_of_healthyOf in H as [H1 H2]. by rewrite Hall in H2. }
    unfold localOf, remoteOf. rewrite E. done.
Qed.
End Select.

Lemma SelectHealthyReplica_sound_ok s asn localNode h r :
  NoDup (ids (svcReplicas s)) -> svcReplicas s <> [] ->
  SelectHealthyReplica s asn localNode h = Ok r ->
  r ∈ svcReplicas s /\ isHealthy h (repID r) = true.
Proof.
  intros Hids Hne [[Hin _]|[_ [Hin _]]]%SelectHealthyReplica_Ok; try done.
  - by apply elem_of_localOf in Hin as (? & ? & ?).
  - by apply elem_of_remoteOf in Hin as (? & ? & ?).
Qed.

Lemma isHealthy_true h id : isHealthy h id = true <-> h !! id = Some true.
Proof. unfold isHealthy, lookup_or. destruct (h !! id) as [[]|]; simpl; naive_solver. Qed.

Lemma isLocal_true n r : isLocal n r = true <-> n <> "" /\ repNode r = n.
Proof. unfold isLocal. rewrite andb_true_iff, negb_true_iff, bool_decide_eq_false, bool_decide_eq_true. done. Qed.

(** Failing closed and staying local: the replica a service directs an AS
    to is one of its replicas and is known to be healthy, it is on the AS's own
    node whenever a healthy replica is there, and an error is returned exactly
    when no replica is known to be healthy. *)
Theorem SelectHealthyReplica_sound (s : Service) (asn : Z) (localNode : string)
    (h : gmap string bool) :
  NoDup (ids (svcReplicas s)) -> svcReplicas s <> [] ->
  match SelectHealthyReplica s asn localNode h with
  | Ok r => r ∈ svcReplicas s /\ h !! repID r = Some true
            /\ (forall l, l ∈ svcReplicas s -> h !! repID l = Some true ->
                localNode <> "" -> repNode l = localNode -> repNode r = localNode)
  | Err _ => forall r, r ∈ svcReplicas s -> h !! repID r <> Some true
  end.
Proof.
  intros Hids Hne. destruct (SelectHealthyReplica s asn localNode h) as [r|e] eqn:E.
  - apply SelectHealthyReplica_Ok in E as [[Hin _]|[El [Hin _]]]; try done.
    + apply elem_of_localOf in Hin as (? & ?%isHealthy_true & [_ ?]%isLocal_true). auto.
    + apply elem_of_remoteOf in Hin as (? & ?%isHealthy_true & ?). split; [done|]. split; [done|].
      intros l ? ? ? ?. assert (l ∈ localOf s localNode h) as Hin.
      { apply elem_of_localOf. by rewrite isHealthy_true, isLocal_true. }
      rewrite El in Hin. by apply not_elem_of_nil in Hin.
  - intros r Hr Hh%isHealthy_true. rewrite SelectHealthyReplica_Err in E by done. by rewrite E in Hh.
Qed.

Definition demoDNS : Service :=
  mkService "dns"
    [mkReplica "dns/shard-001" "n1" (Some "svc/dns-shard-001");
     mkReplica "dns/shard-002" "n2" (Some "svc/dns-shard-002");
     mkReplica "dns/shard-003" "n3" (Some "svc/dns-shard-003")]
    None (mkPolicy ServiceSharded 0 2 ServiceShardByAS).
Definition demoHealth : gmap string bool :=
  {["dns/shard-001" := true; "dns/shard-002" := true; "dns/shard-003" := true]}.

Lemma SelectHealthyReplica_sound_witness :
  exists r, SelectHealthyReplica demoDNS 7 "n2" demoHealth = Ok r /\ repNode r = "n2".
Proof.
  pose proof (SelectHealthyReplica_sound demoDNS 7 "n2" demoHealth
    ltac:(apply (bool_decide_eq_true_1 _); vm_compute; reflexivity) ltac:(discriminate)) as H.
  set (r := mkReplica "dns/shard-002" "n2" (Some "svc/dns-shard-002")) in *.
  assert (SelectHealthyReplica demoDNS 7 "n2" demoHealth = Ok r) as E by (vm_compute; reflexivity).
  rewrite E in H. destruct H as (Hr & Hh & Hl). exists r. split; [exact E|].
  exact (Hl r Hr Hh ltac:(discriminate) eq_refl).
Defined.

(** A failure elsewhere moves nobody: if other replicas become unhealthy
    but the selected one stays healthy, every AS keeps the replica it had. *)
Theorem selection_survives_other_failures (s : Service) (asn : Z) (localNode : string)
    (h h' : gmap string bool) (r : ServiceReplica) :
  NoDup (ids (svcReplicas s)) -> svcReplicas s <> [] ->
  SelectHealthyReplica s asn localNode h = Ok r ->
  (forall id, isHealthy h' id = true -> isHealthy h id = true) ->
  isHealthy h' (repID r) = true ->
  SelectHealthyReplica s asn localNode h' = Ok r.
Proof.
  intros Hids Hne E Hsub Hr. apply SelectHealthyReplica_Ok in E; [|done..].
  apply SelectHealthyReplica_Ok; [done..|].
  assert (forall x, x ∈ localOf s localNode h' -> x ∈ localOf s localNode h) as Hl.
  { intros x. rewrite !elem_of_localOf. intros (? & ? & ?). auto. }
  destruct E as [[Hin Hb]|[El [Hin Hb]]].
  - left. split; [|by auto]. apply elem_of_localOf in Hin as (? & _ & ?).
    by apply elem_of_localOf.
  - right. split.
    { destruct (localOf s localNode h') as [|x l] eqn:E; [done|].
      specialize (Hl x ltac:(left)). rewrite El in Hl. by apply not_elem_of_nil in Hl. }
    split; [apply elem_of_remoteOf in Hin as (? & _ & ?); by apply elem_of_remoteOf|].
    intros x (? & ? & ?)%elem_of_remoteOf. apply Hb, elem_of_remoteOf. auto.
Qed.

Lemma selection_survives_other_failures_witness :
  let r := mkReplica "dns/shard-001" "n1" (Some "svc/dns-shard-001") in
  SelectHealthyReplica demoDNS 3 "n1" (<["dns/shard-002" := false]> demoHealth) = Ok r.
Proof.
  apply (selection_survives_other_failures demoDNS 3 "n1" demoHealth).
  - apply (bool_decide_eq_true_1 _). vm_compute. reflexivity.
  - discriminate.
  - vm_compute. reflexivity.
  - intros id. unfold isHealthy, lookup_or.
    destruct (decide (id = "dns/shard-002")) as [->|]; [by rewrite lookup_insert_eq|].
    by rewrite lookup_insert_ne by done.
  - vm_compute. reflexivity.
Defined.

(** With every replica healthy, and no shard target, the health-driven
    selection of the model package and the planner's attachment choice are the
    same function: a health pass over a healthy service moves no cable. *)
Theorem healthy_selection_is_planned_attachment (s : Service) (asn : Z) (localNode : string)
    (h : gmap string bool) :
  NoDup (ids (svcReplicas s)) -> svcReplicas s <> [] ->
  (forall r, r ∈ svcReplicas s -> isHealthy h (repID r) = true) ->
  exists r, SelectHealthyReplica s asn localNode h = Ok r
            /\ attachmentReplica s asn localNode "" = Some r.
Proof.
  intros Hids Hne Hall. rewrite SelectHealthyReplica_eq by done.
  assert (healthyOf s h = SortedReplicas (svcReplicas s)) as E.
  { unfold healthyOf. rewrite <- (app_nil_r (List.filter _ _)).
    assert (forall l, (forall r, r ∈ l -> isHealthy h (repID r) = true) ->
      List.filter (fun r => isHealthy h (repID r)) l = l) as Hf.
    { clear. induction l as [|x l IH]; intros Hl; [done|]. simpl.
      rewrite Hl by left. f_equal. apply IH. intros r Hr. apply Hl. by right. }
    rewrite app_nil_r. apply Hf. intros r. rewrite SortedReplicas_perm. auto. }
  unfold attachmentReplica, localOf, remoteOf. rewrite E. clear E.
  set (l := SortedReplicas (svcReplicas s)).
  assert (l <> []) as Hl.
  { intros E. pose proof (SortedReplicas_perm (svcReplicas s)) as Hp. fold l in Hp.
    rewrite E in Hp. by apply Permutation_nil_l in Hp. }
  destruct (List.filter (isLocal localNode) l) as [|x local] eqn:El.
  - assert (List.filter (fun r => negb (isLocal localNode r)) l = l) as ->.
    { clear - El. induction l as [|y l IH]; [done|]. simpl in *.
      destruct (isLocal localNode y); [done|]. simpl. f_equal. auto. }
    destruct (rendezvous_best (asnKey (svcName s) asn) l Hl) as (r & -> & _). eauto.
  - destruct (rendezvous_best (asnKey (svcName s) asn) (x :: local)) as (r & -> & _); eauto.
Qed.

Lemma healthy_selection_is_planned_attachment_witness :
  exists r, SelectHealthyReplica demoDNS 9 "n9" demoHealth = Ok r
            /\ attachmentReplica demoDNS 9 "n9" "" = Some r.
Proof.
  apply (healthy_selection_is_planned_attachment demoDNS 9 "n9" demoHealth).
  - apply (bool_decide_eq_true_1 _). vm_compute. reflexivity.
  - discriminate.
  - apply (proj1 (Forall_forall (fun r => isHealthy demoHealth (repID r) = true) _)).
    repeat constructor.
Defined.

(** For a sharded service the two differ: with every replica healthy, AS 9's
    planned attachment is its shard, and the health-driven selection picks
    another replica. *)
Theorem healthy_pass_moves_sharded_attachment :
  let targets := shardTargets demoDNS (fun _ => "") (fun _ => "n9") [7; 8; 9; 10] in
  (repID <$> attachmentReplica demoDNS 9 "n9" (lookup_or "" targets 9)) = Some "dns/shard-002"
  /\ exists r, SelectHealthyReplica demoDNS 9 "n9" demoHealth = Ok r
               /\ repID r <> "dns/shard-002".
Proof.
  vm_compute. split; [reflexivity|]. eexists. split; [reflexivity|]. discriminate.
Qed.

(** ** Identities are distinct *)

Lemma digits_zeros k s : digits 0 (zeros k +:+ s) = digits 0 s.
Proof. induction k as [|k IH]; [done|]. cbn [zeros]. rewrite append_cons. exact IH. Qed.

Lemma pad03_digits n : 0 <= n -> digits 0 (pad03 n) = Some n.
Proof.
  intros Hn. unfold pad03. rewrite (proj2 (Z.ltb_ge _ _)) by lia. unfold padTo.
  rewrite digits_zeros. destruct (pretty_digits (Z.to_N n)) as (_ & _ & ->). f_equal. lia.
Qed.

Lemma pad03_inj n m : 0 <= n -> 0 <= m -> pad03 n = pad03 m -> n = m.
Proof.
  intros Hn Hm E. apply pad03_digits in Hn, Hm. rewrite E in Hn. congruence.
Qed.

Lemma ReplicaID_inj_index service policy i j a b :
  Mode policy <> ServicePerNode -> 0 <= i -> 0 <= j ->
  ReplicaID service policy i a = ReplicaID service policy j b -> i = j.
Proof.
  intros Hm Hi Hj. unfold ReplicaID. rewrite !(decide_False _ _ Hm).
  case_decide; intros E; do 2 apply (inj (String.app _)) in E; apply pad03_inj in E; lia.
Qed.

Lemma ReplicaID_inj_node service policy i j a b :
  Mode policy = ServicePerNode ->
  ReplicaID service policy i a = ReplicaID service policy j b -> a = b.
Proof.
  intros Hm. unfold ReplicaID. rewrite !(decide_True _ _ Hm).
  intros E. by do 2 apply (inj (String.app _)) in E.
Qed.

Lemma ids_expand name policy nodes front attached :
  ids (expandServiceReplicas name policy nodes front attached)
  = map (fun i => ReplicaID name policy (Z.of_nat i) (homeOf policy nodes front i))
      (seq 0 (Z.to_nat (Z.max 1 (serviceReplicaCount policy nodes attached)))).
Proof. unfold ids, expandServiceReplicas. by rewrite map_map. Qed.

(** A one-to-one function maps distinct elements to distinct ones. *)
Lemma NoDup_map_on {A B} (f : A -> B) (l : list A) :
  (forall x y, x ∈ l -> y ∈ l -> f x = f y -> x = y) -> NoDup l -> NoDup (map f l).
Proof.
  intros Hf Hl. induction Hl as [|x l Hx Hl IH]; [constructor|]. simpl. constructor.
  - intros (y & E & Hy)%list_elem_of_fmap. apply Hf in E; [by subst| |]; set_solver.
  - apply IH. intros. apply Hf; set_solver.
Qed.

Lemma replica_ids_expand (name : string) (policy : ServiceReplicationPolicy)
    (nodes : list string) (front : string) (attached : nat) :
  NoDup nodes -> NoDup (ids (expandServiceReplicas name policy nodes front attached)).
Proof.
  intros Hn. rewrite ids_expand. apply NoDup_map_on; [|apply NoDup_seq].
  intros i j. rewrite !elem_of_seq. intros Hi Hj E.
  destruct (decide (Mode policy = ServicePerNode)) as [Hm|Hm].
  - apply ReplicaID_inj_node in E; [|done]. unfold homeOf in E. unfold serviceReplicaCount in *.
    rewrite (decide_True _ _ Hm) in Hi, Hj. rewrite (bool_decide_true _ Hm) in E. simpl in E.
    destruct nodes as [|n nodes]; [simpl in *; lia|]. simpl length in *.
    rewrite !bool_decide_true in E by lia.
    destruct (nth_lookup_or_length (n :: nodes) i ""); [|simpl in *; lia].
    destruct (nth_lookup_or_length (n :: nodes) j ""); [|simpl in *; lia].
    eapply (NoDup_lookup (n :: nodes)); [done..|congruence].
  - apply ReplicaID_inj_index in E; lia || done.
Qed.

(** Replicas of a service never share an identity: with distinct node
    names, the replicas that expansion creates for any replication policy have
    pairwise distinct IDs, which selection, shard targets and placement records
    rely on. *)
Theorem replica_ids_distinct (name : string) (policy : ServiceReplicationPolicy)
    (nodes : list string) (front : string) (attached : nat) :
  NoDup nodes -> NoDup (ids (expandServiceReplicas name policy nodes front attached)).
Proof. apply replica_ids_expand. Qed.

Lemma replica_ids_distinct_witness :
  NoDup (ids (expandServiceReplicas "dns" (mkPolicy ServicePerNode 0 0 "") ["n1"; "n2"; "n3"] "" 0)).
Proof.
  apply (replica_ids_distinct "dns"). apply (bool_decide_eq_true_1 _). vm_compute. reflexivity.
Defined.

(** ** Shards *)

Lemma filter_div_length (size k n : nat) :
  (0 < size)%nat ->
  (length (List.filter (fun i => Nat.eqb (i `div` size) k) (seq 0 n)) <= size)%nat.
Proof.
  intros Hs. trans (length (seq (k * size) size)); [|by rewrite length_seq].
  apply submseteq_length, NoDup_submseteq.
  - apply NoDup_ListNoDup, List.NoDup_filter, NoDup_ListNoDup, NoDup_seq.
  - intros i. rewrite list_elem_of_In, filter_In, Nat.eqb_eq. intros [_ E].
    apply elem_of_seq. pose proof (Nat.div_mod i size ltac:(lia)).
    pose proof (Nat.mod_upper_bound i size ltac:(lia)). nia.
Qed.

Lemma filter_length_le {A} (p q : A -> bool) l :
  (forall x, x ∈ l -> p x = true -> q x = true) ->
  (length (List.filter p l) <= length (List.filter q l))%nat.
Proof.
  induction l as [|x l IH]; intros H; [done|]. simpl.
  assert (length (List.filter p l) <= length (List.filter q l))%nat
    by (apply IH; intros; apply H; [by right|done]).
  destruct (p x) eqn:E; [rewrite H by (left || done); simpl; lia|].
  destruct (q x); simpl; lia.
Qed.

(** Counting positions instead of elements. *)
Lemma filter_length_index {A} (p : A -> bool) (l : list A) :
  length (List.filter p l)
  = length (List.filter (fun i => match l !! i with Some x => p x | None => false end)
              (seq 0 (length l))).
Proof.
  induction l as [|x l IH]; [done|].
  cbn [length seq List.filter lookup list_lookup]. rewrite <- seq_shift.
  assert (length (List.filter (fun i => match (x :: l) !! i with Some x => p x | None => false end)
            (map S (seq 0 (length l)))) = length (List.filter p l)) as E.
  { rewrite IH. generalize (seq 0 (length l)). induction l0 as [|i l0 IH0]; [done|].
    simpl. destruct (l !! i) as [y|]; [destruct (p y)|]; simpl; rewrite IH0; done. }
  destruct (p x); simpl; rewrite E; done.
Qed.

(** The keys of an indexed partial map are among the elements, in order. *)
Lemma omap_zip_keys {A B C} (g : nat -> A -> option B) (h : B -> C) (k : nat) (l : list A) :
  map fst (omap (fun '(i, a) => v ← g i a; Some (a, h v)) (zip (seq k (length l)) l)) `sublist_of` l.
Proof.
  revert k. induction l as [|a l IH]; intros k; [constructor|]. simpl.
  destruct (g k a); simpl; constructor; apply IH.
Qed.

Lemma elem_of_zip_seq {A} (l : list A) i a :
  l !! i = Some a -> (i, a) ∈ zip (seq 0 (length l)) l.
Proof.
  intros Hi. apply list_elem_of_lookup. exists i. apply lookup_zip_with_Some.
  exists i, a. split; [done|]. split; [|done]. apply lookup_seq. apply lookup_lt_Some in Hi. lia.
Qed.

Section Shards.
Context (s : Service) (region node : Z -> string) (asns : list Z).
Let policy := svcPolicy s.
Hypothesis Hmode : Mode policy = ServiceSharded.
Hypothesis Hsel : Selector policy = ServiceShardByAS.
Hypothesis Hsize : 0 < ShardSize policy.
Hypothesis Hasns : NoDup asns.
(** Enough replicas, as [serviceReplicaCount] provides. *)
Hypothesis Hcount : Z.of_nat (length asns) <= Z.of_nat (length (svcReplicas s)) * ShardSize policy.

Definition shardAt (i : nat) : option ServiceReplica :=
  SortedReplicas (svcReplicas s) !! (i `div` Z.to_nat (ShardSize policy))%nat.

Lemma shardTarget_eq i asn :
  (i < length asns)%nat ->
  shardTarget s (SortedReplicas (svcReplicas s)) region node i asn = shardAt i
  /\ is_Some (shardAt i).
Proof.
  intros Hi. assert (length (SortedReplicas (svcReplicas s)) = length (svcReplicas s)) as Hl
    by (by rewrite SortedReplicas_perm).
  assert (Z.of_nat i / ShardSize policy < Z.of_nat (length (svcReplicas s))) as Hlt
    by (apply Z.div_lt_upper_bound; lia).
  assert (i `div` Z.to_nat (ShardSize policy) = Z.to_nat (Z.of_nat i / ShardSize policy))%nat as Hd.
  { rewrite Z2Nat.inj_div, Nat2Z.id by lia. done. }
  split; [|unfold shardAt; apply lookup_lt_is_Some; rewrite Hl, Hd;
           pose proof (Z.div_pos (Z.of_nat i) (ShardSize policy) ltac:(lia) Hsize); lia].
  unfold shardTarget, shardAt. fold policy. rewrite (decide_True _ _ Hsel), Hd.
  rewrite (proj2 (Z.leb_gt _ _)) by lia. rewrite Hl, Z.mod_small; [done|].
  split; [|done]. by apply Z.div_pos; lia.
Qed.

Lemma shardTargets_lookup i asn :
  asns !! i = Some asn -> shardTargets s region node asns !! asn = repID <$> shardAt i.
Proof.
  intros Hi. unfold shardTargets. fold policy. rewrite bool_decide_true by done.
  rewrite bool_decide_false; simpl.
  2: { intros E. rewrite E in Hcount. apply lookup_lt_Some in Hi. simpl in Hcount. lia. }
  destruct (shardTarget_eq i asn) as [E [r Hr]]; [by eapply lookup_lt_Some|].
  rewrite Hr. simpl. apply elem_of_list_to_map_1.
  - eapply sublist_NoDup; [exact Hasns|]. apply omap_zip_keys.
  - apply list_elem_of_omap. exists (i, asn). rewrite E, Hr. split; [|done].
    by apply elem_of_zip_seq.
Qed.

Lemma shardTargets_covers asn :
  asn ∈ asns -> is_Some (shardTargets s region node asns !! asn).
Proof.
  intros [i Hi]%list_elem_of_lookup. rewrite (shardTargets_lookup i asn Hi).
  apply fmap_is_Some. apply (shardTarget_eq i asn). by eapply lookup_lt_Some.
Qed.

Lemma shardAt_inj i j id :
  NoDup (ids (svcReplicas s)) ->
  repID <$> shardAt i = Some id -> repID <$> shardAt j = Some id ->
  (i `div` Z.to_nat (ShardSize policy) = j `div` Z.to_nat (ShardSize policy))%nat.
Proof.
  intros Hn%NoDup_ids_sorted Hi Hj. unfold shardAt in *.
  eapply (NoDup_lookup (ids (SortedReplicas (svcReplicas s)))); [done|..];
    unfold ids; by rewrite list_lookup_fmap.
Qed.

Lemma shard_load id :
  NoDup (ids (svcReplicas s)) ->
  (length (List.filter (fun asn => bool_decide (shardTargets s region node asns !! asn = Some id))
             asns) <= Z.to_nat (ShardSize policy))%nat.
Proof.
  intros Hn. rewrite filter_length_index. set (p := fun i => _).
  assert (forall i, p i = true -> repID <$> shardAt i = Some id) as Hp.
  { intros i. unfold p. destruct (asns !! i) as [asn|] eqn:Hi; [|done].
    intros E%bool_decide_eq_true. by rewrite <- (shardTargets_lookup i asn Hi). }
  destruct (List.filter p (seq 0 (length asns))) as [|i0 rest] eqn:E; [simpl; lia|].
  rewrite <- E.
  assert (p i0 = true) as H0.
  { eapply proj2, filter_In. rewrite E. by left. }
  trans (length (List.filter (fun i => Nat.eqb (i `div` Z.to_nat (ShardSize policy))
    (i0 `div` Z.to_nat (ShardSize policy))) (seq 0 (length asns))));
    [|apply filter_div_length; lia].
  apply filter_length_le. intros i _ Hi. apply Nat.eqb_eq. by eapply shardAt_inj; auto.
Qed.
End Shards.

(** Shards keep to their size: a service sharded by AS that expansion sized
    for its attached ASes gives every AS a shard, and no shard serves more ASes
    than [shard_size]. *)
Theorem shards_bounded_by_size (name : string) (policy : ServiceReplicationPolicy)
    (nodes : list string) (front : string) (region node : Z -> string) (asns : list Z) :
  Mode policy = ServiceSharded -> Selector policy = ServiceShardByAS -> 0 < ShardSize policy ->
  NoDup asns -> NoDup nodes ->
  let s := mkService name (expandServiceReplicas name policy nodes front (length asns))
             None policy in
  let targets := shardTargets s region node asns in
  (forall asn, asn ∈ asns -> is_Some (targets !! asn))
  /\ forall id, Z.of_nat (length (List.filter (fun asn => bool_decide (targets !! asn = Some id)) asns))
                <= ShardSize policy.
Proof.
  intros Hm Hsel Hsize Hasns Hnodes s targets.
  assert (Z.of_nat (length asns) <= Z.of_nat (length (svcReplicas s)) * ShardSize policy) as Hc.
  { simpl. unfold expandServiceReplicas. rewrite length_map, length_seq.
    unfold serviceReplicaCount. rewrite (decide_False (P := Mode policy = ServicePerNode)) by (by rewrite Hm).
    rewrite (decide_False (P := Mode policy = ServiceReplicas)) by (by rewrite Hm).
    rewrite (decide_True _ _ Hm), (proj2 (Z.leb_gt _ _)) by lia.
    pose proof (Z.div_mod (Z.of_nat (length asns) + ShardSize policy - 1) (ShardSize policy) ltac:(lia)).
    pose proof (Z.mod_pos_bound (Z.of_nat (length asns) + ShardSize policy - 1) (ShardSize policy) Hsize).
    nia. }
  split.
  - intros asn. by apply shardTargets_covers.
  - intros id. pose proof (shard_load s region node asns Hm Hsel Hsize Hasns Hc id) as H.
    apply Nat2Z.inj_le in H; [|by apply replica_ids_expand].
    change (svcPolicy s) with policy in H. rewrite Z2Nat.id in H by lia. exact H.
Qed.

Lemma shards_bounded_by_size_witness :
  let policy := mkPolicy ServiceSharded 0 2 ServiceShardByAS in
  let s := mkService "dns" (expandServiceReplicas "dns" policy ["n1"; "n2"] "" 5) None policy in
  forall id, Z.of_nat (length (List.filter (fun asn => bool_decide
    (shardTargets s (fun _ => "") (fun _ => "") [1; 2; 3; 4; 5] !! asn = Some id)) [1; 2; 3; 4; 5])) <= 2.
Proof.
  apply (shards_bounded_by_size "dns" (mkPolicy ServiceSharded 0 2 ServiceShardByAS) ["n1"; "n2"] ""
    (fun _ => "") (fun _ => "") [1; 2; 3; 4; 5]); try reflexivity;
  apply (bool_decide_eq_true_1 _); vm_compute; reflexivity.
Defined.

Example replica_names :
  ids (expandServiceReplicas "dns" (mkPolicy ServiceReplicas 3 0 "") ["n1"; "n2"] "" 0)
    = ["dns/replica-001"; "dns/replica-002"; "dns/replica-003"]
  /\ ReplicaName "dns" (mkPolicy ServicePerNode 0 0 "") 0 "Rack_A.1" = "dns-rack-a-1"
  /\ Mode (Effective (mkPolicy "" 0 0 "") "builtin.dns" true true) = ServicePerNode.
Proof. vm_compute. repeat split. Qed.
