(* ===== verification/Attachments.v ===== *)
(** * Service attachments: rewiring the cables of replicated services

    Models the attachment part of [internal/service/replicas.go]: after
    placement, or when a replica is no longer healthy, the cables of a service
    are removed and drawn again from every eligible AS to the replica chosen
    for it. Interfaces are shared by pointer between a device and a link, so
    the model keeps them in their device under an address and lets links refer
    to that address. *)

From stdpp Require Import base gmap strings list fin_maps sorting pretty.
From Stdlib Require Import ZArith Lia Ascii.
From S2P Require Import Prelude Text Alloc Ipam Replicas.

Open Scope Z_scope.

(** ** The graph *)

(** [model.Iface]: its address in memory and the fields reconciliation sets. *)
Record SIface := mkSIface {
  ifPtr : nat; ifName : string; ifAddr4 : option Prefix; ifMAC : string
}.

(** [model.Device]. *)
Record SDevice := mkSDevice { dNode : string; dRouterID : Z; dIfaces : list SIface }.

(** [model.Link]; an end is the device and the interface it points to. *)
Record SLink := mkSLink {
  lID : string; lA : string * nat; lB : string * nat; lSubnet : option Prefix; lVNI : Z
}.

(** [model.AS]. *)
Record SAS := mkSAS { asRole : string; asTemplate : string; asRegion : string; asNode : string }.
Definition RoleIXP : string := "ixp".
Definition asIXP (a : SAS) : bool := bool_decide (asRole a = RoleIXP).

Record ServiceAttach := mkAttach { atTemplate : string; atRouter : string; atIface : string }.

(** [model.Service] with its attachment declaration and choices. *)
Record SService := mkSService {
  sSvc : Service; sAttach : option ServiceAttach; sAttachments : gmap Z string
}.

Record Top := mkTop {
  tName : string;
  tNodes : list string;
  tASes : gmap Z SAS;
  tDevices : gmap string SDevice;
  tServices : gmap string SService;
  tLinks : list SLink;
  tFresh : nat
}.

Definition SortedASNs (t : Top) : list Z := sortInts (map fst (map_to_list (tASes t))).
Definition SortedServiceNames (t : Top) : list string :=
  sortStrings (map fst (map_to_list (tServices t))).

Definition DeviceID (asn : Z) (name : string) : string :=
  if asn =? 0 then "svc/" +:+ name else "as" +:+ itoa asn +:+ "/" +:+ name.
Definition DeviceInAS (t : Top) (asn : Z) (name : string) : option SDevice :=
  tDevices t !! DeviceID asn name.

Definition MakeLinkID (devA ifA devB ifB : string) : string :=
  let a := devA +:+ ":" +:+ ifA in
  let b := devB +:+ ":" +:+ ifB in
  if String.ltb b a then b +:+ "|" +:+ a else a +:+ "|" +:+ b.

(** ** Provisional placement

    AS numbers are positive. *)

Definition InitialAttachmentNodes (t : Top) : gmap Z string :=
  match tNodes t with
  | [] => ∅
  | _ => list_to_map (map (fun asn =>
           (asn, match tASes t !! asn with
                 | Some a => if decide (asNode a = "")
                             then nth (Z.to_nat (Z.rem (asn - 1) (Z.of_nat (length (tNodes t)))))
                                    (tNodes t) ""
                             else asNode a
                 | None => ""
                 end)) (SortedASNs t))
  end.

(** ** Interface names *)

(** [s[:n]]; [None] is the slice-bounds panic. *)
Fixpoint takeStr (n : nat) (s : string) : string :=
  match n, s with
  | S n, String c s => String c (takeStr n s)
  | _, _ => ""
  end.
Definition cutAt (n : Z) (s : string) : option string :=
  if (n <? 0) || (Z.of_nat (String.length s) <? n) then None else Some (takeStr (Z.to_nat n) s).

Definition len (s : string) : Z := Z.of_nat (String.length s).

(** [if len(head)+len(tail) > 15 { head = head[:15-len(tail)] }; head + tail]. *)
Definition joinShort (head tail : string) : option string :=
  if 15 <? len head + len tail
  then h ← cutAt (15 - len tail) head; Some (h +:+ tail)
  else Some (head +:+ tail).

(** The loop [for n := 2; used[candidate]; n++]. *)
Fixpoint uniqueLoop (fuel : nat) (used : list string) (candidate : string) (n : Z)
    : option string :=
  if bool_decide (candidate ∈ used) then
    match fuel with
    | O => None
    | S fuel => c ← joinShort candidate ("-" +:+ itoa n); uniqueLoop fuel used c (n + 1)
    end
  else Some candidate.

Definition uniqueAttachmentIface (used : list string) (wanted service : string) : option string :=
  if negb (bool_decide (wanted ∈ used)) then Some wanted
  else c ← joinShort wanted ("-" +:+ serviceNamePart service);
       uniqueLoop (S (S (length used))) used c 2.

(** ** Removing cables *)

Definition setIfaces (f : list SIface -> list SIface) (d : SDevice) : SDevice :=
  mkSDevice (dNode d) (dRouterID d) (f (dIfaces d)).
Definition setDevices (f : gmap string SDevice -> gmap string SDevice) (t : Top) : Top :=
  mkTop (tName t) (tNodes t) (tASes t) (f (tDevices t)) (tServices t) (tLinks t) (tFresh t).
Definition setLinks (ls : list SLink) (t : Top) : Top :=
  mkTop (tName t) (tNodes t) (tASes t) (tDevices t) (tServices t) ls (tFresh t).
Definition setService (name : string) (s : SService) (t : Top) : Top :=
  mkTop (tName t) (tNodes t) (tASes t) (tDevices t) (<[name := s]> (tServices t)) (tLinks t) (tFresh t).

(** [removeIface(device, wanted)]: by pointer. *)
Definition removeIface (e : string * nat) (t : Top) : Top :=
  setDevices (alter (setIfaces (List.filter (fun i => negb (Nat.eqb (ifPtr i) e.2)))) e.1) t.

Definition replicaDevices (s : SService) : list string := omap repDevice (svcReplicas (sSvc s)).

Definition touches (devs : list string) (l : SLink) : bool :=
  bool_decide ((lA l).1 ∈ devs) || bool_decide ((lB l).1 ∈ devs).

Definition clearServiceLinks (s : SService) (t : Top) : Top :=
  let devs := replicaDevices s in
  match devs with
  | [] => t
  | _ =>
      let t := fold_left (fun t l => if touches devs l then removeIface (lB l) (removeIface (lA l) t)
                                     else t) (tLinks t) t in
      setLinks (List.filter (fun l => negb (touches devs l)) (tLinks t)) t
  end.

(** ** Drawing them again *)

Definition eligibleASNs (t : Top) (a : ServiceAttach) : list Z :=
  List.filter (fun asn =>
    match tASes t !! asn with
    | None => false
    | Some as_ =>
        negb (asIXP as_)
        && negb (negb (bool_decide (atTemplate a = "")) && negb (bool_decide (asTemplate as_ = atTemplate a)))
        && bool_decide (is_Some (DeviceInAS t asn (atRouter a)))
    end) (SortedASNs t).

Definition ifaceLe (a b : SIface) : Prop := String.le (ifName a) (ifName b).
#[export] Instance ifaceLe_dec : RelDecision ifaceLe.
Proof. unfold ifaceLe. intros ??. apply _. Defined.

(** [device.AddIface(i)]: appended, then stably sorted by name. *)
Definition AddIface (dev : string) (i : SIface) (t : Top) : Top :=
  setDevices (alter (setIfaces (fun l => merge_sort ifaceLe (l ++ [i]))) dev) t.

(** [serviceHostPair]. *)
Definition serviceHostPair (subnet : option Prefix) : option Prefix * option Prefix :=
  match Host subnet 1, Host subnet 2 with
  | Ok a, Ok b => (Some a, Some b)
  | _, _ => (None, None)
  end.

Inductive attachErr :=
| ECompile | EAddress | ENoReplica (asn : Z) | EUnhealthy (asn : Z) | EPanicSlice.

(** The compiled addressing expression of a service: a Go template evaluated
    for an AS and a router, giving a prefix (or text that is none). *)
Definition AddrPlan : Type := Z -> Z -> result attachErr (option Prefix).
(** [top.Lab.Addressing.Services]: absent, or compiled, or not compilable. *)
Definition Addressing : Type := string -> option (result attachErr AddrPlan).

Definition localNodeOf (byAS : gmap Z string) (asn : Z) (router : SDevice) : string :=
  if decide (dNode router = "") then lookup_or "" byAS asn else dNode router.

(** One cable: the two interfaces, the link, the recorded choice. *)
Definition attachOne (name : string) (a : ServiceAttach) (asn : Z) (router : SDevice)
    (subnet : option Prefix) (r : ServiceReplica) (repDev : string) : SE Top attachErr unit :=
  t ← get;
  let routerID := DeviceID asn (atRouter a) in
  let '(routerAddr, serviceAddr) := serviceHostPair subnet in
  match uniqueAttachmentIface (map ifName (dIfaces router)) (atIface a) name with
  | None => fail EPanicSlice
  | Some rname =>
      let sname := "as" +:+ itoa asn in
      let p := tFresh t in
      let ri := mkSIface p rname routerAddr (MAC (tName t) routerID rname) in
      let si := mkSIface (S p) sname serviceAddr (MAC (tName t) repDev sname) in
      let link := mkSLink (MakeLinkID routerID rname repDev sname) (routerID, p) (repDev, S p) subnet 0 in
      modify (AddIface routerID ri);;
      modify (AddIface repDev si);;
      modify (fun t => mkTop (tName t) (tNodes t) (tASes t) (tDevices t) (tServices t)
                        (tLinks t ++ [link]) (S (S (tFresh t))))
  end.

(** [service.Attachments[asn] = replica.ID]. *)
Definition recordAttachment (key : string) (asn : Z) (id : string) (t : Top) : Top :=
  match tServices t !! key with
  | None => t
  | Some s => setService key (mkSService (sSvc s) (sAttach s) (<[asn := id]> (sAttachments s))) t
  end.

Section Reconcile.
Context (addressing : Addressing) (byAS : gmap Z string).

(** The replica of one AS: the health-driven choice if there is one, else the
    planned attachment. *)
Definition chosen (s : Service) (choices : gmap Z ServiceReplica) (shards : gmap Z string)
    (asn : Z) (local : string) : option ServiceReplica :=
  match choices !! asn with
  | Some r => Some r
  | None => attachmentReplica s asn local (lookup_or "" shards asn)
  end.

Fixpoint reconcileASes (key : string) (s : Service) (a : ServiceAttach)
    (plan : option AddrPlan) (choices : gmap Z ServiceReplica) (shards : gmap Z string)
    (asns : list Z) : SE Top attachErr unit :=
  match asns with
  | [] => mret tt
  | asn :: asns =>
      t ← get;
      match DeviceInAS t asn (atRouter a) with
      | None => reconcileASes key s a plan choices shards asns
      | Some router =>
          match chosen s choices shards asn (localNodeOf byAS asn router) with
          | Some r =>
              match repDevice r with
              | Some dev =>
                  subnet ← match plan with
                           | Some p => lift (p asn (dRouterID router))
                           | None => mret None
                           end;
                  attachOne (svcName s) a asn router subnet r dev;;
                  modify (recordAttachment key asn (repID r));;
                  reconcileASes key s a plan choices shards asns
              | None => fail (ENoReplica asn)
              end
          | None => fail (ENoReplica asn)
          end
      end
  end.

(** The node shard selection reads for an AS: its router's, else [byAS]. *)
Definition shardNode (t : Top) (a : ServiceAttach) (asn : Z) : string :=
  match DeviceInAS t asn (atRouter a) with
  | Some router => localNodeOf byAS asn router
  | None => lookup_or "" byAS asn
  end.
Definition regionOf (t : Top) (asn : Z) : string :=
  match tASes t !! asn with Some a => asRegion a | None => "" end.

Definition reconcileService (key : string) (s : SService) (a : ServiceAttach)
    (choices : gmap Z ServiceReplica) : SE Top attachErr unit :=
  modify (clearServiceLinks s);;
  modify (setService key (mkSService (sSvc s) (sAttach s) ∅));;
  plan ← match addressing (svcName (sSvc s)) with
         | None => mret None
         | Some (Ok p) => mret (Some p)
         | Some (Err _) => fail ECompile
         end;
  t ← get;
  let eligible := eligibleASNs t a in
  let shards := shardTargets (sSvc s) (regionOf t) (shardNode t a) eligible in
  reconcileASes key (sSvc s) a plan choices shards eligible.

(** Services that take part: with replicas and an attachment. *)
Definition scalable (t : Top) (key : string) : option (SService * ServiceAttach) :=
  s ← tServices t !! key;
  match svcReplicas (sSvc s) with
  | [] => None
  | _ => a ← sAttach s; Some (s, a)
  end.

Definition linkLe (a b : SLink) : Prop := String.le (lID a) (lID b).
#[export] Instance linkLe_dec : RelDecision linkLe.
Proof. unfold linkLe. intros ??. apply _. Defined.

(** [reassignVNIs]; [fuel] bounds the probes of [AssignVNIs]. *)
Definition reassignVNIs (fuel : nat) (t : Top) : Top :=
  let ls := merge_sort linkLe (tLinks t) in
  match AssignVNIs fuel (tName t) (map lID ls) with
  | None => t
  | Some vnis => setLinks (map (fun l => mkSLink (lID l) (lA l) (lB l) (lSubnet l)
                                           (lookup_or 0 vnis (lID l))) ls) t
  end.

Fixpoint reconcileAll (names : list string) : SE Top attachErr unit :=
  match names with
  | [] => mret tt
  | name :: names =>
      t ← get;
      match scalable t name with
      | None => mret tt
      | Some (s, a) => reconcileService name s a ∅
      end;;
      reconcileAll names
  end.

Definition ReconcileAttachments (fuel : nat) : SE Top attachErr unit :=
  t ← get;
  reconcileAll (SortedServiceNames t);;
  modify (reassignVNIs fuel).

(** The choices of one service, before anything is rewired. *)
Fixpoint healthyChoices (t : Top) (s : Service) (a : ServiceAttach) (health : gmap string bool)
    (asns : list Z) : result attachErr (gmap Z ServiceReplica) :=
  match asns with
  | [] => Ok ∅
  | asn :: asns =>
      match DeviceInAS t asn (atRouter a) with
      | None => healthyChoices t s a health asns
      | Some router =>
          match SelectHealthyReplica s asn (localNodeOf byAS asn router) health with
          | Err _ => Err (EUnhealthy asn)
          | Ok r => match healthyChoices t s a health asns with
                    | Ok m => Ok (<[asn := r]> m)
                    | Err e => Err e
                    end
          end
      end
  end.

Fixpoint allChoices (t : Top) (health : gmap string bool) (names : list string)
    : result attachErr (gmap string (gmap Z ServiceReplica)) :=
  match names with
  | [] => Ok ∅
  | name :: names =>
      match scalable t name with
      | None => allChoices t health names
      | Some (s, a) =>
          match healthyChoices t (sSvc s) a health (eligibleASNs t a) with
          | Err e => Err e
          | Ok m => match allChoices t health names with
                    | Ok all => Ok (<[name := m]> all)
                    | Err e => Err e
                    end
          end
      end
  end.

Fixpoint applyChoices (choices : gmap string (gmap Z ServiceReplica)) (names : list string)
    : SE Top attachErr unit :=
  match names with
  | [] => mret tt
  | name :: names =>
      t ← get;
      let perAS := lookup_or ∅ choices name in
      match tServices t !! name with
      | Some s => match sAttach s with
                  | Some a => if decide (perAS = ∅) then mret tt
                              else reconcileService name s a perAS
                  | None => mret tt
                  end
      | None => mret tt
      end;;
      applyChoices choices names
  end.

Definition ReconcileHealthyAttachments (fuel : nat) (health : gmap string bool)
    : SE Top attachErr unit :=
  t ← get;
  choices ← lift (allChoices t health (SortedServiceNames t));
  applyChoices choices (SortedServiceNames t);;
  modify (reassignVNIs fuel).
End Reconcile.

(** ** Fresh interface names *)

Lemma len_app s t : len (s +:+ t) = len s + len t.
Proof. unfold len. rewrite length_append. lia. Qed.

Lemma length_takeStr n s : (n <= String.length s)%nat -> String.length (takeStr n s) = n.
Proof.
  revert s. induction n as [|n IH]; intros s Hn; [by destruct s|].
  destruct s as [|c s]; simpl in *; [lia|]. f_equal. apply IH. lia.
Qed.

(** Joining two names cuts the first so that the result fits. *)
Lemma joinShort_ok head tail :
  len tail <= 15 ->
  exists h, joinShort head tail = Some (h +:+ tail) /\ len (h +:+ tail) <= 15.
Proof.
  intros Ht. unfold joinShort. destruct (Z.ltb_spec 15 (len head + len tail)).
  - unfold cutAt. unfold len in *. rewrite (proj2 (Z.ltb_ge _ _)), (proj2 (Z.ltb_ge _ _)) by lia.
    simpl. eexists. split; [done|]. rewrite length_append, length_takeStr by lia. lia.
  - exists head. split; [done|]. rewrite len_app. lia.
Qed.

(** The number after the last dash. *)
Lemma dash_suffix_inj h h' (n m : N) :
  h +:+ "-" +:+ pretty n = h' +:+ "-" +:+ pretty m -> n = m.
Proof.
  intros E. apply (f_equal String.rev) in E.
  rewrite !append_byte in E. rewrite !rev_append, !rev_cons, !append_assoc, !append_byte in E.
  assert (forall k, occurs "-" (String.rev (pretty (k : N))) = false) as Hk.
  { intros k. assert (forall s, occurs "-" (String.rev s) = occurs "-" s) as ->.
    { clear. induction s as [|c s IH]; [done|]. rewrite rev_cons, occurs_app, IH. simpl.
      by rewrite orb_false_r, orb_comm. }
    apply allDigits_occurs; [done|]. apply pretty_digits. }
  apply (f_equal (cut "-")) in E. rewrite !cut_app in E by apply Hk.
  injection E as E _. apply (f_equal String.rev) in E. rewrite !rev_involutive in E.
  destruct (pretty_digits n) as (_ & _ & Hn), (pretty_digits m) as (_ & _ & Hm).
  rewrite E in Hn. rewrite Hn in Hm. by apply (inj Z.of_N); congruence.
Qed.

Lemma length_pretty_N_go k x s :
  (x < 10 ^ N.of_nat k)%N -> (String.length (pretty_N_go x s) <= k + String.length s)%nat.
Proof.
  revert x s. induction k as [|k IH]; intros x s Hx.
  - assert (x = 0)%N as -> by (simpl in Hx; lia). by rewrite pretty_N_go_0.
  - destruct (decide (x = 0)%N) as [->|]; [rewrite pretty_N_go_0; lia|].
    rewrite pretty_N_go_step by lia.
    pose proof (IH (x `div` 10)%N (String (pretty_N_char (x `mod` 10)) s)) as H.
    simpl in H. rewrite Nat.add_succ_r in H. simpl. apply H.
    rewrite Nat2N.inj_succ, N.pow_succ_r' in Hx. by apply N.Div0.div_lt_upper_bound.
Qed.

(** A number below 10^13 has a [-n] suffix of at most 14 bytes. *)
Lemma len_tail n : 2 <= n < 10 ^ 13 -> len ("-" +:+ itoa n) <= 15.
Proof.
  intros Hn. rewrite itoa_pos by lia. unfold len. rewrite append_byte. simpl.
  unfold pretty, pretty_N. rewrite decide_False by lia.
  pose proof (length_pretty_N_go 13 (Z.to_N n) "" ltac:(change (10 ^ N.of_nat 13)%N with (Z.to_N (10 ^ 13)); lia)).
  simpl in *. lia.
Qed.

(** While the loop has not found a free name, all its candidates are distinct
    used names: it stops before it has tried more names than are used. *)
Lemma uniqueLoop_ok fuel used c n tried :
  (length tried + fuel > length used)%nat ->
  NoDup tried -> (forall x, x ∈ tried -> x ∈ used) ->
  (forall x, x ∈ tried -> x = c -> False) ->
  (forall m h, n <= m -> h +:+ "-" +:+ itoa m ∉ tried /\ h +:+ "-" +:+ itoa m <> c) ->
  2 <= n -> n + Z.of_nat fuel < 10 ^ 13 -> len c <= 15 ->
  exists r, uniqueLoop fuel used c n = Some r /\ r ∉ used /\ len r <= 15.
Proof.
  revert c n tried. induction fuel as [|fuel IH];
    intros c n tried Hl Hnd Hin Hc Hfresh Hn Hbig Hlen; cbn [uniqueLoop].
  - case_bool_decide as Hu; [|by exists c]. exfalso.
    assert (length (c :: tried) <= length used)%nat; [|simpl in *; lia].
    apply submseteq_length, NoDup_submseteq; [constructor; [|done]; eauto|].
    intros x [->|?]%elem_of_cons; auto.
  - case_bool_decide as Hu; [|by exists c].
    destruct (joinShort_ok c ("-" +:+ itoa n)) as (h & -> & Hh); [apply len_tail; lia|].
    simpl. apply (IH _ _ (c :: tried)); try lia.
    + simpl. lia.
    + constructor; [|done]. eauto.
    + intros x [->|?]%elem_of_cons; auto.
    + intros x [->|Hx]%elem_of_cons E; subst; edestruct (Hfresh n) as [H1 H2]; try lia; eauto.
    + intros m h' Hm. destruct (Hfresh m h' ltac:(lia)) as [H1 H2]. split.
      * by intros [?|?]%elem_of_cons.
      * intros E. rewrite !itoa_pos in E by lia. apply dash_suffix_inj in E. lia.
Qed.

Lemma uniqueLoop_step fuel used c n :
  uniqueLoop (S fuel) used c n =
  if bool_decide (c ∈ used)
  then joinShort c ("-" +:+ itoa n) ≫= (fun c => uniqueLoop fuel used c (n + 1))
  else Some c.
Proof. done. Qed.

(** A name for a service's interface on a router is always found, is not in
    use there and fits the kernel's 15 bytes, although the wanted name and the
    numbered candidates are cut to fit: the loop over candidates ends. It needs
    a service name of at most 14 bytes in its cleaned form. *)
Theorem uniqueAttachmentIface_fresh (used : list string) (wanted service : string) :
  len wanted <= 15 -> len (serviceNamePart service) <= 14 ->
  Z.of_nat (length used) < 10 ^ 12 ->
  exists name, uniqueAttachmentIface used wanted service = Some name
               /\ name ∉ used /\ len name <= 15.
Proof.
  intros Hw Hs Hu. unfold uniqueAttachmentIface.
  case_bool_decide as Hin; cbn [negb]; [|by exists wanted].
  destruct (joinShort_ok wanted ("-" +:+ serviceNamePart service)) as (h & -> & Hh).
  { rewrite len_app. change (len "-") with 1. lia. }
  cbn [mbind option_bind]. rewrite uniqueLoop_step. case_bool_decide; [|by eexists].
  destruct (joinShort_ok (h +:+ "-" +:+ serviceNamePart service) ("-" +:+ itoa 2))
    as (h' & E & Hh'); [by vm_compute|]. rewrite E.
  cbn [mbind option_bind]. apply (uniqueLoop_ok _ _ _ _ []); try lia; try done.
  - constructor.
  - set_solver.
  - set_solver.
  - intros m k Hm. split; [set_solver|]. intros E'. rewrite !itoa_pos in E' by lia.
    apply dash_suffix_inj in E'. lia.
Qed.

Lemma uniqueAttachmentIface_fresh_witness :
  exists name, uniqueAttachmentIface ["matrix"; "matrix-dns"] "matrix" "dns" = Some name
               /\ name ∉ ["matrix"; "matrix-dns"] /\ len name <= 15.
Proof. apply uniqueAttachmentIface_fresh; vm_compute; congruence. Defined.

(** With a longer service name the slice expression is out of range. *)
Theorem long_service_name_panics :
  uniqueAttachmentIface ["matrix"] "matrix" "looking-glass-eu" = None
  /\ exists name, uniqueAttachmentIface ["host"] "matrix" "looking-glass-eu" = Some name.
Proof. vm_compute. split; [reflexivity|]. by eexists. Qed.

(** ** What reconciliation reads is not what it changes *)

(** Nodes and router IDs of the devices. *)
Definition skel (t : Top) : gmap string (string * Z) :=
  (fun d => (dNode d, dRouterID d)) <$> tDevices t.

Lemma skel_alter f dev t : skel (setDevices (alter (setIfaces f) dev) t) = skel t.
Proof.
  unfold skel. simpl. apply map_eq. intros id. rewrite !lookup_fmap.
  destruct (decide (id = dev)) as [->|].
  - rewrite lookup_alter_eq. by destruct (tDevices t !! dev).
  - by rewrite lookup_alter_ne.
Qed.

Lemma skel_clear s t : skel (clearServiceLinks s t) = skel t.
Proof.
  unfold clearServiceLinks. destruct (replicaDevices s) as [|d0 devs]; [done|].
  cbn [tLinks]. unfold setLinks, skel. cbn [tDevices].
  generalize (tLinks t) at 1. intros ls. fold (skel t). revert t.
  induction ls as [|l ls IH]; intros t; simpl; [done|].
  destruct (touches _ _); [|apply IH]. etransitivity; [apply IH|].
  unfold removeIface. rewrite !skel_alter. done.
Qed.

Lemma clear_fold devs ls t :
  let t' := fold_left (fun t l => if touches devs l then removeIface (lB l) (removeIface (lA l) t)
                                  else t) ls t in
  tLinks t' = tLinks t /\ tServices t' = tServices t /\ tASes t' = tASes t.
Proof.
  revert t. induction ls as [|l ls IH]; intros t; simpl; [done|].
  destruct (touches devs l); [|apply IH]. by destruct (IH (removeIface (lB l) (removeIface (lA l) t))).
Qed.

Lemma clear_links s t :
  tLinks (clearServiceLinks s t) = List.filter (fun l => negb (touches (replicaDevices s) l)) (tLinks t)
  /\ tServices (clearServiceLinks s t) = tServices t /\ tASes (clearServiceLinks s t) = tASes t.
Proof.
  unfold clearServiceLinks. destruct (replicaDevices s) as [|d0 devs] eqn:E.
  - split; [|done]. assert (forall l, touches [] l = false) as Ht.
    { intros l. unfold touches. by rewrite !bool_decide_false by apply not_elem_of_nil. }
    induction (tLinks t) as [|l ls IH]; [done|]. cbn [List.filter]. rewrite Ht. cbn [negb]. by rewrite <- IH.
  - destruct (clear_fold (d0 :: devs) (tLinks t) t) as (H1 & H2 & H3).
    cbn [setLinks tLinks tServices tASes]. by rewrite H1.
Qed.

Section Rewire.
Context (addressing : Addressing) (byAS : gmap Z string).
Context (key : string) (s : Service) (a : ServiceAttach).
Context (choices : gmap Z ServiceReplica) (shards : gmap Z string).

(** The replica reconciliation picks for an AS. *)
Definition pick (sk : gmap string (string * Z)) (asn : Z) : option ServiceReplica :=
  '(n, _) ← sk !! DeviceID asn (atRouter a);
  chosen s choices shards asn (if decide (n = "") then lookup_or "" byAS asn else n).

(** The cable from an AS's router to a replica's device. *)
Definition cable (sk : gmap string (string * Z)) (asn : Z) (l : SLink) : Prop :=
  exists r dev, pick sk asn = Some r /\ repDevice r = Some dev
    /\ (lA l).1 = DeviceID asn (atRouter a) /\ (lB l).1 = dev.

Lemma attachOne_spec name asn router subnet r dev t t' :
  attachOne name a asn router subnet r dev t = (t', Ok tt) ->
  skel t' = skel t /\ tServices t' = tServices t
  /\ exists l, tLinks t' = tLinks t ++ [l]
               /\ (lA l).1 = DeviceID asn (atRouter a) /\ (lB l).1 = dev.
Proof.
  unfold attachOne. unfold mbind, SE_bind, get, modify, fail.
  destruct (serviceHostPair subnet) as [ra sa].
  destruct (uniqueAttachmentIface _ _ _) as [rname|]; [|done]. intros [= <-].
  split; [|split; [done|by eexists]].
  unfold AddIface. etransitivity; [|apply (skel_alter (fun l => merge_sort ifaceLe (l ++ [
    mkSIface (tFresh t) rname ra (MAC (tName t) (DeviceID asn (atRouter a)) rname)]))
      (DeviceID asn (atRouter a)) t)].
  apply (skel_alter (fun l => merge_sort ifaceLe (l ++ [mkSIface (S (tFresh t)) ("as" +:+ itoa asn) sa
    (MAC (tName t) dev ("as" +:+ itoa asn))])) dev (AddIface _ _ t)).
Qed.

(** One AS of the loop that has a router. *)
Lemma reconcileASes_step plan asn asns t t' :
  is_Some (skel t !! DeviceID asn (atRouter a)) ->
  reconcileASes byAS key s a plan choices shards (asn :: asns) t = (t', Ok tt) ->
  exists r l t1, pick (skel t) asn = Some r /\ cable (skel t) asn l
    /\ skel t1 = skel t /\ tLinks t1 = tLinks t ++ [l] /\ tServices t1 = tServices t
    /\ reconcileASes byAS key s a plan choices shards asns (recordAttachment key asn (repID r) t1)
       = (t', Ok tt).
Proof.
  intros [[n rid] Hr]. unfold skel in Hr. rewrite lookup_fmap in Hr.
  destruct (tDevices t !! DeviceID asn (atRouter a)) as [router|] eqn:Hd; [|done].
  injection Hr as Hn Hrid.
  assert (pick (skel t) asn = chosen s choices shards asn (localNodeOf byAS asn router)) as Hp.
  { unfold pick, skel. rewrite lookup_fmap, Hd. simpl. unfold localNodeOf. done. }
  cbn [reconcileASes]. unfold mbind at 1, SE_bind at 1, get at 1. unfold DeviceInAS. rewrite Hd.
  destruct (chosen s choices shards asn (localNodeOf byAS asn router)) as [r|]; [|done].
  destruct (repDevice r) as [dev|] eqn:Hdev; [|done].
  intros (t0 & subnet & E0 & E)%bind_ok_inv.
  assert (t0 = t) as -> by (destruct plan; unfold lift, mret, SE_ret in E0; congruence).
  apply bind_ok_inv in E as (t1 & [] & E1 & E). apply bind_ok_inv in E as (t2 & [] & E2 & E).
  injection E2 as <-. apply attachOne_spec in E1 as (Hsk & Hsv & l & Hl & HA & HB).
  exists r, l, t1. rewrite Hp. repeat split; [|done..]. by exists r, dev.
Qed.

Lemma record_skel asn id t : skel (recordAttachment key asn id t) = skel t
  /\ tLinks (recordAttachment key asn id t) = tLinks t.
Proof. unfold recordAttachment. by destruct (tServices t !! key). Qed.

(** What the loop has recorded for the service. *)
Definition attachmentsOf (t : Top) : option (gmap Z string) := sAttachments <$> tServices t !! key.

Lemma record_attachments asn id t :
  attachmentsOf (recordAttachment key asn id t) = <[asn := id]> <$> attachmentsOf t.
Proof.
  unfold attachmentsOf, recordAttachment. destruct (tServices t !! key) eqn:E.
  - simpl. by rewrite lookup_insert_eq.
  - by rewrite E.
Qed.

Lemma reconcileASes_spec plan asns t t' :
  (forall asn, asn ∈ asns -> is_Some (skel t !! DeviceID asn (atRouter a))) ->
  reconcileASes byAS key s a plan choices shards asns t = (t', Ok tt) ->
  skel t' = skel t
  /\ (exists new, tLinks t' = tLinks t ++ new /\ Forall2 (cable (skel t)) asns new)
  /\ attachmentsOf t' =
     (fun m => fold_left (fun m asn => match pick (skel t) asn with
                                       | Some r => <[asn := repID r]> m
                                       | None => m
                                       end) asns m) <$> attachmentsOf t.
Proof.
  revert t. induction asns as [|asn asns IH]; intros t Hr E.
  - injection E as <-. split; [done|]. split; [exists []; by rewrite app_nil_r|].
    by destruct (attachmentsOf t).
  - apply reconcileASes_step in E as (r & l & t1 & Hp & Hc & Hsk & Hl & Hsv & E); [|apply Hr; left].
    destruct (record_skel asn (repID r) t1) as [R1 R2].
    apply IH in E as (I1 & (new & I2 & I3) & I4).
    2: { intros x Hx. rewrite R1, Hsk. apply Hr. by right. }
    rewrite R1, Hsk in *. split; [done|]. split.
    + exists (l :: new). rewrite I2, R2, Hl, <- app_assoc. split; [done|]. by constructor.
    + rewrite I4, record_attachments. simpl. rewrite Hp. unfold attachmentsOf. rewrite Hsv.
      by destruct (tServices t !! key).
Qed.
End Rewire.

Lemma append_cancel_r a b x : a +:+ x = b +:+ x -> a = b.
Proof.
  intros E%(f_equal String.rev). rewrite !rev_append in E. apply (inj (String.app _)) in E.
  apply (f_equal String.rev) in E. by rewrite !rev_involutive in E.
Qed.

Lemma DeviceID_inj x y name : DeviceID x name = DeviceID y name -> x = y.
Proof.
  unfold DeviceID. destruct (Z.eqb_spec x 0), (Z.eqb_spec y 0); intros E; try lia; try discriminate.
  apply (inj (String.app "as")), append_cancel_r in E. by apply (inj pretty) in E.
Qed.

(** Selection by shard reads the region and the node of the ASes only. *)
Lemma shardTargets_ext s r r' n n' asns :
  (forall asn, r asn = r' asn) -> (forall asn, n asn = n' asn) ->
  shardTargets s r n asns = shardTargets s r' n' asns.
Proof.
  intros Hr Hn. unfold shardTargets. case_match; [done|]. f_equal. apply list_omap_ext.
  apply Forall_Forall2_diag, Forall_forall. intros [i asn] _. unfold shardTarget.
  by rewrite Hr, Hn.
Qed.

Section ReadOnly.
Context (t t1 : Top) (Hsk : skel t1 = skel t) (Has : tASes t1 = tASes t).

Lemma skel_device id : dNode <$> tDevices t1 !! id = dNode <$> tDevices t !! id.
Proof.
  pose proof (f_equal (fun m => fst <$> m !! id) Hsk) as H. unfold skel in H.
  rewrite !lookup_fmap in H. by destruct (tDevices t1 !! id), (tDevices t !! id).
Qed.

Lemma eligible_skel a : eligibleASNs t1 a = eligibleASNs t a.
Proof.
  unfold eligibleASNs, SortedASNs. rewrite Has. apply filter_ext. intros asn.
  destruct (tASes t !! asn); [|done]. do 2 f_equal. unfold DeviceInAS.
  pose proof (skel_device (DeviceID asn (atRouter a))) as H.
  by destruct (tDevices t1 !! _), (tDevices t !! _).
Qed.

Lemma shardNode_skel byAS a asn : shardNode byAS t1 a asn = shardNode byAS t a asn.
Proof.
  unfold shardNode, DeviceInAS. pose proof (skel_device (DeviceID asn (atRouter a))) as H.
  destruct (tDevices t1 !! _), (tDevices t !! _); simplify_eq/=; [|done..].
  unfold localNodeOf. by rewrite H.
Qed.

Lemma regionOf_skel asn : regionOf t1 asn = regionOf t asn.
Proof. unfold regionOf. by rewrite Has. Qed.
End ReadOnly.

(** The replica reconciliation gives each AS, from the graph before it. *)
Definition picked (byAS : gmap Z string) (s : SService) (a : ServiceAttach)
    (choices : gmap Z ServiceReplica) (t : Top) (asn : Z) : option ServiceReplica :=
  pick byAS (sSvc s) a choices
    (shardTargets (sSvc s) (regionOf t) (shardNode byAS t a) (eligibleASNs t a)) (skel t) asn.

Lemma eligible_router t a asn :
  asn ∈ eligibleASNs t a -> is_Some (skel t !! DeviceID asn (atRouter a)).
Proof.
  unfold eligibleASNs. rewrite list_elem_of_In, filter_In. intros [_ H].
  destruct (tASes t !! asn); [|done]. apply andb_true_iff in H as [_ H].
  apply bool_decide_eq_true in H. unfold skel. rewrite lookup_fmap. by apply fmap_is_Some.
Qed.

Lemma NoDup_eligible t a : NoDup (eligibleASNs t a).
Proof.
  unfold eligibleASNs, SortedASNs. apply NoDup_ListNoDup, List.NoDup_filter, NoDup_ListNoDup.
  apply NoDup_sortInts. apply NoDup_fst_map_to_list.
Qed.

Lemma reconcileService_spec addressing byAS key s a choices t t' :
  reconcileService addressing byAS key s a choices t = (t', Ok tt) ->
  let sh := shardTargets (sSvc s) (regionOf t) (shardNode byAS t a) (eligibleASNs t a) in
  (exists new, tLinks t' = List.filter (fun l => negb (touches (replicaDevices s) l)) (tLinks t) ++ new
     /\ Forall2 (cable byAS (sSvc s) a choices sh (skel t)) (eligibleASNs t a) new)
  /\ attachmentsOf key t' =
     Some (fold_left (fun m asn => match picked byAS s a choices t asn with
                                   | Some r => <[asn := repID r]> m
                                   | None => m
                                   end) (eligibleASNs t a) ∅).
Proof.
  unfold reconcileService. intros (t0 & [] & E0 & E)%bind_ok_inv. injection E0 as <-.
  apply bind_ok_inv in E as (t1 & [] & E1 & E). injection E1 as <-.
  apply bind_ok_inv in E as (t2 & plan & E2 & E).
  set (t1 := setService key _ _) in *.
  assert (t2 = t1) as -> by (destruct (addressing _) as [[]|];
    unfold mret, SE_ret, fail in E2; congruence).
  unfold mbind, SE_bind, get in E.
  destruct (clear_links s t) as (Hl & Hsv & Has).
  assert (skel t1 = skel t) as Hsk by apply (skel_clear s t).
  assert (tASes t1 = tASes t) as Has1 by apply Has.
  rewrite (eligible_skel t t1 Hsk Has1 a) in E.
  rewrite (shardTargets_ext _ _ (regionOf t) _ (shardNode byAS t a)) in E
    by (intros; by apply regionOf_skel || by apply shardNode_skel).
  apply reconcileASes_spec in E as (_ & (new & I1 & I2) & I3).
  2: { intros asn Hasn. rewrite Hsk. by apply eligible_router. }
  rewrite Hsk in *. split.
  - exists new. split; [|done]. rewrite I1. f_equal. exact Hl.
  - rewrite I3. unfold attachmentsOf, t1. simpl. by rewrite lookup_insert_eq.
Qed.

Lemma attach_fold_lookup (f : Z -> option ServiceReplica) asns m x :
  fold_left (fun m asn => match f asn with Some r => <[asn := repID r]> m | None => m end) asns m !! x
  = if decide (x ∈ asns) then match f x with Some r => Some (repID r) | None => m !! x end
    else (m : gmap Z string) !! x.
Proof.
  revert m. induction asns as [|asn asns IH]; intros m; simpl; [done|].
  rewrite IH. destruct (decide (x = asn)) as [->|Hne].
  - rewrite (decide_True (P := asn ∈ asn :: asns)) by left.
    destruct (f asn); [rewrite lookup_insert_eq|]; by case_decide.
  - assert (forall r, <[asn := r]> m !! x = m !! x) as Hi by (intros; by rewrite lookup_insert_ne).
    destruct (decide (x ∈ asns)).
    + rewrite (decide_True (P := x ∈ asn :: asns)) by (by right).
      destruct (f x); [done|]. destruct (f asn); [apply Hi|done].
    + rewrite (decide_False (P := x ∈ asn :: asns)) by set_solver.
      destruct (f asn); [apply Hi|done].
Qed.

(** The cables a service has at the router of an AS. *)
Definition cablesAt (s : SService) (a : ServiceAttach) (asn : Z) (ls : list SLink) : list SLink :=
  List.filter (fun l => bool_decide ((lA l).1 = DeviceID asn (atRouter a))
                        && touches (replicaDevices s) l) ls.

Lemma cablesAt_untouched s a asn ls :
  cablesAt s a asn (List.filter (fun l => negb (touches (replicaDevices s) l)) ls) = [].
Proof.
  unfold cablesAt. induction ls as [|l ls IH]; [done|]. cbn [List.filter].
  destruct (touches (replicaDevices s) l) eqn:E; cbn [negb]; [done|]. cbn [List.filter].
  rewrite E, andb_false_r. done.
Qed.

Lemma cablesAt_app s a asn x y : cablesAt s a asn (x ++ y) = cablesAt s a asn x ++ cablesAt s a asn y.
Proof. apply List.filter_app. Qed.

Section Cables.
Context (byAS : gmap Z string) (s : SService) (a : ServiceAttach).
Context (choices : gmap Z ServiceReplica) (sh : gmap Z string) (sk : gmap string (string * Z)).
Hypothesis Hchoices : forall asn r, choices !! asn = Some r -> r ∈ svcReplicas (sSvc s).
Let cab := cable byAS (sSvc s) a choices sh sk.

Lemma picked_in asn r : pick byAS (sSvc s) a choices sh sk asn = Some r -> r ∈ svcReplicas (sSvc s).
Proof.
  unfold pick. destruct (sk !! _) as [[n ?]|]; [|done]. simpl. unfold chosen.
  destruct (choices !! asn) eqn:E; [intros [= <-]; eauto|]. generalize (if decide (n = "") then
    lookup_or "" byAS asn else n). intros local. unfold attachmentReplica.
  assert (forall k l r, (forall x, x ∈ l -> x ∈ svcReplicas (sSvc s)) ->
    rendezvous k l = Some r -> r ∈ svcReplicas (sSvc s)) as Hr.
  { intros k l r0 Hl Er. destruct (rendezvous_best k l) as (r' & E' & [Hin _]); [by intros ->|].
    simplify_eq. auto. }
  assert (forall x, x ∈ SortedReplicas (svcReplicas (sSvc s)) -> x ∈ svcReplicas (sSvc s)) as Hs
    by (intros x; by rewrite SortedReplicas_perm).
  destruct (List.filter _ _) as [|x local'] eqn:El.
  - case_decide; [by apply Hr|]. unfold Replica. destruct (List.find _ _) eqn:Ef; [|by apply Hr].
    intros [= <-]. apply List.find_some in Ef as [Hin _]. by apply list_elem_of_In.
  - apply Hr. rewrite <- El. intros y. rewrite list_elem_of_In, filter_In, <- list_elem_of_In.
    intros []. auto.
Qed.

Lemma cable_touches asn l : cab asn l -> touches (replicaDevices s) l = true.
Proof.
  intros (r & dev & Hp & Hd & _ & Hb). unfold touches. apply orb_true_iff. right.
  apply bool_decide_eq_true. rewrite Hb. unfold replicaDevices. apply list_elem_of_omap.
  exists r. split; [by eapply picked_in|done].
Qed.

Lemma cables_untouched asns new :
  Forall2 cab asns new -> List.filter (fun l => negb (touches (replicaDevices s) l)) new = [].
Proof.
  induction 1 as [|asn l asns new Hc _ IH]; [done|]. cbn [List.filter].
  by rewrite (cable_touches _ _ Hc).
Qed.

Lemma cables_absent asns new asn :
  Forall2 cab asns new -> asn ∉ asns -> cablesAt s a asn new = [].
Proof.
  unfold cablesAt. induction 1 as [|x l asns new Hc _ IH]; intros Hin; [done|]. cbn [List.filter].
  destruct Hc as (r & dev & _ & _ & Ha & _). rewrite Ha, bool_decide_false.
  - simpl. apply IH. set_solver.
  - intros E%DeviceID_inj. set_solver.
Qed.

Lemma cables_one asns new asn :
  Forall2 cab asns new -> NoDup asns -> asn ∈ asns -> exists l, cablesAt s a asn new = [l] /\ cab asn l.
Proof.
  induction 1 as [|x l asns new Hc Hf IH]; intros Hnd Hin; [set_solver|].
  apply NoDup_cons in Hnd as [Hx Hnd]. unfold cablesAt in *. cbn [List.filter].
  rewrite (cable_touches _ _ Hc), andb_true_r.
  destruct Hc as (r & dev & Hp & Hd & Ha & Hb). rewrite Ha.
  destruct (decide (x = asn)) as [->|Hne].
  - rewrite bool_decide_true by done. exists l. split; [|by exists r, dev]. f_equal.
    by apply (cables_absent asns).
  - rewrite bool_decide_false by (by intros ?%DeviceID_inj). apply IH; set_solver.
Qed.
End Cables.

(** C37. Rewiring a replicated service is exact: when it succeeds, the router of
    every eligible AS has one and only one cable to the service, it ends at the
    device of the replica chosen for that AS, which is also the recorded
    attachment; no other AS is recorded; and the links of everything else are
    the ones that were there, in their order. *)
Theorem reconcile_one_cable_per_AS (addressing : Addressing) (byAS : gmap Z string) (key : string)
    (s : SService) (a : ServiceAttach) (choices : gmap Z ServiceReplica) (t t' : Top) :
  (forall asn r, choices !! asn = Some r -> r ∈ svcReplicas (sSvc s)) ->
  reconcileService addressing byAS key s a choices t = (t', Ok tt) ->
  (forall asn, asn ∈ eligibleASNs t a ->
     exists r dev l, picked byAS s a choices t asn = Some r /\ repDevice r = Some dev
       /\ cablesAt s a asn (tLinks t') = [l] /\ (lB l).1 = dev
       /\ attachmentsOf key t' ≫= (fun m => m !! asn) = Some (repID r))
  /\ (forall asn, asn ∉ eligibleASNs t a -> attachmentsOf key t' ≫= (fun m => m !! asn) = None)
  /\ List.filter (fun l => negb (touches (replicaDevices s) l)) (tLinks t')
     = List.filter (fun l => negb (touches (replicaDevices s) l)) (tLinks t).
Proof.
  intros Hch E. apply reconcileService_spec in E as ((new & Hl & Hc) & Ha).
  rewrite Ha, Hl. cbn [mbind option_bind]. split; [|split].
  - intros asn Hin. destruct (cables_one byAS s a choices _ _ Hch _ _ asn Hc (NoDup_eligible t a) Hin)
      as (l & H1 & r & dev & Hp & Hd & _ & Hb).
    exists r, dev, l. split; [done|]. split; [done|]. split.
    + by rewrite cablesAt_app, cablesAt_untouched, H1.
    + split; [done|]. rewrite attach_fold_lookup, decide_True by done. unfold picked. by rewrite Hp.
  - intros asn Hin. by rewrite attach_fold_lookup, decide_False.
  - rewrite List.filter_app, (cables_untouched byAS s a choices _ _ Hch _ _ Hc), app_nil_r.
    clear. induction (tLinks t) as [|l ls IH]; [done|]. cbn [List.filter].
    destruct (touches _ l) eqn:E; cbn [negb]; [done|]. cbn [List.filter]. rewrite E. cbn [negb]. by rewrite IH.
Qed.

(** ** Failing closed *)

Lemma healthyChoices_fail byAS t s a health asns asn router :
  asn ∈ asns -> DeviceInAS t asn (atRouter a) = Some router ->
  (forall e, SelectHealthyReplica s asn (localNodeOf byAS asn router) health <> Ok e) ->
  exists e, healthyChoices byAS t s a health asns = Err e.
Proof.
  induction asns as [|x asns IH]; intros Hin Hr Hs; [set_solver|]. simpl.
  destruct (decide (x = asn)) as [->|].
  - rewrite Hr. destruct (SelectHealthyReplica _ _ _ _) eqn:E; [by destruct (Hs a0)|eauto].
  - destruct IH as [e He]; [set_solver|done..|]. rewrite He.
    destruct (DeviceInAS t x (atRouter a)); [|by exists e].
    destruct (SelectHealthyReplica s x (localNodeOf byAS x s0) health); [by exists e|by eexists].
Qed.

Lemma allChoices_fail byAS t health names name s a :
  name ∈ names -> scalable t name = Some (s, a) ->
  (exists e, healthyChoices byAS t (sSvc s) a health (eligibleASNs t a) = Err e) ->
  exists e, allChoices byAS t health names = Err e.
Proof.
  intros Hin Hs [e He]. induction names as [|x names IH]; [set_solver|]. simpl.
  destruct (decide (x = name)) as [->|]; [rewrite Hs, He; eauto|].
  destruct IH as [e' He']; [set_solver|]. rewrite He'.
  destruct (scalable t x) as [[s' a']|]; [|by exists e'].
  destruct (healthyChoices byAS t (sSvc s') a' health (eligibleASNs t a')); by eexists.
Qed.

(** Failing closed leaves the graph alone: if some eligible AS of some
    replicated service has no replica known to be healthy, the health pass
    returns an error and not one cable, of any service, has been touched. *)
Theorem unhealthy_service_rewires_nothing (addressing : Addressing) (byAS : gmap Z string)
    (fuel : nat) (health : gmap string bool) (t : Top) (name : string) (s : SService)
    (a : ServiceAttach) (asn : Z) :
  scalable t name = Some (s, a) -> asn ∈ eligibleASNs t a ->
  NoDup (ids (svcReplicas (sSvc s))) ->
  (forall r, r ∈ svcReplicas (sSvc s) -> isHealthy health (repID r) = false) ->
  exists e, ReconcileHealthyAttachments addressing byAS fuel health t = (t, Err e).
Proof.
  intros Hs Hasn Hids Hall.
  assert (svcReplicas (sSvc s) <> []) as Hne.
  { unfold scalable in Hs. destruct (tServices t !! name) as [s0|]; [|done]. simpl in Hs.
    destruct (svcReplicas (sSvc s0)) eqn:E; [done|]. destruct (sAttach s0); [|done].
    injection Hs as <- <-. by rewrite E. }
  destruct (eligible_router t a asn Hasn) as [x Hx]. unfold skel in Hx. rewrite lookup_fmap in Hx.
  apply fmap_Some in Hx as (router & Hr & _).
  assert (exists e, allChoices byAS t health (SortedServiceNames t) = Err e) as [e He].
  { eapply allChoices_fail; [|done|].
    - unfold scalable in Hs. destruct (tServices t !! name) as [s0|] eqn:E; [|done].
      apply elem_of_sortStrings, list_elem_of_fmap. exists (name, s0). split; [done|].
      by apply elem_of_map_to_list.
    - eapply healthyChoices_fail; [done|done|]. intros r E.
      apply SelectHealthyReplica_sound_ok in E as [??]; [|done..]. by rewrite Hall in *. }
  exists e. unfold ReconcileHealthyAttachments, mbind, SE_bind, get, lift. by rewrite He.
Qed.

(** ** A concrete lab: two student ASes and a DNS service with two replicas *)

Definition demoReplicas : list ServiceReplica :=
  [mkReplica "dns/n1" "n1" (Some "svc/dns-n1"); mkReplica "dns/n2" "n2" (Some "svc/dns-n2")].
Definition demoSvc : SService :=
  mkSService (mkService "dns" demoReplicas None (mkPolicy ServicePerNode 0 0 "as"))
    (Some (mkAttach "" "R1" "dns")) ∅.
Definition demoAttach : ServiceAttach := mkAttach "" "R1" "dns".
Definition demoTop : Top :=
  mkTop "lab" ["n1"; "n2"]
    {[1 := mkSAS "student" "t" "" ""; 2 := mkSAS "student" "t" "" ""; 80 := mkSAS "ixp" "" "" ""]}
    {["as1/R1" := mkSDevice "n1" 1 []; "as2/R1" := mkSDevice "n2" 1 [];
      "svc/dns-n1" := mkSDevice "n1" 0 []; "svc/dns-n2" := mkSDevice "n2" 0 []]}
    {["dns" := demoSvc]} [] 0.
Definition noAddressing : Addressing := fun _ => None.

Lemma reconcile_one_cable_per_AS_witness :
  exists t', reconcileService noAddressing ∅ "dns" demoSvc demoAttach ∅ demoTop = (t', Ok tt)
  /\ 2 ∈ eligibleASNs demoTop demoAttach
  /\ exists l, cablesAt demoSvc demoAttach 2 (tLinks t') = [l] /\ (lB l).1 = "svc/dns-n2".
Proof.
  destruct (reconcileService noAddressing ∅ "dns" demoSvc demoAttach ∅ demoTop) as [t' r] eqn:E.
  assert (r = Ok tt) as -> by (vm_compute in E; congruence).
  exists t'. split; [reflexivity|].
  assert (2 ∈ eligibleASNs demoTop demoAttach) as Hin
    by (apply (bool_decide_eq_true_1 _); vm_compute; reflexivity).
  split; [exact Hin|].
  destruct (reconcile_one_cable_per_AS noAddressing ∅ "dns" demoSvc demoAttach ∅ demoTop t'
    ltac:(intros asn r; rewrite lookup_empty; discriminate) E) as [H _].
  destruct (H 2 Hin) as (r & dev & l & Hp & Hd & Hl & Hb & _). exists l. split; [exact Hl|].
  rewrite Hb. vm_compute in Hp. injection Hp as <-. simpl in Hd. congruence.
Defined.

Lemma unhealthy_service_rewires_nothing_witness :
  exists e, ReconcileHealthyAttachments noAddressing ∅ 100 {["dns/n1" := false]} demoTop
            = (demoTop, Err e).
Proof.
  apply (unhealthy_service_rewires_nothing noAddressing ∅ 100 {["dns/n1" := false]} demoTop
    "dns" demoSvc demoAttach 1).
  - reflexivity.
  - apply (bool_decide_eq_true_1 _). vm_compute. reflexivity.
  - apply (bool_decide_eq_true_1 _). vm_compute. reflexivity.
  - apply (proj1 (Forall_forall (fun r => isHealthy {["dns/n1" := false]} (repID r) = false) _)).
    repeat constructor.
Defined.
