(* ===== verification/Grading.v ===== *)
(** * Grading: check results, marks and class summaries

    Models the scoring rules of [internal/grade/rubric.go] and
    [internal/grade/report.go]: what a check's result can be, how a question is
    marked from its checks, how dependencies and reviews propagate through a
    report, when a rubric is valid, and what a class summary is computed from.
    Marks are IEEE binary64 as in the source. Explanatory texts of notes and
    errors are kept as data (the names they list), not as sentences. *)

From stdpp Require Import base gmap strings list fin_maps sorting.
From Stdlib Require Import ZArith Lia SpecFloat Ascii.
From S2P Require Import Prelude Text Alloc Capacity.

Open Scope Z_scope.

Definition fone : float64 := fint 1.
(** The constants 0.999, 1.001 and 0.001. *)
Definition f0999 : float64 := fconst 8998192055486251 (-53).
Definition f1001 : float64 := fconst 2254051613498933 (-51).
Definition f0001 : float64 := fconst 1152921504606847 (-60).

(** ** Results of checks *)

Inductive Status :=
| StatusPass | StatusFail | StatusPartial | StatusSkipped | StatusError
| StatusNotApplicable | StatusUnsupported.
#[export] Instance Status_eq_dec : EqDecision Status.
Proof. solve_decision. Defined.

Record Result := mkResult {
  resCheck : string; resStatus : Status; resScore : float64;
  resErr : string; resReduced : list string
}.

Definition Passed (r : Result) : bool := bool_decide (resStatus r = StatusPass).
Definition Pass (check : string) : Result := mkResult check StatusPass fone "" [].
Definition Fail_ (check : string) : Result := mkResult check StatusFail fzero "" [].
Definition Partial (check : string) (score : float64) : Result :=
  let score := if flt score fzero then fzero else score in
  let score := if flt fone score then fone else score in
  let st := if feq score fzero then StatusFail
            else if feq score fone then StatusPass else StatusPartial in
  mkResult check st score "" [].
Definition Errored (check err : string) : Result := mkResult check StatusError fzero err [].
Definition NotApplicable (check : string) : Result := mkResult check StatusNotApplicable fzero "" [].
Definition Unsupported (check err : string) : Result := mkResult check StatusUnsupported fzero err [].

(** ** Rubrics *)

Record CheckSpec := mkCheckSpec { csCheck : string; csWeight : float64 }.
Record QuestionSpec := mkQuestion {
  qID : string; qTitle : string; qPoints : float64; qChecks : list CheckSpec;
  qDependsOn : list string
}.
Record Rubric := mkRubric {
  rubKind : string; rubName : string; rubTotal : float64;
  rubInteriorKinds : list string; rubQuestions : list QuestionSpec
}.

Definition weightOf (c : CheckSpec) : float64 := if feq (csWeight c) fzero then fone else csWeight c.

(** [MaxTotal]. *)
Definition MaxTotal (r : Rubric) : float64 :=
  fold_left (fun t q => fadd t (qPoints q)) (rubQuestions r) fzero.

Inductive Problem :=
| PKind | PNoQuestions
| PUnknownInterior (kind : string) | PRepeatedInterior (kind : string)
| PNoID (i : nat) | PDeclaredTwice (id : string) | PNoPoints (id : string) | PNoChecks (id : string)
| PUnregistered (id : string) (j : nat) (check : string) | PWeights (id : string)
| PUndeclared (id dep : string) | PSelf (id : string) | PGradedAfter (id dep : string)
| PTotal.

Section Validate.
(** The registries of checks and of interior generators, filled at start. *)
Context (registered : string -> bool) (validKind : string -> bool).

Fixpoint interiorProblems (seen : list string) (kinds : list string) : list Problem :=
  match kinds with
  | [] => []
  | kind :: kinds =>
      (if negb (validKind kind) then [PUnknownInterior kind]
       else if bool_decide (kind ∈ seen) then [PRepeatedInterior kind] else [])
      ++ interiorProblems (kind :: seen) kinds
  end.

Definition weightSum (q : QuestionSpec) : float64 :=
  fold_left (fun t c => fadd t (weightOf c)) (qChecks q) fzero.

Definition questionProblems (i : nat) (seen : list string) (q : QuestionSpec) : list Problem :=
  (if decide (qID q = "") then [PNoID i] else [])
  ++ (if bool_decide (qID q ∈ seen) then [PDeclaredTwice (qID q)] else [])
  ++ (if fle (qPoints q) fzero then [PNoPoints (qID q)] else [])
  ++ (if decide (qChecks q = []) then [PNoChecks (qID q)] else [])
  ++ concat (imap (fun j c => if registered (csCheck c) then []
                             else [PUnregistered (qID q) j (csCheck c)]) (qChecks q))
  ++ (if negb (bool_decide (qChecks q = [])) && (flt (weightSum q) f0999 || flt f1001 (weightSum q))
      then [PWeights (qID q)] else []).

Fixpoint questionsProblems (i : nat) (seen : list string) (qs : list QuestionSpec) : list Problem :=
  match qs with
  | [] => []
  | q :: qs => questionProblems i seen q ++ questionsProblems (S i) (qID q :: seen) qs
  end.

(** [position]: the last declaration of an ID wins, an absent one is 0. *)
Definition position (qs : list QuestionSpec) : gmap string nat :=
  fold_left (fun m '(i, q) => <[qID q := i]> m) (imap pair qs) ∅.

Definition depProblem (qs : list QuestionSpec) (i : nat) (q : QuestionSpec) (dep : string)
    : list Problem :=
  if negb (bool_decide (dep ∈ map qID qs)) then [PUndeclared (qID q) dep]
  else if bool_decide (dep = qID q) then [PSelf (qID q)]
  else if bool_decide (i < lookup_or 0%nat (position qs) dep)%nat then [PGradedAfter (qID q) dep]
  else [].

Definition depProblems (qs : list QuestionSpec) : list Problem :=
  concat (imap (fun i q => concat (map (depProblem qs i q) (qDependsOn q))) qs).

Definition Validate (r : Rubric) : list Problem :=
  (if negb (bool_decide (rubKind r = "")) && negb (bool_decide (rubKind r = "Rubric"))
   then [PKind] else [])
  ++ (if decide (rubQuestions r = []) then [PNoQuestions] else [])
  ++ interiorProblems [] (rubInteriorKinds r)
  ++ questionsProblems 0 [] (rubQuestions r)
  ++ depProblems (rubQuestions r)
  ++ (if flt fzero (rubTotal r)
         && (flt (MaxTotal r) (fsub (rubTotal r) f0001) || flt (fadd (rubTotal r) f0001) (MaxTotal r))
      then [PTotal] else []).
End Validate.

(** [ValidateTopology]: the ASes whose interior the rubric does not support,
    in AS order; a legacy AS is explicit. *)
Definition unsupportedASes (r : Rubric) (ases : list (Z * string)) : list (Z * string) :=
  if decide (rubInteriorKinds r = []) then []
  else List.filter (fun '(_, kind) => negb (bool_decide (kind ∈ rubInteriorKinds r)))
         (map (fun '(asn, kind) => (asn, if decide (kind = "") then "explicit" else kind)) ases).

(** ** Marking a question *)

(** Whether a result says something about the submission. *)
Definition assessed (r : Result) : bool :=
  negb (bool_decide (resStatus r = StatusError)
        || bool_decide (resStatus r = StatusNotApplicable)
        || bool_decide (resStatus r = StatusUnsupported)).

(** The loop of [awardFor] over the checks that have a result. *)
Fixpoint awardLoop (cs : list CheckSpec) (rs : list Result) (awarded weight : float64)
    : float64 * float64 :=
  match cs, rs with
  | c :: cs, r :: rs =>
      if assessed r
      then awardLoop cs rs (fadd awarded (fmul (weightOf c) (resScore r))) (fadd weight (weightOf c))
      else awardLoop cs rs awarded weight
  | _, _ => (awarded, weight)
  end.

Definition awardFor (q : QuestionSpec) (rs : list Result) : float64 :=
  let '(awarded, weight) := awardLoop (qChecks q) rs fzero fzero in
  if feq weight fzero then fzero else fmul (fdiv awarded weight) (qPoints q).

Definition statusFor (fraction : float64) : Status :=
  if fle f0999 fraction then StatusPass
  else if fle fraction f0001 then StatusFail else StatusPartial.

(** The notes of a question, by the names they list. *)
Inductive Note :=
| NReduced (what : list string) | NBroken (checks : list string)
| NUnsupported (checks : list string) | NInapplicable (n : nat).

Record QuestionResult := mkQR {
  qrID : string; qrTitle : string; qrPoints : float64; qrAwarded : float64; qrStatus : Status;
  qrResults : list Result; qrSkipped : option string; qrNeedsReview : bool; qrNotes : list Note
}.

Definition checksWith (st : Status) (rs : list Result) : list string :=
  map resCheck (List.filter (fun r => bool_decide (resStatus r = st)) rs).

(** Evidence a scored check went without. *)
Definition reducedOf (rs : list Result) : list string :=
  concat (map (fun r => if bool_decide (resReduced r = []) || fle (resScore r) fzero then []
                        else map (fun why => resCheck r +:+ ": " +:+ why) (resReduced r)) rs).

Definition questionResult (q : QuestionSpec) (rs : list Result) : QuestionResult :=
  let broken := checksWith StatusError rs in
  let unsupported := checksWith StatusUnsupported rs in
  let inapplicable := length (checksWith StatusNotApplicable rs) in
  let awarded := awardFor q rs in
  let fraction := if flt fzero (qPoints q) then fdiv awarded (qPoints q) else fzero in
  let n := length (qChecks q) in
  let st := statusFor fraction in
  let st := if bool_decide (broken <> []) && Nat.eqb (length broken) n then StatusError else st in
  let st := if bool_decide (unsupported <> []) && Nat.eqb (length unsupported + length broken) n
            then StatusUnsupported else st in
  let none := Nat.eqb (length broken + length unsupported + inapplicable) n
              && Nat.ltb 0 inapplicable && Nat.eqb (length unsupported) 0 in
  let st := if none then StatusError else st in
  let reduced := reducedOf rs in
  mkQR (qID q) (qTitle q) (qPoints q) awarded st rs None
    (bool_decide (reduced <> []) || bool_decide (broken <> []) || bool_decide (unsupported <> []) || none)
    ((if decide (reduced = []) then [] else [NReduced (sortStrings reduced)])
     ++ (if decide (broken = []) then [] else [NBroken (sortStrings broken)])
     ++ (if decide (unsupported = []) then [] else [NUnsupported (sortStrings unsupported)])
     ++ (if none then [NInapplicable n] else [])).

(** ** A report *)

Record Report := mkReport {
  repSubmission : string; repAttempt : string; repAS : Z; repTotal : float64; repMaxTotal : float64;
  repQuestions : list QuestionResult; repWarnings : list string; repErr : string;
  repNeedsReview : bool
}.

(** The code returns the first blocker's id, the empty string standing for none. *)
Definition unmetDependency (q : QuestionSpec) (earned : gmap string float64) : option string :=
  match List.find (fun dep => match earned !! dep with Some v => fle v fzero | None => false end)
          (qDependsOn q) with
  | Some dep => if decide (dep = "") then None else Some dep
  | None => None
  end.

Definition skippedResult (q : QuestionSpec) (blocker : string) : QuestionResult :=
  mkQR (qID q) (qTitle q) (qPoints q) fzero StatusSkipped [] (Some blocker) false [].

(** The scoring loop of [Run]: the questions in order, with what the earlier
    ones earned, and whether one needs review. *)
Fixpoint scoreQuestions (qs : list QuestionSpec) (sets : list (list Result))
    (earned : gmap string float64) : list QuestionResult * bool :=
  match qs with
  | [] => ([], false)
  | q :: qs =>
      let rs := hd [] sets in
      match unmetDependency q earned with
      | Some blocker =>
          let '(rest, review) := scoreQuestions qs (tl sets) (<[qID q := fzero]> earned) in
          (skippedResult q blocker :: rest, review)
      | None =>
          let qr := questionResult q rs in
          let '(rest, review) := scoreQuestions qs (tl sets) (<[qID q := qrAwarded qr]> earned) in
          (qr :: rest, qrNeedsReview qr || review)
      end
  end.

(** [notGraded]. *)
Definition notGraded (rep : Report) (why : string) : Report :=
  mkReport (repSubmission rep) (repAttempt rep) (repAS rep) (repTotal rep) (repMaxTotal rep)
    (repQuestions rep) (repWarnings rep) why true.

(** [Run] from the point where every check has its results: [review] and
    [warnings] come from the convergence wait, [ctxErr] from the context. *)
Definition finishReport (rep : Report) (r : Rubric) (sets : list (list Result)) (ctxErr : string)
    : Report :=
  let '(qrs, review) := scoreQuestions (rubQuestions r) sets ∅ in
  let kept := List.filter (fun q => negb (bool_decide (qrID q = ""))) qrs in
  mkReport (repSubmission rep) (repAttempt rep) (repAS rep)
    (fold_left (fun t q => fadd t (qrAwarded q)) kept (repTotal rep))
    (MaxTotal r) (repQuestions rep ++ kept) (repWarnings rep)
    (if decide (ctxErr = "") then repErr rep else ctxErr)
    (repNeedsReview rep || review).

Definition Percent (r : Report) : float64 :=
  if feq (repMaxTotal r) fzero then fzero else fdiv (fmul (fint 100) (repTotal r)) (repMaxTotal r).

Definition Identity (r : Report) : string :=
  if decide (repAttempt r = "") then repSubmission r
  else repSubmission r +:+ "@" +:+ repAttempt r.

(** ** A class *)

Definition held (r : Report) : bool := repNeedsReview r || negb (bool_decide (repErr r = "")).

Record Summary := mkSummary {
  sCount : nat; sGraded : nat; sMean : float64; sMedian : float64; sMin : float64; sMax : float64;
  sMaxTotal : float64; sReports : list (option Report); sFailCount : gmap string nat
}.

Definition maxF (a b : float64) : float64 := if flt b a then a else b.

Definition failedChecks (r : Report) : list string :=
  concat (map (fun q => map resCheck (List.filter (fun x =>
    bool_decide (resStatus x = StatusFail) || bool_decide (resStatus x = StatusPartial))
      (qrResults q))) (repQuestions r)).

Definition countFailure (m : gmap string nat) (check : string) : gmap string nat :=
  <[check := S (lookup_or 0%nat m check)]> m.

(** [sort.Float64s]: ascending, NaN first. *)
Definition isNaN (a : float64) : bool := match a with S754_nan => true | _ => false end.
Definition floatLe (a b : float64) : Prop := fle a b || isNaN a = true.
#[export] Instance floatLe_dec : RelDecision floatLe.
Proof. unfold floatLe. intros a b. apply _. Defined.

(** [base64.RawURLEncoding]: three bytes as four characters, no padding. *)
Definition b64char (n : Z) : ascii :=
  ascii_of_N (Z.to_N (if n <? 26 then 65 + n else if n <? 52 then 71 + n
                      else if n <? 62 then n - 4 else if n =? 62 then 45 else 95)).
Fixpoint b64 (l : list Z) : string :=
  match l with
  | a :: b :: c :: l =>
      String (b64char (a / 4)) (String (b64char (a mod 4 * 16 + b / 16))
        (String (b64char (b mod 16 * 4 + c / 64)) (String (b64char (c mod 64)) (b64 l))))
  | [a; b] =>
      String (b64char (a / 4)) (String (b64char (a mod 4 * 16 + b / 16))
        (String (b64char (b mod 16 * 4)) ""))
  | [a] => String (b64char (a / 4)) (String (b64char (a mod 4 * 16)) "")
  | [] => ""
  end.

Definition FileIdentity (r : option Report) : string :=
  match r with
  | None => ""
  | Some r => if decide (repAttempt r = "") then repSubmission r
              else "attempt-" +:+ b64 (bytesOf (repSubmission r +:+ nul +:+ repAttempt r))
  end.

Definition fileIdentityLe (a b : option Report) : Prop := String.le (FileIdentity a) (FileIdentity b).
#[export] Instance fileIdentityLe_dec : RelDecision fileIdentityLe.
Proof. unfold fileIdentityLe. intros a b. apply _. Defined.

Definition quarantinedReports (rs : list (option Report)) : list Report :=
  List.filter held (omap id rs).

Definition Summarise (reports : list (option Report)) : Summary :=
  let present := omap id reports in
  let maxTotal := fold_left (fun m r => maxF m (repMaxTotal r)) present fzero in
  let graded := List.filter (fun r => negb (held r)) present in
  let fails := fold_left countFailure (concat (map failedChecks graded)) ∅ in
  let scores := merge_sort floatLe (map repTotal graded) in
  let n := length scores in
  match scores with
  | [] => mkSummary (length reports) 0 fzero fzero fzero fzero maxTotal
            (merge_sort fileIdentityLe reports) fails
  | first :: _ =>
      let sum := fold_left fadd scores fzero in
      let mid := nth (n / 2) scores fzero in
      mkSummary (length reports) n (fdiv sum (fint (Z.of_nat n)))
        (if Nat.even n then fdiv (fadd (nth (n / 2 - 1) scores fzero) mid) (fint 2) else mid)
        first (List.last scores fzero) maxTotal (merge_sort fileIdentityLe reports) fails
  end.

(** ** The gradebook file *)

Definition quote : ascii := "034"%char.
Definition comma : ascii := ","%char.

(** [strings.ReplaceAll(s, "\n", " ")]. *)
Fixpoint flatten (s : string) : string :=
  match s with
  | "" => ""
  | String c s => String (if decide (c = newline) then " "%char else c) (flatten s)
  end.
(** Doubles every quote. *)
Fixpoint doubleQuotes (s : string) : string :=
  match s with
  | "" => ""
  | String c s => if decide (c = quote) then String c (String c (doubleQuotes s))
                  else String c (doubleQuotes s)
  end.
Definition csvField (s : string) : string :=
  let s := flatten s in
  if occurs comma s || occurs quote s
  then String quote (doubleQuotes s +:+ String quote "") else s.

(** The fields of a row, separated by commas. *)
Fixpoint joinComma (fields : list string) : string :=
  match fields with
  | [] => ""
  | [f] => f
  | f :: fields => f +:+ String comma (joinComma fields)
  end.

Definition firstProblem (r : Report) : string :=
  if decide (repErr r = "")
  then match repWarnings r with
       | w :: _ => w
       | [] => "grading did not complete correctly"
       end
  else repErr r.

(** The columns: every question seen in any report, in order of appearance. *)
Definition questionColumns (rs : list Report) : list string :=
  dedup (concat (map (fun r => map qrID (repQuestions r)) rs)).

Section CSV.
(** [fmt.Sprintf("%.2f", x)]. *)
Context (fmt2 : float64 -> string).

(** [byID[id]]: the last question of that ID, or zero. *)
Definition markOf (r : Report) (id : string) : float64 :=
  lookup_or fzero (fold_left (fun m q => <[qrID q := qrAwarded q]> m) (repQuestions r) ∅) id.

Definition csvRow (qids : list string) (r : Report) : string :=
  if held r
  then joinComma ([csvField (repSubmission r); csvField (repAttempt r); itoa (repAS r);
                   "needs-review"; ""; fmt2 (repMaxTotal r)]
                  ++ map (fun _ => "") qids ++ [csvField (firstProblem r)])
  else joinComma ([csvField (repSubmission r); csvField (repAttempt r); itoa (repAS r);
                   "graded"; fmt2 (repTotal r); fmt2 (repMaxTotal r)]
                  ++ map (fun id => fmt2 (markOf r id)) qids ++ [""]).

Definition csvHeader (qids : list string) : string :=
  joinComma (["submission"; "attempt"; "as"; "status"; "total"; "max"] ++ qids ++ ["note"]).

Definition CSV (reports : list Report) : list string :=
  let qids := questionColumns reports in
  csvHeader qids :: map (csvRow qids) reports.
End CSV.

(** A reader of such a row (RFC 4180): a field in quotes ends at a quote that
    is not doubled. *)
Inductive csvMode := AtStart | Plain | Quoted | QuoteSeen.
Definition snoc (s : string) (c : ascii) : string := s +:+ String c "".
Fixpoint readCSV (m : csvMode) (acc s : string) : list string :=
  match s with
  | "" => [acc]
  | String c s =>
      match m with
      | AtStart => if decide (c = quote) then readCSV Quoted acc s
                   else if decide (c = comma) then acc :: readCSV AtStart "" s
                   else readCSV Plain (snoc acc c) s
      | Plain => if decide (c = comma) then acc :: readCSV AtStart "" s
                 else readCSV Plain (snoc acc c) s
      | Quoted => if decide (c = quote) then readCSV QuoteSeen acc s
                  else readCSV Quoted (snoc acc c) s
      | QuoteSeen => if decide (c = quote) then readCSV Quoted (snoc acc c) s
                     else if decide (c = comma) then acc :: readCSV AtStart "" s
                     else readCSV Plain (snoc acc c) s
      end
  end.
Definition readRow (s : string) : list string := readCSV AtStart "" s.

(** ** Reading a row back *)

Lemma snoc_app acc c s : snoc acc c +:+ s = acc +:+ String c s.
Proof. unfold snoc. by rewrite append_assoc, append_byte. Qed.

(** What follows a field: the end of the row, or a comma and more fields. *)
Definition rest (o : option string) : string :=
  match o with None => "" | Some s => String comma s end.
Definition restFields (o : option string) : list string :=
  match o with None => [] | Some s => readRow s end.

Lemma readCSV_plain acc f o :
  occurs comma f = false -> readCSV Plain acc (f +:+ rest o) = (acc +:+ f) :: restFields o.
Proof.
  revert acc. induction f as [|c f IH]; intros acc Hf.
  - change ("" +:+ rest o) with (rest o). rewrite append_nil_r. by destruct o.
  - simpl in Hf. apply orb_false_iff in Hf as [Hc Hf]. apply bool_decide_eq_false in Hc.
    rewrite append_cons. simpl. rewrite decide_False by done. rewrite IH by done.
    by rewrite snoc_app.
Qed.

Lemma readCSV_quoted acc f o :
  readCSV Quoted acc (doubleQuotes f +:+ String quote (rest o)) = (acc +:+ f) :: restFields o.
Proof.
  revert acc. induction f as [|c f IH]; intros acc.
  - change (doubleQuotes "" +:+ ?s) with s. rewrite append_nil_r. by destruct o.
  - cbn [doubleQuotes]. case_decide; subst; rewrite !append_cons; cbn [readCSV].
    + rewrite !decide_True by done. rewrite IH. by rewrite snoc_app.
    + rewrite decide_False by done. rewrite IH. by rewrite snoc_app.
Qed.

Lemma readCSV_field f o :
  readRow (csvField f +:+ rest o) = flatten f :: restFields o.
Proof.
  unfold csvField, readRow. destruct (occurs comma (flatten f) || occurs quote (flatten f)) eqn:E.
  - rewrite append_cons, append_assoc. cbn [readCSV]. rewrite decide_True by done.
    rewrite append_byte. apply (readCSV_quoted "").
  - apply orb_false_iff in E as [Ec Eq]. destruct (flatten f) as [|c s]; [by destruct o|].
    rewrite append_cons. cbn [readCSV]. simpl in Ec, Eq.
    apply orb_false_iff in Ec as [Ec Ec'], Eq as [Eq _].
    apply bool_decide_eq_false in Ec, Eq. rewrite !decide_False by done.
    by rewrite readCSV_plain.
Qed.

Lemma readRow_join fields :
  fields <> [] -> readRow (joinComma (map csvField fields)) = map flatten fields.
Proof.
  induction fields as [|f fields IH]; [done|]. intros _.
  destruct fields as [|g fields].
  - simpl. rewrite <- (append_nil_r (csvField f)). apply (readCSV_field f None).
  - change (joinComma (map csvField (f :: g :: fields)))
      with (csvField f +:+ rest (Some (joinComma (map csvField (g :: fields))))).
    rewrite readCSV_field. unfold restFields. by rewrite IH.
Qed.

(** Text that needs no quoting is its own field. *)
Definition plainText (s : string) : Prop :=
  occurs comma s = false /\ occurs quote s = false /\ occurs newline s = false.

Lemma flatten_plain s : occurs newline s = false -> flatten s = s.
Proof.
  induction s as [|c s IH]; [done|]. simpl. intros [Hc Hs]%orb_false_iff.
  apply bool_decide_eq_false in Hc. rewrite decide_False by done. by rewrite IH.
Qed.

Lemma csvField_plain s : plainText s -> csvField s = s.
Proof. intros (Hc & Hq & Hn). unfold csvField. rewrite flatten_plain by done. by rewrite Hc, Hq. Qed.

Section RowTheorem.
Context (fmt2 : float64 -> string).
Hypothesis fmt2_plain : forall x, plainText (fmt2 x).

Lemma itoa_plain n : plainText (itoa n).
Proof. repeat split; by apply itoa_occurs. Qed.

(** The cells of a row before quoting. *)
Definition rowCells (qids : list string) (r : Report) : list string :=
  [repSubmission r; repAttempt r; itoa (repAS r)]
  ++ (if held r then ["needs-review"; ""; fmt2 (repMaxTotal r)] ++ map (fun _ => "") qids ++ [firstProblem r]
      else ["graded"; fmt2 (repTotal r); fmt2 (repMaxTotal r)]
           ++ map (fun id => fmt2 (markOf r id)) qids ++ [""]).

Lemma map_csvField_plain l : Forall plainText l -> map csvField l = l.
Proof. induction 1; [done|]. simpl. f_equal; [by apply csvField_plain|done]. Qed.
Lemma map_flatten_plain l : Forall plainText l -> map flatten l = l.
Proof.
  induction 1 as [|x l Hx _ IH]; [done|]. simpl. destruct Hx as (_ & _ & Hx).
  by rewrite flatten_plain, IH.
Qed.
Lemma marks_plain (f : string -> float64) qids : Forall plainText (map (fun id => fmt2 (f id)) qids).
Proof. apply Forall_fmap, Forall_true. intros. apply fmt2_plain. Qed.
Lemma blanks_plain (qids : list string) : Forall plainText (map (fun _ => "") qids).
Proof. by apply Forall_fmap, Forall_true. Qed.

Lemma csvRow_cells qids r : csvRow fmt2 qids r = joinComma (map csvField (rowCells qids r)).
Proof.
  unfold csvRow, rowCells. destruct (held r); f_equal; rewrite !map_app; cbn [map app];
    rewrite !(csvField_plain (fmt2 _)), (csvField_plain (itoa _)) by (apply itoa_plain || apply fmt2_plain).
  - by rewrite (map_csvField_plain _ (blanks_plain qids)).
  - by rewrite (map_csvField_plain _ (marks_plain _ qids)).
Qed.

(** The cells a reader gets: only the free text loses its newlines. *)
Definition readCells (qids : list string) (r : Report) : list string :=
  [flatten (repSubmission r); flatten (repAttempt r); itoa (repAS r)]
  ++ (if held r
      then ["needs-review"; ""; fmt2 (repMaxTotal r)] ++ map (fun _ => "") qids ++ [flatten (firstProblem r)]
      else ["graded"; fmt2 (repTotal r); fmt2 (repMaxTotal r)]
           ++ map (fun id => fmt2 (markOf r id)) qids ++ [""]).

Lemma rowCells_flatten qids r : map flatten (rowCells qids r) = readCells qids r.
Proof.
  unfold rowCells, readCells. destruct (held r); rewrite !map_app; cbn [map app];
    rewrite !(flatten_plain (fmt2 _)), (flatten_plain (itoa _)) by (apply itoa_plain || apply fmt2_plain).
  - by rewrite (map_flatten_plain _ (blanks_plain qids)).
  - by rewrite (map_flatten_plain _ (marks_plain _ qids)).
Qed.

(** A gradebook row reads back cell for cell: whatever commas, quotes or
    newlines a submission's name or an error message contains, the row has the
    columns of the header, every cell is what was written (with newlines as
    spaces), and a report held for review carries neither a total nor a mark
    for any question. *)
Theorem csv_row_reads_back (qids : list string) (r : Report) :
  readRow (csvRow fmt2 qids r) = readCells qids r
  /\ length (readCells qids r) = (7 + length qids)%nat.
Proof.
  split.
  - rewrite csvRow_cells, readRow_join, rowCells_flatten; [done|]. by destruct (held r).
  - unfold readCells. rewrite !length_app. destruct (held r);
      rewrite !length_app, length_map; simpl; lia.
Qed.
End RowTheorem.

Definition demoReport (needsReview : bool) : Report :=
  mkReport (String quote "team, a" +:+ String newline "b") "" 7 fone fone [] ["agent lost"] "" needsReview.

Lemma csv_row_reads_back_witness :
  readRow (csvRow (fun _ => "1.00") ["Q1"; "Q2"] (demoReport true))
  = [String quote "team, a b"; ""; "7"; "needs-review"; ""; "1.00"; ""; ""; "agent lost"].
Proof. apply (csv_row_reads_back (fun _ => "1.00") ltac:(done) ["Q1"; "Q2"] (demoReport true)). Defined.

(** ** File names of reports *)

Definition b64val (c : ascii) : Z :=
  let n := Z.of_N (N_of_ascii c) in
  if n =? 45 then 62 else if n =? 95 then 63 else if n <? 58 then n + 4
  else if n <? 91 then n - 65 else n - 71.

Lemma b64val_char n : 0 <= n < 64 -> b64val (b64char n) = n.
Proof.
  intros Hn. assert (forallb (fun k => b64val (b64char (Z.of_nat k)) =? Z.of_nat k) (seq 0 64) = true) as H
    by (vm_compute; reflexivity).
  rewrite forallb_forall in H. specialize (H (Z.to_nat n)). rewrite in_seq in H.
  rewrite Z2Nat.id in H by lia. apply Z.eqb_eq, H. lia.
Qed.

Lemma b64char_inj n m : 0 <= n < 64 -> 0 <= m < 64 -> b64char n = b64char m -> n = m.
Proof. intros Hn Hm E. rewrite <- (b64val_char n Hn), <- (b64val_char m Hm). by rewrite E. Qed.

Definition isByte (n : Z) : Prop := 0 <= n < 256.

Ltac b64_eq :=
  repeat match goal with
  | E : b64char ?n = b64char ?m |- _ => apply b64char_inj in E; [|Z.to_euclidean_division_equations; lia..]
  end.

Lemma b64_inj l l' : Forall isByte l -> Forall isByte l' -> b64 l = b64 l' -> l = l'.
Proof.
  unfold isByte. remember (length l) as n eqn:Hn. revert l l' Hn.
  induction (lt_wf n) as [n _ IH]. intros l l' -> Hl Hl' E.
  destruct l as [|a [|b [|c l]]], l' as [|a' [|b' [|c' l']]]; try done; try discriminate E;
    rewrite ?Forall_cons in Hl, Hl'; destruct_and?; simpl in E; simplify_eq E; intros; b64_eq.
  - repeat f_equal; Z.to_euclidean_division_equations; lia.
  - repeat f_equal; Z.to_euclidean_division_equations; lia.
  - assert (l = l') as -> by (eapply IH; [|done..]; simpl; lia).
    repeat f_equal; Z.to_euclidean_division_equations; lia.
Qed.

Lemma bytesOf_inj s t : bytesOf s = bytesOf t -> s = t.
Proof.
  revert t. induction s as [|c s IH]; intros [|d t]; simpl; try done.
  intros [= E1 E2]. f_equal; [|auto]. unfold byteOf in E1. apply (inj Z.of_N) in E1.
  rewrite <- (ascii_N_embedding c), <- (ascii_N_embedding d). by rewrite E1.
Qed.

Lemma bytesOf_bytes s : Forall isByte (bytesOf s).
Proof.
  induction s as [|c s IH]; [constructor|]. constructor; [|done]. unfold isByte, byteOf.
  pose proof (N_ascii_bounded c). lia.
Qed.

(** Reports of different attempts never overwrite each other: the file name
    of an attempt's report determines its submission and its attempt, for
    submissions whose name has no NUL byte. *)
Theorem FileIdentity_injective (r r' : Report) :
  repAttempt r <> "" -> repAttempt r' <> "" ->
  occurs "000" (repSubmission r) = false -> occurs "000" (repSubmission r') = false ->
  FileIdentity (Some r) = FileIdentity (Some r') ->
  repSubmission r = repSubmission r' /\ repAttempt r = repAttempt r'.
Proof.
  intros Ha Ha' Hs Hs' E. simpl in E. rewrite !decide_False in E by done.
  apply (inj (String.app _)), b64_inj, bytesOf_inj in E; try apply bytesOf_bytes.
  unfold nul in E. rewrite !append_byte in E. apply (f_equal (cut "000")) in E.
  rewrite !cut_app in E by done. by injection E.
Qed.

Lemma FileIdentity_injective_witness :
  FileIdentity (Some (mkReport "g1" "a2" 1 fone fone [] [] "" false))
  = "attempt-ZzEAYTI" /\
  forall r, repAttempt r <> "" -> occurs "000" (repSubmission r) = false ->
    FileIdentity (Some r) = FileIdentity (Some (mkReport "g1" "a2" 1 fone fone [] [] "" false)) ->
    repSubmission r = "g1" /\ repAttempt r = "a2".
Proof.
  split; [vm_compute; reflexivity|]. intros r Ha Hs E.
  apply (FileIdentity_injective r (mkReport "g1" "a2" 1 fone fone [] [] "" false)); [exact Ha| |exact Hs| |exact E].
  - discriminate.
  - vm_compute. reflexivity.
Defined.

(** ** Marks rest on what was assessed *)

(** A question without the checks that could not be assessed. *)
Definition keptPairs (q : QuestionSpec) (rs : list Result) : list (CheckSpec * Result) :=
  List.filter (fun '(_, r) => assessed r) (zip (qChecks q) rs).
Definition withChecks (q : QuestionSpec) (cs : list CheckSpec) : QuestionSpec :=
  mkQuestion (qID q) (qTitle q) (qPoints q) cs (qDependsOn q).

Lemma awardLoop_kept cs rs a w :
  awardLoop cs rs a w =
  awardLoop (map fst (List.filter (fun '(_, r) => assessed r) (zip cs rs)))
            (map snd (List.filter (fun '(_, r) => assessed r) (zip cs rs))) a w.
Proof.
  revert rs a w. induction cs as [|c cs IH]; intros [|r rs] a w; try done. simpl.
  destruct (assessed r) eqn:E; simpl; [rewrite E|]; apply IH.
Qed.

(** The grader's failures cost nothing: a question's mark is the mark of the
    same question with every check removed that errored, did not apply or is
    not supported; neither their number, their weight nor their score matters. *)
Theorem award_ignores_unassessed (q : QuestionSpec) (rs : list Result) :
  awardFor q rs
  = awardFor (withChecks q (map fst (keptPairs q rs))) (map snd (keptPairs q rs)).
Proof. unfold awardFor, keptPairs. simpl. by rewrite awardLoop_kept. Qed.

Lemma awardLoop_none cs rs a w :
  Forall (fun r => assessed r = false) rs -> awardLoop cs rs a w = (a, w).
Proof.
  intros H. revert cs. induction H as [|r rs Hr _ IH]; intros [|c cs]; try done. simpl.
  by rewrite Hr.
Qed.

Lemma awardFor_none q rs : Forall (fun r => assessed r = false) rs -> awardFor q rs = fzero.
Proof. intros H. unfold awardFor. by rewrite awardLoop_none. Qed.

(** How many results have each of the three statuses. *)
Lemma counts_partition rs :
  Forall (fun r => assessed r = false) rs <->
  (length (checksWith StatusError rs) + length (checksWith StatusUnsupported rs)
   + length (checksWith StatusNotApplicable rs) = length rs)%nat.
Proof.
  assert (forall l, (length (checksWith StatusError l) + length (checksWith StatusUnsupported l)
    + length (checksWith StatusNotApplicable l) <= length l)%nat) as Hle.
  { unfold checksWith. induction l as [|r l IH]; [done|]. simpl. rewrite !length_map in *.
    destruct (resStatus r); simpl; lia. }
  induction rs as [|r rs IH]; [split; [done|constructor]|].
  specialize (Hle rs). unfold checksWith in *. rewrite Forall_cons, IH. clear IH.
  rewrite !length_map in *. simpl. unfold assessed. destruct (resStatus r); simpl; lia || (split; [intros [? ?]|intros]; try done; lia).
Qed.

(** A question nothing was assessed of is never a mark: when every check
    errored, did not apply or is not supported, the question needs review and
    earns nothing, and its status says so (error or unsupported, not fail)
    unless unsupported and inapplicable checks are mixed. *)
Theorem unassessed_question_needs_review (q : QuestionSpec) (rs : list Result) :
  rs <> [] -> length rs = length (qChecks q) ->
  Forall (fun r => assessed r = false) rs ->
  let qr := questionResult q rs in
  qrAwarded qr = fzero /\ qrNeedsReview qr = true
  /\ (qrStatus qr = StatusError \/ qrStatus qr = StatusUnsupported
      \/ (checksWith StatusUnsupported rs <> [] /\ checksWith StatusNotApplicable rs <> [])).
Proof.
  intros Hne Hlen Hall. simpl. split; [by apply awardFor_none|].
  apply counts_partition in Hall. rewrite Hlen in Hall.
  assert (length (qChecks q) <> 0%nat) as Hn by (rewrite <- Hlen; by destruct rs).
  unfold questionResult. cbn [qrNeedsReview qrStatus].
  destruct (checksWith StatusError rs) as [|b bs], (checksWith StatusUnsupported rs) as [|u us],
    (checksWith StatusNotApplicable rs) as [|x xs]; simpl length in *;
    rewrite ?(bool_decide_true (_ :: _ <> [])), ?(bool_decide_false ([] <> [])) by done;
    repeat match goal with |- context [Nat.eqb ?a ?b] =>
      first [rewrite (proj2 (Nat.eqb_eq a b)) by (simpl; lia)
            |rewrite (proj2 (Nat.eqb_neq a b)) by (simpl; lia)] end;
    simpl; rewrite ?orb_true_r; try lia; auto 10.
Qed.

Definition demoQ (checks : list CheckSpec) : QuestionSpec := mkQuestion "Q1" "" (fint 2) checks [].

Lemma unassessed_question_needs_review_witness :
  qrStatus (questionResult (demoQ [mkCheckSpec "a" fone]) [Errored "a" "agent lost"]) = StatusError
  /\ qrNeedsReview (questionResult (demoQ [mkCheckSpec "a" fone]) [Errored "a" "agent lost"]) = true.
Proof.
  destruct (unassessed_question_needs_review (demoQ [mkCheckSpec "a" fone])
    [Errored "a" "agent lost"]) as (_ & Hr & Hs); [discriminate|reflexivity|by repeat constructor|].
  split; [vm_compute; reflexivity|exact Hr].
Defined.

(** The mixed case is reported as a failure: with one check not supported by
    the device and the other not applicable, nothing was assessed, and the
    question's status is [StatusFail] with no marks. *)
Theorem mixed_unassessed_reported_as_fail :
  let q := demoQ [mkCheckSpec "a" (fconst 1 (-1)); mkCheckSpec "b" (fconst 1 (-1))] in
  let qr := questionResult q [Unsupported "a" "no such command"; NotApplicable "b"] in
  qrStatus qr = StatusFail /\ qrAwarded qr = fzero /\ qrNeedsReview qr = true.
Proof. vm_compute. repeat split. Qed.

(** ** Dependencies *)

Lemma concat_nil {A} (ls : list (list A)) : concat ls = [] -> forall l, l ∈ ls -> l = [].
Proof.
  induction ls as [|x ls IH]; simpl; [set_solver|]. intros [Hx Hls]%app_eq_nil l.
  rewrite elem_of_cons. intros [->|?]; auto.
Qed.

Lemma elem_of_imap_at {A B} (f : nat -> A -> B) (l : list A) i x :
  l !! i = Some x -> f i x ∈ imap f l.
Proof. intros H. apply list_elem_of_lookup. exists i. by rewrite list_lookup_imap, H. Qed.

Lemma questionsProblems_nil registered i seen qs :
  questionsProblems registered i seen qs = [] ->
  NoDup (map qID qs) /\ (forall q, q ∈ qs -> qID q ∉ seen /\ qID q <> "").
Proof.
  revert i seen. induction qs as [|q qs IH]; intros i seen H.
  - split; [constructor|set_solver].
  - simpl in H. apply app_eq_nil in H as [Hq Hqs]. unfold questionProblems in Hq.
    apply app_eq_nil in Hq as [H1 Hq]. apply app_eq_nil in Hq as [H2 _].
    case_decide; [done|]. case_bool_decide; [done|].
    destruct (IH _ _ Hqs) as [Hnd Hin]. split.
    + simpl. constructor; [|done]. intros (x & E & Hx)%list_elem_of_fmap.
      destruct (Hin x Hx) as [Hx' _]. apply Hx'. rewrite <- E. left.
    + intros x [->|Hx]%elem_of_cons; [done|]. destruct (Hin x Hx) as [Hx' ?].
      split; [|done]. intros ?. apply Hx'. by right.
Qed.

Lemma position_fold (l : list (nat * QuestionSpec)) m dep :
  NoDup (map (fun iq => qID iq.2) l) ->
  fold_left (fun m '(i, q) => <[qID q := i]> m) l m !! dep
  = match List.find (fun iq => bool_decide (qID iq.2 = dep)) l with
    | Some iq => Some iq.1
    | None => (m : gmap string nat) !! dep
    end.
Proof.
  revert m. induction l as [|[i q] l IH]; intros m Hnd; [done|]. simpl.
  simpl in Hnd. apply NoDup_cons in Hnd as [Hq Hnd]. rewrite IH by done.
  case_bool_decide as E.
  - destruct (List.find _ l) as [iq|] eqn:Hf; [|by rewrite E, lookup_insert_eq].
    apply List.find_some in Hf as [Hin Hid%bool_decide_eq_true]. destruct Hq.
    apply list_elem_of_fmap. exists iq. split; [congruence|]. by apply list_elem_of_In.
  - destruct (List.find _ l); [done|]. by rewrite lookup_insert_ne.
Qed.

(** The position of a declared question, when IDs are distinct. *)
Lemma position_lookup qs j q :
  NoDup (map qID qs) -> qs !! j = Some q -> position qs !! qID q = Some j.
Proof.
  intros Hnd Hj. unfold position. rewrite position_fold.
  2: { rewrite fmap_imap. erewrite imap_ext with (g := const qID) by done.
       by rewrite imap_const. }
  destruct (List.find _ _) as [[i q']|] eqn:Hf.
  - apply List.find_some in Hf as [Hin E%bool_decide_eq_true]. simpl in E. f_equal. simpl.
    apply list_elem_of_In, list_elem_of_lookup in Hin as [k Hk].
    rewrite list_lookup_imap in Hk. apply fmap_Some in Hk as (q'' & Hk & [= -> ->]).
    eapply (NoDup_lookup (map qID qs)); [done|rewrite list_lookup_fmap, Hk; simpl; by rewrite E|].
    by rewrite list_lookup_fmap, Hj.
  - exfalso. eapply List.find_none in Hf; [|apply list_elem_of_In, (elem_of_imap_at pair qs j q Hj)].
    simpl in Hf. by rewrite bool_decide_true in Hf.
Qed.

(** What the questions before a position have earned. *)
Definition earnedBy (qs : list QuestionSpec) (qrs : list QuestionResult) (m : gmap string float64)
    : gmap string float64 :=
  fold_left (fun m '(q, qr) => <[qID q := qrAwarded qr]> m) (zip qs qrs) m.

Definition scoreOne (q : QuestionSpec) (rs : list Result) (earned : gmap string float64)
    : QuestionResult :=
  match unmetDependency q earned with
  | Some blocker => skippedResult q blocker
  | None => questionResult q rs
  end.

Lemma scoreQuestions_cons q qs sets earned :
  let qr := scoreOne q (hd [] sets) earned in
  let rec := scoreQuestions qs (tl sets) (<[qID q := qrAwarded qr]> earned) in
  scoreQuestions (q :: qs) sets earned = (qr :: rec.1, qrNeedsReview qr || rec.2).
Proof.
  unfold scoreOne. simpl. destruct (unmetDependency q earned); simpl; by destruct (scoreQuestions _ _ _).
Qed.

(** Every question is scored from its own results and what the ones before it
    earned. *)
Lemma scoreQuestions_lookup qs sets earned i q :
  qs !! i = Some q ->
  let qrs := (scoreQuestions qs sets earned).1 in
  qrs !! i = Some (scoreOne q (nth i sets []) (earnedBy (take i qs) (take i qrs) earned)).
Proof.
  revert sets earned i. induction qs as [|q0 qs IH]; intros sets earned i Hi; [done|].
  destruct i as [|i]; simpl in Hi.
  - injection Hi as ->. rewrite scoreQuestions_cons. simpl. by destruct sets.
  - rewrite scoreQuestions_cons. cbn [fst lookup list_lookup take]. rewrite IH by done.
    f_equal. destruct sets as [|s sets]; simpl; [by destruct i|done].
Qed.

Lemma scoreQuestions_length qs sets earned : length (scoreQuestions qs sets earned).1 = length qs.
Proof.
  revert sets earned. induction qs as [|q qs IH]; intros sets earned; [done|].
  rewrite scoreQuestions_cons. simpl. by rewrite IH.
Qed.

Lemma scoreQuestions_review qs sets earned :
  (scoreQuestions qs sets earned).2 = existsb qrNeedsReview (scoreQuestions qs sets earned).1.
Proof.
  revert sets earned. induction qs as [|q qs IH]; intros sets earned; [done|].
  rewrite scoreQuestions_cons. simpl. by rewrite IH.
Qed.

Lemma earnedBy_lookup qs qrs m j q qr :
  NoDup (map qID qs) -> qs !! j = Some q -> qrs !! j = Some qr ->
  earnedBy qs qrs m !! qID q = Some (qrAwarded qr).
Proof.
  unfold earnedBy. revert qrs m j. induction qs as [|q0 qs IH]; intros qrs m j Hnd Hj Hr; [done|].
  destruct qrs as [|qr0 qrs]; [done|]. simpl in *. apply NoDup_cons in Hnd as [Hq0 Hnd].
  destruct j as [|j]; simpl in *; simplify_eq.
  - assert (forall l m, qID q ∉ map (fun qq => qID qq.1) l ->
      fold_left (fun m '(q, qr) => <[qID q := qrAwarded qr]> m) l m !! qID q = (m : gmap string float64) !! qID q) as Hf.
    { induction l as [|[a b] l IHl]; intros m' Hl; [done|]. simpl in *. rewrite IHl by set_solver.
      rewrite lookup_insert_ne by set_solver. done. }
    rewrite Hf; [by rewrite lookup_insert_eq|]. intros (qq & E & Hin)%list_elem_of_fmap. apply Hq0.
    rewrite E. apply list_elem_of_fmap. exists qq.1. split; [done|].
    destruct qq. by apply elem_of_zip_l in Hin.
  - by eapply IH.
Qed.

(** The questions a valid rubric's question depends on come before it. *)
Lemma Validate_dep registered validKind r i q dep :
  Validate registered validKind r = [] ->
  rubQuestions r !! i = Some q -> dep ∈ qDependsOn q ->
  NoDup (map qID (rubQuestions r))
  /\ dep <> ""
  /\ exists j qd, (j < i)%nat /\ rubQuestions r !! j = Some qd /\ qID qd = dep.
Proof.
  intros HV Hi Hdep. unfold Validate in HV.
  repeat match goal with H : _ ++ _ = [] |- _ => apply app_eq_nil in H as [? H] end.
  match goal with H : questionsProblems _ _ _ _ = [] |- _ =>
    apply questionsProblems_nil in H as [Hnd Hids] end.
  match goal with H : depProblems _ = [] |- _ => rename H into HD end.
  split; [done|]. unfold depProblems in HD.
  apply concat_nil with (l := concat (map (depProblem (rubQuestions r) i q) (qDependsOn q))) in HD.
  2: { by apply (elem_of_imap_at (fun i q => concat (map (depProblem (rubQuestions r) i q) (qDependsOn q)))). }
  apply concat_nil with (l := depProblem (rubQuestions r) i q dep) in HD.
  2: { apply list_elem_of_fmap. eauto. }
  unfold depProblem in HD. case_bool_decide as Hin; [|done]. simpl in HD.
  case_bool_decide as Hself; [done|]. case_bool_decide as Hpos; [done|].
  apply list_elem_of_fmap in Hin as (qd & -> & Hqd). split; [exact (proj2 (Hids _ Hqd))|].
  apply list_elem_of_lookup in Hqd as [j Hj].
  unfold lookup_or in Hpos. rewrite (position_lookup _ j qd Hnd Hj) in Hpos. simpl in Hpos.
  exists j, qd. split; [|done]. destruct (decide (j = i)) as [->|]; [|lia].
  rewrite Hi in Hj. injection Hj as ->. done.
Qed.

(** Dependencies hold in every report of a valid rubric: a question is
    graded only if each question it depends on was graded before it and earned
    something, and a question that is skipped names one of its dependencies
    that earned nothing, and earns nothing itself. *)
Theorem dependencies_gate_marks (registered validKind : string -> bool) (r : Rubric)
    (sets : list (list Result)) (i : nat) (q : QuestionSpec) :
  Validate registered validKind r = [] -> rubQuestions r !! i = Some q ->
  let qrs := (scoreQuestions (rubQuestions r) sets ∅).1 in
  exists qr, qrs !! i = Some qr /\
  match qrSkipped qr with
  | None => forall dep, dep ∈ qDependsOn q -> exists j qrd,
      (j < i)%nat /\ (qID <$> rubQuestions r !! j) = Some dep /\ qrs !! j = Some qrd
      /\ fle (qrAwarded qrd) fzero = false
  | Some blocker => blocker ∈ qDependsOn q /\ qrAwarded qr = fzero /\ exists j qrd,
      (j < i)%nat /\ (qID <$> rubQuestions r !! j) = Some blocker /\ qrs !! j = Some qrd
      /\ fle (qrAwarded qrd) fzero = true
  end.
Proof.
  intros HV Hi qrs. set (qs := rubQuestions r) in *.
  pose proof (scoreQuestions_lookup qs sets ∅ i q Hi) as Hqr. fold qrs in Hqr. cbv zeta in Hqr.
  set (e := earnedBy (take i qs) (take i qrs) ∅) in Hqr.
  assert (forall dep, dep ∈ qDependsOn q -> dep <> "" /\ exists j qrd, (j < i)%nat
    /\ (qID <$> qs !! j) = Some dep /\ qrs !! j = Some qrd /\ e !! dep = Some (qrAwarded qrd)) as Hdep.
  { intros dep Hd. destruct (Validate_dep _ _ _ _ _ _ HV Hi Hd) as (Hnd & Hne & j & qd & Hj & Hqd & <-).
    split; [exact Hne|].
    assert (is_Some (qrs !! j)) as [qrd Hqrd].
    { apply lookup_lt_is_Some. unfold qrs. rewrite scoreQuestions_length. by eapply lookup_lt_Some. }
    exists j, qrd. fold qs in Hqd. rewrite Hqd. split_and!; [done..|].
    apply (earnedBy_lookup _ _ _ j); [|by rewrite lookup_take_lt..].
    rewrite <- firstn_map. eapply sublist_NoDup; [exact Hnd|]. apply sublist_take. }
  eexists. split; [exact Hqr|]. unfold scoreOne, unmetDependency. destruct (List.find _ _) as [blocker|] eqn:E.
  - apply List.find_some in E as [Hin Hle]. apply list_elem_of_In in Hin.
    destruct (Hdep blocker Hin) as (Hne & j & qrd & ? & ? & ? & He). rewrite He in Hle.
    rewrite decide_False by exact Hne. simpl. eauto 10.
  - simpl. intros dep Hd. destruct (Hdep dep Hd) as (_ & j & qrd & ? & ? & ? & He).
    exists j, qrd. split_and!; [done..|].
    eapply List.find_none in E; [|by apply list_elem_of_In]. by rewrite He in E.
Qed.

Definition demoRubric : Rubric :=
  mkRubric "Rubric" "demo" (fint 3) []
    [mkQuestion "Q1" "" fone [mkCheckSpec "ospf" fone] [];
     mkQuestion "Q2" "" (fint 2) [mkCheckSpec "bgp" fone] ["Q1"]].

Lemma dependencies_gate_marks_witness :
  let qrs := (scoreQuestions (rubQuestions demoRubric) [[Fail_ "ospf"]; [Pass "bgp"]] ∅).1 in
  exists qr, qrs !! 1%nat = Some qr /\ qrSkipped qr = Some "Q1" /\ qrAwarded qr = fzero.
Proof.
  destruct (dependencies_gate_marks (fun _ => true) (fun _ => true) demoRubric
    [[Fail_ "ospf"]; [Pass "bgp"]] 1 (mkQuestion "Q2" "" (fint 2) [mkCheckSpec "bgp" fone] ["Q1"]))
    as (qr & Hqr & H); [vm_compute; reflexivity|reflexivity|].
  exists qr. split; [exact Hqr|]. vm_compute in Hqr. injection Hqr as <-.
  cbn [qrSkipped] in H. split; [reflexivity|]. exact (proj1 (proj2 H)).
Defined.

(** ** Reviews *)

Lemma checksWith_nil st rs : checksWith st rs = [] <-> forall res, res ∈ rs -> resStatus res <> st.
Proof.
  unfold checksWith. split.
  - intros E%fmap_nil_inv res Hin Hst.
    assert (res ∈ List.filter (fun r => bool_decide (resStatus r = st)) rs) as H.
    { apply list_elem_of_In, filter_In. split; [by apply list_elem_of_In|by apply bool_decide_eq_true]. }
    rewrite E in H. by apply not_elem_of_nil in H.
  - intros H. destruct (List.filter _ rs) as [|x l] eqn:E; [done|].
    assert (x ∈ List.filter (fun r => bool_decide (resStatus r = st)) rs) as Hx by (rewrite E; left).
    apply list_elem_of_In, filter_In in Hx as [Hx Hst%bool_decide_eq_true].
    by destruct (H x); [apply list_elem_of_In|].
Qed.

Lemma scored_result qs sets earned qr :
  qr ∈ (scoreQuestions qs sets earned).1 ->
  (exists q blocker, qr = skippedResult q blocker) \/ exists q rs, qr = questionResult q rs.
Proof.
  intros [i Hi]%list_elem_of_lookup.
  assert (is_Some (qs !! i)) as [q Hq].
  { apply lookup_lt_is_Some. rewrite <- (scoreQuestions_length qs sets earned). by eapply lookup_lt_Some. }
  pose proof (scoreQuestions_lookup qs sets earned i q Hq) as H. simpl in H. rewrite Hi in H.
  injection H as ->. unfold scoreOne. destruct (unmetDependency q _); eauto.
Qed.

(** Nothing the grader could not do reaches a released mark: if a report is
    not held for review, then no check of any question of it errored or was
    unsupported, and its total is the sum of what its questions were awarded. *)
Theorem released_report_fully_assessed (rep : Report) (r : Rubric) (sets : list (list Result))
    (ctxErr : string) :
  repQuestions rep = [] -> repTotal rep = fzero ->
  held (finishReport rep r sets ctxErr) = false ->
  let out := finishReport rep r sets ctxErr in
  (forall qr res, qr ∈ repQuestions out -> res ∈ qrResults qr ->
     resStatus res <> StatusError /\ resStatus res <> StatusUnsupported)
  /\ repTotal out = fold_left (fun t q => fadd t (qrAwarded q)) (repQuestions out) fzero.
Proof.
  intros Hq0 Ht0 Hheld out. unfold out, finishReport, held in *.
  destruct (scoreQuestions (rubQuestions r) sets ∅) as [qrs review] eqn:E. cbn [repQuestions repTotal
    repNeedsReview repErr] in *. rewrite Hq0, Ht0. split; [|done].
  apply orb_false_iff in Hheld as [[_ Hrev]%orb_false_iff _].
  intros qr res Hqr Hres. simpl in Hqr.
  apply list_elem_of_In, filter_In, proj1, list_elem_of_In in Hqr.
  pose proof (scoreQuestions_review (rubQuestions r) sets ∅) as Hr. rewrite E in Hr. simpl in Hr.
  assert (qrNeedsReview qr = false) as Hnr.
  { destruct (qrNeedsReview qr) eqn:En; [|done]. rewrite Hr in Hrev. rewrite <- Hrev.
    symmetry. apply existsb_exists. exists qr. by rewrite <- list_elem_of_In. }
  destruct (scored_result (rubQuestions r) sets ∅ qr) as [(q & b & ->)|(q & rs & ->)]; [by rewrite E| |].
  - by apply not_elem_of_nil in Hres.
  - cbn [qrResults questionResult] in Hres. unfold questionResult in Hnr. cbn [qrNeedsReview] in Hnr.
    apply orb_false_iff in Hnr as [Hnr _]. apply orb_false_iff in Hnr as [Hnr Hu].
    apply orb_false_iff in Hnr as [_ Hb]. apply bool_decide_eq_false, dec_stable in Hu, Hb.
    split; [by apply (proj1 (checksWith_nil StatusError rs) Hb)
           |by apply (proj1 (checksWith_nil StatusUnsupported rs) Hu)].
Qed.

Definition emptyReport : Report := mkReport "g" "" 1 fzero fzero [] [] "" false.

Lemma released_report_fully_assessed_witness :
  let out := finishReport emptyReport demoRubric [[Pass "ospf"]; [Fail_ "bgp"]] "" in
  repTotal out = fold_left (fun t q => fadd t (qrAwarded q)) (repQuestions out) fzero
  /\ repTotal out = fone.
Proof.
  split; [|vm_compute; reflexivity].
  apply (released_report_fully_assessed emptyReport demoRubric [[Pass "ospf"]; [Fail_ "bgp"]] "");
    vm_compute; reflexivity.
Defined.

(** ** Class statistics *)

Lemma filter_partition {A} (f : A -> bool) l :
  (length (List.filter f l) + length (List.filter (fun x => negb (f x)) l) = length l)%nat.
Proof. induction l as [|x l IH]; [done|]. simpl. destruct (f x); simpl; lia. Qed.

(** A class summary counts every report once, as graded or as quarantined,
    and its statistics are those of the released reports alone: any two classes
    with the same released reports have the same mean, median, extremes and
    failure counts, whatever zeros the quarantined ones carry. *)
Theorem summary_excludes_quarantined (reports reports' : list (option Report)) :
  (sGraded (Summarise reports) + length (quarantinedReports reports) = length (omap id reports))%nat
  /\ (List.filter (fun r => negb (held r)) (omap id reports)
      = List.filter (fun r => negb (held r)) (omap id reports') ->
      sGraded (Summarise reports) = sGraded (Summarise reports')
      /\ sMean (Summarise reports) = sMean (Summarise reports')
      /\ sMedian (Summarise reports) = sMedian (Summarise reports')
      /\ sMin (Summarise reports) = sMin (Summarise reports')
      /\ sMax (Summarise reports) = sMax (Summarise reports')
      /\ sFailCount (Summarise reports) = sFailCount (Summarise reports')).
Proof.
  assert (forall l, sGraded (Summarise l)
    = length (List.filter (fun r => negb (held r)) (omap id l))) as Hg.
  { intros l. unfold Summarise. rewrite <- (length_map repTotal).
    pose proof (Permutation_length (merge_sort_Permutation floatLe
      (map repTotal (List.filter (fun r => negb (held r)) (omap id l))))) as Hp.
    destruct (merge_sort floatLe _); [exact Hp|exact Hp]. }
  split; [rewrite Hg; pose proof (filter_partition held (omap id reports)); unfold quarantinedReports; lia|].
  intros E. rewrite !Hg, E. unfold Summarise. rewrite E.
  by destruct (merge_sort floatLe (map repTotal _)).
Qed.

Lemma summary_excludes_quarantined_witness :
  let broken := mkReport "x" "" 2 fzero fone [] [] "agent lost" true in
  let good := mkReport "g" "" 1 fone fone [] [] "" false in
  sMean (Summarise [Some good; Some broken]) = sMean (Summarise [Some good]).
Proof.
  apply (summary_excludes_quarantined
    [Some (mkReport "g" "" 1 fone fone [] [] "" false); Some (mkReport "x" "" 2 fzero fone [] [] "agent lost" true)]
    [Some (mkReport "g" "" 1 fone fone [] [] "" false)]). vm_compute. reflexivity.
Defined.
