(* ===== verification/GradeSched.v ===== *)
(** * The check scheduler of a grading run

    Models [internal/grade/scheduler.go]: which probe resources a check needs,
    which checks may run at once, and the loop that admits checks in rubric
    order, waits for one to complete and puts its result at the check's own
    place. Checks run on goroutines; the loop is a transition system whose
    steps are "admit what can be admitted, then some running check completes".
    The telemetry of a run (phase timings and the critical path) is left out;
    the wait bookkeeping it is computed from is kept. *)

From stdpp Require Import base gmap strings list fin_maps sorting relations.
From Stdlib Require Import ZArith Lia Ascii.
From S2P Require Import Prelude Text Capacity Grading.

Open Scope Z_scope.

(** ** Probe resources *)

Definition ProbeSource : string := "source".
Definition ProbeDestination : string := "destination".
Definition ProbeInterface : string := "interface".
Definition ProbeCounter : string := "counter".
Definition ProbeCapture : string := "capture".
Definition ProbePort : string := "port".

Record ProbeResource := mkProbe { prKind : string; prID : string }.
#[export] Instance ProbeResource_eq_dec : EqDecision ProbeResource.
Proof. solve_decision. Defined.

Definition prKey (r : ProbeResource) : string := prKind r +:+ nul +:+ prID r.

(** *** The environment resources are inferred from *)

Record GIface := mkGIface { giName : string; giAddr4 : string; giInterAS : bool }.
Record GDevice := mkGDevice {
  gdID : string; gdHost : bool; gdRouter : bool; gdASN : Z; gdL2Domain : string;
  gdL2Gateway : string; gdIfaces : list GIface
}.
(** One side of an inter-AS link: its AS, what the far side is to it, and the
    far device and interface. *)
Record GSide := mkGSide { gsASN : Z; gsPeerIsCustomer : bool; gsPeer : option (string * string) }.
Record GEnv := mkGEnv {
  gAS : Z; gRouters : list GDevice; gTargets : list GDevice; gDevices : list GDevice;
  gInterAS : list (GSide * GSide)
}.

(** [addrOf]: the text before the slash, unless it is empty. *)
Definition addrOf (cidr : string) : string :=
  match cut "/" cidr with
  | (a, Some _) => if decide (a = "") then cidr else a
  | (_, None) => cidr
  end.

(** [counterResources]; Go ranges over a map, the callers sort the result. *)
Definition counterResources (devices : list GDevice) (counters : list string)
    : list ProbeResource :=
  concat (map (fun id => map (fun c => mkProbe ProbeCounter (id +:+ "/" +:+ c)) counters)
    (dedup (List.filter (fun id => negb (bool_decide (id = ""))) (map gdID devices)))).

Definition bgpRefreshResources (name : string) (env : GEnv) : list ProbeResource :=
  concat (map (fun router =>
    if decide (name = "bgp.ibgp_full_mesh") then
      omap (fun other =>
        if decide (gdID other = gdID router) then None
        else lo ← List.find (fun i => bool_decide (giName i = "lo")) (gdIfaces other);
             if decide (giAddr4 lo = "") then None
             else Some (mkProbe ProbeCounter (gdID router +:+ "/bgp-session/" +:+ addrOf (giAddr4 lo))))
        (gRouters env)
    else if decide (name = "bgp.ebgp_established") then
      map (fun i => mkProbe ProbeCounter (gdID router +:+ "/bgp-interface/" +:+ giName i))
        (List.filter giInterAS (gdIfaces router))
    else []) (gRouters env)).

Definition noL2 (d : GDevice) : bool := bool_decide (gdL2Domain d = "").

Definition ipv4TransportResources (devices : list GDevice) : list ProbeResource :=
  counterResources devices ["tcp"; "udp4"].
Definition internalReachabilityResources (env : GEnv) : list ProbeResource :=
  ipv4TransportResources (List.filter (fun d => gdHost d && noL2 d) (gTargets env)).
Definition ecmpResources (env : GEnv) : list ProbeResource :=
  counterResources (gRouters env) ["tcp"; "udp4"].
Definition sixIn4Resources (env : GEnv) : list ProbeResource :=
  counterResources (List.filter (fun d => gdHost d && negb (noL2 d)) (gTargets env)) ["tcp"; "udp6"]
  ++ map (fun d => mkProbe ProbeInterface (gdID d +:+ "/tunnel"))
       (List.filter (fun d => gdRouter d && negb (bool_decide (gdL2Gateway d = ""))) (gTargets env)).
Definition transitSide (env : GEnv) (s : GSide) : list ProbeResource :=
  match gsPeer s with
  | Some (dev, iface) =>
      if (gsASN s =? gAS env) && gsPeerIsCustomer s
      then [mkProbe ProbeSource dev; mkProbe ProbeInterface (dev +:+ "/" +:+ iface)] else []
  | None => []
  end.
Definition transitResources (env : GEnv) : list ProbeResource :=
  concat (map (fun '(a, b) => transitSide env a ++ transitSide env b) (gInterAS env))
  ++ map (fun d => mkProbe ProbeCounter (gdID d +:+ "/tcp"))
       (List.filter (fun d => gdHost d && negb (gdASN d =? gAS env) && noL2 d) (gDevices env)).
Definition vpnResources (env : GEnv) : list ProbeResource :=
  counterResources (List.filter gdHost (gTargets env)) ["tcp"; "udp4"].
Definition multicastResources (env : GEnv) : list ProbeResource :=
  counterResources (List.filter gdHost (gTargets env)) ["udp4"].

Definition inferredProbeResources (name : string) (env : option GEnv) : list ProbeResource :=
  match env with
  | None => []
  | Some env =>
      if bool_decide (name ∈ ["bgp.ibgp_full_mesh"; "bgp.ebgp_established"]) then
        bgpRefreshResources name env
      else if bool_decide (name = "dataplane.internal_reachability") then
        internalReachabilityResources env
      else if bool_decide (name = "ospf.ecmp_paths") then ecmpResources env
      else if bool_decide (name = "tunnel.sixin4") then sixIn4Resources env
      else if bool_decide (name = "policy.transit_for_customers") then transitResources env
      else if bool_decide (name ∈ ["vpn.site_reachability"; "vpn.label_switched"; "vpn.isolation"])
      then vpnResources env
      else if bool_decide (name ∈ ["multicast.delivery"; "multicast.no_flooding"])
      then multicastResources env
      else []
  end.

(** ** Jobs *)

Definition CheckReadOnly : string := "read_only".
Definition CheckActive : string := "active".

(** [Check]; its resource resolver is already applied to the rubric's
    arguments. *)
Record Check := mkCheck {
  chName : string; chClass : string; chResources : option (option GEnv -> list ProbeResource)
}.
Record scheduledCheck := mkJob {
  jOrder : nat; jCheck : option Check; jSpec : string; jEnv : option GEnv; jInstance : string
}.

Definition inferredCheckClass (name : string) : string :=
  if bool_decide (name ∈ ["bgp.ibgp_full_mesh"; "bgp.ebgp_established";
    "dataplane.internal_reachability"; "l2.vlan_isolation"; "ospf.ecmp_paths"; "tunnel.sixin4";
    "policy.transit_for_customers"; "policy.traffic_engineering"; "rpki.notfound_preserved";
    "vpn.site_reachability"; "vpn.label_switched"; "vpn.isolation";
    "multicast.delivery"; "multicast.no_flooding"])
  then CheckActive else CheckReadOnly.

Definition checkClass (j : scheduledCheck) : string :=
  match jCheck j with
  | Some c => if decide (chClass c = "") then inferredCheckClass (jSpec j) else chClass c
  | None => inferredCheckClass (jSpec j)
  end.
Definition isActive (j : scheduledCheck) : bool := bool_decide (checkClass j = CheckActive).

Definition prLe (a b : ProbeResource) : Prop := String.le (prKey a) (prKey b).
#[export] Instance prLe_dec : RelDecision prLe.
Proof. unfold prLe. intros ??. apply _. Defined.

(** Keep the first resource of every key. *)
Fixpoint dedupKeys (seen : list string) (l : list ProbeResource) : list ProbeResource :=
  match l with
  | [] => []
  | r :: l => if bool_decide (prKey r ∈ seen) then dedupKeys seen l
              else r :: dedupKeys (prKey r :: seen) l
  end.

Definition resourcesFor (j : scheduledCheck) : list ProbeResource :=
  let raw := match jCheck j with
             | None => []
             | Some c => match chResources c with
                         | Some f => f (jEnv j)
                         | None => inferredProbeResources (chName c) (jEnv j)
                         end
             end in
  merge_sort prLe (dedupKeys [] (List.filter (fun r =>
    negb (bool_decide (prKind r = "") || bool_decide (trimSpace (prID r) = ""))) raw)).

(** ** Admission *)

Abbreviation Running := (gmap nat (list ProbeResource)) (only parsing).

Definition shares (want held : list ProbeResource) : bool :=
  existsb (fun c => existsb (fun r => bool_decide (prKey c = prKey r)) held) want.

(** [strings.ReplaceAll(key, "\x00", "/")]. *)
Fixpoint slashed (s : string) : string :=
  match s with
  | "" => ""
  | String c s => String (if decide (c = "000"%char) then "/"%char else c) (slashed s)
  end.

Definition sortOrders (l : list nat) : list nat := merge_sort le l.

Definition ownersOf (want : list ProbeResource) (running : Running) : list nat :=
  sortOrders (map fst (List.filter (fun kv => shares want kv.2) (map_to_list running))).
Definition conflictsOf (want : list ProbeResource) (running : Running) : list string :=
  sortStrings (dedup (concat (map (fun kv =>
    map (fun c => slashed (prKey c))
      (List.filter (fun c => existsb (fun r => bool_decide (prKey c = prKey r)) kv.2) want))
    (map_to_list running)))).
Definition blockingResources (want : list ProbeResource) (running : Running)
    : list nat * list string :=
  match want with
  | [] => ([], [])
  | _ => (ownersOf want running, conflictsOf want running)
  end.

Record RunOptions := mkRunOptions { Parallel : Z; ReadParallel : Z; ActiveParallel : Z }.

(** The defaults [scheduleChecks] fills in. *)
Definition minInt (a b : Z) : Z := if a <? b then a else b.
Definition normalise (o : RunOptions) : RunOptions :=
  let par := if Parallel o <=? 0 then 8 else Parallel o in
  mkRunOptions par (if ReadParallel o <=? 0 then par else ReadParallel o)
    (if ActiveParallel o <=? 0 then minInt 4 par else ActiveParallel o).

Section Sched.
(** The jobs, at their order, and the options after defaulting. *)
Context (jobs : list scheduledCheck) (opts : RunOptions).
(** What running each job's check returns. *)
Context (outcome : nat -> Result).

(** [byOrder[order]]; a missing entry is the zero job, which is read-only. *)
Definition activeAt (order : nat) : bool :=
  match jobs !! order with Some j => isActive j | None => false end.

Definition activeCount (running : Running) : nat :=
  length (List.filter activeAt (map fst (map_to_list running))).
Definition readCount (running : Running) : nat :=
  length (List.filter (fun o => negb (activeAt o)) (map fst (map_to_list running))).

Definition poolAvailable (j : scheduledCheck) (running : Running) : bool :=
  if Parallel opts <=? Z.of_nat (size running) then false
  else if isActive j then Z.of_nat (activeCount running) <? ActiveParallel opts
  else Z.of_nat (readCount running) <? ReadParallel opts.

Definition runnable (running : Running) (j : scheduledCheck) : bool :=
  bool_decide ((blockingResources (resourcesFor j) running).1 = []) && poolAvailable j running.

(** [firstRunnable], as the jobs before it, itself, and the jobs after it. *)
Fixpoint firstRunnable (running : Running) (pending : list scheduledCheck)
    : option (list scheduledCheck * scheduledCheck * list scheduledCheck) :=
  match pending with
  | [] => None
  | j :: js => if runnable running j then Some ([], j, js)
               else '(before, x, after) ← firstRunnable running js; Some (j :: before, x, after)
  end.

Record startMeta := mkMeta {
  mResources : list ProbeResource; mBlockedBy : list nat; mReasons : gset string
}.
Record sched := mkSched {
  pending : list scheduledCheck;
  running : Running;
  results : gmap nat Result;
  blockedBy : gmap nat (gset nat);
  waitReasons : gmap nat (gset string);
  metas : gmap nat startMeta;
  finished : nat
}.

Definition addTo {A} `{Countable A} (k : nat) (xs : list A) (m : gmap nat (gset A))
    : gmap nat (gset A) := <[k := lookup_or ∅ m k ∪ list_to_set xs]> m.

Definition setWaits (b : gmap nat (gset nat)) (w : gmap nat (gset string)) (st : sched) : sched :=
  mkSched (pending st) (running st) (results st) b w (metas st) (finished st).

(** The loops that note who blocks whom on a resource. *)
Definition recordBlocks (st : sched) : sched :=
  fold_left (fun st j =>
    match blockingResources (resourcesFor j) (running st) with
    | ([], _) => st
    | (owners, conflicts) =>
        setWaits (addTo (jOrder j) owners (blockedBy st))
          (addTo (jOrder j) (map (fun c => "resource lock: " +:+ c) conflicts) (waitReasons st)) st
    end) (pending st) st.

(** [start]. *)
Definition startJob (j : scheduledCheck) (rest : list scheduledCheck) (st : sched) : sched :=
  mkSched rest (<[jOrder j := resourcesFor j]> (running st)) (results st) (blockedBy st) (waitReasons st)
    (<[jOrder j := mkMeta (resourcesFor j)
         (sortOrders (elements (lookup_or ∅ (blockedBy st) (jOrder j))))
         (lookup_or ∅ (waitReasons st) (jOrder j))]> (metas st)) (finished st).

(** [for len(running) < opts.Parallel { ... }]: every turn starts a job, so the
    number of pending jobs is enough fuel. *)
Fixpoint admitLoop (fuel : nat) (st : sched) : sched :=
  match fuel with
  | O => st
  | S fuel =>
      if Z.of_nat (size (running st)) <? Parallel opts then
        match firstRunnable (running st) (pending st) with
        | None => recordBlocks st
        | Some (before, j, after) => admitLoop fuel (startJob j (before ++ after) st)
        end
      else st
  end.

Definition runningOrders (st : sched) : list nat := map fst (map_to_list (running st)).

(** [recordPoolWaits] for one pending job: the reason it waits and for whom. *)
Definition poolWait (st : sched) (j : scheduledCheck) : option (string * list nat) :=
  if negb (bool_decide ((blockingResources (resourcesFor j) (running st)).1 = [])) then None
  else if isActive j && (ActiveParallel opts <=? Z.of_nat (activeCount (running st)))
  then Some ("active pool limit", List.filter activeAt (runningOrders st))
  else if negb (isActive j) && (ReadParallel opts <=? Z.of_nat (readCount (running st)))
  then Some ("read-only pool limit", List.filter (fun o => negb (activeAt o)) (runningOrders st))
  else if Parallel opts <=? Z.of_nat (size (running st))
  then Some ("total check limit", runningOrders st)
  else None.

Definition recordPoolWaits (st : sched) : sched :=
  fold_left (fun st j =>
    match poolWait st j with
    | None => st
    | Some (reason, parents) =>
        setWaits (addTo (jOrder j) parents (blockedBy st)) (addTo (jOrder j) [reason] (waitReasons st)) st
    end) (pending st) st.

(** One turn of the loop up to its [select]. *)
Definition turn (st : sched) : sched :=
  let st := recordBlocks st in
  recordPoolWaits (admitLoop (S (length (pending st))) st).

(** [case completed := <-done]. *)
Definition complete (o : nat) (st : sched) : sched :=
  mkSched (pending st) (delete o (running st)) (<[o := outcome o]> (results st))
    (blockedBy st) (waitReasons st) (metas st) (S (finished st)).

Definition jobName (j : scheduledCheck) : string :=
  match jCheck j with Some c => chName c | None => jSpec j end.

(** [case <-ctx.Done()]: pending and running checks become errors. *)
Definition cancel (err : string) (st : sched) : gmap nat Result :=
  let r1 := fold_left (fun m j => <[jOrder j := Errored (jobName j) err]> m) (pending st) (results st) in
  fold_left (fun m o =>
    if bool_decide (resCheck (lookup_or (mkResult "" StatusPass fzero "" []) m o) = "")
    then match jobs !! o with
         | Some j => <[o := Errored (jobName j) err]> m
         | None => m
         end
    else m) (runningOrders st) r1.

(** Nothing could be admitted: the branch that ends the loop with errors. *)
Definition giveUp (st : sched) : gmap nat Result :=
  fold_left (fun m j => <[jOrder j := Errored (jobName j)
    "check scheduler could not admit its probe resources"]> m) (pending st) (results st).

Definition jobLe (a b : scheduledCheck) : Prop := (jOrder a <= jOrder b)%nat.
#[export] Instance jobLe_dec : RelDecision jobLe.
Proof. unfold jobLe. intros ??. apply _. Defined.

Definition initial : sched := mkSched (merge_sort jobLe jobs) ∅ ∅ ∅ ∅ ∅ 0.

(** The loop: while jobs are unfinished, a turn, then some running check
    completes. *)
Inductive sstep : sched -> sched -> Prop :=
| step_complete st o :
    (finished st < length jobs)%nat -> is_Some (running (turn st) !! o) ->
    sstep st (complete o (turn st)).

(** The slice [scheduleChecks] returns. *)
Definition resultSlice (st : sched) : list (option Result) :=
  map (fun i => results st !! i) (seq 0 (length jobs)).

(** The loop under a given order of completions; [None] if a completion is not
    of a running check. *)
Fixpoint runSchedule (completions : list nat) (st : sched) : option sched :=
  match completions with
  | [] => Some st
  | o :: os => if Nat.ltb (finished st) (length jobs) && bool_decide (is_Some (running (turn st) !! o))
               then runSchedule os (complete o (turn st)) else None
  end.
End Sched.

(** ** Sharing a resource *)

Lemma shares_true a b :
  shares a b = true <-> exists x y, x ∈ a /\ y ∈ b /\ prKey x = prKey y.
Proof.
  unfold shares. rewrite existsb_exists. setoid_rewrite existsb_exists.
  setoid_rewrite bool_decide_eq_true. setoid_rewrite <- list_elem_of_In. naive_solver.
Qed.

Lemma shares_sym a b : shares a b = shares b a.
Proof. apply eq_true_iff_eq. rewrite !shares_true. naive_solver. Qed.

Lemma unblocked want held o rs :
  (blockingResources want held).1 = [] -> held !! o = Some rs -> shares want rs = false.
Proof.
  intros Hb Ho. destruct (shares want rs) eqn:E; [|done]. exfalso.
  destruct want as [|w want]; [done|]. unfold blockingResources, ownersOf, sortOrders in Hb.
  cbn [fst] in Hb. assert (o ∈ merge_sort le (map fst (List.filter
    (fun kv => shares (w :: want) kv.2) (map_to_list held)))) as Hin.
  { rewrite merge_sort_Permutation. apply list_elem_of_fmap. exists (o, rs). split; [done|].
    apply list_elem_of_In, filter_In. split; [|done].
    by apply list_elem_of_In, elem_of_map_to_list. }
  rewrite Hb in Hin. by apply not_elem_of_nil in Hin.
Qed.

Lemma unblocked_empty want : (blockingResources want ∅).1 = [].
Proof.
  destruct want; [done|]. unfold blockingResources, ownersOf. cbn [fst].
  done.
Qed.

(** ** The invariant of the loop *)

Section Invariant.
Context (jobs : list scheduledCheck) (opts : RunOptions) (outcome : nat -> Result).
(** Jobs carry their own position, as the callers number them; the widths are
    positive after defaulting. *)
Hypothesis Horder : forall i j, jobs !! i = Some j -> jOrder j = i.
Hypothesis Hpar : 1 <= Parallel opts.
Hypothesis Hread : 1 <= ReadParallel opts.
Hypothesis Hactive : 1 <= ActiveParallel opts.

Notation turn := (turn jobs opts).
Notation admitLoop := (admitLoop jobs opts).

(** Where a job is. *)
Definition isPending (st : sched) (o : nat) : Prop := o ∈ map jOrder (pending st).

Definition exclusive (r : Running) : Prop :=
  forall o1 o2 r1 r2, o1 <> o2 -> r !! o1 = Some r1 -> r !! o2 = Some r2 -> shares r1 r2 = false.
Definition withinWidths (r : Running) : Prop :=
  Z.of_nat (size r) <= Parallel opts
  /\ Z.of_nat (activeCount jobs r) <= ActiveParallel opts
  /\ Z.of_nat (readCount jobs r) <= ReadParallel opts.

Record Inv (st : sched) : Prop := {
  inv_pend : forall j, j ∈ pending st -> jobs !! jOrder j = Some j;
  inv_nodup : NoDup (map jOrder (pending st));
  inv_run : forall o rs, running st !! o = Some rs -> exists j, jobs !! o = Some j /\ rs = resourcesFor j;
  inv_res : forall o r, results st !! o = Some r -> r = outcome o /\ (o < length jobs)%nat;
  inv_pend_run : forall o, isPending st o -> running st !! o = None /\ results st !! o = None;
  inv_run_res : forall o, is_Some (running st !! o) -> results st !! o = None;
  inv_all : forall o, (o < length jobs)%nat ->
    isPending st o \/ is_Some (running st !! o) \/ is_Some (results st !! o);
  inv_excl : exclusive (running st);
  inv_width : withinWidths (running st);
  inv_fin : finished st = size (results st)
}.

(** The wait bookkeeping touches none of it. *)
Definition sameCore (st st' : sched) : Prop :=
  pending st' = pending st /\ running st' = running st /\ results st' = results st
  /\ finished st' = finished st.

Lemma sameCore_inv st st' : sameCore st st' -> Inv st -> Inv st'.
Proof.
  destruct st, st'. intros (E1 & E2 & E3 & E4) []. simpl in *. subst. by constructor.
Qed.

Lemma sameCore_fold (f : sched -> scheduledCheck -> sched) l st :
  (forall st j, sameCore st (f st j)) -> sameCore st (fold_left f l st).
Proof.
  intros Hf. revert st. induction l as [|j l IH]; intros st; [done|]. simpl.
  destruct (IH (f st j)) as (A & B & C & D), (Hf st j) as (A' & B' & C' & D').
  repeat split; congruence.
Qed.

Lemma recordBlocks_core st : sameCore st (recordBlocks st).
Proof.
  apply sameCore_fold. intros s j. destruct (blockingResources _ _) as [[|o os] cs]; by repeat split.
Qed.

Lemma recordPoolWaits_core st : sameCore st (recordPoolWaits jobs opts st).
Proof.
  apply sameCore_fold. intros s j. destruct (poolWait _ _ _ _) as [[reason parents]|]; by repeat split.
Qed.

(** *** Starting a job *)

Lemma firstRunnable_Some r pend before j after :
  firstRunnable jobs opts r pend = Some (before, j, after) ->
  pend = before ++ j :: after /\ runnable jobs opts r j = true.
Proof.
  revert before. induction pend as [|x pend IH]; intros before; simpl; [done|].
  destruct (runnable jobs opts r x) eqn:E; [by intros [= <- <- <-]|].
  destruct (firstRunnable jobs opts r pend) as [[[b y] a]|]; [|done].
  intros [= <- <- <-]. by destruct (IH b) as [-> ?].
Qed.

Lemma counts_insert o rs (r : Running) :
  r !! o = None ->
  activeCount jobs (<[o := rs]> r) = ((if activeAt jobs o then 1 else 0) + activeCount jobs r)%nat
  /\ readCount jobs (<[o := rs]> r) = ((if activeAt jobs o then 0 else 1) + readCount jobs r)%nat.
Proof.
  intros Ho. unfold activeCount, readCount.
  assert (forall f : nat -> bool, length (List.filter f (map fst (map_to_list (<[o := rs]> r))))
    = ((if f o then 1 else 0) + length (List.filter f (map fst (map_to_list r))))%nat) as H.
  { intros f. assert (forall l l' : list nat, l ≡ₚ l' -> length (List.filter f l) = length (List.filter f l')) as Hp.
    { induction 1; simpl; try destruct (f x); try destruct (f y); simpl; lia. }
    erewrite Hp; [|apply Permutation_map, (map_to_list_insert r o rs Ho)]. simpl. by destruct (f o). }
  rewrite !H. by destruct (activeAt jobs o).
Qed.

Lemma activeAt_job o j : jobs !! o = Some j -> activeAt jobs o = isActive j.
Proof. unfold activeAt. by intros ->. Qed.

Lemma startJob_inv st before j after :
  Inv st -> Z.of_nat (size (running st)) < Parallel opts ->
  pending st = before ++ j :: after -> runnable jobs opts (running st) j = true ->
  Inv (startJob j (before ++ after) st).
Proof.
  intros HI Hsz Hp Hr. destruct HI as [I1 I2 I3 I4 I5 I6 I7 I8 I9 I10].
  assert (before ++ j :: after ≡ₚ j :: before ++ after) as Hperm by (symmetry; apply Permutation_middle).
  assert (NoDup (map jOrder (j :: before ++ after))) as Hnd by (rewrite <- Hperm, <- Hp; done).
  simpl in Hnd. apply NoDup_cons in Hnd as [Hj Hnd].
  assert (forall o, o ∈ map jOrder (pending st) <-> o = jOrder j \/ o ∈ map jOrder (before ++ after)) as Hin.
  { intros o. rewrite Hp, Hperm. simpl. by rewrite elem_of_cons. }
  assert (jobs !! jOrder j = Some j) as Hjob by (apply I1; rewrite Hp; set_solver).
  destruct (I5 (jOrder j)) as [Hnr Hns]; [apply Hin; by left|].
  unfold runnable in Hr. apply andb_true_iff in Hr as [Hb%bool_decide_eq_true Hpool].
  constructor; unfold startJob; cbn [pending running results finished].
  - intros x Hx. apply I1. rewrite Hp. set_solver.
  - done.
  - intros o rs [[<- <-]|[Hne Ho]]%lookup_insert_Some; [by exists j|]. by apply I3.
  - done.
  - intros o Ho. unfold isPending in Ho. cbn [pending] in Ho. destruct (I5 o) as [? ?]; [apply Hin; by right|].
    split; [|done]. rewrite lookup_insert_ne; [done|]. by intros <-.
  - intros o. destruct (decide (o = jOrder j)) as [->|]; [done|]. rewrite lookup_insert_ne by done. apply I6.
  - intros o Ho. destruct (decide (o = jOrder j)) as [->|].
    + right; left. rewrite lookup_insert_eq. by eexists.
    + rewrite lookup_insert_ne by done. destruct (I7 o Ho) as [Hp'|[?|?]]; auto.
      apply Hin in Hp' as [?|?]; [done|]. by left.
  - intros o1 o2 r1 r2 Hne [[<- <-]|[? H1]]%lookup_insert_Some [[<- <-]|[? H2]]%lookup_insert_Some;
      [done|by eapply unblocked|rewrite shares_sym; by eapply unblocked|by apply (I8 o1 o2)].
  - unfold withinWidths in *. destruct I9 as (W1 & W2 & W3).
    rewrite map_size_insert_None by done. destruct (counts_insert (jOrder j) (resourcesFor j) (running st) Hnr)
      as [-> ->]. rewrite (activeAt_job _ _ Hjob). unfold poolAvailable in Hpool.
    destruct (Z.leb_spec (Parallel opts) (Z.of_nat (size (running st)))); [done|].
    destruct (isActive j); apply Z.ltb_lt in Hpool; lia.
  - done.
Qed.

Lemma admitLoop_inv fuel st : Inv st -> Inv (admitLoop fuel st).
Proof.
  revert st. induction fuel as [|fuel IH]; intros st HI; [done|]. simpl.
  destruct (Z.ltb_spec (Z.of_nat (size (running st))) (Parallel opts)); [|done].
  destruct (firstRunnable jobs opts (running st) (pending st)) as [[[b j] a]|] eqn:E.
  - apply firstRunnable_Some in E as [Hp Hr]. apply IH. by eapply startJob_inv.
  - eapply sameCore_inv; [apply recordBlocks_core|done].
Qed.

Lemma turn_inv st : Inv st -> Inv (turn st).
Proof.
  intros HI. unfold GradeSched.turn. eapply sameCore_inv; [apply recordPoolWaits_core|].
  apply admitLoop_inv. eapply sameCore_inv; [apply recordBlocks_core|done].
Qed.

(** *** Completing one *)

Lemma counts_delete o (r : Running) :
  (activeCount jobs (delete o r) <= activeCount jobs r)%nat
  /\ (readCount jobs (delete o r) <= readCount jobs r)%nat /\ (size (delete o r) <= size r)%nat.
Proof.
  destruct (r !! o) as [rs|] eqn:Ho.
  - rewrite <- (insert_delete_id r o rs Ho) at 2 4 6.
    destruct (counts_insert o rs (delete o r) (lookup_delete_eq r o)) as [-> ->].
    rewrite map_size_insert_None by apply lookup_delete_eq. lia.
  - rewrite delete_id by done. lia.
Qed.

Lemma complete_inv st o : Inv st -> is_Some (running st !! o) -> Inv (complete outcome o st).
Proof.
  intros [I1 I2 I3 I4 I5 I6 I7 I8 I9 I10] Ho. pose proof (I6 o Ho) as Hns.
  constructor; unfold complete; cbn [pending running results finished].
  - done.
  - done.
  - intros x rs [_ Hx]%lookup_delete_Some. by apply I3.
  - intros x r [[<- <-]|[_ Hx]]%lookup_insert_Some; [|by apply I4]. split; [done|].
    destruct Ho as [rs Ho]. destruct (I3 o rs Ho) as (j & Hj & _). by eapply lookup_lt_Some.
  - intros x Hx. destruct (I5 x Hx) as [Hr Hs]. split; [by apply lookup_delete_None; right|].
    rewrite lookup_insert_ne; [done|]. intros ->. rewrite Hr in Ho. by destruct Ho.
  - intros x [rs [Hne Hx]%lookup_delete_Some]. rewrite lookup_insert_ne by done. apply I6. eauto.
  - intros x Hx. destruct (decide (x = o)) as [->|].
    + right; right. rewrite lookup_insert_eq. by eexists.
    + rewrite lookup_delete_ne, lookup_insert_ne by done. by apply I7.
  - intros o1 o2 r1 r2 Hne [_ H1]%lookup_delete_Some [_ H2]%lookup_delete_Some. by apply (I8 o1 o2).
  - unfold withinWidths in *. destruct (counts_delete o (running st)) as (? & ? & ?). lia.
  - rewrite map_size_insert_None by done. by rewrite I10.
Qed.

Lemma initial_inv : Inv (initial jobs).
Proof.
  assert (map jOrder jobs = seq 0 (length jobs)) as Ho.
  { apply list_eq. intros i. rewrite list_lookup_fmap. destruct (jobs !! i) as [j|] eqn:E.
    - simpl. rewrite (Horder i j E). symmetry. apply lookup_seq. apply lookup_lt_Some in E. lia.
    - symmetry. apply lookup_seq_ge. by apply lookup_ge_None in E. }
  assert (merge_sort jobLe jobs ≡ₚ jobs) as Hp by apply merge_sort_Permutation.
  constructor; unfold initial; cbn [pending running results finished]; try done.
  - intros j. rewrite Hp. intros [i Hi]%list_elem_of_lookup. by rewrite (Horder i j Hi).
  - rewrite Hp, Ho. apply NoDup_seq.
  - intros o Hlt. left. unfold isPending. cbn [pending]. rewrite Hp, Ho. apply elem_of_seq. lia.
  - unfold withinWidths. rewrite map_size_empty. change (activeCount jobs ∅) with 0%nat.
    change (readCount jobs ∅) with 0%nat. lia.
Qed.

(** *** Progress *)

Lemma admitLoop_running fuel st o :
  is_Some (running st !! o) -> is_Some (running (admitLoop fuel st) !! o).
Proof.
  revert st. induction fuel as [|fuel IH]; intros st Ho; [done|]. simpl.
  destruct (_ <? _); [|done].
  destruct (firstRunnable jobs opts (running st) (pending st)) as [[[b j] a]|].
  - apply IH. unfold startJob. cbn [running]. destruct (decide (o = jOrder j)) as [->|].
    + rewrite lookup_insert_eq. by eexists.
    + by rewrite lookup_insert_ne.
  - destruct (recordBlocks_core st) as (_ & -> & _). done.
Qed.

(** With nothing running, the first pending job can always start. *)
Lemma first_job_runnable j js : firstRunnable jobs opts ∅ (j :: js) = Some ([], j, js).
Proof.
  simpl. unfold runnable. rewrite unblocked_empty, bool_decide_true by done. unfold poolAvailable.
  rewrite map_size_empty. change (activeCount jobs ∅) with 0%nat. change (readCount jobs ∅) with 0%nat.
  rewrite (proj2 (Z.leb_gt _ _)) by lia. destruct (isActive j); rewrite (proj2 (Z.ltb_lt _ _)) by lia; done.
Qed.

Lemma turn_running st :
  running st <> ∅ \/ pending st <> [] -> exists o, is_Some (running (turn st) !! o).
Proof.
  intros H. unfold GradeSched.turn.
  destruct (recordBlocks_core st) as (Ep & Er & _ & _).
  set (st1 := recordBlocks st) in *.
  destruct (recordPoolWaits_core (admitLoop (S (length (pending st1))) st1)) as (_ & -> & _).
  destruct (decide (running st1 = ∅)) as [E|E].
  - destruct (pending st1) as [|j js] eqn:Hp; [exfalso; rewrite <- Er, <- Ep in H; naive_solver|].
    exists (jOrder j). cbn [GradeSched.admitLoop]. rewrite E, map_size_empty.
    rewrite (proj2 (Z.ltb_lt _ _)) by lia. rewrite Hp, first_job_runnable.
    apply (admitLoop_running (length (j :: js))). unfold startJob. cbn [running].
    rewrite lookup_insert_eq. by eexists.
  - apply map_choose in E as (o & rs & Ho). exists o. apply admitLoop_running. eauto.
Qed.

(** The number of results decides whether all are there. *)
Lemma results_complete st :
  Inv st -> (finished st <= length jobs)%nat
  /\ (finished st = length jobs <-> forall o, (o < length jobs)%nat -> is_Some (results st !! o)).
Proof.
  intros HI. rewrite (inv_fin _ HI), <- size_dom.
  assert (dom (results st) ⊆ set_seq 0 (length jobs)) as Hsub.
  { intros o [r Ho]%elem_of_dom. apply elem_of_set_seq. destruct (inv_res _ HI o r Ho). lia. }
  assert (size (set_seq 0 (length jobs) : gset nat) = length jobs) as Hsz by apply size_set_seq.
  split; [rewrite <- Hsz; by apply subseteq_size|]. split.
  - intros E o Ho. apply elem_of_dom.
    assert (dom (results st) = set_seq 0 (length jobs)) as ->.
    { apply set_subseteq_size_eq; [done|]. rewrite E, Hsz. lia. }
    apply elem_of_set_seq. lia.
  - intros Hall. rewrite <- Hsz. f_equal. apply (anti_symm (⊆)); [done|].
    intros o Ho%elem_of_set_seq. apply elem_of_dom, Hall. lia.
Qed.

Lemma step_possible st :
  Inv st -> (finished st < length jobs)%nat -> exists st', sstep jobs opts outcome st st'.
Proof.
  intros HI Hlt. destruct (results_complete st HI) as [_ Hall].
  assert (running st <> ∅ \/ pending st <> []) as H.
  { destruct (decide (running st = ∅)) as [Er|]; [|by left].
    destruct (pending st) as [|j js] eqn:Ep; [|by right]. exfalso.
    assert (finished st = length jobs); [|lia]. apply Hall. intros o Ho.
    destruct (inv_all _ HI o Ho) as [Hp|[[rs Hr]|?]]; [| |done].
    - unfold isPending in Hp. rewrite Ep in Hp. by apply not_elem_of_nil in Hp.
    - by rewrite Er in Hr. }
  destruct (turn_running st H) as [o Ho]. exists (complete outcome o (turn st)). by constructor.
Qed.

Lemma turn_finished st : finished (turn st) = finished st.
Proof.
  unfold GradeSched.turn. destruct (recordBlocks_core st) as (_ & _ & _ & E).
  set (st1 := recordBlocks st) in *.
  destruct (recordPoolWaits_core (admitLoop (S (length (pending st1))) st1)) as (_ & _ & _ & ->).
  rewrite <- E. generalize (S (length (pending st1))). clearbody st1. clear E. intros fuel. revert st1.
  induction fuel as [|fuel IH]; intros st1; [done|]. simpl. destruct (_ <? _); [|done].
  destruct (firstRunnable jobs opts (running st1) (pending st1)) as [[[b j] a]|].
  - by rewrite IH.
  - by destruct (recordBlocks_core st1) as (_ & _ & _ & ->).
Qed.

Lemma nsteps_inv n st st' :
  Inv st -> nsteps (sstep jobs opts outcome) n st st' ->
  Inv st' /\ finished st' = (finished st + n)%nat.
Proof.
  intros HI H. induction H as [|n x y z Hxy _ IH]; [split; [done|lia]|].
  destruct Hxy as [st o Hlt Ho]. destruct IH as [H1 H2].
  - apply complete_inv; [by apply turn_inv|done].
  - split; [done|]. rewrite H2. unfold complete. cbn [finished]. rewrite turn_finished. lia.
Qed.

Lemma reachable_inv n st :
  nsteps (sstep jobs opts outcome) n (initial jobs) st -> Inv st /\ finished st = n.
Proof. intros H. by apply (nsteps_inv n _ _ initial_inv) in H. Qed.

Lemma finished_slice st :
  Inv st -> finished st = length jobs ->
  resultSlice jobs st = map (fun i => Some (outcome i)) (seq 0 (length jobs)).
Proof.
  intros HI Hf. pose proof (proj1 (proj2 (results_complete st HI)) Hf) as Hall. clear Hf.
  unfold resultSlice. apply map_ext_in. intros i Hi%in_seq. destruct (Hall i) as [r Hr]; [lia|].
  rewrite Hr. f_equal. by apply (inv_res _ HI).
Qed.
End Invariant.

(** ** Theorems *)

(** Jobs numbered as [runChecksAcrossQuestions] numbers them. *)
Definition numbered (jobs : list scheduledCheck) : Prop :=
  forall i j, jobs !! i = Some j -> jOrder j = i.

Lemma normalise_positive o :
  1 <= Parallel (normalise o) /\ 1 <= ReadParallel (normalise o) /\ 1 <= ActiveParallel (normalise o).
Proof.
  unfold normalise, minInt. cbn [Parallel ReadParallel ActiveParallel].
  destruct (Z.leb_spec (Parallel o) 0), (Z.leb_spec (ReadParallel o) 0), (Z.leb_spec (ActiveParallel o) 0);
    try destruct (Z.ltb_spec 4 (Parallel o)); simpl; lia.
Qed.

(** C19. Active probes never share what they measure: at every point of a
    grading run, whatever order checks complete in, no two running checks hold
    the same probe resource, and the numbers of running checks, of active ones
    and of read-only ones keep within the configured widths. *)
Theorem running_checks_never_conflict (jobs : list scheduledCheck) (o : RunOptions)
    (outcome : nat -> Result) (n : nat) (st : sched) :
  numbered jobs ->
  nsteps (sstep jobs (normalise o) outcome) n (initial jobs) st ->
  let r := running (turn jobs (normalise o) st) in
  exclusive r /\ withinWidths jobs (normalise o) r
  /\ forall k rs, r !! k = Some rs -> exists j, jobs !! k = Some j /\ rs = resourcesFor j.
Proof.
  intros Hn Hr. destruct (normalise_positive o) as (H1 & H2 & H3).
  apply reachable_inv in Hr as [HI _]; try done.
  apply turn_inv in HI; try done. split_and!; [apply HI|apply HI|apply HI].
Qed.

(** C36. A grading run always ends with every check at its own place: from any
    reachable state short of the end another completion is possible (the
    scheduler never fails to admit), every run has one completion per check,
    and the results it returns are each check's own, in rubric order, whatever
    the order of completion. *)
Theorem scheduler_completes_in_order (jobs : list scheduledCheck) (o : RunOptions)
    (outcome : nat -> Result) (n : nat) (st : sched) :
  numbered jobs ->
  nsteps (sstep jobs (normalise o) outcome) n (initial jobs) st ->
  (n <= length jobs)%nat
  /\ ((n < length jobs)%nat -> exists st', sstep jobs (normalise o) outcome st st')
  /\ (n = length jobs ->
      resultSlice jobs st = map (fun i => Some (outcome i)) (seq 0 (length jobs))
      /\ forall st', ~ sstep jobs (normalise o) outcome st st').
Proof.
  intros Hn Hr. destruct (normalise_positive o) as (H1 & H2 & H3).
  apply reachable_inv in Hr as [HI <-]; try done. split_and!.
  - by eapply results_complete.
  - by eapply step_possible.
  - intros Hf. split; [by eapply finished_slice|]. intros st' Hs. destruct Hs. lia.
Qed.

(** Two conflicting active checks and a read-only one: the second active check
    starts only after the first has completed. *)
Definition demoProbe (id : string) : option (option GEnv -> list ProbeResource) :=
  Some (fun _ => [mkProbe ProbeCounter id]).
Definition demoJobs : list scheduledCheck :=
  [mkJob 0 (Some (mkCheck "ping" CheckActive (demoProbe "as1/h1/tcp"))) "ping" None "Q1/ping[0]";
   mkJob 1 (Some (mkCheck "trace" CheckActive (demoProbe "as1/h1/tcp"))) "trace" None "Q1/trace[1]";
   mkJob 2 (Some (mkCheck "rib" CheckReadOnly None)) "rib" None "Q2/rib[0]"].
Definition demoOpts : RunOptions := mkRunOptions 0 0 0.
Definition demoOutcome (o : nat) : Result := nth o [Pass "ping"; Fail_ "trace"; Pass "rib"] (Pass "").

Lemma runSchedule_nsteps jobs opts outcome os st st' :
  runSchedule jobs opts outcome os st = Some st' ->
  nsteps (sstep jobs opts outcome) (length os) st st'.
Proof.
  revert st. induction os as [|o os IH]; intros st; simpl; [intros [= <-]; constructor|].
  destruct (_ && _) eqn:E; [|done]. intros H. apply andb_true_iff in E as [E1%Nat.ltb_lt E2].
  apply bool_decide_eq_true in E2. eapply nsteps_l; [by constructor|by apply IH].
Qed.

Lemma demo_numbered : numbered demoJobs.
Proof. intros [|[|[|i]]] j; intros [= <-]; reflexivity. Qed.

Lemma running_checks_never_conflict_witness :
  exists st, nsteps (sstep demoJobs (normalise demoOpts) demoOutcome) 1 (initial demoJobs) st
  /\ exclusive (running (turn demoJobs (normalise demoOpts) st))
  /\ sortOrders (runningOrders (turn demoJobs (normalise demoOpts) st)) = [1; 2]%nat.
Proof.
  destruct (runSchedule demoJobs (normalise demoOpts) demoOutcome [0%nat] (initial demoJobs))
    as [st|] eqn:E; [|vm_compute in E; discriminate E].
  pose proof (runSchedule_nsteps _ _ _ _ _ _ E) as H. exists st. split; [exact H|]. split.
  - exact (proj1 (running_checks_never_conflict demoJobs demoOpts demoOutcome 1 st demo_numbered H)).
  - vm_compute in E. injection E as <-. vm_compute. reflexivity.
Defined.

Lemma scheduler_completes_in_order_witness :
  exists st, runSchedule demoJobs (normalise demoOpts) demoOutcome [2; 0; 1]%nat (initial demoJobs) = Some st
  /\ resultSlice demoJobs st = [Some (Pass "ping"); Some (Fail_ "trace"); Some (Pass "rib")].
Proof.
  destruct (runSchedule demoJobs (normalise demoOpts) demoOutcome [2; 0; 1]%nat (initial demoJobs))
    as [st|] eqn:E; [|vm_compute in E; discriminate E].
  exists st. split; [reflexivity|].
  apply (scheduler_completes_in_order demoJobs demoOpts demoOutcome 3 st demo_numbered
           (runSchedule_nsteps _ _ _ _ _ _ E)). reflexivity.
Defined.

(** ** Cancellation *)

Lemma fold_pending_lookup (f : scheduledCheck -> Result) (l : list scheduledCheck) m o :
  (o ∉ map jOrder l -> fold_left (fun m j => <[jOrder j := f j]> m) l m !! o = (m : gmap nat Result) !! o)
  /\ (forall j, j ∈ l -> jOrder j = o -> NoDup (map jOrder l) ->
      fold_left (fun m j => <[jOrder j := f j]> m) l m !! o = Some (f j)).
Proof.
  revert m. induction l as [|x l IH]; intros m; [by split; [|set_solver]|]. simpl. split.
  - intros Hn. rewrite not_elem_of_cons in Hn. destruct Hn as [Hx Hn].
    rewrite (proj1 (IH _)) by done. by rewrite lookup_insert_ne.
  - intros j Hj Ho [Hx Hnd]%NoDup_cons. apply elem_of_cons in Hj as [->|Hj].
    + rewrite (proj1 (IH _)) by (by rewrite <- Ho). by rewrite Ho, lookup_insert_eq.
    + by apply IH.
Qed.

Section Cancel.
Context (jobs : list scheduledCheck) (opts : RunOptions) (outcome : nat -> Result) (err : string).

Lemma cancel_running_fold os m o :
  NoDup os -> (forall x, x ∈ os -> m !! x = None) ->
  fold_left (fun m o =>
    if bool_decide (resCheck (lookup_or (mkResult "" StatusPass fzero "" []) m o) = "")
    then match jobs !! o with Some j => <[o := Errored (jobName j) err]> m | None => m end
    else m) os m !! o
  = if decide (o ∈ os) then (fun j => Errored (jobName j) err) <$> jobs !! o
    else (m : gmap nat Result) !! o.
Proof.
  revert m. induction os as [|x os IH]; intros m Hnd Hm; [done|]. simpl.
  apply NoDup_cons in Hnd as [Hx Hnd].
  assert (lookup_or (mkResult "" StatusPass fzero "" []) m x = mkResult "" StatusPass fzero "" []) as E.
  { unfold lookup_or. by rewrite Hm by left. }
  rewrite E, bool_decide_true by done. destruct (jobs !! x) as [j|] eqn:Ej.
  - rewrite IH; [|done|].
    2: { intros y Hy. rewrite lookup_insert_ne by set_solver. apply Hm. by right. }
    destruct (decide (o = x)) as [->|Hne].
    + rewrite (decide_False (P := x ∈ os)) by done. rewrite lookup_insert_eq.
      rewrite (decide_True (P := x ∈ x :: os)) by left. by rewrite Ej.
    + rewrite lookup_insert_ne by done. destruct (decide (o ∈ os)).
      * by rewrite (decide_True (P := o ∈ x :: os)) by (by right).
      * by rewrite (decide_False (P := o ∈ x :: os)) by set_solver.
  - rewrite IH; [|done|intros y Hy; apply Hm; by right].
    destruct (decide (o = x)) as [->|Hne].
    + rewrite (decide_False (P := x ∈ os)) by done.
      rewrite (decide_True (P := x ∈ x :: os)) by left. rewrite Ej. by apply Hm; left.
    + destruct (decide (o ∈ os)).
      * by rewrite (decide_True (P := o ∈ x :: os)) by (by right).
      * by rewrite (decide_False (P := o ∈ x :: os)) by set_solver.
Qed.

Lemma cancel_lookup st o j :
  Inv jobs opts outcome st -> jobs !! o = Some j ->
  cancel jobs err st !! o
  = match results st !! o with
    | Some r => Some r
    | None => Some (Errored (jobName j) err)
    end.
Proof.
  intros HI Hj. unfold cancel.
  set (f := fun j => Errored (jobName j) err).
  change (fold_left (fun m j => <[jOrder j := Errored (jobName j) err]> m) (pending st) (results st))
    with (fold_left (fun m j => <[jOrder j := f j]> m) (pending st) (results st)).
  rewrite cancel_running_fold.
  - unfold runningOrders. case_decide as Hr.
    + apply list_elem_of_fmap in Hr as ([o' rs] & -> & Ho). apply elem_of_map_to_list in Ho. simpl in *.
      rewrite (inv_run_res _ _ _ _ HI o') by eauto. by rewrite Hj.
    + destruct (decide (o ∈ map jOrder (pending st))) as [Hp|Hp].
      * destruct (inv_pend_run _ _ _ _ HI o Hp) as [_ ->].
        apply list_elem_of_fmap in Hp as (j' & -> & Hp).
        rewrite (proj2 (fold_pending_lookup f _ _ _) j') by (done || apply HI).
        rewrite (inv_pend _ _ _ _ HI j' Hp) in Hj. by injection Hj as ->.
      * rewrite (proj1 (fold_pending_lookup f _ _ _)) by done.
        destruct (inv_all _ _ _ _ HI o) as [?|[[rs Hrs]|[r ->]]]; [by eapply lookup_lt_Some|done| |done].
        destruct Hr. apply list_elem_of_fmap. exists (o, rs). split; [done|]. by apply elem_of_map_to_list.
  - unfold runningOrders. apply NoDup_fst_map_to_list.
  - intros x ([x' rs] & -> & Hx)%list_elem_of_fmap. apply elem_of_map_to_list in Hx. simpl.
    rewrite (proj1 (fold_pending_lookup f _ _ _)).
    + apply (inv_run_res _ _ _ _ HI). eauto.
    + intros Hp. destruct (inv_pend_run _ _ _ _ HI x' Hp). congruence.
Qed.
End Cancel.

(** A cancelled run invents no verdicts: at whatever point the context ends,
    every check has a result; the ones that had completed keep theirs, and all
    others are errors, which no mark is computed from. *)
Theorem cancelled_checks_are_errors (jobs : list scheduledCheck) (o : RunOptions)
    (outcome : nat -> Result) (err : string) (n : nat) (st : sched) (i : nat) (j : scheduledCheck) :
  numbered jobs ->
  nsteps (sstep jobs (normalise o) outcome) n (initial jobs) st -> jobs !! i = Some j ->
  let st := turn jobs (normalise o) st in
  cancel jobs err st !! i
  = Some (if bool_decide (is_Some (results st !! i)) then outcome i else Errored (jobName j) err)
  /\ assessed (Errored (jobName j) err) = false.
Proof.
  intros Hn Hr Hj. destruct (normalise_positive o) as (H1 & H2 & H3).
  apply reachable_inv in Hr as [HI _]; try done. apply turn_inv in HI; try done.
  split; [|done]. rewrite (cancel_lookup _ _ _ _ _ _ _ HI Hj).
  destruct (results (turn jobs (normalise o) st) !! i) as [r|] eqn:E.
  - rewrite bool_decide_true by eauto. f_equal. by apply (inv_res _ _ _ _ HI).
  - rewrite bool_decide_false; [done|]. by intros [? ?].
Qed.

Lemma cancelled_checks_are_errors_witness :
  exists st, runSchedule demoJobs (normalise demoOpts) demoOutcome [2]%nat (initial demoJobs) = Some st
  /\ cancel demoJobs "cancelled" (turn demoJobs (normalise demoOpts) st) !! 1%nat
     = Some (Errored "trace" "cancelled").
Proof.
  destruct (runSchedule demoJobs (normalise demoOpts) demoOutcome [2]%nat (initial demoJobs))
    as [st|] eqn:E; [|vm_compute in E; discriminate E].
  exists st. split; [reflexivity|].
  destruct (cancelled_checks_are_errors demoJobs demoOpts demoOutcome "cancelled" 1 st 1
    (nth 1 demoJobs (mkJob 0 None "" None "")) demo_numbered (runSchedule_nsteps _ _ _ _ _ _ E) eq_refl) as [H _].
  rewrite H. vm_compute in E. injection E as <-. vm_compute. reflexivity.
Defined.

(** ** Running one check *)

(** What happened around a check: the verdict it returned, a capability the
    device refused, evidence it went without, an infrastructure failure, and
    whether its time ran out. *)
Record CheckRun := mkCheckRun {
  crResult : Result; crRefusal : option string; crReduced : list string;
  crInfra : option string; crTimedOut : bool
}.

Definition setReduced (reduced : list string) (r : Result) : Result :=
  mkResult (resCheck r) (resStatus r) (resScore r) (resErr r) reduced.

Definition executeScheduledCheck (j : scheduledCheck) (run : CheckRun) : Result :=
  match jCheck j with
  | None => Errored (jSpec j) "no such check"
  | Some _ =>
      let res := crResult run in
      let res := match crRefusal run with
                 | Some refusal =>
                     if bool_decide (resStatus res = StatusError)
                        || bool_decide (resStatus res = StatusUnsupported)
                     then res else Unsupported (jSpec j) refusal
                 | None => res
                 end in
      let res := if bool_decide (crReduced run = []) || bool_decide (resStatus res = StatusUnsupported)
                 then res else setReduced (crReduced run) res in
      let res := match crInfra run with
                 | Some err => if bool_decide (resStatus res = StatusError) then res
                               else Errored (jSpec j) err
                 | None => res
                 end in
      if crTimedOut run && negb (bool_decide (resStatus res = StatusError))
      then Errored (jSpec j) "out of time" else res
  end.

(** An outage never becomes a verdict: a check's result counts toward a mark
    only if the check exists, no capability was refused to it, no
    infrastructure failure was seen and it did not run out of time; and then it
    is the verdict the check itself returned. *)
Theorem verdict_needs_undisturbed_run (j : scheduledCheck) (run : CheckRun) :
  assessed (executeScheduledCheck j run) = true ->
  is_Some (jCheck j) /\ crRefusal run = None /\ crInfra run = None /\ crTimedOut run = false
  /\ resStatus (executeScheduledCheck j run) = resStatus (crResult run)
  /\ resScore (executeScheduledCheck j run) = resScore (crResult run).
Proof.
  unfold executeScheduledCheck. destruct (jCheck j) as [c|]; [|done].
  destruct run as [[name status score e red] refusal reduced infra timedOut]; simpl.
  destruct refusal, infra, timedOut, status, reduced; simpl; intros H;
    try discriminate H; repeat split; eauto.
Qed.

Lemma verdict_needs_undisturbed_run_witness :
  resStatus (executeScheduledCheck (nth 0 demoJobs (mkJob 0 None "" None ""))
    (mkCheckRun (Partial "ping" (fconst 1 (-1))) None [] None false)) = StatusPartial.
Proof.
  destruct (verdict_needs_undisturbed_run (nth 0 demoJobs (mkJob 0 None "" None ""))
    (mkCheckRun (Partial "ping" (fconst 1 (-1))) None [] None false)) as (_ & _ & _ & _ & H & _);
    [vm_compute; reflexivity|]. rewrite H. vm_compute. reflexivity.
Defined.

(** ** All questions of a rubric at once *)

Definition checkInstanceFor (questionID check : string) (index : nat) : string :=
  let i := check +:+ "[" +:+ itoa (Z.of_nat index) +:+ "]" in
  if decide (questionID = "") then i else questionID +:+ "/" +:+ i.

Definition zeroResult : Result := mkResult "" StatusPass fzero "" [].

Section Wave.
Context (lookup : string -> option Check) (env : option GEnv).
Context (questions : list QuestionSpec).

Definition checksOf (qi : nat) : list CheckSpec :=
  match questions !! qi with Some q => qChecks q | None => [] end.
Definition idOf (qi : nat) : string :=
  match questions !! qi with Some q => qID q | None => "" end.

(** The locations (question, check) of the jobs, in order. *)
Definition locations (indices : list nat) : list (nat * nat) :=
  concat (map (fun qi => map (pair qi) (seq 0 (length (checksOf qi)))) indices).

Definition jobAt (order : nat) (loc : nat * nat) : scheduledCheck :=
  let spec := nth loc.2 (checksOf loc.1) (mkCheckSpec "" fzero) in
  mkJob order (lookup (csCheck spec)) (csCheck spec) env
    (checkInstanceFor (idOf loc.1) (csCheck spec) loc.2).

Definition waveJobs (indices : list nat) : list scheduledCheck := imap jobAt (locations indices).

(** The flat results put back at their question and check. *)
Definition splitResults (indices : list nat) (flat : list Result) : gmap nat (list Result) :=
  let out := fold_left (fun m qi => <[qi := replicate (length (checksOf qi)) zeroResult]> m) indices ∅ in
  fold_left (fun m '(loc, r) => alter (fun rs => <[loc.2 := r]> rs) loc.1 m)
    (zip (locations indices) flat) out.

Lemma waveJobs_numbered indices : numbered (waveJobs indices).
Proof.
  intros i j. unfold waveJobs. rewrite list_lookup_imap. intros (loc & _ & ->)%fmap_Some. done.
Qed.

Lemma length_waveJobs indices : length (waveJobs indices) = length (locations indices).
Proof. apply length_imap. Qed.

Definition writeAt (m : gmap nat (list Result)) (x : (nat * nat) * Result) : gmap nat (list Result) :=
  alter (fun rs => <[x.1.2 := x.2]> rs) x.1.1 m.

(** Writing every check of one question leaves exactly those results. *)
Lemma fold_write_one qi (res : nat -> nat -> Result) (m : gmap nat (list Result)) rs k :
  m !! qi = Some rs -> (k <= length rs)%nat ->
  fold_left writeAt (map (fun loc => (loc, res loc.1 loc.2)) (map (pair qi) (seq 0 k))) m
  = <[qi := map (res qi) (seq 0 k) ++ drop k rs]> m.
Proof.
  intros Hm. induction k as [|k IH]; intros Hk.
  - simpl. by rewrite drop_0, insert_id.
  - rewrite seq_S, !map_app, fold_left_app, IH by lia. cbn [map fold_left Nat.add].
    unfold writeAt. cbn [fst snd]. rewrite alter_insert_eq. f_equal.
    destruct (lookup_lt_is_Some_2 rs k ltac:(lia)) as [x Hx]. rewrite (drop_S rs x k Hx).
    rewrite insert_app_r_alt by (rewrite length_map, length_seq; done).
    rewrite length_map, length_seq, Nat.sub_diag. simpl. by rewrite <- app_assoc.
Qed.

Lemma fold_write_all (res : nat -> nat -> Result) indices m qi :
  NoDup indices ->
  (forall x, x ∈ indices -> m !! x = Some (replicate (length (checksOf x)) zeroResult)) ->
  fold_left writeAt (map (fun loc => (loc, res loc.1 loc.2)) (locations indices)) m !! qi
  = if decide (qi ∈ indices) then Some (map (res qi) (seq 0 (length (checksOf qi)))) else m !! qi.
Proof.
  revert m. induction indices as [|x indices IH]; intros m Hnd Hm; [done|].
  apply NoDup_cons in Hnd as [Hx Hnd]. unfold locations. cbn [map concat].
  rewrite map_app, fold_left_app, (fold_write_one x res m _ _ (Hm x ltac:(left)))
    by (by rewrite length_replicate).
  rewrite drop_ge by (rewrite length_replicate; lia). rewrite app_nil_r. fold (locations indices).
  rewrite IH; [|done|].
  2: { intros y Hy. rewrite lookup_insert_ne by set_solver. apply Hm. by right. }
  destruct (decide (qi = x)) as [->|Hne].
  - rewrite (decide_False (P := x ∈ indices)) by done. rewrite lookup_insert_eq.
    by rewrite (decide_True (P := x ∈ x :: indices)) by left.
  - rewrite lookup_insert_ne by done. destruct (decide (qi ∈ indices)).
    + by rewrite (decide_True (P := qi ∈ x :: indices)) by (by right).
    + by rewrite (decide_False (P := qi ∈ x :: indices)) by set_solver.
Qed.

Lemma zip_map_self {A B} (g : A -> B) l : zip l (map g l) = map (fun x => (x, g x)) l.
Proof. induction l as [|x l IH]; [done|]. simpl. by rewrite IH. Qed.

Lemma fresh_slices indices (m : gmap nat (list Result)) x :
  NoDup indices -> x ∈ indices ->
  fold_left (fun m qi => <[qi := replicate (length (checksOf qi)) zeroResult]> m) indices m !! x
  = Some (replicate (length (checksOf x)) zeroResult).
Proof.
  revert m. induction indices as [|y indices IH]; intros m Hnd Hx; [set_solver|].
  apply NoDup_cons in Hnd as [Hy Hnd]. simpl.
  destruct (decide (x ∈ indices)) as [Hin|Hin]; [by apply IH|].
  apply elem_of_cons in Hx as [->|?]; [|done]. clear IH.
  assert (forall l m, y ∉ l -> fold_left (fun m qi => <[qi := replicate (length (checksOf qi)) zeroResult]> m) l m !! y
    = (m : gmap nat (list Result)) !! y) as H.
  2: { rewrite H by done. by rewrite lookup_insert_eq. }
  induction l as [|z l IHl]; intros m' Hl; [done|]. simpl. rewrite IHl by set_solver.
  by rewrite lookup_insert_ne by set_solver.
Qed.

Lemma splitResults_lookup (res : nat -> nat -> Result) indices qi :
  NoDup indices -> qi ∈ indices ->
  splitResults indices (map (fun loc => res loc.1 loc.2) (locations indices)) !! qi
  = Some (map (res qi) (seq 0 (length (checksOf qi)))).
Proof.
  intros Hnd Hq. unfold splitResults. rewrite zip_map_self.
  assert (forall l m, fold_left (fun m '(loc, r) => alter (fun rs => <[loc.2 := r]> rs) loc.1 m) l m
    = fold_left writeAt l m) as ->.
  { clear. induction l as [|[loc r] l IH]; intros m; [done|]. simpl. apply IH. }
  rewrite fold_write_all; [by rewrite decide_True|done|]. intros x Hx. by apply fresh_slices.
Qed.
End Wave.

(** The results of every question, as [Run] reads them from the map. *)
Definition setsOf (n : nat) (out : gmap nat (list Result)) : list (list Result) :=
  map (fun i => lookup_or [] out i) (seq 0 n).

(** C35. A report does not depend on timing: for every order in which the checks
    of a rubric complete under the scheduler, the finished report is the one
    computed from the checks' own results question by question. *)
Theorem report_independent_of_schedule (lookup : string -> option Check) (env : option GEnv)
    (o : RunOptions) (rep : Report) (r : Rubric) (res : nat -> nat -> Result) (st : sched) :
  let qs := rubQuestions r in
  let indices := seq 0 (length qs) in
  let jobs := waveJobs lookup env qs indices in
  let outcome i := res (nth i (locations qs indices) (0, 0)%nat).1
                       (nth i (locations qs indices) (0, 0)%nat).2 in
  nsteps (sstep jobs (normalise o) outcome) (length jobs) (initial jobs) st ->
  let flat := map (from_option id zeroResult) (resultSlice jobs st) in
  finishReport rep r (setsOf (length qs) (splitResults qs indices flat)) ""
  = finishReport rep r (imap (fun i q => map (res i) (seq 0 (length (qChecks q)))) qs) "".
Proof.
  intros qs indices jobs outcome Hr flat.
  destruct (normalise_positive o) as (H1 & H2 & H3).
  apply reachable_inv in Hr as [HI Hf]; [|apply waveJobs_numbered|done..].
  assert (flat = map (fun loc => res loc.1 loc.2) (locations qs indices)) as Hflat.
  { unfold flat. rewrite (finished_slice _ _ _ _ HI Hf), map_map. unfold jobs. rewrite length_waveJobs.
    simpl. unfold outcome. generalize (locations qs indices). intros l. apply list_eq. intros i.
    rewrite !list_lookup_fmap. destruct (l !! i) as [loc|] eqn:E.
    - rewrite (proj2 (lookup_seq 0 (length l) i i)) by (apply lookup_lt_Some in E; lia). simpl.
      by rewrite (nth_lookup_Some _ _ _ _ E).
    - rewrite lookup_seq_ge by (by apply lookup_ge_None). done. }
  f_equal. rewrite Hflat. unfold setsOf. apply list_eq. intros i. rewrite list_lookup_fmap, list_lookup_imap.
  destruct (qs !! i) as [q|] eqn:E.
  - rewrite (proj2 (lookup_seq 0 (length qs) i i)) by (apply lookup_lt_Some in E; lia). simpl. f_equal.
    unfold lookup_or. rewrite splitResults_lookup; [|apply NoDup_seq|apply elem_of_seq; apply lookup_lt_Some in E; lia].
    simpl. unfold checksOf. by rewrite E.
  - by rewrite lookup_seq_ge by (by apply lookup_ge_None).
Qed.

Definition demoLookup (name : string) : option Check := Some (mkCheck name CheckReadOnly None).
Definition demoRes (qi ci : nat) : Result := if Nat.eqb qi 0 then Pass "ospf" else Fail_ "bgp".

Lemma report_independent_of_schedule_witness :
  let qs := rubQuestions demoRubric in
  let jobs := waveJobs demoLookup None qs (seq 0 2) in
  let outcome i := demoRes (nth i (locations qs (seq 0 2)) (0, 0)%nat).1
                           (nth i (locations qs (seq 0 2)) (0, 0)%nat).2 in
  exists st, runSchedule jobs (normalise demoOpts) outcome [1; 0]%nat (initial jobs) = Some st
  /\ repTotal (finishReport emptyReport demoRubric (setsOf 2 (splitResults qs (seq 0 2)
       (map (from_option id zeroResult) (resultSlice jobs st)))) "") = fone.
Proof.
  intros qs jobs outcome.
  destruct (runSchedule jobs (normalise demoOpts) outcome [1; 0]%nat (initial jobs)) as [st|] eqn:E;
    [|vm_compute in E; discriminate E].
  exists st. split; [reflexivity|].
  pose proof (report_independent_of_schedule demoLookup None demoOpts emptyReport demoRubric demoRes st
    (runSchedule_nsteps _ _ _ _ _ _ E)) as H.
  apply (f_equal repTotal) in H. exact H.
Defined.
