(* ===== verification/Demand.v ===== *)
(** * What a device requests

    Models [internal/runtime/memory.go] (quantities such as [512Mi]), the
    resource requests of [internal/model/lab.go], [deviceDemand] and
    [TopologyDemandByNode] of [internal/place/resources.go] and
    [internal/place/summary.go]: the numbers placement and admission add up. *)

From stdpp Require Import base gmap strings list fin_maps sorting pretty.
From Stdlib Require Import ZArith Lia SpecFloat Ascii.
From S2P Require Import Prelude Text Capacity.

Open Scope Z_scope.

(** ** Decimal numbers *)

(** The float nearest to [m / 10^k]: [strconv.ParseFloat] on digits, and a
    decimal constant of the source. *)
Definition fdec (m : Z) (k : nat) : float64 :=
  match m with
  | Zpos p =>
      let '(q, e, l) := SFdiv_core_binary 53 1024 (Zpos p) 0 (10 ^ Z.of_nat k) 0 in
      binary_round_aux 53 1024 false q e l
  | _ => fzero
  end.

(** [int64(x)]: towards zero; a value out of range is [math.MinInt64], as on
    amd64. *)
Definition ftrunc (x : float64) : Z :=
  match x with
  | S754_zero _ => 0
  | S754_finite s m e =>
      let v := if 0 <=? e then Zpos m * 2 ^ e else Zpos m / 2 ^ (- e) in
      let v := if s then - v else v in
      if (- 2 ^ 63 <=? v) && (v <? 2 ^ 63) then v else - 2 ^ 63
  | _ => - 2 ^ 63
  end.

(** ** Quantities *)

Fixpoint span (p : ascii -> bool) (s : string) : string * string :=
  match s with
  | EmptyString => ("", "")
  | String c s' => if p c then let '(a, b) := span p s' in (String c a, b) else ("", s)
  end.
Definition isDigit (c : ascii) : bool := bool_decide (is_Some (digitOf c)).
Definition isLetter (c : ascii) : bool :=
  let n := Z.of_N (N_of_ascii c) in
  ((65 <=? n) && (n <=? 90)) || ((97 <=? n) && (n <=? 122)).
(** [\s] of a regular expression: no vertical tab. *)
Definition reSpace (c : ascii) : bool :=
  let n := Z.of_N (N_of_ascii c) in
  (n =? 32) || (n =? 9) || (n =? 10) || (n =? 12) || (n =? 13).

(** [memRe]: the digits before and after the point, and the unit. *)
Definition matchMem (t : string) : option (string * string * string) :=
  let '(i, r) := span isDigit t in
  if decide (i = "") then None
  else
    let '(f, r) := match r with
                   | String "." r' => let '(f, r'') := span isDigit r' in
                                      if decide (f = "") then ("", r) else (f, r'')
                   | _ => ("", r)
                   end in
    let '(u, rest) := span isLetter (span reSpace r).2 in
    if decide (rest = "") then Some (i, f, u) else None.

Definition multiplier (unit : string) : option Z :=
  let u := toLower unit in
  if bool_decide (u ∈ [""; "b"]) then Some 1
  else if bool_decide (u ∈ ["k"; "kb"; "ki"; "kib"]) then Some (2 ^ 10)
  else if bool_decide (u ∈ ["m"; "mb"; "mi"; "mib"]) then Some (2 ^ 20)
  else if bool_decide (u ∈ ["g"; "gb"; "gi"; "gib"]) then Some (2 ^ 30)
  else if bool_decide (u ∈ ["t"; "tb"; "ti"; "tib"]) then Some (2 ^ 40)
  else None.

Definition minMemory : Z := 6 * 2 ^ 20.

(** [ParseMemory]; [None] is an error. *)
Definition ParseMemory (s : string) : option Z :=
  let t := trimSpace s in
  if decide (t = "") then Some 0
  else
    '(i, f, u) ← matchMem t;
    n ← digits 0 (i +:+ f);
    match fdec n (String.length f) with
    | S754_infinity _ => None
    | v =>
        mult ← multiplier u;
        let bytes := ftrunc (fmul v (fint mult)) in
        if bytes <? minMemory then None else Some bytes
    end.

Definition FormatMemory (bytes : Z) : string := if bytes <=? 0 then "" else itoa bytes.

(** ** Requests *)

Definition KindRouter : string := "router".
Definition KindSwitch : string := "switch".
Definition KindService : string := "service".
Definition KindP4 : string := "p4".
Definition KindController : string := "controller".
Definition DefaultNOS : string := "frr".

Record ResourceRequest := mkRequest {
  rqCPUs : float64; rqMemory : string; rqPids : Z; rqEphemeralStorage : string;
  rqDisk : string; rqFileDescriptors : Z; rqNetDevices : Z
}.

Definition Storage (r : ResourceRequest) : string :=
  if decide (rqEphemeralStorage r = "") then rqDisk r else rqEphemeralStorage r.

Definition requestEmpty (r : ResourceRequest) : bool :=
  feq (rqCPUs r) fzero && bool_decide (rqMemory r = "") && (rqPids r =? 0)
  && bool_decide (rqEphemeralStorage r = "") && bool_decide (rqDisk r = "")
  && (rqFileDescriptors r =? 0) && (rqNetDevices r =? 0).

Definition MergeRequest (r base : ResourceRequest) : ResourceRequest :=
  mkRequest (if feq (rqCPUs r) fzero then rqCPUs base else rqCPUs r)
    (if decide (rqMemory r = "") then rqMemory base else rqMemory r)
    (if rqPids r =? 0 then rqPids base else rqPids r)
    (if decide (Storage r = "") then Storage base else Storage r) ""
    (if rqFileDescriptors r =? 0 then rqFileDescriptors base else rqFileDescriptors r)
    (if rqNetDevices r =? 0 then rqNetDevices base else rqNetDevices r).

Definition DefaultResourceRequest (kind : string) : ResourceRequest :=
  if decide (kind = KindRouter) then mkRequest (fdec 4 2) "128Mi" 64 "256Mi" "" 1024 8
  else if decide (kind = KindSwitch) then mkRequest (fdec 4 2) "128Mi" 512 "128Mi" "" 1024 8
  else if decide (kind = KindService) then mkRequest (fdec 10 2) "128Mi" 512 "256Mi" "" 1024 8
  else if decide (kind = KindP4) then mkRequest (fdec 50 2) "256Mi" 96 "512Mi" "" 1024 16
  else if decide (kind = KindController) then mkRequest (fdec 25 2) "128Mi" 64 "128Mi" "" 1024 32
  else mkRequest (fdec 2 2) "64Mi" 32 "64Mi" "" 256 2.

Definition FRRControlResourceRequest : ResourceRequest :=
  mkRequest (fdec 8 2) "256Mi" 256 "128Mi" "" 1024 0.

Definition EffectiveResourceRequest (kind : string) (authored : option ResourceRequest)
    : ResourceRequest :=
  match authored with
  | None => DefaultResourceRequest kind
  | Some r => MergeRequest r (DefaultResourceRequest kind)
  end.

(** The fields of [model.Device] that decide its demand. *)
Record DeviceSpec := mkDeviceSpec {
  dsKind : string; dsNOS : string; dsRequests : ResourceRequest;
  dsCPUs : float64; dsMemory : string; dsPids : Z
}.

Definition EffectiveNOS (d : DeviceSpec) : string :=
  if decide (dsKind d = KindRouter) then
    if decide (dsNOS d = "") then DefaultNOS else dsNOS d
  else "".

Definition requestDemand (r : ResourceRequest) : Resources :=
  let memory := default 0 (ParseMemory (rqMemory r)) in
  mkRes 1 (rqCPUs r) memory memory (default 0 (ParseMemory (Storage r))) (rqPids r)
    (rqFileDescriptors r) (rqNetDevices r).

(** The request [deviceDemand] charges: legacy limits where none is set. *)
Definition chargedRequest (d : DeviceSpec) : ResourceRequest :=
  let r := dsRequests d in
  if requestEmpty r then
    let base := DefaultResourceRequest (dsKind d) in
    if flt fzero (dsCPUs d) || negb (bool_decide (dsMemory d = "")) || (0 <? dsPids d)
    then mkRequest (if flt fzero (dsCPUs d) then dsCPUs d else rqCPUs base)
           (if decide (dsMemory d = "") then rqMemory base else dsMemory d)
           (if 0 <? dsPids d then dsPids d else rqPids base)
           (rqEphemeralStorage base) (rqDisk base) (rqFileDescriptors base) (rqNetDevices base)
    else mkRequest (fdec 5 2) "64Mi" (rqPids base) (rqEphemeralStorage base) (rqDisk base)
           (rqFileDescriptors base) (rqNetDevices base)
  else r.

Definition controlDemand (d : DeviceSpec) : option Resources :=
  if bool_decide (dsKind d = KindRouter) && bool_decide (EffectiveNOS d = DefaultNOS)
  then Some (requestDemand FRRControlResourceRequest) else None.

Definition deviceDemand (d : DeviceSpec) : Resources :=
  let dem := requestDemand (chargedRequest d) in
  match controlDemand d with
  | Some c => add dem c
  | None => dem
  end.
