(* ===== verification/Placer.v ===== *)
(** * Placement of autonomous systems and services on nodes

    Models [internal/place/place.go], [groups.go], [services.go], the rest of
    [admission.go] and of [resources.go], and [orderForLocality] of
    [affinity.go]: from pins, a recorded placement and live inventory to a node
    for every device, or a refusal.

    The graph that reconciliation rewires is [Attachments.Top]; what only
    placement reads of a device, an AS or a service is kept beside it. The
    formatting of messages is not modelled: an error is a constructor, an
    overload is a node and a dimension. *)

From stdpp Require Import base gmap strings list fin_maps sorting pretty.
From Stdlib Require Import ZArith Lia SpecFloat.
From S2P Require Import Prelude Text Model Alloc Ipam Capacity Affinity Replicas Attachments.
From S2P Require Import Demand.

Open Scope Z_scope.

(** ** The topology, as placement sees it *)

Record PDevice := mkPDevice {
  pdASN : Z; pdGroup : string; pdSpec : DeviceSpec; pdRuntimeClass : string; pdUsernsMode : string
}.
Record PGroup := mkPGroup { grID : string; grClass : string; grDevices : list string }.
Record PAS := mkPAS { pasDevices : list string; pasDistributable : bool; pasGroups : list PGroup }.
Record PNode := mkPNode {
  pnSpec : NodeSpec; pnFront : bool; pnWeight : float64; pnRuntimeClass : string;
  pnUsernsMode : string
}.
(** [model.PlacementPin]. *)
Record Pin := mkPin {
  pinAS : option Z; pinRole : string; pinService : string; pinRegion : string; pinNode : string
}.
Record Lab := mkLab {
  labNodes : list PNode; labPool : string; labReserve : gmap string Budget;
  labPins : list Pin; labStrategy : string
}.
Record PTop := mkPTop {
  graph : Top;
  devs : gmap string PDevice;
  ases : gmap Z PAS;
  svcNode : gmap string string;     (* Service.Node *)
  homes : gmap string string;       (* ServiceReplica.HomeNode, by replica ID *)
  lab : Lab
}.

Definition setGraph (g : Top) (t : PTop) : PTop :=
  mkPTop g (devs t) (ases t) (svcNode t) (homes t) (lab t).
Definition setDevs (d : gmap string PDevice) (t : PTop) : PTop :=
  mkPTop (graph t) d (ases t) (svcNode t) (homes t) (lab t).

Definition placementOf (l : Lab) : Placement := mkPlacement (map pnSpec (labNodes l)) (labPool l) (labReserve l).
Definition nodeName (n : PNode) : string := nName (pnSpec n).

Definition FrontNode (l : Lab) : string :=
  match List.find pnFront (labNodes l) with
  | Some n => nodeName n
  | None => match labNodes l with n :: _ => nodeName n | [] => "local" end
  end.
Definition NodeByName (l : Lab) (name : string) : option PNode :=
  List.find (fun n => bool_decide (nodeName n = name)) (labNodes l).

Definition SortedDevices (t : PTop) : list string := sortStrings (map fst (map_to_list (devs t))).
Definition asnsOf (t : PTop) : list Z := SortedASNs (graph t).
Definition servicesOf (t : PTop) : list string := SortedServiceNames (graph t).
Definition nodeOfDevice (t : PTop) (id : string) : string :=
  match tDevices (graph t) !! id with Some d => dNode d | None => "" end.
Definition asOf (t : PTop) (asn : Z) : PAS := lookup_or (mkPAS [] false []) (ases t) asn.

Definition demandOf (t : PTop) (id : string) : Resources :=
  match devs t !! id with Some d => deviceDemand (pdSpec d) | None => zeroRes end.
Definition sumDemand (t : PTop) (ids : list string) : Resources :=
  fold_left (fun d id => add d (demandOf t id)) ids zeroRes.

Definition TopologyDemandByNode (t : PTop) : gmap string Resources :=
  fold_left (fun out id =>
    if decide (nodeOfDevice t id = "") then out
    else <[nodeOfDevice t id := add (loadOf out (nodeOfDevice t id)) (demandOf t id)]> out)
    (SortedDevices t) ∅.

(** Whether a service owns a device: as one of its replicas, or as the legacy
    singleton. *)
Definition serviceOwns (t : PTop) (id name : string) : option (Service * option ServiceReplica) :=
  s ← tServices (graph t) !! name;
  match List.find (fun r => bool_decide (repDevice r = Some id)) (svcReplicas (sSvc s)) with
  | Some r => Some (sSvc s, Some r)
  | None => if bool_decide (fst <$> svcDevice (sSvc s) = Some id) then Some (sSvc s, None) else None
  end.
Definition ServiceByDevice (t : PTop) (id : string) : option (Service * option ServiceReplica) :=
  head (omap (serviceOwns t id) (servicesOf t)).

(** ** Assignments, records and options *)

(** [Assignment]; link locality by class is not modelled. *)
Record Assignment := mkAssign {
  aByAS : gmap Z string; aByGroup : gmap string string; aByService : gmap string string;
  aByServiceReplica : gmap string string; aLoad : gmap string Z; aCrossNodeLinks : Z
}.

(** [place.Record], without the lab, strategy and override it also notes. *)
Record PlaceRecord := mkPlaceRecord {
  rByAS : gmap Z string; rByGroup : gmap string string; rByService : gmap string string;
  rByServiceReplica : gmap string string
}.
Definition RecordOf (a : Assignment) : PlaceRecord :=
  mkPlaceRecord (aByAS a) (aByGroup a) (aByService a) (aByServiceReplica a).

Record POptions := mkPOpts {
  poStrategy : string; poFixed : option PlaceRecord; poRebalance : bool; poCap : Options
}.
Definition strict (o : POptions) : bool := oStrict (poCap o) && negb (oOvercommit (poCap o)).
(** The record [Place] honours. *)
Definition honoured (o : POptions) : option PlaceRecord := if poRebalance o then None else poFixed o.

Inductive moved :=
| MovedAS (asn : Z) (from : string)
| MovedService (service replica from : string)
| MovedGroup (group from : string).

Inductive overDim := OverInt (d : dim) | OverCPU.

Inductive placeErr :=
| ENoNodes | ENoPool | ENoInventory | EStrategy (s : string)
| ERecordedGroupUnknown (group node : string)
| EServiceNoNode (service : string) | EServicePin (service node : string)
| EPinNode (asn : Z) (node : string) | EPinUnknown (asn : Z) (node : string)
| ENoRoom (asn : Z) | ENoAnchor (asn : Z)
| EUnresolved (id : string) | EUndeclared (id node : string) | EUnknownCapacity (id node : string)
| EOverload (over : list (string * overDim))
| EUnplaced (id : string) | EUnknownNode (id node : string) | EAttach (e : attachErr).

(** ** Where a device goes *)

Definition nodeInPool (l : Lab) (name : string) : bool :=
  match NodeByName l name with
  | None => false
  | Some n => bool_decide (labPool l = "") || bool_decide (nPool (pnSpec n) = labPool l)
  end.

Definition serviceReplicaNode (t : PTop) (a : Assignment) (id : string) : string :=
  match ServiceByDevice t id with
  | None => ""
  | Some (_, Some r) => lookup_or "" (aByServiceReplica a) (repID r)
  | Some (s, None) => lookup_or "" (aByService a) (svcName s)
  end.

Definition nodeForAssignment (t : PTop) (a : Assignment) (id : string) : string :=
  match devs t !! id with
  | None => ""
  | Some d =>
      if negb (pdASN d =? 0) then
        let g := if decide (pdGroup d = "") then "" else lookup_or "" (aByGroup a) (pdGroup d) in
        if decide (g = "") then lookup_or "" (aByAS a) (pdASN d) else g
      else
        let n := serviceReplicaNode t a id in
        if decide (n = "") then FrontNode (lab t) else n
  end.

Definition chargeTo (node : string) (need : Resources) (loads : gmap string Resources)
    : gmap string Resources := <[node := add (loadOf loads node) need]> loads.

Definition assignmentDemands (t : PTop) (a : Assignment) (base : gmap string Resources)
    : gmap string Resources :=
  fold_left (fun loads id =>
    let node := nodeForAssignment t a id in
    if decide (node = "") then loads else chargeTo node (demandOf t id) loads)
    (SortedDevices t) base.

(** ** Refusals *)

Definition overInt (c l : Z) : bool := ((c <? 0) && (0 <? l)) || ((0 <? c) && (c <? l)).
Definition overCPU (c l : float64) : bool := (flt c fzero && flt fzero l) || (flt fzero c && flt c l).

(** The dimensions in which one node is overloaded. *)
Definition overDims (c l : Resources) : list overDim :=
  let o d := if overInt (amount d c) (amount d l) then [OverInt d] else [] in
  o DContainers ++ (if overCPU (CPUs c) (CPUs l) then [OverCPU] else [])
  ++ o DMemory ++ o DDisk ++ o DPids ++ o DFds ++ o DNetdevs.

Definition overloads (t : PTop) (a : Assignment) (st : capacityState) : list (string * overDim) :=
  let loads := assignmentDemands t a (baseline st) in
  concat (map (fun name => if hasOf st name then map (pair name) (overDims (capOf st name) (loadOf loads name))
                           else [])
            (sortStrings (map fst (map_to_list loads)))).

Definition deviceRefusal (t : PTop) (a : Assignment) (st : capacityState) (id : string)
    : option placeErr :=
  let node := nodeForAssignment t a id in
  if decide (node = "") then Some (EUnresolved id)
  else if negb (bool_decide (node ∈ allNodeName st)) then Some (EUndeclared id node)
  else if negb (bool_decide (lookup_or [] (unknown st) node = [])) then Some (EUnknownCapacity id node)
  else None.

Definition strictAssignmentError (t : PTop) (a : Assignment) (st : capacityState) : option placeErr :=
  match head (omap (deviceRefusal t a st) (SortedDevices t)) with
  | Some e => Some e
  | None => match overloads t a st with
            | [] => None
            | over => Some (EOverload over)
            end
  end.

(** [AdmitPlaced]: the assignment read back from stamped devices. *)
Definition readBack (t : PTop) (a : Assignment) (id : string) : Assignment :=
  let node := nodeOfDevice t id in
  if decide (node = "") then a
  else
    match devs t !! id with
    | None => a
    | Some d =>
        if negb (pdASN d =? 0) then
          mkAssign (match aByAS a !! pdASN d with Some _ => aByAS a | None => <[pdASN d := node]> (aByAS a) end)
            (if decide (pdGroup d = "") then aByGroup a else <[pdGroup d := node]> (aByGroup a))
            (aByService a) (aByServiceReplica a) (aLoad a) (aCrossNodeLinks a)
        else
          match ServiceByDevice t id with
          | None => a
          | Some (s, Some r) =>
              mkAssign (aByAS a) (aByGroup a)
                (if decide (lookup_or "" (aByService a) (svcName s) = "")
                 then <[svcName s := node]> (aByService a) else aByService a)
                (<[repID r := node]> (aByServiceReplica a)) (aLoad a) (aCrossNodeLinks a)
          | Some (s, None) =>
              mkAssign (aByAS a) (aByGroup a) (<[svcName s := node]> (aByService a))
                (aByServiceReplica a) (aLoad a) (aCrossNodeLinks a)
          end
    end.
Definition noAssignment : Assignment := mkAssign ∅ ∅ ∅ ∅ ∅ 0.
Definition placedAssignment (t : PTop) : Assignment :=
  fold_left (readBack t) (SortedDevices t) noAssignment.

Definition AdmitPlaced (t : PTop) (inventory : list NodeInventory) (strict overcommit : bool)
    : option placeErr :=
  let st := buildCapacityState (tName (graph t)) (placementOf (lab t))
              (mkOpts inventory strict overcommit ∅) in
  if strict && negb overcommit then strictAssignmentError t (placedAssignment t) st else None.

(** ** The order of the greedy pass *)

Section Order.
Context (g : affinityGraph) (weight : Z -> Resources).

Definition seedLe (a b : Z) : Prop :=
  degree g b < degree g a
  \/ degree g a = degree g b
     /\ (Containers (weight b) < Containers (weight a)
         \/ Containers (weight a) = Containers (weight b) /\ a <= b).
#[export] Instance seedLe_dec : RelDecision seedLe.
Proof. unfold seedLe. intros ??. apply _. Defined.

Record frontier := mkFrontier { waiting : gset Z; linked : gmap Z Z; ordered : list Z }.

(** An AS is ordered, and its waiting neighbours gain their links to it. *)
Definition visit (asn : Z) (f : frontier) : frontier :=
  let w := waiting f ∖ {[asn]} in
  mkFrontier w
    (map_fold (fun p c linked => if decide (p ∈ w) then <[p := lookup_or 0 linked p + c]> linked
                                 else linked) (linked f) (peersOf g asn))
    (ordered f ++ [asn]).

(** The waiting AS with most links, then weight, then lowest number; 0 is none. *)
Definition nextStep (linked : gmap Z Z) (best : Z * Z * Z) (asn : Z) : Z * Z * Z :=
  let '(next, bestLink, bestWeight) := best in
  let l := lookup_or 0 linked asn in
  let w := Containers (weight asn) in
  if l =? 0 then best
  else if (next =? 0) || (bestLink <? l) || ((l =? bestLink) && (bestWeight <? w))
          || ((l =? bestLink) && (w =? bestWeight) && (asn <? next))
  then (asn, l, w) else best.
Definition bestNext (free : list Z) (linked : gmap Z Z) : Z * Z * Z :=
  fold_left (nextStep linked) free (0, 0, 0).

Fixpoint grow (fuel : nat) (free : list Z) (f : frontier) : frontier :=
  match fuel with
  | O => f
  | S fuel =>
      let '(next, _, _) := bestNext free (linked f) in
      if next =? 0 then f
      else grow fuel free (visit next (mkFrontier (waiting f) (delete next (linked f)) (ordered f)))
  end.

Definition seedStep (fuel : nat) (free : list Z) (f : frontier) (seed : Z) : frontier :=
  if negb (bool_decide (seed ∈ waiting f)) then f else grow fuel free (visit seed f).

Definition orderWith (fuel : nat) (free : list Z) : list Z :=
  ordered (fold_left (seedStep fuel free) (merge_sort seedLe free) (mkFrontier (list_to_set free) ∅ [])).
(** Each turn of the inner loop orders one AS. *)
Definition orderForLocality (free : list Z) : list Z := orderWith (length free) free.
End Order.

(** ** Choosing a node *)

Section Choose.
Context (names : list string) (caps : gmap string Resources) (hasCap : gmap string bool)
  (weights : gmap string float64) (nominal : Z).

Definition fitsOn (loads : gmap string Resources) (need : Resources) (n : string) : bool :=
  fits (loadOf loads n) need (lookup_or zeroRes caps n) (lookup_or false hasCap n).
Definition pressureWith (loads : gmap string Resources) (need : Resources) (n : string) : float64 :=
  placementPressure (add (loadOf loads n) need) (lookup_or zeroRes caps n) (lookup_or false hasCap n)
    nominal (lookup_or fzero weights n).

Record cand := mkCand { cName : string; cPressure : float64; cLocality : Z }.

(** Whether [c] replaces [best]. *)
Definition beats (c best : cand) : bool :=
  (cLocality best <? cLocality c)
  || ((cLocality c =? cLocality best) && flt (cPressure c) (cPressure best))
  || ((cLocality c =? cLocality best) && feq (cPressure c) (cPressure best)
      && String.ltb (cName c) (cName best)).

(** [bestForLocality]; [None] is "no node has room". When no candidate passes
    the tolerance the code returns an empty name. *)
Definition bestForLocality (loads : gmap string Resources) (need : Resources) (tolerance : float64)
    (localityOf : string -> Z) : option string :=
  let cands := map (fun n => mkCand n (pressureWith loads need n) (localityOf n))
                 (List.filter (fitsOn loads need) names) in
  match cands with
  | [] => None
  | c0 :: _ =>
      let minP := fold_left (fun m c => if flt (cPressure c) m then cPressure c else m) cands (cPressure c0) in
      let best := fold_left (fun best c =>
        if flt (fadd minP tolerance) (cPressure c) then best
        else match best with
             | None => Some c
             | Some b => if beats c b then Some c else best
             end) cands None in
      Some (match best with Some c => cName c | None => "" end)
  end.

(** The least loaded of a list of nodes. *)
Definition leastLoaded (loads : gmap string Resources) (need : Resources) (ns : list string)
    : option string :=
  fst <$> fold_left (fun best n =>
    let p := pressureWith loads need n in
    match best with
    | None => Some (n, p)
    | Some (_, bp) => if flt p bp then Some (n, p) else best
    end) ns None.

(** [bestGroupNode]: a fitting node if there is one, else any. *)
Definition bestGroupNode (loads : gmap string Resources) (need : Resources) : string :=
  match leastLoaded loads need (List.filter (fitsOn loads need) names) with
  | Some n => n
  | None => match leastLoaded loads need names with
            | Some n => n
            | None => hd "" names
            end
  end.
End Choose.

(** ** Pins *)

Definition matches (p : Pin) (asn : Z) (a : SAS) : bool :=
  match pinAS p with Some n => n =? asn | None => true end
  && (bool_decide (pinRole p = "") || bool_decide (pinRole p = asRole a))
  && (bool_decide (pinRegion p = "") || bool_decide (pinRegion p = asRegion a))
  && negb (bool_decide (pinAS p = None) && bool_decide (pinRole p = "")
           && bool_decide (pinRegion p = "")).

(** The ASes pinned in the manifest: later pins win, and an AS's own pin over
    both. *)
Definition pinStep (t : PTop) (m : gmap Z string) (p : Pin) : gmap Z string :=
  fold_left (fun m asn => match tASes (graph t) !! asn with
                          | Some a => if matches p asn a then <[asn := pinNode p]> m else m
                          | None => m
                          end) (asnsOf t) m.
Definition selfPin (t : PTop) (m : gmap Z string) (asn : Z) : gmap Z string :=
  match tASes (graph t) !! asn with
  | Some a => if decide (asNode a = "") then m else <[asn := asNode a]> m
  | None => m
  end.
Definition explicitPins (t : PTop) : gmap Z string :=
  fold_left (selfPin t) (asnsOf t) (fold_left (pinStep t) (labPins (lab t)) ∅).

Definition servicePins (t : PTop) : gmap string string :=
  fold_left (fun m p =>
    if decide (pinService p = "") then m
    else fold_left (fun m s => if bool_decide (pinService p = "*") || bool_decide (pinService p = s)
                               then <[s := pinNode p]> m else m) (servicesOf t) m)
    (labPins (lab t)) ∅.

(** The recorded location of an AS, unless it is pinned or its node is gone. *)
Definition recordStep (r : PlaceRecord) (nodes : gset string) (acc : gmap Z string * list moved)
    (asn : Z) : gmap Z string * list moved :=
  match rByAS r !! asn, acc.1 !! asn with
  | Some n, None => if decide (n ∈ nodes) then (<[asn := n]> acc.1, acc.2)
                    else (acc.1, acc.2 ++ [MovedAS asn n])
  | _, _ => acc
  end.
Definition honourRecord (t : PTop) (o : POptions) (st : capacityState) (pinned : gmap Z string)
    : gmap Z string * list moved :=
  match honoured o with
  | None => (pinned, [])
  | Some r => fold_left (recordStep r (allNodeName st)) (asnsOf t) (pinned, [])
  end.

(** A recorded group on a node of unknown capacity refuses a strict run. *)
Definition recordedGroupError (o : POptions) (st : capacityState) : option placeErr :=
  match honoured o with
  | Some r =>
      if strict o then
        head (omap (fun g =>
          let n := lookup_or "" (rByGroup r) g in
          if bool_decide (n ∈ allNodeName st) && negb (bool_decide (lookup_or [] (unknown st) n = []))
          then Some (ERecordedGroupUnknown g n) else None)
          (sortStrings (map fst (map_to_list (rByGroup r)))))
      else None
  | None => None
  end.

(** ** Services *)

Definition stringsFirstReplica (replica : string) : bool :=
  hasSuffix replica "/replica-001" || hasSuffix replica "/shard-001".

(** The recorded node of a service or replica, empty when there is none. *)
Definition recordedNode (r : PlaceRecord) (service replica : string) : string :=
  let single := lookup_or "" (rByService r) service in
  if decide (replica = "") then single
  else
    let n := lookup_or "" (rByServiceReplica r) replica in
    if bool_decide (n = "") && negb (bool_decide (single = "")) && stringsFirstReplica replica
    then single else n.

Section Services.
Context (t : PTop) (o : POptions) (names : list string) (caps : gmap string Resources)
  (hasCap : gmap string bool) (pinned : gmap string string) (front : string) (nominal : Z).

Definition bestServiceNode (loads : gmap string Resources) (need : Resources) : string :=
  bestGroupNode names caps hasCap ∅ nominal loads need.

Definition serviceNode (service replica home pin : string) (loads : gmap string Resources)
    (need : Resources) : result placeErr (string * list moved) :=
  if decide (names = []) then Err (EServiceNoNode service)
  else if negb (bool_decide (pin = "")) then
    if bool_decide (pin ∈ names) then Ok (pin, []) else Err (EServicePin service pin)
  else
    let recorded := match honoured o with Some r => recordedNode r service replica | None => "" end in
    if negb (bool_decide (recorded = "")) then
      if bool_decide (recorded ∈ names) then Ok (recorded, [])
      else Ok (bestServiceNode loads need, [MovedService service replica recorded])
    else if negb (bool_decide (home = "")) && bool_decide (home ∈ names)
            && fitsOn caps hasCap loads need home then Ok (home, [])
    else if bool_decide (replica = "") && negb (bool_decide (front = "")) && bool_decide (front ∈ names)
    then Ok (front, [])
    else Ok (bestServiceNode loads need, []).

(** What [placeServices] has decided so far. *)
Record svcState := mkSvcState {
  ssService : gmap string string; ssReplica : gmap string string;
  ssLoads : gmap string Resources; ssMoved : list moved
}.

Definition demandOfOption (dev : option string) : Resources :=
  match dev with Some id => demandOf t id | None => zeroRes end.
Definition chargeOption (dev : option string) (node : string) (loads : gmap string Resources)
    : gmap string Resources :=
  match dev with Some id => chargeTo node (demandOf t id) loads | None => loads end.

Definition homeFor (s : Service) (r : ServiceReplica) : string :=
  if poRebalance o && negb (bool_decide (Mode (svcPolicy s) = ServicePerNode)) then ""
  else lookup_or "" (homes t) (repID r).

Fixpoint placeReplicas (name : string) (s : Service) (pin : string) (rs : list ServiceReplica)
    (st : svcState) : result placeErr svcState :=
  match rs with
  | [] => Ok st
  | r :: rs =>
      match serviceNode name (repID r) (homeFor s r) pin (ssLoads st) (demandOfOption (repDevice r)) with
      | Err e => Err e
      | Ok (node, mv) =>
          placeReplicas name s pin rs
            (mkSvcState
              (if decide (lookup_or "" (ssService st) name = "")
               then <[name := node]> (ssService st) else ssService st)
              (<[repID r := node]> (ssReplica st))
              (chargeOption (repDevice r) node (ssLoads st)) (ssMoved st ++ mv))
      end
  end.

Fixpoint placeServices (snames : list string) (st : svcState) : result placeErr svcState :=
  match snames with
  | [] => Ok st
  | name :: snames =>
      match tServices (graph t) !! name with
      | None => placeServices snames st
      | Some sv =>
          let s := sSvc sv in
          let pin := let p := lookup_or "" pinned name in
                     if decide (p = "") then lookup_or "" (svcNode t) name else p in
          match SortedReplicas (svcReplicas s) with
          | [] =>
              let dev := fst <$> svcDevice s in
              match serviceNode name "" "" pin (ssLoads st) (demandOfOption dev) with
              | Err e => Err e
              | Ok (node, mv) =>
                  placeServices snames
                    (mkSvcState (<[name := node]> (ssService st)) (ssReplica st)
                       (chargeOption dev node (ssLoads st)) (ssMoved st ++ mv))
              end
          | rs =>
              match placeReplicas name s pin rs st with
              | Err e => Err e
              | Ok st => placeServices snames st
              end
          end
      end
  end.
End Services.

(** ** Autonomous systems *)

Definition groupDemand (t : PTop) (g : PGroup) : Resources := sumDemand t (grDevices g).

Definition placementAnchorDemand (t : PTop) (a : PAS) : Resources :=
  let out := fold_left (fun d g => if decide (grClass g = "leaf") then d else add d (groupDemand t g))
               (pasGroups a) zeroRes in
  if empty out then fold_left (fun d id => add d (demandOf t id)) (pasDevices a) out else out.

Definition weightFor (t : PTop) (asn : Z) : Resources :=
  let a := asOf t asn in
  if pasDistributable a then placementAnchorDemand t a else sumDemand t (pasDevices a).

Record asState := mkASState { asBy : gmap Z string; asLoads : gmap string Resources; asFree : list Z }.

(** Pinned ASes first, so that their weight is known before the rest. *)
Fixpoint honourPins (t : PTop) (o : POptions) (st : capacityState) (pinned : gmap Z string)
    (asns : list Z) (s : asState) : result placeErr asState :=
  match asns with
  | [] => Ok s
  | asn :: asns =>
      match pinned !! asn with
      | None => honourPins t o st pinned asns (mkASState (asBy s) (asLoads s) (asFree s ++ [asn]))
      | Some n =>
          if negb (bool_decide (n ∈ allNodeName st)) then Err (EPinNode asn n)
          else if strict o && negb (bool_decide (lookup_or [] (unknown st) n = [])) then Err (EPinUnknown asn n)
          else honourPins t o st pinned asns
                 (mkASState (<[asn := n]> (asBy s)) (chargeTo n (weightFor t asn) (asLoads s)) (asFree s))
      end
  end.

(** The greedy pass. *)
Fixpoint greedy (t : PTop) (st : capacityState) (weights : gmap string float64) (g : affinityGraph)
    (front : string) (tolerance : float64) (nominal : Z) (asns : list Z) (s : asState)
    : result placeErr asState :=
  match asns with
  | [] => Ok s
  | asn :: asns =>
      match bestForLocality (names st) (caps st) (hasCap st) weights nominal (asLoads s)
              (weightFor t asn) tolerance (fun node => pull g asn node (asBy s) front) with
      | None => Err (ENoRoom asn)
      | Some n => greedy t st weights g front tolerance nominal asns
                    (mkASState (<[asn := n]> (asBy s)) (chargeTo n (weightFor t asn) (asLoads s)) (asFree s))
      end
  end.

Definition nodePlacementWeights (l : Lab) (names : list string) : gmap string float64 :=
  list_to_map (map (fun n => (n, match NodeByName l n with
                                 | Some p => if flt fzero (pnWeight p) then pnWeight p else fint 1
                                 | None => fint 1
                                 end)) names).

(** The links of the graph with the AS numbers and nodes of their devices. *)
Definition affinityLinks (t : PTop) : list Link :=
  let dev id := d ← devs t !! id; Some (mkDevice id (pdASN d) (nodeOfDevice t id) "") in
  map (fun l => mkLink (lID l) (lVNI l) (Some (mkIface "" (dev (lA l).1)))
                  (Some (mkIface "" (dev (lB l).1)))) (tLinks (graph t)).

(** ** Placement groups *)

Definition grpLe (a b : PGroup) : Prop := String.le (grID a) (grID b).
#[export] Instance grpLe_dec : RelDecision grpLe.
Proof. unfold grpLe. intros ??. apply _. Defined.
Definition SortedPlacementGroups (a : PAS) : list PGroup := merge_sort grpLe (pasGroups a).

Definition serviceDevices (s : Service) : list string :=
  match svcReplicas s with
  | [] => match svcDevice s with Some (id, _) => [id] | None => [] end
  | _ => omap repDevice (SortedReplicas (svcReplicas s))
  end.

Definition placementDemands (t : PTop) (a : Assignment) (base : gmap string Resources)
    : gmap string Resources :=
  let out := fold_left (fun out asn =>
    let n := lookup_or "" (aByAS a) asn in
    fold_left (fun out id => chargeTo n (demandOf t id) out) (pasDevices (asOf t asn)) out)
    (asnsOf t) base in
  fold_left (fun out name =>
    match tServices (graph t) !! name with
    | None => out
    | Some s => fold_left (fun out id => chargeTo (serviceReplicaNode t a id) (demandOf t id) out)
                  (serviceDevices (sSvc s)) out
    end) (servicesOf t) out.

Definition isLeaf (g : PGroup) : bool := bool_decide (grClass g = "leaf").
(** The groups that stay with the anchor, and those that may spread. *)
Definition splitGroups (groups : list PGroup) : list PGroup * list PGroup :=
  match List.filter (fun g => negb (isLeaf g)) groups with
  | [] => (take 1 groups, drop 1 groups)
  | anchors => (anchors, List.filter isLeaf groups)
  end.

Record groupState := mkGroupState {
  gsByAS : gmap Z string; gsByGroup : gmap string string; gsLoads : gmap string Resources;
  gsMoved : list moved
}.

Section Groups.
Context (t : PTop) (o : POptions) (st : capacityState) (weights : gmap string float64)
  (explicit : gmap Z string) (nominal : Z).

(** The recorded nodes of an AS's groups, and the ones that are gone. *)
Definition fixedGroups (groups : list PGroup) : gmap string string * list moved * bool :=
  match honoured o with
  | None => (∅, [], false)
  | Some r =>
      fold_left (fun '(fixed, mv, has) g =>
        match rByGroup r !! grID g with
        | None => (fixed, mv, has)
        | Some n => if bool_decide (n ∈ names st) then (<[grID g := n]> fixed, mv, true)
                    else (fixed, mv ++ [MovedGroup (grID g) n], true)
        end) groups (∅, [], false)
  end.
Definition hasFixedAS (asn : Z) : bool :=
  match honoured o with Some r => bool_decide (is_Some (rByAS r !! asn)) | None => false end.

Definition putGroup (g : PGroup) (n : string) (s : groupState) : groupState :=
  mkGroupState (gsByAS s) (<[grID g := n]> (gsByGroup s)) (chargeTo n (groupDemand t g) (gsLoads s)) (gsMoved s).

Definition distributeAS (asn : Z) (s : groupState) : result placeErr groupState :=
  let a := asOf t asn in
  let groups := SortedPlacementGroups a in
  if negb (pasDistributable a) || (length groups <? 2)%nat then Ok s
  else
    let '(fixed, mv, hasFixed) := fixedGroups groups in
    let s := mkGroupState (gsByAS s) (gsByGroup s) (gsLoads s) (gsMoved s ++ mv) in
    if bool_decide (is_Some (explicit !! asn)) || (hasFixedAS asn && negb hasFixed) then Ok s
    else
      let anchor := lookup_or "" (gsByAS s) asn in
      if bool_decide (is_Some (gsByAS s !! asn)) && bool_decide (anchor ∈ names st) then
        let s := mkGroupState (gsByAS s) (gsByGroup s)
                   (fold_left (fun l g => <[anchor := sub (loadOf l anchor) (groupDemand t g)]> l)
                      groups (gsLoads s)) (gsMoved s) in
        let '(anchors, leaves) := splitGroups groups in
        let '(s, anchor) := fold_left (fun '(s, anchor) g =>
          let n := match fixed !! grID g with Some n => n | None => anchor end in
          (putGroup g n s, n)) anchors (s, anchor) in
        let s := mkGroupState (<[asn := anchor]> (gsByAS s)) (gsByGroup s) (gsLoads s) (gsMoved s) in
        Ok (fold_left (fun s g =>
          let n := match fixed !! grID g with
                   | Some n => n
                   | None => bestGroupNode (names st) (caps st) (hasCap st) weights nominal
                               (gsLoads s) (groupDemand t g)
                   end in putGroup g n s) leaves s)
      else Err (ENoAnchor asn).

Fixpoint distributeAll (asns : list Z) (s : groupState) : result placeErr groupState :=
  match asns with
  | [] => Ok s
  | asn :: asns => match distributeAS asn s with
                   | Err e => Err e
                   | Ok s => distributeAll asns s
                   end
  end.
End Groups.

(** [distributePlacementGroups]. *)
Definition distributePlacementGroups (t : PTop) (o : POptions) (st : capacityState)
    (weights : gmap string float64) (explicit : gmap Z string) (a : Assignment)
    : result placeErr (Assignment * list moved) :=
  if (length (names st) <? 2)%nat then Ok (a, [])
  else
    let nominal := nominalCapacity (names st) (caps st) (hasCap st) (Z.of_nat (size (devs t))) in
    match distributeAll t o st weights explicit nominal (asnsOf t)
            (mkGroupState (aByAS a) (aByGroup a) (placementDemands t a (baseline st)) []) with
    | Err e => Err e
    | Ok s => Ok (mkAssign (gsByAS s) (gsByGroup s) (aByService a) (aByServiceReplica a)
                    (aLoad a) (aCrossNodeLinks a), gsMoved s)
    end.

(** ** Stamping the result onto the devices *)

Definition setNode (node : string) (d : SDevice) : SDevice := mkSDevice node (dRouterID d) (dIfaces d).
Definition stampNode (id node : string) (t : PTop) : PTop :=
  setGraph (setDevices (alter (setNode node) id) (graph t)) t.

(** The node [finish] gives a device; [None] is "belongs to unplaced AS". *)
Definition finishNode (t : PTop) (a : Assignment) (id : string) : option string :=
  match devs t !! id with
  | None => None
  | Some d =>
      if 0 <? pdASN d then
        match aByGroup a !! pdGroup d with
        | Some n => Some n
        | None => aByAS a !! pdASN d
        end
      else
        let n := serviceReplicaNode t a id in
        Some (if decide (n = "") then FrontNode (lab t) else n)
  end.

Fixpoint stampAll (a : Assignment) (ids : list string) : SE PTop placeErr unit :=
  match ids with
  | [] => mret tt
  | id :: ids =>
      t ← get;
      match finishNode t a id with
      | None => fail (EUnplaced id)
      | Some n => modify (stampNode id n);; stampAll a ids
      end
  end.

(** A device takes its node's runtime class and user namespace by default. *)
Definition harden (n : PNode) (d : PDevice) : PDevice :=
  mkPDevice (pdASN d) (pdGroup d) (pdSpec d)
    (if decide (pdRuntimeClass d = "") then pnRuntimeClass n else pdRuntimeClass d)
    (if decide (pdUsernsMode d = "") then pnUsernsMode n else pdUsernsMode d).

Fixpoint hardenAll (ids : list string) : SE PTop placeErr unit :=
  match ids with
  | [] => mret tt
  | id :: ids =>
      t ← get;
      match NodeByName (lab t) (nodeOfDevice t id) with
      | None => fail (EUnknownNode id (nodeOfDevice t id))
      | Some n => modify (fun t => setDevs (alter (harden n) id (devs t)) t);; hardenAll ids
      end
  end.

(** [replica.Node = replica.Device.Node]. *)
Definition followDevice (g : Top) (r : ServiceReplica) : ServiceReplica :=
  match repDevice r with
  | Some dev => match tDevices g !! dev with
                | Some d => mkReplica (repID r) (dNode d) (repDevice r)
                | None => r
                end
  | None => r
  end.
Definition followService (g : Top) (s : SService) : SService :=
  mkSService (mkService (svcName (sSvc s)) (map (followDevice g) (svcReplicas (sSvc s)))
                (svcDevice (sSvc s)) (svcPolicy (sSvc s))) (sAttach s) (sAttachments s).
Definition followDevices (t : PTop) : PTop :=
  let g := graph t in
  setGraph (mkTop (tName g) (tNodes g) (tASes g) (tDevices g) (followService g <$> tServices g)
              (tLinks g) (tFresh g)) t.

(** An operation on the graph, inside the topology. *)
Definition onGraph (m : SE Top attachErr unit) : SE PTop placeErr unit :=
  fun t => let '(g, r) := m (graph t) in
           (setGraph g t, match r with Ok u => Ok u | Err e => Err (EAttach e) end).

Definition crossNode (t : PTop) (l : SLink) : bool :=
  negb (bool_decide (nodeOfDevice t (lA l).1 = nodeOfDevice t (lB l).1)).

(** The container count of each node and the links that leave theirs. *)
Definition withStatistics (t : PTop) (a : Assignment) : Assignment :=
  mkAssign (aByAS a) (aByGroup a) (aByService a) (aByServiceReplica a)
    (fold_left (fun m id => incr (nodeOfDevice t id) m) (SortedDevices t) ∅)
    (Z.of_nat (length (List.filter (crossNode t) (tLinks (graph t))))).

Section Place.
Context (addressing : Addressing) (fuel : nat).

Definition finish (a : Assignment) : SE PTop placeErr Assignment :=
  t ← get;
  stampAll a (SortedDevices t);;
  hardenAll (SortedDevices t);;
  modify followDevices;;
  onGraph (ReconcileAttachments addressing (aByAS a) fuel);;
  t ← get;
  mret (withStatistics t a).

(** The node that stands for the front when the declared one cannot be used. *)
Definition usable (t : PTop) (o : POptions) (name : string) : bool :=
  negb (bool_decide (name ∈ oUnavailable (poCap o))) && nodeInPool (lab t) name.
Definition effectiveFront (t : PTop) (o : POptions) : string :=
  let front := FrontNode (lab t) in
  if usable t o front then front
  else match List.find (usable t o) (map nodeName (labNodes (lab t))) with
       | Some n => n
       | None => front
       end.

Definition strategyOf (t : PTop) (o : POptions) : string :=
  if decide (poStrategy o = "") then
    if decide (labStrategy (lab t) = "") then "pack-by-as" else labStrategy (lab t)
  else poStrategy o.

Definition capacityFor (t : PTop) (o : POptions) : capacityState :=
  buildCapacityState (tName (graph t)) (placementOf (lab t)) (poCap o).

(** [single-node]: everything on the front. *)
Definition singleNode (t : PTop) (front : string) : Assignment :=
  mkAssign (list_to_map (map (fun asn => (asn, front)) (asnsOf t))) ∅
    (list_to_map (map (fun name => (name, front)) (servicesOf t)))
    (list_to_map (map (fun id => (id, front))
       (concat (map (fun name => match tServices (graph t) !! name with
                                 | Some s => ids (SortedReplicas (svcReplicas (sSvc s)))
                                 | None => []
                                 end) (servicesOf t)))))
    ∅ 0.

(** The AS pass of the other strategies, after services and pins. *)
Definition placeASes (t : PTop) (o : POptions) (st : capacityState) (pinned : gmap Z string)
    (front strategy : string) (s : asState) : result placeErr (gmap Z string) :=
  if bool_decide (strategy = "pack-by-as") || bool_decide (strategy = "spread-by-as") then
    let tolerance := if decide (strategy = "pack-by-as") then fdec 10 2 else fzero in
    let g := buildAffinity (affinityLinks t) in
    let weights := nodePlacementWeights (lab t) (names st) in
    let nominal := nominalCapacity (names st) (caps st) (hasCap st) (Z.of_nat (size (devs t))) in
    match greedy t st weights g front tolerance nominal
            (orderForLocality g (weightFor t) (asFree s)) s with
    | Err e => Err e
    | Ok s =>
        let weight := list_to_map (map (fun asn => (asn, weightFor t asn)) (asnsOf t)) in
        Ok (byAS (refine (names st) g weight (caps st) (hasCap st) weights pinned front tolerance
                    nominal (mkSearch (asBy s) (asLoads s))).1)
    end
  else Err (EStrategy strategy).

(** Everything [Place] decides before the strict check. *)
Definition decidePlacement (t : PTop) (o : POptions) : result placeErr (Assignment * list moved) :=
  let front := effectiveFront t o in
  if decide (labNodes (lab t) = []) then Err ENoNodes
  else if negb (usable t o front) then Err ENoPool
  else
    let st := capacityFor t o in
    if decide (strategyOf t o = "single-node") then Ok (singleNode t front, [])
    else if decide (names st = []) then Err (if strict o then ENoInventory else ENoNodes)
    else
      let explicit := explicitPins t in
      let '(pinned, mv) := honourRecord t o st explicit in
      match recordedGroupError o st with
      | Some e => Err e
      | None =>
          let nominal := nominalCapacity (names st) (caps st) (hasCap st) (Z.of_nat (size (devs t))) in
          match placeServices t o (names st) (caps st) (hasCap st) (servicePins t) front nominal
                  (servicesOf t) (mkSvcState ∅ ∅ (baseline st) []) with
          | Err e => Err e
          | Ok ss =>
              match honourPins t o st pinned (asnsOf t) (mkASState ∅ (ssLoads ss) []) with
              | Err e => Err e
              | Ok s =>
                  match placeASes t o st pinned front (strategyOf t o) s with
                  | Err e => Err e
                  | Ok by_ =>
                      match distributePlacementGroups t o st (nodePlacementWeights (lab t) (names st))
                              explicit (mkAssign by_ ∅ (ssService ss) (ssReplica ss) ∅ 0) with
                      | Err e => Err e
                      | Ok (a, gmv) => Ok (a, mv ++ ssMoved ss ++ gmv)
                      end
                  end
              end
          end
      end.

(** [Place]: the assignment, what moved and what is overloaded. The topology
    changes in [finish] only. *)
Definition Place (o : POptions) : SE PTop placeErr (Assignment * list moved * list (string * overDim)) :=
  t ← get;
  '(a, mv) ← lift (decidePlacement t o);
  let st := capacityFor t o in
  (match (if strict o then strictAssignmentError t a st else None) with
   | Some e => fail e
   | None => mret tt
   end);;
  res ← finish a;
  t' ← get;
  mret (res, mv, overloads t' a st).
End Place.
