(* ===== verification/PlaceSafety.v ===== *)
(** * Placement: what a placed topology satisfies

    Theorems on [Placer]: the order of the greedy pass, the nodes [finish]
    stamps, strict admission, pins and recorded placements. *)

From stdpp Require Import base gmap strings list fin_maps sorting pretty.
From Stdlib Require Import ZArith Lia SpecFloat.
From S2P Require Import Prelude Text Model Alloc Ipam Capacity Affinity Replicas Attachments.
From S2P Require Import Demand Placer.

Open Scope Z_scope.

(** ** The order covers every free AS, once *)

Section Order.
Context (g : affinityGraph) (weight : Z -> Resources).

(** The ordered ASes and the waiting ones make up the free ones, and only
    waiting ones are linked. *)
Definition frontierOK (free : list Z) (f : frontier) : Prop :=
  NoDup (ordered f) /\ (forall x, x ∈ free <-> x ∈ ordered f \/ x ∈ waiting f)
  /\ (forall x, x ∈ ordered f -> x ∉ waiting f)
  /\ (forall x, lookup_or 0 (linked f) x <> 0 -> x ∈ waiting f).

Lemma linked_visit (w : gset Z) m (ps : gmap Z Z) x :
  (forall y, lookup_or 0 m y <> 0 -> y ∈ w) ->
  lookup_or 0 (map_fold (fun p c linked => if decide (p ∈ w) then <[p := lookup_or 0 linked p + c]> linked
                                           else linked) m ps) x <> 0 -> x ∈ w.
Proof.
  intros Hm. revert x. apply (map_fold_weak_ind (fun r _ => forall x, lookup_or 0 r x <> 0 -> x ∈ w)); [done|].
  intros p c _ r _ IH x. case_decide as Hp; [|apply IH].
  destruct (decide (x = p)) as [->|Hne]; [done|]. unfold lookup_or at 1. rewrite lookup_insert_ne by done.
  apply IH.
Qed.

Lemma visit_ok free f x :
  frontierOK free f -> x ∈ waiting f ->
  (forall y, lookup_or 0 (linked f) y <> 0 -> y <> x) -> frontierOK free (visit g x f).
Proof.
  intros (H1 & H2 & H3 & H4) Hx Hl. unfold frontierOK, visit. cbn [waiting linked ordered]. split_and!.
  - apply NoDup_app. split; [done|]. split; [|apply NoDup_singleton]. intros y Hy ->%list_elem_of_singleton.
    by apply (H3 x).
  - intros y. rewrite elem_of_app, list_elem_of_singleton, elem_of_difference, elem_of_singleton, H2.
    destruct (decide (y = x)) as [->|]; naive_solver.
  - intros y. rewrite elem_of_app, list_elem_of_singleton. set_solver.
  - intros y. apply linked_visit. intros z Hz. set_solver.
Qed.

Lemma bestNext_spec free l :
  let '(next, _, _) := bestNext weight free l in
  next = 0 \/ next ∈ free /\ lookup_or 0 l next <> 0.
Proof.
  unfold bestNext. apply (fold_left_inv (fun r => let '(next, _, _) := r in
    next = 0 \/ next ∈ free /\ lookup_or 0 l next <> 0)); [by left|].
  intros [[next bl] bw] asn Hin H. unfold nextStep. destruct (Z.eqb_spec (lookup_or 0 l asn) 0); [done|].
  destruct (_ || _); [by right|done].
Qed.

Lemma grow_ok fuel free f : 0 ∉ free -> frontierOK free f -> frontierOK free (grow g weight fuel free f).
Proof.
  intros H0. revert f. induction fuel as [|fuel IH]; intros f Hf; simpl; [done|].
  pose proof (bestNext_spec free (linked f)) as Hb. destruct (bestNext _ _ _) as [[next bl] bw].
  destruct (Z.eqb_spec next 0); [done|]. destruct Hb as [?|[Hin Hl]]; [done|]. apply IH.
  destruct Hf as (H1 & H2 & H3 & H4). apply visit_ok; cbn [waiting linked]; [|by apply H4|].
  - split_and!; try done. cbn [linked waiting]. intros y Hy. apply H4. intros E. apply Hy.
    unfold lookup_or in *. destruct (decide (y = next)) as [->|]; [by rewrite lookup_delete_eq|by rewrite lookup_delete_ne].
  - intros y Hy ->. apply Hy. unfold lookup_or. by rewrite lookup_delete_eq.
Qed.

Lemma visit_waiting x f : waiting (visit g x f) = waiting f ∖ {[x]}.
Proof. done. Qed.

Lemma grow_step free f next bl bw :
  0 ∉ free -> frontierOK free f -> bestNext weight free (linked f) = (next, bl, bw) -> next <> 0 ->
  let f' := visit g next (mkFrontier (waiting f) (delete next (linked f)) (ordered f)) in
  frontierOK free f' /\ (size (waiting f') < size (waiting f))%nat.
Proof.
  intros H0 Hf E Hn. pose proof (bestNext_spec free (linked f)) as Hb. rewrite E in Hb.
  destruct Hb as [?|[Hin Hl]]; [done|]. split.
  - pose proof (grow_ok 1 free f H0 Hf) as H. simpl in H. rewrite E in H.
    destruct (Z.eqb_spec next 0); [done|]. exact H.
  - assert (next ∈ waiting f) as Hw by apply Hf, Hl.
    rewrite visit_waiting. cbn [waiting]. rewrite size_difference by set_solver.
    rewrite size_singleton. assert (size (waiting f) <> 0)%nat by (intros ?%size_empty_inv; set_solver). lia.
Qed.

(** The growth ends by itself: more fuel than waiting ASes changes nothing. *)
Lemma grow_enough fuel k free f :
  0 ∉ free -> frontierOK free f -> (size (waiting f) < fuel)%nat ->
  grow g weight (fuel + k) free f = grow g weight fuel free f.
Proof.
  intros H0. revert f. induction fuel as [|fuel IH]; intros f Hf Hs; [lia|]. simpl.
  pose proof (bestNext_spec free (linked f)) as Hb. destruct (bestNext _ _ _) as [[next bl] bw] eqn:E.
  destruct (Z.eqb_spec next 0); [done|]. destruct Hb as [?|[Hin Hl]]; [done|].
  destruct (grow_step free f next bl bw) as [Hf' Hs']; [done..|]. apply IH; [done|lia].
Qed.

Lemma bestNext_zero free l next bl bw :
  0 ∉ free -> bestNext weight free l = (next, bl, bw) -> next = 0 ->
  forall y, y ∈ free -> lookup_or 0 l y = 0.
Proof.
  unfold bestNext. intros H0 E Hn.
  enough (forall free acc, 0 ∉ free -> (fold_left (nextStep weight l) free acc).1.1 = 0 ->
    acc.1.1 = 0 /\ forall y, y ∈ free -> lookup_or 0 l y = 0) as H.
  { apply (H free (0, 0, 0)); [done|]. by rewrite E. }
  clear free H0 E. induction free as [|x free IH]; intros acc H0 E; simpl in E.
  { split; [done|]. intros y Hy. by apply elem_of_nil in Hy. }
  apply IH in E as [E1 E2]; [|set_solver]. unfold nextStep in E1. destruct acc as [[a b] c].
  destruct (Z.eqb_spec (lookup_or 0 l x) 0) as [Hx|Hx].
  - split; [done|]. intros y [->|Hy]%elem_of_cons; [done|by apply E2].
  - simpl in *. destruct (Z.eqb_spec a 0); simpl in E1; [subst; set_solver|].
    destruct (_ || _); simpl in E1; [subst; set_solver|done].
Qed.

(** Nobody is linked when the growth ends. *)
Lemma grow_done fuel free f :
  0 ∉ free -> frontierOK free f -> (size (waiting f) < fuel)%nat ->
  forall y, y ∈ free -> lookup_or 0 (linked (grow g weight fuel free f)) y = 0.
Proof.
  intros H0. revert f. induction fuel as [|fuel IH]; intros f Hf Hs; [lia|]. simpl.
  pose proof (bestNext_spec free (linked f)) as Hb. destruct (bestNext _ _ _) as [[next bl] bw] eqn:E.
  destruct (Z.eqb_spec next 0); [by eapply bestNext_zero|]. destruct Hb as [?|[Hin Hl]]; [done|].
  destruct (grow_step free f next bl bw) as [Hf' Hs']; [done..|]. apply IH; [done|lia].
Qed.

Definition quietFrontier (free : list Z) (f : frontier) : Prop :=
  frontierOK free f /\ forall y, y ∈ free -> lookup_or 0 (linked f) y = 0.

Lemma seed_visit free f seed :
  quietFrontier free f -> seed ∈ waiting f ->
  frontierOK free (visit g seed f) /\ (size (waiting (visit g seed f)) < length free)%nat.
Proof.
  intros [Hf Hl] Hs. split.
  - apply visit_ok; [done..|]. intros y Hy ->. apply Hy, Hl. apply Hf. by right.
  - rewrite visit_waiting, size_difference by set_solver. rewrite size_singleton.
    assert (waiting f ⊆ list_to_set free) as Hsub.
    { intros y Hy. apply elem_of_list_to_set, Hf. by right. }
    apply subseteq_size in Hsub. pose proof (size_list_le free).
    assert (size (waiting f) <> 0)%nat by (intros ?%size_empty_inv; set_solver). lia.
Qed.

Lemma seedStep_ok free f seed :
  0 ∉ free -> quietFrontier free f -> quietFrontier free (seedStep g weight (length free) free f seed).
Proof.
  intros H0 Hf. unfold seedStep. case_bool_decide as Hs; [|done]. simpl.
  destruct (seed_visit free f seed Hf Hs). split; [by apply grow_ok|by apply grow_done].
Qed.

Lemma seedStep_waiting free f seed :
  0 ∉ free -> quietFrontier free f -> waiting (seedStep g weight (length free) free f seed) ⊆ waiting f ∖ {[seed]}.
Proof.
  intros H0 Hf. unfold seedStep. case_bool_decide as Hs; [|set_solver]. simpl.
  rewrite <- visit_waiting. generalize (visit g seed f). induction (length free) as [|k IH]; intros f'; [done|].
  simpl. destruct (bestNext _ _ _) as [[next bl] bw]. destruct (_ =? _); [done|].
  etransitivity; [apply IH|]. rewrite visit_waiting. simpl. set_solver.
Qed.

Lemma seeds_ok free seeds f :
  0 ∉ free -> quietFrontier free f ->
  let f' := fold_left (seedStep g weight (length free) free) seeds f in
  quietFrontier free f' /\ (forall x, x ∈ waiting f' -> x ∈ waiting f /\ x ∉ seeds).
Proof.
  intros H0. revert f. induction seeds as [|x seeds IH]; intros f Hf; simpl.
  { split; [done|]. intros y Hy. split; [done|]. apply not_elem_of_nil. }
  destruct (IH _ (seedStep_ok free f x H0 Hf)) as [I1 I2]. split; [done|]. intros y [Hy Hys]%I2.
  apply (seedStep_waiting free f x H0 Hf) in Hy. set_solver.
Qed.

Lemma start_quiet free : quietFrontier free (mkFrontier (list_to_set free) ∅ []).
Proof.
  split; [|done]. split_and!; cbn [ordered waiting linked]; [constructor| | |done].
  - intros x. rewrite elem_of_list_to_set. set_solver.
  - intros x Hx. by apply elem_of_nil in Hx.
Qed.

Lemma order_more_fuel k free : 0 ∉ free -> orderWith g weight (length free + k) free = orderForLocality g weight free.
Proof.
  intros H0. unfold orderForLocality, orderWith. f_equal.
  generalize (start_quiet free). generalize (mkFrontier (list_to_set free) ∅ []).
  induction (merge_sort _ free) as [|x seeds IH]; intros f Hf; simpl; [done|].
  rewrite <- (IH _ (seedStep_ok free f x H0 Hf)). f_equal. unfold seedStep.
  case_bool_decide as Hs; [|done]. simpl. destruct (seed_visit free f x Hf Hs). by apply grow_enough.
Qed.

Lemma order_perm free : NoDup free -> 0 ∉ free -> orderForLocality g weight free ≡ₚ free.
Proof.
  intros Hnd H0. unfold orderForLocality, orderWith.
  destruct (seeds_ok free (merge_sort (seedLe g weight) free) _ H0 (start_quiet free)) as [[Hf _] Hw].
  destruct Hf as (H1 & H2 & H3 & H4). apply NoDup_Permutation; [done..|]. intros x. split.
  - intros Hx. apply H2. by left.
  - intros Hx. apply H2 in Hx as Hx'. destruct Hx' as [|[_ Hx']%Hw]; [done|]. destruct Hx'.
    by rewrite merge_sort_Permutation.
Qed.
End Order.

(** The greedy pass considers every AS that is not pinned, each exactly
    once, whatever the peering graph, and the growth of its frontier ends by
    itself: more turns than there are free ASes never change the order. *)
Theorem orderForLocality_permutes (g : affinityGraph) (weight : Z -> Resources) (free : list Z) (k : nat) :
  NoDup free -> 0 ∉ free ->
  orderForLocality g weight free ≡ₚ free
  /\ orderWith g weight (length free + k) free = orderForLocality g weight free.
Proof. intros Hnd H0. split; [by apply order_perm|by apply order_more_fuel]. Qed.

(** Four ASes, two of them peering. *)
Definition demoPeers : affinityGraph :=
  mkGraph {[1 := {[2 := 1; 4 := 2]}; 2 := {[1 := 1]}; 4 := {[1 := 2]}]} ∅ ∅.

Lemma orderForLocality_permutes_witness :
  orderForLocality demoPeers (fun _ => zeroRes) [1; 2; 3; 4] = [1; 4; 2; 3]
  /\ orderForLocality demoPeers (fun _ => zeroRes) [1; 2; 3; 4] ≡ₚ [1; 2; 3; 4].
Proof.
  split; [vm_compute; reflexivity|].
  refine (proj1 (orderForLocality_permutes demoPeers (fun _ => zeroRes) [1; 2; 3; 4] 0 _ _)).
  - apply (bool_decide_eq_true_1 _). vm_compute. reflexivity.
  - apply (bool_decide_eq_true_1 _). vm_compute. reflexivity.
Defined.

(** ** What rewiring leaves alone *)

(** A service without its replicas' nodes and its attachments. *)
Definition svcShape (s : SService) : string * list (string * option string) * option string :=
  (svcName (sSvc s), map (fun r => (repID r, repDevice r)) (svcReplicas (sSvc s)), fst <$> svcDevice (sSvc s)).
Definition shape (g : Top) := (tName g, skel g, svcShape <$> tServices g, tASes g).

Lemma shape_setDevices f dev g : shape (setDevices (alter (setIfaces f) dev) g) = shape g.
Proof. unfold shape. by rewrite skel_alter. Qed.

Lemma shape_clear s g : shape (clearServiceLinks s g) = shape g.
Proof.
  unfold clearServiceLinks. destruct (replicaDevices s) as [|d0 ds]; [done|]. generalize (d0 :: ds). intros devs.
  transitivity (shape (fold_left (fun t l => if touches devs l then removeIface (lB l) (removeIface (lA l) t)
                                             else t) (tLinks g) g)); [done|].
  apply (fold_left_inv (fun t => shape t = shape g)); [done|]. intros t l _ Ht.
  destruct (touches devs l); [|done]. unfold removeIface. by rewrite !shape_setDevices.
Qed.

Lemma shape_service key s s' g :
  tServices g !! key = Some s' -> svcShape s = svcShape s' -> shape (setService key s g) = shape g.
Proof.
  intros Hk Hs. unfold shape, setService. simpl. do 2 f_equal. apply map_eq. intros x.
  rewrite fmap_insert. destruct (decide (x = key)) as [->|]; [|by rewrite lookup_insert_ne].
  by rewrite lookup_insert_eq, lookup_fmap, Hk, Hs.
Qed.

Lemma shape_record key asn id g : shape (recordAttachment key asn id g) = shape g.
Proof.
  unfold recordAttachment. destruct (tServices g !! key) as [s|] eqn:E; [|done].
  by eapply shape_service.
Qed.

Lemma shape_attachOne name a asn router subnet r dev :
  mrel (unchanged shape) (attachOne name a asn router subnet r dev).
Proof.
  unfold attachOne. mrel_steps; unfold unchanged; try done;
    unfold AddIface; apply shape_setDevices.
Qed.

Lemma shape_reconcileASes byAS key s a plan choices shards asns :
  mrel (unchanged shape) (reconcileASes byAS key s a plan choices shards asns).
Proof.
  induction asns as [|asn asns IH]; simpl; mrel_steps; try apply IH; try apply shape_attachOne.
  apply shape_record.
Qed.

Lemma shape_reconcileService addressing byAS key s a choices g :
  tServices g !! key = Some s ->
  shape (final (reconcileService addressing byAS key s a choices) g) = shape g.
Proof.
  intros Hk. unfold reconcileService.
  set (g1 := setService key (mkSService (sSvc s) (sAttach s) ∅) (clearServiceLinks s g)).
  assert (shape g1 = shape g) as E1.
  { unfold g1. rewrite (shape_service key _ s), shape_clear; [done| |done].
    pose proof (shape_clear s g) as H. unfold clearServiceLinks in *.
    destruct (replicaDevices s); [done|]. simpl.
    apply (fold_left_inv (fun t => tServices t !! key = Some s)); [done|]. intros t lk _ Ht.
    by destruct (touches _ _). }
  rewrite <- E1. change (unchanged shape g1 (final (
    plan ← match addressing (svcName (sSvc s)) with
           | None => mret None
           | Some (Ok p) => mret (Some p)
           | Some (Err _) => fail ECompile
           end;
    t ← get;
    reconcileASes byAS key (sSvc s) a plan choices
      (shardTargets (sSvc s) (regionOf t) (shardNode byAS t a) (eligibleASNs t a)) (eligibleASNs t a)) g1)).
  generalize g1. apply mrel_bind; [apply _|mrel_steps|]. intros plan. mrel_steps. apply shape_reconcileASes.
Qed.

Lemma mrel_bind_at {S E A B} (R : S -> S -> Prop) `{!PreOrder R} (m : SE S E A) (k : A -> SE S E B) s :
  R s (final m s) -> (forall a, mrel R (k a)) -> R s (final (m ≫= k) s).
Proof.
  intros Hm Hk. unfold final, mbind, SE_bind in *. destruct (m s) as [s' [a|e]]; simpl in *; [|done].
  etransitivity; [done|]. apply (Hk a s').
Qed.

Lemma shape_reconcileAll addressing byAS names : mrel (unchanged shape) (reconcileAll addressing byAS names).
Proof.
  induction names as [|name names IH]; simpl; [mrel_steps|]. apply mrel_get_bind. intros g.
  apply mrel_bind_at; [apply _| |intros; apply IH]. unfold scalable.
  destruct (tServices g !! name) as [s|] eqn:E; simpl; [|done].
  destruct (svcReplicas (sSvc s)); [done|]. destruct (sAttach s) as [a|]; simpl; [|done].
  by apply shape_reconcileService.
Qed.

Lemma shape_reassign fuel g : shape (reassignVNIs fuel g) = shape g.
Proof. unfold reassignVNIs. by destruct (AssignVNIs _ _ _). Qed.

Lemma shape_reconcile addressing byAS fuel : mrel (unchanged shape) (ReconcileAttachments addressing byAS fuel).
Proof.
  unfold ReconcileAttachments. mrel_steps; [apply shape_reconcileAll|apply shape_reassign].
Qed.

(** ** What [finish] leaves alone *)

Definition staticOf (d : PDevice) : Z * string * DeviceSpec := (pdASN d, pdGroup d, pdSpec d).

(** Everything of a topology but the nodes, hardening, cables and
    attachments. *)
Definition rigid (t : PTop) :=
  (staticOf <$> devs t,
   (tName (graph t), svcShape <$> tServices (graph t), tASes (graph t), (fun _ => ()) <$> tDevices (graph t)),
   ases t, svcNode t, homes t, lab t).

Lemma keys_fmap {K} `{Countable K} {A B} (f : A -> B) (m m' : gmap K A) :
  f <$> m' = f <$> m -> map fst (map_to_list m') = map fst (map_to_list m).
Proof.
  intros E. assert (forall m : gmap K A, map fst (map_to_list m) = map fst (map_to_list (f <$> m))) as Hk.
  { intros m0. rewrite map_to_list_fmap. change (map ?h (?k <$> ?l)) with (h <$> (k <$> l)).
    rewrite <- list_fmap_compose. apply list_fmap_ext. by intros i [k v]. }
  by rewrite (Hk m'), E, <- (Hk m).
Qed.

(** The service and replica a device belongs to, by name. *)
Definition ownerName (sr : Service * option ServiceReplica) : string * option string :=
  (svcName sr.1, repID <$> sr.2).

Lemma head_omap_ext {A B C} (h : B -> C) (f f' : A -> option B) (l : list A) :
  (forall x, h <$> f' x = h <$> f x) -> h <$> head (omap f' l) = h <$> head (omap f l).
Proof.
  intros Hf. induction l as [|x l IH]; simpl; [done|]. specialize (Hf x).
  destruct (f' x), (f x); try done.
Qed.

Section Rigid.
Context (t t' : PTop) (Hr : rigid t' = rigid t).

Lemma rigid_lab : lab t' = lab t.
Proof. unfold rigid in Hr. congruence. Qed.
Lemma rigid_static id : staticOf <$> devs t' !! id = staticOf <$> devs t !! id.
Proof. pose proof (f_equal (fun x => x.1.1.1.1.1 !! id) Hr) as H. simpl in H. by rewrite !lookup_fmap in H. Qed.
Lemma rigid_devices : SortedDevices t' = SortedDevices t.
Proof. unfold SortedDevices. f_equal. apply (keys_fmap staticOf). by apply (f_equal (fun x => x.1.1.1.1.1)) in Hr. Qed.
Lemma rigid_services : servicesOf t' = servicesOf t.
Proof.
  unfold servicesOf, SortedServiceNames. f_equal. apply (keys_fmap svcShape).
  by apply (f_equal (fun x => x.1.1.1.1.2.1.1.2)) in Hr.
Qed.
Lemma rigid_demand id : demandOf t' id = demandOf t id.
Proof.
  unfold demandOf. pose proof (rigid_static id) as H. destruct (devs t' !! id), (devs t !! id); try done.
  simpl in H. unfold staticOf in H. congruence.
Qed.

Lemma rigid_owns id name : ownerName <$> serviceOwns t' id name = ownerName <$> serviceOwns t id name.
Proof.
  unfold serviceOwns.
  assert (svcShape <$> tServices (graph t') !! name = svcShape <$> tServices (graph t) !! name) as H.
  { rewrite <- !lookup_fmap. by apply (f_equal (fun x => x.1.1.1.1.2.1.1.2 !! name)) in Hr. }
  destruct (tServices (graph t') !! name) as [s'|], (tServices (graph t) !! name) as [s|]; try done. simpl.
  apply (inj Some) in H. unfold svcShape in H. injection H as Hn Hl Hd.
  assert (forall l l', map (fun r => (repID r, repDevice r)) l' = map (fun r => (repID r, repDevice r)) l ->
    repID <$> List.find (fun r => bool_decide (repDevice r = Some id)) l'
    = repID <$> List.find (fun r => bool_decide (repDevice r = Some id)) l) as Hfind.
  { induction l as [|x l IH]; intros [|y l'] E; try done. injection E as E1 E2 E3. simpl. rewrite E2.
    destruct (bool_decide _); [simpl; congruence|by apply IH]. }
  specialize (Hfind _ _ Hl). rewrite Hd.
  destruct (List.find _ (svcReplicas (sSvc s'))), (List.find _ (svcReplicas (sSvc s))); try done; simpl in *.
  - unfold ownerName. simpl. congruence.
  - destruct (bool_decide _); [|done]. unfold ownerName. simpl. congruence.
Qed.

Lemma rigid_owner id : ownerName <$> ServiceByDevice t' id = ownerName <$> ServiceByDevice t id.
Proof. unfold ServiceByDevice. rewrite rigid_services. apply head_omap_ext, rigid_owns. Qed.

Lemma rigid_replicaNode a id : serviceReplicaNode t' a id = serviceReplicaNode t a id.
Proof.
  pose proof (rigid_owner id) as H. unfold serviceReplicaNode.
  destruct (ServiceByDevice t' id) as [[s' [r'|]]|], (ServiceByDevice t id) as [[s [r|]]|]; try done;
    unfold ownerName in H; simpl in H; congruence.
Qed.

Lemma rigid_finishNode a id : finishNode t' a id = finishNode t a id.
Proof.
  pose proof (rigid_static id) as H. unfold finishNode. rewrite rigid_replicaNode, rigid_lab.
  destruct (devs t' !! id), (devs t !! id); try done. simpl in H. apply (inj Some) in H.
  unfold staticOf in H. by injection H as -> -> _.
Qed.

Lemma rigid_nodeFor a id : nodeForAssignment t' a id = nodeForAssignment t a id.
Proof.
  pose proof (rigid_static id) as H. unfold nodeForAssignment. rewrite rigid_replicaNode, rigid_lab.
  destruct (devs t' !! id), (devs t !! id); try done. simpl in H. apply (inj Some) in H.
  unfold staticOf in H. by injection H as -> -> _.
Qed.
End Rigid.

Lemma fmap_alter_same {K} `{Countable K} {A B} (f : A -> B) (h : A -> A) k (m : gmap K A) :
  (forall x, f (h x) = f x) -> f <$> alter h k m = f <$> m.
Proof.
  intros Hf. apply map_eq. intros i. rewrite !lookup_fmap. destruct (decide (i = k)) as [->|].
  - rewrite lookup_alter_eq. destruct (m !! k); simpl; by rewrite ?Hf.
  - by rewrite lookup_alter_ne.
Qed.

Lemma rigid_stamp id n t : rigid (stampNode id n t) = rigid t.
Proof. unfold rigid, stampNode. simpl. by rewrite (fmap_alter_same (fun _ => ())). Qed.

Lemma node_stamp id n t k :
  is_Some (tDevices (graph t) !! k) ->
  nodeOfDevice (stampNode id n t) k = if decide (k = id) then n else nodeOfDevice t k.
Proof.
  intros [d Hd]. unfold nodeOfDevice, stampNode. simpl. case_decide as E; [subst|by rewrite lookup_alter_ne].
  by rewrite lookup_alter_eq, Hd.
Qed.

(** Being a device of the graph is rigid. *)
Lemma rigid_present t t' id :
  rigid t' = rigid t -> is_Some (tDevices (graph t') !! id) <-> is_Some (tDevices (graph t) !! id).
Proof.
  intros Hr. apply (f_equal (fun x => x.1.1.1.1.2.2 !! id)) in Hr. simpl in Hr. rewrite !lookup_fmap in Hr.
  by destruct (tDevices (graph t') !! id), (tDevices (graph t) !! id).
Qed.

Lemma stampAll_spec a ids t t' :
  (forall id, id ∈ ids -> is_Some (tDevices (graph t) !! id)) ->
  stampAll a ids t = (t', Ok tt) ->
  rigid t' = rigid t
  /\ (forall id, id ∈ ids -> finishNode t a id = Some (nodeOfDevice t' id))
  /\ (forall id, id ∉ ids -> is_Some (tDevices (graph t) !! id) -> nodeOfDevice t' id = nodeOfDevice t id).
Proof.
  revert t. induction ids as [|x ids IH]; intros t Hd E.
  { injection E as <-. split; [done|]. split; [|done]. intros id Hid. by apply elem_of_nil in Hid. }
  simpl in E. unfold mbind, SE_bind, get in E. simpl in E. destruct (finishNode t a x) as [n|] eqn:Ef; [|done].
  unfold modify in E. simpl in E. pose proof (rigid_stamp x n t) as Hs.
  apply IH in E as (E1 & E2 & E3).
  2: { intros id Hid. apply (rigid_present _ _ id Hs), Hd. by right. }
  split; [by rewrite E1|]. split.
  - intros id Hid. destruct (decide (id ∈ ids)) as [Hin|Hin].
    + rewrite <- (E2 id Hin). symmetry. by apply rigid_finishNode.
    + apply elem_of_cons in Hid as [->|]; [|done].
      rewrite E3; [|done|by apply (rigid_present _ _ x Hs), Hd; left].
      rewrite node_stamp by (apply Hd; left). by rewrite decide_True.
  - intros id Hid Hp. rewrite E3; [|set_solver|by apply (rigid_present _ _ id Hs)].
    rewrite node_stamp by done. rewrite decide_False by set_solver. done.
Qed.

Lemma hardenAll_spec ids t t' :
  hardenAll ids t = (t', Ok tt) ->
  graph t' = graph t /\ rigid t' = rigid t
  /\ (forall id, id ∈ ids -> is_Some (NodeByName (lab t) (nodeOfDevice t id))).
Proof.
  revert t. induction ids as [|x ids IH]; intros t E.
  { injection E as <-. do 2 (split; [done|]). intros id Hid. by apply elem_of_nil in Hid. }
  simpl in E. unfold mbind, SE_bind, get in E. simpl in E.
  destruct (NodeByName _ _) as [n|] eqn:En; [|done]. unfold modify in E. simpl in E.
  apply IH in E as (E1 & E2 & E3). split; [by rewrite E1|]. split.
  - rewrite E2. unfold rigid, setDevs. simpl. by rewrite (fmap_alter_same staticOf).
  - intros id [->|Hid]%elem_of_cons; [by exists n|]. apply (E3 id Hid).
Qed.

Lemma follow_rigid t : rigid (followDevices t) = rigid t.
Proof.
  unfold rigid, followDevices. cbn [graph setGraph tServices tName tASes tDevices devs ases svcNode homes lab].
  assert (svcShape <$> (followService (graph t) <$> tServices (graph t)) = svcShape <$> tServices (graph t)) as ->;
    [|done].
  rewrite <- map_fmap_compose. apply map_fmap_ext. intros k s _. unfold compose, svcShape, followService. simpl.
  do 2 f_equal. rewrite map_map. apply map_ext. intros r. unfold followDevice.
  destruct (repDevice r) as [dev|] eqn:E; [|by rewrite E].
  destruct (_ !! dev); simpl; by rewrite ?E.
Qed.

Lemma onGraph_rigid addressing byAS fuel t t' :
  onGraph (ReconcileAttachments addressing byAS fuel) t = (t', Ok tt) ->
  rigid t' = rigid t /\ forall id, nodeOfDevice t' id = nodeOfDevice t id.
Proof.
  unfold onGraph. pose proof (shape_reconcile addressing byAS fuel (graph t)) as H. unfold unchanged, final in H.
  destruct (ReconcileAttachments _ _ _ _) as [g r]. simpl in H. intros E. injection E as <- _.
  unfold shape in H. injection H as H1 H2 H3 H4. split.
  - apply (f_equal (fmap (fun _ => ()))) in H2. unfold skel in H2. rewrite <- !map_fmap_compose in H2.
    unfold rigid. simpl. rewrite H1, H3, H4.
    change ((fun _ : SDevice => ()) <$> tDevices g = (fun _ => ()) <$> tDevices (graph t)) in H2. by rewrite H2.
  - intros id. unfold nodeOfDevice. simpl. apply (f_equal (fun m => fst <$> m !! id)) in H2. unfold skel in H2.
    rewrite !lookup_fmap in H2.
    destruct (tDevices g !! id), (tDevices (graph t) !! id); try done. simpl in H2. by injection H2.
Qed.

(** ** What [finish] does *)

(** A topology as [expand] builds it: the same devices on both sides, AS
    devices in a placement group, nodes with names. *)
Definition wfTop (t : PTop) : Prop :=
  (forall id, is_Some (devs t !! id) <-> is_Some (tDevices (graph t) !! id))
  /\ (forall id d, devs t !! id = Some d -> 0 <= pdASN d /\ (0 < pdASN d -> pdGroup d <> ""))
  /\ (forall n, n ∈ labNodes (lab t) -> nodeName n <> "").

Lemma elem_of_devices t id : id ∈ SortedDevices t <-> is_Some (devs t !! id).
Proof.
  unfold SortedDevices. rewrite elem_of_sortStrings, list_elem_of_fmap. split.
  - intros ([k v] & -> & H%elem_of_map_to_list). by exists v.
  - intros [v H]. exists (id, v). split; [done|]. by apply elem_of_map_to_list.
Qed.

Lemma NodeByName_name l n p : NodeByName l n = Some p -> p ∈ labNodes l /\ nodeName p = n.
Proof.
  intros [H1 H2%bool_decide_eq_true]%List.find_some. split; [by apply list_elem_of_In|done].
Qed.

Lemma finish_spec addressing fuel a t t' res :
  wfTop t -> finish addressing fuel a t = (t', Ok res) ->
  rigid t' = rigid t /\ res = withStatistics t' a
  /\ forall id, id ∈ SortedDevices t ->
     finishNode t a id = Some (nodeOfDevice t' id) /\ nodeOfDevice t' id <> ""
     /\ is_Some (NodeByName (lab t) (nodeOfDevice t' id)).
Proof.
  intros (Hdev & _ & Hnodes) E. unfold finish in E.
  apply bind_ok_inv in E as (t0 & t0' & E0 & E). injection E0 as <- <-.
  apply bind_ok_inv in E as (t1 & [] & E1 & E). apply bind_ok_inv in E as (t2 & [] & E2 & E).
  apply bind_ok_inv in E as (t3 & [] & E3 & E). injection E3 as <-.
  apply bind_ok_inv in E as (t4 & [] & E4 & E). apply bind_ok_inv in E as (t5 & t5' & E5 & E).
  injection E5 as <- <-. injection E as <- <-.
  apply stampAll_spec in E1 as (R1 & N1 & _). 2: { intros id ?%elem_of_devices. by apply Hdev. }
  apply hardenAll_spec in E2 as (G2 & R2 & N2). apply onGraph_rigid in E4 as (R4 & N4).
  rewrite follow_rigid in R4. split; [by rewrite R4, R2|]. split; [done|]. intros id Hid.
  assert (nodeOfDevice t4 id = nodeOfDevice t1 id) as ->.
  { rewrite N4. unfold nodeOfDevice, followDevices. simpl. by rewrite G2. }
  split; [by apply N1|]. rewrite <- (rigid_lab t t1 R1).
  destruct (N2 id Hid) as [p Hp]. split; [|by exists p].
  apply NodeByName_name in Hp as [Hp <-]. apply Hnodes. by rewrite <- (rigid_lab t t1 R1).
Qed.

(** Admission and [finish] agree on where a device goes. *)
Lemma finishNode_agrees t a id n :
  wfTop t -> finishNode t a id = Some n -> n <> "" -> nodeForAssignment t a id = n.
Proof.
  intros (_ & Hw & _). unfold finishNode, nodeForAssignment. destruct (devs t !! id) as [d|] eqn:Hd; [|done].
  destruct (Hw _ _ Hd) as [H0 Hg]. destruct (Z.ltb_spec 0 (pdASN d)) as [Hp|Hp].
  - destruct (Z.eqb_spec (pdASN d) 0); [lia|]. simpl. rewrite !(decide_False (P := pdGroup d = "")) by auto.
    intros E Hn. unfold lookup_or.
    destruct (aByGroup a !! pdGroup d); simpl.
    + injection E as ->. by rewrite decide_False.
    + by rewrite E.
  - assert (pdASN d = 0) as -> by lia. simpl. by intros [= <-] _.
Qed.

(** ** What strict admission accepts *)

(** The load of a node: what is reserved there, and the devices on it. *)
Definition placedLoad (t : PTop) (base : gmap string Resources) (node : string) : Resources :=
  fold_left (fun d id => if decide (nodeOfDevice t id = node) then add d (demandOf t id) else d)
    (SortedDevices t) (loadOf base node).

Lemma loadOf_charge node need loads k :
  loadOf (chargeTo node need loads) k = if decide (node = k) then add (loadOf loads k) need else loadOf loads k.
Proof.
  unfold chargeTo, loadOf, lookup_or. case_decide as E; [subst; by rewrite lookup_insert_eq|].
  by rewrite lookup_insert_ne.
Qed.

Lemma assigned_load t t' a base node :
  rigid t' = rigid t ->
  (forall id, id ∈ SortedDevices t -> nodeForAssignment t a id = nodeOfDevice t' id /\ nodeOfDevice t' id <> "") ->
  loadOf (assignmentDemands t a base) node = placedLoad t' base node.
Proof.
  intros Hr Hn. unfold assignmentDemands, placedLoad. rewrite (rigid_devices t t' Hr). revert base Hn.
  induction (SortedDevices t) as [|x l IH]; intros base Hn; simpl; [done|].
  destruct (Hn x) as [Hx Hx0]; [left|]. rewrite IH by (intros; apply Hn; by right).
  rewrite Hx, decide_False by done. rewrite loadOf_charge, (rigid_demand t t' Hr). by case_decide.
Qed.

Lemma omap_nil {A B} (f : A -> option B) (l : list A) :
  head (omap f l) = None -> forall x, x ∈ l -> f x = None.
Proof.
  intros H x Hx. destruct (f x) as [y|] eqn:E; [|done].
  assert (y ∈ omap f l) as Hy by (apply list_elem_of_omap; eauto).
  apply head_None in H. rewrite H in Hy. by apply elem_of_nil in Hy.
Qed.

Lemma overInt_false c l : overInt c l = false -> (c < 0 -> l <= 0) /\ (0 < c -> l <= c).
Proof.
  unfold overInt. intros [H1 H2]%orb_false_iff. split; intros Hc.
  - rewrite (proj2 (Z.ltb_lt c 0) Hc) in H1. by apply Z.ltb_ge in H1.
  - rewrite (proj2 (Z.ltb_lt 0 c) Hc) in H2. by apply Z.ltb_ge in H2.
Qed.

Lemma overDims_nil c l :
  overDims c l = [] -> sparesExhausted l c true /\ underCap l c true.
Proof.
  unfold overDims. intros H.
  repeat match type of H with _ ++ _ = [] => apply app_eq_nil in H as [? H] end.
  assert (forall d, overInt (amount d c) (amount d l) = false) as Hi.
  { intros []; match goal with H : (if overInt ?x ?y then _ else _) = [] |- overInt ?x ?y = _ =>
      by destruct (overInt x y) end. }
  assert (overCPU (CPUs c) (CPUs l) = false) as Hc by (by destruct (overCPU _ _)).
  unfold overCPU in Hc. apply orb_false_iff in Hc as [C1 C2].
  split; intros _; (split; [intros d Hd; by apply (overInt_false _ _ (Hi d))|]).
  - intros E. by rewrite E in C1.
  - intros E. by rewrite E in C2.
Qed.

Lemma flt_zero_asym x : flt fzero x = true -> flt x fzero = false.
Proof. by destruct x as [[]|[]| |[] ? ?]. Qed.

(** An empty load overloads nothing. *)
Lemma overDims_zero c : sparesExhausted zeroRes c true /\ underCap zeroRes c true.
Proof.
  assert (forall d, amount d zeroRes = 0) as Hz by (by intros []).
  split; intros _; (split; [intros d ?; rewrite Hz; lia|]); [done|]. simpl. apply flt_zero_asym.
Qed.

Lemma strict_accepts t a st :
  strictAssignmentError t a st = None ->
  (forall id, id ∈ SortedDevices t -> let n := nodeForAssignment t a id in
     n <> "" /\ n ∈ allNodeName st /\ lookup_or [] (unknown st) n = [])
  /\ overloads t a st = [].
Proof.
  unfold strictAssignmentError. destruct (head _) eqn:Hh; [done|].
  destruct (overloads t a st); [|done]. intros _. split; [|done]. intros id Hid.
  pose proof (omap_nil _ _ Hh id Hid) as H. unfold deviceRefusal in H. case_decide; [done|].
  case_bool_decide; [|done]. simpl in H. case_bool_decide; [|done]. done.
Qed.

Lemma overloads_nil t a st node :
  overloads t a st = [] ->
  let load := loadOf (assignmentDemands t a (baseline st)) node in
  sparesExhausted load (capOf st node) (hasOf st node) /\ underCap load (capOf st node) (hasOf st node).
Proof.
  unfold overloads. set (loads := assignmentDemands t a (baseline st)). intros H. simpl.
  destruct (hasOf st node) eqn:Hh; [|by split; intros ?].
  destruct (loads !! node) as [l|] eqn:E.
  - apply overDims_nil. destruct (overDims _ _) as [|o os] eqn:Eo; [done|].
    assert ((node, o) ∈ concat (map (fun name => if hasOf st name then map (pair name)
      (overDims (capOf st name) (loadOf loads name)) else []) (sortStrings (map fst (map_to_list loads))))) as Hin.
    { apply list_elem_of_In, in_concat. exists (map (pair node) (overDims (capOf st node) (loadOf loads node))).
      split; [|rewrite Eo; by left]. apply in_map_iff. exists node. split; [by rewrite Hh|].
      apply list_elem_of_In, elem_of_sortStrings, list_elem_of_fmap. exists (node, l). split; [done|].
      by apply elem_of_map_to_list. }
    rewrite H in Hin. by apply elem_of_nil in Hin.
  - unfold loadOf, lookup_or. rewrite E. apply overDims_zero.
Qed.

(** ** Placing strictly *)

(** A node that may take work: declared, of the requested pool, available. *)
Definition eligibleNode (t : PTop) (o : POptions) (node : string) : Prop :=
  exists p, p ∈ labNodes (lab t) /\ nodeName p = node
  /\ (labPool (lab t) = "" \/ nPool (pnSpec p) = labPool (lab t)) /\ node ∉ oUnavailable (poCap o).

Lemma allNodeName_eligible t o node : node ∈ allNodeName (capacityFor t o) -> eligibleNode t o node.
Proof.
  unfold capacityFor, buildCapacityState. cbn [allNodeName].
  apply (fold_left_inv (fun s => node ∈ allNodeName s -> eligibleNode t o node)); [simpl; set_solver|].
  intros s n Hin Hs. unfold capacityNode.
  destruct (negb (bool_decide (plNodePool _ = "")) && _) eqn:Ep; [done|].
  destruct (decide (nName n ∈ _)) as [Hu|Hu]; [done|]. destruct (effectiveCapacityOf _ _ _) as [[cap has] missing]. simpl.
  rewrite elem_of_union, elem_of_singleton. intros [->|]; [|by apply Hs].
  apply list_elem_of_fmap in Hin as (p & -> & Hp). exists p. split_and!; try done.
  simpl in Ep. destruct (decide (labPool (lab t) = "")); [by left|right].
  rewrite bool_decide_eq_false_2 in Ep by done. simpl in Ep. by case_bool_decide.
Qed.

Lemma Place_ok addressing fuel o t t' a mv ov :
  Place addressing fuel o t = (t', Ok (a, mv, ov)) ->
  exists a0, decidePlacement t o = Ok (a0, mv)
  /\ (strict o = true -> strictAssignmentError t a0 (capacityFor t o) = None)
  /\ finish addressing fuel a0 t = (t', Ok a) /\ ov = overloads t' a0 (capacityFor t o).
Proof.
  unfold Place. intros E. apply bind_ok_inv in E as (t0 & t0' & E0 & E). injection E0 as <- <-.
  apply bind_ok_inv in E as (t1 & [a0 mv0] & E1 & E). rewrite lift_run in E1. injection E1 as <- E1.
  exists a0. apply bind_ok_inv in E as (t2 & [] & E2 & E). apply bind_ok_inv in E as (t3 & res & E3 & E).
  apply bind_ok_inv in E as (t4 & t4' & E4 & E). injection E4 as <- <-. injection E as <- <- <- <-.
  destruct (if strict o then _ else None) eqn:Es; [done|]. injection E2 as <-.
  split; [done|]. split; [|done]. intros Hs. by rewrite Hs in Es.
Qed.

Lemma placed_nodes addressing fuel t t' a res :
  wfTop t -> finish addressing fuel a t = (t', Ok res) ->
  rigid t' = rigid t /\ forall id, id ∈ SortedDevices t ->
    nodeForAssignment t a id = nodeOfDevice t' id /\ nodeOfDevice t' id <> "".
Proof.
  intros Hw E. destruct (finish_spec _ _ _ _ _ _ Hw E) as (Hr & _ & Hn). split; [done|]. intros id Hid.
  destruct (Hn id Hid) as (H1 & H2 & _). split; [|done]. by apply finishNode_agrees.
Qed.

(** C24. A strict placement is capacity-safe: every device is stamped onto a
    node that is declared, in the requested pool and available, and whose
    capacity is known in every dimension; and on every node what is already
    reserved there plus the requests of all devices stamped onto it stays
    within the effective capacity, and asks nothing of an exhausted
    dimension. *)
Theorem strict_placement_is_safe (addressing : Addressing) (fuel : nat) (o : POptions) (t t' : PTop)
    (a : Assignment) (mv : list moved) (ov : list (string * overDim)) :
  wfTop t -> strict o = true -> Place addressing fuel o t = (t', Ok (a, mv, ov)) ->
  let st := capacityFor t o in
  (forall id, is_Some (devs t !! id) ->
     eligibleNode t o (nodeOfDevice t' id) /\ lookup_or [] (unknown st) (nodeOfDevice t' id) = [])
  /\ (forall node, let load := placedLoad t' (baseline st) node in
        underCap load (capOf st node) (hasOf st node)
        /\ sparesExhausted load (capOf st node) (hasOf st node)).
Proof.
  intros Hw Hs E st. destruct (Place_ok _ _ _ _ _ _ _ _ E) as (a0 & _ & H2 & H3 & _).
  apply strict_accepts in H2 as [Hdev Hover]; [|done].
  destruct (placed_nodes _ _ _ _ _ _ Hw H3) as [Hr Hn]. split.
  - intros id Hid%elem_of_devices. specialize (Hdev id Hid). rewrite (proj1 (Hn id Hid)) in Hdev.
    simpl in Hdev. destruct Hdev as (_ & ?%allNodeName_eligible & ?). done.
  - intros node. cbv zeta. rewrite <- (assigned_load t t' a0 _ node Hr Hn).
    by destruct (overloads_nil t a0 st node Hover).
Qed.

(** ** Reading a placement back *)

(** What [readBack] will find in an assignment for a device placed at [node]. *)
Definition readsBack (t : PTop) (a : Assignment) (id node : string) : Prop :=
  match devs t !! id with
  | None => True
  | Some d =>
      if negb (pdASN d =? 0) then aByGroup a !! pdGroup d = Some node
      else match ServiceByDevice t id with
           | None => True
           | Some (s, Some r) => aByServiceReplica a !! repID r = Some node
           | Some (s, None) => aByService a !! svcName s = Some node
           end
  end.

(** What an assignment knows the owner of a global device by. *)
Definition ownerKey (sr : Service * option ServiceReplica) : string + string :=
  match sr.2 with Some r => inl (repID r) | None => inr (svcName sr.1) end.

(** Two devices that share a group, a replica or a singleton share a node. *)
Definition consistentNodes (t : PTop) : Prop :=
  forall x y dx dy, devs t !! x = Some dx -> devs t !! y = Some dy ->
  (pdASN dx <> 0 -> pdASN dy <> 0 -> pdGroup dx = pdGroup dy -> nodeOfDevice t x = nodeOfDevice t y)
  /\ (pdASN dx = 0 -> pdASN dy = 0 -> forall k,
      ownerKey <$> ServiceByDevice t x = Some k -> ownerKey <$> ServiceByDevice t y = Some k ->
      nodeOfDevice t x = nodeOfDevice t y).

(** One step keeps what was read, and reads its own device. *)
Lemma readBack_self t a id d :
  devs t !! id = Some d -> nodeOfDevice t id <> "" -> (pdASN d <> 0 -> pdGroup d <> "") ->
  readsBack t (readBack t a id) id (nodeOfDevice t id).
Proof.
  intros Hd Hn Hg. unfold readsBack, readBack. rewrite decide_False by done. rewrite Hd.
  destruct (Z.eqb_spec (pdASN d) 0) as [|Hz]; simpl.
  - destruct (ServiceByDevice t id) as [[s [r|]]|]; [..|done]; simpl; by rewrite lookup_insert_eq.
  - rewrite decide_False by auto. by rewrite lookup_insert_eq.
Qed.

Lemma readBack_keeps t a x y dx :
  consistentNodes t -> devs t !! x = Some dx -> is_Some (devs t !! y) ->
  nodeOfDevice t x <> "" -> nodeOfDevice t y <> "" ->
  (forall d, devs t !! y = Some d -> pdASN d <> 0 -> pdGroup d <> "") ->
  readsBack t a x (nodeOfDevice t x) -> readsBack t (readBack t a y) x (nodeOfDevice t x).
Proof.
  intros Hc Hx [dy Hy] Hnx Hn Hg. unfold readsBack, readBack. rewrite (decide_False (P := _ = "")) by done.
  rewrite Hx, Hy. destruct (Hc x y dx dy Hx Hy) as [Hc1 Hc2].
  destruct (Z.eqb_spec (pdASN dx) 0) as [Ex|Ex], (Z.eqb_spec (pdASN dy) 0) as [Ey|Ey]; simpl.
  - specialize (Hc2 Ex Ey). destruct (ServiceByDevice t x) as [[s [r|]]|]; [..|done];
      (destruct (ServiceByDevice t y) as [[s' [r'|]]|]; [..|done]); simpl in *; intros H; try done.
    + destruct (decide (repID r' = repID r)) as [E|]; [|by rewrite lookup_insert_ne].
      rewrite E, lookup_insert_eq. by rewrite (Hc2 (inl (repID r))) by (unfold ownerKey; simpl; by rewrite ?E).
    + case_decide as El; [|done]. rewrite lookup_insert_ne; [done|]. intros E. rewrite E in El.
      unfold lookup_or in El. rewrite H in El. done.
    + destruct (decide (svcName s' = svcName s)) as [E|]; [|by rewrite lookup_insert_ne].
      rewrite E, lookup_insert_eq. by rewrite (Hc2 (inr (svcName s))) by (unfold ownerKey; simpl; by rewrite ?E).
  - destruct (ServiceByDevice t x) as [[s [r|]]|]; done.
  - destruct (ServiceByDevice t y) as [[s' [r'|]]|]; done.
  - specialize (Hc1 Ex Ey). rewrite decide_False by eauto. intros H.
    destruct (decide (pdGroup dy = pdGroup dx)) as [E|]; [|by rewrite lookup_insert_ne].
    rewrite E, lookup_insert_eq. by rewrite Hc1.
Qed.

Lemma placed_reads t x :
  consistentNodes t -> (forall id, is_Some (devs t !! id) -> nodeOfDevice t id <> "") ->
  (forall id d, devs t !! id = Some d -> pdASN d <> 0 -> pdGroup d <> "") ->
  is_Some (devs t !! x) -> readsBack t (placedAssignment t) x (nodeOfDevice t x).
Proof.
  intros Hc Hn Hg Hx. unfold placedAssignment.
  assert (forall l a, (forall y, y ∈ l -> is_Some (devs t !! y)) ->
    x ∈ l \/ readsBack t a x (nodeOfDevice t x) -> readsBack t (fold_left (readBack t) l a) x (nodeOfDevice t x)) as H.
  2: { apply H; [intros y; apply elem_of_devices|left; by apply elem_of_devices]. }
  destruct Hx as [dx Hx]. induction l as [|y l IH]; intros a Hl Hor; simpl.
  { destruct Hor as [Hin|]; [by apply elem_of_nil in Hin|done]. }
  apply IH; [intros z Hz; apply Hl; by right|]. destruct Hor as [[->|Hin]%elem_of_cons|Hr]; [right|by left|right].
  - apply (readBack_self _ _ _ dx Hx); [apply Hn; eauto|by apply (Hg y)].
  - assert (is_Some (devs t !! y)) as Hy by (apply Hl; left). apply (readBack_keeps _ _ _ _ dx); eauto.
Qed.

(** The assignment [AdmitPlaced] rebuilds sends every device where it is. *)
Lemma readBack_nodes t id d :
  readsBack t (placedAssignment t) id (nodeOfDevice t id) -> devs t !! id = Some d ->
  nodeOfDevice t id <> "" -> (pdASN d <> 0 -> pdGroup d <> "") ->
  (pdASN d = 0 -> ServiceByDevice t id = None -> nodeOfDevice t id = FrontNode (lab t)) ->
  nodeForAssignment t (placedAssignment t) id = nodeOfDevice t id.
Proof.
  unfold readsBack, nodeForAssignment. intros H Hd Hn Hg Hf. rewrite Hd in *. unfold lookup_or, serviceReplicaNode.
  destruct (Z.eqb_spec (pdASN d) 0) as [E|E]; simpl in *.
  - destruct (ServiceByDevice t id) as [[s [r|]]|]; unfold lookup_or; rewrite ?H; simpl.
    + by rewrite decide_False.
    + by rewrite decide_False.
    + by rewrite Hf.
  - rewrite !(decide_False (P := pdGroup d = "")) by auto. rewrite H. simpl. by rewrite decide_False.
Qed.

Lemma omap_ext_in {A B} (f h : A -> option B) (l : list A) :
  (forall x, x ∈ l -> f x = h x) -> omap f l = omap h l.
Proof.
  intros H. apply list_omap_ext. induction l as [|x l IH]; constructor; [apply H; left|].
  apply IH. intros; apply H; by right.
Qed.

(** Strict admission reads an assignment through the nodes it gives. *)
Lemma strict_ext t t' a a' st :
  rigid t' = rigid t ->
  (forall id, id ∈ SortedDevices t -> nodeForAssignment t' a' id = nodeForAssignment t a id) ->
  strictAssignmentError t' a' st = strictAssignmentError t a st.
Proof.
  intros Hr Hn. unfold strictAssignmentError. rewrite (rigid_devices t t' Hr).
  rewrite (omap_ext_in (deviceRefusal t' a' st) (deviceRefusal t a st)).
  2: { intros id Hid. unfold deviceRefusal. by rewrite (Hn id Hid). }
  assert (assignmentDemands t' a' (baseline st) = assignmentDemands t a (baseline st)) as E.
  { unfold assignmentDemands. rewrite (rigid_devices t t' Hr). generalize (baseline st). revert Hn.
    induction (SortedDevices t) as [|x l IH]; intros Hn base; simpl; [done|].
    rewrite (Hn x) by left. rewrite (rigid_demand t t' Hr). apply IH. intros; apply Hn; by right. }
  unfold overloads. by rewrite E.
Qed.

(** Devices of one placement group are of one AS. *)
Definition groupsWithinAS (t : PTop) : Prop :=
  forall x y dx dy, devs t !! x = Some dx -> devs t !! y = Some dy ->
  pdASN dx <> 0 -> pdASN dy <> 0 -> pdGroup dx = pdGroup dy -> pdASN dx = pdASN dy.

Lemma finish_consistent t a :
  groupsWithinAS t -> (forall id d, devs t !! id = Some d -> 0 <= pdASN d) ->
  (forall id, is_Some (devs t !! id) -> finishNode t a id = Some (nodeOfDevice t id)) -> consistentNodes t.
Proof.
  intros Hg H0 Hf x y dx dy Hx Hy.
  pose proof (Hf x ltac:(eauto)) as Fx. pose proof (Hf y ltac:(eauto)) as Fy.
  pose proof (H0 _ _ Hx). pose proof (H0 _ _ Hy).
  unfold finishNode in Fx, Fy. rewrite Hx in Fx. rewrite Hy in Fy. split.
  - intros Ex Ey Eg. pose proof (Hg x y dx dy Hx Hy Ex Ey Eg) as Ea. rewrite <- Ea, <- Eg in Fy.
    rewrite (proj2 (Z.ltb_lt 0 (pdASN dx))) in Fx, Fy by lia. congruence.
  - intros Ex Ey k Kx Ky. rewrite Ex in Fx. rewrite Ey in Fy. simpl in Fx, Fy.
    unfold serviceReplicaNode in Fx, Fy.
    destruct (ServiceByDevice t x) as [[s [r|]]|], (ServiceByDevice t y) as [[s' [r'|]]|]; simpl in Kx, Ky;
      unfold ownerKey in Kx, Ky; simpl in Kx, Ky; try congruence; rewrite <- Ky in Kx; injection Kx as Kx;
      rewrite Kx in Fx; congruence.
Qed.

(** C25. Placement and the admission check before a deployment agree: when no
    node is drained or otherwise unavailable, a topology that strict placement
    produced is admitted by [AdmitPlaced] against the same inventory, which
    rebuilds the assignment from the stamped nodes. (The check is told nothing
    of unavailable nodes: one whose reserved load already exceeds its capacity
    is skipped by the placement and refused by the check.) It is assumed of the
    topology that it is one that expansion builds ([wfTop]: nodes have names and
    every device of an AS has a placement group) and that the devices of a
    placement group belong to one AS. *)
Theorem placed_topology_is_admitted (addressing : Addressing) (fuel : nat) (o : POptions) (t t' : PTop)
    (a : Assignment) (mv : list moved) (ov : list (string * overDim)) :
  wfTop t -> groupsWithinAS t -> strict o = true -> oUnavailable (poCap o) = ∅ ->
  Place addressing fuel o t = (t', Ok (a, mv, ov)) ->
  AdmitPlaced t' (oInventory (poCap o)) true false = None.
Proof.
  intros Hw Hg Hs Hu E. destruct (Place_ok _ _ _ _ _ _ _ _ E) as (a0 & _ & H2 & H3 & _). specialize (H2 Hs).
  destruct (finish_spec _ _ _ _ _ _ Hw H3) as (Hr & _ & Hf).
  destruct (placed_nodes _ _ _ _ _ _ Hw H3) as [_ Hn]. destruct Hw as (_ & Hw & _).
  assert (forall id d, devs t' !! id = Some d -> exists d0, devs t !! id = Some d0 /\ staticOf d = staticOf d0) as Hd.
  { intros id d Hd. pose proof (rigid_static t t' Hr id) as H. rewrite Hd in H.
    destruct (devs t !! id) as [d0|]; [|done]. injection H as H1 H4 H5. exists d0. split; [done|].
    unfold staticOf. congruence. }
  assert (forall id d, devs t' !! id = Some d -> id ∈ SortedDevices t) as Hin.
  { intros id d Hid. apply elem_of_devices. destruct (Hd _ _ Hid) as (d0 & -> & _). eauto. }
  assert (forall id d, devs t' !! id = Some d -> 0 <= pdASN d /\ (pdASN d <> 0 -> pdGroup d <> "")) as Hw'.
  { intros id d Hid. destruct (Hd _ _ Hid) as (d0 & H0 & Es). destruct (Hw _ _ H0) as [Ha Hb].
    injection Es as -> -> _. split; [done|]. intros ?. apply Hb. lia. }
  assert (forall id, is_Some (devs t' !! id) -> finishNode t' a0 id = Some (nodeOfDevice t' id)) as Hfin.
  { intros id [d Hid]. rewrite (rigid_finishNode t t' Hr). apply Hf. eauto. }
  assert (consistentNodes t') as Hc.
  { apply (finish_consistent t' a0); [|by intros; eapply Hw'|done]. intros x y dx dy Hx Hy.
    destruct (Hd _ _ Hx) as (x0 & X0 & Ex), (Hd _ _ Hy) as (y0 & Y0 & Ey).
    injection Ex as -> -> _. injection Ey as -> -> _. by eapply Hg. }
  assert (capacityFor t o = buildCapacityState (tName (graph t')) (placementOf (lab t'))
    (mkOpts (oInventory (poCap o)) true false ∅)) as Ec.
  { unfold capacityFor. rewrite (rigid_lab t t' Hr).
    apply (f_equal (fun x => x.1.1.1.1.2.1.1.1)) in Hr. simpl in Hr. rewrite Hr. f_equal.
    unfold strict in Hs. destruct (poCap o) as [inv st oc un]. simpl in *. by destruct st, oc; subst. }
  unfold AdmitPlaced. simpl. rewrite <- Ec, <- H2. apply strict_ext; [done|]. intros id Hid.
  rewrite (proj1 (Hn id Hid)). rewrite <- (rigid_devices t t' Hr) in Hid. apply elem_of_devices in Hid as [d Hid].
  assert (nodeOfDevice t' id <> "") as Hne by (apply Hn; eauto).
  apply (readBack_nodes _ _ d); [|done|done|by eapply Hw'|].
  - apply placed_reads; [done| |by intros; eapply Hw'|eauto]. intros y [dy Hy]. apply Hn. eauto.
  - intros Ez Eo. pose proof (Hfin id ltac:(eauto)) as F. unfold finishNode, serviceReplicaNode in F.
    rewrite Hid, Ez, Eo in F. simpl in F. congruence.
Qed.

(** ** Pins and recorded placements *)

Lemma recordStep_keeps r nodes acc asn x n : acc.1 !! x = Some n -> (recordStep r nodes acc asn).1 !! x = Some n.
Proof.
  intros H. unfold recordStep. destruct (rByAS r !! asn) as [m|]; [|done].
  destruct (acc.1 !! asn) eqn:E; [done|]. case_decide; [|done]. simpl.
  rewrite lookup_insert_ne; [done|]. by intros ->; rewrite H in E.
Qed.

Lemma honourRecord_spec t o st pinned asn n :
  asn ∈ asnsOf t ->
  pinned !! asn = Some n
  \/ pinned !! asn = None /\ (exists r, honoured o = Some r /\ rByAS r !! asn = Some n /\ n ∈ allNodeName st) ->
  (honourRecord t o st pinned).1 !! asn = Some n.
Proof.
  intros Hin Hor. unfold honourRecord. destruct (honoured o) as [r|]; [|naive_solver].
  set (P (acc : gmap Z string * list moved) := acc.1 !! asn = Some n \/
    acc.1 !! asn = None /\ rByAS r !! asn = Some n /\ n ∈ allNodeName st).
  assert (forall l acc, P acc -> (asn ∈ l \/ acc.1 !! asn = Some n) ->
    (fold_left (recordStep r (allNodeName st)) l acc).1 !! asn = Some n) as H.
  2: { apply H; [|by left]. unfold P. simpl. destruct Hor as [|(? & r' & [= <-] & ? & ?)]; [by left|by right]. }
  induction l as [|x l IH]; intros acc HP Hl; simpl.
  { destruct Hl as [Hl|]; [by apply elem_of_nil in Hl|done]. }
  destruct HP as [HP|(HP & Hr & Hn)].
  { apply IH; [left|right]; by apply recordStep_keeps. }
  destruct (decide (x = asn)) as [->|Hne].
  - unfold recordStep at 2. rewrite Hr, HP. rewrite decide_True by done.
    apply IH; [left|right]; simpl; by rewrite lookup_insert_eq.
  - apply IH; [|destruct Hl as [[->|]%elem_of_cons|]; [done|by left|congruence]].
    right. split; [|done]. unfold recordStep. destruct (rByAS r !! x); [|done].
    destruct (acc.1 !! x); [done|]. case_decide; [|done]. simpl. by rewrite lookup_insert_ne.
Qed.

Lemma honourPins_spec t o st pinned asns s s' :
  honourPins t o st pinned asns s = Ok s' ->
  (forall asn, asn ∉ asns -> asBy s' !! asn = asBy s !! asn)
  /\ (forall asn n, asn ∈ asns -> pinned !! asn = Some n -> asBy s' !! asn = Some n)
  /\ asFree s' = asFree s ++ List.filter (fun asn => bool_decide (pinned !! asn = None)) asns.
Proof.
  revert s. induction asns as [|x asns IH]; intros s E; simpl in E.
  { injection E as <-. split; [done|]. split; [|by rewrite app_nil_r]. intros ?? H. by apply elem_of_nil in H. }
  simpl. destruct (pinned !! x) as [n|] eqn:Ex.
  - destruct (negb _); [done|]. destruct (_ && _); [done|]. apply IH in E as (E1 & E2 & E3).
    rewrite bool_decide_eq_false_2 by done. split; [|split; [|done]].
    + intros asn Hn. rewrite E1 by set_solver. simpl. rewrite lookup_insert_ne by set_solver. done.
    + intros asn m Hin Hm. destruct (decide (asn ∈ asns)); [by apply E2|].
      apply elem_of_cons in Hin as [->|]; [|done]. rewrite E1 by done. simpl. rewrite lookup_insert_eq. congruence.
  - apply IH in E as (E1 & E2 & E3). rewrite bool_decide_eq_true_2 by done.
    split; [intros asn Hn; apply E1; set_solver|]. split; [|rewrite E3; simpl; by rewrite <- app_assoc].
    intros asn m [->|Hin]%elem_of_cons Hm; [congruence|by apply E2].
Qed.

Lemma greedy_spec t st weights g front tol nominal asns s s' :
  greedy t st weights g front tol nominal asns s = Ok s' ->
  (forall asn, asn ∉ asns -> asBy s' !! asn = asBy s !! asn)
  /\ (forall asn, asn ∈ asns -> is_Some (asBy s' !! asn)).
Proof.
  revert s. induction asns as [|x asns IH]; intros s E; simpl in E.
  { injection E as <-. split; [done|]. intros ? H. by apply elem_of_nil in H. }
  destruct (bestForLocality _ _ _ _ _ _ _ _ _) as [n|]; [|done]. apply IH in E as [E1 E2]. split.
  - intros asn Hn. rewrite E1 by set_solver. simpl. by rewrite lookup_insert_ne by set_solver.
  - intros asn Hin. destruct (decide (asn ∈ asns)); [by apply E2|].
    apply elem_of_cons in Hin as [->|]; [|done]. rewrite E1 by done. simpl. rewrite lookup_insert_eq. eauto.
Qed.

(** The local search moves only ASes that are placed and not pinned. *)
Lemma attempts_keep (P : search -> Prop) tries s k :
  (forall f s s', f ∈ tries -> P s -> f s = Some s' -> P s') -> P s -> P (attempts tries s k).1.
Proof.
  revert s k. induction tries as [|f tries IH]; intros s k Hf Hs; simpl; [done|].
  destruct (f s) as [s'|] eqn:E; apply IH; try done; try (intros; eapply Hf; [by right|done..]).
  eapply Hf; [left|done..].
Qed.

Lemma rounds_keep (P : search -> Prop) names g weight caps hasCap pw front nominal n ceil mov s k :
  (forall f s s', f ∈ oneRound names g weight caps hasCap pw front nominal ceil mov ->
     P s -> f s = Some s' -> P s') ->
  P s -> P (rounds names g weight caps hasCap pw front nominal n ceil mov s k).1.
Proof.
  intros Hf. revert s k. induction n as [|n IH]; intros s k Hs; simpl; [done|].
  pose proof (attempts_keep P _ s k Hf Hs) as H. destruct (attempts _ s k) as [s' k']. simpl in H.
  destruct (_ =? _)%nat; [done|by apply IH].
Qed.

Lemma oneRound_touches names g weight caps hasCap pw front nominal ceil mov f s s' x :
  f ∈ oneRound names g weight caps hasCap pw front nominal ceil mov -> f s = Some s' -> x ∉ mov ->
  byAS s' !! x = byAS s !! x.
Proof.
  unfold oneRound. intros [(y & -> & Hy)%list_elem_of_fmap|([y z] & -> & [Hy Hz]%elem_of_pairs)%list_elem_of_fmap]%elem_of_app E Hx.
  - unfold tryMove in E. destruct (bestMove _ _ _ _ _ _ _ _ _ _ _) as [? to]. case_decide; [done|].
    injection E as <-. simpl. rewrite lookup_insert_ne by set_solver. done.
  - unfold trySwap in E. case_decide; [done|]. destruct (_ <=? _); [done|]. destruct (_ || _); [done|].
    injection E as <-. simpl. rewrite !lookup_insert_ne by set_solver. done.
Qed.

Lemma refine_keeps names g weight caps hasCap pw pinned front tol nominal s x :
  is_Some (pinned !! x) ->
  byAS (refine names g weight caps hasCap pw pinned front tol nominal s).1 !! x = byAS s !! x.
Proof.
  intros [n Hx]. unfold refine. destruct (_ <? _)%nat; [done|].
  apply (rounds_keep (fun s' => byAS s' !! x = byAS s !! x)); [|done]. intros f s1 s2 Hf H1 H2.
  rewrite <- H1. eapply oneRound_touches; [done..|]. intros [_ Hn]%movable_spec. congruence.
Qed.

(** Pinned and recorded ASes keep their node through the AS pass. *)
Lemma placeASes_keeps t o st pinned front strategy s0 s by_ asn n :
  honourPins t o st pinned (asnsOf t) s0 = Ok s -> asFree s0 = [] ->
  placeASes t o st pinned front strategy s = Ok by_ -> ~ (0 ∈ asnsOf t) ->
  asn ∈ asnsOf t -> pinned !! asn = Some n -> by_ !! asn = Some n.
Proof.
  intros E0 Ef E H0 Hin Hp. destruct (honourPins_spec _ _ _ _ _ _ _ E0) as (_ & P2 & P3).
  unfold placeASes in E. destruct (_ || _); [|done]. destruct (greedy _ _ _ _ _ _ _ _ _) as [s'|] eqn:Eg; [|done].
  injection E as <-. rewrite refine_keeps by eauto. simpl. apply greedy_spec in Eg as [G1 _].
  rewrite G1; [by apply P2|]. intros Ho.
  assert (asFree s = List.filter (fun asn => bool_decide (pinned !! asn = None)) (asnsOf t)) as Efr by (by rewrite P3, Ef).
  rewrite Efr, order_perm in Ho.
  - apply list_elem_of_In, filter_In in Ho as [_ Ho%bool_decide_eq_true]. congruence.
  - apply NoDup_ListNoDup, List.NoDup_filter, NoDup_ListNoDup. unfold asnsOf, SortedASNs.
    apply NoDup_sortInts. apply NoDup_fst_map_to_list.
  - intros [? _]%list_elem_of_In%filter_In. by apply H0, list_elem_of_In.
Qed.

(** ** Groups split only ASes that may be split *)

Definition splittable (t : PTop) (explicit : gmap Z string) (asn : Z) : Prop :=
  explicit !! asn = None /\ pasDistributable (asOf t asn) = true.

(** Group entries are groups of splittable ASes, and only these have moved. *)
Definition groupsOK (t : PTop) (explicit : gmap Z string) (by0 : gmap Z string) (s : groupState) : Prop :=
  (forall asn, ~ splittable t explicit asn -> gsByAS s !! asn = by0 !! asn)
  /\ (forall k, is_Some (gsByGroup s !! k) ->
        exists asn g, splittable t explicit asn /\ g ∈ pasGroups (asOf t asn) /\ grID g = k).

Lemma putGroup_ok t explicit by0 asn g n s :
  splittable t explicit asn -> g ∈ pasGroups (asOf t asn) ->
  groupsOK t explicit by0 s -> groupsOK t explicit by0 (putGroup t g n s).
Proof.
  intros Hs Hg [H1 H2]. split; [done|]. intros k Hk. simpl in Hk.
  destruct (decide (k = grID g)) as [->|]; [by exists asn, g|].
  rewrite lookup_insert_ne in Hk by done. by apply H2.
Qed.

Lemma splitGroups_in gs g : g ∈ (splitGroups gs).1 \/ g ∈ (splitGroups gs).2 -> g ∈ gs.
Proof.
  unfold splitGroups. destruct (List.filter _ gs) as [|x l] eqn:E; simpl.
  - intros H. rewrite <- (take_drop 1 gs). by apply elem_of_app.
  - rewrite <- E. intros [H|H]; by apply list_elem_of_In, filter_In in H as [H%list_elem_of_In _].
Qed.

Lemma distributeAS_ok t o st weights explicit nominal by0 asn s s' :
  distributeAS t o st weights explicit nominal asn s = Ok s' ->
  groupsOK t explicit by0 s -> groupsOK t explicit by0 s'.
Proof.
  intros E Hok. unfold distributeAS in E. destruct (pasDistributable _) eqn:Ed; simpl in E; [|by injection E as <-].
  destruct (_ <? _)%nat; [by injection E as <-|]. destruct (fixedGroups _ _ _) as [[fixed mv] has].
  case_bool_decide as Hx; simpl in E; [by injection E as <-|]. destruct (_ && negb has); [by injection E as <-|].
  destruct (bool_decide _ && _); [|done].
  assert (splittable t explicit asn) as Hs.
  { split; [|done]. destruct (explicit !! asn) eqn:E1; [|done]. destruct Hx. eauto. }
  destruct (splitGroups (SortedPlacementGroups (asOf t asn))) as [anchors leaves] eqn:Esp.
  assert (forall g, g ∈ anchors \/ g ∈ leaves -> g ∈ pasGroups (asOf t asn)) as Hg.
  { intros g Hin. assert (g ∈ SortedPlacementGroups (asOf t asn)) as H
      by (apply splitGroups_in; by rewrite Esp).
    unfold SortedPlacementGroups in H. by rewrite merge_sort_Permutation in H. }
  match type of E with context [fold_left ?f anchors ?x] =>
    assert (groupsOK t explicit by0 (fold_left f anchors x).1) as Ha end.
  { apply (fold_left_inv (fun sa => groupsOK t explicit by0 sa.1)); [done|]. intros [s1 n1] g Hin H1. simpl.
    apply (putGroup_ok _ _ _ asn); auto. }
  destruct (fold_left _ anchors _) as [s1 anchor]. injection E as <-. simpl in Ha.
  apply (fold_left_inv (groupsOK t explicit by0)).
  - destruct Ha as [H1 H2]. split; [|done]. intros x Hn. simpl. rewrite lookup_insert_ne by (by intros ->).
    by apply H1.
  - intros s2 g Hin H2. apply (putGroup_ok _ _ _ asn); auto.
Qed.

Lemma distributeAll_ok t o st weights explicit nominal by0 asns s s' :
  distributeAll t o st weights explicit nominal asns s = Ok s' ->
  groupsOK t explicit by0 s -> groupsOK t explicit by0 s'.
Proof.
  revert s. induction asns as [|x asns IH]; intros s E Hs; simpl in E; [by injection E as <-|].
  destruct (distributeAS _ _ _ _ _ _ _ _) as [s1|] eqn:E1; [|done].
  eapply IH; [done|]. by eapply distributeAS_ok.
Qed.

Lemma distribute_ok t o st weights explicit a a' mv :
  aByGroup a = ∅ -> distributePlacementGroups t o st weights explicit a = Ok (a', mv) ->
  groupsOK t explicit (aByAS a) (mkGroupState (aByAS a') (aByGroup a') ∅ []).
Proof.
  intros Hg E. unfold distributePlacementGroups in E. destruct (_ <? _)%nat.
  - injection E as <- _. split; [done|]. simpl. rewrite Hg. intros k [? Hk]. by rewrite lookup_empty in Hk.
  - destruct (distributeAll _ _ _ _ _ _ _ _) as [s|] eqn:E1; [|done]. injection E as <- _. simpl.
    eapply distributeAll_ok in E1; [exact E1|]. split; [done|]. simpl. rewrite Hg. intros k [? Hk].
    by rewrite lookup_empty in Hk.
Qed.

Lemma eligible_allNodeName t o node : eligibleNode t o node -> node ∈ allNodeName (capacityFor t o).
Proof.
  intros (p & Hp & Hn & Hpool & Hu). unfold capacityFor, buildCapacityState. cbn [allNodeName].
  apply list_elem_of_split in Hp as (l1 & l2 & Hp). simpl. rewrite Hp, map_app, fold_left_app. simpl.
  assert (forall l s, node ∈ allNodeName s -> node ∈ allNodeName (fold_left
    (capacityNode (tName (graph t)) (placementOf (lab t)) (poCap o)) l s)) as Hk.
  { intros l s Hs. apply (fold_left_inv (fun s => node ∈ allNodeName s)); [done|]. intros s1 n1 _ H1.
    unfold capacityNode. destruct (_ && _); [done|]. destruct (decide _); [done|].
    destruct (effectiveCapacityOf _ _ _) as [[? ?] ?]. simpl. set_solver. }
  apply Hk. unfold capacityNode at 1. unfold nodeName in Hn. rewrite Hn.
  destruct (negb (bool_decide (plNodePool _ = "")) && _) eqn:E.
  { simpl in E. apply andb_true_iff in E as [E1 E2]. rewrite !negb_true_iff, !bool_decide_eq_false in *. naive_solver. }
  rewrite decide_False by done. destruct (effectiveCapacityOf _ _ _) as [[? ?] ?]. simpl. set_solver.
Qed.

(** A placement group belongs to the AS of its devices. *)
Definition groupOwners (t : PTop) : Prop :=
  forall asn g id d, g ∈ pasGroups (asOf t asn) -> devs t !! id = Some d -> pdGroup d = grID g -> pdASN d = asn.

(** The node an AS is held at: an explicit pin, or else its recorded place
    while that node can still be used, unless the AS may be split. *)
Definition heldAt (t : PTop) (o : POptions) (asn : Z) (n : string) : Prop :=
  explicitPins t !! asn = Some n
  \/ explicitPins t !! asn = None /\ pasDistributable (asOf t asn) = false /\ eligibleNode t o n
     /\ exists r, honoured o = Some r /\ rByAS r !! asn = Some n.

Lemma decide_held t o a mv asn n :
  decidePlacement t o = Ok (a, mv) -> strategyOf t o <> "single-node" -> 0 ∉ asnsOf t -> asn ∈ asnsOf t ->
  heldAt t o asn n ->
  aByAS a !! asn = Some n
  /\ (forall k, is_Some (aByGroup a !! k) -> exists asn' g, asn' <> asn /\ g ∈ pasGroups (asOf t asn') /\ grID g = k).
Proof.
  intros E Hst H0 Hin Hheld. unfold decidePlacement in E. destruct (decide (labNodes _ = _)); [done|].
  destruct (negb _); [done|]. rewrite decide_False in E by done. destruct (decide (names _ = _)); [done|].
  pose proof (honourRecord_spec t o (capacityFor t o) (explicitPins t) asn n Hin) as Hpin.
  destruct (honourRecord _ _ _ _) as [pinned mv0]. simpl in Hpin.
  destruct (recordedGroupError _ _); [done|]. destruct (placeServices _ _ _ _ _ _ _ _ _ _) as [ss|]; [|done].
  destruct (honourPins _ _ _ _ _ _) as [s|] eqn:E1; [|done].
  destruct (placeASes _ _ _ _ _ _ _) as [by_|] eqn:E2; [|done].
  destruct (distributePlacementGroups _ _ _ _ _ _) as [[a' gmv]|] eqn:E3; [|done]. injection E as <- _.
  assert (pinned !! asn = Some n) as Hp.
  { apply Hpin. destruct Hheld as [|(? & ? & ?%eligible_allNodeName & r & ? & ?)]; [by left|right]. eauto. }
  pose proof (placeASes_keeps _ _ _ _ _ _ _ _ _ asn n E1 eq_refl E2 H0 Hin Hp) as Hby.
  apply distribute_ok in E3 as [G1 G2]; [|done]. simpl in G1, G2.
  assert (~ splittable t (explicitPins t) asn) as Hns.
  { intros [S1 S2]. destruct Hheld as [|(? & ? & _)]; congruence. }
  split; [by rewrite G1|]. intros k Hk. destruct (G2 k Hk) as (asn' & g & Hs & ? & ?). exists asn', g.
  split; [by intros ->|done].
Qed.

(** C30. Pins and recorded placements hold, under every strategy but the
    single-node one (which ignores both): when an AS is pinned in the manifest,
    or it is not pinned, may not be split over nodes, and a previous deployment
    recorded a node for it that can still be used, every device of the AS is
    stamped onto exactly that node, whatever the preference of the strategy,
    the local search or the groups of other ASes do. It is assumed of the
    topology that it is one that expansion builds ([wfTop]), that no AS is
    numbered 0 and that the devices of a placement group belong to the AS that
    declares the group. *)
Theorem pins_and_records_are_kept (addressing : Addressing) (fuel : nat) (o : POptions) (t t' : PTop)
    (a : Assignment) (mv : list moved) (ov : list (string * overDim)) (id : string) (d : PDevice) (n : string) :
  wfTop t -> groupOwners t -> 0 ∉ asnsOf t -> strategyOf t o <> "single-node" ->
  Place addressing fuel o t = (t', Ok (a, mv, ov)) ->
  devs t !! id = Some d -> pdASN d ∈ asnsOf t -> heldAt t o (pdASN d) n -> nodeOfDevice t' id = n.
Proof.
  intros Hw Hg H0 Hst E Hd Hin Hheld. destruct (Place_ok _ _ _ _ _ _ _ _ E) as (a0 & E1 & _ & E3 & _).
  destruct (decide_held _ _ _ _ _ _ E1 Hst H0 Hin Hheld) as [Hby Hgr].
  destruct (finish_spec _ _ _ _ _ _ Hw E3) as (_ & _ & Hf).
  destruct (Hf id) as (Hn & _); [apply elem_of_devices; eauto|]. unfold finishNode in Hn. rewrite Hd in Hn.
  assert (0 < pdASN d) as Hp.
  { destruct Hw as (_ & Hw & _). destruct (Hw _ _ Hd) as [? _].
    destruct (decide (pdASN d = 0)) as [E0|]; [by rewrite E0 in Hin|lia]. }
  rewrite (proj2 (Z.ltb_lt _ _) Hp) in Hn. destruct (aByGroup a0 !! pdGroup d) eqn:Eg.
  - destruct (Hgr (pdGroup d)) as (asn' & g & Hne & Hin' & Hk); [eauto|]. destruct Hne. symmetry.
    by eapply Hg.
  - congruence.
Qed.

(** ** Refusals *)

(** The errors [finish] can return. *)
Definition stampError (e : placeErr) : Prop :=
  match e with EUnplaced _ | EUnknownNode _ _ | EAttach _ => True | _ => False end.

Lemma finish_errors addressing fuel a t t' e : finish addressing fuel a t = (t', Err e) -> stampError e.
Proof.
  intros E. unfold finish, mbind, SE_bind, get in E. simpl in E.
  assert (forall ids t t' e, stampAll a ids t = (t', Err e) -> stampError e) as H1.
  { induction ids as [|x ids IH]; intros s s' e' E'; [done|]. simpl in E'. unfold mbind, SE_bind, get in E'.
    simpl in E'. destruct (finishNode s a x); [by apply IH in E'|by injection E' as _ <-]. }
  assert (forall ids t t' e, hardenAll ids t = (t', Err e) -> stampError e) as H2.
  { induction ids as [|x ids IH]; intros s s' e' E'; [done|]. simpl in E'. unfold mbind, SE_bind, get in E'.
    simpl in E'. destruct (NodeByName _ _); [by apply IH in E'|by injection E' as _ <-]. }
  destruct (stampAll a _ t) as [t1 [[]|e1]] eqn:E1; [|injection E as <- <-; by eapply H1].
  destruct (hardenAll _ t1) as [t2 [[]|e2]] eqn:E2; [|injection E as <- <-; by eapply H2].
  unfold modify in E. simpl in E.
  destruct (onGraph _ _) as [t4 [[]|e4]] eqn:E4; [done|]. injection E as <- <-. unfold onGraph in E4.
  destruct (ReconcileAttachments _ _ _ _) as [g4 [[]|e5]]; [done|]. by injection E4 as _ <-.
Qed.

(** A refused placement leaves no trace: unless the stamping of an accepted
    assignment itself fails, an error means that the topology is exactly what it
    was, strict refusals included. *)
Theorem refused_placement_leaves_no_trace (addressing : Addressing) (fuel : nat) (o : POptions)
    (t t' : PTop) (e : placeErr) :
  Place addressing fuel o t = (t', Err e) -> ~ stampError e -> t' = t.
Proof.
  intros E Hs. unfold Place, mbind, SE_bind, get in E. simpl in E.
  destruct (decidePlacement t o) as [[a mv]|e1]; [|by injection E as <- _].
  unfold lift in E. destruct (if strict o then _ else None) as [e1|]; [by injection E as <- _|].
  simpl in E. destruct (finish addressing fuel a t) as [t1 [res|e1]] eqn:Ef; [done|].
  injection E as <- <-. destruct Hs. by eapply finish_errors.
Qed.

(** ** Examples *)

(** Well-formedness, executable. *)
Definition wellFormed (t : PTop) : bool :=
  bool_decide (dom (devs t) = dom (tDevices (graph t)))
  && bool_decide (map_Forall (fun _ d => 0 <= pdASN d /\ (0 < pdASN d -> pdGroup d <> "")) (devs t))
  && bool_decide (Forall (fun n => nodeName n <> "") (labNodes (lab t)))
  && bool_decide (map_Forall (fun _ dx => map_Forall (fun _ dy =>
       pdASN dx <> 0 -> pdASN dy <> 0 -> pdGroup dx = pdGroup dy -> pdASN dx = pdASN dy) (devs t)) (devs t))
  && bool_decide (map_Forall (fun asn p => Forall (fun g => map_Forall (fun _ d =>
       pdGroup d = grID g -> pdASN d = asn) (devs t)) (pasGroups p)) (ases t)).

Lemma wellFormed_ok t : wellFormed t = true -> wfTop t /\ groupsWithinAS t /\ groupOwners t.
Proof.
  unfold wellFormed. rewrite !andb_true_iff, !bool_decide_eq_true.
  intros ((((H1 & H2) & H3) & H4) & H5). split_and!.
  - split_and!; [|exact H2|by apply Forall_forall]. intros id. rewrite <- !elem_of_dom, H1. done.
  - intros x y dx dy Hx Hy. apply (H4 x dx Hx y dy Hy).
  - intros asn g id d Hg Hd. unfold asOf, lookup_or in Hg. destruct (ases t !! asn) as [p|] eqn:Ep.
    + simpl in Hg. pose proof (proj1 (Forall_forall _ _) (H5 asn p Ep) g Hg) as H. apply (H id d Hd).
    + by apply elem_of_nil in Hg.
Qed.

(** A router with FRR, a controller, two nodes. *)
Definition demoRouter : DeviceSpec :=
  mkDeviceSpec KindRouter "" (EffectiveResourceRequest KindRouter None) fzero "" 0.
Definition demoControllerSpec : DeviceSpec :=
  mkDeviceSpec KindController "" (EffectiveResourceRequest KindController None) fzero "" 0.
Definition demoBudget (containers : Z) : Budget :=
  mkBudget (fint 8) (Some (2 ^ 34)) 4096 (Some (2 ^ 36)) 65536 256 containers.
Definition demoPNode (name : string) (front : bool) (containers : Z) : PNode :=
  mkPNode (mkNodeSpec name "" (Some (demoBudget containers))) front fzero "runc" "".
Definition demoLab : Lab := mkLab [demoPNode "n1" true 6; demoPNode "n2" false 4] "" ∅ [] "".
Definition bareDevice : SDevice := mkSDevice "" 1 [].
Definition demoGraph : Top :=
  mkTop "demo" ["n1"; "n2"] {[1 := mkSAS "student" "t" "" ""; 2 := mkSAS "student" "t" "" "n2"]}
    {["as1/R" := bareDevice; "as2/R" := bareDevice; "svc/ctl" := bareDevice]} ∅
    [mkSLink "l1" ("as1/R", 0%nat) ("as2/R", 1%nat) None 0] 2.
Definition demoPTop : PTop :=
  mkPTop demoGraph
    {["as1/R" := mkPDevice 1 "as1" demoRouter "" ""; "as2/R" := mkPDevice 2 "as2" demoRouter "" "";
      "svc/ctl" := mkPDevice 0 "" demoControllerSpec "" ""]}
    {[1 := mkPAS ["as1/R"] false [mkPGroup "as1" "as" ["as1/R"]];
      2 := mkPAS ["as2/R"] false [mkPGroup "as2" "as" ["as2/R"]]]}
    ∅ ∅ demoLab.
Definition strictOpts : POptions := mkPOpts "" None false (mkOpts [] true false ∅).
Definition noAddresses : Addressing := fun _ => None.
Definition demoPlaced := Place noAddresses 8 strictOpts demoPTop.

Lemma demo_wellFormed : wellFormed demoPTop = true.
Proof. vm_compute. reflexivity. Qed.

Lemma demo_placed : exists a mv ov, demoPlaced = (demoPlaced.1, Ok (a, mv, ov)).
Proof.
  destruct demoPlaced as [t' [[[a mv] ov]|e]] eqn:E; [by exists a, mv, ov|]. exfalso.
  assert (match demoPlaced.2 with Ok _ => true | Err _ => false end = true) as H by (vm_compute; reflexivity).
  by rewrite E in H.
Qed.

Lemma strict_placement_is_safe_witness :
  lookup_or [] (unknown (capacityFor demoPTop strictOpts)) (nodeOfDevice demoPlaced.1 "as1/R") = []
  /\ nodeOfDevice demoPlaced.1 "as1/R" = "n1".
Proof.
  destruct demo_placed as (a & mv & ov & E).
  destruct (strict_placement_is_safe noAddresses 8 strictOpts demoPTop _ a mv ov
    (proj1 (wellFormed_ok _ demo_wellFormed)) eq_refl E) as [H _].
  split; [|vm_compute; reflexivity]. apply (H "as1/R").
  apply (bool_decide_eq_true_1 _). vm_compute. reflexivity.
Defined.

Lemma placed_topology_is_admitted_witness : AdmitPlaced demoPlaced.1 [] true false = None.
Proof.
  destruct demo_placed as (a & mv & ov & E). destruct (wellFormed_ok _ demo_wellFormed) as (H1 & H2 & _).
  exact (placed_topology_is_admitted noAddresses 8 strictOpts demoPTop _ a mv ov H1 H2 eq_refl eq_refl E).
Defined.

Lemma pins_and_records_are_kept_witness : nodeOfDevice demoPlaced.1 "as2/R" = "n2".
Proof.
  destruct demo_placed as (a & mv & ov & E). destruct (wellFormed_ok _ demo_wellFormed) as (H1 & _ & H3).
  apply (pins_and_records_are_kept noAddresses 8 strictOpts demoPTop _ a mv ov "as2/R"
    (mkPDevice 2 "as2" demoRouter "" "") "n2" H1 H3).
  - apply (bool_decide_eq_true_1 _). vm_compute. reflexivity.
  - discriminate.
  - exact E.
  - reflexivity.
  - apply (bool_decide_eq_true_1 _). vm_compute. reflexivity.
  - left. vm_compute. reflexivity.
Defined.

(** Options that drain the front node [n1]. *)
Definition drainOpts (strict : bool) : POptions := mkPOpts "" None false (mkOpts [] strict false {["n1"]}).

Lemma refused_placement_leaves_no_trace_witness :
  Place noAddresses 8 (drainOpts true) demoPTop = (demoPTop, Err (EUndeclared "svc/ctl" "n1")).
Proof.
  assert ((Place noAddresses 8 (drainOpts true) demoPTop).2 = Err (EUndeclared "svc/ctl" "n1")) as E
    by (vm_compute; reflexivity).
  destruct (Place noAddresses 8 (drainOpts true) demoPTop) as [t' r] eqn:EP. simpl in E. subst r. f_equal.
  exact (refused_placement_leaves_no_trace noAddresses 8 (drainOpts true) demoPTop t' _ EP (fun H => H)).
Defined.

(** Draining the front node does not move a device that no service owns: the
    controller is stamped onto the drained node although another one is
    available, and a strict drain is refused for it. *)
Theorem drained_front_keeps_controller :
  "n1" ∈ oUnavailable (poCap (drainOpts false))
  /\ effectiveFront demoPTop (drainOpts false) = "n2"
  /\ nodeOfDevice (Place noAddresses 8 (drainOpts false) demoPTop).1 "svc/ctl" = "n1"
  /\ (Place noAddresses 8 (drainOpts true) demoPTop).2 = Err (EUndeclared "svc/ctl" "n1").
Proof.
  split; [apply (bool_decide_eq_true_1 _)|split; [|split]]; vm_compute; reflexivity.
Qed.
