(* ===== verification/Interior.v ===== *)
(** * Generated interiors of autonomous systems

    Models [internal/model/interior.go] and the compilation of interiors in
    [internal/expand/interior.go]: the declaration of an AS's internal graph
    (explicit, ring, two-tier or Clos), its validation, the routers and links
    it compiles to, and the placement groups of its devices. *)

From stdpp Require Import base gmap strings list fin_maps sorting pretty relations.
From Stdlib Require Import ZArith Lia Ascii.
From S2P Require Import Prelude Text.

Open Scope Z_scope.

(** ** Declarations *)

Definition InteriorExplicit : string := "explicit".
Definition InteriorRing : string := "ring".
Definition InteriorTwoTier : string := "two-tier".
Definition InteriorClos : string := "clos".
(** [Generators.Has(GeneratorInterior, kind)]. *)
Definition validKind (kind : string) : bool :=
  bool_decide (kind ∈ [InteriorExplicit; InteriorRing; InteriorTwoTier; InteriorClos]).

Record LinkProps := mkProps {
  Bandwidth : string; Delay : string; Queue : string; Loss : string; MTU : option Z
}.
Record InternalLink := mkInternal { ilA : string; ilB : string; ilProps : LinkProps }.
Record RouterSet := mkRouterSet { rsNames : list string; rsCount : Z; rsPrefix : string }.

(** [InteriorSpec]; a nil [Links] is [None]. *)
Record InteriorSpec := mkInterior {
  iKind : string; iLinks : option (list InternalLink); iRouters : RouterSet; iCount : Z;
  iPrefix : string; iHub : string; iCore : RouterSet; iEdge : RouterSet; iEdgeUplinks : Z;
  iSpines : Z; iLeaves : Z; iSpine : Z; iLeaf : Z; iHostsPerLeaf : Z; iDistributable : bool;
  iProps : LinkProps
}.

(** The part of [ASTemplate] that describes its interior: declared routers with
    their IDs, legacy links, and the typed declaration. *)
Record ASTemplate := mkTemplate {
  tRouters : gmap string Z; tInternalLinks : list InternalLink; tInterior : option InteriorSpec
}.

Definition EffectiveInteriorKind (t : ASTemplate) : string :=
  match tInterior t with None => InteriorExplicit | Some i => iKind i end.

Definition EffectiveInternalLinks (t : ASTemplate) : list InternalLink :=
  match tInterior t with
  | Some i => match iLinks i with
              | Some ls => if decide (iKind i = InteriorExplicit) then ls else tInternalLinks t
              | None => tInternalLinks t
              end
  | None => tInternalLinks t
  end.

(** ** Names *)

Inductive interiorErr :=
| EMissingInterior | EBothNamesCount | ETwoCounts | ETwoPrefixes | EEmptyName | EDuplicateName (n : string)
| ENoCount | EClosCounts | ENoNames (kind : string) | EInvalid | EUnknownKind (kind : string).

Fixpoint uniqueNamesFrom (seen names : list string) : option interiorErr :=
  match names with
  | [] => None
  | n :: names =>
      if decide (trimSpace n = "") then Some EEmptyName
      else if bool_decide (n ∈ seen) then Some (EDuplicateName n)
      else uniqueNamesFrom (n :: seen) names
  end.
Definition uniqueNames (names : list string) : option interiorErr := uniqueNamesFrom [] names.

(** [prefix1], [prefix2], ... *)
Definition numbered (prefix : string) (count : Z) : list string :=
  map (fun k => prefix +:+ itoa (Z.of_nat (S k))) (seq 0 (Z.to_nat count)).

Definition Resolve (r : RouterSet) (defaultPrefix : string) (countAlias : Z) (prefixAlias : string)
    : result interiorErr (list string) :=
  let named := negb (bool_decide (rsNames r = [])) in
  if named && (negb (rsCount r =? 0) || negb (countAlias =? 0)) then Err EBothNamesCount
  else if negb (rsCount r =? 0) && negb (countAlias =? 0) then Err ETwoCounts
  else if negb (bool_decide (rsPrefix r = "")) && negb (bool_decide (prefixAlias = "")) then Err ETwoPrefixes
  else if named then
    match uniqueNames (rsNames r) with Some e => Err e | None => Ok (rsNames r) end
  else
    let count := if rsCount r =? 0 then countAlias else rsCount r in
    if count <=? 0 then Err ENoCount
    else
      let prefix := if decide (rsPrefix r = "") then prefixAlias else rsPrefix r in
      let prefix := if decide (prefix = "") then defaultPrefix else prefix in
      Ok (numbered prefix count).

Definition TwoTierRouterNames (i : InteriorSpec) : result interiorErr (list string * list string) :=
  match Resolve (iCore i) "core" 0 "" with
  | Err e => Err e
  | Ok core => match Resolve (iEdge i) "edge" 0 "" with
               | Err e => Err e
               | Ok edge => Ok (core, edge)
               end
  end.

Definition ClosCounts (i : InteriorSpec) : Z * Z :=
  (if iSpines i =? 0 then iSpine i else iSpines i, if iLeaves i =? 0 then iLeaf i else iLeaves i).

Definition RouterNames (i : InteriorSpec) : result interiorErr (list string) :=
  if decide (iKind i = InteriorRing) then Resolve (iRouters i) "r" (iCount i) (iPrefix i)
  else if decide (iKind i = InteriorTwoTier) then
    match TwoTierRouterNames i with Ok (core, edge) => Ok (core ++ edge) | Err e => Err e end
  else if decide (iKind i = InteriorClos) then
    let '(spines, leaves) := ClosCounts i in
    if (spines <=? 0) || (leaves <=? 0) then Err EClosCounts
    else Ok (numbered "spine" spines ++ numbered "leaf" leaves)
  else Err (ENoNames (iKind i)).

(** [EffectiveRouterSpecs]: the routers, by name, with their IDs. *)
Definition EffectiveRouterSpecs (t : ASTemplate) : result interiorErr (gmap string Z) :=
  if decide (EffectiveInteriorKind t = InteriorExplicit) then Ok (tRouters t)
  else match tInterior t with
       | None => Err EMissingInterior
       | Some i => match RouterNames i with
                   | Err e => Err e
                   | Ok names => Ok (fold_left (fun m '(k, n) => <[n := Z.of_nat (S k)]> m)
                                       (imap pair names) ∅)
                   end
       end.

(** ** Validation *)

Inductive interiorProblem :=
| PKindRequired | PUnknownKind (kind : string) | PNoRouters | PTwoLinkLists | PGeneratedParameters
| PGeneratesRouters | PGeneratesLinks | PRouters (e : interiorErr) | PSmallRing (n : nat)
| PHubDuplicates | POtherParameters | PUplinksPositive | PUplinksExceed | PBothSpines | PBothLeaves
| PSpinesPositive | PLeavesPositive | PNegativeHosts.

Definition emptySet (r : RouterSet) : bool :=
  bool_decide (rsNames r = []) && (rsCount r =? 0) && bool_decide (rsPrefix r = "").
Definition hasLinkProps (p : LinkProps) : bool :=
  negb (bool_decide (Bandwidth p = "")) || negb (bool_decide (Delay p = ""))
  || negb (bool_decide (Queue p = "")) || negb (bool_decide (Loss p = "")) || bool_decide (is_Some (MTU p)).

(** The parameters of the three generated kinds. *)
Definition ringParameters (i : InteriorSpec) : bool :=
  negb (emptySet (iRouters i)) || negb (iCount i =? 0) || negb (bool_decide (iPrefix i = ""))
  || negb (bool_decide (iHub i = "")).
Definition twoTierParameters (i : InteriorSpec) : bool :=
  negb (emptySet (iCore i)) || negb (emptySet (iEdge i)) || negb (iEdgeUplinks i =? 0).
Definition closParameters (i : InteriorSpec) : bool :=
  negb (iSpines i =? 0) || negb (iLeaves i =? 0) || negb (iSpine i =? 0) || negb (iLeaf i =? 0)
  || negb (iHostsPerLeaf i =? 0) || iDistributable i.
Definition hasGeneratedParameters (i : InteriorSpec) : bool :=
  ringParameters i || twoTierParameters i || closParameters i || hasLinkProps (iProps i).

(** [if b { add(p) }]. *)
Definition problem (b : bool) (p : interiorProblem) : list interiorProblem := if b then [p] else [].

(** A generated kind declares neither routers nor links. *)
Definition generatesProblems (t : ASTemplate) (i : InteriorSpec) : list interiorProblem :=
  problem (negb (bool_decide (tRouters t = ∅))) PGeneratesRouters
  ++ problem (negb (bool_decide (tInternalLinks t = [])) || bool_decide (is_Some (iLinks i))) PGeneratesLinks.

Definition explicitProblems (t : ASTemplate) (i : InteriorSpec) : list interiorProblem :=
  problem (bool_decide (tRouters t = ∅)) PNoRouters
  ++ problem (bool_decide (is_Some (iLinks i)) && negb (bool_decide (tInternalLinks t = []))) PTwoLinkLists
  ++ problem (hasGeneratedParameters i) PGeneratedParameters.

Definition ringProblems (t : ASTemplate) (i : InteriorSpec) : list interiorProblem :=
  generatesProblems t i
  ++ match RouterNames i with
     | Err e => [PRouters e]
     | Ok names =>
         problem (length names <? 3)%nat (PSmallRing (length names))
         ++ problem (negb (bool_decide (iHub i = "")) && bool_decide (iHub i ∈ names)) PHubDuplicates
     end
  ++ problem (twoTierParameters i || closParameters i) POtherParameters.

Definition twoTierProblems (t : ASTemplate) (i : InteriorSpec) : list interiorProblem :=
  generatesProblems t i
  ++ match TwoTierRouterNames i with
     | Err e => [PRouters e]
     | Ok (core, edge) =>
         match uniqueNames (core ++ edge) with Some e => [PRouters e] | None => [] end
         ++ (if iEdgeUplinks i <=? 0 then [PUplinksPositive]
             else problem (Z.of_nat (length core) <? iEdgeUplinks i) PUplinksExceed)
     end
  ++ problem (ringParameters i || closParameters i) POtherParameters.

Definition closProblems (t : ASTemplate) (i : InteriorSpec) : list interiorProblem :=
  generatesProblems t i
  ++ problem (negb (iSpines i =? 0) && negb (iSpine i =? 0)) PBothSpines
  ++ problem (negb (iLeaves i =? 0) && negb (iLeaf i =? 0)) PBothLeaves
  ++ problem ((ClosCounts i).1 <=? 0) PSpinesPositive
  ++ problem ((ClosCounts i).2 <=? 0) PLeavesPositive
  ++ problem (iHostsPerLeaf i <? 0) PNegativeHosts
  ++ problem (ringParameters i || twoTierParameters i) POtherParameters.

(** [ValidateInterior]: the problems, in the order they are found. *)
Definition ValidateInterior (t : ASTemplate) : list interiorProblem :=
  match tInterior t with
  | None => []
  | Some i =>
      (if decide (iKind i = "") then [PKindRequired]
       else problem (negb (validKind (iKind i))) (PUnknownKind (iKind i)))
      ++ (if decide (iKind i = InteriorExplicit) then explicitProblems t i
          else if decide (iKind i = InteriorRing) then ringProblems t i
          else if decide (iKind i = InteriorTwoTier) then twoTierProblems t i
          else if decide (iKind i = InteriorClos) then closProblems t i
          else [])
  end.

(** ** Compilation *)

Record interiorRouter := mkRouter { irName : string; irID : Z; irRole : string; irRoleIndex : Z }.
Record interiorLink := mkILink { lkA : string; lkB : string; lkProps : LinkProps; lkClass : string }.
Record interiorHost := mkHost { ihName : string; ihLeaf : string; ihLeafIndex : Z; ihIndex : Z }.
Record interiorShape := mkShape {
  shKind : string; shRouters : list interiorRouter; shLinks : list interiorLink;
  shHosts : list interiorHost; shGenerated : bool; shSuppressAutoHosts : bool; shDistributable : bool
}.

(** Routers numbered from [first], with a role numbered from 1. *)
Definition routersFrom (first : Z) (role : string) (names : list string) : list interiorRouter :=
  imap (fun n name => mkRouter name (first + Z.of_nat n) role (Z.of_nat (S n))) names.

(** Declared routers by ID; IDs are distinct in a valid template. *)
Definition idLe (a b : string * Z) : Prop := a.2 <= b.2.
#[export] Instance idLe_dec : RelDecision idLe.
Proof. unfold idLe. intros ??. apply _. Defined.

Definition compileExplicitInterior (t : ASTemplate) : interiorShape :=
  let names := sortStrings (map fst (map_to_list (tRouters t))) in
  let byID := merge_sort idLe (map (fun n => (n, lookup_or 0 (tRouters t) n)) names) in
  mkShape InteriorExplicit (map (fun '(n, id) => mkRouter n id "" 0) byID)
    (map (fun l => mkILink (ilA l) (ilB l) (ilProps l) "") (EffectiveInternalLinks t))
    [] false false false.

Definition ringLinks (props : LinkProps) (names : list string) : list interiorLink :=
  imap (fun n name => mkILink name (nth ((S n) mod length names) names "") props "ring") names.

Definition compileRingInterior (i : InteriorSpec) : result interiorErr interiorShape :=
  match RouterNames i with
  | Err e => Err e
  | Ok names =>
      let ring := routersFrom 1 "ring" names in
      if decide (iHub i = "") then
        Ok (mkShape InteriorRing ring (ringLinks (iProps i) names) [] true false false)
      else
        Ok (mkShape InteriorRing
              (ring ++ [mkRouter (iHub i) (Z.of_nat (S (length names))) "hub" 1])
              (ringLinks (iProps i) names ++ map (fun name => mkILink (iHub i) name (iProps i) "ring-hub") names)
              [] true false false)
  end.

(** The uplinks of the [n]-th edge router: cores in rotation. *)
Definition uplinks (props : LinkProps) (k : nat) (core : list string) (n : nat) (name : string)
    : list interiorLink :=
  map (fun u => mkILink name (nth ((n + u) mod length core) core "") props "core-edge") (seq 0 k).

Definition compileTwoTierInterior (i : InteriorSpec) : result interiorErr interiorShape :=
  match TwoTierRouterNames i with
  | Err e => Err e
  | Ok (core, edge) =>
      Ok (mkShape InteriorTwoTier
            (routersFrom 1 "core" core ++ routersFrom (1 + Z.of_nat (length core)) "edge" edge)
            (concat (imap (uplinks (iProps i) (Z.to_nat (iEdgeUplinks i)) core) edge)) [] true false false)
  end.

Definition compileClosInterior (i : InteriorSpec) : interiorShape :=
  let '(spines, leaves) := ClosCounts i in
  let sp := numbered "spine" spines in
  let lf := numbered "leaf" leaves in
  mkShape InteriorClos
    (routersFrom 1 "spine" sp ++ routersFrom (1 + Z.of_nat (length sp)) "leaf" lf)
    (concat (map (fun s => map (fun l => mkILink s l (iProps i) "spine-leaf") lf) sp))
    (concat (imap (fun n l => map (fun h =>
       mkHost (l +:+ "_host" +:+ itoa (Z.of_nat (S h))) l (Z.of_nat (S n)) (Z.of_nat (S h)))
         (seq 0 (Z.to_nat (iHostsPerLeaf i)))) lf))
    true true (iDistributable i).

Definition compileInterior (t : ASTemplate) : result interiorErr interiorShape :=
  match ValidateInterior t with
  | _ :: _ => Err EInvalid
  | [] =>
      let kind := EffectiveInteriorKind t in
      if negb (validKind kind) then Err (EUnknownKind kind)
      else if decide (kind = InteriorExplicit) then Ok (compileExplicitInterior t)
      else match tInterior t with
           | None => Err EMissingInterior
           | Some i =>
               if decide (kind = InteriorRing) then compileRingInterior i
               else if decide (kind = InteriorTwoTier) then compileTwoTierInterior i
               else Ok (compileClosInterior i)
           end
  end.

(** ** Placement groups *)

Definition closSpineGroupID (asn : Z) : string := "as" +:+ itoa asn +:+ "/spines".
Definition asGroupID (asn : Z) : string := "as" +:+ itoa asn.

Record group := mkGroup { gID : string; gClass : string; gDevices : list string }.

(** The group of a device: its own, or the AS's default. *)
Definition groupOf (defaultID own : string) : string := if decide (own = "") then defaultID else own.
Definition classOf (asn : Z) (defaultID id : string) : string :=
  if decide (id = closSpineGroupID asn) then "spine" else if decide (id = defaultID) then "as" else "leaf".

(** [definePlacementGroups] on the devices of an AS with the groups they
    declare: the groups in ID order. *)
Definition definePlacementGroups (asn : Z) (distributableClos : bool) (devices : list (string * string))
    : list group :=
  let defaultID := if distributableClos then closSpineGroupID asn else asGroupID asn in
  let ids := sortStrings (dedup (map (fun d => groupOf defaultID d.2) devices)) in
  map (fun id => mkGroup id (classOf asn defaultID id)
         (map fst (List.filter (fun d => bool_decide (groupOf defaultID d.2 = id)) devices))) ids.

(** ** Names are distinct *)

Lemma itoa_inj a b : itoa a = itoa b -> a = b.
Proof. apply (inj pretty). Qed.

Lemma NoDup_numbered prefix count : NoDup (numbered prefix count).
Proof.
  unfold numbered. apply NoDup_fmap_2_strong; [|apply NoDup_seq]. intros x y _ _ E.
  apply (inj (String.app prefix)), itoa_inj in E. lia.
Qed.

Lemma length_numbered prefix count : length (numbered prefix count) = Z.to_nat count.
Proof. unfold numbered. by rewrite length_map, length_seq. Qed.

Lemma uniqueNamesFrom_ok seen names :
  uniqueNamesFrom seen names = None -> NoDup names /\ forall n, n ∈ names -> n ∉ seen.
Proof.
  revert seen. induction names as [|x names IH]; intros seen H; simpl in H.
  { split; [constructor|]. intros n Hn. by apply elem_of_nil in Hn. }
  case_decide; [done|]. case_bool_decide as Hs; [done|]. apply IH in H as [H1 H2]. split.
  - constructor; [|done]. intros Hx. apply (H2 x Hx). left.
  - intros n [->|Hn]%elem_of_cons; [done|]. specialize (H2 n Hn). set_solver.
Qed.

Lemma Resolve_ok r dp ca pa names : Resolve r dp ca pa = Ok names -> NoDup names /\ names <> [].
Proof.
  unfold Resolve. intros E. destruct (_ && _); [done|]. destruct (negb (rsCount r =? 0) && _); [done|].
  destruct (negb (bool_decide (rsPrefix r = "")) && _); [done|].
  case_bool_decide as Hn; simpl in E.
  - destruct (_ <=? 0) eqn:Ec; [done|]. injection E as <-. split; [apply NoDup_numbered|].
    apply Z.leb_gt in Ec. intros H%(f_equal length). rewrite length_numbered in H. simpl in H. lia.
  - destruct (uniqueNames (rsNames r)) eqn:Eu; [done|]. injection E as <-.
    by apply uniqueNamesFrom_ok in Eu as [? _].
Qed.

(** ** Well-formed shapes *)

Definition routerNames (s : interiorShape) : list string := map irName (shRouters s).
Definition ends (l : interiorLink) : string * string := (lkA l, lkB l).

(** Routers have distinct names and the IDs 1, 2, ...; links join two declared
    routers, and no two links join the same pair, in either direction, so that
    the interface a link is named after is unique on its router. *)
Definition wfShape (s : interiorShape) : Prop :=
  NoDup (routerNames s)
  /\ map irID (shRouters s) = map (fun k => Z.of_nat (S k)) (seq 0 (length (shRouters s)))
  /\ (forall l, l ∈ shLinks s -> lkA l ∈ routerNames s /\ lkB l ∈ routerNames s /\ lkA l <> lkB l)
  /\ NoDup (map ends (shLinks s))
  /\ (forall l l', l ∈ shLinks s -> l' ∈ shLinks s -> ends l <> (lkB l', lkA l'))
  /\ (forall h, h ∈ shHosts s -> ihLeaf h ∈ routerNames s).

Lemma routersFrom_names first role names : map irName (routersFrom first role names) = names.
Proof.
  unfold routersFrom. apply list_eq. intros i. change (map irName ?l) with (irName <$> l).
  rewrite list_lookup_fmap, list_lookup_imap. by destruct (names !! i).
Qed.

Lemma routersFrom_ids first role names :
  map irID (routersFrom first role names) = map (fun k => first + Z.of_nat k) (seq 0 (length names)).
Proof.
  unfold routersFrom. apply list_eq. intros i. change (map ?f ?l) with (f <$> l).
  rewrite !list_lookup_fmap, list_lookup_imap. destruct (decide (i < length names)%nat) as [Hi|Hi].
  - destruct (lookup_lt_is_Some_2 names i Hi) as [x ->]. by rewrite lookup_seq_lt.
  - rewrite (lookup_ge_None_2 names) by lia. rewrite (lookup_ge_None_2 (seq _ _)) by (rewrite length_seq; lia). done.
Qed.

Lemma length_routersFrom first role names : length (routersFrom first role names) = length names.
Proof. unfold routersFrom. by rewrite length_imap. Qed.

(** IDs keep counting from one list of routers to the next. *)
Lemma ids_app a b :
  map (fun k => 1 + Z.of_nat k) (seq 0 a) ++ map (fun k => 1 + Z.of_nat a + Z.of_nat k) (seq 0 b)
  = map (fun k => Z.of_nat (S k)) (seq 0 (a + b)).
Proof.
  apply list_eq. intros i. change (map ?f ?l) with (f <$> l). destruct (decide (i < a)%nat).
  - rewrite lookup_app_l by (rewrite length_fmap, length_seq; lia). rewrite !list_lookup_fmap.
    rewrite !lookup_seq_lt by lia. simpl. f_equal. lia.
  - rewrite lookup_app_r by (rewrite length_fmap, length_seq; lia). rewrite length_fmap, length_seq, !list_lookup_fmap.
    destruct (decide (i < a + b)%nat).
    + rewrite !lookup_seq_lt by lia. simpl. f_equal. lia.
    + rewrite !(lookup_ge_None_2 (seq _ _)) by (rewrite length_seq; lia). done.
Qed.

(** The elements of a concatenation are told apart by a key of their list. *)
Lemma NoDup_concat_keys {A B} (key : B -> A) (ks : list A) (ls : list (list B)) :
  Forall2 (fun k l => NoDup l /\ forall x, x ∈ l -> key x = k) ks ls -> NoDup ks -> NoDup (concat ls).
Proof.
  intros H. induction H as [|k l ks ls [Hl Hk] H IH]; intros Hn; simpl; [constructor|].
  apply NoDup_cons in Hn as [Hnk Hn]. apply NoDup_app. split; [done|]. split; [|by apply IH].
  intros x Hx Hin. apply Hnk. rewrite <- (Hk x Hx). apply list_elem_of_In, in_concat in Hin as (l' & Hl' & Hx').
  apply list_elem_of_In in Hl', Hx'. apply list_elem_of_lookup in Hl' as [j Hj].
  destruct (Forall2_lookup_r _ _ _ _ _ H Hj) as (k' & Hk' & _ & Hkey). rewrite (Hkey x Hx').
  by eapply list_elem_of_lookup_2.
Qed.

(** ** The ring *)

Lemma ring_lookup props names l :
  l ∈ ringLinks props names -> exists n, (n < length names)%nat
    /\ names !! n = Some (lkA l) /\ names !! ((S n) mod length names)%nat = Some (lkB l).
Proof.
  unfold ringLinks. intros [n Hn]%list_elem_of_lookup. apply list_lookup_imap_Some in Hn as (x & Hx & ->).
  exists n. pose proof (lookup_lt_Some _ _ _ Hx). split; [done|]. split; [done|]. simpl.
  destruct (lookup_lt_is_Some_2 names ((S n) mod length names)%nat) as [y Hy].
  { apply Nat.mod_upper_bound. lia. }
  by rewrite Hy, (nth_lookup_Some _ _ "" _ Hy).
Qed.

Lemma ring_ends props names : map ends (ringLinks props names) =
  imap (fun n name => (name, nth ((S n) mod length names) names "")) names.
Proof. unfold ringLinks. change (map ends ?l) with (ends <$> l). by rewrite fmap_imap. Qed.

Lemma ring_simple props names :
  NoDup names -> (3 <= length names)%nat ->
  NoDup (map ends (ringLinks props names))
  /\ (forall l l', l ∈ ringLinks props names -> l' ∈ ringLinks props names -> ends l <> (lkB l', lkA l'))
  /\ (forall l, l ∈ ringLinks props names -> lkA l ∈ names /\ lkB l ∈ names /\ lkA l <> lkB l).
Proof.
  intros Hn Hl. assert (forall l, l ∈ ringLinks props names -> lkA l ∈ names /\ lkB l ∈ names /\ lkA l <> lkB l) as H.
  { intros l (n & Hlt & HA & HB)%ring_lookup. split; [by eapply list_elem_of_lookup_2|].
    split; [by eapply list_elem_of_lookup_2|]. intros E. rewrite E in HA.
    pose proof (NoDup_lookup _ _ _ _ Hn HA HB) as Hm.
    destruct (decide (S n < length names)%nat); [rewrite Nat.mod_small in Hm by lia; lia|].
    assert (S n = length names) as Em by lia. rewrite Em, Nat.Div0.mod_same in Hm. lia. }
  split; [|split; [|exact H]].
  - apply (NoDup_fmap_1 fst). rewrite ring_ends, fmap_imap.
    assert (imap (fun n => fst ∘ (fun name => (name, nth ((S n) mod length names) names ""))) names = names) as ->; [|done].
    apply list_eq. intros i. rewrite list_lookup_imap. by destruct (names !! i).
  - intros l l' (n & Hlt & HA & HB)%ring_lookup (m & Hlt' & HA' & HB')%ring_lookup E.
    injection E as E1 E2. rewrite E1 in HA. rewrite E2 in HB.
    pose proof (NoDup_lookup _ _ _ _ Hn HA HB') as E3. pose proof (NoDup_lookup _ _ _ _ Hn HB HA') as E4.
    assert (forall x, (x < length names)%nat -> (S x mod length names = S x \/ S x = length names /\ S x mod length names = 0)%nat) as Hs.
    { intros x Hx. destruct (decide (S x < length names)%nat); [left; by apply Nat.mod_small|right].
      assert (S x = length names) as Em by lia. rewrite Em at 2. rewrite Nat.Div0.mod_same. done. }
    destruct (Hs n Hlt), (Hs m Hlt'); lia.
Qed.

Lemma problem_nil b p : problem b p = [] -> b = false.
Proof. by destruct b. Qed.

(** Problems of a list that is empty are absent. *)
Ltac no_problems H :=
  repeat match type of H with _ ++ _ = [] => let H' := fresh "P" in apply app_eq_nil in H as [H' H] end;
  repeat match goal with P : problem _ _ = [] |- _ => apply problem_nil in P end.

Lemma ring_wf t i s :
  iKind i = InteriorRing -> ringProblems t i = [] -> compileRingInterior i = Ok s -> wfShape s.
Proof.
  intros Hk HP E. unfold ringProblems in HP. no_problems HP. unfold compileRingInterior in E.
  assert (forall names, RouterNames i = Ok names -> NoDup names) as Hnd.
  { intros names. unfold RouterNames. rewrite decide_True by done. by intros [? _]%Resolve_ok. }
  destruct (RouterNames i) as [names|e] eqn:Er; [|done]. specialize (Hnd names eq_refl). simpl in P0.
  no_problems P0. apply Nat.ltb_ge in P1.
  destruct (ring_simple (iProps i) names Hnd P1) as (S1 & S2 & S3).
  case_decide as Hh; injection E as <-; unfold wfShape, routerNames; cbn [shRouters shLinks shHosts].
  - rewrite routersFrom_names, routersFrom_ids, length_routersFrom. split_and!; try done.
    + apply map_ext. lia.
    + intros h Hin. by apply elem_of_nil in Hin.
  - rewrite bool_decide_eq_false_2 in P0 by done. simpl in P0. apply bool_decide_eq_false in P0.
    rewrite !map_app, routersFrom_names, routersFrom_ids, length_app, length_routersFrom. cbn [map irName irID length].
    assert (forall l, l ∈ map (fun name => mkILink (iHub i) name (iProps i) "ring-hub") names ->
      lkA l = iHub i /\ lkB l ∈ names) as Hhub.
    { intros l (x & -> & Hx)%list_elem_of_fmap. done. }
    split_and!.
    + apply NoDup_app. split; [done|]. split; [|apply NoDup_singleton]. by intros x Hx ->%list_elem_of_singleton.
    + rewrite <- ids_app. f_equal. simpl. f_equal. lia.
    + intros l [Hl|Hl]%elem_of_app; [destruct (S3 l Hl) as (? & ? & ?); set_solver|].
      destruct (Hhub l Hl) as [-> HB]. split; [set_solver|]. split; [set_solver|]. congruence.
    + apply NoDup_app. split; [done|]. split.
      * intros e (l & -> & Hl)%list_elem_of_fmap (l' & E' & Hl')%list_elem_of_fmap.
        destruct (S3 l Hl) as (HA & _), (Hhub l' Hl') as [HA' _]. injection E' as E1 _. rewrite E1, HA' in HA. done.
      * rewrite map_map. apply (NoDup_fmap_1 snd). change (map ?f ?l) with (f <$> l).
        rewrite <- list_fmap_compose. by rewrite list_fmap_id.
    + intros l l' Hl Hl' E'. injection E' as E1 E2. apply elem_of_app in Hl as [Hl|Hl], Hl' as [Hl'|Hl'].
      * apply (S2 l l' Hl Hl'). unfold ends. congruence.
      * destruct (S3 l Hl) as (_ & HB & _), (Hhub l' Hl') as [HA' _]. rewrite E2, HA' in HB. done.
      * destruct (S3 l' Hl') as (_ & HB & _), (Hhub l Hl) as [HA' _]. rewrite <- E1, HA' in HB. done.
      * destruct (Hhub l Hl) as [HA HB], (Hhub l' Hl') as [HA' HB']. rewrite E2, HA' in HB. done.
    + intros h Hin. by apply elem_of_nil in Hin.
Qed.

(** ** Two tiers *)

Lemma uplinks_spec props k core n name l :
  core <> [] -> l ∈ uplinks props k core n name ->
  lkA l = name /\ exists u, (u < k)%nat /\ core !! ((n + u) mod length core)%nat = Some (lkB l).
Proof.
  intros Hc (u & -> & Hu)%list_elem_of_fmap. apply elem_of_seq in Hu. simpl. split; [done|]. exists u.
  split; [lia|]. assert (length core <> 0)%nat by (by destruct core).
  destruct (lookup_lt_is_Some_2 core ((n + u) mod length core)%nat) as [y Hy]; [by apply Nat.mod_upper_bound|].
  by rewrite Hy, (nth_lookup_Some _ _ "" _ Hy).
Qed.

(** The cores of one edge router are distinct. *)
Lemma uplinks_NoDup props k core n name :
  NoDup core -> (k <= length core)%nat -> NoDup (map lkB (uplinks props k core n name)).
Proof.
  intros Hc Hk. unfold uplinks. rewrite map_map. simpl. apply NoDup_fmap_2_strong; [|apply NoDup_seq].
  intros u v Hu%elem_of_seq Hv%elem_of_seq E. set (L := length core) in *.
  assert (forall w, core !! ((n + w) mod L)%nat = Some (nth ((n + w) mod L) core "")) as Hlk.
  { intros w. destruct (lookup_lt_is_Some_2 core ((n + w) mod L)%nat) as [y Hy].
    - fold L. apply Nat.mod_upper_bound. lia.
    - by rewrite Hy, (nth_lookup_Some _ _ "" _ Hy). }
  pose proof (Hlk u) as H1. rewrite E in H1. pose proof (NoDup_lookup _ _ _ _ Hc H1 (Hlk v)) as H.
  pose proof (Nat.div_mod_eq (n + u) L) as Du. pose proof (Nat.div_mod_eq (n + v) L) as Dv.
  rewrite H in Du. destruct (Nat.lt_trichotomy ((n + u) / L) ((n + v) / L)) as [Hq|[Hq|Hq]]; [|rewrite Hq in Du; lia|];
    apply (Nat.mul_le_mono_l _ _ L) in Hq; lia.
Qed.

Lemma twoTier_links props k core edge l :
  core <> [] -> l ∈ concat (imap (uplinks props k core) edge) -> lkA l ∈ edge /\ lkB l ∈ core.
Proof.
  intros Hc Hl. apply list_elem_of_In, in_concat in Hl as (ls & Hls & Hl). apply list_elem_of_In in Hls, Hl.
  apply list_elem_of_lookup in Hls as [n Hn]. apply list_lookup_imap_Some in Hn as (name & Hname & ->).
  apply uplinks_spec in Hl as (-> & u & _ & HB); [|done].
  split; by eapply list_elem_of_lookup_2.
Qed.

Lemma map_concat {A B} (f : A -> B) (ls : list (list A)) : map f (concat ls) = concat (map (map f) ls).
Proof. induction ls as [|l ls IH]; simpl; [done|]. by rewrite map_app, IH. Qed.

Lemma Forall2_imap {A B} (P : A -> B -> Prop) (f : nat -> A -> B) l :
  (forall n x, l !! n = Some x -> P x (f n x)) -> Forall2 P l (imap f l).
Proof.
  intros H. apply Forall2_same_length_lookup. split; [by rewrite length_imap|]. intros i x y Hx Hy.
  apply list_lookup_imap_Some in Hy as (x' & Hx' & ->). rewrite Hx in Hx'. injection Hx' as <-. by apply H.
Qed.

Lemma twoTier_wf t i s :
  twoTierProblems t i = [] -> compileTwoTierInterior i = Ok s -> wfShape s.
Proof.
  intros HP E. unfold twoTierProblems in HP. no_problems HP. unfold compileTwoTierInterior in E.
  destruct (TwoTierRouterNames i) as [[core edge]|] eqn:Er; [|done].
  assert (NoDup core /\ core <> []) as [Hc Hne].
  { unfold TwoTierRouterNames in Er. destruct (Resolve (iCore i) _ _ _) as [c|] eqn:E1; [|done].
    destruct (Resolve (iEdge i) _ _ _); [|done]. injection Er as <- _. by eapply Resolve_ok. }
  simpl in P0. apply app_eq_nil in P0 as [Pu P0]. destruct (uniqueNames _) eqn:Eu; [done|].
  apply uniqueNamesFrom_ok in Eu as [Hnd _]. pose proof Hnd as Hnd'. apply NoDup_app in Hnd' as (_ & Hdis & He).
  destruct (iEdgeUplinks i <=? 0) eqn:Ez; [done|]. apply problem_nil, Z.ltb_ge in P0. apply Z.leb_gt in Ez.
  injection E as <-. unfold wfShape, routerNames. cbn [shRouters shLinks shHosts].
  rewrite !map_app, !routersFrom_names, !routersFrom_ids, length_app, !length_routersFrom.
  set (k := Z.to_nat (iEdgeUplinks i)). pose proof (fun l => twoTier_links (iProps i) k core edge l Hne) as HL.
  split_and!; [done|by rewrite ids_app| | | |].
  - intros l Hl. destruct (HL l Hl) as [HA HB]. split; [set_solver|]. split; [set_solver|]. intros E.
    rewrite E in HA. by apply (Hdis (lkB l)).
  - rewrite map_concat. apply (NoDup_concat_keys fst edge); [|done].
    change (map ?f (imap ?h ?l)) with (f <$> imap h l). rewrite fmap_imap. apply Forall2_imap. intros n x Hx. split.
    + apply (NoDup_fmap_1 snd). change (map ends ?l) with (ends <$> l).
      unfold compose. change (map ends ?l) with (ends <$> l). rewrite <- list_fmap_compose. apply uplinks_NoDup; [done|]. lia.
    + intros [a b] (l & Eab & Hl)%list_elem_of_fmap. apply uplinks_spec in Hl as [HA _]; [|done].
      injection Eab as -> _. simpl. done.
  - intros l l' Hl Hl' E. injection E as E1 E2. destruct (HL l Hl) as [HA _], (HL l' Hl') as [_ HB].
    rewrite E1 in HA. by apply (Hdis (lkB l')).
  - intros h Hh. by apply elem_of_nil in Hh.
Qed.

(** ** The Clos fabric *)

Lemma numbered_prefix p x count : x ∈ numbered p count -> exists r, x = p +:+ r.
Proof. intros (k & -> & _)%list_elem_of_fmap. by eexists. Qed.

Lemma spine_not_leaf x a b : x ∈ numbered "spine" a -> x ∉ numbered "leaf" b.
Proof. intros [r ->]%numbered_prefix [r' E]%numbered_prefix. discriminate E. Qed.

Lemma clos_links sp lf props l :
  l ∈ concat (map (fun s => map (fun l => mkILink s l props "spine-leaf") lf) sp) <->
  exists s f, s ∈ sp /\ f ∈ lf /\ l = mkILink s f props "spine-leaf".
Proof.
  rewrite list_elem_of_In, in_concat. split.
  - intros (ls & Hls & Hl). apply list_elem_of_In in Hls, Hl. apply list_elem_of_fmap in Hls as (s & -> & Hs).
    apply list_elem_of_fmap in Hl as (f & -> & Hf). by exists s, f.
  - intros (s & f & Hs & Hf & ->). exists (map (fun l => mkILink s l props "spine-leaf") lf).
    split; apply in_map_iff; [exists s|exists f]; by rewrite <- list_elem_of_In.
Qed.

Lemma clos_wf i : wfShape (compileClosInterior i).
Proof.
  unfold compileClosInterior. destruct (ClosCounts i) as [spines leaves].
  set (sp := numbered "spine" spines). set (lf := numbered "leaf" leaves).
  unfold wfShape, routerNames. cbn [shRouters shLinks shHosts].
  rewrite !map_app, !routersFrom_names, !routersFrom_ids, length_app, !length_routersFrom.
  split_and!; [|by rewrite ids_app| | | |].
  - apply NoDup_app. split; [apply NoDup_numbered|]. split; [|apply NoDup_numbered].
    intros x Hx. by eapply spine_not_leaf.
  - intros l (s & f & Hs & Hf & ->)%clos_links. simpl. split; [set_solver|]. split; [set_solver|].
    intros ->. by eapply spine_not_leaf in Hs.
  - rewrite map_concat, map_map. apply (NoDup_concat_keys fst sp); [|apply NoDup_numbered].
    apply Forall2_fmap_r. apply Forall_Forall2_diag, Forall_forall. intros s Hs. unfold compose. rewrite map_map. unfold ends. simpl. split.
    + apply (NoDup_fmap_1 snd). change (map ?f ?l) with (f <$> l). rewrite <- list_fmap_compose.
      rewrite list_fmap_id. apply NoDup_numbered.
    + intros [a b] (f & E & Hf)%list_elem_of_fmap. by injection E as -> _.
  - intros l l' (s & f & Hs & Hf & ->)%clos_links (s' & f' & Hs' & Hf' & ->)%clos_links E. injection E as E _.
    simpl in E. subst. by eapply spine_not_leaf in Hs.
  - intros h Hh. apply list_elem_of_In, in_concat in Hh as (ls & Hls & Hh). apply list_elem_of_In in Hls, Hh.
    apply list_elem_of_lookup in Hls as [n Hn]. apply list_lookup_imap_Some in Hn as (f & Hf & ->).
    apply list_elem_of_fmap in Hh as (k & -> & _). simpl. apply elem_of_app. right. by eapply list_elem_of_lookup_2.
Qed.

(** ** Valid declarations compile to well-formed shapes *)

Lemma generated_kind t :
  ValidateInterior t = [] -> EffectiveInteriorKind t <> InteriorExplicit ->
  exists i, tInterior t = Some i /\ validKind (iKind i) = true /\ EffectiveInteriorKind t = iKind i
  /\ (iKind i = InteriorRing /\ ringProblems t i = [] /\ compileInterior t = compileRingInterior i
      \/ iKind i = InteriorTwoTier /\ twoTierProblems t i = [] /\ compileInterior t = compileTwoTierInterior i
      \/ iKind i = InteriorClos /\ closProblems t i = [] /\ compileInterior t = Ok (compileClosInterior i)).
Proof.
  unfold compileInterior. intros HV Hk. rewrite HV. unfold ValidateInterior, EffectiveInteriorKind in *.
  destruct (tInterior t) as [i|]; [|done]. exists i. apply app_eq_nil in HV as [H1 H2].
  assert (validKind (iKind i) = true) as Hv.
  { destruct (decide (iKind i = "")) as [E|]; [done|]. by apply problem_nil, negb_false_iff in H1. }
  rewrite Hv. do 3 (split; [done|]). unfold validKind in Hv. apply bool_decide_eq_true in Hv.
  clear H1. destruct (decide (iKind i = InteriorExplicit)) as [|_]; [done|].
  destruct (decide (iKind i = InteriorRing)) as [Hr|]; [by left|].
  destruct (decide (iKind i = InteriorTwoTier)) as [Ht|]; [by right; left|].
  destruct (decide (iKind i = InteriorClos)) as [Hc|]; [by right; right|]. exfalso. set_solver.
Qed.

(** C38. A valid generated interior compiles, to a simple graph over its own
    routers: distinct names, IDs 1, 2, ... in order, every link between two
    different routers of the shape, no pair of routers linked twice in either
    direction, and hosts on routers that exist. *)
Theorem valid_interior_is_well_formed (t : ASTemplate) :
  ValidateInterior t = [] -> EffectiveInteriorKind t <> InteriorExplicit ->
  exists s, compileInterior t = Ok s /\ shGenerated s = true /\ wfShape s.
Proof.
  intros HV Hk. destruct (generated_kind t HV Hk) as (i & _ & _ & _ & [(Hi & HP & ->)|[(Hi & HP & ->)|(Hi & _ & ->)]]).
  - assert (exists s, compileRingInterior i = Ok s /\ shGenerated s = true) as (s & E & Hg).
    { unfold compileRingInterior, ringProblems in *. apply app_eq_nil in HP as [_ HP].
      destruct (RouterNames i); [|done]. destruct (decide _); eauto. }
    exists s. split; [done|]. split; [done|]. by eapply ring_wf.
  - assert (exists s, compileTwoTierInterior i = Ok s /\ shGenerated s = true) as (s & E & Hg).
    { unfold compileTwoTierInterior, twoTierProblems in *. apply app_eq_nil in HP as [_ HP].
      destruct (TwoTierRouterNames i) as [[core edge]|]; [eauto|done]. }
    exists s. split; [done|]. split; [done|]. by eapply twoTier_wf.
  - exists (compileClosInterior i). split; [done|]. split; [|apply clos_wf].
    unfold compileClosInterior. by destruct (ClosCounts i).
Qed.

(** ** Rings and fabrics are connected *)

Definition adjacent (s : interiorShape) (x y : string) : Prop :=
  exists l, l ∈ shLinks s /\ (ends l = (x, y) \/ ends l = (y, x)).

Lemma adjacent_sym s x y : adjacent s x y -> adjacent s y x.
Proof. intros (l & Hl & H). exists l. tauto. Qed.

Lemma reach_sym s x y : rtc (adjacent s) x y -> rtc (adjacent s) y x.
Proof.
  induction 1 as [|x y z Hxy _ IH]; [done|]. etransitivity; [exact IH|].
  apply rtc_once. by apply adjacent_sym.
Qed.

(** Everyone reaches one router, so everyone reaches everyone. *)
Lemma connected_via s c :
  (forall x, x ∈ routerNames s -> rtc (adjacent s) x c) ->
  forall x y, x ∈ routerNames s -> y ∈ routerNames s -> rtc (adjacent s) x y.
Proof. intros H x y Hx Hy. etransitivity; [by apply H|]. by apply reach_sym, H. Qed.

Lemma ring_connected i names s c :
  RouterNames i = Ok names -> (3 <= length names)%nat -> compileRingInterior i = Ok s -> names !! 0%nat = Some c ->
  forall x, x ∈ routerNames s -> rtc (adjacent s) x c.
Proof.
  intros Er Hl E Hc. unfold compileRingInterior in E. rewrite Er in E.
  assert (ringLinks (iProps i) names ⊆ shLinks s) as Hsub.
  { case_decide; injection E as <-; simpl; [done|]. intros l Hin. apply elem_of_app. by left. }
  assert (forall n x, names !! n = Some x -> rtc (adjacent s) x c) as Hring.
  { induction n as [|n IH]; intros x Hx; [rewrite Hc in Hx; injection Hx as ->; done|].
    destruct (lookup_lt_is_Some_2 names n) as [y Hy]; [apply lookup_lt_Some in Hx; lia|].
    etransitivity; [|by apply (IH y)]. apply rtc_once, adjacent_sym.
    exists (mkILink y x (iProps i) "ring"). split; [|by left]. apply Hsub, list_elem_of_lookup. exists n.
    unfold ringLinks. apply list_lookup_imap_Some. exists y. split; [done|].
    rewrite Nat.mod_small by (by apply lookup_lt_Some in Hx). by rewrite (nth_lookup_Some _ _ "" _ Hx). }
  intros x Hx. case_decide as Hh; injection E as <-; unfold routerNames in Hx; cbn [shRouters] in Hx.
  - rewrite routersFrom_names in Hx. apply list_elem_of_lookup in Hx as [n Hn]. by eapply Hring.
  - rewrite map_app, routersFrom_names in Hx. apply elem_of_app in Hx as [[n Hn]%list_elem_of_lookup|Hx].
    { by eapply Hring. }
    apply list_elem_of_singleton in Hx as ->. apply rtc_once. simpl.
    exists (mkILink (iHub i) c (iProps i) "ring-hub"). split; [|by left]. simpl. apply elem_of_app. right.
    apply list_elem_of_fmap. exists c. split; [done|]. by eapply list_elem_of_lookup_2.
Qed.

Lemma numbered_first p count : 0 < count -> (p +:+ itoa 1) ∈ numbered p count.
Proof. intros H. apply list_elem_of_fmap. exists 0%nat. split; [done|]. apply elem_of_seq. lia. Qed.

Lemma clos_connected i :
  0 < (ClosCounts i).1 -> 0 < (ClosCounts i).2 ->
  forall x, x ∈ routerNames (compileClosInterior i) -> rtc (adjacent (compileClosInterior i)) x ("leaf" +:+ itoa 1).
Proof.
  intros Hs Hl. unfold routerNames, compileClosInterior. destruct (ClosCounts i) as [a b]. simpl in Hs, Hl.
  set (sp := numbered "spine" a). set (lf := numbered "leaf" b). cbn [shRouters].
  rewrite map_app, !routersFrom_names. match goal with |- forall x, _ -> rtc (adjacent ?s) _ _ => set (sh := s) end.
  assert (forall s f, s ∈ sp -> f ∈ lf -> adjacent sh s f) as Hadj.
  { intros s f ? ?. exists (mkILink s f (iProps i) "spine-leaf"). split; [|by left].
    unfold sh. cbn [shLinks]. apply clos_links. by exists s, f. }
  pose proof (numbered_first "spine" a Hs) as H1. pose proof (numbered_first "leaf" b Hl) as H2.
  intros x [Hx|Hx]%elem_of_app; [by apply rtc_once, Hadj|].
  eapply rtc_l; [apply adjacent_sym, Hadj; [exact H1|done]|]. by apply rtc_once, Hadj.
Qed.

(** Valid rings (with or without a hub) and valid Clos fabrics are
    connected: every router reaches every other over the generated links. *)
Theorem ring_and_clos_are_connected (t : ASTemplate) (s : interiorShape) (x y : string) :
  ValidateInterior t = [] -> compileInterior t = Ok s ->
  EffectiveInteriorKind t = InteriorRing \/ EffectiveInteriorKind t = InteriorClos ->
  x ∈ routerNames s -> y ∈ routerNames s -> rtc (adjacent s) x y.
Proof.
  intros HV E Hk. assert (EffectiveInteriorKind t <> InteriorExplicit) as Hk' by (by destruct Hk as [->| ->]).
  destruct (generated_kind t HV Hk') as (i & _ & _ & Ei & [(Hi & HP & Ec)|[(Hi & HP & _)|(Hi & HP & Ec)]]).
  - rewrite Ec in E. unfold ringProblems in HP. no_problems HP.
    destruct (RouterNames i) as [names|] eqn:Er; [|done]. simpl in P0. no_problems P0. apply Nat.ltb_ge in P1.
    destruct (lookup_lt_is_Some_2 names 0) as [c Hc]; [lia|].
    apply (connected_via s c). by eapply ring_connected.
  - rewrite Ei, Hi in Hk. by destruct Hk.
  - rewrite Ec in E. injection E as <-. unfold closProblems in HP. no_problems HP. apply Z.leb_gt in P2, P3.
    eapply connected_via. by apply clos_connected.
Qed.

(** ** A ring around a hub *)

Definition noProps : LinkProps := mkProps "" "" "" "" None.
Definition noSet : RouterSet := mkRouterSet [] 0 "".
Definition hubSpec : InteriorSpec :=
  mkInterior InteriorRing None noSet 3 "" "hub" noSet noSet 0 0 0 0 0 0 false noProps.
Definition hubTemplate : ASTemplate := mkTemplate ∅ [] (Some hubSpec).

Lemma valid_interior_is_well_formed_witness :
  exists s, compileInterior hubTemplate = Ok s /\ shGenerated s = true /\ wfShape s.
Proof. apply valid_interior_is_well_formed; [by vm_compute|by vm_compute]. Defined.

Definition hubShape : interiorShape :=
  match compileInterior hubTemplate with Ok s => s | Err _ => mkShape "" [] [] [] false false false end.

Lemma ring_and_clos_are_connected_witness : rtc (adjacent hubShape) "r2" "hub".
Proof.
  apply (ring_and_clos_are_connected hubTemplate hubShape); try (by vm_compute); [by left| |];
    apply (bool_decide_eq_true_1 _); vm_compute; reflexivity.
Defined.

(** The routers of a declaration are those of its shape, except for the hub of a ring. *)
Theorem hub_is_not_an_effective_router :
  "hub" ∈ routerNames hubShape
  /\ exists m, EffectiveRouterSpecs hubTemplate = Ok m /\ m !! "hub" = None /\ is_Some (m !! "r1").
Proof.
  split; [apply (bool_decide_eq_true_1 _); vm_compute; reflexivity|].
  eexists. split; [reflexivity|]. split; [by vm_compute|]. apply (bool_decide_eq_true_1 _). by vm_compute.
Qed.

(** ** Placement groups partition the devices *)

(** Filtering by each key in turn permutes a list. *)
Lemma filter_by_key {A} (key : A -> string) (ks : list string) (l : list A) :
  NoDup ks -> (forall x, x ∈ l -> key x ∈ ks) ->
  concat (map (fun k => List.filter (fun x => bool_decide (key x = k)) l) ks) ≡ₚ l.
Proof.
  intros Hks. induction l as [|x l IH]; intros Hl.
  { clear. induction ks as [|k ks IH]; [done|exact IH]. }
  etransitivity; [|apply Permutation_skip, IH; set_solver]. clear IH. assert (key x ∈ ks) as Hx by (apply Hl; left).
  apply list_elem_of_split in Hx as (k1 & k2 & ->). apply NoDup_app in Hks as (_ & Hd & H2).
  apply NoDup_cons in H2 as [Hn _]. rewrite !map_app, !concat_app. cbn [map concat List.filter].
  rewrite bool_decide_eq_true_2 by done.
  assert (forall ks, key x ∉ ks -> map (fun k => if bool_decide (key x = k) then x :: List.filter (fun y => bool_decide (key y = k)) l
    else List.filter (fun y => bool_decide (key y = k)) l) ks = map (fun k => List.filter (fun y => bool_decide (key y = k)) l) ks) as Hsame.
  { intros ks Hk. apply map_ext_in. intros k Hin. rewrite bool_decide_eq_false_2; [done|]. intros <-.
    apply Hk. by apply list_elem_of_In. }
  rewrite !Hsame; [|done|intros Hk; apply (Hd _ Hk); left].
  cbn [app]. by rewrite <- Permutation_middle.
Qed.

(** The placement groups of an AS partition its devices: group IDs are
    distinct and in order, and every device is in exactly one group. *)
Theorem placement_groups_partition (asn : Z) (distributableClos : bool) (devices : list (string * string)) :
  NoDup (map gID (definePlacementGroups asn distributableClos devices))
  /\ concat (map gDevices (definePlacementGroups asn distributableClos devices)) ≡ₚ map fst devices
  /\ (forall g, g ∈ definePlacementGroups asn distributableClos devices -> gDevices g <> []).
Proof.
  unfold definePlacementGroups. set (dflt := if distributableClos then _ else _).
  set (ids := sortStrings _). assert (ids ≡ₚ dedup (map (fun d => groupOf dflt d.2) devices)) as Hids
    by apply merge_sort_Permutation.
  assert (NoDup ids) as Hnd by (rewrite Hids; apply NoDup_dedup). split_and!.
  - rewrite map_map. cbn [gID]. by rewrite map_id.
  - rewrite map_map. cbn [gDevices]. rewrite <- (map_map _ (map fst)), <- map_concat.
    apply Permutation_map, (filter_by_key (fun d => groupOf dflt d.2)); [done|]. intros d Hd. rewrite Hids.
    apply elem_of_dedup, list_elem_of_fmap. by exists d.
  - intros g (id & -> & Hid)%list_elem_of_fmap. cbn [gDevices]. rewrite Hids, elem_of_dedup in Hid.
    apply list_elem_of_fmap in Hid as (d & -> & Hd). intros E%map_eq_nil.
    assert (d ∈ List.filter (fun x => bool_decide (groupOf dflt x.2 = groupOf dflt d.2)) devices) as H.
    { apply list_elem_of_In, filter_In. split; [by apply list_elem_of_In|]. by apply bool_decide_eq_true_2. }
    rewrite E in H. by apply elem_of_nil in H.
Qed.
