(* ===== verification/Engine.v ===== *)
(** * The deployment engine: its data and its record of what it deployed

    Models the data of [internal/deploy]: the part of a topology the engine
    reads, containers as a runtime reports them, identities of network
    namespaces ([runtime/netns_identity.go]) and the observation tracker of
    [deploy/observe.go], the record of the hashes and namespaces a node was
    last deployed with. *)

From stdpp Require Import base gmap strings list fin_maps sorting.
From Stdlib Require Import ZArith Lia.
From S2P Require Import Prelude Text Model.

Local Open Scope string_scope.
Local Open Scope Z_scope.

(** ** The topology the engine reads *)

(** One end of a [model.Link]: its interface's name and of its device what the
    engine reads through the pointer. *)
Record End := mkEnd {
  enIface : string; enDevice : string; enASN : Z; enNode : string; enContainer : string
}.

(** [model.Link]; the links of a rehydrated topology have both ends. *)
Record ELink := mkELink {
  lkID : string; lkVNI : Z; lkA : End; lkB : End; lkInterAS : bool
}.

(** [model.Iface] of a device; a nil [Link] is [None]. *)
Record EIface := mkEIface {
  eiName : string; eiPlatform : bool; eiAddr4 : string; eiAddr6 : string; eiLink : option ELink
}.

Record EDevice := mkEDevice {
  edID : string; edKind : string; edASN : Z; edNode : string; edContainer : string;
  edImage : string; edNOS : string; edIfaces : list EIface
}.

(** [model.Topology]: devices in the order of [SortedDevices], and the role of
    each AS. *)
Record ETop := mkETop {
  etName : string; etHash : string; etDevices : list EDevice; etLinks : list ELink;
  etRoles : gmap Z string
}.

Definition KindRouter : string := "router".
Definition KindHost : string := "host".
Definition KindSwitch : string := "switch".
Definition KindService : string := "service".
Definition RoleStudent : string := "student".

Definition devicesOn (top : ETop) (node : string) : list EDevice :=
  List.filter (fun d => bool_decide (edNode d = node)) (etDevices top).
Definition deviceByID (top : ETop) (id : string) : option EDevice :=
  List.find (fun d => bool_decide (edID d = id)) (etDevices top).

(** [CrossNode]: the ends are on different nodes. *)
Definition crossing (l : ELink) : bool :=
  negb (bool_decide (enNode (lkA l) = enNode (lkB l))).
(** A link with an end on [node]. *)
Definition touching (l : ELink) (node : string) : bool :=
  bool_decide (enNode (lkA l) = node) || bool_decide (enNode (lkB l) = node).

(** [Other]: the end opposite to a device's interface. *)
Definition isEnd (d : EDevice) (i : EIface) (e : End) : bool :=
  bool_decide (enDevice e = edID d) && bool_decide (enIface e = eiName i).
Definition otherEnd (l : ELink) (d : EDevice) (i : EIface) : End :=
  if isEnd d i (lkA l) then lkB l else lkA l.

Definition studentOwned (top : ETop) (d : EDevice) : bool :=
  match etRoles top !! edASN d with
  | Some role => bool_decide (role = RoleStudent)
  | None => false
  end.

(** [FRRControlContainer] and [UsesFRRControl]; an empty NOS is the default. *)
Definition FRRControlContainer (d : EDevice) : string := edContainer d +:+ "-frr".
Definition UsesFRRControl (d : EDevice) : bool :=
  bool_decide (edKind d = KindRouter)
  && (bool_decide (edNOS d = "") || bool_decide (edNOS d = "frr")).

(** ** Containers *)

Definition LabelSpec : string := "twinet.spec-hash".
Definition LabelRuntimeContract : string := "twinet.runtime-spec-contract".
Definition LabelHash : string := "twinet.topology-hash".
Definition LabelNode : string := "twinet.node".
Definition LabelKind : string := "twinet.kind".
Definition LabelDevice : string := "twinet.device".
Definition LabelDeviceID : string := "twinet.device-id".
Definition LabelFRRControl : string := "twinet.frr-control".
Definition runtimeSpecContractVersion : string := "runtime-spec-v1".
Definition StateAbsent : string := "absent".

(** [runtime.Container]; the zero value is what a missing map key reads as. *)
Record Container := mkContainer {
  ctName : string; ctState : string; ctLabels : gmap string string
}.
Definition noContainer : Container := mkContainer "" "" ∅.
Definition label (c : Container) (l : string) : string := lookup_or "" (ctLabels c) l.
#[export] Instance Container_eq_dec : EqDecision Container.
Proof. solve_decision. Defined.

(** ** Network namespaces *)

(** [runtime.NetnsIdentity]; an inode of 0 is an unknown identity. *)
Record NetnsIdentity := mkNetns { nsDev : Z; nsInode : Z }.
Definition unknownNetns : NetnsIdentity := mkNetns 0 0.
Definition Known (n : NetnsIdentity) : bool := negb (nsInode n =? 0).
Definition SameAs (n other : NetnsIdentity) : bool :=
  Known n && Known other && (nsDev n =? nsDev other) && (nsInode n =? nsInode other).
#[export] Instance NetnsIdentity_eq_dec : EqDecision NetnsIdentity.
Proof. solve_decision. Defined.

Lemma SameAs_true a b : SameAs a b = true -> a = b /\ Known a = true.
Proof.
  unfold SameAs. destruct a as [da ia], b as [db ib]; simpl. intros H.
  apply andb_prop in H as [H Hi]. apply andb_prop in H as [H Hd].
  apply andb_prop in H as [Ha _]. apply Z.eqb_eq in Hd, Hi. by subst.
Qed.

Lemma SameAs_refl a : Known a = true -> SameAs a a = true.
Proof. intros H. unfold SameAs. by rewrite H, !Z.eqb_refl. Qed.

(** ** The observation tracker *)

Record observedDeviceState := mkObserved {
  obSpec : string; obConfig : string; obFile : string; obCommand : string; obReady : string
}.

Definition observationVersion : Z := 3.

(** [nodeObservedState]; a link's state is its hash. *)
Record nodeObservedState := mkNodeObserved {
  noVersion : Z; noLab : string; noNode : string; noMode : string;
  noDevices : gmap string observedDeviceState;
  noLinks : gmap string string;
  noNamespaces : gmap string NetnsIdentity
}.

Record observationTracker := mkTracker { tkState : nodeObservedState; tkChanged : bool }.

(** What reading the record's file gives: nothing there, an error, bytes that
    do not decode, or a record. *)
Inductive ObservationFile :=
| FileMissing
| FileUnreadable (e : string)
| FileCorrupt
| FileHolds (n : nodeObservedState).

Definition newObservationTracker (lab node : string) : observationTracker :=
  mkTracker (mkNodeObserved observationVersion lab node "" ∅ ∅ ∅) false.

Definition loadObservation (file : ObservationFile) (lab node : string)
    : result string observationTracker :=
  match file with
  | FileMissing | FileCorrupt => Ok (newObservationTracker lab node)
  | FileUnreadable e => Err ("read observed deployment state: " +:+ e)
  | FileHolds n =>
      if (noVersion n =? observationVersion) && bool_decide (noLab n = lab)
         && bool_decide (noNode n = node)
      then Ok (mkTracker n false) else Ok (newObservationTracker lab node)
  end.

(** [saveLocked]: writes nothing when nothing changed; a write that fails
    leaves the file and the flag. *)
Definition saveLocked (write : option string) (file : ObservationFile) (t : observationTracker)
    : ObservationFile * observationTracker * option string :=
  if negb (tkChanged t) then (file, t, None)
  else match write with
       | Some e => (file, t, Some e)
       | None => (FileHolds (tkState t), mkTracker (tkState t) false, None)
       end.
(** [rewrite] forces the write. *)
Definition rewriteRecord (write : option string) (file : ObservationFile) (t : observationTracker)
    : ObservationFile * observationTracker * option string :=
  saveLocked write file (mkTracker (tkState t) true).

Definition set_noDevices (f : gmap string observedDeviceState -> gmap string observedDeviceState)
    (n : nodeObservedState) : nodeObservedState :=
  mkNodeObserved (noVersion n) (noLab n) (noNode n) (noMode n) (f (noDevices n)) (noLinks n)
    (noNamespaces n).
Definition set_noLinks (f : gmap string string -> gmap string string)
    (n : nodeObservedState) : nodeObservedState :=
  mkNodeObserved (noVersion n) (noLab n) (noNode n) (noMode n) (noDevices n) (f (noLinks n))
    (noNamespaces n).
Definition set_noNamespaces (f : gmap string NetnsIdentity -> gmap string NetnsIdentity)
    (n : nodeObservedState) : nodeObservedState :=
  mkNodeObserved (noVersion n) (noLab n) (noNode n) (noMode n) (noDevices n) (noLinks n)
    (f (noNamespaces n)).
Definition set_noMode (mode : string) (n : nodeObservedState) : nodeObservedState :=
  mkNodeObserved (noVersion n) (noLab n) (noNode n) mode (noDevices n) (noLinks n)
    (noNamespaces n).

Definition tracked (f : nodeObservedState -> nodeObservedState) (t : observationTracker)
    : observationTracker := mkTracker (f (tkState t)) true.

Definition trackedDevice (t : observationTracker) (id : string) : option observedDeviceState :=
  noDevices (tkState t) !! id.
Definition trackedLink (t : observationTracker) (id : string) : option string :=
  noLinks (tkState t) !! id.
Definition trackedNamespace (t : observationTracker) (id : string) : option NetnsIdentity :=
  noNamespaces (tkState t) !! id.

(** The marks; each of the first four is followed by [saveLocked]. *)
Definition markDevice (id : string) (v : observedDeviceState) (t : observationTracker)
    : observationTracker := tracked (set_noDevices <[id := v]>) t.
Definition markLink (id hash : string) (t : observationTracker) : observationTracker :=
  tracked (set_noLinks <[id := hash]>) t.
Definition markNamespace (id : string) (v : NetnsIdentity) (t : observationTracker)
    : observationTracker :=
  if decide (lookup_or unknownNetns (noNamespaces (tkState t)) id = v) then t
  else tracked (set_noNamespaces <[id := v]>) t.
Definition markMode (modeKey : string) (t : observationTracker) : observationTracker :=
  if bool_decide (modeKey = "") || bool_decide (noMode (tkState t) = modeKey) then t
  else tracked (set_noMode modeKey) t.

Definition bootstrapDevice (id : string) (v : observedDeviceState) (t : observationTracker)
    : observationTracker :=
  match trackedDevice t id with Some _ => t | None => markDevice id v t end.
Definition bootstrapLink (id hash : string) (t : observationTracker) : observationTracker :=
  match trackedLink t id with Some _ => t | None => markLink id hash t end.
Definition bootstrapNamespace (id : string) (v : NetnsIdentity) (t : observationTracker)
    : observationTracker :=
  match trackedNamespace t id with
  | Some _ => t
  | None => tracked (set_noNamespaces <[id := v]>) t
  end.

(** [prune]: forget what is not wanted; the record changed when something was
    forgotten. *)
Definition keepKeys {V} (want : gset string) (m : gmap string V) : gmap string V :=
  map_drop (fun id _ => negb (bool_decide (id ∈ want))) m.
Definition pruneRecord (devices links : gset string) (t : observationTracker)
    : observationTracker :=
  let n := tkState t in
  let n' := mkNodeObserved (noVersion n) (noLab n) (noNode n) (noMode n)
              (keepKeys devices (noDevices n)) (keepKeys links (noLinks n))
              (keepKeys devices (noNamespaces n)) in
  let forgot {V} (want : gset string) (m : gmap string V) :=
    map_any (fun id _ => negb (bool_decide (id ∈ want))) m in
  mkTracker n' (tkChanged t || forgot devices (noDevices n) || forgot links (noLinks n)
                || forgot devices (noNamespaces n)).

Lemma lookup_keepKeys {V} want (m : gmap string V) id :
  id ∈ want -> keepKeys want m !! id = m !! id.
Proof.
  intros Hin. apply option_eq. intros v. unfold keepKeys. rewrite lookup_map_drop_Some.
  rewrite bool_decide_true by done. naive_solver.
Qed.
