(* ===== verification/Route.v ===== *)
(** * Kernel routes as portable facts

    Models [deploy/route.go]: a route as [ip route show] prints it is parsed
    into a fact, the kernel's own bookkeeping is dropped, and the fact is
    printed in one order that can be typed back. The parts of [net/netip] the
    parser decides with are written out: which texts are addresses and
    prefixes, and which are link-local. *)

From stdpp Require Import base gmap strings list fin_maps sorting.
From Stdlib Require Import ZArith Lia Ascii.
From S2P Require Import Prelude Text.

Local Open Scope string_scope.
Local Open Scope list_scope.
Local Open Scope Z_scope.

(** ** Addresses ([net/netip]) *)

(** An address by its 16-bit groups (two of an IPv4 address), and whether it
    has a zone. *)
Record Addr := mkAddr { ad6 : bool; adGroups : list Z; adZone : bool }.

(** The four decimal fields of an IPv4 address, each without leading zeros and
    at most 255. *)
Definition octet (s : string) : option Z :=
  match s with
  | EmptyString => None
  | String c rest =>
      if bool_decide (c = "0"%char) && negb (bool_decide (rest = "")) then None
      else v ← unsigned s; if v <=? 255 then Some v else None
  end.
Definition parseIPv4Fields (s : string) : option (list Z) :=
  match split "." s with
  | [a; b; c; d] =>
      a ← octet a; b ← octet b; c ← octet c; d ← octet d;
      Some [a * 256 + b; c * 256 + d]
  | _ => None
  end.

Definition hexOf (c : ascii) : option Z :=
  let n := Z.of_N (N_of_ascii c) in
  if (48 <=? n) && (n <=? 57) then Some (n - 48)
  else if (97 <=? n) && (n <=? 102) then Some (n - 87)
  else if (65 <=? n) && (n <=? 70) then Some (n - 55) else None.
Fixpoint hexDigits (acc : Z) (s : string) : option Z :=
  match s with
  | EmptyString => Some acc
  | String c rest => h ← hexOf c; hexDigits (acc * 16 + h) rest
  end.
(** A group of one to four hexadecimal digits. *)
Definition group (s : string) : option Z :=
  if bool_decide (s = "") || Nat.ltb 4 (String.length s) then None else hexDigits 0 s.

(** The groups between colons, the last of which may be an embedded IPv4
    address. *)
Fixpoint groups (parts : list string) : option (list Z) :=
  match parts with
  | [] => Some []
  | [p] => if occurs "." p then parseIPv4Fields p else g ← group p; Some [g]
  | p :: rest => g ← group p; more ← groups rest; Some (g :: more)
  end.
(** The text at the first double colon. *)
Fixpoint cutEllipsis (s : string) : string * option string :=
  match s with
  | EmptyString => ("", None)
  | String c rest =>
      match rest with
      | String d rest' =>
          if bool_decide (c = ":"%char) && bool_decide (d = ":"%char) then ("", Some rest')
          else let '(a, b) := cutEllipsis rest in (String c a, b)
      | EmptyString => (s, None)
      end
  end.
Definition groupsOf (s : string) : option (list Z) :=
  if bool_decide (s = "") then Some [] else groups (split ":" s).
Definition parseIPv6Groups (s : string) : option (list Z) :=
  match cutEllipsis s with
  | (_, None) => gs ← groupsOf s; if Nat.eqb (length gs) 8 then Some gs else None
  | (a, Some b) =>
      (* an IPv4 tail may only end the address *)
      if occurs "." a then None else
      ga ← groupsOf a; gb ← groupsOf b;
      if Nat.ltb (length ga + length gb) 8
      then Some (ga ++ replicate (8 - length ga - length gb) 0 ++ gb) else None
  end.

(** Which of [.], [:] and [%] comes first decides the family. *)
Fixpoint family (s : string) : option ascii :=
  match s with
  | EmptyString => None
  | String c rest =>
      if bool_decide (c = "."%char) || bool_decide (c = ":"%char) || bool_decide (c = "%"%char)
      then Some c else family rest
  end.
Definition ParseAddr (s : string) : option Addr :=
  match family s with
  | Some "."%char => gs ← parseIPv4Fields s; Some (mkAddr false gs false)
  | Some ":"%char =>
      let '(body, zone) := cut "%" s in
      if bool_decide (zone = Some "") then None
      else gs ← parseIPv6Groups body; Some (mkAddr true gs (bool_decide (is_Some zone)))
  | _ => None
  end.

(** The text before and after the last slash. *)
Definition cutLast (c : ascii) (s : string) : option (string * string) :=
  match cut c (String.rev s) with
  | (b, Some a) => Some (String.rev a, String.rev b)
  | _ => None
  end.
Definition ParsePrefix (s : string) : option (Addr * Z) :=
  '(a, bits) ← cutLast "/" s;
  ip ← ParseAddr a;
  if ad6 ip && adZone ip then None else
  let bad := match bits with
             | String c (String _ _) =>
                 negb ((49 <=? Z.of_N (N_of_ascii c)) && (Z.of_N (N_of_ascii c) <=? 57))
             | _ => false
             end in
  if bad then None else
  n ← atoi bits;
  if (n <? 0) || ((if ad6 ip then 128 else 32) <? n) then None else Some (ip, n).

(** [IsLinkLocalUnicast], an IPv4-mapped address counting as the IPv4 one. *)
Definition IsLinkLocalUnicast (a : Addr) : bool :=
  match adGroups a with
  | [hi; _] => hi =? 169 * 256 + 254
  | [0; 0; 0; 0; 0; 65535; hi; _] => hi =? 169 * 256 + 254
  | g :: _ => Z.land g 65472 =? 65152
  | [] => false
  end.

(** ** Keywords *)

Definition routeTypes : list string :=
  ["unicast"; "local"; "broadcast"; "multicast"; "anycast"; "blackhole"; "unreachable";
   "prohibit"; "throw"; "nat"].
Definition routeTypesWithoutNexthop : list string :=
  ["blackhole"; "unreachable"; "prohibit"; "throw"].
Definition routeValueKeys : list string :=
  ["table"; "metric"; "src"; "tos"; "dsfield"; "scope"; "realms"; "from"; "weight"].
Definition routeMetricKeys : list string :=
  ["mtu"; "advmss"; "window"; "cwnd"; "initcwnd"; "initrwnd"; "ssthresh"; "rtt"; "rttvar";
   "rto_min"; "hoplimit"; "reordering"; "quickack"; "congctl"; "fastopen_no_cookie"; "features"].
Definition routeDropKeys : list string :=
  ["nhid"; "proto"; "protocol"; "pref"; "expires"; "error"; "users"; "age"; "iif"].
Definition routeDropFlags : list string :=
  ["dead"; "linkdown"; "cache"; "offload"; "trap"; "rt_offload"; "rt_trap"; "unresolved"; "notify"].
Definition routeKeepFlags : list string := ["onlink"; "pervasive"].
Definition within (l : list string) (x : string) : bool := bool_decide (x ∈ l).

(** ** Facts *)

Record routeAttrs := mkAttrs {
  raKeyed : gmap string string; raFlags : gset string; raExtra : list string
}.
Definition noAttrs : routeAttrs := mkAttrs ∅ ∅ [].
Definition setAttr (key value : string) (a : routeAttrs) : routeAttrs :=
  mkAttrs (<[key := value]> (raKeyed a)) (raFlags a) (raExtra a).
Definition flagAttr (name : string) (a : routeAttrs) : routeAttrs :=
  mkAttrs (raKeyed a) ({[name]} ∪ raFlags a) (raExtra a).
Definition extraAttr (field : string) (a : routeAttrs) : routeAttrs :=
  mkAttrs (raKeyed a) (raFlags a) (raExtra a ++ [field]).

(** [tokens]. *)
Definition sortedKeys (m : gmap string string) : list string :=
  sortStrings (map fst (map_to_list m)).
Definition keyTokens (m : gmap string string) (key : string) : list string :=
  key :: fields (lookup_or "" m key).
Definition tokens (a : routeAttrs) : list string :=
  (sortedKeys (raKeyed a) ≫= keyTokens (raKeyed a))
  ++ sortStrings (elements (raFlags a)) ++ raExtra a.

Record routeNexthop := mkHop { rhVia : string; rhDev : string; rhAttrs : routeAttrs }.
Definition keyed (key value : string) : list string :=
  if bool_decide (value = "") then [] else [key; value].
Definition nexthopString (n : routeNexthop) : string :=
  join " " ("nexthop" :: keyed "via" (rhVia n) ++ keyed "dev" (rhDev n) ++ tokens (rhAttrs n)).

Record routeFact := mkFact {
  rfKind : string; rfDest : string; rfVia : string; rfDev : string;
  rfAttrs : routeAttrs; rfNexthops : list routeNexthop
}.
Definition factString (f : routeFact) : string :=
  join " " ((if bool_decide (rfKind f = "") then [] else [rfKind f]) ++ [rfDest f]
            ++ keyed "via" (rfVia f) ++ keyed "dev" (rfDev f) ++ tokens (rfAttrs f)
            ++ map nexthopString (rfNexthops f)).

(** ** Parsing *)

Definition backslash : ascii := "092"%char.
Definition isBackslash (c : ascii) : bool := bool_decide (c = backslash).
Definition routeFields (line : string) : list string :=
  List.filter (fun f => negb (bool_decide (f = ""))) (map (trimBy isBackslash) (fields line)).

(** [routeEntries]; the entries so far are in reverse order. *)
Definition entryStep (acc : list string) (line : string) : list string :=
  match routeFields line with
  | [] => acc
  | (f :: _) as fs =>
      if bool_decide (f = "nexthop") then
        match acc with
        | [] => []
        | last :: before => (last +:+ " " +:+ join " " fs) :: before
        end
      else join " " fs :: acc
  end.
Definition routeEntries (raw : string) : list string :=
  rev (fold_left entryStep (lines raw) []).

Definition routeDestination (field : string) : bool :=
  bool_decide (field = "default") || bool_decide (is_Some (ParsePrefix field))
  || bool_decide (is_Some (ParseAddr field)).

(** [splitAtNexthop]: never empty. *)
Fixpoint splitAtNexthop (fs : list string) : list (list string) :=
  match fs with
  | [] => [[]]
  | f :: rest =>
      if bool_decide (f = "nexthop") then [] :: splitAtNexthop rest
      else match splitAtNexthop rest with
           | [] => [[f]]
           | chunk :: more => (f :: chunk) :: more
           end
  end.

Definition routeEncapBoundary (f : string) : bool :=
  within ["via"; "dev"; "nexthop"; "encap"] f || within routeValueKeys f || within routeMetricKeys f
  || within routeDropKeys f || within routeDropFlags f || within routeKeepFlags f.
(** [parseRouteEncap]: the fields of the value. *)
Fixpoint untilBoundary (fs : list string) : list string :=
  match fs with
  | [] => []
  | f :: rest => if routeEncapBoundary f then [] else f :: untilBoundary rest
  end.
Definition parseRouteEncap (fs : list string) : list string :=
  match fs with [] => [] | f :: rest => f :: untilBoundary rest end.

Definition isFamily (s : string) : bool := within ["inet"; "inet6"] s.

(** [parseRouteAttrs]: the loop with its index, whose extra advances are the
    fields to skip. *)
Record parsedAttrs := mkParsed { paVia : string; paDev : string; paAttrs : routeAttrs }.
Definition onAttrs (f : routeAttrs -> routeAttrs) (p : parsedAttrs) : parsedAttrs :=
  mkParsed (paVia p) (paDev p) (f (paAttrs p)).
Fixpoint attrsFrom (skip : nat) (fs : list string) (p : parsedAttrs) : parsedAttrs :=
  match fs with
  | [] => p
  | key :: rest =>
      match skip with
      | S skip => attrsFrom skip rest p
      | O =>
          if bool_decide (key = "via") then
            match rest with
            | a :: b :: _ =>
                if isFamily a
                then attrsFrom 2 rest (mkParsed (a +:+ " " +:+ b) (paDev p) (paAttrs p))
                else attrsFrom 1 rest (mkParsed a (paDev p) (paAttrs p))
            | [a] => attrsFrom 1 rest (mkParsed a (paDev p) (paAttrs p))
            | [] => p
            end
          else if bool_decide (key = "dev") then
            match rest with
            | a :: _ => attrsFrom 1 rest (mkParsed (paVia p) a (paAttrs p))
            | [] => p
            end
          else if bool_decide (key = "encap") then
            match parseRouteEncap rest with
            | [] => p
            | value => attrsFrom (length value) rest (onAttrs (setAttr "encap" (join " " value)) p)
            end
          else if within routeDropKeys key then attrsFrom 1 rest p
          else if within routeDropFlags key then attrsFrom 0 rest p
          else if within routeKeepFlags key then attrsFrom 0 rest (onAttrs (flagAttr key) p)
          else if within routeMetricKeys key then
            match rest with
            | a :: b :: _ =>
                if bool_decide (a = "lock")
                then attrsFrom 2 rest (onAttrs (setAttr key ("lock " +:+ b)) p)
                else attrsFrom 1 rest (onAttrs (setAttr key a) p)
            | [a] => attrsFrom 1 rest (onAttrs (setAttr key a) p)
            | [] => p
            end
          else if within routeValueKeys key then
            match rest with
            | a :: _ => attrsFrom 1 rest (onAttrs (setAttr key a) p)
            | [] => p
            end
          else attrsFrom 0 rest (onAttrs (extraAttr key) p)
      end
  end.
Definition parseRouteAttrs (fs : list string) : parsedAttrs :=
  attrsFrom 0 fs (mkParsed "" "" noAttrs).

Definition hopOf (fs : list string) : option routeNexthop :=
  let p := parseRouteAttrs fs in
  if bool_decide (paVia p = "") && bool_decide (paDev p = "") then None
  else Some (mkHop (paVia p) (paDev p) (paAttrs p)).

(** [normalize]. *)
Definition hopLe (a b : routeNexthop) : Prop := String.le (nexthopString a) (nexthopString b).
#[export] Instance hopLe_dec : RelDecision hopLe :=
  fun a b => decide (String.le (nexthopString a) (nexthopString b)).
Definition mergeHop (a h : routeAttrs) : routeAttrs :=
  mkAttrs (raKeyed a ∪ delete "weight" (raKeyed h)) (raFlags a ∪ raFlags h) (raExtra a ++ raExtra h).
Definition normalize (f : routeFact) : routeFact :=
  match rfNexthops f with
  | [hop] =>
      if bool_decide (rfVia f = "") && bool_decide (rfDev f = "")
      then mkFact (rfKind f) (rfDest f) (rhVia hop) (rhDev hop) (mergeHop (rfAttrs f) (rhAttrs hop)) []
      else f
  | hops => mkFact (rfKind f) (rfDest f) (rfVia f) (rfDev f) (rfAttrs f) (merge_sort hopLe hops)
  end.

(** The leading keyword, which a plain route may leave out. *)
Definition leadingKind (fs : list string) : string * list string :=
  match fs with
  | f :: rest => if within routeTypes f
                 then (if bool_decide (f = "unicast") then "" else f, rest) else ("", fs)
  | [] => ("", [])
  end.
Definition parseKind (kind : string) (fs : list string) : option routeFact :=
  match fs with
  | [] => None
  | dest :: rest =>
      if negb (routeDestination dest) then None
      else match splitAtNexthop rest with
           | [] => None
           | first :: chunks =>
               let p := parseRouteAttrs first in
               Some (normalize (mkFact kind dest (paVia p) (paDev p) (paAttrs p) (omap hopOf chunks)))
           end
  end.
Definition parseFields (fs : list string) : option routeFact :=
  let '(kind, fs) := leadingKind fs in parseKind kind fs.
Definition parseRouteFact (entry : string) : option routeFact := parseFields (routeFields entry).

(** ** What is worth preserving *)

Definition replayable (f : routeFact) : bool :=
  negb (bool_decide (rfDest f = ""))
  && (within routeTypesWithoutNexthop (rfKind f)
      || negb (bool_decide (rfVia f = "")) || negb (bool_decide (rfDev f = ""))
      || negb (bool_decide (length (rfNexthops f) = 0%nat))).
Definition replayRank (f : routeFact) : nat :=
  if bool_decide (rfDest f = "default") then 2
  else if negb (bool_decide (rfVia f = "")) || negb (bool_decide (length (rfNexthops f) = 0%nat))
  then 1 else 0.
Definition kernelOwned (f : routeFact) : bool :=
  bool_decide (rfKind f = "") && bool_decide (rfVia f = "")
  && bool_decide (length (rfNexthops f) = 0%nat)
  && match ParsePrefix (rfDest f) with
     | Some (a, bits) => (bits =? 64) && IsLinkLocalUnicast a
     | None => false
     end.
Definition portableRoute (entry : string) : option routeFact :=
  f ← parseRouteFact entry;
  if negb (replayable f) || kernelOwned f then None else Some f.
Definition canonicalRoute (line : string) : string :=
  match portableRoute line with Some f => factString f | None => "" end.

(** A multipath route as [ip -o] prints it, and the same route typed back. *)
Example canonicalRoute_example :
  canonicalRoute ("10.2.0.0/16 nhid 31 proto bgp metric 20 \ nexthop via 10.0.9.2 dev eth1 weight 1 "
    +:+ "linkdown \ nexthop via 10.0.1.2 dev eth0 weight 1")
  = "10.2.0.0/16 metric 20 nexthop via 10.0.1.2 dev eth0 weight 1 nexthop via 10.0.9.2 dev eth1 weight 1"
  /\ canonicalRoute "default via inet6 fe80::1 dev eth0 proto static pref medium"
     = "default via inet6 fe80::1 dev eth0"
  /\ canonicalRoute "fe80::/64 dev eth0 proto kernel metric 256" = ""
  /\ canonicalRoute "10.0.0.0/8 nhid 12" = ""
  /\ canonicalRoute "2001:db8::/32 via 2001:db8::1 onlink" = "2001:db8::/32 via 2001:db8::1 onlink".
Proof. vm_compute. auto. Qed.

(** ** Tokens *)

(** A field with no backslash at its ends, which is not the word that separates
    the paths of a route. *)
Definition token (s : string) : Prop :=
  isField s /\ trimBy isBackslash s = s /\ s <> "nexthop".

Lemma routeFields_join ts :
  Forall (fun t => isField t /\ trimBy isBackslash t = t) ts -> routeFields (join " " ts) = ts.
Proof.
  intros H. unfold routeFields. rewrite fields_join by (eapply Forall_impl; [exact H|]; by intros ? []).
  induction H as [|t ts [[Hne _] Ht] _ IH]; [done|]. simpl. rewrite Ht, bool_decide_false by done.
  simpl. by rewrite IH.
Qed.

(** The fields of a printed route. *)
Lemma routeFields_clean line :
  Forall (fun t => isField t /\ trimBy isBackslash t = t) (routeFields line).
Proof.
  unfold routeFields. pose proof (fields_are_fields line) as H.
  induction H as [|t ts [_ Ht] _ IH]; simpl; [constructor|]. case_bool_decide as He; simpl; [done|].
  constructor; [|done]. split; [split; [done|by apply spaceless_trim]|apply trimBy_idem].
Qed.

(** ** Facts that can be read back *)

Definition wfVia (v : string) : Prop :=
  v = "" \/ (token v /\ isFamily v = false) \/
  exists a b, v = a +:+ " " +:+ b /\ isFamily a = true /\ token a /\ token b.
Definition wfDev (v : string) : Prop := v = "" \/ token v.

(** A key with its value: one field, [lock] and a field for a metric, or the
    fields of an encapsulation. *)
Definition wfKey (k v : string) : Prop :=
  (within routeValueKeys k = true /\ token v) \/
  (within routeMetricKeys k = true /\ token v /\ v <> "lock") \/
  (within routeMetricKeys k = true /\ exists b, v = "lock " +:+ b /\ token b) \/
  (k = "encap" /\ exists f fs, v = join " " (f :: fs) /\ Forall token (f :: fs) /\
     Forall (fun x => routeEncapBoundary x = false) fs).

(** A field the parser has no word for. *)
Definition unknown (x : string) : Prop :=
  token x /\ routeEncapBoundary x = false.

Record wfAttrs (a : routeAttrs) : Prop := {
  wa_keys k v : raKeyed a !! k = Some v -> wfKey k v;
  wa_flags x : x ∈ raFlags a -> within routeKeepFlags x = true;
  wa_extra : Forall unknown (raExtra a);
  wa_encap : is_Some (raKeyed a !! "encap") -> raExtra a = []
}.
Record wfHop (h : routeNexthop) : Prop := {
  wh_via : wfVia (rhVia h); wh_dev : wfDev (rhDev h); wh_attrs : wfAttrs (rhAttrs h);
  wh_some : rhVia h <> "" \/ rhDev h <> ""
}.
Record wfFact (f : routeFact) : Prop := {
  wr_kind : rfKind f = "" \/ (within routeTypes (rfKind f) = true /\ rfKind f <> "unicast" /\
                              isField (rfKind f) /\ trimBy isBackslash (rfKind f) = rfKind f);
  wr_dest : routeDestination (rfDest f) = true;
  wr_destToken : isField (rfDest f) /\ trimBy isBackslash (rfDest f) = rfDest f;
  wr_via : wfVia (rfVia f); wr_dev : wfDev (rfDev f); wr_attrs : wfAttrs (rfAttrs f);
  wr_hops : Forall wfHop (rfNexthops f);
  wr_sorted : Sorted hopLe (rfNexthops f);
  wr_plain hop : rfNexthops f = [hop] -> rfVia f <> "" \/ rfDev f <> ""
}.

(** The fields a value is printed as. *)
Definition viaTokens (v : string) : list string := if bool_decide (v = "") then [] else "via" :: fields v.
Definition devTokens (v : string) : list string := if bool_decide (v = "") then [] else ["dev"; v].
Definition hopTokens (h : routeNexthop) : list string :=
  viaTokens (rhVia h) ++ devTokens (rhDev h) ++ tokens (rhAttrs h).

Lemma token_fields t : token t -> fields t = [t].
Proof. intros ([Hne Hs] & _). apply (fields_join [t]). by repeat constructor. Qed.
Lemma token_fields2 a b : token a -> token b -> fields (a +:+ " " +:+ b) = [a; b].
Proof. intros (Ha & _) (Hb & _). apply (fields_join [a; b]). by rewrite Forall_cons, Forall_singleton. Qed.

(** The keywords are told apart. *)
Lemma value_not_special k :
  within routeValueKeys k = true \/ within routeMetricKeys k = true ->
  bool_decide (k = "via") = false /\ bool_decide (k = "dev") = false /\
  bool_decide (k = "encap") = false /\ within routeDropKeys k = false /\
  within routeDropFlags k = false /\ within routeKeepFlags k = false.
Proof.
  unfold within. intros [H|H]; apply bool_decide_eq_true in H; repeat (apply elem_of_cons in H as [->|H]);
    try (by apply not_elem_of_nil in H); vm_compute; auto 10.
Qed.
Lemma value_not_metric k : within routeValueKeys k = true -> within routeMetricKeys k = false.
Proof.
  unfold within. intros H; apply bool_decide_eq_true in H; repeat (apply elem_of_cons in H as [->|H]);
    try (by apply not_elem_of_nil in H); vm_compute; auto.
Qed.

(** ** Reading attributes *)

Lemma attrsFrom_via v d a rest :
  wfVia v -> attrsFrom 0 (viaTokens v ++ rest) (mkParsed "" d a) = attrsFrom 0 rest (mkParsed v d a).
Proof.
  unfold viaTokens. intros [->|[[Ht Hf]|(x & y & -> & Hf & Hx & Hy)]].
  - done.
  - rewrite bool_decide_false by (by apply Ht). rewrite (token_fields v Ht). simpl.
    destruct rest as [|b rest]; [done|]. by rewrite Hf.
  - rewrite bool_decide_false; [|by destruct x].
    rewrite (token_fields2 x y Hx Hy). simpl. by rewrite Hf.
Qed.
Lemma attrsFrom_dev v d a rest :
  wfDev d -> attrsFrom 0 (devTokens d ++ rest) (mkParsed v "" a) = attrsFrom 0 rest (mkParsed v d a).
Proof. unfold devTokens. intros [->|Ht]; [done|]. rewrite bool_decide_false by (by apply Ht). done. Qed.

Lemma attrsFrom_flag x rest p : within routeKeepFlags x = true ->
  attrsFrom 0 (x :: rest) p = attrsFrom 0 rest (onAttrs (flagAttr x) p).
Proof.
  unfold within. intros H; apply bool_decide_eq_true in H; repeat (apply elem_of_cons in H as [->|H]);
    try (by apply not_elem_of_nil in H); done.
Qed.

Lemma attrsFrom_unknown x rest p : unknown x ->
  attrsFrom 0 (x :: rest) p = attrsFrom 0 rest (onAttrs (extraAttr x) p).
Proof.
  intros (_ & Hb). unfold routeEncapBoundary in Hb.
  repeat (apply orb_false_elim in Hb as [Hb ?H]). unfold within in Hb at 1.
  apply bool_decide_eq_false in Hb. cbn [attrsFrom].
  rewrite !(bool_decide_false (x = _)) by (intros ->; apply Hb; set_solver).
  rewrite H0, H1, H2, H3, H. done.
Qed.

Lemma attrsFrom_skip n fs p : attrsFrom n fs p = attrsFrom 0 (drop n fs) p.
Proof.
  revert fs. induction n as [|n IH]; intros fs; [done|]. destruct fs as [|f fs]; [done|].
  simpl. apply IH.
Qed.

Definition headBoundary (rest : list string) : Prop :=
  match rest with [] => True | x :: _ => routeEncapBoundary x = true end.

Lemma untilBoundary_app fs rest :
  Forall (fun x => routeEncapBoundary x = false) fs -> headBoundary rest ->
  untilBoundary (fs ++ rest) = fs.
Proof.
  intros Hfs Hr. induction Hfs as [|f fs Hf _ IH]; simpl.
  - destruct rest as [|x rest]; simpl in *; [done|]. by rewrite Hr.
  - by rewrite Hf, IH.
Qed.

Lemma wfKey_boundary k v : wfKey k v -> routeEncapBoundary k = true.
Proof.
  unfold routeEncapBoundary. intros [[H _]|[[H _]|[[H _]|[-> _]]]]; [..|done];
    rewrite H; by rewrite ?orb_true_r.
Qed.

Lemma attrsFrom_key k v rest p :
  wfKey k v -> (k = "encap" -> headBoundary rest) ->
  attrsFrom 0 (k :: fields v ++ rest) p = attrsFrom 0 rest (onAttrs (setAttr k v) p).
Proof.
  intros [[Hk Ht]|[(Hk & Ht & Hl)|[[Hk (b & -> & Ht)]|(-> & f & fs & -> & Hfs & Hb)]]] Hr.
  - rewrite (token_fields v Ht).
    destruct (value_not_special k (or_introl Hk)) as (A & B & C & D & E & F).
    cbn [attrsFrom app]. by rewrite A, B, C, D, E, F, (value_not_metric k Hk), Hk.
  - rewrite (token_fields v Ht).
    destruct (value_not_special k (or_intror Hk)) as (A & B & C & D & E & F).
    cbn [attrsFrom app]. rewrite A, B, C, D, E, F, Hk. destruct rest as [|x rest]; [done|].
    by rewrite bool_decide_false.
  - assert (token "lock") as Hlock by (repeat split; done).
    change ("lock " +:+ b) with ("lock" +:+ " " +:+ b). rewrite (token_fields2 "lock" b Hlock Ht).
    destruct (value_not_special k (or_intror Hk)) as (A & B & C & D & E & F).
    cbn [attrsFrom app]. by rewrite A, B, C, D, E, F, Hk.
  - rewrite fields_join by (eapply Forall_impl; [exact Hfs|]; by intros x [? _]).
    assert (parseRouteEncap ((f :: fs) ++ rest) = f :: fs) as He.
    { simpl. by rewrite untilBoundary_app by auto. }
    cbn [attrsFrom]. rewrite He. cbn -[length drop app join]. rewrite attrsFrom_skip. by rewrite drop_app_length.
Qed.

Definition setKeys (m : gmap string string) (ks : list string) (p : parsedAttrs) : parsedAttrs :=
  fold_left (fun p k => onAttrs (setAttr k (lookup_or "" m k)) p) ks p.

Lemma attrsFrom_keys m ks rest p :
  (forall k, k ∈ ks -> exists v, m !! k = Some v /\ wfKey k v) ->
  ("encap" ∈ ks -> headBoundary rest) ->
  attrsFrom 0 ((ks ≫= keyTokens m) ++ rest) p = attrsFrom 0 rest (setKeys m ks p).
Proof.
  revert p. induction ks as [|k ks IH]; intros p Hks Hr; [done|].
  destruct (Hks k (list_elem_of_here _ _)) as (v & Hv & Hk).
  change ((k :: ks) ≫= keyTokens m) with (keyTokens m k ++ (ks ≫= keyTokens m)).
  unfold keyTokens at 1, lookup_or. rewrite Hv. simpl default.
  rewrite <- app_assoc. simpl app. rewrite attrsFrom_key; [|done|].
  - rewrite IH; [|intros k' Hk'; apply Hks; by right|intros He; apply Hr; by right].
    unfold setKeys. simpl. unfold lookup_or. by rewrite Hv.
  - intros ->. destruct ks as [|k' ks]; [apply Hr; left|]. simpl.
    destruct (Hks k') as (v' & _ & Hk'); [right; left|]. by eapply wfKey_boundary.
Qed.

Lemma setKeys_lookup m ks p k :
  (forall k, k ∈ ks -> is_Some (m !! k)) ->
  raKeyed (paAttrs (setKeys m ks p)) !! k =
    if decide (k ∈ ks) then m !! k else raKeyed (paAttrs p) !! k.
Proof.
  revert p. induction ks as [|k' ks IH]; intros p Hks; simpl; [done|].
  rewrite IH by (intros; apply Hks; by right).
  destruct (Hks k' (list_elem_of_here _ _)) as [v Hv].
  destruct (decide (k ∈ ks)) as [Hin|Hin].
  - rewrite decide_True by (by right). done.
  - simpl. unfold lookup_or. rewrite Hv. simpl. destruct (decide (k = k')) as [->|Hne].
    + rewrite lookup_insert_eq, decide_True by left. done.
    + rewrite lookup_insert_ne by done. rewrite decide_False; [done|].
      rewrite elem_of_cons. tauto.
Qed.

Lemma setKeys_rest m ks p :
  paVia (setKeys m ks p) = paVia p /\ paDev (setKeys m ks p) = paDev p /\
  raFlags (paAttrs (setKeys m ks p)) = raFlags (paAttrs p) /\
  raExtra (paAttrs (setKeys m ks p)) = raExtra (paAttrs p).
Proof. revert p. induction ks as [|k ks IH]; intros p; simpl; [done|]. by destruct (IH (onAttrs (setAttr k (lookup_or "" m k)) p)) as (-> & -> & -> & ->). Qed.

Lemma attrsFrom_flags fs rest p :
  (forall x, x ∈ fs -> within routeKeepFlags x = true) ->
  attrsFrom 0 (fs ++ rest) p =
    attrsFrom 0 rest (onAttrs (fun a => mkAttrs (raKeyed a) (list_to_set fs ∪ raFlags a) (raExtra a)) p).
Proof.
  revert p. induction fs as [|f fs IH]; intros [v d [K F X]] Hfs.
  - simpl. unfold onAttrs. simpl. by rewrite union_empty_l_L.
  - simpl app. rewrite attrsFrom_flag by (apply Hfs; left).
    rewrite IH by (intros; apply Hfs; by right). f_equal. unfold onAttrs, flagAttr. simpl.
    f_equal. f_equal. set_solver.
Qed.

Lemma attrsFrom_extra xs p :
  Forall unknown xs ->
  attrsFrom 0 xs p = onAttrs (fun a => mkAttrs (raKeyed a) (raFlags a) (raExtra a ++ xs)) p.
Proof.
  intros H. revert p. induction H as [|x xs Hx _ IH]; intros [v d [K F X]].
  - simpl. unfold onAttrs. simpl. by rewrite app_nil_r.
  - rewrite attrsFrom_unknown by done. rewrite IH. unfold onAttrs, extraAttr. simpl.
    by rewrite <- app_assoc.
Qed.

Lemma elem_of_sortedKeys m k : k ∈ sortedKeys m <-> is_Some (m !! k).
Proof.
  unfold sortedKeys, sortStrings. rewrite merge_sort_Permutation, list_elem_of_fmap. split.
  - intros ([k' v] & -> & H%elem_of_map_to_list). by exists v.
  - intros [v H]. exists (k, v). split; [done|]. by apply elem_of_map_to_list.
Qed.

Lemma keepFlag_boundary x : within routeKeepFlags x = true -> routeEncapBoundary x = true.
Proof. intros H. unfold routeEncapBoundary. by rewrite H, orb_true_r. Qed.

(** The attributes printed are the attributes read. *)
Lemma attrs_read v d a :
  wfVia v -> wfDev d -> wfAttrs a ->
  parseRouteAttrs (viaTokens v ++ devTokens d ++ tokens a) = mkParsed v d a.
Proof.
  intros Hv Hd [Hk Hf Hx He]. unfold parseRouteAttrs. rewrite attrsFrom_via, attrsFrom_dev by done.
  unfold tokens. rewrite attrsFrom_keys.
  - set (p := setKeys _ _ _).
    assert (forall x, x ∈ sortStrings (elements (raFlags a)) <-> x ∈ raFlags a) as Hfl.
    { intros x. unfold sortStrings. by rewrite merge_sort_Permutation, elem_of_elements. }
    rewrite attrsFrom_flags by (intros x H%Hfl; by apply Hf).
    rewrite attrsFrom_extra by done.
    destruct (setKeys_rest (raKeyed a) (sortedKeys (raKeyed a)) (mkParsed v d noAttrs)) as (A & B & C & D).
    assert (raKeyed (paAttrs p) = raKeyed a) as E.
    { apply map_eq. intros k. unfold p. rewrite setKeys_lookup by (intros ?; apply elem_of_sortedKeys).
      case_decide as Hin; [done|]. rewrite elem_of_sortedKeys in Hin. simpl. rewrite lookup_empty.
      by apply eq_None_not_Some in Hin. }
    unfold onAttrs. simpl. fold p in A, B, C, D. rewrite A, B, C, D, E. simpl.
    replace (list_to_set _ ∪ _) with (raFlags a) by set_solver. by destruct a.
  - intros k [w Hw]%elem_of_sortedKeys. eauto.
  - intros [w Hw]%elem_of_sortedKeys. rewrite He by eauto. rewrite app_nil_r.
    destruct (sortStrings (elements (raFlags a))) as [|x xs] eqn:Es; simpl; [done|].
    apply keepFlag_boundary, Hf. apply elem_of_elements. unfold sortStrings in Es.
    rewrite <- merge_sort_Permutation with (R := String.le). rewrite Es. left.
Qed.

(** ** What is printed is tokens *)

Lemma within_token l x : Forall token l -> within l x = true -> token x.
Proof. intros H Hx%bool_decide_eq_true. by eapply Forall_forall in H. Qed.

Ltac keyword := repeat constructor; discriminate.
Ltac each := repeat apply Forall_cons_2; auto using Forall_nil_2.

Lemma via_tokens v : wfVia v -> Forall token (viaTokens v).
Proof.
  assert (token "via") as H by keyword. unfold viaTokens.
  intros [->|[[Ht _]|(x & y & -> & _ & Hx & Hy)]]; case_bool_decide; try (by each).
  - rewrite (token_fields v Ht). by each.
  - rewrite (token_fields2 x y Hx Hy). by each.
Qed.
Lemma dev_tokens d : wfDev d -> Forall token (devTokens d).
Proof.
  assert (token "dev") as H by keyword. unfold devTokens. intros [->|Ht]; case_bool_decide; by each.
Qed.

Lemma key_tokens k v : wfKey k v -> Forall token (k :: fields v).
Proof.
  intros Hk. constructor.
  - destruct Hk as [[H _]|[[H _]|[[H _]|[-> _]]]]; [| | |keyword]; (eapply within_token; [|exact H]; keyword).
  - destruct Hk as [[_ Ht]|[(_ & Ht & _)|[[_ (b & -> & Ht)]|(_ & f & fs & -> & Hfs & _)]]].
    1,2: rewrite (token_fields v Ht); by each.
    + change ("lock " +:+ b) with ("lock" +:+ " " +:+ b). rewrite token_fields2; [|keyword|done].
      constructor; [keyword|by each].
    + rewrite fields_join by (eapply Forall_impl; [exact Hfs|]; by intros x [? _]). done.
Qed.

Lemma attrs_tokens a : wfAttrs a -> Forall token (tokens a).
Proof.
  intros [Hk Hf Hx _]. unfold tokens. rewrite !Forall_app. repeat split.
  - apply Forall_forall. intros x (k & Hx' & [v Hv]%elem_of_sortedKeys)%list_elem_of_bind.
    unfold keyTokens, lookup_or in Hx'. rewrite Hv in Hx'. simpl in Hx'.
    pose proof (key_tokens k v (Hk _ _ Hv)) as H. by eapply Forall_forall in H.
  - apply Forall_forall. intros x. rewrite elem_of_sortStrings, elem_of_elements. intros H%Hf.
    eapply within_token; [|exact H]. keyword.
  - eapply Forall_impl; [exact Hx|]. by intros x [? _].
Qed.

Lemma hop_tokens h : wfHop h -> Forall token (hopTokens h).
Proof.
  intros [Hv Hd Ha _]. unfold hopTokens. rewrite !Forall_app.
  auto using via_tokens, dev_tokens, attrs_tokens.
Qed.

(** ** Reading paths *)

Lemma splitAtNexthop_app a rest :
  Forall token a ->
  splitAtNexthop (a ++ rest) =
    match splitAtNexthop rest with [] => [a] | chunk :: more => (a ++ chunk) :: more end.
Proof.
  induction 1 as [|t a (_ & _ & Hn) _ IH]; simpl.
  - destruct rest as [|r rest]; [done|]. simpl. case_bool_decide; [done|]. by destruct (splitAtNexthop rest).
  - rewrite bool_decide_false, IH by done. by destruct (splitAtNexthop rest).
Qed.

Definition hopsTokens (hops : list routeNexthop) : list string :=
  hops ≫= (fun h => "nexthop" :: hopTokens h).

Lemma splitAtNexthop_hops a hops :
  Forall token a -> Forall wfHop hops ->
  splitAtNexthop (a ++ hopsTokens hops) = a :: map hopTokens hops.
Proof.
  intros Ha Hh. rewrite (splitAtNexthop_app a) by done.
  assert (splitAtNexthop (hopsTokens hops) = [] :: map hopTokens hops) as ->.
  { clear a Ha. induction Hh as [|h hops Hh _ IH]; [done|].
    change (hopsTokens (h :: hops)) with ("nexthop" :: hopTokens h ++ hopsTokens hops). simpl.
    rewrite splitAtNexthop_app, IH by (by apply hop_tokens). by rewrite app_nil_r. }
  by rewrite app_nil_r.
Qed.

Lemma hopOf_tokens h : wfHop h -> hopOf (hopTokens h) = Some h.
Proof.
  intros [Hv Hd Ha Hs]. unfold hopOf, hopTokens. rewrite attrs_read by done. simpl.
  destruct h as [v d a]. simpl in *.
  destruct Hs; [rewrite (bool_decide_false (v = "")) by done|rewrite (bool_decide_false (d = "")) by done];
    by rewrite ?andb_false_r.
Qed.
Lemma omap_hops hops : Forall wfHop hops -> omap hopOf (map hopTokens hops) = hops.
Proof. induction 1 as [|h hops Hh _ IH]; simpl; [done|]. rewrite hopOf_tokens by done. by f_equal. Qed.

(** ** Printing is joining the tokens *)

(** The texts [l] print the fields [ts], each text some of them. *)
Definition prints (l ts : list string) : Prop :=
  exists ls, l = map (join " ") ls /\ concat ls = ts /\ Forall (fun x => x <> []) ls.

Lemma prints_join l ts : prints l ts -> join " " l = join " " ts.
Proof. intros (ls & -> & <- & H). by apply join_concat. Qed.
Lemma prints_app l l' ts ts' : prints l ts -> prints l' ts' -> prints (l ++ l') (ts ++ ts').
Proof.
  intros (a & -> & <- & Ha) (b & -> & <- & Hb). exists (a ++ b).
  rewrite map_app, concat_app. split; [done|]. split; [done|]. by apply Forall_app.
Qed.
Lemma prints_one t : t <> [] -> prints [join " " t] t.
Proof. intros H. exists [t]. simpl. rewrite app_nil_r. split; [done|]. split; [done|]. by each. Qed.
Lemma prints_same ts : prints ts ts.
Proof.
  induction ts as [|t ts IH]; [by exists []|].
  apply (prints_app [t] ts [t] ts); [|done]. by apply (prints_one [t]).
Qed.

Lemma prints_via v : wfVia v -> prints (keyed "via" v) (viaTokens v).
Proof.
  unfold keyed, viaTokens. intros H. case_bool_decide as Hv; [apply prints_same|].
  apply (prints_app ["via"] [v] ["via"]); [apply prints_same|].
  destruct H as [->|[[Ht _]|(x & y & -> & _ & Hx & Hy)]]; [done| |].
  - rewrite (token_fields v Ht). apply prints_same.
  - rewrite (token_fields2 x y Hx Hy). by apply (prints_one [x; y]).
Qed.
Lemma keyed_dev d : keyed "dev" d = devTokens d.
Proof. done. Qed.

Lemma nexthop_prints h : wfHop h -> nexthopString h = join " " ("nexthop" :: hopTokens h).
Proof.
  intros [Hv _ _ _]. unfold nexthopString, hopTokens. apply prints_join.
  apply (prints_app ["nexthop"] _ ["nexthop"]); [apply prints_same|].
  apply prints_app; [by apply prints_via|apply prints_same].
Qed.

Lemma hops_print hops : Forall wfHop hops -> prints (map nexthopString hops) (hopsTokens hops).
Proof.
  induction 1 as [|h hops Hh _ IH]; [by exists []|].
  apply (prints_app [nexthopString h] _ ("nexthop" :: hopTokens h)); [|done].
  rewrite nexthop_prints by done. by apply prints_one.
Qed.

(** The fields of a fact. *)
Definition factTokens (f : routeFact) : list string :=
  (if bool_decide (rfKind f = "") then [] else [rfKind f]) ++ [rfDest f] ++
  (viaTokens (rfVia f) ++ devTokens (rfDev f) ++ tokens (rfAttrs f)) ++ hopsTokens (rfNexthops f).

Lemma fact_prints f : wfFact f -> factString f = join " " (factTokens f).
Proof.
  intros H. unfold factString, factTokens. apply prints_join.
  apply prints_app; [apply prints_same|]. apply prints_app; [apply prints_same|].
  rewrite <- !app_assoc. apply prints_app; [by apply prints_via, H|].
  apply prints_app; [apply prints_same|]. apply prints_app; [apply prints_same|].
  by apply hops_print, H.
Qed.

(** What is printed reads back as fields. *)
Definition clean (t : string) : Prop := isField t /\ trimBy isBackslash t = t.
Lemma token_clean l : Forall token l -> Forall clean l.
Proof. intros H. eapply Forall_impl; [exact H|]. by intros t (? & ? & _). Qed.

Lemma hops_clean hops : Forall wfHop hops -> Forall clean (hopsTokens hops).
Proof.
  induction 1 as [|h hops Hh _ IH]; [constructor|].
  change (Forall clean ("nexthop" :: hopTokens h ++ hopsTokens hops)).
  constructor; [by repeat constructor|]. apply Forall_app. split; [|done]. by apply token_clean, hop_tokens.
Qed.

Lemma factTokens_clean f : wfFact f -> Forall clean (factTokens f).
Proof.
  intros [Hk _ Hd Hv Hdev Ha Hh _ _]. unfold factTokens. rewrite !Forall_app. split.
  { case_bool_decide; [constructor|]. destruct Hk as [|(_ & _ & ? & ?)]; [done|]. each. by split. }
  split; [by each|]. split; [|by apply hops_clean].
  split; [by apply token_clean, via_tokens|]. split; [by apply token_clean, dev_tokens|].
  by apply token_clean, attrs_tokens.
Qed.

Lemma fact_fields f : wfFact f -> routeFields (factString f) = factTokens f.
Proof. intros H. rewrite fact_prints by done. by apply routeFields_join, factTokens_clean. Qed.

(** ** Order of paths *)

Lemma nexthopString_inj h h' : wfHop h -> wfHop h' -> nexthopString h = nexthopString h' -> h = h'.
Proof.
  intros Hh Hh' E. rewrite !nexthop_prints in E by done.
  apply (f_equal routeFields) in E.
  rewrite !routeFields_join in E.
  - injection E as E. pose proof (hopOf_tokens h Hh) as H. rewrite E, hopOf_tokens in H by done. by injection H.
  - constructor; [by repeat constructor|]. by apply token_clean, hop_tokens.
  - constructor; [by repeat constructor|]. by apply token_clean, hop_tokens.
Qed.

#[local] Instance hopLe_total : Total hopLe.
Proof. intros a b. apply (total String.le). Qed.
#[local] Instance hopLe_trans : Transitive hopLe.
Proof. intros a b c. apply (transitivity (R := String.le)). Qed.

Lemma map_sorted hops : Sorted hopLe hops -> Sorted String.le (map nexthopString hops).
Proof.
  induction 1 as [|h hops _ IH Hd]; simpl; constructor; [done|].
  destruct Hd; simpl; constructor; done.
Qed.

(** The paths as printed depend on them as a set. *)
Lemma sorted_strings hops hops' :
  hops ≡ₚ hops' ->
  map nexthopString (merge_sort hopLe hops) = map nexthopString (merge_sort hopLe hops').
Proof.
  intros H. apply (Sorted_unique String.le).
  - apply map_sorted, (Sorted_merge_sort hopLe).
  - apply map_sorted, (Sorted_merge_sort hopLe).
  - by rewrite !merge_sort_Permutation, H.
Qed.

Lemma map_inj_on {A B} (f : A -> B) (P : A -> Prop) l l' :
  (forall x y, P x -> P y -> f x = f y -> x = y) -> Forall P l -> Forall P l' ->
  map f l = map f l' -> l = l'.
Proof.
  intros Hf Hl. revert l'. induction Hl as [|x l Hx _ IH]; intros [|y l'] Hl' E; try done.
  inversion Hl'; subst. injection E as E1 E2. f_equal; eauto.
Qed.

Lemma sorted_hops hops : Forall wfHop hops -> Sorted hopLe hops -> merge_sort hopLe hops = hops.
Proof.
  intros Hh Hs. apply (map_inj_on nexthopString wfHop); [apply nexthopString_inj| |done|].
  - by rewrite merge_sort_Permutation.
  - apply (Sorted_unique String.le); [by apply map_sorted, (Sorted_merge_sort hopLe)|by apply map_sorted|].
    by rewrite merge_sort_Permutation.
Qed.

Lemma normalize_id f : wfFact f -> normalize f = f.
Proof.
  intros H. unfold normalize. destruct f as [k d v dev a hops]. simpl.
  pose proof (sorted_hops hops (wr_hops _ H) (wr_sorted _ H)) as Hs.
  destruct hops as [|h [|h' hops]]; [by rewrite Hs| |by rewrite Hs].
  destruct (wr_plain _ H h eq_refl) as [Hv|Hv]; simpl in Hv;
    by rewrite (bool_decide_false _ Hv), ?andb_false_r.
Qed.

(** ** Reading a fact *)

Lemma destination_not_type d : routeDestination d = true -> within routeTypes d = false.
Proof.
  intros H. destruct (within routeTypes d) eqn:E; [|done]. apply bool_decide_eq_true in E.
  repeat (apply elem_of_cons in E as [->|E]); [..|by apply not_elem_of_nil in E]; vm_compute in H; discriminate.
Qed.

Lemma leadingKind_printed f rest :
  wfFact f ->
  leadingKind ((if bool_decide (rfKind f = "") then [] else [rfKind f]) ++ [rfDest f] ++ rest)
    = (rfKind f, rfDest f :: rest).
Proof.
  intros H. pose proof (destination_not_type _ (wr_dest _ H)) as Hd.
  destruct (wr_kind _ H) as [Hk|(Ht & Hu & [Hne _] & _)].
  - rewrite Hk, bool_decide_true by reflexivity. cbn [app leadingKind]. rewrite Hd. reflexivity.
  - rewrite bool_decide_false by exact Hne. cbn [app leadingKind]. rewrite Ht.
    rewrite bool_decide_false by exact Hu. reflexivity.
Qed.

Lemma fact_read f : wfFact f -> parseRouteFact (factString f) = Some f.
Proof.
  intros H. unfold parseRouteFact. rewrite fact_fields by done. unfold factTokens, parseFields.
  rewrite leadingKind_printed by done. unfold parseKind. rewrite (wr_dest _ H). cbn [negb].
  rewrite splitAtNexthop_hops.
  - rewrite attrs_read by apply H. cbn [paVia paDev paAttrs]. rewrite omap_hops by apply H.
    f_equal. destruct f. by apply normalize_id.
  - rewrite !Forall_app. repeat split; [apply via_tokens|apply dev_tokens|apply attrs_tokens]; apply H.
  - apply H.
Qed.

(** ** What the parser produces *)

(** The facts that print the way they would be read: a gateway that is not the
    bare name of a family, no metric whose value is the word [lock], and no
    unknown field beside an encapsulation, whose fields it would join. *)
Definition clearPath (via : string) (a : routeAttrs) : bool :=
  negb (isFamily via)
  && forallb (fun kv => negb (bool_decide (kv.2 = "lock"))) (map_to_list (raKeyed a))
  && (bool_decide (raKeyed a !! "encap" = None) || bool_decide (raExtra a = [])).
Definition unambiguous (f : routeFact) : bool :=
  clearPath (rfVia f) (rfAttrs f)
  && forallb (fun h => clearPath (rhVia h) (rhAttrs h)) (rfNexthops f).

Definition rawVia (v : string) : Prop :=
  v = "" \/ token v \/ exists a b, v = a +:+ " " +:+ b /\ isFamily a = true /\ token a /\ token b.
Definition rawKey (k v : string) : Prop :=
  wfKey k v \/ (within routeMetricKeys k = true /\ v = "lock").
Record rawAttrs (a : routeAttrs) : Prop := {
  ra_keys k v : raKeyed a !! k = Some v -> rawKey k v;
  ra_flags x : x ∈ raFlags a -> within routeKeepFlags x = true;
  ra_extra : Forall unknown (raExtra a)
}.
Record rawParsed (p : parsedAttrs) : Prop := {
  rp_via : rawVia (paVia p); rp_dev : wfDev (paDev p); rp_attrs : rawAttrs (paAttrs p)
}.

Lemma raw_set k v p : rawKey k v -> rawParsed p -> rawParsed (onAttrs (setAttr k v) p).
Proof.
  intros Hk [Hv Hd [Ha Hb Hc]]. split; [done..|]. split; [|done..]. intros k' v'. simpl.
  destruct (decide (k = k')) as [->|Hne]; [rewrite lookup_insert_eq; by intros [= <-]|].
  rewrite lookup_insert_ne by done. apply Ha.
Qed.
Lemma raw_flag x p : within routeKeepFlags x = true -> rawParsed p -> rawParsed (onAttrs (flagAttr x) p).
Proof.
  intros Hx [Hv Hd [Ha Hb Hc]]. split; [done..|]. split; [done| |done]. intros y. simpl.
  rewrite elem_of_union, elem_of_singleton. intros [->|H]; auto.
Qed.
Lemma raw_extra x p : unknown x -> rawParsed p -> rawParsed (onAttrs (extraAttr x) p).
Proof.
  intros Hx [Hv Hd [Ha Hb Hc]]. split; [done..|]. split; [done..|]. simpl. apply Forall_app. split; [done|by each].
Qed.
Lemma raw_metric k v : within routeMetricKeys k = true -> token v -> rawKey k v.
Proof.
  intros Hk Hv. destruct (decide (v = "lock")) as [->|Hne]; [by right|]. left. right. by left.
Qed.

Lemma untilBoundary_not fs : Forall (fun x => routeEncapBoundary x = false) (untilBoundary fs).
Proof. induction fs as [|f fs IH]; simpl; [constructor|]. destruct (routeEncapBoundary f) eqn:E; [constructor|]. by constructor. Qed.
Lemma untilBoundary_token fs : Forall token fs -> Forall token (untilBoundary fs).
Proof. induction 1 as [|f fs Hf _ IH]; simpl; [constructor|]. destruct (routeEncapBoundary f); [constructor|]. by constructor. Qed.

Lemma raw_encap f fs p :
  Forall token (f :: fs) -> rawParsed p ->
  rawParsed (onAttrs (setAttr "encap" (join " " (parseRouteEncap (f :: fs)))) p).
Proof.
  intros Hf Hp. apply raw_set; [|done]. left. right. right. right. split; [done|].
  exists f, (untilBoundary fs). inversion Hf; subst. split; [done|]. split; [|apply untilBoundary_not].
  constructor; [done|]. by apply untilBoundary_token.
Qed.

Lemma unknown_key key :
  token key -> key <> "via" -> key <> "dev" -> key <> "encap" ->
  within routeDropKeys key = false -> within routeDropFlags key = false ->
  within routeKeepFlags key = false -> within routeMetricKeys key = false ->
  within routeValueKeys key = false -> unknown key.
Proof.
  intros Ht A B C D E F G H. split; [done|]. unfold routeEncapBoundary. rewrite D, E, F, G, H, !orb_false_r.
  apply bool_decide_eq_false. destruct Ht as (_ & _ & Hn). set_solver.
Qed.

Lemma attrsFrom_raw skip fs p : Forall token fs -> rawParsed p -> rawParsed (attrsFrom skip fs p).
Proof.
  intros Hfs. revert skip p. induction Hfs as [|key rest Hkey Hrest IH]; intros skip p Hp; [done|].
  cbn [attrsFrom]. destruct skip as [|skip]; [|by apply IH].
  assert (forall v, rawVia v -> rawParsed (mkParsed v (paDev p) (paAttrs p))) as Hvia by (intros v Hv; split; apply Hp || done).
  case_bool_decide as E1.
  { destruct Hrest as [|a ? Ha [|b ? Hb _]]; [done| |]; [by apply IH, Hvia; right; left|].
    destruct (isFamily a) eqn:Ef; apply IH, Hvia; right; [right; by eauto 10|by left]. }
  case_bool_decide as E2.
  { destruct Hrest as [|a ? Ha _]; [done|]. apply IH. split; [apply Hp|by right|apply Hp]. }
  case_bool_decide as E3.
  { destruct rest as [|f fs]; [done|]. by apply IH, raw_encap. }
  destruct (within routeDropKeys key) eqn:D; [by apply IH|].
  destruct (within routeDropFlags key) eqn:E; [by apply IH|].
  destruct (within routeKeepFlags key) eqn:F; [by apply IH, raw_flag|].
  destruct (within routeMetricKeys key) eqn:G.
  { destruct Hrest as [|a ? Ha [|b ? Hb _]]; [done| |]; [by apply IH, raw_set; [apply raw_metric|]|].
    case_bool_decide; apply IH, raw_set; [|done|by apply raw_metric|done].
    left. right. right. left. by eauto. }
  destruct (within routeValueKeys key) eqn:H.
  { destruct Hrest as [|a ? Ha _]; [done|]. apply IH, raw_set; [|done]. left. by left. }
  apply IH, raw_extra; [|done]. by apply unknown_key.
Qed.

Lemma parsed_raw fs : Forall token fs -> rawParsed (parseRouteAttrs fs).
Proof.
  intros H. apply attrsFrom_raw; [done|]. split; [by left..|]. split; simpl; [|set_solver|constructor].
  intros k v. by rewrite lookup_empty.
Qed.

Record rawHop (h : routeNexthop) : Prop := {
  rh_via : rawVia (rhVia h); rh_dev : wfDev (rhDev h); rh_attrs : rawAttrs (rhAttrs h);
  rh_some : rhVia h <> "" \/ rhDev h <> ""
}.

Lemma hopOf_raw fs h : Forall token fs -> hopOf fs = Some h -> rawHop h.
Proof.
  intros H. unfold hopOf. pose proof (parsed_raw fs H) as [A B C].
  destruct (_ && _) eqn:E; [done|]. intros [= <-]. split; [done..|]. simpl.
  apply andb_false_iff in E as [E%bool_decide_eq_false|E%bool_decide_eq_false]; auto.
Qed.

Lemma splitAtNexthop_tokens fs :
  Forall clean fs ->
  exists first chunks, splitAtNexthop fs = first :: chunks /\ Forall token first /\ Forall (Forall token) chunks.
Proof.
  induction 1 as [|f fs [Hf Ht] _ (first & chunks & E & A & B)]; simpl; [by exists [], []|].
  case_bool_decide as Hn; rewrite E; eexists _, _; (split; [reflexivity|]).
  - split; [constructor|]. by constructor.
  - split; [|done]. by constructor.
Qed.

Lemma mergeHop_raw a h : rawAttrs a -> rawAttrs h -> rawAttrs (mergeHop a h).
Proof.
  intros [A B C] [A' B' C']. split; simpl.
  - intros k v. rewrite lookup_union_Some_raw. intros [H|[_ H]]; [by apply A|].
    apply A'. rewrite lookup_delete_Some in H. apply H.
  - intros x. rewrite elem_of_union. intros [H|H]; auto.
  - by apply Forall_app.
Qed.

Record rawFact (f : routeFact) : Prop := {
  rt_via : rawVia (rfVia f); rt_dev : wfDev (rfDev f); rt_attrs : rawAttrs (rfAttrs f);
  rt_hops : Forall rawHop (rfNexthops f)
}.
Definition settled (f : routeFact) : Prop :=
  Sorted hopLe (rfNexthops f) /\
  (forall hop, rfNexthops f = [hop] -> rfVia f <> "" \/ rfDev f <> "").

(** Normalising keeps the parts well formed, and settles the paths. *)
Lemma normalize_raw f :
  rawFact f ->
  rawFact (normalize f) /\ settled (normalize f) /\
  rfKind (normalize f) = rfKind f /\ rfDest (normalize f) = rfDest f.
Proof.
  intros [A B C D]. destruct f as [k d v dev a hops]. simpl in *. unfold normalize. simpl.
  assert (forall h0 h1 l, hops = h0 :: h1 :: l ->
    rawFact (mkFact k d v dev a (merge_sort hopLe hops)) /\ settled (mkFact k d v dev a (merge_sort hopLe hops)))
    as Hmany.
  { intros h0 h1 l E. split; [split; [done..|]; simpl; by rewrite merge_sort_Permutation|].
    split; [apply (Sorted_merge_sort hopLe)|]. simpl. intros hop Hh.
    apply (f_equal length) in Hh. rewrite merge_sort_Permutation, E in Hh. done. }
  destruct hops as [|h [|h' hops]].
  - split; [by split|]. split; [|done]. split; [by constructor|done].
  - inversion D as [|? ? [Ha Hb Hc _] _]; subst. destruct (_ && _) eqn:E.
    + split; [split; [done..|by apply mergeHop_raw|constructor]|]. split; [|done]. by split; [constructor|].
    + split; [by split|]. split; [|done]. split; [by repeat constructor|]. intros hop _. simpl.
      apply andb_false_iff in E as [E%bool_decide_eq_false|E%bool_decide_eq_false]; auto.
  - destruct (Hmany _ _ _ eq_refl) as [X Y]. done.
Qed.

(** What the unambiguous facts add. *)
Lemma clearPath_wf via a :
  rawVia via -> rawAttrs a -> clearPath via a = true -> wfVia via /\ wfAttrs a.
Proof.
  intros Hv [A B C] [[E1%negb_true_iff E2]%andb_prop E3]%andb_prop.
  rewrite forallb_forall in E2. split.
  - destruct Hv as [->|[Ht|H]]; [by left|right; by left|right; by right].
  - split; [|done|done|].
    + intros k v Hk. destruct (A k v Hk) as [H|[_ ->]]; [done|].
      specialize (E2 (k, "lock")). rewrite <- list_elem_of_In, elem_of_map_to_list in E2.
      specialize (E2 Hk). by rewrite bool_decide_true in E2.
    + intros [v Hv']. apply orb_prop in E3 as [E3|E3]; apply bool_decide_eq_true in E3; [|done].
      by rewrite Hv' in E3.
Qed.

Lemma unambiguous_hops f :
  rawFact f -> unambiguous f = true -> Forall wfHop (rfNexthops f).
Proof.
  intros [_ _ _ H] [_ E]%andb_prop. rewrite forallb_forall in E. apply Forall_forall. intros h Hh.
  eapply Forall_forall in H as [A B C D]; [|exact Hh]. apply list_elem_of_In, E in Hh.
  destruct (clearPath_wf _ _ A C Hh). by split.
Qed.

Lemma leadingKind_clean fs kind rest :
  Forall clean fs -> leadingKind fs = (kind, rest) ->
  Forall clean rest /\
  (kind = "" \/ (within routeTypes kind = true /\ kind <> "unicast" /\ clean kind)).
Proof.
  intros H. unfold leadingKind. destruct H as [|f fs Hf Hfs]; [intros [= <- <-]; by split; [|left]|].
  destruct (within routeTypes f) eqn:E; [|intros [= <- <-]; split; [by constructor|by left]].
  case_bool_decide as Hu; intros [= <- <-]; (split; [done|]); [by left|right]. done.
Qed.

Lemma parse_wf line f :
  parseRouteFact line = Some f -> unambiguous f = true -> wfFact f.
Proof.
  unfold parseRouteFact, parseFields. intros Hp Hu.
  destruct (leadingKind (routeFields line)) as [kind fs] eqn:Ek.
  destruct (leadingKind_clean _ _ _ (routeFields_clean line) Ek) as [Hfs Hkind].
  unfold parseKind in Hp. destruct Hfs as [|dest rest Hdest Hrest]; [done|].
  destruct (routeDestination dest) eqn:Ed; [|done]. cbn [negb] in Hp.
  destruct (splitAtNexthop_tokens rest Hrest) as (first & chunks & E & Hfirst & Hchunks).
  rewrite E in Hp. injection Hp as <-.
  set (g := mkFact _ _ _ _ _ _) in Hu |- *.
  assert (rawFact g) as Hg.
  { destruct (parsed_raw first Hfirst) as [A B C]. split; [done..|]. simpl. apply Forall_forall.
    intros h (c & Hc & Hh)%list_elem_of_omap. eapply Forall_forall in Hchunks; [|exact Hc].
    by eapply hopOf_raw. }
  destruct (normalize_raw g Hg) as (Hr & [Hs Hpl] & Hk & Hd).
  destruct (clearPath_wf _ _ (rt_via _ Hr) (rt_attrs _ Hr)) as [Hv Ha]; [by apply andb_prop in Hu as [? _]|].
  split; rewrite ?Hk, ?Hd; try done.
  - apply Hr.
  - by apply unambiguous_hops.
Qed.

(** ** Equal-cost paths are a set *)

(** What is kept of a fact. *)
Definition canonicalFact (f : option routeFact) : string :=
  match f with
  | Some f => if negb (replayable f) || kernelOwned f then "" else factString f
  | None => ""
  end.
Lemma canonicalRoute_fact line : canonicalRoute line = canonicalFact (parseRouteFact line).
Proof. unfold canonicalRoute, portableRoute. destruct (parseRouteFact line) as [f|]; simpl; [|done]. by destruct (_ || _). Qed.

Lemma normalize_permuted kind dest via dev a hops hops' :
  hops ≡ₚ hops' ->
  canonicalFact (Some (normalize (mkFact kind dest via dev a hops))) =
  canonicalFact (Some (normalize (mkFact kind dest via dev a hops'))).
Proof.
  intros H. assert (length hops = length hops') as Hl by (by rewrite H).
  destruct hops as [|h [|h1 hops]], hops' as [|h' [|h1' hops']]; try done.
  - by apply Permutation_singleton_inj in H as ->.
  - pose proof (sorted_strings _ _ H) as Hs. unfold normalize. cbn [rfNexthops rfKind rfDest rfVia rfDev rfAttrs].
    assert (length (merge_sort hopLe (h :: h1 :: hops)) = length (merge_sort hopLe (h' :: h1' :: hops'))) as Hl'.
    { by rewrite !merge_sort_Permutation. }
    unfold canonicalFact, replayable, kernelOwned, factString.
    cbn [rfNexthops rfKind rfDest rfVia rfDev rfAttrs]. by rewrite Hs, Hl'.
Qed.

Definition pathFields (chunks : list (list string)) : list string := chunks ≫= cons "nexthop".

Lemma splitAtNexthop_paths a chunks :
  Forall token a -> Forall (Forall token) chunks -> splitAtNexthop (a ++ pathFields chunks) = a :: chunks.
Proof.
  intros Ha Hc. rewrite (splitAtNexthop_app a) by done.
  assert (splitAtNexthop (pathFields chunks) = [] :: chunks) as ->.
  { clear a Ha. induction Hc as [|c chunks Hc _ IH]; [done|].
    change (pathFields (c :: chunks)) with ("nexthop" :: c ++ pathFields chunks). simpl.
    rewrite splitAtNexthop_app, IH by done. by rewrite app_nil_r. }
  by rewrite app_nil_r.
Qed.

Lemma nexthop_is_no_destination : routeDestination "nexthop" = false.
Proof. by vm_compute. Qed.

Lemma parseKind_permuted kind fs chunks chunks' :
  Forall token fs -> Forall (Forall token) chunks -> chunks ≡ₚ chunks' ->
  canonicalFact (parseKind kind (fs ++ pathFields chunks)) =
  canonicalFact (parseKind kind (fs ++ pathFields chunks')).
Proof.
  intros Hfs Hc Hp. destruct Hfs as [|dest fs _ Hfs]; simpl app.
  - assert (forall cs, parseKind kind (pathFields cs) = None) as Hn; [|by rewrite !Hn].
    intros [|c cs]; [done|]. change (pathFields (c :: cs)) with ("nexthop" :: c ++ pathFields cs).
    unfold parseKind. by rewrite nexthop_is_no_destination.
  - unfold parseKind. destruct (routeDestination dest); [|done]. cbn [negb].
    rewrite !splitAtNexthop_paths; [|done|by rewrite <- Hp|done|done].
    apply normalize_permuted. by rewrite Hp.
Qed.

Lemma leadingKind_paths fs chunks :
  leadingKind (fs ++ pathFields chunks) = ((leadingKind fs).1, (leadingKind fs).2 ++ pathFields chunks).
Proof.
  destruct fs as [|f fs]; simpl app; [by destruct chunks|].
  cbn [leadingKind]. by destruct (within routeTypes f).
Qed.
Lemma leadingKind_tokens fs : Forall token fs -> Forall token (leadingKind fs).2.
Proof. destruct 1 as [|f fs Hf Hfs]; [constructor|]. cbn [leadingKind]. destruct (within routeTypes f); [done|]. by constructor. Qed.

Lemma pathFields_clean chunks : Forall (Forall token) chunks -> Forall clean (pathFields chunks).
Proof.
  induction 1 as [|c chunks Hc _ IH]; [constructor|].
  change (Forall clean ("nexthop" :: c ++ pathFields chunks)).
  constructor; [by repeat constructor|]. apply Forall_app. split; [by apply token_clean|done].
Qed.

(** ** Claims *)

(** C15. Routes survive the journey: a route as the kernel prints it, once parsed
    into a fact whose spelling is not ambiguous, is printed as a text that
    parses to that very fact, so writing a captured route into a replay and
    reading it again neither loses nor adds anything, and putting a route in
    canonical form twice is putting it in canonical form once. *)
Theorem route_reads_back line f :
  parseRouteFact line = Some f -> unambiguous f = true ->
  parseRouteFact (factString f) = Some f /\
  canonicalRoute (factString f) = canonicalRoute line.
Proof.
  intros Hp Hu. pose proof (fact_read f (parse_wf line f Hp Hu)) as H. split; [done|].
  unfold canonicalRoute, portableRoute. by rewrite H, Hp.
Qed.

Lemma route_reads_back_witness :
  exists f, parseRouteFact ("10.2.0.0/16 nhid 31 proto bgp metric 20 \ nexthop via 10.0.9.2 dev eth1 weight 1 "
      +:+ "linkdown \ nexthop via 10.0.1.2 dev eth0 encap mpls 100/200 mtu lock 1400 weight 1") = Some f /\
    length (rfNexthops f) = 2%nat /\ parseRouteFact (factString f) = Some f.
Proof.
  eexists. split; [vm_compute; reflexivity|]. split; [vm_compute; reflexivity|].
  refine (proj1 (route_reads_back ("10.2.0.0/16 nhid 31 proto bgp metric 20 \ nexthop via 10.0.9.2 dev eth1 weight 1 "
      +:+ "linkdown \ nexthop via 10.0.1.2 dev eth0 encap mpls 100/200 mtu lock 1400 weight 1") _ _ _));
    vm_compute; reflexivity.
Defined.

(** The ambiguous spellings: an unknown field beside an encapsulation is read
    back as part of it. *)
Example encap_swallows_unknown :
  let entry := "10.0.0.0/8 dev eth0 fresh encap mpls 100" in
  canonicalRoute entry = "10.0.0.0/8 dev eth0 encap mpls 100 fresh" /\
  (parseRouteFact entry ≫= fun f => raKeyed (rfAttrs f) !! "encap") = Some "mpls 100" /\
  (parseRouteFact (canonicalRoute entry) ≫= fun f => raKeyed (rfAttrs f) !! "encap") = Some "mpls 100 fresh".
Proof. vm_compute. auto. Qed.

(** Equal-cost paths are a set: a multipath route printed with its paths in
    another order, which a routing daemon does not repeat across a restart, has
    the same canonical form. The fields of the route and of each path may be
    any, unknown ones included. *)
Theorem multipath_order_is_irrelevant fs chunks chunks' :
  Forall token fs -> Forall (Forall token) chunks -> chunks ≡ₚ chunks' ->
  canonicalRoute (join " " (fs ++ pathFields chunks)) =
  canonicalRoute (join " " (fs ++ pathFields chunks')).
Proof.
  intros Hfs Hc Hp. rewrite !canonicalRoute_fact. unfold parseRouteFact.
  rewrite !routeFields_join.
  - unfold parseFields. rewrite !leadingKind_paths. apply parseKind_permuted; [|done..].
    by apply leadingKind_tokens.
  - apply Forall_app. split; [by apply token_clean|]. apply pathFields_clean. by rewrite <- Hp.
  - apply Forall_app. split; [by apply token_clean|by apply pathFields_clean].
Qed.

Lemma multipath_order_is_irrelevant_witness :
  canonicalRoute "10.2.0.0/16 metric 20 nexthop via 10.0.9.2 dev eth1 nexthop via 10.0.1.2 dev eth0 nhid 4" =
  canonicalRoute "10.2.0.0/16 metric 20 nexthop via 10.0.1.2 dev eth0 nhid 4 nexthop via 10.0.9.2 dev eth1".
Proof.
  apply (multipath_order_is_irrelevant ["10.2.0.0/16"; "metric"; "20"]
    [["via"; "10.0.9.2"; "dev"; "eth1"]; ["via"; "10.0.1.2"; "dev"; "eth0"; "nhid"; "4"]]
    [["via"; "10.0.1.2"; "dev"; "eth0"; "nhid"; "4"]; ["via"; "10.0.9.2"; "dev"; "eth1"]]);
    [keyword|keyword|apply Permutation_swap].
Defined.
