(* ===== verification/Canonical.v ===== *)
(** * Dynamic state in canonical form

    Models the typed representation of captured addresses, tunnels and switch
    ports of [deploy/preserve.go]: [CanonicalDynamicSnapshot] with its readers
    of [ip] and [ovs-vsctl] output, and the replays that turn a snapshot back
    into commands. A Go set of lines is the list of what is put in it, which
    [canonicalLines] deduplicates and sorts. *)

From stdpp Require Import base gmap strings list fin_maps sorting.
From Stdlib Require Import ZArith Lia Ascii.
From S2P Require Import Prelude Text Route.

Local Open Scope string_scope.
Local Open Scope list_scope.
Local Open Scope Z_scope.

(** ** Kinds ([state.Kind], [state.AllKinds]) *)

Definition KindFRR : string := "frr".
Definition KindBIRD : string := "bird".
Definition KindAddrs : string := "addrs".
Definition KindOVS : string := "ovs".
Definition KindTunnels : string := "tunnels".
Definition AllKinds : list string := [KindFRR; KindBIRD; KindAddrs; KindOVS; KindTunnels].

Definition dynamicStateVersion : string := "twinet-state/v2".

(** ** The text of a set of facts *)

Definition factSet (facts : list string) : gset string := list_to_set facts.
Definition header (kind : string) : string := dynamicStateVersion +:+ " " +:+ kind.
Definition canonicalLines (kind : string) (facts : list string) : string :=
  let ls := sortStrings (elements (factSet facts)) in
  header kind +:+ String newline ""
  +:+ (if bool_decide (ls = []) then "" else joinLines ls +:+ String newline "").

(** ** Addresses, routes and links *)

Definition dynamicKernelAddress (address : string) : bool :=
  let h := (cut "/" address).1 in
  hasPrefix h "127." || bool_decide (h = "::1") || hasPrefix (toLower h) "fe80:".

(** [addCanonicalAddresses]: a family with the address after it. *)
Fixpoint addressPairs (iface : string) (fs : list string) : list string :=
  match fs with
  | family :: ((address :: _) as rest) =>
      (if within ["inet"; "inet6"] family && negb (dynamicKernelAddress address)
       then ["addr " +:+ family +:+ " " +:+ iface +:+ " " +:+ address] else [])
      ++ addressPairs iface rest
  | _ => []
  end.
Definition addressLine (line : string) : list string :=
  match fields (trimSpace line) with
  | _ :: name :: ((_ :: _ :: _) as rest) => addressPairs (cut "@" (trimSuffix ":" name)).1 rest
  | _ => []
  end.

Definition routeLine (family entry : string) : list string :=
  let route := canonicalRoute entry in
  if bool_decide (route = "") then [] else ["route " +:+ family +:+ " " +:+ route].
Definition addCanonicalRoutes (family body : string) : list string :=
  routeEntries body ≫= routeLine family.

Definition linkNameAndParent (field : string) : string * string :=
  let '(name, p) := cut "@" (trimSuffix ":" field) in
  let parent := default "" p in
  if bool_decide (parent = "") || bool_decide (parent = "NONE") then (name, "") else
  let rest := trimPrefix "if" parent in
  if negb (bool_decide (rest = parent)) && bool_decide (is_Some (atoi rest)) then (name, "")
  else (name, parent).

(** The field after the first [key] that has one. *)
Fixpoint keyValue (key : string) (fs : list string) : string :=
  match fs with
  | f :: ((v :: _) as rest) => if bool_decide (f = key) then v else keyValue key rest
  | _ => ""
  end.
Fixpoint valueAfter (fs : list string) (anchor key : string) : string :=
  match fs with
  | [] => ""
  | f :: rest => if bool_decide (f = anchor) then keyValue key rest else valueAfter rest anchor key
  end.
Definition fieldAfter (line key : string) : string := keyValue key (fields line).

(** [addCanonicalVLANLinks] and [addCanonicalVRFLinks]. *)
Definition vlanLine (line : string) : list string :=
  match routeFields line with
  | (_ :: f :: _) as fs =>
      let '(name, parent) := linkNameAndParent f in
      let id := valueAfter fs "vlan" "id" in
      if bool_decide (name = "") || bool_decide (parent = "") || bool_decide (id = "") then []
      else ["link vlan " +:+ name +:+ " " +:+ parent +:+ " " +:+ id]
  | _ => []
  end.
Definition vrfLine (line : string) : list string :=
  match routeFields line with
  | (_ :: f :: _) as fs =>
      let name := (linkNameAndParent f).1 in
      let table := valueAfter fs "vrf" "table" in
      if bool_decide (name = "") || bool_decide (table = "") then []
      else ["link vrf " +:+ name +:+ " " +:+ table]
  | _ => []
  end.

(** The sections between the lines of dashes; never empty. *)
Fixpoint sections (ls : list string) : list (list string) :=
  match ls with
  | [] => [[]]
  | l :: rest =>
      if bool_decide (trimSpace l = "---") then [] :: sections rest
      else match sections rest with
           | [] => [[l]]
           | s :: more => (l :: s) :: more
           end
  end.
Definition sectionFacts (index : nat) (ls : list string) : list string :=
  match index with
  | 0 => ls ≫= addressLine
  | 1 => addCanonicalRoutes "inet" (joinLines ls)
  | 2 => addCanonicalRoutes "inet6" (joinLines ls)
  | 3 => ls ≫= vlanLine
  | 4 => ls ≫= vrfLine
  | _ => []
  end%nat.
Definition canonicalAddresses (raw : string) : string :=
  canonicalLines "addrs" (concat (imap sectionFacts (sections (lines raw)))).

(** ** Tunnels *)

Definition kernelTunnels : list string :=
  ["sit0"; "tunl0"; "ipip0"; "gre0"; "gretap0"; "erspan0"; "ip6tnl0"; "ip6gre0"; "ip6gretap0";
   "ip_vti0"; "ip6_vti0"].
Definition noEndpoint (x : string) : bool := within [""; "any"; "0.0.0.0"; "::"] x.
Definition kernelDefaultTunnel (name remote local : string) : bool :=
  within kernelTunnels (cut "@" (toLower name)).1 || noEndpoint remote || noEndpoint local.

Definition tunnelEntry (entry : string) : list string :=
  if contains "remote " entry && contains "local " entry then
    match fields entry with
    | [] => []
    | f :: _ =>
        let name := (cut "@" (trimSuffix ":" f)).1 in
        let remote := fieldAfter entry "remote" in
        let local := fieldAfter entry "local" in
        if negb (bool_decide (name = "")) && negb (bool_decide (remote = ""))
           && negb (bool_decide (local = "")) && negb (kernelDefaultTunnel name remote local)
        then ["tunnel " +:+ name +:+ " " +:+ remote +:+ " " +:+ local] else []
    end
  else routeLine "inet6" entry.
Definition canonicalTunnels (raw : string) : string :=
  canonicalLines "tunnels" (routeEntries raw ≫= tunnelEntry).

(** ** Switch ports *)

Definition isBracket (c : ascii) : bool := bool_decide (c = "["%char) || bool_decide (c = "]"%char).
Definition canonicalVLANList (raw : string) : string :=
  let raw := trimBy isBracket raw in
  if bool_decide (raw = "") then ""
  else join "," (sortStrings (map trimSpace (split "," raw))).

Record vlanState := mkVlan { vsTag : string; vsTrunks : string; vsMode : string }.
Definition portField (v : vlanState) (field : string) : vlanState :=
  if hasPrefix field "tag=" then
    mkVlan (trimBy isBracket (trimPrefix "tag=" field)) (vsTrunks v) (vsMode v)
  else if hasPrefix field "trunks=" then
    mkVlan (vsTag v) (canonicalVLANList (trimPrefix "trunks=" field)) (vsMode v)
  else if hasPrefix field "mode=" then
    mkVlan (vsTag v) (vsTrunks v) (trimBy isBracket (trimPrefix "mode=" field))
  else v.
Definition portLine (line : string) : list string :=
  match fields (trimSpace line) with
  | f :: port :: rest =>
      if bool_decide (f = "port") then
        let v := fold_left portField rest (mkVlan "" "" "") in
        if negb (bool_decide (vsTag v = "")) || negb (bool_decide (vsTrunks v = ""))
           || negb (bool_decide (vsMode v = ""))
        then ["port " +:+ port +:+ " tag=" +:+ vsTag v +:+ " trunks=" +:+ vsTrunks v
              +:+ " mode=" +:+ vsMode v]
        else []
      else []
  | _ => []
  end.
Definition canonicalOVS (raw : string) : string :=
  canonicalLines "ovs" (lines raw ≫= portLine).

(** ** Snapshots already in canonical form *)

Definition normalLine (kind line : string) : list string :=
  if bool_decide (kind = KindOVS) then portLine line else
  match fields line with
  | [] => []
  | fs =>
      let other :=
        match fs with
        | [f; name; remote; local] =>
            if bool_decide (kind = KindTunnels) && bool_decide (f = "tunnel")
               && kernelDefaultTunnel name remote local then [] else [join " " fs]
        | _ => [join " " fs]
        end in
      match fs with
      | f :: family :: ((_ :: _) as rest) =>
          if bool_decide (f = "route") && within ["inet"; "inet6"] family
          then routeLine family (join " " rest) else other
      | _ => other
      end
  end.
Definition normalizedCanonicalDynamic (kind raw : string) : option string :=
  match lines (trimSpace raw) with
  | first :: rest =>
      if bool_decide (trimSpace first = header kind)
      then Some (canonicalLines kind (rest ≫= normalLine kind)) else None
  | [] => None
  end.

Definition CanonicalDynamicSnapshot (kind raw : string) : string :=
  match normalizedCanonicalDynamic kind raw with
  | Some canonical => canonical
  | None =>
      if bool_decide (kind = KindAddrs) then canonicalAddresses raw
      else if bool_decide (kind = KindTunnels) then canonicalTunnels raw
      else if bool_decide (kind = KindOVS) then canonicalOVS raw
      else trimSpace raw
  end.

(** ** Replays *)

(** [strings.Split(body, "\n")[1:]]. *)
Definition bodyLines (body : string) : list string := tail (lines body).

Definition familyFlag (family : string) : string :=
  if bool_decide (family = "inet6") then "-6 " else "".

Definition linkObjectReplay (fs : list string) : list string :=
  match fs with
  | [_; kind; name; parent; id] =>
      if bool_decide (kind = "vlan")
      then ["if ! ip link show " +:+ name +:+ " >/dev/null 2>&1; then ip link add link " +:+ parent
            +:+ " name " +:+ name +:+ " type vlan id " +:+ id +:+ "; fi; ip link set " +:+ name +:+ " up"]
      else []
  | [_; kind; name; table] =>
      if bool_decide (kind = "vrf")
      then ["if ! ip link show " +:+ name +:+ " >/dev/null 2>&1; then ip link add " +:+ name
            +:+ " type vrf table " +:+ table +:+ "; fi; ip link set " +:+ name +:+ " up"]
      else []
  | _ => []
  end.

(** What one line of a snapshot asks for. *)
Inductive ReplayStep :=
| StepLink (cmds : list string)
| StepAddr (cmd : string)
| StepRoute (rank : nat) (cmd : string).

Definition routeStep (flag : string) (fs : list string) : option ReplayStep :=
  f ← portableRoute (join " " fs);
  Some (StepRoute (replayRank f) ("ip " +:+ flag +:+ "route replace " +:+ factString f)).
Definition addrStep (line : string) : option ReplayStep :=
  match fields line with
  | f :: rest =>
      if bool_decide (f = "link") then Some (StepLink (linkObjectReplay (f :: rest)))
      else if bool_decide (f = "addr") then
        match rest with
        | [family; iface; address] =>
            Some (StepAddr ("ip " +:+ familyFlag family +:+ "addr replace " +:+ address +:+ " dev " +:+ iface))
        | _ => None
        end
      else if bool_decide (f = "route") then
        match rest with
        | family :: ((_ :: _) as fs) => routeStep (familyFlag family) fs
        | _ => None
        end
      else None
  | [] => None
  end.

Definition stepLinks (s : ReplayStep) : list string := match s with StepLink cmds => cmds | _ => [] end.
Definition stepAddr (s : ReplayStep) : list string := match s with StepAddr cmd => [cmd] | _ => [] end.
Definition stepRoute (rank : nat) (s : ReplayStep) : list string :=
  match s with
  | StepRoute r cmd => if bool_decide (r = rank) then [cmd] else []
  | _ => []
  end.
Definition routesByRank (steps : list ReplayStep) : list string :=
  (steps ≫= stepRoute 0) ++ (steps ≫= stepRoute 1) ++ (steps ≫= stepRoute 2).
Definition canonicalAddrReplay (body : string) : list string :=
  let steps := omap addrStep (bodyLines body) in
  (steps ≫= stepLinks) ++ (steps ≫= stepAddr) ++ routesByRank steps.
Definition addrReplay (body : string) : list string :=
  canonicalAddrReplay (CanonicalDynamicSnapshot KindAddrs body).

Definition tunnelObject (line : string) : list string :=
  match fields line with
  | [f; name; remote; local] =>
      if negb (bool_decide (f = "tunnel")) || kernelDefaultTunnel name remote local then []
      else ["if ip link show " +:+ name +:+ " >/dev/null 2>&1; then ip tunnel del " +:+ name
            +:+ "; fi; ip tunnel add " +:+ name +:+ " mode sit remote " +:+ remote +:+ " local " +:+ local
            +:+ " ttl 64";
            "ip link set " +:+ name +:+ " up"]
  | _ => []
  end.
Definition canonicalTunnelObjectReplay (body : string) : list string := bodyLines body ≫= tunnelObject.
Definition tunnelRoute (line : string) : option ReplayStep :=
  match fields line with
  | f :: family :: ((_ :: _) as fs) =>
      if bool_decide (f = "route") && bool_decide (family = "inet6") then routeStep "-6 " fs else None
  | _ => None
  end.
Definition canonicalTunnelRouteReplay (body : string) : list string :=
  routesByRank (omap tunnelRoute (bodyLines body)).
Definition tunnelObjectReplay (body : string) : list string :=
  canonicalTunnelObjectReplay (CanonicalDynamicSnapshot KindTunnels body).
Definition tunnelRouteReplay (body : string) : list string :=
  canonicalTunnelRouteReplay (CanonicalDynamicSnapshot KindTunnels body).
Definition tunnelReplay (body : string) : list string :=
  tunnelObjectReplay body ++ tunnelRouteReplay body.

Definition ovsField (v : vlanState) (field : string) : vlanState :=
  if hasPrefix field "tag=" then mkVlan (trimPrefix "tag=" field) (vsTrunks v) (vsMode v)
  else if hasPrefix field "trunks=" then mkVlan (vsTag v) (trimPrefix "trunks=" field) (vsMode v)
  else if hasPrefix field "mode=" then mkVlan (vsTag v) (vsTrunks v) (trimPrefix "mode=" field)
  else v.
Definition ovsLine (line : string) : list string :=
  match fields (trimSpace line) with
  | f :: port :: rest =>
      if negb (bool_decide (f = "port")) then [] else
      let v := fold_left ovsField rest (mkVlan "" "" "") in
      let set key value := "ovs-vsctl set port " +:+ port +:+ " " +:+ key +:+ "=" +:+ value in
      (if bool_decide (vsTag v = "") || bool_decide (vsTag v = "[]") then [] else [set "tag" (vsTag v)])
      ++ (if bool_decide (vsTrunks v = "") then [] else [set "trunks" (vsTrunks v)])
      ++ (if bool_decide (vsMode v = "") then [] else [set "vlan_mode" (vsMode v)])
  | _ => []
  end.
Definition ovsReplay (body : string) : list string :=
  lines (CanonicalDynamicSnapshot KindOVS body) ≫= ovsLine.

(** A router's capture: what is kept, and what a replay of it types. *)
Definition capture_example : string := joinLines
  ["7: eth0@if8    inet 10.0.1.2/24 brd 10.0.1.255 scope global eth0";
   "7: eth0@if8    inet6 fe80::1/64 scope link"; "---";
   "default via 10.0.1.1 dev eth0"; "10.3.0.0/16 nhid 7 proto ospf \";
   " nexthop via 10.0.1.9 dev eth0 weight 1 "; " nexthop via 10.0.1.3 dev eth0 weight 1"; "---";
   "fe80::/64 dev eth0 proto kernel metric 256"; "---";
   "9: eth0.20@eth0: <UP> mtu 1500 \    vlan protocol 802.1Q id 20 <REORDER_HDR>"; "---";
   "12: red: <UP> \    vrf table 100"].

Example canonicalAddresses_example :
  lines (CanonicalDynamicSnapshot KindAddrs capture_example) =
    ["twinet-state/v2 addrs"; "addr inet eth0 10.0.1.2/24"; "link vlan eth0.20 eth0 20"; "link vrf red 100";
     "route inet 10.3.0.0/16 nexthop via 10.0.1.3 dev eth0 weight 1 nexthop via 10.0.1.9 dev eth0 weight 1";
     "route inet default via 10.0.1.1 dev eth0"; ""] /\
  addrReplay capture_example =
    ["if ! ip link show eth0.20 >/dev/null 2>&1; then ip link add link eth0 name eth0.20 type vlan id 20; fi; "
       +:+ "ip link set eth0.20 up";
     "if ! ip link show red >/dev/null 2>&1; then ip link add red type vrf table 100; fi; ip link set red up";
     "ip addr replace 10.0.1.2/24 dev eth0";
     "ip route replace 10.3.0.0/16 nexthop via 10.0.1.3 dev eth0 weight 1 nexthop via 10.0.1.9 dev eth0 weight 1";
     "ip route replace default via 10.0.1.1 dev eth0"].
Proof. vm_compute. auto. Qed.

Example canonicalOVS_example :
  CanonicalDynamicSnapshot KindOVS (joinLines ["port p1 tag=10 trunks=[] mode=[]"; "port p0";
     "port p2 tag=[] trunks=[20,10] mode=trunk"]) =
  joinLines ["twinet-state/v2 ovs"; "port p1 tag=10 trunks= mode=";
     "port p2 tag= trunks=10,20 mode=trunk"; ""].
Proof. vm_compute. auto. Qed.

(** ** Reading a canonical text *)

(** A line of fields with single spaces between them. *)
Definition fieldsLine (l : string) : Prop :=
  exists ts, ts <> [] /\ Forall isField ts /\ l = join " " ts.

Lemma fieldsLine_trimmed l : fieldsLine l -> trimmed l.
Proof.
  intros (ts & Hn & Hf & ->). apply trimmed_join; [done|]. eapply Forall_impl; [exact Hf|]. apply field_trimmed.
Qed.
Lemma fieldsLine_newline l : fieldsLine l -> occurs newline l = false.
Proof.
  intros (ts & _ & Hf & ->). apply occurs_join; [done|]. eapply Forall_impl; [exact Hf|].
  intros t [_ Ht]. by apply spaceless_occurs.
Qed.

Lemma header_line kind : isField kind -> fieldsLine (header kind).
Proof. intros H. exists [dynamicStateVersion; kind]. split; [done|]. split; [|done].
  constructor; [by repeat constructor|]. by each. Qed.

Definition factLines (facts : list string) : list string := sortStrings (elements (factSet facts)).
Lemma elem_of_factLines facts l : l ∈ factLines facts <-> l ∈ facts.
Proof. unfold factLines, factSet. by rewrite elem_of_sortStrings, elem_of_elements, elem_of_list_to_set. Qed.

Lemma canonicalLines_join kind facts :
  canonicalLines kind facts = joinLines (header kind :: factLines facts) +:+ String newline "".
Proof.
  unfold canonicalLines. fold (factLines facts). destruct (factLines facts) as [|l ls]; [done|].
  rewrite bool_decide_false by done. unfold joinLines. cbn [join].
  by rewrite !append_assoc.
Qed.

(** A canonical text is read line by line. *)
Lemma canonicalLines_read kind facts :
  isField kind -> Forall fieldsLine facts ->
  normalizedCanonicalDynamic kind (canonicalLines kind facts) =
    Some (canonicalLines kind (factLines facts ≫= normalLine kind)).
Proof.
  intros Hk Hf. pose proof (header_line kind Hk) as Hh.
  assert (Forall fieldsLine (header kind :: factLines facts)) as Hall.
  { constructor; [done|]. apply Forall_forall. intros l. rewrite elem_of_factLines. intros Hl.
    by apply (proj1 (Forall_forall _ _) Hf). }
  unfold normalizedCanonicalDynamic. rewrite canonicalLines_join, trimSpace_newline.
  - unfold lines, joinLines. rewrite split_join; [|done|].
    + rewrite trimSpace_trimmed by (by apply fieldsLine_trimmed). by rewrite bool_decide_true.
    + eapply Forall_impl; [exact Hall|]. apply fieldsLine_newline.
  - apply trimmed_join; [done|]. eapply Forall_impl; [exact Hall|]. apply fieldsLine_trimmed.
Qed.

(** A fact that is read back as itself. *)
Definition settledFact (kind l : string) : Prop := fieldsLine l /\ normalLine kind l = [l].

Lemma bind_single {A} (f : A -> list A) l : Forall (fun x => f x = [x]) l -> l ≫= f = l.
Proof. induction 1 as [|x l Hx _ IH]; [done|]. change (f x ++ (l ≫= f) = x :: l). by rewrite Hx, IH. Qed.

Lemma canonicalLines_stable kind facts :
  isField kind -> Forall (settledFact kind) facts ->
  CanonicalDynamicSnapshot kind (canonicalLines kind facts) = canonicalLines kind facts.
Proof.
  intros Hk Hf. unfold CanonicalDynamicSnapshot. rewrite canonicalLines_read; [|done|].
  - rewrite bind_single.
    + unfold canonicalLines. replace (factSet (factLines facts)) with (factSet facts); [done|].
      apply set_eq. intros l. unfold factSet. by rewrite !elem_of_list_to_set, elem_of_factLines.
    + apply Forall_forall. intros l. rewrite elem_of_factLines. intros Hl. by apply (proj1 (Forall_forall _ _) Hf).
  - eapply Forall_impl; [exact Hf|]. by intros l [? _].
Qed.

(** ** The facts the readers give *)

(** An entry that is not a route, or one whose spelling is unambiguous. *)
Definition clearEntry (entry : string) : bool :=
  match parseRouteFact entry with Some f => unambiguous f | None => true end.

Lemma clean_fields ts : Forall clean ts -> Forall isField ts.
Proof. intros H. eapply Forall_impl; [exact H|]. by intros t [? _]. Qed.

Lemma join_cons2 a b ts : ts <> [] -> a +:+ " " +:+ b +:+ " " +:+ join " " ts = join " " (a :: b :: ts).
Proof. by destruct ts. Qed.

Lemma routeLine_settled kind family entry :
  kind <> KindOVS -> within ["inet"; "inet6"] family = true -> clearEntry entry = true ->
  Forall (settledFact kind) (routeLine family entry).
Proof.
  intros Hk Hfam Hc. unfold routeLine. case_bool_decide as Hr; [constructor|]. constructor; [|constructor].
  unfold clearEntry in Hc. destruct (parseRouteFact entry) as [f|] eqn:Hp.
  2: { unfold canonicalRoute, portableRoute in Hr. by rewrite Hp in Hr. }
  pose proof (parse_wf entry f Hp Hc) as Hwf. pose proof (fact_read f Hwf) as Hread.
  assert (canonicalRoute entry = factString f) as He.
  { unfold canonicalRoute, portableRoute in Hr |- *. rewrite Hp in Hr |- *. simpl in Hr |- *. by destruct (_ || _). }
  assert (canonicalRoute (factString f) = factString f) as Hs.
  { rewrite <- He at 2. unfold canonicalRoute, portableRoute. by rewrite Hread, Hp. }
  rewrite He. assert (factTokens f <> []) as Hne by (unfold factTokens; by destruct (bool_decide _)).
  assert (Forall isField ("route" :: family :: factTokens f)) as Hfs.
  { constructor; [by repeat constructor|]. constructor; [|by apply clean_fields, factTokens_clean].
    apply bool_decide_eq_true in Hfam. apply elem_of_cons in Hfam as [->|Hfam]; [by repeat constructor|].
    apply list_elem_of_singleton in Hfam as ->. by repeat constructor. }
  assert ("route " +:+ family +:+ " " +:+ factString f = join " " ("route" :: family :: factTokens f)) as El.
  { rewrite fact_prints by done. by rewrite <- join_cons2. }
  rewrite El. split; [by exists ("route" :: family :: factTokens f)|].
  unfold normalLine. rewrite (bool_decide_false (kind = KindOVS)), fields_join by done.
  destruct (factTokens f) as [|t ts] eqn:Et; [done|]. rewrite bool_decide_true, Hfam by done. simpl andb. cbv iota.
  unfold routeLine. rewrite <- Et, <- fact_prints, Hs by done. rewrite bool_decide_false by congruence.
  rewrite Et, <- join_cons2, <- Et, <- fact_prints by done. done.
Qed.

(** A fact that is neither a route nor a tunnel, or a tunnel of the student's. *)
Lemma other_settled kind ts :
  kind <> KindOVS -> Forall isField ts -> ts <> [] -> head ts <> Some "route" ->
  (kind <> KindTunnels \/ (forall a b c, ts = ["tunnel"; a; b; c] -> kernelDefaultTunnel a b c = false)) ->
  settledFact kind (join " " ts).
Proof.
  intros Hk Hf Hn Hr Ht. split; [by exists ts|]. unfold normalLine.
  rewrite (bool_decide_false (kind = KindOVS)), fields_join by done.
  assert (forall f a b c, ts = [f; a; b; c] ->
    bool_decide (kind = KindTunnels) && bool_decide (f = "tunnel") && kernelDefaultTunnel a b c = false) as Hd.
  { intros f a b c ->. case_bool_decide as E1; [|done]. case_bool_decide as E2; [|done]. subst.
    destruct Ht as [Ht|Ht]; [done|]. by apply Ht. }
  destruct ts as [|f [|a [|b rest]]]; [done..|].
  rewrite (bool_decide_false (f = "route")) by (intros ->; by apply Hr). cbn [andb].
  destruct rest as [|c [|d rest]]; [done| |done]. by rewrite Hd.
Qed.

Lemma isField_intro s : s <> "" -> spaceless s = true -> isField s.
Proof. by split. Qed.

(** A name with its address as [ip] prints them. *)
Definition namedLine (line : string) : bool :=
  match fields (trimSpace line) with
  | _ :: name :: _ => negb (bool_decide ((cut "@" (trimSuffix ":" name)).1 = ""))
  | _ => true
  end.

Lemma addressPairs_settled iface fs :
  isField iface -> Forall isField fs -> Forall (settledFact KindAddrs) (addressPairs iface fs).
Proof.
  intros Hi. induction 1 as [|family rest Hfam Hrest IH]; [constructor|].
  destruct Hrest as [|address rest Ha Hrest]; [constructor|].
  cbn [addressPairs]. apply Forall_app. split; [|exact IH].
  destruct (within _ family && _); [|constructor]. constructor; [|constructor].
  apply (other_settled KindAddrs ["addr"; family; iface; address]); [done| |done..|by left].
  constructor; [by repeat constructor|]. by each.
Qed.
Lemma name_spaceless name : isField name -> spaceless (cut "@" (trimSuffix ":" name)).1 = true.
Proof. intros [_ H]. by apply spaceless_cut, spaceless_trimSuffix. Qed.
Lemma addressLine_settled line :
  namedLine line = true -> Forall (settledFact KindAddrs) (addressLine line).
Proof.
  unfold namedLine, addressLine. pose proof (fields_are_fields (trimSpace line)) as H.
  destruct (fields (trimSpace line)) as [|x [|name [|y [|z rest]]]]; try (intros _; by constructor).
  intros Hn%negb_true_iff%bool_decide_eq_false. apply Forall_cons in H as [_ H]. apply Forall_cons in H as [Hname H].
  apply addressPairs_settled; [|done]. apply isField_intro; [done|]. by apply name_spaceless.
Qed.

Lemma keyValue_spaceless key fs : Forall isField fs -> spaceless (keyValue key fs) = true.
Proof.
  induction 1 as [|f fs Hf Hfs IH]; [done|]. cbn [keyValue]. destruct Hfs as [|v rest [_ Hv] _]; [done|].
  by case_bool_decide.
Qed.
Lemma valueAfter_spaceless fs anchor key : Forall isField fs -> spaceless (valueAfter fs anchor key) = true.
Proof.
  induction 1 as [|f fs Hf Hfs IH]; [done|]. cbn [valueAfter]. case_bool_decide; [|done].
  by apply keyValue_spaceless.
Qed.
Lemma linkNameAndParent_spaceless f :
  isField f -> spaceless (linkNameAndParent f).1 = true /\ spaceless (linkNameAndParent f).2 = true.
Proof.
  intros [_ Hf]. pose proof (spaceless_trimSuffix ":" f Hf) as H. unfold linkNameAndParent.
  pose proof (spaceless_cut "@" _ H) as H1. pose proof (fun t => spaceless_cut_after "@" _ t H) as H2.
  destruct (cut "@" (trimSuffix ":" f)) as [name p]. simpl in *.
  destruct (_ || _); [done|]. destruct (_ && _); [done|]. split; [done|].
  destruct p as [p|]; [by apply H2|done].
Qed.

Lemma vlanLine_form line l : l ∈ vlanLine line ->
  exists name parent id, Forall isField ["link"; "vlan"; name; parent; id] /\
    l = join " " ["link"; "vlan"; name; parent; id].
Proof.
  unfold vlanLine. pose proof (clean_fields _ (routeFields_clean line)) as H.
  destruct (routeFields line) as [|x [|f rest]]; [by intros ?%not_elem_of_nil..|].
  assert (isField f) as Hf by (by do 2 apply Forall_cons in H as [? H]).
  destruct (linkNameAndParent_spaceless f Hf) as [A B]. destruct (linkNameAndParent f) as [name parent].
  pose proof (valueAfter_spaceless _ "vlan" "id" H) as C. set (id := valueAfter _ _ _) in *.
  destruct (_ || _) eqn:E; [by intros ?%not_elem_of_nil|]. intros ->%list_elem_of_singleton.
  apply orb_false_iff in E as [E E3%bool_decide_eq_false].
  apply orb_false_iff in E as [E1%bool_decide_eq_false E2%bool_decide_eq_false].
  exists name, parent, id. split; [|done]. do 2 (constructor; [by repeat constructor|]). by each.
Qed.
Lemma vrfLine_form line l : l ∈ vrfLine line ->
  exists name table, Forall isField ["link"; "vrf"; name; table] /\ l = join " " ["link"; "vrf"; name; table].
Proof.
  unfold vrfLine. pose proof (clean_fields _ (routeFields_clean line)) as H.
  destruct (routeFields line) as [|x [|f rest]]; [by intros ?%not_elem_of_nil..|].
  assert (isField f) as Hf by (by do 2 apply Forall_cons in H as [? H]).
  destruct (linkNameAndParent_spaceless f Hf) as [A _]. set (name := (linkNameAndParent f).1) in *.
  pose proof (valueAfter_spaceless _ "vrf" "table" H) as C. set (table := valueAfter _ _ _) in *.
  destruct (_ || _) eqn:E; [by intros ?%not_elem_of_nil|]. intros ->%list_elem_of_singleton.
  apply orb_false_iff in E as [E1%bool_decide_eq_false E2%bool_decide_eq_false].
  exists name, table. split; [|done]. do 2 (constructor; [by repeat constructor|]). by each.
Qed.
Lemma vlanLine_settled line : Forall (settledFact KindAddrs) (vlanLine line).
Proof.
  apply Forall_forall. intros l (name & parent & id & Hf & ->)%vlanLine_form.
  by apply (other_settled KindAddrs ["link"; "vlan"; name; parent; id]); [|done| | |left].
Qed.
Lemma vrfLine_settled line : Forall (settledFact KindAddrs) (vrfLine line).
Proof.
  apply Forall_forall. intros l (name & table & Hf & ->)%vrfLine_form.
  by apply (other_settled KindAddrs ["link"; "vrf"; name; table]); [|done| | |left].
Qed.

Lemma bind_settled kind {A} (f : A -> list string) l (P : A -> bool) :
  (forall x, P x = true -> Forall (settledFact kind) (f x)) -> forallb P l = true ->
  Forall (settledFact kind) (l ≫= f).
Proof.
  intros Hf H. rewrite forallb_forall in H. apply Forall_forall. intros y (x & Hy & Hx)%list_elem_of_bind.
  apply list_elem_of_In, H, Hf in Hx. by apply (proj1 (Forall_forall _ _) Hx).
Qed.

Lemma tunnelEntry_settled entry :
  clearEntry entry = true -> Forall (settledFact KindTunnels) (tunnelEntry entry).
Proof.
  intros Hc. unfold tunnelEntry. destruct (_ && _); [|by apply routeLine_settled].
  pose proof (fields_are_fields entry) as H.
  pose proof (keyValue_spaceless "remote" _ H) as A. pose proof (keyValue_spaceless "local" _ H) as B.
  unfold fieldAfter. destruct H as [|f rest Hf _]; [constructor|].
  set (remote := keyValue "remote" _) in *. set (local := keyValue "local" _) in *.
  pose proof (name_spaceless f Hf) as C. set (name := (cut "@" _).1) in *.
  destruct (_ && _) eqn:E; [|constructor]. constructor; [|constructor].
  apply andb_prop in E as [E E4%negb_true_iff]. apply andb_prop in E as [E E3%negb_true_iff].
  apply andb_prop in E as [E1%negb_true_iff E2%negb_true_iff]. apply bool_decide_eq_false in E1, E2, E3.
  apply (other_settled KindTunnels ["tunnel"; name; remote; local]); [done| |done..|].
  - constructor; [by repeat constructor|]. by each.
  - right. by intros a b c [= <- <- <-].
Qed.

(** *** Switch ports *)

(** A list of VLANs with brackets at most around it. *)
Definition plainList (x : string) : bool :=
  negb (occurs "[" (trimBy isBracket x)) && negb (occurs "]" (trimBy isBracket x)).

Lemma bracket_occurs s c :
  occurs "[" s = false -> occurs "]" s = false -> isBracket c = true -> occurs c s = false.
Proof. intros A B H%orb_prop. by destruct H as [->%bool_decide_eq_true | ->%bool_decide_eq_true]. Qed.

Lemma map_trimSpace l : Forall (fun t => spaceless t = true) l -> map trimSpace l = l.
Proof. induction 1 as [|t l Ht _ IH]; simpl; [done|]. by rewrite IH, spaceless_trimSpace. Qed.

Lemma sort_Forall (P : string -> Prop) l : Forall P l -> Forall P (sortStrings l).
Proof. intros H. unfold sortStrings. by rewrite merge_sort_Permutation. Qed.

Lemma VLANList_spaceless x : spaceless x = true -> spaceless (canonicalVLANList x) = true.
Proof.
  intros H. unfold canonicalVLANList. case_bool_decide; [done|].
  pose proof (spaceless_split "," _ (spaceless_trim isBracket _ H)) as Hs.
  rewrite map_trimSpace by done. apply spaceless_join; [done|]. by apply sort_Forall.
Qed.

(** A sorted list of VLANs is left alone. *)
Lemma VLANList_stable x :
  spaceless x = true -> plainList x = true ->
  canonicalVLANList (canonicalVLANList x) = canonicalVLANList x.
Proof.
  intros H [A%negb_true_iff B%negb_true_iff]%andb_prop.
  pose proof (spaceless_split "," _ (spaceless_trim isBracket _ H)) as Hs.
  assert (canonicalVLANList x = "" \/
    canonicalVLANList x = join "," (sortStrings (split "," (trimBy isBracket x)))) as [->|E].
  { unfold canonicalVLANList. case_bool_decide; [by left|right]. by rewrite map_trimSpace. }
  { done. }
  rewrite E. set (parts := sortStrings _) in *.
  assert (forall c, occurs c (trimBy isBracket x) = false -> Forall (fun t => occurs c t = false) parts) as Hp.
  { intros c Hc. by apply sort_Forall, split_occurs. }
  assert (parts <> []) as Hne.
  { unfold parts. intros Hn. apply (split_not_nil "," (trimBy isBracket x)). apply Permutation_nil_r.
    rewrite <- Hn. unfold sortStrings. by rewrite merge_sort_Permutation. }
  assert (Forall (fun t => occurs "," t = false) parts) as Hcomma by apply sort_Forall, split_pieces.
  unfold canonicalVLANList. rewrite trimBy_none.
  - case_bool_decide as He; [by rewrite He|]. rewrite split_join by done.
    rewrite map_trimSpace by (by apply sort_Forall). unfold parts. by rewrite sortStrings_idem.
  - intros c Hc. apply (bracket_occurs _ c); [| |done]; apply occurs_join; auto.
Qed.

Record okVlan (v : vlanState) : Prop := {
  ov_tag : spaceless (vsTag v) = true /\ trimBy isBracket (vsTag v) = vsTag v;
  ov_trunks : spaceless (vsTrunks v) = true /\ canonicalVLANList (vsTrunks v) = vsTrunks v;
  ov_mode : spaceless (vsMode v) = true /\ trimBy isBracket (vsMode v) = vsMode v
}.
Definition plainField (f : string) : bool :=
  if hasPrefix f "trunks=" then plainList (trimPrefix "trunks=" f) else true.
Lemma portField_ok v f : okVlan v -> isField f -> plainField f = true -> okVlan (portField v f).
Proof.
  intros [A B C] [_ Hf] Hp. unfold portField, plainField in *.
  destruct (hasPrefix f "tag="); [split; simpl; [|done..]|].
  { split; [by apply spaceless_trim, spaceless_trimPrefix|apply trimBy_idem]. }
  destruct (hasPrefix f "trunks="); [split; simpl; [done| |done]|].
  { split; [by apply VLANList_spaceless, spaceless_trimPrefix|].
    apply VLANList_stable; [by apply spaceless_trimPrefix|done]. }
  destruct (hasPrefix f "mode="); [split; simpl; [done..|]|done].
  split; [by apply spaceless_trim, spaceless_trimPrefix|apply trimBy_idem].
Qed.
Lemma portFields_ok fs v :
  Forall isField fs -> forallb plainField fs = true -> okVlan v -> okVlan (fold_left portField fs v).
Proof.
  intros Hf. revert v. induction Hf as [|f fs Hf _ IH]; intros v; simpl; [done|].
  intros [Hp Hps]%andb_prop Hv. apply IH; [done|]. by apply portField_ok.
Qed.

Definition plainPort (line : string) : bool := forallb plainField (fields (trimSpace line)).

Lemma portLine_printed port v :
  isField port -> okVlan v ->
  let l := "port " +:+ port +:+ " tag=" +:+ vsTag v +:+ " trunks=" +:+ vsTrunks v +:+ " mode=" +:+ vsMode v in
  fieldsLine l /\
  fields (trimSpace l) = ["port"; port; "tag=" +:+ vsTag v; "trunks=" +:+ vsTrunks v; "mode=" +:+ vsMode v] /\
  fold_left portField ["tag=" +:+ vsTag v; "trunks=" +:+ vsTrunks v; "mode=" +:+ vsMode v] (mkVlan "" "" "") = v.
Proof.
  intros Hp [[A A'] [B B'] [C C']] l.
  set (ts := ["port"; port; "tag=" +:+ vsTag v; "trunks=" +:+ vsTrunks v; "mode=" +:+ vsMode v]).
  assert (l = join " " ts) as El.
  { unfold l, ts. simpl. rewrite ?append_cons. done. }
  assert (Forall isField ts) as Hf.
  { constructor; [by repeat constructor|]. constructor; [done|].
    repeat constructor; try done; by rewrite spaceless_app. }
  assert (fieldsLine l) as Hl by (by exists ts).
  split; [done|]. split.
  - rewrite trimSpace_trimmed by (by apply fieldsLine_trimmed). rewrite El. by apply fields_join.
  - cbn [fold_left]. unfold portField at 3. rewrite hasPrefix_app, trimPrefix_app, A'.
    unfold portField at 2. rewrite hasPrefix_app, trimPrefix_app, B'. simpl hasPrefix. cbv iota. cbn [vsTag vsTrunks vsMode].
    unfold portField. rewrite hasPrefix_app, trimPrefix_app, C'. simpl hasPrefix. cbv iota. cbn [vsTag vsTrunks vsMode].
    by destruct v.
Qed.

Lemma portLine_settled line : plainPort line = true -> Forall (settledFact KindOVS) (portLine line).
Proof.
  unfold plainPort, portLine. pose proof (fields_are_fields (trimSpace line)) as H.
  destruct (fields (trimSpace line)) as [|f [|port rest]]; [by constructor..|]. intros Hp.
  case_bool_decide; [|constructor]. apply Forall_cons in H as [_ H]. apply Forall_cons in H as [Hport Hrest].
  simpl in Hp. apply andb_prop in Hp as [_ Hp]. apply andb_prop in Hp as [_ Hp].
  assert (okVlan (fold_left portField rest (mkVlan "" "" ""))) as Hv by (by apply portFields_ok).
  set (v := fold_left portField rest _) in *. destruct (_ || _) eqn:E; [|constructor]. constructor; [|constructor].
  destruct (portLine_printed port v Hport Hv) as (A & B & C). split; [done|].
  unfold normalLine. rewrite bool_decide_true by done. unfold portLine. rewrite B, bool_decide_true, C by done.
  by rewrite E.
Qed.

(** *** Lines already in canonical form *)

Definition plainLine (kind line : string) : bool :=
  if bool_decide (kind = KindOVS) then plainPort line else
  match fields line with
  | f :: _ :: rest => if bool_decide (f = "route") then clearEntry (join " " rest) else true
  | _ => true
  end.

Lemma normalLine_settled kind line :
  plainLine kind line = true -> Forall (settledFact kind) (normalLine kind line).
Proof.
  unfold plainLine, normalLine. destruct (decide (kind = KindOVS)) as [->|Hk].
  { rewrite !bool_decide_true by done. apply portLine_settled. }
  rewrite !(bool_decide_false (kind = KindOVS)) by done. pose proof (fields_are_fields line) as Hf.
  destruct (fields line) as [|f rest]; [constructor|]. intros Hp.
  assert (forall ts, f :: rest = ts -> ts <> [] ->
    (bool_decide (f = "route") && bool_decide (2 < length ts)%nat && within ["inet"; "inet6"] (nth 1 ts "")) = false ->
    (kind <> KindTunnels \/ (forall a b c, ts = ["tunnel"; a; b; c] -> kernelDefaultTunnel a b c = false)) ->
    settledFact kind (join " " ts)) as Hother.
  { intros ts <- _ Hr Ht. split; [by exists (f :: rest)|]. unfold normalLine.
    rewrite (bool_decide_false (kind = KindOVS)), fields_join by done.
    destruct rest as [|a [|b rest]]; [done..|]. cbn [nth] in Hr.
    rewrite (bool_decide_true (2 < _)%nat), andb_true_r in Hr by (simpl; lia). rewrite Hr.
    destruct rest as [|c [|d rest]]; [done| |done].
    destruct Ht as [Ht|Ht]; [by rewrite bool_decide_false|].
    destruct (decide (f = "tunnel")) as [->|Hne]; [by rewrite Ht, andb_false_r|].
    by rewrite (bool_decide_false (f = _)), andb_false_r. }
  destruct rest as [|a [|b rest]].
  1,2: each; apply Hother; [done..| |by right];
    by rewrite (bool_decide_false (2 < _)%nat), andb_false_r by (simpl; lia).
  - destruct (bool_decide (f = "route") && within ["inet"; "inet6"] a) eqn:E.
    + apply andb_prop in E as [E1 E2]. rewrite E1 in Hp. by apply routeLine_settled.
    + assert (bool_decide (f = "route") && bool_decide (2 < length (f :: a :: b :: rest))%nat
         && within ["inet"; "inet6"] (nth 1 (f :: a :: b :: rest) "") = false) as E'.
      { rewrite (bool_decide_true (2 < _)%nat) by (simpl; lia). by rewrite andb_true_r. }
      destruct rest as [|c [|d rest]]; try (each; apply Hother; [done..|]; right; done).
      destruct (_ && kernelDefaultTunnel a b c) eqn:Et; [constructor|]. each. apply Hother; [done..|].
      destruct (decide (kind = KindTunnels)) as [->|Hne]; [right|by left].
      intros x y z [= -> -> -> ->]. by rewrite !bool_decide_true in Et.
Qed.

(** ** Stability *)

(** The captures whose routes are spelled unambiguously, whose interfaces have
    names, and whose VLAN lists have brackets at most around them. *)
Definition sectionPlain (index : nat) (ls : list string) : bool :=
  match index with
  | 0 => forallb namedLine ls
  | 1 | 2 => forallb clearEntry (routeEntries (joinLines ls))
  | _ => true
  end%nat.
Definition plainCapture (kind raw : string) : bool :=
  match lines (trimSpace raw) with
  | first :: rest =>
      if bool_decide (trimSpace first = header kind) then forallb (plainLine kind) rest
      else if bool_decide (kind = KindAddrs) then forallb id (imap sectionPlain (sections (lines raw)))
      else if bool_decide (kind = KindTunnels) then forallb clearEntry (routeEntries raw)
      else forallb plainPort (lines raw)
  | [] => true
  end.

Lemma forallb_always {A} (l : list A) : forallb (fun _ => true) l = true.
Proof. by apply forallb_forall. Qed.

Lemma sectionFacts_settled i ls :
  sectionPlain i ls = true -> Forall (settledFact KindAddrs) (sectionFacts i ls).
Proof.
  destruct i as [|[|[|[|[|i]]]]]; simpl; intros H; [| | | | |constructor].
  - by eapply bind_settled; [apply addressLine_settled|].
  - eapply bind_settled; [|exact H]. intros e. by apply routeLine_settled.
  - eapply bind_settled; [|exact H]. intros e. by apply routeLine_settled.
  - eapply bind_settled; [intros x _; apply vlanLine_settled|apply forallb_always].
  - eapply bind_settled; [intros x _; apply vrfLine_settled|apply forallb_always].
Qed.

Lemma kinds_are_fields kind : kind ∈ [KindAddrs; KindTunnels; KindOVS] -> isField kind.
Proof. repeat (rewrite elem_of_cons; intros [->|H]; [by repeat constructor|revert H]). by intros ?%not_elem_of_nil. Qed.

(** What a capture is put into canonical form from. *)
Lemma canonical_facts kind raw :
  kind ∈ [KindAddrs; KindTunnels; KindOVS] -> plainCapture kind raw = true ->
  exists facts, CanonicalDynamicSnapshot kind raw = canonicalLines kind facts /\
    Forall (settledFact kind) facts.
Proof.
  intros Hk. unfold plainCapture, CanonicalDynamicSnapshot, normalizedCanonicalDynamic.
  destruct (lines (trimSpace raw)) as [|first rest] eqn:El.
  { by apply split_not_nil in El. }
  case_bool_decide as Hh; intros Hp.
  { eexists. split; [done|]. eapply bind_settled; [|exact Hp]. intros l. apply normalLine_settled. }
  apply elem_of_cons in Hk as [->|[->|[->|Hk%not_elem_of_nil]%elem_of_cons]%elem_of_cons]; [| | |done].
  - rewrite bool_decide_true in Hp |- * by done. eexists. split; [done|].
    apply Forall_concat, Forall_forall. intros fs (i & ls & -> & Hls)%elem_of_lookup_imap.
    apply sectionFacts_settled. rewrite forallb_forall in Hp. apply (Hp (sectionPlain i ls)).
    apply list_elem_of_In, elem_of_lookup_imap. eauto.
  - rewrite (bool_decide_false (_ = KindAddrs)), bool_decide_true in Hp |- * by done.
    eexists. split; [done|]. eapply bind_settled; [|exact Hp]. apply tunnelEntry_settled.
  - rewrite (bool_decide_false (_ = KindAddrs)), (bool_decide_false (_ = KindTunnels)) in Hp |- * by done.
    rewrite bool_decide_true by done.
    eexists. split; [done|]. eapply bind_settled; [|exact Hp]. apply portLine_settled.
Qed.

(** C14. A canonical snapshot is settled. For a capture of addresses, tunnels or
    switch ports that is plain (its routes are spelled unambiguously, its
    interfaces have names, and its VLAN lists have brackets at most around
    them; [plainCapture]), be it [ip] and [ovs-vsctl] output or a snapshot that
    is already on disk, the canonical form is a text that canonicalising again
    does not change: what is stored compares equal to itself when it is read
    back and canonicalised once more. *)
Theorem canonical_snapshot_is_stable kind raw :
  kind ∈ [KindAddrs; KindTunnels; KindOVS] -> plainCapture kind raw = true ->
  CanonicalDynamicSnapshot kind (CanonicalDynamicSnapshot kind raw) = CanonicalDynamicSnapshot kind raw.
Proof.
  intros Hk Hp. destruct (canonical_facts kind raw Hk Hp) as (facts & -> & Hf).
  apply canonicalLines_stable; [by apply kinds_are_fields|done].
Qed.

Lemma canonical_snapshot_is_stable_witness :
  CanonicalDynamicSnapshot KindAddrs (CanonicalDynamicSnapshot KindAddrs capture_example) =
  CanonicalDynamicSnapshot KindAddrs capture_example.
Proof. apply (canonical_snapshot_is_stable KindAddrs capture_example); [left|vm_compute; reflexivity]. Defined.

(** ** Replays are complete *)

Definition capturedRoutes (raw : string) : list (string * string) :=
  let routes family i := map (pair family) (routeEntries (joinLines (default [] (sections (lines raw) !! i)))) in
  routes "inet" 1%nat ++ routes "inet6" 2%nat.
Definition capturedAddresses (raw : string) : list string :=
  default [] (sections (lines raw) !! 0%nat) ≫= addressLine.
Definition capturedVLANs (raw : string) : list string :=
  default [] (sections (lines raw) !! 3%nat) ≫= vlanLine.
Definition capturedVRFs (raw : string) : list string :=
  default [] (sections (lines raw) !! 4%nat) ≫= vrfLine.
Definition isCanonical (kind raw : string) : bool := bool_decide (is_Some (normalizedCanonicalDynamic kind raw)).

Lemma bodyLines_canonical kind facts :
  isField kind -> Forall fieldsLine facts -> bodyLines (canonicalLines kind facts) = factLines facts ++ [""].
Proof.
  intros Hk Hf. rewrite canonicalLines_join. unfold bodyLines, lines, joinLines.
  replace (join _ _ +:+ _) with (join (String newline "") ((header kind :: factLines facts) ++ [""])).
  - rewrite split_join; [done..|]. apply Forall_app. split; [|by repeat constructor].
    constructor; [by apply fieldsLine_newline, header_line|]. apply Forall_forall. intros l.
    rewrite elem_of_factLines. intros Hl. by apply fieldsLine_newline, (proj1 (Forall_forall _ _) Hf).
  - by rewrite join_app.
Qed.

Definition routeCommand (family : string) (f : routeFact) : string :=
  "ip " +:+ familyFlag family +:+ "route replace " +:+ factString f.
(** A VLAN or VRF interface is created unless it is there, and brought up. *)
Definition vlanCommand (name parent id : string) : string :=
  "if ! ip link show " +:+ name +:+ " >/dev/null 2>&1; then ip link add link " +:+ parent
  +:+ " name " +:+ name +:+ " type vlan id " +:+ id +:+ "; fi; ip link set " +:+ name +:+ " up".
Definition vrfCommand (name table : string) : string :=
  "if ! ip link show " +:+ name +:+ " >/dev/null 2>&1; then ip link add " +:+ name
  +:+ " type vrf table " +:+ table +:+ "; fi; ip link set " +:+ name +:+ " up".
Definition addrCommand (family iface address : string) : string :=
  "ip " +:+ familyFlag family +:+ "addr replace " +:+ address +:+ " dev " +:+ iface.

(** A captured route is replayed as itself. *)
Lemma addrStep_route family entry l :
  within ["inet"; "inet6"] family = true -> clearEntry entry = true -> l ∈ routeLine family entry ->
  exists f, portableRoute entry = Some f /\ addrStep l = Some (StepRoute (replayRank f) (routeCommand family f)).
Proof.
  intros Hfam Hc Hl. unfold routeLine in Hl. case_bool_decide as Hr; [by apply not_elem_of_nil in Hl|].
  apply list_elem_of_singleton in Hl as ->. unfold canonicalRoute in *.
  destruct (portableRoute entry) as [f|] eqn:Hport; [|done]. exists f. split; [done|].
  assert (parseRouteFact entry = Some f) as Hp.
  { unfold portableRoute in Hport. destruct (parseRouteFact entry) as [g|]; [|done]. simpl in Hport.
    destruct (_ || _); [done|]. by injection Hport as ->. }
  unfold clearEntry in Hc. rewrite Hp in Hc. pose proof (parse_wf entry f Hp Hc) as Hwf.
  assert (portableRoute (factString f) = Some f) as Hs.
  { unfold portableRoute in *. rewrite (fact_read f Hwf). by rewrite Hp in Hport. }
  assert (factTokens f <> []) as Hne by (unfold factTokens; by destruct (bool_decide _)).
  assert (Forall isField ("route" :: family :: factTokens f)) as Hfs.
  { constructor; [by repeat constructor|]. constructor; [|by apply clean_fields, factTokens_clean].
    eapply within_token in Hfam as [? _]; [done|]. keyword. }
  replace ("route " +:+ family +:+ " " +:+ factString f) with (join " " ("route" :: family :: factTokens f))
    by (rewrite <- join_cons2, <- fact_prints by done; done).
  unfold addrStep. rewrite fields_join by done. rewrite !(bool_decide_false ("route" = _)) by done.
  rewrite bool_decide_true by done. destruct (factTokens f) as [|t ts] eqn:Et; [done|].
  unfold routeStep. rewrite <- Et, <- fact_prints, Hs by done. done.
Qed.

Lemma addressPairs_step iface fs l :
  isField iface -> Forall isField fs -> l ∈ addressPairs iface fs ->
  exists family address, fields l = ["addr"; family; iface; address] /\
    addrStep l = Some (StepAddr (addrCommand family iface address)).
Proof.
  intros Hi. induction 1 as [|family rest Hfam Hrest IH]; [by intros ?%not_elem_of_nil|].
  destruct Hrest as [|address rest Ha Hrest]; [by intros ?%not_elem_of_nil|].
  cbn [addressPairs]. rewrite elem_of_app. intros [Hl|Hl]; [|by apply IH].
  destruct (within _ family && _); [|by apply not_elem_of_nil in Hl].
  apply list_elem_of_singleton in Hl as ->. exists family, address.
  assert (fields (join " " ["addr"; family; iface; address]) = ["addr"; family; iface; address]) as Hf.
  { apply fields_join. constructor; [by repeat constructor|]. by each. }
  change ("addr " +:+ family +:+ " " +:+ iface +:+ " " +:+ address) with (join " " ["addr"; family; iface; address]).
  split; [done|]. unfold addrStep. by rewrite Hf.
Qed.
Lemma addrStep_address line l :
  namedLine line = true -> l ∈ addressLine line ->
  exists family iface address, fields l = ["addr"; family; iface; address] /\
    addrStep l = Some (StepAddr (addrCommand family iface address)).
Proof.
  unfold namedLine, addressLine. pose proof (fields_are_fields (trimSpace line)) as H.
  destruct (fields (trimSpace line)) as [|x [|name [|y [|z rest]]]]; try (intros _; by intros ?%not_elem_of_nil).
  intros Hn%negb_true_iff%bool_decide_eq_false. apply Forall_cons in H as [_ H]. apply Forall_cons in H as [Hname H].
  intros Hl. destruct (addressPairs_step _ _ _ (isField_intro _ Hn (name_spaceless _ Hname)) H Hl) as (a & b & A & B).
  eauto.
Qed.

Lemma addrStep_vlan line l : l ∈ vlanLine line ->
  exists name parent id, fields l = ["link"; "vlan"; name; parent; id] /\
    addrStep l = Some (StepLink [vlanCommand name parent id]).
Proof.
  intros (name & parent & id & Hf & ->)%vlanLine_form. exists name, parent, id.
  pose proof (fields_join _ Hf) as E. split; [done|]. unfold addrStep. by rewrite E.
Qed.
Lemma addrStep_vrf line l : l ∈ vrfLine line ->
  exists name table, fields l = ["link"; "vrf"; name; table] /\
    addrStep l = Some (StepLink [vrfCommand name table]).
Proof.
  intros (name & table & Hf & ->)%vrfLine_form. exists name, table.
  pose proof (fields_join _ Hf) as E. split; [done|]. unfold addrStep. by rewrite E.
Qed.

(** What a fact of a section asks for. *)
Lemma section_step i ls l :
  sectionPlain i ls = true -> l ∈ sectionFacts i ls ->
  (i = 0%nat /\ l ∈ (ls ≫= addressLine) /\ exists family iface address,
     fields l = ["addr"; family; iface; address] /\ addrStep l = Some (StepAddr (addrCommand family iface address))) \/
  (exists family entry f, (i, family) ∈ [(1%nat, "inet"); (2%nat, "inet6")] /\
     entry ∈ routeEntries (joinLines ls) /\ portableRoute entry = Some f /\
     addrStep l = Some (StepRoute (replayRank f) (routeCommand family f))) \/
  (i = 3%nat /\ l ∈ (ls ≫= vlanLine) /\ exists name parent id,
     fields l = ["link"; "vlan"; name; parent; id] /\ addrStep l = Some (StepLink [vlanCommand name parent id])) \/
  (i = 4%nat /\ l ∈ (ls ≫= vrfLine) /\ exists name table,
     fields l = ["link"; "vrf"; name; table] /\ addrStep l = Some (StepLink [vrfCommand name table])).
Proof.
  assert (forall family, within ["inet"; "inet6"] family = true -> (i, family) ∈ [(1%nat, "inet"); (2%nat, "inet6")] ->
    forallb clearEntry (routeEntries (joinLines ls)) = true -> l ∈ addCanonicalRoutes family (joinLines ls) ->
    exists family entry f, (i, family) ∈ [(1%nat, "inet"); (2%nat, "inet6")] /\
     entry ∈ routeEntries (joinLines ls) /\ portableRoute entry = Some f /\
     addrStep l = Some (StepRoute (replayRank f) (routeCommand family f))) as Hroute.
  { intros family Hw Hi Hc (e & Hl & He)%list_elem_of_bind. rewrite forallb_forall in Hc.
    destruct (addrStep_route family e l Hw) as (f & Hf & Hs); [by apply Hc, list_elem_of_In|done|]. eauto 10. }
  destruct i as [|[|[|[|[|i]]]]]; cbn [sectionFacts sectionPlain]; intros Hp Hl.
  - left. split; [done|]. split; [done|]. apply list_elem_of_bind in Hl as (line & Hl & Hline).
    rewrite forallb_forall in Hp. eapply addrStep_address; [|exact Hl]. by apply Hp, list_elem_of_In.
  - right; left. apply (Hroute "inet"); [done|left|done|done].
  - right; left. apply (Hroute "inet6"); [done|right; left|done|done].
  - right; right; left. split; [done|]. split; [done|]. apply list_elem_of_bind in Hl as (line & Hl & _).
    by eapply addrStep_vlan.
  - right; right; right. split; [done|]. split; [done|]. apply list_elem_of_bind in Hl as (line & Hl & _).
    by eapply addrStep_vrf.
  - by apply not_elem_of_nil in Hl.
Qed.

Section Complete.
Variable raw : string.
Hypothesis Hraw : isCanonical KindAddrs raw = false.
Hypothesis Hplain : plainCapture KindAddrs raw = true.

Let facts := concat (imap sectionFacts (sections (lines raw))).
Let steps := omap addrStep (factLines facts).

Lemma capture_form :
  CanonicalDynamicSnapshot KindAddrs raw = canonicalLines KindAddrs facts /\
  forall i ls, sections (lines raw) !! i = Some ls -> sectionPlain i ls = true.
Proof using Hraw Hplain.
  apply bool_decide_eq_false, eq_None_not_Some in Hraw as Hn.
  unfold CanonicalDynamicSnapshot. rewrite Hn, bool_decide_true by done. split; [done|].
  unfold normalizedCanonicalDynamic in Hn. unfold plainCapture in Hplain.
  destruct (lines (trimSpace raw)) as [|first rest] eqn:El; [by apply split_not_nil in El|].
  case_bool_decide; [done|]. rewrite bool_decide_true in Hplain by done.
  intros i ls Hi. rewrite forallb_forall in Hplain. apply (Hplain (sectionPlain i ls)).
  apply list_elem_of_In, elem_of_lookup_imap. eauto.
Qed.

Lemma elem_of_facts l : l ∈ facts <-> exists i ls, sections (lines raw) !! i = Some ls /\ l ∈ sectionFacts i ls.
Proof using.
  unfold facts. rewrite list_elem_of_In, in_concat. setoid_rewrite <- list_elem_of_In. split.
  - intros (fs & (i & ls & -> & Hi)%elem_of_lookup_imap & Hl). eauto.
  - intros (i & ls & Hi & Hl). exists (sectionFacts i ls). split; [|done]. apply elem_of_lookup_imap. eauto.
Qed.

Lemma replay_form :
  addrReplay raw = (steps ≫= stepLinks) ++ (steps ≫= stepAddr) ++ routesByRank steps.
Proof using Hraw Hplain.
  destruct capture_form as [E Hs]. unfold addrReplay, canonicalAddrReplay. rewrite E, bodyLines_canonical.
  - rewrite omap_app. cbn [omap list_omap]. by rewrite app_nil_r.
  - by apply kinds_are_fields; left.
  - apply Forall_forall. intros l (i & ls & Hi & Hl)%elem_of_facts.
    by apply (proj1 (Forall_forall _ _) (sectionFacts_settled i ls (Hs i ls Hi))).
Qed.

Lemma elem_of_steps st : st ∈ steps <-> exists l, l ∈ facts /\ addrStep l = Some st.
Proof using.
  unfold steps. rewrite list_elem_of_omap. split; intros (l & Hl & Hst); exists l;
    [rewrite elem_of_factLines in Hl|rewrite elem_of_factLines]; done.
Qed.

Lemma elem_of_capturedRoutes family entry :
  (family, entry) ∈ capturedRoutes raw <->
  exists i ls, sections (lines raw) !! i = Some ls /\ (i, family) ∈ [(1%nat, "inet"); (2%nat, "inet6")] /\
    entry ∈ routeEntries (joinLines ls).
Proof using.
  unfold capturedRoutes. rewrite elem_of_app, !list_elem_of_fmap. split.
  - intros [(e & [= -> ->] & He)|(e & [= -> ->] & He)].
    + destruct (sections (lines raw) !! 1%nat) as [ls|] eqn:E; [|by apply not_elem_of_nil in He].
      exists 1%nat, ls. repeat split; [done|left|done].
    + destruct (sections (lines raw) !! 2%nat) as [ls|] eqn:E; [|by apply not_elem_of_nil in He].
      exists 2%nat, ls. repeat split; [done|right; left|done].
  - intros (i & ls & Hi & Hfam & He).
    apply elem_of_cons in Hfam as [[= -> ->]|[= -> ->]%list_elem_of_singleton]; rewrite Hi; simpl; eauto.
Qed.

Lemma replayed_address cmd :
  cmd ∈ (steps ≫= stepAddr) <->
  exists l family iface address, l ∈ capturedAddresses raw /\
    fields l = ["addr"; family; iface; address] /\ cmd = addrCommand family iface address.
Proof using Hraw Hplain.
  destruct capture_form as [_ Hs]. rewrite list_elem_of_bind. split.
  - intros (st & Hc & (l & Hl & Hst)%elem_of_steps). apply elem_of_facts in Hl as (i & ls & Hi & Hl).
    destruct (section_step i ls l (Hs i ls Hi) Hl) as [(-> & Ha & fam & ifc & ad & Hf & E)|[(? & ? & ? & _ & _ & _ & E)|[(_ & _ & ? & ? & ? & _ & E)|(_ & _ & ? & ? & _ & E)]]];
      rewrite E in Hst; injection Hst as <-; try by apply not_elem_of_nil in Hc.
    apply list_elem_of_singleton in Hc as ->. exists l, fam, ifc, ad. split; [|done].
    unfold capturedAddresses. by rewrite Hi.
  - intros (l & fam & ifc & ad & Hl & Hf & ->). unfold capturedAddresses in Hl.
    destruct (sections (lines raw) !! 0%nat) as [ls|] eqn:Hi; [|by apply not_elem_of_nil in Hl].
    exists (StepAddr (addrCommand fam ifc ad)). split; [left|]. apply elem_of_steps. exists l. split.
    + apply elem_of_facts. by exists 0%nat, ls.
    + unfold addrStep. by rewrite Hf.
Qed.

Lemma replayed_link cmd :
  cmd ∈ (steps ≫= stepLinks) <->
  (exists l name parent id, l ∈ capturedVLANs raw /\ fields l = ["link"; "vlan"; name; parent; id] /\
     cmd = vlanCommand name parent id) \/
  (exists l name table, l ∈ capturedVRFs raw /\ fields l = ["link"; "vrf"; name; table] /\
     cmd = vrfCommand name table).
Proof using Hraw Hplain.
  destruct capture_form as [_ Hs]. rewrite list_elem_of_bind. unfold capturedVLANs, capturedVRFs. split.
  - intros (st & Hc & (l & Hl & Hst)%elem_of_steps). apply elem_of_facts in Hl as (i & ls & Hi & Hl).
    destruct (section_step i ls l (Hs i ls Hi) Hl) as [(_ & _ & ? & ? & ? & _ & E)|[(? & ? & ? & _ & _ & _ & E)
      |[(-> & Ha & name & parent & id & Hf & E)|(-> & Ha & name & table & Hf & E)]]];
      rewrite E in Hst; injection Hst as <-; try by apply not_elem_of_nil in Hc.
    + apply list_elem_of_singleton in Hc as ->. left. exists l, name, parent, id. by rewrite Hi.
    + apply list_elem_of_singleton in Hc as ->. right. exists l, name, table. by rewrite Hi.
  - intros [(l & name & parent & id & Hl & Hf & ->)|(l & name & table & Hl & Hf & ->)].
    + destruct (sections (lines raw) !! 3%nat) as [ls|] eqn:Hi; [|by apply not_elem_of_nil in Hl].
      exists (StepLink [vlanCommand name parent id]). split; [left|]. apply elem_of_steps. exists l.
      split; [apply elem_of_facts; by exists 3%nat, ls|]. unfold addrStep. by rewrite Hf.
    + destruct (sections (lines raw) !! 4%nat) as [ls|] eqn:Hi; [|by apply not_elem_of_nil in Hl].
      exists (StepLink [vrfCommand name table]). split; [left|]. apply elem_of_steps. exists l.
      split; [apply elem_of_facts; by exists 4%nat, ls|]. unfold addrStep. by rewrite Hf.
Qed.

Lemma route_fact i ls family entry f :
  sections (lines raw) !! i = Some ls -> (i, family) ∈ [(1%nat, "inet"); (2%nat, "inet6")] ->
  entry ∈ routeEntries (joinLines ls) -> portableRoute entry = Some f ->
  exists l, l ∈ sectionFacts i ls /\ addrStep l = Some (StepRoute (replayRank f) (routeCommand family f)).
Proof using Hraw Hplain.
  intros Hi Hfam He Hp. destruct capture_form as [_ Hs]. specialize (Hs i ls Hi).
  assert (within ["inet"; "inet6"] family = true /\ clearEntry entry = true /\
          sectionFacts i ls = addCanonicalRoutes family (joinLines ls)) as (Hw & Hc & Hsf).
  { apply elem_of_cons in Hfam as [[= -> ->]|[= -> ->]%list_elem_of_singleton]; cbn [sectionPlain] in Hs;
      rewrite forallb_forall in Hs; (split; [done|]); (split; [|done]); by apply Hs, list_elem_of_In. }
  assert (exists l, l ∈ routeLine family entry) as [l Hl].
  { pose proof Hp as Hp'. unfold portableRoute in Hp'. unfold clearEntry in Hc.
    destruct (parseRouteFact entry) as [g|] eqn:Hg; [|done]. simpl in Hp'.
    destruct (_ || _); [done|]. injection Hp' as ->. pose proof (parse_wf entry f Hg Hc) as Hwf.
    unfold routeLine, canonicalRoute. rewrite Hp. rewrite bool_decide_false; [eexists; left|].
    intros E. pose proof (fact_fields f Hwf) as Ht. rewrite E in Ht. unfold factTokens in Ht.
    by destruct (bool_decide (rfKind f = "")). }
  destruct (addrStep_route family entry l Hw Hc Hl) as (g & Hg & Hst). rewrite Hp in Hg. injection Hg as <-.
  exists l. split; [|done]. rewrite Hsf. apply list_elem_of_bind. eauto.
Qed.

Lemma replayed_route rank cmd :
  cmd ∈ (steps ≫= stepRoute rank) <->
  exists family entry f, (family, entry) ∈ capturedRoutes raw /\ portableRoute entry = Some f /\
    replayRank f = rank /\ cmd = routeCommand family f.
Proof using Hraw Hplain.
  destruct capture_form as [_ Hs]. rewrite list_elem_of_bind. split.
  - intros (st & Hc & (l & Hl & Hst)%elem_of_steps). apply elem_of_facts in Hl as (i & ls & Hi & Hl).
    destruct (section_step i ls l (Hs i ls Hi) Hl) as [(-> & Ha & ? & ? & ? & _ & E)|[(fam & e & f & A & B & C & E)|[(_ & _ & ? & ? & ? & _ & E)|(_ & _ & ? & ? & _ & E)]]];
      rewrite E in Hst; injection Hst as <-; try by apply not_elem_of_nil in Hc.
    simpl in Hc. case_bool_decide as Hr; [|by apply not_elem_of_nil in Hc].
    apply list_elem_of_singleton in Hc as ->. exists fam, e, f. split; [|done].
    apply elem_of_capturedRoutes. eauto.
  - intros (fam & e & f & (i & ls & Hi & Hfam & He)%elem_of_capturedRoutes & Hp & <- & ->).
    destruct (route_fact i ls fam e f) as (l & Hl & Hst); [done..|].
    exists (StepRoute (replayRank f) (routeCommand fam f)). split.
    + simpl. rewrite bool_decide_true by done. left.
    + apply elem_of_steps. exists l. split; [|done]. apply elem_of_facts. eauto.
Qed.
End Complete.


