(* ===== verification/Preserve.v ===== *)
(** * The deployment engine: preserving student work

    Models the capture funnel of [internal/deploy]: the guard on network
    namespaces of [deploy/namespace_generation.go], [Capture] and
    [storeCaptured] of [deploy/preserve.go], the replacement of a container of
    [deploy/engine.go], and the prune with its preservation of orphans of
    [deploy/orphan_preservation.go] and [deploy/prune_collision.go].

    The container runtime and the state store are the record [Host]: each of
    its functions may answer anything, and differently every time, because it
    is given the list of all earlier calls with their answers. The engine's
    own memory and that list are the state. The texts of errors are shortened;
    which error is reported is as in the code. *)

From stdpp Require Import base gmap strings list fin_maps sorting.
From Stdlib Require Import ZArith Lia Ascii.
From S2P Require Import Prelude Text Model Engine Canonical.

Local Open Scope string_scope.
Local Open Scope list_scope.
Local Open Scope Z_scope.

(** ** Snapshots *)

Definition namespaceBackedKinds : list string := [KindAddrs; KindTunnels; KindOVS].
Definition namespaceBackedKind (kind : string) : bool :=
  bool_decide (kind ∈ namespaceBackedKinds).

(** [state.Snapshot], without the instant it was taken at. *)
Record Snapshot := mkSnapshot {
  snLab : string; snAS : Z; snDevice : string; snKind : string; snTopology : string;
  snContent : string
}.

(** ** The host *)

Record ExecResult := mkExecResult { xrCode : Z; xrStdout : string; xrStderr : string }.

(** The commands the engine runs in a container. *)
Inductive Cmd :=
| CmdRunningConfig          (** [vtysh -c "show running-config"] *)
| CmdCatFRR                 (** [cat /etc/frr/frr.conf] *)
| CmdAddrs                  (** [addrCapture] *)
| CmdTunnels                (** [tunnelCapture] *)
| CmdSwitch                 (** [switchCapture] *)
| CmdProbe                  (** [namespaceContinuityProbe] *)
| CmdMark                   (** [restoreMarkerScript] *)
| CmdUnmark                 (** [rm -f restoreMarker] *)
| CmdTestMark               (** [test -f restoreMarker] *)
| CmdStopDaemons            (** the script of [stopPrimaryFRRDaemons] *)
| CmdShell (script : string) (** a replayed command *)
| CmdReset (kind : string)  (** the script of [resetDynamicState] *)
| CmdShowVersion            (** [vtysh -c "show version"] *)
| CmdBirdStatus             (** [birdc ... show status] *)
| CmdLoadFRR                (** loading [restore.conf] and removing it *)
| CmdRemoveFRR.             (** [rm -f restore.conf] *)

(** How [store.Current] fails. *)
Inductive currentErr := NotExist | Unreadable (e : string).

(** A call with its answer. *)
Inductive Event :=
| EvInspect (container : string) (r : result string Container)
| EvExec (container : string) (c : Cmd) (r : result string ExecResult)
| EvStart (container : string) (r : result string unit)
| EvRemove (container : string) (r : result string unit)
| EvCreate (container : string) (r : result string unit)
| EvPaths (container : string) (r : result string unit)
| EvNetns (container : string) (r : result string NetnsIdentity)
| EvList (r : result string (list Container))
| EvSave (device : string) (r : result string (list Snapshot))
| EvRead (r : ObservationFile)
| EvWrite (r : option string)
| EvCurrent (device kind : string) (r : result currentErr string)
| EvHas (device kind : string) (r : bool)
| EvPut (s : Snapshot) (r : result string bool)
| EvCopy (container body : string) (r : result string unit)
| EvProviderRestore (device body : string) (r : result string unit).

Abbreviation Hist := (list Event) (only parsing).

Record Host := mkHost {
  hInspect : Hist -> string -> result string Container;
  hExec : Hist -> string -> Cmd -> result string ExecResult;
  hStart : Hist -> string -> result string unit;
  hRemove : Hist -> string -> result string unit;
  hCreate : Hist -> string -> result string unit;
  hPaths : Hist -> string -> result string unit;         (** [prepareFinalRuntimeSpecs] *)
  hNetns : Hist -> string -> result string NetnsIdentity;
  hList : Hist -> result string (list Container);
  hProviderSave : Hist -> EDevice -> result string (list Snapshot); (** [provider.Save] *)
  hRead : Hist -> ObservationFile;
  hWrite : Hist -> option string;
  hCurrent : Hist -> string -> string -> result currentErr string;
  hHas : Hist -> string -> string -> bool;
  hPut : Hist -> Snapshot -> result string bool;
  hCopy : Hist -> string -> string -> result string unit;    (** [CopyTo] of [restore.conf] *)
  hProviderRestore : Hist -> EDevice -> string -> result string unit; (** [provider.Restore] *)
  (** whether the time to wait for a daemon is over *)
  hDeadline : Hist -> bool;
  (** whether the pool ran an item before the context was cancelled, and the
      context's error at the end *)
  hStarted : Hist -> nat -> bool;
  hContext : Hist -> option string;
  (** the error of a limiter's acquisition *)
  hLimited : Hist -> option string
}.

(** [OrphanPreservation] and its set. *)
Record OrphanPreservation := mkPreservation {
  opContainer : string; opDevice : string; opStored : bool
}.
Record OrphanPreservationSet := mkPreservationSet {
  osPreserved : list OrphanPreservation; osUnreadable : list string; osRemovable : list string
}.

(** The fields of [Engine] this part reads. [cfSplit] says that the runtime is
    one that runs split control sidecars, [cfStore] that [State] is set,
    [cfProves] that the runtime proves namespace identities, [cfDefaultRoot]
    that the record is kept at the default root and this process may not open
    it there, which is the one failure that is not reported. *)
Record Config := mkConfig {
  cfNode : string; cfSplit : bool; cfProves : bool; cfStore : bool; cfWritesReference : bool;
  cfRecovery : bool; cfReadOnly : bool; cfDefaultRoot : bool;
  cfPreserved : option OrphanPreservationSet
}.

(** The engine's memory of one pass and the calls made so far. *)
Record Pass := mkPass {
  psLost : gmap string bool;
  psUnproven : gmap string string;
  psCreated : gset string;
  psPending : gset string;
  psLog : list Event
}.
Abbreviation P := (SE Pass string) (only parsing).

Definition set_psLost (f : gmap string bool -> gmap string bool) (s : Pass) : Pass :=
  mkPass (f (psLost s)) (psUnproven s) (psCreated s) (psPending s) (psLog s).
Definition set_psUnproven (f : gmap string string -> gmap string string) (s : Pass) : Pass :=
  mkPass (psLost s) (f (psUnproven s)) (psCreated s) (psPending s) (psLog s).
Definition set_psCreated (f : gset string -> gset string) (s : Pass) : Pass :=
  mkPass (psLost s) (psUnproven s) (f (psCreated s)) (psPending s) (psLog s).
Definition set_psPending (f : gset string -> gset string) (s : Pass) : Pass :=
  mkPass (psLost s) (psUnproven s) (psCreated s) (f (psPending s)) (psLog s).
Definition set_psLog (f : list Event -> list Event) (s : Pass) : Pass :=
  mkPass (psLost s) (psUnproven s) (psCreated s) (psPending s) (f (psLog s)).

(** One call: the host answers from the history, and both are recorded. *)
Definition call {A} (mk : result string A -> Event) (f : Hist -> result string A) : P A := fun s =>
  let r := f (psLog s) in (set_psLog (fun l => l ++ [mk r]) s, r).
(** A call that cannot fail as an error of the caller. *)
Definition consult {A} (mk : A -> Event) (f : Hist -> A) : P A := fun s =>
  let r := f (psLog s) in (set_psLog (fun l => l ++ [mk r]) s, Ok r).

(** What a step returned, as a value: the caller goes on either way. *)
Definition asValue {A} (m : P A) : P (result string A) := fun s =>
  let '(s', r) := m s in (s', Ok r).

Section Guard.
Variable host : Host.
Variable cfg : Config.

(** ** The calls *)

Definition Inspect (c : string) : P Container :=
  call (EvInspect c) (fun h => hInspect host h c).
Definition Exec (c : string) (cmd : Cmd) : P ExecResult :=
  call (EvExec c cmd) (fun h => hExec host h c cmd).
Definition Start (c : string) : P unit := call (EvStart c) (fun h => hStart host h c).
Definition Remove (c : string) : P unit := call (EvRemove c) (fun h => hRemove host h c).
Definition Create (c : string) : P unit := call (EvCreate c) (fun h => hCreate host h c).
Definition prepareSpecs (c : string) : P unit := call (EvPaths c) (fun h => hPaths host h c).
Definition NetnsIdentityOf (c : string) : P NetnsIdentity :=
  call (EvNetns c) (fun h => if cfProves cfg then hNetns host h c else Err "unsupported").
Definition Put (s : Snapshot) : P bool := call (EvPut s) (fun h => hPut host h s).
Definition Current (device kind : string) : P (result currentErr string) :=
  consult (EvCurrent device kind) (fun h => hCurrent host h device kind).
Definition Has (device kind : string) : P bool :=
  consult (EvHas device kind) (fun h => hHas host h device kind).
Definition limited {A} (m : P A) : P A := fun s =>
  match hLimited host (psLog s) with Some e => (s, Err e) | None => m s end.

(** ** What is known about a device's namespace *)

Definition markNamespaceStateLost (id : string) : P unit := modify (set_psLost <[id := true]>).
Definition clearNamespaceStateLost (id : string) : P unit := modify (set_psLost <[id := false]>).
Definition namespaceStateLost (s : Pass) (id : string) : bool := lookup_or false (psLost s) id.
Definition markNamespaceUnproven (id reason : string) : P unit :=
  modify (set_psUnproven <[id := reason]>).
Definition unprovenNamespaceReason (s : Pass) (id : string) : option string :=
  if bool_decide (id ∈ psCreated s) then None else psUnproven s !! id.
Definition namespaceUnproven (s : Pass) (id : string) : bool :=
  bool_decide (is_Some (unprovenNamespaceReason s id)).
(** [UnprovenNamespaceDevices]. *)
Definition UnprovenNamespaceDevices (s : Pass) : gmap string string :=
  map_drop (fun id _ => bool_decide (id ∈ psCreated s)) (psUnproven s).
(** [DirtyNamespaceStateDevices]. *)
Definition DirtyNamespaceStateDevices (s : Pass) : list string :=
  sortStrings (map fst (map_to_list (psLost s))).
Definition resetPass (s : Pass) : Pass := mkPass ∅ ∅ ∅ (psPending s) (psLog s).

(** ** The continuity proof *)

Definition addNamespaceLinks (raw : string) : list string :=
  omap (fun line =>
    match fields (trimSpace line) with
    | _ :: name :: _ =>
        let name := (cut "@" (trimSuffix ":" name)).1 in
        if bool_decide (name = "") then None else Some name
    | _ => None
    end) (lines raw).

(** The lines before and after the first separator. *)
Fixpoint splitProbe (ls : list string) : option (list string * list string) :=
  match ls with
  | [] => None
  | l :: rest =>
      if bool_decide (trimSpace l = "---") then Some ([], rest)
      else '(a, b) ← splitProbe rest; Some (l :: a, b)
  end.
Definition splitNamespaceProbe (raw : string) : string * string :=
  match splitProbe (lines raw) with
  | Some (a, b) => (joinLines a, joinLines b)
  | None => (raw, "")
  end.

Definition stableLine (kind line : string) : bool :=
  if bool_decide (kind = KindAddrs) then hasPrefix line "addr " || hasPrefix line "link "
  else if bool_decide (kind = KindTunnels) then hasPrefix line "tunnel "
  else if bool_decide (kind = KindOVS) then hasPrefix line "port " else false.
Definition stableNamespaceFacts (kind raw : string) : list string :=
  List.filter (stableLine kind) (lines (CanonicalDynamicSnapshot kind raw)).

Definition modelledNamespaceInterfaces (d : EDevice) : list string :=
  sortStrings (omap (fun i => match eiLink i with
                              | Some _ => if bool_decide (eiName i = "") then None else Some (eiName i)
                              | None => None
                              end) (edIfaces d)).

Definition platformAddress (i : EIface) (address : string) : option string :=
  if bool_decide (address = "") || dynamicKernelAddress address then None
  else Some ("addr " +:+ (if occurs ":" address then "inet6" else "inet") +:+ " "
             +:+ eiName i +:+ " " +:+ address).
Definition modelledPlatformAddresses (d : EDevice) : list string :=
  sortStrings (i ← edIfaces d;
    match eiLink i with
    | Some _ => if bool_decide (eiName i = "") || negb (eiPlatform i) then []
                else omap (platformAddress i) [eiAddr4 i; eiAddr6 i]
    | None => []
    end).

Definition savedNamespaceFacts (device kind : string) : P (list string) :=
  r ← Current device kind;
  match r with
  | Ok content => mret (stableNamespaceFacts kind content)
  | Err NotExist =>
      has ← Has device kind;
      if (has : bool) then fail "snapshot is gone" else mret []
  | Err (Unreadable e) => fail e
  end.

(** [savedNamespaceObjects] with a store and a topology: the facts of each
    kind that has any. *)
Fixpoint savedKinds (device : string) (kinds : list string) : P (gmap string (list string)) :=
  match kinds with
  | [] => mret ∅
  | kind :: rest =>
      facts ← savedNamespaceFacts device kind;
      more ← savedKinds device rest;
      mret (if bool_decide (facts = []) then more else <[kind := facts]> more)
  end.
Definition savedNamespaceObjects (top : ETop) (d : EDevice) : P (gmap string (list string)) :=
  if bool_decide (is_Some (deviceByID top (edID d))) && negb (studentOwned top d)
  then mret ∅ else savedKinds (edID d) namespaceBackedKinds.

Definition kindCommand (kind : string) : Cmd :=
  if bool_decide (kind = KindTunnels) then CmdTunnels
  else if bool_decide (kind = KindOVS) then CmdSwitch else CmdProbe.
Definition namespaceReadingName (kind : string) : string :=
  if bool_decide (kind = KindTunnels) then "tunnels"
  else if bool_decide (kind = KindOVS) then "switch ports" else "network namespace".

(** The readings a proof makes; a kind that is saved and never read for such a
    device is a reason. *)
Definition namespaceReadings (d : EDevice) (saved : gmap string (list string))
    : result string (list string) :=
  let has kind := negb (bool_decide (lookup_or [] saved kind = [])) in
  if has KindTunnels && negb (bool_decide (edKind d = KindRouter))
  then Err "it has saved tunnels, which only a router's namespace is read for"
  else if has KindOVS && negb (bool_decide (edKind d = KindSwitch))
  then Err "it has saved switch ports, which only a switch's namespace is read for"
  else Ok (KindAddrs :: (if has KindTunnels then [KindTunnels] else [])
                     ++ (if has KindOVS then [KindOVS] else [])).

(** The netdevs and the facts seen in a namespace. *)
Record namespaceContents := mkContents { ncLinks : list string; ncFacts : list string }.

Definition readOne (d : EDevice) (kind : string) : P namespaceContents :=
  result ← try_catch (Exec (edContainer d) (kindCommand kind)) (fun e =>
    fail ("its " +:+ namespaceReadingName kind +:+ " could not be read: " +:+ e));
  refuse (negb (xrCode result =? 0)) ("reading its " +:+ namespaceReadingName kind +:+ " failed");;
  let body := xrStdout result in
  mret (if bool_decide (kind = KindAddrs) then
          let '(links, addrs) := splitNamespaceProbe body in
          mkContents (addNamespaceLinks links) (stableNamespaceFacts kind addrs)
        else mkContents [] (stableNamespaceFacts kind body)).
Fixpoint readAll (d : EDevice) (kinds : list string) : P namespaceContents :=
  match kinds with
  | [] => mret (mkContents [] [])
  | kind :: rest =>
      a ← readOne d kind;
      b ← readAll d rest;
      mret (mkContents (ncLinks a ++ ncLinks b) (ncFacts a ++ ncFacts b))
  end.
Definition readNamespaceContents (d : EDevice) (saved : gmap string (list string))
    : P namespaceContents :=
  readings ← lift (namespaceReadings d saved);
  readAll d readings.

Definition missingFrom (have want : list string) : option string :=
  List.find (fun x => negb (bool_decide (x ∈ have))) want.
Definition namespaceObjectName (kind fact : string) : string :=
  if hasPrefix fact "addr " then "address"
  else if hasPrefix fact "link vlan " then "VLAN interface"
  else if hasPrefix fact "link vrf " then "VRF interface"
  else if hasPrefix fact "tunnel " then "tunnel"
  else if hasPrefix fact "port " then "switch port" else kind +:+ " object".

(** What a proven namespace holds: the modelled interfaces, the platform's
    addresses, and every saved fact. *)
Definition continuity (d : EDevice) (saved : gmap string (list string)) (have : namespaceContents)
    : result string unit :=
  match missingFrom (ncLinks have) (modelledNamespaceInterfaces d) with
  | Some name => Err ("the modelled interface " +:+ name +:+ " is not in it")
  | None =>
      match missingFrom (ncFacts have) (modelledPlatformAddresses d) with
      | Some a => Err ("the platform address it should carry is not in it (" +:+ a +:+ ")")
      | None =>
          match List.find (fun p => negb (bool_decide (p.2 ∈ ncFacts have)))
                  (kind ← namespaceBackedKinds; fact ← lookup_or [] saved kind; [(kind, fact)]) with
          | Some (kind, fact) => Err ("the saved " +:+ namespaceObjectName kind fact +:+ " is not in it")
          | None => Ok tt
          end
      end
  end.

(** [provenNamespaceContinuity]; an error is the reason. *)
Definition provenNamespaceContinuity (top : ETop) (d : EDevice) : P unit :=
  saved ← try_catch (savedNamespaceObjects top d)
            (fun e => fail ("its saved network state could not be read: " +:+ e));
  have ← readNamespaceContents d saved;
  lift (continuity d saved have).

Definition proveNamespaceBaseline (top : ETop) (d : EDevice) : P NetnsIdentity :=
  before ← try_catch (NetnsIdentityOf (edContainer d))
             (fun _ => fail "its network namespace identity could not be read");
  refuse (negb (Known before)) "its network namespace identity could not be read";;
  provenNamespaceContinuity top d;;
  after ← try_catch (NetnsIdentityOf (edContainer d))
            (fun _ => fail "it restarted while its network namespace was being read");
  refuse (negb (Known after) || negb (SameAs after before))
    "it restarted while its network namespace was being read";;
  mret after.

(** ** The guard before anything is stored *)

(** [settleCaptureSafety]: the identity to record for a device that earned a
    baseline, or the unknown one. *)
Definition settleCaptureSafety (top : ETop) (tracker : observationTracker) (d : EDevice)
    : P NetnsIdentity :=
  s ← get;
  if namespaceStateLost s (edID d) || namespaceUnproven s (edID d) then mret unknownNetns else
  let recorded := lookup_or unknownNetns (noNamespaces (tkState tracker)) (edID d) in
  if negb (Known recorded) then
    try_catch (proveNamespaceBaseline top d) (fun reason =>
      markNamespaceUnproven (edID d) reason;; mret unknownNetns)
  else
    r ← asValue (NetnsIdentityOf (edContainer d));
    when (match r with Ok now => negb (Known now) || negb (SameAs now recorded) | Err _ => true end)
      (markNamespaceStateLost (edID d));;
    mret unknownNetns.

(** [runBounded]: the pool over the items in order; an item that was not
    started before a cancellation is [None], and then the context has an
    error. *)
Fixpoint poolFrom {X A} (i : nat) (items : list X) (f : X -> P A)
    : P (list (option (result string A))) :=
  match items with
  | [] => mret []
  | x :: rest =>
      s ← get;
      r ← (if hStarted host (psLog s) i then r ← asValue (f x); mret (Some r) else mret None);
      more ← poolFrom (S i) rest f;
      mret (r :: more)
  end.
Definition runBounded {X A} (items : list X) (f : X -> P A)
    : P (list (option (result string A)) * option string) :=
  rs ← poolFrom 0 items f;
  s ← get;
  mret (rs, match hContext host (psLog s) with
            | Some e => Some e
            | None => if existsb (fun r => match r with None => true | Some _ => false end) rs
                      then Some "context canceled" else None
            end).

(** Recording the proven baselines, in device order. *)
Fixpoint recordBaselinesOf (settled : list (EDevice * option (result string NetnsIdentity)))
    (t : observationTracker) : P observationTracker :=
  match settled with
  | [] => mret t
  | (d, Some (Ok identity)) :: rest =>
      recordBaselinesOf rest (if Known identity then bootstrapNamespace (edID d) identity t else t)
  | (d, Some (Err _)) :: rest => recordBaselinesOf rest t
  | (d, None) :: rest =>
      markNamespaceUnproven (edID d) "this capture was interrupted";;
      recordBaselinesOf rest t
  end.

(** [ensureCaptureSafety]: the problems. *)
Definition ensureCaptureSafety (top : ETop) (devices : list EDevice) (record : bool)
    : P (list string) :=
  if bool_decide (devices = []) || negb (cfProves cfg) then mret [] else
  file ← consult EvRead (hRead host);
  let '(tracker, problems) :=
    match loadObservation file (etName top) (cfNode cfg) with
    | Ok t => (t, [])
    | Err e => (newObservationTracker (etName top) (cfNode cfg),
                if cfDefaultRoot cfg then [] else ["read the recorded network namespaces: " +:+ e])
    end in
  '(settled, _) ← runBounded devices (settleCaptureSafety top tracker);
  tracker ← recordBaselinesOf (zip devices settled) tracker;
  if cfReadOnly cfg || negb record then mret problems
  else if negb (tkChanged tracker) then mret problems
  else
    w ← consult EvWrite (hWrite host);
    mret (match w with
          | Some e => if cfDefaultRoot cfg then problems
                      else problems ++ ["record proven network namespaces: " +:+ e]
          | None => problems
          end).

(** [restoreIsPending]. *)
Definition restoreIsPending (d : EDevice) : P bool :=
  s ← get;
  if bool_decide (edID d ∈ psPending s) then mret true else
  r ← asValue (Exec (edContainer d) CmdTestMark);
  mret (match r with Ok res => xrCode res =? 0 | Err _ => false end).

Definition storableSnapshots (d : EDevice) (snaps : list Snapshot) : P (list Snapshot) :=
  if negb (existsb (fun s => namespaceBackedKind (snKind s)) snaps) then mret snaps else
  s ← get;
  withheld ← (if namespaceStateLost s (edID d) || namespaceUnproven s (edID d) then mret true
              else restoreIsPending d);
  mret (if (withheld : bool)
        then List.filter (fun s => negb (namespaceBackedKind (snKind s))) snaps else snaps).

(** Writing a device's snapshots: how many were new, and the problems. *)
Fixpoint putAll (d : EDevice) (snaps : list Snapshot) : P (Z * list string) :=
  match snaps with
  | [] => mret (0, [])
  | sn :: rest =>
      r ← asValue (Put sn);
      '(saved, problems) ← putAll d rest;
      mret (match r with
            | Ok true => (1 + saved, problems)
            | Ok false => (saved, problems)
            | Err e => (saved, (edID d +:+ "/" +:+ snKind sn +:+ ": " +:+ e) :: problems)
            end)
  end.
Fixpoint storeEach (captures : list (EDevice * list Snapshot)) : P (Z * list string) :=
  match captures with
  | [] => mret (0, [])
  | (d, snaps) :: rest =>
      storable ← storableSnapshots d snaps;
      '(a, pa) ← putAll d storable;
      '(b, pb) ← storeEach rest;
      mret (a + b, pa ++ pb)
  end.
(** [storeCaptured] with a store. *)
Definition storeCaptured (top : ETop) (captures : list (EDevice * list Snapshot)) (record : bool)
    : P (Z * list string) :=
  if bool_decide (map fst captures = []) then mret (0, []) else
  problems ← ensureCaptureSafety top (map fst captures) record;
  '(saved, more) ← storeEach captures;
  mret (saved, problems ++ more).

(** ** Capturing a device *)

(** Why a capture is not complete; what it read is returned beside it. *)
Inductive captureErr := ErrNotRunning | ErrMissed (what : string).

Definition firstLine (s : string) : string :=
  match cut newline s with (line, Some _) => line | (_, None) => trimSpace s end.

(** A read that must not fail silently: its output, or what was missed. *)
Definition readCommand (d : EDevice) (what : string) (cmd : Cmd) : P (result string string) :=
  r ← asValue (Exec (edContainer d) cmd);
  mret (match r with
        | Err e => Err (what +:+ " could not be read: " +:+ e)
        | Ok res => if xrCode res =? 0 then Ok (xrStdout res)
                    else Err (what +:+ " could not be read: " +:+ firstLine (xrStderr res))
        end).

Definition daemonsDown : string := "failed to connect to any daemons".
Definition readFRRConfig (d : EDevice) : P (result string string) :=
  r ← asValue (Exec (edContainer d) CmdRunningConfig);
  match r with
  | Err e => mret (Err ("the routing configuration could not be read: " +:+ e))
  | Ok res =>
      if xrCode res =? 0 then mret (Ok (xrStdout res))
      else if contains daemonsDown (xrStderr res) || contains daemonsDown (xrStdout res) then
        fb ← asValue (Exec (edContainer d) CmdCatFRR);
        mret (match fb with
              | Ok f => if xrCode f =? 0 then Ok (xrStdout f)
                        else Err "FRR is not answering and its file could not be read"
              | Err e => Err ("FRR is not answering and its file could not be read: " +:+ e)
              end)
      else mret (Err "the routing configuration could not be read")
  end.

(** [cleanRunningConfig]: without vtysh's preamble. *)
Definition preamble (l : string) : bool :=
  let t := trimSpace l in
  bool_decide (t = "") || hasPrefix t "Building configuration" || hasPrefix t "Current configuration".
Fixpoint dropPreamble (ls : list string) : list string :=
  match ls with
  | [] => []
  | l :: rest => if preamble l then dropPreamble rest else ls
  end.
Fixpoint trimRightNL (s : string) : string :=
  match s with
  | EmptyString => ""
  | String c rest =>
      let t := trimRightNL rest in
      if bool_decide (t = "") && bool_decide (c = newline) then "" else String c t
  end.
Definition cleanRunningConfig (out : string) : string :=
  trimRightNL (joinLines (dropPreamble (lines out))).

(** [add]: an empty canonical body is no snapshot. *)
Definition snapshotOf (top : ETop) (d : EDevice) (kind body : string) : list Snapshot :=
  let body := CanonicalDynamicSnapshot kind body in
  if bool_decide (body = "") then []
  else [mkSnapshot (etName top) (edASN d) (edID d) kind (etHash top)
          (if hasSuffix body (String newline "") then body else body +:+ String newline "")].

(** One reading with the snapshots it gives and what it missed. *)
Definition reading (top : ETop) (d : EDevice) (kind : string) (m : P (result string string))
    : P (list Snapshot * list string) :=
  r ← m;
  mret (match r with
        | Ok body => (snapshotOf top d kind body, [])
        | Err e => ([], [e])
        end).
Definition both (a b : P (list Snapshot * list string)) : P (list Snapshot * list string) :=
  '(sa, ma) ← a;
  '(sb, mb) ← b;
  mret (sa ++ sb, ma ++ mb).

(** The registered providers ([nos.Resolve]). *)
Definition resolveNOS (d : EDevice) : option string :=
  let name := if bool_decide (edNOS d = "") then "frr" else edNOS d in
  if bool_decide (name = "frr") || bool_decide (name = "bird") then Some name else None.

(** The NOS of a router: FRR's configuration is read here, another provider
    saves its own, and one that is not registered is a missed read. *)
Definition readNOS (top : ETop) (d : EDevice) : P (list Snapshot * list string) :=
  match resolveNOS d with
  | None => mret ([], ["the NOS configuration of " +:+ edID d +:+ " could not be read"])
  | Some name =>
      if bool_decide (name = "frr") then
        reading top d KindFRR (r ← readFRRConfig d;
          mret (match r with Ok body => Ok (cleanRunningConfig body) | Err e => Err e end))
      else
        r ← asValue (call (EvSave (edID d)) (fun h => hProviderSave host h d));
        mret (match r with Ok snaps => (snaps, []) | Err e => ([], [e]) end)
  end.

Definition readDevice (top : ETop) (d : EDevice) : P (list Snapshot * list string) :=
  let addrs := reading top d KindAddrs (readCommand d "the addresses and routes" CmdAddrs) in
  if bool_decide (edKind d = KindRouter) then
    both (readNOS top d)
      (both (reading top d KindTunnels (readCommand d "the tunnels" CmdTunnels)) addrs)
  else if bool_decide (edKind d = KindHost) then addrs
  else if bool_decide (edKind d = KindSwitch) then
    reading top d KindOVS (readCommand d "the switch ports" CmdSwitch)
  else mret ([], []).

Definition Capture (top : ETop) (d : EDevice) : P (list Snapshot * option captureErr) :=
  r ← asValue (Inspect (edContainer d));
  match r with
  | Err e => mret ([], Some (ErrMissed e))
  | Ok c =>
      if bool_decide (ctState c = StateAbsent) then mret ([], None)
      else if negb (Joinable (ctState c)) then mret ([], Some ErrNotRunning)
      else
        '(snaps, missed) ← readDevice top d;
        mret (snaps, match missed with [] => None | m :: _ => Some (ErrMissed m) end)
  end.

(** A capture under the capture budget; an acquisition that fails reads
    nothing. *)
Definition limitedCapture (top : ETop) (d : EDevice) : P (list Snapshot * option captureErr) :=
  r ← asValue (limited (Capture top d));
  mret (match r with Ok x => x | Err e => ([], Some (ErrMissed e)) end).

(** [captureSelected]: how many snapshots were new, and the error. *)
Definition deviceLe (a b : EDevice) : Prop := String.le (edID a) (edID b).
#[local] Instance deviceLe_dec : RelDecision deviceLe := fun a b => decide (String.le (edID a) (edID b)).
Definition deterministicError (ctxErr : option string) (problems : list string) : option string :=
  match problems with [] => ctxErr | p :: _ => Some p end.
Definition captureProblem (p : EDevice * option (result string (list Snapshot * option captureErr)))
    : option string :=
  match p.2 with
  | Some (Ok (_, Some (ErrMissed e))) => Some (edID p.1 +:+ ": " +:+ e)
  | Some (Err e) => Some (edID p.1 +:+ ": " +:+ e)
  | _ => None
  end.
Definition capturedSnaps (r : option (result string (list Snapshot * option captureErr)))
    : list Snapshot :=
  match r with Some (Ok (snaps, _)) => snaps | _ => [] end.
Definition captureSelected (top : ETop) (only : option (gset string)) : P (Z * option string) :=
  if negb (cfStore cfg) || cfWritesReference cfg then mret (0, None) else
  let devices := merge_sort deviceLe
    (List.filter (fun d => studentOwned top d
                           && match only with None => true | Some ids => bool_decide (edID d ∈ ids) end)
       (devicesOn top (cfNode cfg))) in
  '(rs, ctxErr) ← runBounded devices (limitedCapture top);
  let problems := omap captureProblem (zip devices rs) in
  '(saved, more) ← storeCaptured top (zip devices (map capturedSnaps rs)) true;
  mret (saved, deterministicError ctxErr (problems ++ more)).
End Guard.
