(* ===== verification/Restore.v ===== *)
(** * The deployment engine: restoring student work

    Models [Restore] of [deploy/preserve.go] with [resetDynamicState] and the
    waits for a routing daemon: the saved tunnels, addresses and switch ports
    are replayed command by command after the stale state is removed, and the
    saved routing configuration is loaded. The provider of a network operating
    system other than FRR restores its own configuration, which is a call to
    the host. A wait polls until the host says that its time is over, at the
    latest after the ticks of thirty seconds. *)

From stdpp Require Import base gmap strings list fin_maps sorting.
From Stdlib Require Import ZArith Lia Ascii.
From S2P Require Import Prelude Text Model Engine Canonical Preserve.

Local Open Scope string_scope.
Local Open Scope list_scope.
Local Open Scope Z_scope.

(** ** What of a saved configuration is loaded *)

Definition platformLine (line : string) : bool :=
  let t := trimSpace line in
  bool_decide (t = "ipv6 forwarding") || bool_decide (t = "no ipv6 forwarding")
  || hasPrefix t "hostname " || hasPrefix t "frr version " || hasPrefix t "frr defaults "
  || bool_decide (t = "service integrated-vtysh-config") || bool_decide (t = "end").
Definition cleanRestoredFRRConfig (out : string) : string :=
  trimRightNL (joinLines (List.filter (fun l => negb (platformLine l)) (lines (cleanRunningConfig out)))).

Definition dynamicResetAttempts : nat := 4.
(** The ticks of a wait of thirty seconds, one each 250 milliseconds. *)
Definition readyPolls : nat := 121.

Section Restore.
Variable host : Host.
Variable cfg : Config.
Abbreviation Exec := (Preserve.Exec host) (only parsing).
Abbreviation Current := (Preserve.Current host) (only parsing).

(** [run]. *)
Fixpoint runAll (d : EDevice) (cmds : list string) : P unit :=
  match cmds with
  | [] => mret tt
  | cmd :: rest =>
      res ← try_catch (Exec (edContainer d) (CmdShell cmd)) (fun e => fail ("restore command: " +:+ e));
      refuse (negb (xrCode res =? 0)) ("restore command exited: " +:+ firstLine (xrStderr res));;
      runAll d rest
  end.

(** [load]. *)
Definition load (d : EDevice) (kind : string) : P (option string) :=
  r ← Current (edID d) kind;
  match r with
  | Err NotExist => mret None
  | Err (Unreadable e) => fail ("reading the saved state: " +:+ e)
  | Ok content => mret (if bool_decide (content = "") then None else Some content)
  end.

(** [resetDynamicState]: the first attempt does not wait. *)
Fixpoint resetAttempts (attempts : nat) (first : bool) (last : string) (d : EDevice) (kind : string) : P unit :=
  match attempts with
  | O => fail last
  | S attempts =>
      s ← get;
      match (if first then None else hContext host (psLog s)) with
      | Some cancelled => fail cancelled
      | None =>
          r ← asValue (Exec (edContainer d) (CmdReset kind));
          match r with
          | Err e => resetAttempts attempts false ("reset restored state: " +:+ e) d kind
          | Ok res => if xrCode res =? 0 then mret tt
                      else resetAttempts attempts false ("reset restored state exited: " +:+ firstLine (xrStderr res)) d kind
          end
      end
  end.
Definition resetDynamicState (d : EDevice) (kind : string) : P unit :=
  if bool_decide (kind ∈ namespaceBackedKinds) then resetAttempts dynamicResetAttempts true "" d kind
  else mret tt.

(** [replay]. *)
Definition replay (d : EDevice) (kind : string) (build : string -> list string) : P bool :=
  saved ← load d kind;
  match saved with
  | None => mret false
  | Some body =>
      resetDynamicState d kind;;
      match build body with
      | [] => mret (bool_decide (kind ∈ namespaceBackedKinds))
      | cmds => runAll d cmds;; mret true
      end
  end.

(** [waitForFRRRestoreReady] and [waitForBIRDRestoreReady]. *)
Fixpoint waitReady (polls : nat) (d : EDevice) (cmd : Cmd) : P unit :=
  match polls with
  | O => fail "wait for routing daemon readiness"
  | S polls =>
      r ← asValue (Exec (edContainer d) cmd);
      if match r with Ok res => xrCode res =? 0 | Err _ => false end then mret tt else
      s ← get;
      if hDeadline host (psLog s) then fail "wait for routing daemon readiness"
      else waitReady polls d cmd
  end.

Definition CopyTo (d : EDevice) (body : string) : P unit :=
  call (EvCopy (edContainer d) body) (fun h => hCopy host h (edContainer d) body).
Definition ProviderRestore (d : EDevice) (body : string) : P unit :=
  call (EvProviderRestore (edID d) body) (fun h => hProviderRestore host h d body).

(** The routing configuration of a router that runs another NOS, and of one
    that runs FRR: whether anything was restored. *)
Definition restoreProvider (d : EDevice) : P bool :=
  saved ← load d KindBIRD;
  match saved with
  | None => mret false
  | Some body => waitReady readyPolls d CmdBirdStatus;; ProviderRestore d body;; mret true
  end.
Definition restoreFRR (d : EDevice) : P bool :=
  saved ← load d KindFRR;
  match saved with
  | None => mret false
  | Some body =>
      waitReady readyPolls d CmdShowVersion;;
      try_catch (CopyTo d (cleanRestoredFRRConfig body +:+ String newline ""))
        (fun e => fail ("copy saved configuration: " +:+ e));;
      res ← try_catch (Exec (edContainer d) CmdLoadFRR) (fun e =>
              ignore (Exec (edContainer d) CmdRemoveFRR);; fail ("restore: " +:+ e));
      refuse (negb (xrCode res =? 0)) ("restore: vtysh exited: " +:+ firstLine (xrStderr res));;
      mret true
  end.

(** The tunnels, addresses and routes of a router, in the order they depend on
    each other. *)
Definition restoreFacts (d : EDevice) : P bool :=
  tunnels ← load d KindTunnels;
  addrs ← load d KindAddrs;
  match tunnels with
  | Some body => resetDynamicState d KindTunnels;; runAll d (tunnelObjectReplay body)
  | None => mret tt
  end;;
  match addrs with
  | Some body => resetDynamicState d KindAddrs;; runAll d (addrReplay body)
  | None => mret tt
  end;;
  match tunnels with
  | Some body => runAll d (tunnelRouteReplay body)
  | None => mret tt
  end;;
  mret (bool_decide (is_Some tunnels) || bool_decide (is_Some addrs)).

Definition Restore (d : EDevice) : P bool :=
  if negb (cfStore cfg) then mret false else
  if bool_decide (edKind d = KindRouter) then
    match resolveNOS d with
    | None => fail "resolve NOS for saved configuration"
    | Some name =>
        facts ← restoreFacts d;
        config ← (if bool_decide (name = "frr") then restoreFRR d else restoreProvider d);
        mret (facts || config)
    end
  else if bool_decide (edKind d = KindHost) then replay d KindAddrs addrReplay
  else if bool_decide (edKind d = KindSwitch) then replay d KindOVS ovsReplay
  else mret false.
End Restore.

(** ** Traces *)

(** The commands that succeeded, in order, and those that did not, with the
    containers they ran in. *)
Definition succeeded (ev : list Event) : list (string * Cmd) :=
  omap (fun e => match e with
                 | EvExec c cmd (Ok res) => if xrCode res =? 0 then Some (c, cmd) else None
                 | _ => None
                 end) ev.
Definition failed (ev : list Event) : list (string * Cmd) :=
  omap (fun e => match e with
                 | EvExec c cmd (Ok res) => if xrCode res =? 0 then None else Some (c, cmd)
                 | EvExec c cmd (Err _) => Some (c, cmd)
                 | _ => None
                 end) ev.
(** The commands that may be tried again. *)
Definition retried (cmd : Cmd) : Prop :=
  match cmd with CmdReset _ | CmdShowVersion | CmdBirdStatus => True | _ => False end.

(** A run that did these commands in a container and nothing elsewhere, each
    of them in the end with success. *)
Definition ran (c : string) (cmds : list Cmd) (ev : list Event) : Prop :=
  succeeded ev = map (pair c) cmds /\ Forall (fun p => p.1 = c /\ retried p.2) (failed ev).
Lemma ran_nil c : ran c [] [].
Proof. by split; [|constructor]. Qed.
Lemma ran_app c a b e f : ran c a e -> ran c b f -> ran c (a ++ b) (e ++ f).
Proof.
  intros [A1 A2] [B1 B2]. split.
  - unfold succeeded in *. by rewrite omap_app, A1, B1, map_app.
  - unfold failed. rewrite omap_app. by apply Forall_app.
Qed.
Lemma ran_app_nil c a e f : ran c [] e -> ran c a f -> ran c a (e ++ f).
Proof. intros He Hf. apply (ran_app c [] a); done. Qed.

(** What a successful run of [m] adds to the log. *)
Definition does {A} (m : P A) (Q : A -> list Event -> Prop) : Prop :=
  forall s s' a, m s = (s', Ok a) -> exists ev, psLog s' = psLog s ++ ev /\ Q a ev.

Lemma does_ret {A} (a : A) (Q : A -> list Event -> Prop) : Q a [] -> does (mret a) Q.
Proof. intros H s s' b [= <- <-]. exists []. by rewrite app_nil_r. Qed.
Lemma does_fail {A} e (Q : A -> list Event -> Prop) : does (fail e) Q.
Proof. by intros s s' a [=]. Qed.
Lemma does_bind {A B} (m : P A) (k : A -> P B) Q R :
  does m Q -> (forall a e, Q a e -> does (k a) (fun b f => R b (e ++ f))) -> does (m ≫= k) R.
Proof.
  intros Hm Hk s s' b H. apply bind_ok_inv in H as (s1 & a & H1 & H2).
  destruct (Hm _ _ _ H1) as (e & E1 & HQ). destruct (Hk a e HQ _ _ _ H2) as (f & E2 & HR).
  exists (e ++ f). split; [|done]. by rewrite E2, E1, app_assoc.
Qed.
Lemma does_then {A} (m : P unit) (k : P A) (Q : list Event -> Prop) R :
  does m (fun _ => Q) -> (forall e, Q e -> does k (fun b f => R b (e ++ f))) -> does (m;; k) R.
Proof. intros Hm Hk. eapply does_bind; [exact Hm|]. intros ? e. apply Hk. Qed.
Lemma does_mono {A} (m : P A) (Q R : A -> list Event -> Prop) :
  (forall a e, Q a e -> R a e) -> does m Q -> does m R.
Proof. intros H Hm s s' a E. destruct (Hm _ _ _ E) as (e & ? & ?). eauto. Qed.
Lemma does_get {A} (k : Pass -> P A) (R : A -> list Event -> Prop) :
  (forall s, does (k s) R) -> does (get ≫= k) R.
Proof. intros H s s' a E. by apply (H s). Qed.
Lemma does_refuse c e (Q : unit -> list Event -> Prop) : Q tt [] -> does (refuse c e) Q.
Proof. intros H. unfold refuse. destruct c; [apply does_fail|by apply does_ret]. Qed.
Lemma does_catch {A} (m : P A) h (Q : A -> list Event -> Prop) :
  (forall e s, exists e', (h e s).2 = Err e') -> does m Q -> does (try_catch m h) Q.
Proof.
  intros Hh Hm s s' a. unfold try_catch. destruct (m s) as [s1 [b|e]] eqn:E.
  - intros [= <- <-]. by apply Hm.
  - intros H. destruct (Hh e s1) as [e' He]. by rewrite H in He.
Qed.
Lemma does_call {A} (mk : result string A -> Event) f (Q : A -> list Event -> Prop) :
  (forall a, Q a [mk (Ok a)]) -> does (call mk f) Q.
Proof.
  intros H s s' a. unfold call. destruct (f (psLog s)) as [b|e]; [|done]. intros [= <- <-].
  exists [mk (Ok b)]. by destruct s.
Qed.
Lemma does_asValue {A} (mk : result string A -> Event) f (Q : result string A -> list Event -> Prop) :
  (forall r, Q r [mk r]) -> does (asValue (call mk f)) Q.
Proof. intros H s s' a. unfold asValue, call. intros [= <- <-]. eexists. by split; [destruct s|]. Qed.

Section Runs.
Variable host : Host.
Variable cfg : Config.
Variable d : EDevice.

Lemma does_runAll cmds : does (runAll host d cmds) (fun _ ev => ran (edContainer d) (map CmdShell cmds) ev).
Proof.
  induction cmds as [|cmd cmds IH]; [by apply does_ret, ran_nil|]. cbn [runAll map].
  eapply (does_bind _ _ (fun res ev => ev = [EvExec (edContainer d) (CmdShell cmd) (Ok res)])).
  - apply does_catch; [by eexists|]. by apply does_call.
  - intros res e ->. unfold refuse. destruct (xrCode res =? 0) eqn:E; [|intros s s' a; by intros [=]].
    intros s s' a H. destruct (IH _ _ _ H) as (f & Hf & Hr). exists f. split; [done|].
    apply (ran_app _ [CmdShell cmd]); [|done]. split; simpl; rewrite E; by repeat constructor.
Qed.

(** What the store answered. *)
Definition saved (kind : string) (o : option string) (ev : list Event) : Prop :=
  match o with
  | Some body => EvCurrent (edID d) kind (Ok body) ∈ ev /\ body <> ""
  | None => EvCurrent (edID d) kind (Ok "") ∈ ev \/ EvCurrent (edID d) kind (Err NotExist) ∈ ev
  end.
Lemma saved_left kind o e f : saved kind o e -> saved kind o (e ++ f).
Proof. destruct o; simpl; rewrite !elem_of_app; tauto. Qed.
Lemma saved_right kind o e f : saved kind o f -> saved kind o (e ++ f).
Proof. destruct o; simpl; rewrite !elem_of_app; tauto. Qed.

Lemma does_load kind : does (load host d kind) (fun o ev => ran (edContainer d) [] ev /\ saved kind o ev).
Proof.
  eapply (does_bind _ _ (fun r ev => ev = [EvCurrent (edID d) kind r])).
  { intros s s' r [= <- <-]. eexists. by split; [destruct s|]. }
  intros [content|[|e]] ev ->; [| |apply does_fail]; apply does_ret; (split; [by split; [|constructor]|]).
  - case_bool_decide as Hc; simpl; [subst; left; left|split; [left|done]].
  - right. left.
Qed.

Lemma does_reset kind :
  kind ∈ namespaceBackedKinds -> does (resetDynamicState host d kind) (fun _ ev => ran (edContainer d) [CmdReset kind] ev).
Proof.
  intros Hk. unfold resetDynamicState. rewrite bool_decide_true by done.
  generalize dynamicResetAttempts true "". intros n. induction n as [|n IH]; intros first last; [apply does_fail|].
  cbn [resetAttempts]. apply does_get. intros s0.
  destruct (if first then None else hContext host (psLog s0)); [apply does_fail|].
  eapply does_bind; [apply (does_asValue _ _ (fun r ev => ev = [EvExec (edContainer d) (CmdReset kind) r])); done|].
  assert (forall r l, ran (edContainer d) [] [EvExec (edContainer d) (CmdReset kind) r] ->
    does (resetAttempts host n false l d kind)
      (fun _ f => ran (edContainer d) [CmdReset kind] ([EvExec (edContainer d) (CmdReset kind) r] ++ f))) as Hagain.
  { intros r l Hr. eapply does_mono; [|apply IH]. intros ? f. by apply ran_app_nil. }
  intros [res|e] ev ->.
  - destruct (xrCode res =? 0) eqn:E.
    + apply does_ret. split; simpl; rewrite E; by repeat constructor.
    + apply Hagain. split; simpl; rewrite E; by repeat constructor.
  - apply Hagain. by repeat constructor.
Qed.

Lemma does_wait cmd n : retried cmd -> does (waitReady host n d cmd) (fun _ ev => ran (edContainer d) [cmd] ev).
Proof.
  intros Hc. induction n as [|n IH]; [apply does_fail|]. cbn [waitReady].
  eapply does_bind; [apply (does_asValue _ _ (fun r ev => ev = [EvExec (edContainer d) cmd r])); done|].
  intros r ev ->. destruct (match r with Ok res => xrCode res =? 0 | Err _ => false end) eqn:E.
  - apply does_ret. destruct r as [res|]; [|done]. split; simpl; rewrite E; by repeat constructor.
  - apply does_get. intros s0. destruct (hDeadline host (psLog s0)); [apply does_fail|].
    eapply does_mono; [|apply IH]. intros ? f. apply ran_app_nil.
    destruct r as [res|]; split; simpl; rewrite ?E; by repeat constructor.
Qed.

(** *** What a device's saved state asks for *)

Definition replayScript (kind : string) (build : string -> list string) (o : option string) : list Cmd :=
  match o with Some body => CmdReset kind :: map CmdShell (build body) | None => [] end.
Definition factsScript (tunnels addrs : option string) : list Cmd :=
  replayScript KindTunnels tunnelObjectReplay tunnels ++ replayScript KindAddrs addrReplay addrs
  ++ match tunnels with Some body => map CmdShell (tunnelRouteReplay body) | None => [] end.

Lemma does_replayScript kind build o :
  kind ∈ namespaceBackedKinds ->
  does (match o with
        | Some body => resetDynamicState host d kind;; runAll host d (build body)
        | None => mret tt
        end) (fun _ ev => ran (edContainer d) (replayScript kind build o) ev).
Proof.
  intros Hk. destruct o as [body|]; [|by apply does_ret, ran_nil].
  eapply does_then; [by apply does_reset|]. intros e He.
  eapply does_mono; [|apply does_runAll]. intros ? f. by apply (ran_app _ [_]).
Qed.

Lemma does_facts :
  does (restoreFacts host d) (fun b ev => exists tunnels addrs,
    saved KindTunnels tunnels ev /\ saved KindAddrs addrs ev /\ ran (edContainer d) (factsScript tunnels addrs) ev /\
    b = bool_decide (is_Some tunnels) || bool_decide (is_Some addrs)).
Proof.
  unfold restoreFacts. eapply does_bind; [apply does_load|]. intros t e1 [R1 S1].
  eapply does_bind; [apply does_load|]. intros a e2 [R2 S2].
  eapply does_then; [apply does_replayScript; by right; left|]. intros e3 R3.
  eapply does_then; [apply does_replayScript; by left|]. intros e4 R4.
  eapply (does_then _ _ (fun ev => ran (edContainer d) (match t with Some body => map CmdShell (tunnelRouteReplay body) | None => [] end) ev)).
  { destruct t; [apply does_runAll|by apply does_ret, ran_nil]. }
  intros e5 R5. apply does_ret. exists t, a. split; [by apply saved_left|].
  split; [by apply saved_right, saved_left|]. split; [|done].
  apply ran_app_nil; [done|]. apply ran_app_nil; [done|]. apply ran_app; [done|]. apply ran_app; [done|].
  by rewrite app_nil_r.
Qed.

Lemma does_FRR :
  does (restoreFRR host d) (fun b ev => exists o, saved KindFRR o ev /\ b = bool_decide (is_Some o) /\
    match o with
    | Some body => ran (edContainer d) [CmdShowVersion; CmdLoadFRR] ev /\
        EvCopy (edContainer d) (cleanRestoredFRRConfig body +:+ String newline "") (Ok tt) ∈ ev
    | None => ran (edContainer d) [] ev
    end).
Proof.
  unfold restoreFRR. eapply does_bind; [apply does_load|]. intros o e1 [R1 S1].
  destruct o as [body|]; [|apply does_ret; exists None; rewrite app_nil_r; done].
  eapply does_then; [by apply does_wait|]. intros e2 R2.
  eapply (does_then _ _ (fun ev => ev = [EvCopy (edContainer d) (cleanRestoredFRRConfig body +:+ String newline "") (Ok tt)])).
  { apply does_catch; [by eexists|]. apply does_call. by intros []. }
  intros e3 ->. eapply (does_bind _ _ (fun res ev => ev = [EvExec (edContainer d) CmdLoadFRR (Ok res)])).
  { apply does_catch; [by eexists|]. by apply does_call. }
  intros res e4 ->. unfold refuse. destruct (xrCode res =? 0) eqn:E; [|intros s s' b; by intros [=]].
  intros s s' b [= <- <-]. exists []. split; [by rewrite app_nil_r|]. exists (Some body).
  split; [by apply saved_left|]. split; [done|]. split.
  - apply ran_app_nil; [done|]. apply (ran_app _ [_]); [done|]. split; simpl; rewrite E; by repeat constructor.
  - rewrite !elem_of_app. right; right; left. left.
Qed.

Lemma does_provider :
  does (restoreProvider host d) (fun b ev => exists o, saved KindBIRD o ev /\ b = bool_decide (is_Some o) /\
    match o with
    | Some body => ran (edContainer d) [CmdBirdStatus] ev /\ EvProviderRestore (edID d) body (Ok tt) ∈ ev
    | None => ran (edContainer d) [] ev
    end).
Proof.
  unfold restoreProvider. eapply does_bind; [apply does_load|]. intros o e1 [R1 S1].
  destruct o as [body|]; [|apply does_ret; exists None; rewrite app_nil_r; done].
  eapply does_then; [by apply does_wait|]. intros e2 R2.
  eapply (does_then _ _ (fun ev => ev = [EvProviderRestore (edID d) body (Ok tt)])).
  { apply does_call. by intros []. }
  intros e3 ->. apply does_ret. exists (Some body). split; [by apply saved_left|]. split; [done|].
  rewrite app_nil_r. split.
  - apply ran_app_nil; [done|]. rewrite <- (app_nil_r [CmdBirdStatus]). apply ran_app; [done|]. by split; [|constructor].
  - rewrite !elem_of_app. right; right. left.
Qed.

Lemma does_replay kind build :
  kind ∈ namespaceBackedKinds ->
  does (replay host d kind build) (fun b ev => exists o,
    saved kind o ev /\ ran (edContainer d) (replayScript kind build o) ev /\ b = bool_decide (is_Some o)).
Proof.
  intros Hk. unfold replay. eapply does_bind; [apply does_load|]. intros o e1 [R1 S1].
  destruct o as [body|]; [|apply does_ret; exists None; rewrite app_nil_r; done].
  eapply does_then; [by apply does_reset|]. intros e2 R2.
  assert (forall cmds, build body = cmds -> does (runAll host d cmds;; mret true) (fun b f => exists o,
    saved kind o (e1 ++ e2 ++ f) /\ ran (edContainer d) (replayScript kind build o) (e1 ++ e2 ++ f) /\ b = bool_decide (is_Some o))) as Hrun.
  { intros cmds <-. eapply does_then; [apply does_runAll|]. intros e3 R3. apply does_ret. exists (Some body).
    split; [by apply saved_left|]. split; [|done]. apply ran_app_nil; [done|]. apply (ran_app _ [_]); [done|].
    by rewrite app_nil_r. }
  destruct (build body) as [|cmd cmds] eqn:E; [|by apply Hrun].
  rewrite bool_decide_true by done. by apply (Hrun []).
Qed.
End Runs.

(** The kinds a device's state is saved under. *)
Definition restoredKinds (d : EDevice) : list string :=
  if bool_decide (edKind d = KindRouter)
  then [KindTunnels; KindAddrs; if bool_decide (resolveNOS d = Some "frr") then KindFRR else KindBIRD]
  else if bool_decide (edKind d = KindHost) then [KindAddrs]
  else if bool_decide (edKind d = KindSwitch) then [KindOVS] else [].
(** What is run for it: [look] is what is saved under each kind. *)
Definition configScript (d : EDevice) (look : string -> option string) : list Cmd :=
  if bool_decide (resolveNOS d = Some "frr")
  then match look KindFRR with Some _ => [CmdShowVersion; CmdLoadFRR] | None => [] end
  else match look KindBIRD with Some _ => [CmdBirdStatus] | None => [] end.
Definition restoreScript (d : EDevice) (look : string -> option string) : list Cmd :=
  if bool_decide (edKind d = KindRouter)
  then factsScript (look KindTunnels) (look KindAddrs) ++ configScript d look
  else if bool_decide (edKind d = KindHost) then replayScript KindAddrs addrReplay (look KindAddrs)
  else if bool_decide (edKind d = KindSwitch) then replayScript KindOVS ovsReplay (look KindOVS) else [].
(** The routing configuration was handed over. *)
Definition configLoaded (d : EDevice) (look : string -> option string) (ev : list Event) : Prop :=
  edKind d = KindRouter ->
  (resolveNOS d = Some "frr" -> forall body, look KindFRR = Some body ->
     EvCopy (edContainer d) (cleanRestoredFRRConfig body +:+ String newline "") (Ok tt) ∈ ev) /\
  (resolveNOS d = Some "bird" -> forall body, look KindBIRD = Some body ->
     EvProviderRestore (edID d) body (Ok tt) ∈ ev).

Definition replayed (d : EDevice) (b : bool) (ev : list Event) : Prop :=
  exists look, Forall (fun kind => saved d kind (look kind) ev) (restoredKinds d) /\
    ran (edContainer d) (restoreScript d look) ev /\ configLoaded d look ev /\
    b = existsb (fun kind => bool_decide (is_Some (look kind))) (restoredKinds d).

Lemma router_replayed d name tunnels addrs o e1 e2 b1 b2 :
  edKind d = KindRouter -> resolveNOS d = Some name ->
  saved d KindTunnels tunnels e1 -> saved d KindAddrs addrs e1 -> ran (edContainer d) (factsScript tunnels addrs) e1 ->
  b1 = bool_decide (is_Some tunnels) || bool_decide (is_Some addrs) -> b2 = bool_decide (is_Some o) ->
  saved d (if bool_decide (name = "frr") then KindFRR else KindBIRD) o e2 ->
  match o with
  | Some body => if bool_decide (name = "frr")
      then ran (edContainer d) [CmdShowVersion; CmdLoadFRR] e2 /\
           EvCopy (edContainer d) (cleanRestoredFRRConfig body +:+ String newline "") (Ok tt) ∈ e2
      else ran (edContainer d) [CmdBirdStatus] e2 /\ EvProviderRestore (edID d) body (Ok tt) ∈ e2
  | None => ran (edContainer d) [] e2
  end -> replayed d (b1 || b2) (e1 ++ e2).
Proof.
  intros Hk Hn S1 S2 R1 -> -> S3 R2.
  set (look := fun kind => if bool_decide (kind = KindTunnels) then tunnels
                           else if bool_decide (kind = KindAddrs) then addrs else o).
  assert (look KindTunnels = tunnels /\ look KindAddrs = addrs /\ look KindFRR = o /\ look KindBIRD = o)
    as (L1 & L2 & L3 & L4) by done.
  exists look. clearbody look.
  assert (bool_decide (resolveNOS d = Some "frr") = bool_decide (name = "frr")) as Ef.
  { rewrite Hn. apply bool_decide_ext. split; [by intros [= ->]|by intros ->]. }
  unfold restoredKinds, restoreScript, configScript.
  rewrite Ef, !(bool_decide_true (edKind d = KindRouter)), L1, L2, L3, L4 by done.
  assert (look (if bool_decide (name = "frr") then KindFRR else KindBIRD) = o) as L5 by (by destruct (bool_decide (name = "frr"))).
  split; [|split; [|split]].
  - repeat apply Forall_cons_2; rewrite ?L1, ?L2, ?L5; [by apply saved_left..|by apply saved_right|constructor].
  - apply ran_app; [done|]. by destruct o as [body|], (bool_decide (name = "frr")); try apply R2.
  - intros _. rewrite L3, L4. split; intros Hr body ->; rewrite Hn in Hr; injection Hr as ->;
      apply elem_of_app; right; apply R2.
  - cbn [existsb]. by rewrite L1, L2, L5, orb_false_r, orb_assoc.
Qed.

(** C12. A restore that reports success has replayed everything that is saved of
    the device: the store was asked for each kind of state the device has, and
    the commands that were run, all of them in its own container and with
    success, are, in this order, the reset and creation of its saved tunnels, the reset of
    stale addresses and the replay of its saved links, addresses and routes,
    the routes over its tunnels, and the loading of its saved routing
    configuration (for a host the addresses, for a switch the ports). Nothing
    but resets and readiness polls has failed on the way, and "restored" is
    reported exactly when something was saved. *)
Theorem restore_replays_what_is_saved host cfg d s s' b :
  cfStore cfg = true -> Restore host cfg d s = (s', Ok b) ->
  exists ev, psLog s' = psLog s ++ ev /\ replayed d b ev.
Proof.
  intros Hst. revert s s' b. change (does (Restore host cfg d) (replayed d)). unfold Restore. rewrite Hst. cbn [negb].
  case_bool_decide as Hr; [|case_bool_decide as Hh; [|case_bool_decide as Hs]].
  - destruct (resolveNOS d) as [name|] eqn:Hn; [|apply does_fail].
    eapply does_bind; [apply does_facts|]. intros b1 e1 (t & a & S1 & S2 & R1 & ->).
    eapply (does_bind _ _ (fun b2 e2 => replayed d (_ || b2) (e1 ++ e2))).
    + destruct (bool_decide (name = "frr")) eqn:Ef.
      * eapply does_mono; [|apply does_FRR]. intros b2 e2 (o & S3 & -> & R2).
        eapply router_replayed; try done; rewrite Ef; done.
      * eapply does_mono; [|apply does_provider]. intros b2 e2 (o & S3 & -> & R2).
        eapply router_replayed; try done; rewrite Ef; done.
    + intros b2 e2 H. apply does_ret. by rewrite app_nil_r.
  - eapply does_mono; [|apply does_replay; by left]. intros b ev (o & S1 & R1 & ->). exists (fun _ => o).
    unfold restoredKinds, restoreScript. rewrite (bool_decide_false (edKind d = KindRouter)), bool_decide_true by done.
    split; [by constructor; [|constructor]|]. split; [done|]. split; [done|]. simpl. by rewrite orb_false_r.
  - eapply does_mono; [|apply does_replay; by right; right; left]. intros b ev (o & S1 & R1 & ->). exists (fun _ => o).
    unfold restoredKinds, restoreScript.
    rewrite (bool_decide_false (edKind d = KindRouter)), (bool_decide_false (edKind d = KindHost)), bool_decide_true by done.
    split; [by constructor; [|constructor]|]. split; [done|]. split; [done|]. simpl. by rewrite orb_false_r.
  - apply does_ret. exists (fun _ => None). unfold restoredKinds, restoreScript.
    rewrite !bool_decide_false by done. split; [constructor|]. split; [apply ran_nil|]. done.
Qed.

(** ** A router with a tunnel, addresses and a routing configuration *)

Definition rDevice : EDevice := mkEDevice "as1/r" KindRouter 1 "n1" "c1" "img" "" [].
Definition rCurrent (kind : string) : result currentErr string :=
  if bool_decide (kind = KindAddrs) then Ok capture_example
  else if bool_decide (kind = KindTunnels)
  then Ok "tun6: ipv6/ip remote 10.9.0.2 local 10.9.0.1 ttl 64"
  else if bool_decide (kind = KindFRR)
  then Ok (joinLines ["Building configuration..."; "hostname r1"; "router ospf"; "end"])
  else Err NotExist.
Definition rHost : Host := mkHost
  (fun _ name => Ok (mkContainer name StateRunning ∅))
  (fun _ _ _ => Ok (mkExecResult 0 "" "")) (fun _ _ => Ok tt) (fun _ _ => Ok tt) (fun _ _ => Ok tt)
  (fun _ _ => Ok tt) (fun _ _ => Ok (mkNetns 4 7)) (fun _ => Ok []) (fun _ _ => Ok [])
  (fun _ => FileMissing) (fun _ => None) (fun _ _ kind => rCurrent kind) (fun _ _ _ => false)
  (fun _ _ => Ok true) (fun _ _ _ => Ok tt) (fun _ _ _ => Ok tt) (fun _ => false) (fun _ _ => true)
  (fun _ => None) (fun _ => None).
Definition rConfig : Config := mkConfig "n1" true true true false false false true None.
Definition rPass : Pass := mkPass ∅ ∅ ∅ ∅ [].
Definition rFinal : Pass := final (Restore rHost rConfig rDevice) rPass.

Example restore_example :
  succeeded (psLog rFinal) = map (pair "c1") (
    CmdReset KindTunnels :: map CmdShell (tunnelObjectReplay "tun6: ipv6/ip remote 10.9.0.2 local 10.9.0.1 ttl 64")
    ++ CmdReset KindAddrs :: map CmdShell (addrReplay capture_example) ++ [CmdShowVersion; CmdLoadFRR]) /\
  EvCopy "c1" (joinLines ["router ospf"; ""]) (Ok tt) ∈ psLog rFinal.
Proof. split; [vm_compute; reflexivity|]. apply list_elem_of_In. vm_compute. tauto. Qed.

Lemma restore_replays_what_is_saved_witness :
  exists ev, psLog rFinal = psLog rPass ++ ev /\ replayed rDevice true ev.
Proof.
  apply (restore_replays_what_is_saved rHost rConfig rDevice rPass rFinal true); [reflexivity|].
  vm_compute. reflexivity.
Defined.

(** ** The copied configuration does not stay *)

(** The call after the one at [i] loads and removes the file in the container;
    if it could not be made, the next one removes the file. *)
Definition removed (ev : list Event) (i : nat) (c : string) : Prop :=
  exists r, ev !! S i = Some (EvExec c CmdLoadFRR r) /\
    match r with
    | Ok _ => True
    | Err _ => exists r', ev !! S (S i) = Some (EvExec c CmdRemoveFRR r')
    end.
Definition tidy (ev : list Event) : Prop :=
  forall i c body, ev !! i = Some (EvCopy c body (Ok tt)) -> removed ev i c.
Definition tidies (s s' : Pass) : Prop := exists ev, psLog s' = psLog s ++ ev /\ tidy ev.

Lemma removed_left a b i c : removed a i c -> removed (a ++ b) i c.
Proof.
  intros (r & H & Hr). exists r. split; [by apply lookup_app_l_Some|]. destruct r; [done|].
  destruct Hr as [r' Hr]. exists r'. by apply lookup_app_l_Some.
Qed.
Lemma removed_right a b i c : removed b i c -> removed (a ++ b) (length a + i) c.
Proof.
  assert (forall j, (a ++ b) !! (length a + j)%nat = b !! j) as Hj.
  { intros j. rewrite lookup_app_r by lia. f_equal. lia. }
  intros (r & H & Hr). exists r. rewrite <- !Nat.add_succ_r, !Hj. split; [done|]. by destruct r.
Qed.
Lemma tidy_app a b : tidy a -> tidy b -> tidy (a ++ b).
Proof.
  intros Ha Hb i c body Hi. apply lookup_app_Some in Hi as [Hi|[Hle Hi]].
  - by eapply removed_left, Ha.
  - replace i with (length a + (i - length a))%nat by lia. by eapply removed_right, Hb.
Qed.
#[local] Instance tidies_preorder : PreOrder tidies.
Proof.
  split.
  - intros s. exists []. by rewrite app_nil_r.
  - intros s1 s2 s3 (a & Ea & Ha) (b & Eb & Hb). exists (a ++ b). split; [by rewrite Eb, Ea, app_assoc|].
    by apply tidy_app.
Qed.

Definition noCopy (e : Event) : Prop := match e with EvCopy _ _ _ => False | _ => True end.
Lemma tidy_one e : noCopy e -> tidy [e].
Proof. intros H [|i] c body; [intros [= ->]; done|done]. Qed.
Lemma tidies_call {A} (mk : result string A -> Event) f : (forall r, noCopy (mk r)) -> mrel tidies (call mk f).
Proof. intros H s. eexists. split; [done|]. by apply tidy_one. Qed.
Lemma tidies_asValue {A} (m : P A) : mrel tidies m -> mrel tidies (asValue m).
Proof. intros H s. specialize (H s). unfold final, asValue in *. by destruct (m s). Qed.

Section Tidy.
Variable host : Host.
Variable cfg : Config.
Variable d : EDevice.

Lemma tidies_Exec c cmd : mrel tidies (Exec host c cmd).
Proof. by apply tidies_call. Qed.
Lemma tidies_Current k : mrel tidies (Current host (edID d) k).
Proof. intros s. eexists. split; [done|]. by apply tidy_one. Qed.
Create HintDb tidying.
#[local] Hint Resolve tidies_Exec tidies_Current tidies_asValue : tidying.
Ltac tidying := repeat (cbn beta zeta; first [mrel_step | solve [auto with tidying]]).

Lemma tidies_runAll cmds : mrel tidies (runAll host d cmds).
Proof. induction cmds; cbn [runAll]; tidying. Qed.
Lemma tidies_load k : mrel tidies (load host d k).
Proof. unfold load. tidying. Qed.
Lemma tidies_reset k : mrel tidies (resetDynamicState host d k).
Proof.
  unfold resetDynamicState. case_bool_decide; [|tidying]. generalize dynamicResetAttempts true "".
  intros n. induction n; intros; cbn [resetAttempts]; tidying.
Qed.
Lemma tidies_wait n cmd : mrel tidies (waitReady host n d cmd).
Proof. induction n; cbn [waitReady]; tidying. Qed.
#[local] Hint Resolve tidies_runAll tidies_load tidies_reset tidies_wait : tidying.

Lemma tidies_loadConfig body :
  mrel tidies (try_catch (CopyTo host d body) (fun e => fail ("copy saved configuration: " +:+ e));;
      res ← try_catch (Exec host (edContainer d) CmdLoadFRR) (fun e =>
              ignore (Exec host (edContainer d) CmdRemoveFRR);; fail ("restore: " +:+ e));
      refuse (negb (xrCode res =? 0)) ("restore: vtysh exited: " +:+ firstLine (xrStderr res));;
      mret true).
Proof.
  intros s. unfold final, CopyTo, Exec, call, try_catch, ignore, mbind, SE_bind, refuse. cbn.
  destruct (hCopy host (psLog s) (edContainer d) body) as [[]|e]; cbn.
  - set (log := psLog s ++ _). destruct (hExec host log _ _) as [res|e]; cbn.
    + assert (tidies s (mkPass (psLost s) (psUnproven s) (psCreated s) (psPending s)
        (log ++ [EvExec (edContainer d) CmdLoadFRR (Ok res)]))) as H; [|by destruct (negb _)].
      eexists. split; [cbn; unfold log; by rewrite <- app_assoc|]. intros [|[|i]] c b; try done. intros [= <- <-].
      by eexists.
    + eexists. split; [cbn; unfold log; by rewrite <- !app_assoc|]. intros [|[|[|i]]] c b; try done. intros [= <- <-].
      eexists. split; [done|]. by eexists.
  - eexists. split; [done|]. intros [|i] c b; done.
Qed.

Lemma tidies_FRR : mrel tidies (restoreFRR host d).
Proof.
  unfold restoreFRR. apply mrel_bind; [apply _|tidying|]. intros [body|]; [|tidying].
  apply mrel_bind; [apply _|tidying|]. intros ?. apply tidies_loadConfig.
Qed.
Lemma tidies_provider body : mrel tidies (ProviderRestore host d body).
Proof. by apply tidies_call. Qed.
#[local] Hint Resolve tidies_FRR tidies_provider : tidying.

Lemma tidies_restore : mrel tidies (Restore host cfg d).
Proof. unfold Restore, restoreFacts, restoreProvider, replay. tidying. Qed.
End Tidy.

(** C16. The saved configuration does not stay behind: however a restore ends,
    each time it has copied a routing configuration into a container, the very
    next call is the one that loads the file in that container and removes it
    there, and when that call could not be made, the next one is the command
    that removes the file. (An error of that last command is not reported.) *)
Theorem copied_configuration_is_removed host cfg d s i c body :
  let s' := final (Restore host cfg d) s in
  (length (psLog s) <= i)%nat -> psLog s' !! i = Some (EvCopy c body (Ok tt)) ->
  exists r, psLog s' !! S i = Some (EvExec c CmdLoadFRR r) /\
    match r with
    | Ok _ => True
    | Err _ => exists r', psLog s' !! S (S i) = Some (EvExec c CmdRemoveFRR r')
    end.
Proof.
  intros s' Hi He. change (removed (psLog s') i c).
  destruct (tidies_restore host cfg d s) as (ev & E & Ht). fold s' in E. rewrite E in He |- *.
  rewrite lookup_app_r in He by done. replace i with (length (psLog s) + (i - length (psLog s)))%nat by lia.
  by eapply removed_right, Ht.
Qed.

(** The same router, with a container in which nothing can be loaded. *)
Definition rBroken : Host := mkHost
  (hInspect rHost) (fun _ _ cmd => match cmd with CmdLoadFRR => Err "lost" | _ => Ok (mkExecResult 0 "" "") end)
  (hStart rHost) (hRemove rHost) (hCreate rHost) (hPaths rHost) (hNetns rHost) (hList rHost)
  (hProviderSave rHost) (hRead rHost) (hWrite rHost) (hCurrent rHost) (hHas rHost) (hPut rHost)
  (hCopy rHost) (hProviderRestore rHost) (hDeadline rHost) (hStarted rHost) (hContext rHost)
  (hLimited rHost).
Definition rLost : Pass := final (Restore rBroken rConfig rDevice) rPass.

Lemma copied_configuration_is_removed_witness :
  let i := (length (psLog rLost) - 3)%nat in
  psLog rLost !! i = Some (EvCopy "c1" (joinLines ["router ospf"; ""]) (Ok tt)) /\
  exists r, psLog rLost !! S i = Some (EvExec "c1" CmdLoadFRR r) /\
    match r with
    | Ok _ => True
    | Err _ => exists r', psLog rLost !! S (S i) = Some (EvExec "c1" CmdRemoveFRR r')
    end.
Proof.
  cbn zeta. split; [vm_compute; reflexivity|].
  apply (copied_configuration_is_removed rBroken rConfig rDevice rPass (length (psLog rLost) - 3) "c1"
    (joinLines ["router ospf"; ""])); [vm_compute; lia|vm_compute; reflexivity].
Defined.
