(* ===== verification/Replace.v ===== *)
(** * The deployment engine: replacing and pruning containers

    Models the operations of [deploy/engine.go] that destroy a container:
    [ensureContainer] with the capture before a replacement, the FRR control
    sidecar and the restore that follows, and [PruneOrphans] with
    [deploy/orphan_preservation.go] and [deploy/prune_collision.go]. The texts
    of refusals are shortened. *)

From stdpp Require Import base gmap strings list fin_maps sorting.
From Stdlib Require Import ZArith Lia Ascii.
From S2P Require Import Prelude Text Model Engine Canonical Preserve Restore.

Local Open Scope string_scope.
Local Open Scope list_scope.
Local Open Scope Z_scope.

Section Destroy.
Variable host : Host.
Variable cfg : Config.

Abbreviation Exec := (Preserve.Exec host) (only parsing).
Abbreviation limitedCapture := (Preserve.limitedCapture host) (only parsing).
Abbreviation storeCaptured := (Preserve.storeCaptured host cfg) (only parsing).

(** ** Before a container is replaced *)

Definition captureBeforeReplace (top : ETop) (d : EDevice) : P unit :=
  if negb (studentOwned top d) || cfWritesReference cfg then mret tt else
  refuse (negb (cfStore cfg)) "refusing to replace: no state store";;
  first ← limitedCapture top d;
  '(snaps, err) ← (match first.2 with
                   | Some ErrNotRunning =>
                       try_catch (Start host (edContainer d)) (fun _ =>
                         fail "refusing to replace: it could not be started to be read");;
                       markNamespaceStateLost (edID d);;
                       limitedCapture top d
                   | _ => mret first
                   end);
  refuse (bool_decide (is_Some err)) "refusing to replace: it could not be captured";;
  '(_, problems) ← storeCaptured top [(d, snaps)] false;
  refuse (negb (bool_decide (problems = []))) "refusing to replace: it could not be saved";;
  s ← get;
  refuse (namespaceUnproven s (edID d)) "refusing to replace: its namespace is not accounted for".

(** ** The FRR control sidecar *)

Definition usesFRRControl (d : EDevice) : bool := UsesFRRControl d && cfSplit cfg.

Definition removeFRRControl (d : EDevice) : P unit :=
  if negb (usesFRRControl d) then mret tt else
  c ← Inspect host (FRRControlContainer d);
  if bool_decide (ctState c = StateAbsent) then mret tt
  else Remove host (FRRControlContainer d).

Definition controlSharesPrimaryNamespace (d : EDevice) : P bool :=
  primary ← NetnsIdentityOf host cfg (edContainer d);
  sidecar ← NetnsIdentityOf host cfg (FRRControlContainer d);
  mret (SameAs primary sidecar).

(** Five attempts, or until the context ends. *)
Fixpoint requireControlSharesPrimaryNamespace (attempts : nat) (last : string) (d : EDevice)
    : P unit :=
  match attempts with
  | O => fail last
  | S attempts =>
      r ← asValue (controlSharesPrimaryNamespace d);
      match r with
      | Ok bound => refuse (negb bound) "did not start in the network namespace of its router"
      | Err e =>
          s ← get;
          match hContext host (psLog s) with
          | Some cancelled => fail cancelled
          | None => requireControlSharesPrimaryNamespace attempts e d
          end
      end
  end.

Definition stopPrimaryFRRDaemons (d : EDevice) : P unit :=
  if negb (usesFRRControl d) then mret tt else
  r ← Exec (edContainer d) CmdStopDaemons;
  refuse (negb (xrCode r =? 0)) "legacy primary FRR daemons remain".

(** The final runtime specs of a device: the hash stamped on its container,
    and on its control sidecar when it has one. *)
Record finalDeviceSpec := mkFinalSpec { fsSpec : string; fsControl : option string }.

Definition ensureFRRControl (d : EDevice) (final : finalDeviceSpec) : P unit :=
  match fsControl final with
  | None => mret tt
  | Some want =>
      let name := FRRControlContainer d in
      current ← Inspect host name;
      bound ← (if negb (bool_decide (ctState current = StateAbsent))
                  && bool_decide (label current LabelSpec = want) && Joinable (ctState current)
               then controlSharesPrimaryNamespace d else mret false);
      if (bound : bool) then stopPrimaryFRRDaemons d else
      when (negb (bool_decide (ctState current = StateAbsent))) (Remove host name);;
      prepareSpecs host (edContainer d);;
      Create host name;;
      Start host name;;
      requireControlSharesPrimaryNamespace 5 "" d;;
      stopPrimaryFRRDaemons d
  end.

(** ** Restoring *)

Definition restoreIfNeeded (top : ETop) (d : EDevice) : P unit :=
  if negb (cfStore cfg) || negb (studentOwned top d) || cfWritesReference cfg then mret tt else
  modify (set_psPending (fun p => {[edID d]} ∪ p));;
  ignore (Exec (edContainer d) CmdMark).

(** [holdNamespaceState] and [releaseNamespaceState]. *)
Definition holdNamespaceState (d : EDevice) : P unit :=
  r ← Exec (edContainer d) CmdMark;
  refuse (negb (xrCode r =? 0)) "mark as owing its saved state back";;
  modify (set_psPending (fun p => {[edID d]} ∪ p)).
Definition releaseNamespaceState (d : EDevice) : P unit :=
  r ← Exec (edContainer d) CmdUnmark;
  refuse (negb (xrCode r =? 0)) "clear the restore owed";;
  modify (set_psPending (fun p => p ∖ {[edID d]})).

Definition replayPending (top : ETop) (d : EDevice) : P unit :=
  if negb (cfStore cfg) || negb (studentOwned top d) || cfWritesReference cfg then mret tt else
  pending ← restoreIsPending host d;
  if negb pending then mret tt else
  _ ← try_catch (Restore host cfg d) (fun e =>
        fail ("its saved configuration could not be replayed: " +:+ e));
  modify (set_psPending (fun p => p ∖ {[edID d]}));;
  ignore (Exec (edContainer d) CmdUnmark).

(** ** [ensureContainer] *)

Definition ensureContainer (top : ETop) (d : EDevice) (final : finalDeviceSpec) : P unit :=
  cur ← Inspect host (edContainer d);
  let exists_ := negb (bool_decide (ctState cur = StateAbsent)) in
  let forced := cfRecovery cfg && bool_decide (edKind d = KindService) in
  if exists_ && bool_decide (label cur LabelSpec = fsSpec final) && negb forced then
    if Joinable (ctState cur) then ensureFRRControl d final
    else
      Start host (edContainer d);;
      restoreIfNeeded top d;;
      ensureFRRControl d final
  else
    when exists_
      (captureBeforeReplace top d;;
       removeFRRControl d;;
       Remove host (edContainer d));;
    prepareSpecs host (edContainer d);;
    Create host (edContainer d);;
    Start host (edContainer d);;
    modify (set_psCreated (fun c => {[edID d]} ∪ c));;
    restoreIfNeeded top d;;
    ensureFRRControl d final.

(** ** Orphans *)

Definition findPreserved (set : OrphanPreservationSet) (container : string)
    : option OrphanPreservation :=
  List.find (fun p => bool_decide (opContainer p = container)) (osPreserved set).
Definition unreadable (container : string) : bool :=
  match cfPreserved cfg with
  | Some set => bool_decide (container ∈ osUnreadable set)
  | None => false
  end.
Definition removable (container : string) : bool :=
  match cfPreserved cfg with
  | Some set => bool_decide (container ∈ osRemovable set)
  | None => false
  end.

Definition candidateDeviceID (c : Container) : string :=
  if bool_decide (label c LabelDeviceID = "") then label c LabelDevice else label c LabelDeviceID.

Definition containerLe (a b : Container) : Prop := String.le (ctName a) (ctName b).
#[local] Instance containerLe_dec : RelDecision containerLe :=
  fun a b => decide (String.le (ctName a) (ctName b)).

(** [pruneCandidates]. *)
Definition wantedHere (top : ETop) : list string :=
  d ← devicesOn top (cfNode cfg);
  edContainer d :: (if usesFRRControl d then [FRRControlContainer d] else []).
Definition placedElsewhere (top : ETop) : list string :=
  map edContainer (List.filter (fun d => negb (bool_decide (edNode d = cfNode cfg))) (etDevices top)).
Definition isCandidate (top : ETop) (c : Container) : bool :=
  negb (bool_decide (ctName c ∈ wantedHere top))
  && negb (negb (bool_decide (label c LabelNode = ""))
           && negb (bool_decide (label c LabelNode = cfNode cfg))
           && negb (bool_decide (ctName c ∈ placedElsewhere top))).
Definition pruneCandidates (top : ETop) : P (list Container) :=
  cs ← call EvList (hList host);
  mret (merge_sort containerLe (List.filter (isCandidate top) cs)).

(** [orphanDevice]: the device to read out of a candidate, and a refusal. *)
Definition withContainer (name : string) (d : EDevice) : EDevice :=
  mkEDevice (edID d) (edKind d) (edASN d) (edNode d) name (edImage d) (edNOS d) (edIfaces d).
Definition withKind (kind : string) (d : EDevice) : EDevice :=
  mkEDevice (edID d) kind (edASN d) (edNode d) (edContainer d) (edImage d) (edNOS d) (edIfaces d).
Definition orphanDevice (top : ETop) (c : Container) : option EDevice * option string :=
  if bool_decide (label c LabelFRRControl = "true") then (None, None)
  else if negb (cfStore cfg) then
    (None, if cfWritesReference cfg then None else Some ("refusing to remove " +:+ ctName c))
  else if cfWritesReference cfg then (None, None)
  else
    let id := candidateDeviceID c in
    if bool_decide (id = "") then (None, Some ("refusing to remove " +:+ ctName c))
    else
      let d := match deviceByID top id with
               | Some m => withContainer (ctName c) m
               | None => mkEDevice id (label c LabelKind) 0 "" (ctName c) "" "" []
               end in
      (Some (if bool_decide (edKind d = "") then withKind KindRouter d else d), None).
Definition orphanTarget (top : ETop) (c : Container) : option EDevice * option string :=
  if unreadable (ctName c) then (None, None) else orphanDevice top c.

(** [resolveClaimants]: whether a container may write its device's saved
    state. *)
Abbreviation Target := (Container * option EDevice)%type (only parsing).
Definition claimantsOf (targets : list Target) (id : string) : list string :=
  omap (fun t => match t.2 with
                 | Some d => if bool_decide (edID d = id) then Some (ctName t.1) else None
                 | None => None
                 end) targets.
Definition speaksFor (top : ETop) (targets : list Target) (name : string) (d : EDevice) : bool :=
  let members := claimantsOf targets (edID d) in
  match deviceByID top (edID d) with
  | Some m =>
      if bool_decide (edNode m = cfNode cfg) then false
      else bool_decide (edContainer m ∈ members) && negb (bool_decide (edContainer m = ""))
           && bool_decide (name = edContainer m)
  | None => Nat.eqb (length members) 1
  end.

(** [canonicalState] and [durableBody]. *)
Definition canonicalState (kind raw : string) : string :=
  let body := trimSpace (CanonicalDynamicSnapshot kind raw) in
  if bool_decide (body = dynamicStateVersion +:+ " " +:+ kind) then "" else body.
Definition durableBody (device kind : string) : P string :=
  r ← Current host device kind;
  match r with
  | Ok content => mret (canonicalState kind content)
  | Err NotExist =>
      has ← Has host device kind;
      if (has : bool) then fail "snapshot is gone" else mret ""
  | Err (Unreadable e) => fail e
  end.

(** [equivalentToDurable]: an error is why removing the container would lose
    something. An absent body is the empty one. *)
Fixpoint heldBodies (captured : list Snapshot) (held : gmap string string)
    : result string (gmap string string) :=
  match captured with
  | [] => Ok held
  | sn :: rest =>
      let body := canonicalState (snKind sn) (snContent sn) in
      if bool_decide (body = "") then heldBodies rest held
      else match held !! snKind sn with
           | Some _ => Err "it was read twice"
           | None => heldBodies rest (<[snKind sn := body]> held)
           end
  end.
Fixpoint sameBodies (device : string) (held : gmap string string) (kinds : list string) : P bool :=
  match kinds with
  | [] => mret true
  | kind :: rest =>
      durable ← durableBody device kind;
      more ← sameBodies device held rest;
      mret (bool_decide (lookup_or "" held kind = durable) && more)
  end.
Definition equivalentToDurable (d : EDevice) (captured : list Snapshot) : P unit :=
  held ← lift (heldBodies captured ∅);
  same ← sameBodies (edID d) held AllKinds;
  refuse (negb same) "what it holds is not what is saved".

(** ** Preserving and pruning *)

(** What a candidate's capture gave: nothing for one that is not read. *)
Definition captureTarget (top : ETop) (t : Target) : P (list Snapshot * option captureErr) :=
  match t.2 with
  | Some d => limitedCapture top d
  | None => mret ([], None)
  end.
Definition captureFailed (r : option (result string (list Snapshot * option captureErr))) : bool :=
  match r with
  | Some (Ok (_, Some _)) | Some (Err _) => true
  | _ => false
  end.

(** The device of a candidate whose reading goes to the store. *)
Definition writable (top : ETop) (targets : list Target)
    (p : Target * option (result string (list Snapshot * option captureErr)))
    : option (EDevice * list Snapshot) :=
  match p.1.2 with
  | Some d =>
      match capturedSnaps p.2 with
      | [] => None
      | snaps => if speaksFor top targets (ctName p.1.1) d then Some (d, snaps) else None
      end
  | None => None
  end.

(** The check of one candidate after the writes. *)
Definition judge (top : ETop) (targets : list Target) (unproven : gmap string string)
    (p : Target * option (result string (list Snapshot * option captureErr)))
    : P (OrphanPreservation * list string) :=
  let '(c, target) := p.1 in
  let name := ctName c in
  let record stored := mkPreservation name (candidateDeviceID c) stored in
  if captureFailed p.2 then
    mret (record false, ["refusing to remove " +:+ name +:+ ": it could not be captured"])
  else match target with
  | None => mret (record false, [])
  | Some d =>
      let stored := bool_decide (is_Some (writable top targets p)) in
      if bool_decide (is_Some (unproven !! edID d)) then
        mret (record false, ["refusing to remove " +:+ name +:+ ": its namespace is in doubt"])
      else if speaksFor top targets name d then mret (record stored, [])
      else
        r ← asValue (equivalentToDurable d (capturedSnaps p.2));
        mret (match r with
              | Ok _ => (record stored, [])
              | Err why => (record stored, ["refusing to remove " +:+ name +:+ ": " +:+ why])
              end)
  end.
Fixpoint judgeAll (top : ETop) (targets : list Target) (unproven : gmap string string)
    (ps : list (Target * option (result string (list Snapshot * option captureErr))))
    : P (list OrphanPreservation * list string) :=
  match ps with
  | [] => mret ([], [])
  | p :: rest =>
      '(record, here) ← judge top targets unproven p;
      '(records, more) ← judgeAll top targets unproven rest;
      mret (record :: records, here ++ more)
  end.

Definition preserveOrphans (top : ETop) (candidates : list Container)
    : P (list OrphanPreservation * list string * option string) :=
  let targets := map (fun c => (c, (orphanTarget top c).1)) candidates in
  let refusals := omap (fun c => (orphanTarget top c).2) candidates in
  '(rs, ctxErr) ← runBounded host targets (captureTarget top);
  let ps := zip targets rs in
  '(_, problems) ← storeCaptured top (omap (writable top targets) ps) true;
  s ← get;
  '(records, judged) ← judgeAll top targets (UnprovenNamespaceDevices s) ps;
  mret (records, refusals ++ problems ++ judged, ctxErr).

Definition PreserveOrphans (top : ETop) : P (list OrphanPreservation) :=
  candidates ← pruneCandidates top;
  '(records, problems, ctxErr) ← preserveOrphans top candidates;
  match deterministicError ctxErr problems with
  | Some e => fail e
  | None => mret records
  end.

(** [unpreservedCandidates]: the candidates this prune could not read and
    nothing else covers. *)
Definition unpreserved (set : OrphanPreservationSet) (c : Container) : option string :=
  if negb (cfWritesReference cfg) && negb (unreadable (ctName c)) then None
  else if removable (ctName c) then None
  else match findPreserved set (ctName c) with
       | None => Some ("refusing to remove " +:+ ctName c +:+ ": nothing was preserved for it")
       | Some record =>
           if bool_decide (opDevice record = candidateDeviceID c) then None
           else Some ("refusing to remove " +:+ ctName c +:+ ": the preserved state is another's")
       end.
Definition unpreservedCandidates (candidates : list Container) : list string :=
  match cfPreserved cfg with
  | None => []
  | Some set => omap (unpreserved set) candidates
  end.

Definition PruneOrphans (top : ETop) : P (list string) :=
  candidates ← pruneCandidates top;
  '(_, problems, ctxErr) ← preserveOrphans top candidates;
  match deterministicError ctxErr (problems ++ unpreservedCandidates candidates) with
  | Some e => fail e
  | None =>
      '(rs, ctxErr) ← runBounded host candidates (fun c => limited host (Remove host (ctName c)));
      match deterministicError ctxErr
              (omap (fun p => match p.2 with
                              | Some (Err e) => Some ("remove orphan " +:+ ctName p.1 +:+ ": " +:+ e)
                              | _ => None
                              end) (zip candidates rs)) with
      | Some e => fail e
      | None => mret (omap (fun p => match p.2 with Some (Ok _) => Some (ctName p.1) | _ => None end)
                       (zip candidates rs))
      end
  end.
End Destroy.
