(* ===== verification/PreserveSafety.v ===== *)
(** * Student work survives the engine

    Theorems on [Preserve] and [Replace]: what is stored came out of a
    namespace that was vouched for, a container is replaced only after what it
    holds was saved, and a prune removes nothing that could be lost. They hold
    for every host: any answers of the runtime and the store, restarts between
    any two calls included. *)

From stdpp Require Import base gmap strings list fin_maps sorting.
From Stdlib Require Import ZArith Lia Ascii.
From S2P Require Import Prelude Text Model Engine Canonical Preserve Restore Replace.

Local Open Scope string_scope.
Local Open Scope list_scope.
Local Open Scope Z_scope.

(** ** Histories *)

(** [s'] comes after [s], and the calls in between are of a kind. *)
Definition extends (ok : Event -> Prop) (s s' : Pass) : Prop :=
  exists l, psLog s' = psLog s ++ l /\ Forall ok l.
#[export] Instance extends_preorder ok : PreOrder (extends ok).
Proof.
  split.
  - intros s. exists []. by rewrite app_nil_r.
  - intros s1 s2 s3 (l1 & H1 & Hl1) (l2 & H2 & Hl2). exists (l1 ++ l2).
    by rewrite H2, H1, <- app_assoc, Forall_app.
Qed.

Abbreviation later := (extends (fun _ => True)) (only parsing).
(** The calls between two states. *)
Definition since (s s' : Pass) : list Event := drop (length (psLog s)) (psLog s').

Lemma since_app s s' l : psLog s' = psLog s ++ l -> since s s' = l.
Proof. unfold since. intros ->. by rewrite drop_app_length. Qed.

Lemma extends_since ok s s' : extends ok s s' ->
  psLog s' = psLog s ++ since s s' /\ Forall ok (since s s').
Proof. intros (l & H & Hl). by rewrite (since_app _ _ _ H). Qed.

Lemma extends_mono (ok ok' : Event -> Prop) s s' :
  (forall e, ok e -> ok' e) -> extends ok s s' -> extends ok' s s'.
Proof. intros H (l & Hl & Hf). exists l. split; [done|]. eapply Forall_impl; eauto. Qed.

Lemma since_in s1 s2 s3 s4 e :
  later s1 s2 -> later s2 s3 -> later s3 s4 -> e ∈ since s2 s3 -> e ∈ since s1 s4.
Proof.
  intros (a & Ha & _) (b & Hb & _) (c & Hc & _) He. rewrite (since_app _ _ _ Hb) in He.
  rewrite (since_app s1 s4 (a ++ b ++ c)) by (rewrite Hc, Hb, Ha; by rewrite <- !app_assoc).
  set_solver.
Qed.

Lemma since_split s1 s2 s3 e : later s1 s2 -> later s2 s3 ->
  e ∈ since s1 s3 -> e ∈ since s1 s2 \/ e ∈ since s2 s3.
Proof.
  intros (a & Ha & _) (b & Hb & _). rewrite (since_app _ _ _ Ha), (since_app _ _ _ Hb).
  rewrite (since_app s1 s3 (a ++ b)) by (rewrite Hb, Ha; by rewrite <- app_assoc). set_solver.
Qed.

(** ** Kinds of calls *)

(** Calls that neither store nor destroy anything. *)
Definition quiet (e : Event) : Prop :=
  match e with EvPut _ _ | EvRemove _ _ => False | _ => True end.
(** Calls that destroy nothing. *)
Definition harmless (e : Event) : Prop := match e with EvRemove _ _ => False | _ => True end.
Lemma quiet_harmless e : quiet e -> harmless e.
Proof. by destruct e. Qed.

(** The engine's memory. *)
Definition memory (s : Pass) := (psLost s, psUnproven s, psCreated s, psPending s).
(** The memory only gains doubts. *)
Definition doubts (s s' : Pass) : Prop :=
  (forall id, namespaceStateLost s id = true -> namespaceStateLost s' id = true) /\
  (forall id, is_Some (psUnproven s !! id) -> is_Some (psUnproven s' !! id)) /\
  psCreated s' = psCreated s /\ psPending s' = psPending s.
#[export] Instance doubts_preorder : PreOrder doubts.
Proof.
  split; [by repeat split|]. intros s1 s2 s3 (A1 & A2 & A3 & A4) (B1 & B2 & B3 & B4).
  repeat split; auto; congruence.
Qed.

(** Both: the calls are of a kind and the memory gains doubts only. *)
Definition grows (ok : Event -> Prop) (s s' : Pass) : Prop := extends ok s s' /\ doubts s s'.
#[export] Instance grows_preorder ok : PreOrder (grows ok).
Proof.
  split; [by intros s|]. intros s1 s2 s3 [A1 A2] [B1 B2]. split; etransitivity; eauto.
Qed.
(** The calls are of a kind and the memory is the same. *)
Definition reads (ok : Event -> Prop) (s s' : Pass) : Prop :=
  extends ok s s' /\ memory s' = memory s.
#[export] Instance reads_preorder ok : PreOrder (reads ok).
Proof.
  split; [by intros s|]. intros s1 s2 s3 [A1 A2] [B1 B2].
  split; [by transitivity s2|by rewrite B2].
Qed.

Lemma memory_doubts s s' : memory s' = memory s -> doubts s s'.
Proof.
  unfold memory, doubts, namespaceStateLost. intros [= -> -> -> ->]. by repeat split.
Qed.
Lemma reads_grows ok s s' : reads ok s s' -> grows ok s s'.
Proof. intros [H1 H2]. split; [done|by apply memory_doubts]. Qed.

Lemma mrel_mono {A} (R R' : Pass -> Pass -> Prop) (m : SE Pass string A) :
  (forall s s', R s s' -> R' s s') -> mrel R m -> mrel R' m.
Proof. intros H Hm s. apply H, Hm. Qed.

Lemma mrel_run {A} R (m : SE Pass string A) s s' r : mrel R m -> m s = (s', r) -> R s s'.
Proof. intros H Hr. specialize (H s). unfold final in H. by rewrite Hr in H. Qed.

(** ** The rules for calls *)

Lemma call_reads {A} ok mk (f : list Event -> result string A) :
  (forall r, ok (mk r)) -> mrel (reads ok) (call mk f).
Proof.
  intros Hok s. unfold final, call. simpl. split; [|done].
  exists [mk (f (psLog s))]. split; [done|]. by constructor.
Qed.
Lemma consult_reads {A} ok mk (f : list Event -> A) :
  (forall r, ok (mk r)) -> mrel (reads ok) (consult mk f).
Proof.
  intros Hok s. unfold final, consult. simpl. split; [|done].
  exists [mk (f (psLog s))]. split; [done|]. by constructor.
Qed.
Lemma mrel_asValue {A} R (m : SE Pass string A) : mrel R m -> mrel R (asValue m).
Proof. intros Hm s. specialize (Hm s). unfold final, asValue in *. by destruct (m s). Qed.
Lemma mrel_limited {A} host R `{!PreOrder R} (m : SE Pass string A) :
  mrel R m -> mrel R (limited host m).
Proof. intros Hm s. unfold final, limited. destruct (hLimited _ _); [by simpl|apply Hm]. Qed.

Create HintDb pass.
#[export] Hint Resolve call_reads consult_reads mrel_asValue mrel_limited : pass.

(** Decompose a computation; the remaining goals are calls and named steps. *)
Ltac pass_step :=
  first
    [ progress cbn beta zeta
    | mrel_step
    | match goal with |- mrel _ (asValue _) => apply mrel_asValue end
    | match goal with |- mrel _ (limited _ _) => apply mrel_limited; [apply _|] end
    | match goal with |- mrel (reads _) (call _ _) => apply call_reads; by intros end
    | match goal with |- mrel (reads _) (consult _ _) => apply consult_reads; by intros end
    | solve [auto with pass] ].
Ltac pass_steps := repeat pass_step.

Section Frames.
Variable host : Host.
Variable cfg : Config.

Lemma read_Exec c cmd : mrel (reads quiet) (Exec host c cmd).
Proof. unfold Exec. pass_steps. Qed.
Lemma read_Inspect c : mrel (reads quiet) (Inspect host c).
Proof. unfold Inspect. pass_steps. Qed.
Lemma read_Netns c : mrel (reads quiet) (NetnsIdentityOf host cfg c).
Proof. unfold NetnsIdentityOf. pass_steps. Qed.
Lemma read_Current d k : mrel (reads quiet) (Current host d k).
Proof. unfold Current. pass_steps. Qed.
Lemma read_Has d k : mrel (reads quiet) (Has host d k).
Proof. unfold Has. pass_steps. Qed.
Lemma read_Start c : mrel (reads quiet) (Start host c).
Proof. unfold Start. pass_steps. Qed.
Hint Resolve read_Exec read_Inspect read_Netns read_Current read_Has read_Start : pass.

Lemma read_savedKinds d kinds : mrel (reads quiet) (savedKinds host d kinds).
Proof.
  induction kinds as [|k kinds IH]; simpl; [pass_steps|]. unfold savedNamespaceFacts. pass_steps.
Qed.
Lemma read_savedObjects top d : mrel (reads quiet) (savedNamespaceObjects host top d).
Proof. unfold savedNamespaceObjects. pass_steps. apply read_savedKinds. Qed.
Hint Resolve read_savedObjects : pass.

Lemma read_readAll d kinds : mrel (reads quiet) (readAll host d kinds).
Proof.
  induction kinds as [|k kinds IH]; simpl; [pass_steps|]. unfold readOne. pass_steps; done.
Qed.
Lemma read_contents d saved : mrel (reads quiet) (readNamespaceContents host d saved).
Proof. unfold readNamespaceContents. pass_steps. apply read_readAll. Qed.
Hint Resolve read_contents : pass.

Lemma read_continuity top d : mrel (reads quiet) (provenNamespaceContinuity host top d).
Proof. unfold provenNamespaceContinuity. pass_steps. Qed.
Hint Resolve read_continuity : pass.
Lemma read_baseline top d : mrel (reads quiet) (proveNamespaceBaseline host cfg top d).
Proof. unfold proveNamespaceBaseline. pass_steps. Qed.
Hint Resolve read_baseline : pass.

Lemma read_readNOS top d : mrel (reads quiet) (readNOS host top d).
Proof. unfold readNOS, reading, readFRRConfig. pass_steps. Qed.
Lemma read_readCommand d what cmd : mrel (reads quiet) (readCommand host d what cmd).
Proof. unfold readCommand. pass_steps. Qed.
Hint Resolve read_readNOS read_readCommand : pass.
Lemma read_readDevice top d : mrel (reads quiet) (readDevice host top d).
Proof. unfold readDevice, both, reading. pass_steps. Qed.
Hint Resolve read_readDevice : pass.
Lemma read_Capture top d : mrel (reads quiet) (limitedCapture host top d).
Proof. unfold limitedCapture, Capture. pass_steps. Qed.
Lemma read_pending d : mrel (reads quiet) (restoreIsPending host d).
Proof. unfold restoreIsPending. pass_steps. Qed.
Hint Resolve read_Capture read_pending : pass.
Lemma read_storable d snaps : mrel (reads quiet) (storableSnapshots host d snaps).
Proof. unfold storableSnapshots. pass_steps. Qed.

Lemma grow_unproven id reason : mrel (grows quiet) (markNamespaceUnproven id reason).
Proof.
  intros s. unfold final, markNamespaceUnproven, modify. simpl. split; [by exists []; rewrite app_nil_r|].
  split_and!; simpl; try done. intros id'. destruct (decide (id = id')) as [->|];
    [rewrite lookup_insert_eq|rewrite lookup_insert_ne by done]; eauto.
Qed.
Lemma grow_lost id : mrel (grows quiet) (markNamespaceStateLost id).
Proof.
  intros s. unfold final, markNamespaceStateLost, modify. simpl. split; [by exists []; rewrite app_nil_r|].
  split_and!; simpl; try done. intros id'. unfold namespaceStateLost, lookup_or. simpl.
  destruct (decide (id = id')) as [->|]; [by rewrite lookup_insert_eq|by rewrite lookup_insert_ne].
Qed.
Hint Resolve grow_unproven grow_lost : pass.

Lemma reads_to_grows {A} ok (m : SE Pass string A) : mrel (reads ok) m -> mrel (grows ok) m.
Proof. apply mrel_mono, reads_grows. Qed.

Lemma grow_settle top t d : mrel (grows quiet) (settleCaptureSafety host cfg top t d).
Proof. unfold settleCaptureSafety. pass_steps; auto using reads_to_grows with pass. Qed.

Lemma pool_rel {X A} R `{!PreOrder R} (f : X -> SE Pass string A) items i :
  (forall x, mrel R (f x)) -> mrel R (poolFrom host i items f).
Proof.
  intros Hf. revert i. induction items as [|x items IH]; intros i; simpl; pass_steps; done.
Qed.
Lemma runBounded_rel {X A} R `{!PreOrder R} (f : X -> SE Pass string A) items :
  (forall x, mrel R (f x)) -> mrel R (runBounded host items f).
Proof. intros Hf. unfold runBounded. pass_steps. by apply pool_rel. Qed.

Lemma grow_record settled t : mrel (grows quiet) (recordBaselinesOf settled t).
Proof.
  revert t. induction settled as [|[d [[i|e]|]] settled IH]; intros t; simpl; pass_steps; done.
Qed.
Lemma grow_ensure top ds b : mrel (grows quiet) (ensureCaptureSafety host cfg top ds b).
Proof.
  unfold ensureCaptureSafety. pass_steps.
  all: first [apply grow_record | solve [apply reads_to_grows; pass_steps]
             | apply runBounded_rel; [apply _|intros; apply grow_settle]].
Qed.

Lemma read_putAll d snaps : mrel (reads harmless) (putAll host d snaps).
Proof. induction snaps as [|s snaps IH]; simpl; [pass_steps|]. unfold Put. pass_steps; done. Qed.
Lemma reads_mono {A} (ok ok' : Event -> Prop) (m : SE Pass string A) :
  (forall e, ok e -> ok' e) -> mrel (reads ok) m -> mrel (reads ok') m.
Proof.
  intros H. apply mrel_mono. intros s s' [H1 H2]. split; [by eapply extends_mono|done].
Qed.
Lemma read_storeEach caps : mrel (reads harmless) (storeEach host caps).
Proof.
  induction caps as [|[d snaps] caps IH]; simpl; [pass_steps|].
  pass_steps; eauto using read_putAll, reads_mono, read_storable, quiet_harmless.
Qed.
Lemma grow_store top caps b : mrel (grows harmless) (storeCaptured host cfg top caps b).
Proof.
  unfold storeCaptured. pass_steps; auto using reads_to_grows, read_storeEach.
  eapply mrel_mono; [|apply grow_ensure]. intros s s' [H1 H2]. split; [|done].
  eapply extends_mono; [|done]. apply quiet_harmless.
Qed.
End Frames.
#[export] Hint Resolve read_Exec read_Inspect read_Netns read_Start read_Capture read_storable
  read_pending grow_settle grow_ensure read_putAll read_storeEach grow_store : pass.

(** ** What a store of captures did *)

(** The device owes a restore: this pass knows, or its marker was seen. *)
Definition owes (d : EDevice) (s : Pass) : Prop :=
  edID d ∈ psPending s \/
  exists res, EvExec (edContainer d) CmdTestMark (Ok res) ∈ psLog s /\ xrCode res = 0.
(** The device owes no restore: this pass knows of none, and its marker was
    asked for and not found (a test that cannot be run counts as not found). *)
Definition unmarked (d : EDevice) (s s' : Pass) : Prop :=
  edID d ∉ psPending s /\
  exists r, EvExec (edContainer d) CmdTestMark r ∈ since s s' /\
    forall res, r = Ok res -> xrCode res <> 0.
(** Why a reading of a namespace is not stored. *)
Definition doubted (d : EDevice) (s : Pass) : Prop :=
  namespaceStateLost s (edID d) = true \/ namespaceUnproven s (edID d) = true.
(** What became of a snapshot: stored, or left out for a reason. *)
Definition accounted (d : EDevice) (s s' : Pass) (sn : Snapshot) : Prop :=
  (exists b, EvPut sn (Ok b) ∈ since s s') \/
  (namespaceBackedKind (snKind sn) = true /\ (doubted d s' \/ owes d s')).

Lemma memory_doubted d s s' : memory s' = memory s -> doubted d s -> doubted d s'.
Proof.
  unfold memory, doubted, namespaceUnproven, unprovenNamespaceReason, namespaceStateLost.
  by intros [= -> -> -> _].
Qed.
Lemma owes_later ok d s s' : reads ok s s' -> owes d s -> owes d s'.
Proof.
  intros [(l & Hl & _) Hm] H. unfold memory in Hm. injection Hm as _ _ _ Hp. unfold owes in *.
  rewrite Hp, Hl. set_solver.
Qed.
Lemma reads_later ok s s' : reads ok s s' -> later s s'.
Proof. intros [H _]. by eapply extends_mono. Qed.
Lemma grows_later ok s s' : grows ok s s' -> later s s'.
Proof. intros [H _]. by eapply extends_mono. Qed.

Lemma accounted_widen ok d s0 s s' s1 sn :
  later s0 s -> later s s' -> reads ok s' s1 -> accounted d s s' sn -> accounted d s0 s1 sn.
Proof.
  intros H0 H H1 [[b Hb]|[Hk Hw]].
  - left. exists b. refine (since_in _ _ _ _ _ H0 H (reads_later _ _ _ H1) Hb).
  - right. split; [done|]. destruct Hw as [Hw|Hw]; [left|right].
    + eapply memory_doubted; [|done]. apply H1.
    + by eapply owes_later.
Qed.

Section Stored.
Variable host : Host.
Variable cfg : Config.

Lemma Put_event sn s s' r : asValue (Put host sn) s = (s', Ok r) -> EvPut sn r ∈ since s s'.
Proof.
  unfold asValue, Put, call. simpl. intros [= <- <-].
  rewrite (since_app _ _ [EvPut sn (hPut host (psLog s) sn)]) by done. set_solver.
Qed.

Lemma putAll_ok d snaps s s' n : putAll host d snaps s = (s', Ok (n, [])) ->
  forall sn, sn ∈ snaps -> exists b, EvPut sn (Ok b) ∈ since s s'.
Proof.
  revert s s' n. induction snaps as [|x snaps IH]; intros s s' n H sn Hsn; [set_solver|].
  simpl in H. apply bind_ok_inv in H as (s1 & r & H1 & H).
  apply bind_ok_inv in H as (s2 & [m ps] & H2 & H).
  assert (reads harmless s s1) as R1.
  { eapply mrel_run; [|done]. apply mrel_asValue. unfold Put. apply call_reads. by intros. }
  pose proof (mrel_run _ _ _ _ _ (read_putAll _ _ _) H2) as R2.
  destruct r as [b|e]; [|by injection H].
  assert (s' = s2 /\ ps = []) as [-> ->] by (destruct b; by injection H).
  apply elem_of_cons in Hsn as [->|Hsn].
  - exists b. apply Put_event in H1.
    refine (since_in s s s1 s2 _ _ (reads_later _ _ _ R1) (reads_later _ _ _ R2) H1). reflexivity.
  - destruct (IH _ _ _ H2 _ Hsn) as [b' Hb']. exists b'.
    refine (since_in s s1 s2 s2 _ (reads_later _ _ _ R1) (reads_later _ _ _ R2) _ Hb'). reflexivity.
Qed.

Lemma pending_spec d s s' b : restoreIsPending host d s = (s', Ok b) ->
  b = true -> owes d s'.
Proof.
  unfold restoreIsPending. intros H ->. apply bind_ok_inv in H as (s1 & s1' & H1 & H).
  injection H1 as <- <-. case_bool_decide as Hp; [injection H as <-; by left|].
  apply bind_ok_inv in H as (s2 & r & H2 & H). injection H as <- Hr. right.
  unfold asValue, Exec, call in H2. simpl in H2. injection H2 as <- <-.
  destruct (hExec host _ _ _) as [res|e]; [|done]. exists res. simpl.
  split; [set_solver|by apply Z.eqb_eq].
Qed.

Lemma pending_none d s s' : restoreIsPending host d s = (s', Ok false) -> unmarked d s s'.
Proof.
  unfold restoreIsPending. intros H. erewrite bind_ok in H by reflexivity.
  case_bool_decide as Hp; [done|]. split; [done|].
  apply bind_ok_inv in H as (s2 & r & H2 & H). injection H as <- Hr. exists r.
  unfold asValue, Exec, call in H2. simpl in H2. injection H2 as <- <-.
  rewrite (since_app s _ [EvExec (edContainer d) CmdTestMark (hExec host (psLog s) (edContainer d) CmdTestMark)])
    by done. split; [set_solver|]. intros res E. rewrite E in Hr. by apply Z.eqb_neq.
Qed.

Lemma storable_spec d snaps s s' out : storableSnapshots host d snaps s = (s', Ok out) ->
  (out = snaps /\ ((forall sn, sn ∈ snaps -> namespaceBackedKind (snKind sn) = false) \/
                   (~ doubted d s /\ unmarked d s s'))) \/
  (out = List.filter (fun sn => negb (namespaceBackedKind (snKind sn))) snaps /\
   (doubted d s' \/ owes d s')).
Proof.
  intros H0. pose proof (mrel_run _ _ _ _ _ (read_storable _ _ _) H0) as [_ Hm].
  revert H0. unfold storableSnapshots. intros H.
  destruct (existsb _ snaps) eqn:Hex; simpl in H.
  2:{ injection H as <- <-. left. split; [done|]. left. intros sn Hsn. apply not_true_is_false.
      intros Hk. apply not_true_iff_false in Hex. apply Hex, existsb_exists. exists sn.
      by rewrite <- list_elem_of_In. }
  apply bind_ok_inv in H as (s1 & s1' & H1 & H). injection H1 as <- <-.
  apply bind_ok_inv in H as (s2 & w & H2 & H). injection H as Hs <-.
  destruct (namespaceStateLost s (edID d) || namespaceUnproven s (edID d)) eqn:Hd.
  - injection H2 as _ <-. right. split; [done|]. left. apply (memory_doubted d s); [done|].
    by apply orb_prop in Hd.
  - destruct w.
    + right. split; [done|]. right. subst s2. by apply (pending_spec _ _ _ _ H2).
    + left. split; [done|]. right. apply orb_false_iff in Hd as [Hl Hu]. split.
      * intros [?|?]; congruence.
      * subst s2. by apply pending_none.
Qed.

Lemma storeEach_ok caps s s' n : storeEach host caps s = (s', Ok (n, [])) ->
  forall d snaps sn, (d, snaps) ∈ caps -> sn ∈ snaps -> accounted d s s' sn.
Proof.
  revert s s' n. induction caps as [|[d0 snaps0] caps IH]; intros s s' n H d snaps sn Hin Hsn;
    [set_solver|].
  simpl in H. apply bind_ok_inv in H as (s1 & st & H1 & H).
  apply bind_ok_inv in H as (s2 & [a pa] & H2 & H). apply bind_ok_inv in H as (s3 & [b pb] & H3 & H).
  injection H as <- _ Hp. apply app_eq_nil in Hp as [-> ->].
  pose proof (mrel_run _ _ _ _ _ (read_storable _ _ _) H1) as R1.
  pose proof (mrel_run _ _ _ _ _ (read_putAll _ _ _) H2) as R2.
  pose proof (mrel_run _ _ _ _ _ (read_storeEach _ _) H3) as R3.
  apply elem_of_cons in Hin as [[= -> ->]|Hin].
  2:{ eapply (accounted_widen harmless _ s s1 s3 s3); [by eapply reads_later| | |].
      - transitivity s2; by eapply reads_later.
      - reflexivity.
      - destruct (IH _ _ _ H3 _ _ _ Hin Hsn) as [[c Hc]|Hw]; [left|by right]. exists c.
        refine (since_in s1 s2 s3 s3 _ (reads_later _ _ _ R2) (reads_later _ _ _ R3) _ Hc).
        reflexivity. }
  assert (sn ∈ st \/ (namespaceBackedKind (snKind sn) = true /\ (doubted d0 s1 \/ owes d0 s1)))
    as [Hst|[Hk Hw]].
  { apply storable_spec in H1 as [[-> _]|[-> Hw]]; [by left|].
    destruct (namespaceBackedKind (snKind sn)) eqn:Hk; [by right|left].
    apply list_elem_of_In, filter_In. rewrite Hk. by rewrite <- list_elem_of_In. }
  - left. destruct (putAll_ok _ _ _ _ _ H2 _ Hst) as [c Hc]. exists c.
    refine (since_in s s1 s2 s3 _ (reads_later _ _ _ R1) (reads_later _ _ _ R2)
              (reads_later _ _ _ R3) Hc).
  - right. split; [done|]. destruct Hw as [Hw|Hw]; [left|right].
    + eapply memory_doubted; [|done]. transitivity (memory s2); [apply R3|apply R2].
    + eapply owes_later; [exact R3|]. by eapply owes_later.
Qed.

Lemma storeCaptured_ok top caps b s s' n :
  storeCaptured host cfg top caps b s = (s', Ok (n, [])) ->
  forall d snaps sn, (d, snaps) ∈ caps -> sn ∈ snaps -> accounted d s s' sn.
Proof.
  unfold storeCaptured. case_bool_decide as He.
  { apply map_eq_nil in He as ->. set_solver. }
  intros H. apply bind_ok_inv in H as (s1 & ps & H1 & H).
  apply bind_ok_inv in H as (s2 & [a pa] & H2 & H). injection H as <- _ Hp.
  apply app_eq_nil in Hp as [-> ->]. intros d snaps sn Hin Hsn.
  pose proof (mrel_run _ _ _ _ _ (grow_ensure _ _ _ _ _) H1) as R1.
  pose proof (mrel_run _ _ _ _ _ (read_storeEach _ _) H2) as R2.
  eapply (accounted_widen harmless); [by eapply grows_later|by eapply reads_later|reflexivity|].
  by eapply storeEach_ok.
Qed.
End Stored.

(** ** Replacing a container *)

(** A command that ran in the container and succeeded, with its output. *)
Definition answered (c : string) (cmd : Cmd) (body : string) (l : list Event) : Prop :=
  exists res, EvExec c cmd (Ok res) ∈ l /\ xrCode res = 0 /\ xrStdout res = body.

(** The configuration of FRR: what vtysh shows, or the file if that failed. *)
Definition configRead (c body : string) (l : list Event) : Prop :=
  answered c CmdRunningConfig body l \/
  (exists res, EvExec c CmdRunningConfig (Ok res) ∈ l /\ xrCode res <> 0) /\
  answered c CmdCatFRR body l.

(** Everything a device of its kind holds was read out of its container, and
    these are the snapshots of what the commands printed. *)
Definition readOut (top : ETop) (d : EDevice) (snaps : list Snapshot) (l : list Event) : Prop :=
  let c := edContainer d in
  if bool_decide (edKind d = KindRouter) then
    exists nos tunnels addrs,
      (resolveNOS d = Some "frr" /\
       (exists body, configRead c body l /\ nos = snapshotOf top d KindFRR (cleanRunningConfig body)) \/
       resolveNOS d = Some "bird" /\ EvSave (edID d) (Ok nos) ∈ l) /\
      answered c CmdTunnels tunnels l /\ answered c CmdAddrs addrs l /\
      snaps = nos ++ snapshotOf top d KindTunnels tunnels ++ snapshotOf top d KindAddrs addrs
  else if bool_decide (edKind d = KindHost) then
    exists addrs, answered c CmdAddrs addrs l /\ snaps = snapshotOf top d KindAddrs addrs
  else if bool_decide (edKind d = KindSwitch) then
    exists ports, answered c CmdSwitch ports l /\ snaps = snapshotOf top d KindOVS ports
  else snaps = [].

(** A complete reading: the container is gone, or it is up and was read out. *)
Definition completeReading (top : ETop) (d : EDevice) (snaps : list Snapshot) (l : list Event)
    : Prop :=
  exists c, EvInspect (edContainer d) (Ok c) ∈ l /\
    (ctState c = StateAbsent /\ snaps = [] \/
     Joinable (ctState c) = true /\ readOut top d snaps l).

(** A complete reading of a device whose every snapshot is accounted for:
    taken after [s], stored before [s']. *)
Definition preserved (top : ETop) (d : EDevice) (s s' : Pass) : Prop :=
  exists sa sb snaps, later s sa /\ later sa sb /\ later sb s' /\
    completeReading top d snaps (since sa sb) /\ Forall (accounted d sb s') snaps.

Section Readings.
Variable host : Host.

Lemma answered_mono c cmd body (l k : list Event) : l ⊆ k -> answered c cmd body l -> answered c cmd body k.
Proof. intros H (res & Hin & ?). exists res. split; [by apply H|done]. Qed.
Lemma configRead_mono c body (l k : list Event) : l ⊆ k -> configRead c body l -> configRead c body k.
Proof.
  intros H [Ha|[(res & Hin & Hc) Ha]]; [left; by eapply answered_mono|right].
  split; [exists res; split; [by apply H|done]|by eapply answered_mono].
Qed.
Lemma since_sub s1 s2 s3 s4 : later s1 s2 -> later s2 s3 -> later s3 s4 -> since s2 s3 ⊆ since s1 s4.
Proof. intros H1 H2 H3 e. by apply since_in. Qed.

(** A call of the program is in the log with its answer. *)
Lemma Exec_value c cmd s s' r : asValue (Exec host c cmd) s = (s', Ok r) ->
  since s s' = [EvExec c cmd r].
Proof. unfold asValue, Exec, call. simpl. intros [= <- <-]. by apply since_app. Qed.

Lemma readCommand_ok d what cmd s s' body : readCommand host d what cmd s = (s', Ok (Ok body)) ->
  answered (edContainer d) cmd body (since s s').
Proof.
  unfold readCommand. intros H. apply bind_ok_inv in H as (s1 & r & H1 & H). injection H as <- Hr.
  apply Exec_value in H1 as ->. destruct r as [res|e]; [|done].
  destruct (xrCode res =? 0) eqn:Hc; [|done]. injection Hr as <-. exists res.
  split_and!; [set_solver|by apply Z.eqb_eq|done].
Qed.

Lemma readFRRConfig_ok d s s' body : readFRRConfig host d s = (s', Ok (Ok body)) ->
  configRead (edContainer d) body (since s s').
Proof.
  unfold readFRRConfig. intros H. apply bind_ok_inv in H as (s1 & r & H1 & H).
  pose proof (mrel_run _ _ _ _ _ (mrel_asValue _ _ (read_Exec host _ _)) H1) as R1.
  apply Exec_value in H1. destruct r as [res|e]; [|done].
  destruct (xrCode res =? 0) eqn:Hc.
  { injection H as <- <-. left. exists res. rewrite H1. split_and!; [set_solver|by apply Z.eqb_eq|done]. }
  destruct (_ || _); [|done]. apply bind_ok_inv in H as (s2 & fb & H2 & H).
  pose proof (mrel_run _ _ _ _ _ (mrel_asValue _ _ (read_Exec host _ _)) H2) as R2.
  apply Exec_value in H2. injection H as <- Hf. destruct fb as [f|e]; [|done].
  destruct (xrCode f =? 0) eqn:Hcf; [|done]. injection Hf as <-. right.
  apply reads_later in R1, R2. split.
  - exists res. split; [|by apply Z.eqb_neq]. eapply (since_in s s s1 s2); [reflexivity|done..|].
    rewrite H1. set_solver.
  - exists f. split_and!; [|by apply Z.eqb_eq|done].
    eapply (since_in s s1 s2 s2); [done|done|reflexivity|]. rewrite H2. set_solver.
Qed.

Lemma reading_ok top d kind m s s' snaps : reading top d kind m s = (s', Ok (snaps, [])) ->
  exists body, m s = (s', Ok (Ok body)) /\ snaps = snapshotOf top d kind body.
Proof.
  unfold reading. intros H. apply bind_ok_inv in H as (s1 & r & H1 & H).
  destruct r as [body|e]; [|done]. injection H as <- <-. eauto.
Qed.

Lemma both_ok a b s s' snaps : both a b s = (s', Ok (snaps, [])) ->
  exists s1 x y, a s = (s1, Ok (x, [])) /\ b s1 = (s', Ok (y, [])) /\ snaps = x ++ y.
Proof.
  unfold both. intros H. apply bind_ok_inv in H as (s1 & [x mx] & H1 & H).
  apply bind_ok_inv in H as (s2 & [y my] & H2 & H). injection H as <- <- Hm.
  apply app_eq_nil in Hm as [-> ->]. by exists s1, x, y.
Qed.

Lemma readNOS_ok top d s s' nos : readNOS host top d s = (s', Ok (nos, [])) ->
  resolveNOS d = Some "frr" /\
  (exists body, configRead (edContainer d) body (since s s') /\
     nos = snapshotOf top d KindFRR (cleanRunningConfig body)) \/
  resolveNOS d = Some "bird" /\ EvSave (edID d) (Ok nos) ∈ since s s'.
Proof.
  unfold readNOS. destruct (resolveNOS d) as [name|] eqn:Hn; [|done]. case_bool_decide as Hf.
  - subst. intros H. left. split; [done|].
    apply reading_ok in H as (body & H & ->). apply bind_ok_inv in H as (s1 & r & H1 & H).
    injection H as <- Hr. destruct r as [body0|e]; [|done]. injection Hr as <-.
    exists body0. split; [by apply readFRRConfig_ok|done].
  - intros H. right. assert (name = "bird") as ->.
    { unfold resolveNOS in Hn. destruct (_ || _) eqn:E; [|done]. injection Hn as <-.
      apply orb_prop in E as [E%bool_decide_eq_true|E%bool_decide_eq_true]; congruence. }
    split; [done|]. apply bind_ok_inv in H as (s1 & r & H1 & H).
    unfold asValue, call in H1. simpl in H1. injection H1 as <- Hr.
    destruct r as [sn|e]; [|done]. injection H as <- <-.
    rewrite (since_app s _ [EvSave (edID d) (hProviderSave host (psLog s) d)]) by done.
    rewrite Hr. set_solver.
Qed.

Lemma readDevice_ok top d s s' snaps : readDevice host top d s = (s', Ok (snaps, [])) ->
  readOut top d snaps (since s s').
Proof.
  unfold readDevice, readOut. cbn zeta.
  case_bool_decide as K1; [|case_bool_decide as K2; [|case_bool_decide as K3]].
  - intros H. apply both_ok in H as (s1 & nos & rest & H1 & H2 & ->).
    apply both_ok in H2 as (s2 & x & y & H2 & H3 & ->).
    pose proof (reads_later _ _ _ (mrel_run _ _ _ _ _ (read_readNOS _ _ _) H1)) as L1.
    apply reading_ok in H2 as (tunnels & H2 & ->). apply reading_ok in H3 as (addrs & H3 & ->).
    pose proof (reads_later _ _ _ (mrel_run _ _ _ _ _ (read_readCommand _ _ _ _) H2)) as L2.
    pose proof (reads_later _ _ _ (mrel_run _ _ _ _ _ (read_readCommand _ _ _ _) H3)) as L3.
    apply readNOS_ok in H1. apply readCommand_ok in H2, H3. exists nos, tunnels, addrs.
    assert (later s1 s') as L13 by by transitivity s2.
    assert (since s s1 ⊆ since s s') as S1 by (apply since_sub; [reflexivity|done..]).
    split_and!; [| | |done].
    + destruct H1 as [[? (body & Hb & ->)]|[? Hs]]; [left|right; split; [done|by apply S1]].
      split; [done|]. exists body. split; [by eapply configRead_mono|done].
    + eapply answered_mono; [|done]. by apply since_sub.
    + eapply answered_mono; [|done]. apply since_sub; [by transitivity s1|done|reflexivity].
  - intros H. apply reading_ok in H as (body & H & ->). exists body.
    split; [by apply readCommand_ok in H|done].
  - intros H. apply reading_ok in H as (body & H & ->). exists body.
    split; [by apply readCommand_ok in H|done].
  - by intros [= _ <-].
Qed.

Lemma limitedCapture_reads top d s s' snaps : limitedCapture host top d s = (s', Ok (snaps, None)) ->
  later s s' /\ completeReading top d snaps (since s s').
Proof.
  intros H0. split; [eapply reads_later, mrel_run; [apply read_Capture|done]|].
  revert H0. unfold limitedCapture. intros H. apply bind_ok_inv in H as (s1 & r & H1 & H).
  injection H as <- Hr. unfold asValue, limited in H1. destruct (hLimited host _) as [e|]; [by injection H1 as _ <-|].
  destruct (Capture host top d s) as [s2 r2] eqn:Hc. injection H1 as <- <-.
  destruct r2 as [x|e]; [|done]. subst x. unfold Capture in Hc.
  apply bind_ok_inv in Hc as (s3 & r3 & H3 & Hc).
  pose proof (reads_later _ _ _ (mrel_run _ _ _ _ _ (mrel_asValue _ _ (read_Inspect host _)) H3)) as L3.
  assert (since s s3 = [EvInspect (edContainer d) r3]) as E3.
  { unfold asValue, Inspect, call in H3. simpl in H3. injection H3 as <- <-. by apply since_app. }
  destruct r3 as [c|e]; [|done]. exists c. revert Hc. case_bool_decide as Ha.
  { intros [= <- <-]. rewrite E3. split; [set_solver|by left]. }
  destruct (Joinable (ctState c)) eqn:Hj; [|done]. simpl. intros Hc.
  apply bind_ok_inv in Hc as (s4 & [sn missed] & H4 & Hc).
  pose proof (reads_later _ _ _ (mrel_run _ _ _ _ _ (read_readDevice _ _ _) H4)) as L4.
  destruct missed as [|m ms]; [|done]. injection Hc as <- <-. apply readDevice_ok in H4.
  assert (since s3 s4 ⊆ since s s4) as Hsub by (apply since_sub; [done..|reflexivity]).
  split; [eapply (since_in s s s3 s4); [reflexivity|done..|rewrite E3; set_solver]|].
  right. split; [done|]. revert H4. unfold readOut. cbn zeta. repeat case_bool_decide; try done.
  - intros (nos & tu & ad & Hn & Ht & Had & ->). exists nos, tu, ad. split_and!; [| | |done].
    + destruct Hn as [[? (body & Hb & ->)]|[? Hs]]; [left|right; split; [done|by apply Hsub]].
      split; [done|]. exists body. split; [by eapply configRead_mono|done].
    + by eapply answered_mono.
    + by eapply answered_mono.
  - intros (ad & Had & ->). exists ad. split; [by eapply answered_mono|done].
  - intros (ad & Had & ->). exists ad. split; [by eapply answered_mono|done].
Qed.
End Readings.

Section Replacement.
Variable host : Host.
Variable cfg : Config.

Lemma limitedCapture_ok top d s s' r : limitedCapture host top d s = (s', r) ->
  exists x, r = Ok x.
Proof.
  unfold limitedCapture, asValue. unfold mbind, SE_bind. destruct (limited _ _ s) as [s1 r1].
  intros [= _ <-]. eauto.
Qed.

Lemma captureBeforeReplace_ok top d s s' :
  studentOwned top d = true -> cfWritesReference cfg = false ->
  captureBeforeReplace host cfg top d s = (s', Ok tt) ->
  cfStore cfg = true /\ namespaceUnproven s' (edID d) = false /\
  preserved top d s s'.
Proof.
  intros Hst Hwr H. unfold captureBeforeReplace in H. rewrite Hst, Hwr in H. simpl in H.
  apply bind_ok_inv in H as (s1 & [] & H1 & H).
  destruct (cfStore cfg); [|done]. injection H1 as ->. split; [done|].
  apply bind_ok_inv in H as (s2 & first & H2 & H).
  apply bind_ok_inv in H as (s3 & [snaps err] & H3 & H).
  apply bind_ok_inv in H as (s4 & [] & H4 & H). destruct err as [|]; [done|]. injection H4 as ->.
  apply bind_ok_inv in H as (s5 & [n ps] & H5 & H).
  apply bind_ok_inv in H as (s6 & [] & H6 & H). case_bool_decide as Hps; [|done]. injection H6 as ->.
  apply bind_ok_inv in H as (s7 & s7' & H7 & H). injection H7 as <- <-. subst ps.
  destruct (namespaceUnproven s6 (edID d)) eqn:Hu; [done|]. injection H as <-.
  split; [done|].
  assert (exists sa, later s1 sa /\
    limitedCapture host top d sa = (s4, Ok (snaps, None))) as (sa & Hsa & Hcap).
  { destruct first as [fs [[|e]|]]; simpl in H3.
    - apply bind_ok_inv in H3 as (a & [] & A1 & H3). apply bind_ok_inv in H3 as (b & [] & A2 & H3).
      exists b. split; [|done]. transitivity s2.
      { eapply reads_later, mrel_run; [apply read_Capture|done]. }
      transitivity a.
      + eapply reads_later, mrel_run; [|exact A1].
        apply mrel_try_catch; [apply _|apply read_Start|intros; apply mrel_fail; apply _].
      + eapply grows_later, mrel_run; [apply grow_lost|done].
    - by injection H3 as <- <-.
    - injection H3 as <- <-. by exists s1. }
  apply limitedCapture_reads in Hcap as [Hlater Hread].
  exists sa, s4, snaps. split_and!; [done|done| |done|].
  - eapply grows_later, mrel_run; [apply grow_store|done].
  - apply Forall_forall. intros sn Hsn. eapply storeCaptured_ok; [done| |done]. set_solver.
Qed.
End Replacement.

(** ** Calls that spare a container *)

Definition spares (c : string) (e : Event) : Prop :=
  match e with EvRemove c' _ => c' <> c | _ => True end.
Lemma harmless_spares c e : harmless e -> spares c e.
Proof. by destruct e. Qed.

Lemma reads_spares {A} c ok (m : SE Pass string A) :
  (forall e, ok e -> harmless e) -> mrel (reads ok) m -> mrel (extends (spares c)) m.
Proof.
  intros Hok. apply mrel_mono. intros s s' [H _]. eapply extends_mono; [|done].
  intros e He. by apply harmless_spares, Hok.
Qed.
Lemma grows_spares {A} c (m : SE Pass string A) :
  mrel (grows harmless) m -> mrel (extends (spares c)) m.
Proof.
  apply mrel_mono. intros s s' [H _]. eapply extends_mono; [|done]. apply harmless_spares.
Qed.
Lemma extends_same ok s s' : psLog s' = psLog s -> extends ok s s'.
Proof. intros H. exists []. by rewrite H, app_nil_r. Qed.

Lemma control_other (d : EDevice) : FRRControlContainer d <> edContainer d.
Proof.
  unfold FRRControlContainer. intros H. apply (f_equal String.length) in H.
  rewrite length_append in H. simpl in H. lia.
Qed.

Section Spared.
Variable host : Host.
Variable cfg : Config.
Variable d : EDevice.
Abbreviation spared := (mrel (extends (spares (edContainer d)))) (only parsing).

Lemma spared_quiet {A} (m : SE Pass string A) : mrel (reads quiet) m -> spared m.
Proof. apply reads_spares, quiet_harmless. Qed.
Hint Resolve spared_quiet : pass.
Lemma spared_call {A} mk (f : list Event -> result string A) :
  (forall r, spares (edContainer d) (mk r)) -> spared (call mk f).
Proof. intros H. eapply mrel_mono; [|by apply call_reads]. by intros s s' [? _]. Qed.

Lemma spared_Remove : spared (Remove host (FRRControlContainer d)).
Proof. apply spared_call. intros r. apply control_other. Qed.
Lemma spared_shares : spared (controlSharesPrimaryNamespace host cfg d).
Proof. apply spared_quiet. unfold controlSharesPrimaryNamespace. pass_steps. Qed.
Lemma spared_require n last : spared (requireControlSharesPrimaryNamespace host cfg n last d).
Proof.
  revert last. induction n as [|n IH]; intros last; simpl; pass_steps; auto using spared_shares.
Qed.
Lemma spared_stop : spared (stopPrimaryFRRDaemons host cfg d).
Proof. apply spared_quiet. unfold stopPrimaryFRRDaemons. pass_steps. Qed.
Lemma spared_control final : spared (ensureFRRControl host cfg d final).
Proof.
  unfold ensureFRRControl. pass_steps;
    auto using spared_shares, spared_stop, spared_require, spared_Remove, spared_quiet with pass.
  all: unfold prepareSpecs, Create; by apply spared_call.
Qed.
Lemma spared_removeControl : spared (removeFRRControl host cfg d).
Proof.
  unfold removeFRRControl. pass_steps; auto using spared_Remove, spared_quiet with pass.
Qed.
Lemma spared_restore top : spared (restoreIfNeeded host cfg top d).
Proof.
  unfold restoreIfNeeded. pass_steps; auto using spared_quiet with pass.
  by apply extends_same.
Qed.
Lemma spared_capture top : spared (captureBeforeReplace host cfg top d).
Proof.
  unfold captureBeforeReplace. pass_steps; auto using spared_quiet with pass.
  - eapply mrel_mono; [|apply grow_lost]. intros s s' [H _]. eapply extends_mono; [|done].
    intros e He. by apply harmless_spares, quiet_harmless.
  - apply grows_spares, grow_store.
Qed.
End Spared.

(** A removal of the container was preceded by the preservation of its device. *)
Definition removedSafely (top : ETop) (d : EDevice) (s s' : Pass) : Prop :=
  (forall x, EvRemove (edContainer d) x ∉ since s s') \/
  exists s1, later s s1 /\ later s1 s' /\
    (forall x, EvRemove (edContainer d) x ∉ since s s1) /\
    namespaceUnproven s1 (edID d) = false /\ preserved top d s s1.

Section Replaced.
Variable host : Host.
Variable cfg : Config.
Variable top : ETop.
Variable d : EDevice.
Hypothesis student : studentOwned top d = true.
Hypothesis teaching : cfWritesReference cfg = false.

Lemma spares_none ok c s s' x : (forall e, ok e -> spares c e) -> extends ok s s' ->
  EvRemove c x ∉ since s s'.
Proof.
  intros Hok H He. apply extends_since in H as [_ H]. rewrite Forall_forall in H.
  by apply H, Hok in He.
Qed.

Lemma removedSafely_kept s s1 s2 : later s s1 ->
  extends (spares (edContainer d)) s1 s2 -> removedSafely top d s s1 ->
  removedSafely top d s s2.
Proof.
  intros H0 H [Hn|(sp & A & B & C)].
  - left. intros x Hx. apply (since_split s s1 s2) in Hx as [Hx|Hx]; [by eapply Hn| |done|].
    + revert Hx. by eapply spares_none.
    + by eapply extends_mono.
  - right. exists sp. split_and!; [done| |apply C..]. transitivity s1; [done|]. by eapply extends_mono.
Qed.

Lemma replace_block s0 s : extends (spares (edContainer d)) s0 s ->
  wp (captureBeforeReplace host cfg top d;; removeFRRControl host cfg d;;
      Remove host (edContainer d))
    (fun s' _ => later s0 s' /\ removedSafely top d s0 s') s.
Proof.
  intros Hs. assert (forall s1, extends (spares (edContainer d)) s0 s1 ->
    later s0 s1 /\ removedSafely top d s0 s1) as Hearly.
  { intros s1 H. split; [by eapply extends_mono|]. left. intros x. by eapply spares_none. }
  apply wp_bind. destruct (captureBeforeReplace host cfg top d s) as [s1 r] eqn:H1.
  apply (wp_run _ _ _ _ _ H1).
  pose proof (mrel_run _ _ _ _ _ (spared_capture _ _ _ _) H1) as E1.
  destruct r as [[]|e]; [|apply Hearly; by transitivity s].
  apply captureBeforeReplace_ok in H1 as (_ & Hu & sa & sb & snaps & P1 & P2 & P3); [|done..].
  apply wp_bind. destruct (removeFRRControl host cfg d s1) as [s2 r] eqn:H2.
  apply (wp_run _ _ _ _ _ H2).
  pose proof (mrel_run _ _ _ _ _ (spared_removeControl _ _ _) H2) as E2.
  assert (extends (spares (edContainer d)) s0 s2) as E02 by (transitivity s; [done|by transitivity s1]).
  destruct r as [[]|e]; [|by apply Hearly]. unfold wp, Remove, call. simpl.
  set (s3 := set_psLog _ s2). assert (later s2 s3) as L3 by (eexists; split; [done|by constructor]).
  assert (later s0 s1) as L1 by (transitivity s; eapply extends_mono; done).
  assert (later s1 s2) as L2 by (by eapply extends_mono).
  split; [by transitivity s1; [|transitivity s2]|]. right. exists s1.
  split_and!; [done|by transitivity s2| |done|].
  - intros x. eapply spares_none; [done|]. by transitivity s.
  - exists sa, sb, snaps. split_and!; [|done|apply P3..]. transitivity s; [by eapply extends_mono|done].
Qed.

Lemma ensureContainer_safe final s :
  wp (ensureContainer host cfg top d final)
    (fun s' _ => removedSafely top d s s') s.
Proof.
  unfold ensureContainer. apply wp_bind.
  destruct (Inspect host (edContainer d) s) as [s1 r] eqn:H1. apply (wp_run _ _ _ _ _ H1).
  assert (extends (spares (edContainer d)) s s1) as E1.
  { eapply mrel_run; [|done]. apply spared_quiet, read_Inspect. }
  assert (later s s1) as L1 by (by eapply extends_mono).
  assert (removedSafely top d s s1) as S1.
  { left. intros x. by eapply spares_none. }
  destruct r as [cur|e]; [|done].
  assert (forall {A} (m : SE Pass string A) s2, later s s2 ->
    removedSafely top d s s2 -> mrel (extends (spares (edContainer d))) m ->
    wp m (fun s' _ => removedSafely top d s s') s2) as Hkeep.
  { intros A m s2 Hl Hs Hm. destruct (m s2) as [s3 r] eqn:Hr. apply (wp_run _ _ _ _ _ Hr).
    apply (mrel_run _ _ _ _ _ Hm) in Hr. by eapply removedSafely_kept. }
  cbn zeta. destruct (_ && negb (cfRecovery cfg && _)).
  { apply Hkeep; [done..|]. pass_steps; auto using spared_control, spared_restore, spared_quiet with pass. }
  apply wp_bind. eapply wp_mono; [apply (wp_when _ _ (fun s' _ => later s s' /\
    removedSafely top d s s'))|].
  { intros _. by apply replace_block. }
  { by split. }
  intros s2 [[]|e] [L2 S2]; [|done]. apply Hkeep; [done..|].
  pass_steps; auto using spared_control, spared_restore, spared_quiet with pass.
  all: try (unfold prepareSpecs, Create; by apply spared_call).
  by apply extends_same.
Qed.
End Replaced.

(** C9. A student's container is destroyed only after what it holds was put
    safely away. Whatever the runtime and the store answer, when a deployment
    that does not write the reference solution removes the container of a
    student-owned device to replace it, then before the removal a complete
    reading of the device was taken: every command that reads what a device of
    its kind holds (of a router the routing configuration, or its file if the
    daemons did not answer, the tunnels and the addresses; of a host the
    addresses; of a switch its ports) ran in that container and succeeded, or
    the container had gone; and every snapshot made of what they printed was
    either written to the store or withheld because what is in the namespace is
    known not to be the student's work (it was lost, or the saved copy is still
    to be replayed); the namespace is never one of which nothing is known. *)
Theorem replacement_preserves_work host cfg top d final s s' r x :
  studentOwned top d = true -> cfWritesReference cfg = false ->
  ensureContainer host cfg top d final s = (s', r) ->
  EvRemove (edContainer d) x ∈ since s s' ->
  exists s1, later s s1 /\ later s1 s' /\ EvRemove (edContainer d) x ∉ since s s1 /\
    namespaceUnproven s1 (edID d) = false /\ preserved top d s s1.
Proof.
  intros Hst Hwr H Hx. pose proof (ensureContainer_safe host cfg top d Hst Hwr final s) as Hw.
  unfold wp in Hw. rewrite H in Hw. destruct Hw as [Hn|(s1 & A & B & C & D)]; [by apply Hn in Hx|].
  exists s1. split_and!; [done|done|apply C|apply D..].
Qed.

(** ** The guard *)

Section Pools.
Variable host : Host.
Context {X A : Type} (R : Pass -> Pass -> Prop) `{!PreOrder R} (f : X -> SE Pass string A).
Hypothesis f_rel : forall x, mrel R (f x).

(** Every item was skipped, or ran somewhere in between. *)
Lemma poolFrom_spec items i s s' rs : poolFrom host i items f s = (s', Ok rs) ->
  Forall2 (fun x o => match o with
                      | None => True
                      | Some r => exists sa sb, R s sa /\ R sb s' /\ f x sa = (sb, r)
                      end) items rs.
Proof.
  revert i s rs. induction items as [|x items IH]; intros i s rs H; simpl in H.
  { injection H as _ <-. constructor. }
  apply bind_ok_inv in H as (s1 & s1' & H1 & H). injection H1 as <- <-.
  apply bind_ok_inv in H as (s2 & o & H2 & H). apply bind_ok_inv in H as (s3 & more & H3 & H).
  injection H as <- <-.
  pose proof (mrel_run _ _ _ _ _ (pool_rel host R f items (Datatypes.S i) f_rel) H3) as R3.
  assert (R s s2 /\ match o with None => True | Some r => f x s = (s2, r) end) as [R2 Ho].
  { destruct (hStarted host (psLog s) i).
    - apply bind_ok_inv in H2 as (s4 & r & H4 & H2). injection H2 as <- <-.
      unfold asValue in H4. destruct (f x s) as [s5 r5] eqn:Hf. injection H4 as <- <-.
      split; [|done]. by eapply mrel_run.
    - by injection H2 as <- <-. }
  constructor.
  - destruct o as [r|]; [|done]. by exists s, s2.
  - eapply Forall2_impl; [by eapply IH|]. intros y [r|]; [|done].
    intros (sa & sb & Ha & Hb & Hf). exists sa, sb. split_and!; [by transitivity s2|done..].
Qed.

Lemma runBounded_spec items s s' rs ctxErr : runBounded host items f s = (s', Ok (rs, ctxErr)) ->
  Forall2 (fun x o => match o with
                      | None => True
                      | Some r => exists sa sb, R s sa /\ R sb s' /\ f x sa = (sb, r)
                      end) items rs /\
  (ctxErr = None -> Forall (fun o => is_Some o) rs).
Proof.
  unfold runBounded. intros H. apply bind_ok_inv in H as (s1 & rs1 & H1 & H).
  apply bind_ok_inv in H as (s2 & s2' & H2 & H). injection H2 as <- <-. injection H as <- <- He.
  split; [by eapply poolFrom_spec|]. intros Hn. rewrite Hn in He. clear -He.
  destruct (hContext host _); [done|]. destruct (existsb _ rs1) eqn:Hx; [done|].
  apply Forall_forall. intros [r|] Ho; [done|]. apply not_true_iff_false in Hx.
  exfalso. apply Hx, existsb_exists. exists None. by rewrite <- list_elem_of_In.
Qed.
End Pools.

Lemma missingFrom_none have want : missingFrom have want = None -> forall x, x ∈ want -> x ∈ have.
Proof.
  intros H x Hx. apply list_elem_of_In in Hx. apply (find_none _ _ H) in Hx.
  apply negb_false_iff, bool_decide_eq_true in Hx. done.
Qed.

(** A namespace holds all that a device's should: the modelled interfaces, the
    platform's addresses and everything saved. *)
Definition holdsAll (d : EDevice) (saved : gmap string (list string)) (have : namespaceContents)
    : Prop :=
  (forall i, i ∈ modelledNamespaceInterfaces d -> i ∈ ncLinks have) /\
  (forall a, a ∈ modelledPlatformAddresses d -> a ∈ ncFacts have) /\
  (forall kind fact, kind ∈ namespaceBackedKinds -> fact ∈ lookup_or [] saved kind ->
     fact ∈ ncFacts have).

Lemma continuity_ok d saved have : continuity d saved have = Ok tt -> holdsAll d saved have.
Proof.
  unfold continuity. destruct (missingFrom (ncLinks have) _) eqn:H1; [done|].
  destruct (missingFrom (ncFacts have) _) eqn:H2; [done|].
  destruct (List.find _ _) as [[k f]|] eqn:H3; [done|]. intros _.
  split_and!; [by apply missingFrom_none..|]. intros kind fact Hk Hf.
  assert ((kind, fact) ∈ (kind ← namespaceBackedKinds; fact ← lookup_or [] saved kind;
    [(kind, fact)])) as Hin.
  { apply list_elem_of_bind. exists kind. split; [|done]. apply list_elem_of_bind. exists fact.
    split; [set_solver|done]. }
  apply list_elem_of_In in Hin. apply (find_none _ _ H3) in Hin.
  by apply negb_false_iff, bool_decide_eq_true in Hin.
Qed.

(** What vouches for a device's namespace between two states: it is still the
    recorded one, or it was shown to hold everything it should, between two
    identical identities. *)
Inductive Vouched (host : Host) (top : ETop)
    (t : observationTracker) (d : EDevice) (s s' : Pass) : Prop :=
| VouchedIdentity now :
    EvNetns (edContainer d) (Ok now) ∈ since s s' ->
    trackedNamespace t (edID d) = Some now -> Known now = true ->
    Vouched host top t d s s'
| VouchedContinuity identity sa sb sc saved have :
    EvNetns (edContainer d) (Ok identity) ∈ since s sa ->
    EvNetns (edContainer d) (Ok identity) ∈ since sc s' -> Known identity = true ->
    later s sa -> later sc s' ->
    savedNamespaceObjects host top d sa = (sb, Ok saved) ->
    readNamespaceContents host d saved sb = (sc, Ok have) ->
    holdsAll d saved have ->
    Vouched host top t d s s'.

Section Guarded.
Variable host : Host.
Variable cfg : Config.
Variable top : ETop.
Hypothesis proves : cfProves cfg = true.

Lemma Vouched_widen t d s0 s s' s1 : later s0 s -> later s s' -> later s' s1 ->
  Vouched host top t d s s' -> Vouched host top t d s0 s1.
Proof.
  intros H0 H H1 [now A B C|i sa sb sc saved have A B C D E F G K].
  - apply (VouchedIdentity _ _ _ _ _ _ now); [|done..]. by eapply since_in.
  - apply (VouchedContinuity _ _ _ _ _ _ i sa sb sc saved have); try done.
    + eapply (since_in s0 s sa sa); [done..|reflexivity|done].
    + eapply (since_in sc sc s' s1); [reflexivity|done..].
    + by transitivity s.
    + by transitivity s'.
Qed.

Lemma Netns_event c s s' r : NetnsIdentityOf host cfg c s = (s', r) -> EvNetns c r ∈ since s s'.
Proof.
  unfold NetnsIdentityOf, call. rewrite proves. simpl. intros [= <- <-].
  rewrite (since_app _ _ [EvNetns c (hNetns host (psLog s) c)]) by done. set_solver.
Qed.
Lemma Netns_later c s s' r : NetnsIdentityOf host cfg c s = (s', r) -> later s s'.
Proof. intros H. eapply reads_later, mrel_run; [apply read_Netns|done]. Qed.

Lemma refused_inv {S E} b (e : E) (s s' : S) :
  refuse b e s = (s', Ok tt) -> b = false /\ s' = s.
Proof. by destruct b; intros [= <-]. Qed.
Lemma caught_inv {A} (m : SE Pass string A) e s s' a :
  try_catch m (fun _ => fail e) s = (s', Ok a) -> m s = (s', Ok a).
Proof. unfold try_catch. destruct (m s) as [s1 [x|x]]; [|done]. by intros [= <- <-]. Qed.
Lemma caught_with_inv {A} (m : SE Pass string A) g s s' a :
  try_catch m (fun x => fail (g x)) s = (s', Ok a) -> m s = (s', Ok a).
Proof. unfold try_catch. destruct (m s) as [s1 [x|x]]; [|done]. by intros [= <- <-]. Qed.

Lemma baseline_vouches t d s s' i :
  proveNamespaceBaseline host cfg top d s = (s', Ok i) ->
  Vouched host top t d s s'.
Proof.
  unfold proveNamespaceBaseline, provenNamespaceContinuity. intros H.
  apply bind_ok_inv in H as (s1 & before & H1 & H). apply caught_inv in H1.
  apply bind_ok_inv in H as (s2 & [] & H2 & H). apply refused_inv in H2 as [Hb ->].
  apply bind_ok_inv in H as (s3 & [] & H3 & H).
  apply bind_ok_inv in H3 as (sb & saved & Hs & H3). apply caught_with_inv in Hs.
  apply bind_ok_inv in H3 as (sc & have & Hr & H3). injection H3 as <- Hc.
  apply bind_ok_inv in H as (s4 & after & H4 & H). apply caught_inv in H4.
  apply bind_ok_inv in H as (s5 & [] & H5 & H). apply refused_inv in H5 as [Ha ->].
  injection H as <- <-. apply orb_false_iff in Ha as [Hk Hsame].
  apply negb_false_iff in Hsame. apply SameAs_true in Hsame as [<- Hkn].
  apply (VouchedContinuity _ _ _ _ _ _ after s1 sb sc saved have); try done.
  - by apply Netns_event in H1.
  - by apply Netns_event in H4.
  - by eapply Netns_later.
  - by eapply Netns_later.
  - by apply continuity_ok.
Qed.

(** A device that the guard looked at is in doubt or vouched for. *)
Definition settledFor (t : observationTracker) (d : EDevice) (s s' : Pass) : Prop :=
  namespaceStateLost s' (edID d) = true \/ is_Some (psUnproven s' !! edID d) \/
  Vouched host top t d s s'.

Lemma settledFor_widen t d s0 s s' s1 : later s0 s -> later s s' -> grows quiet s' s1 ->
  settledFor t d s s' -> settledFor t d s0 s1.
Proof.
  intros H0 H H1 [Hl|[Hu|Hv]]; [left|right; left|right; right].
  - by apply H1.
  - by apply H1.
  - eapply Vouched_widen; [exact H0|exact H| |done]. by eapply grows_later.
Qed.

Lemma settle_spec t d s s' r : settleCaptureSafety host cfg top t d s = (s', r) ->
  settledFor t d s s'.
Proof.
  unfold settleCaptureSafety. unfold mbind at 1, SE_bind at 1. simpl.
  destruct (namespaceStateLost s (edID d) || namespaceUnproven s (edID d)) eqn:Hd.
  { intros [= <- _]. apply orb_prop in Hd as [?|Hu]; [by left|]. right; left.
    unfold namespaceUnproven in Hu. apply bool_decide_eq_true in Hu. revert Hu.
    unfold unprovenNamespaceReason. case_bool_decide; [by intros []|done]. }
  destruct (Known _) eqn:Hk; simpl.
  - intros H. unfold mbind, SE_bind, asValue in H.
    destruct (NetnsIdentityOf host cfg (edContainer d) s) as [s1 r1] eqn:H1.
    assert (forall s2, markNamespaceStateLost (edID d) s1 = (s2, Ok tt) ->
      namespaceStateLost s2 (edID d) = true) as Hlost.
    { intros s2 [= <-]. unfold namespaceStateLost, lookup_or. simpl. by rewrite lookup_insert_eq. }
    destruct r1 as [now|e]; [destruct (negb (Known now) || negb (SameAs now _)) eqn:Hn|].
    + left. injection H as <- _. by apply Hlost.
    + injection H as <- _. right; right. apply orb_false_iff in Hn as [Hkn Hs].
      apply negb_false_iff in Hkn, Hs. apply SameAs_true in Hs as [Heq _].
      apply (VouchedIdentity _ _ _ _ _ _ now); [by apply Netns_event| |done].
      unfold trackedNamespace. revert Heq Hkn. unfold lookup_or.
      destruct (noNamespaces (tkState t) !! edID d); simpl; [by intros ->|by intros ->].
    + left. injection H as <- _. by apply Hlost.
  - unfold try_catch. destruct (proveNamespaceBaseline _ _ _ _ s) as [s1 [i|e]] eqn:H1.
    + intros [= <- _]. right; right. by eapply baseline_vouches.
    + intros H. right; left. unfold mbind, SE_bind in H. simpl in H. injection H as <- _. simpl.
      by rewrite lookup_insert_eq.
Qed.

Lemma record_marks settled t s s' t' : recordBaselinesOf settled t s = (s', Ok t') ->
  forall d, (d, None) ∈ settled -> is_Some (psUnproven s' !! edID d).
Proof.
  revert t s. induction settled as [|[d0 [[i|e]|]] settled IH]; intros t s H d Hd;
    [set_solver|simpl in H..].
  1,2: apply elem_of_cons in Hd as [[=]|Hd]; by eapply IH.
  apply bind_ok_inv in H as (s1 & [] & H1 & H).
  apply elem_of_cons in Hd as [[= ->]|Hd]; [|by eapply IH].
  pose proof (mrel_run _ _ _ _ _ (grow_record settled t) H) as [_ (_ & Hu & _)]. apply Hu.
  injection H1 as <-. simpl. by rewrite lookup_insert_eq.
Qed.

(** The tracker a guard compared with. *)
Definition consulted (t : observationTracker) (s s' : Pass) : Prop :=
  exists file, EvRead file ∈ since s s' /\
    t = match loadObservation file (etName top) (cfNode cfg) with
        | Ok t => t
        | Err _ => newObservationTracker (etName top) (cfNode cfg)
        end.

Lemma ensure_spec ds b s s' problems : ds <> [] ->
  ensureCaptureSafety host cfg top ds b s = (s', Ok problems) ->
  exists t, consulted t s s' /\ forall d, d ∈ ds -> settledFor t d s s'.
Proof.
  unfold ensureCaptureSafety. intros Hne H. rewrite bool_decide_false, proves in H by done.
  simpl in H. apply bind_ok_inv in H as (s1 & file & H1 & H).
  assert (later s s1) as L1.
  { eapply reads_later, (mrel_run (reads quiet)); [|exact H1]. by apply consult_reads. }
  injection H1 as Hs1 Hfile.
  destruct (match loadObservation file _ _ with Ok _ => _ | Err _ => _ end) as [t ps] eqn:Ht.
  exists t. assert (grows quiet s1 s') as G.
  { eapply mrel_run; [|exact H]. pass_steps.
    all: first [apply grow_record | solve [apply reads_to_grows; pass_steps]
               | apply runBounded_rel; [apply _|intros; apply grow_settle]]. }
  split.
  { exists file. split.
    - eapply (since_in s s s1 s'); [reflexivity|done|by eapply grows_later|].
      rewrite (since_app s s1 [EvRead file]) by by subst. set_solver.
    - by destruct (loadObservation _ _ _); injection Ht. }
  apply bind_ok_inv in H as (s2 & [rs ctx] & H2 & H).
  apply bind_ok_inv in H as (s3 & t' & H3 & H).
  pose proof (mrel_run _ _ _ _ _ (grow_record _ _) H3) as G3.
  assert (grows quiet s3 s') as G4.
  { eapply mrel_run; [|exact H]. pass_steps. all: apply reads_to_grows; pass_steps. }
  apply (runBounded_spec host (grows quiet)) in H2 as [H2 _];
    [|intros; apply grow_settle]. intros d Hd.
  apply list_elem_of_lookup in Hd as [k Hk].
  destruct (Forall2_lookup_l _ _ _ _ _ H2 Hk) as (o & Ho & Hspec). destruct o as [r|].
  - destruct Hspec as (sa & sb & Ra & Rb & Hf). apply settle_spec in Hf as Hs.
    eapply settledFor_widen; [| | |exact Hs].
    + transitivity s1; [done|by eapply grows_later].
    + eapply grows_later, mrel_run; [apply grow_settle|done].
    + transitivity s2; [done|]. by transitivity s3.
  - right; left. destruct G4 as [_ (_ & Hu & _)]. apply Hu. eapply record_marks; [done|].
    apply list_elem_of_lookup. exists k. by rewrite lookup_zip_with, Hk; simpl; rewrite Ho.
Qed.

Lemma put_since d snaps s s' out sn x : putAll host d snaps s = (s', Ok out) ->
  EvPut sn x ∈ since s s' -> sn ∈ snaps.
Proof.
  revert s s' out. induction snaps as [|y snaps IH]; intros s s' out H Hin.
  { injection H as <- _. unfold since in Hin. rewrite drop_all in Hin. set_solver. }
  simpl in H. apply bind_ok_inv in H as (s1 & r1 & H1 & H).
  apply bind_ok_inv in H as (s2 & [n ps] & H2 & H). injection H as <- _.
  assert (psLog s1 = psLog s ++ [EvPut y r1]) as Hl.
  { unfold asValue, Put, call in H1. simpl in H1. by injection H1 as <- <-. }
  apply (since_split s s1 s2) in Hin as [Hin|Hin].
  - rewrite (since_app _ _ _ Hl) in Hin. apply list_elem_of_singleton in Hin as [= -> _]. set_solver.
  - apply elem_of_cons. right. by eapply IH.
  - exists [EvPut y r1]. split; [done|by constructor].
  - eapply reads_later, mrel_run; [apply read_putAll|done].
Qed.

Lemma unmarked_widen d s0 s s' s1 : later s0 s -> later s s' -> later s' s1 ->
  psPending s = psPending s0 -> unmarked d s s' -> unmarked d s0 s1.
Proof.
  intros H0 H H1 Hp [Hn (r & Hr & Hc)]. split; [by rewrite <- Hp|]. exists r.
  split; [by eapply since_in|done].
Qed.

Lemma quiet_put s s' sn x : reads quiet s s' -> EvPut sn x ∉ since s s'.
Proof. intros [H _] Hin. apply extends_since in H as [_ H]. rewrite Forall_forall in H. by apply H in Hin. Qed.

Lemma storeEach_puts caps s s' out sn x : storeEach host caps s = (s', Ok out) ->
  EvPut sn x ∈ since s s' -> namespaceBackedKind (snKind sn) = true ->
  exists d snaps, (d, snaps) ∈ caps /\ sn ∈ snaps /\ ~ doubted d s /\ unmarked d s s'.
Proof.
  revert s s' out. induction caps as [|[d snaps] caps IH]; intros s s' out H Hin Hk.
  { injection H as <- _. unfold since in Hin. rewrite drop_all in Hin. set_solver. }
  simpl in H. apply bind_ok_inv in H as (s1 & st & H1 & H).
  apply bind_ok_inv in H as (s2 & [a pa] & H2 & H). apply bind_ok_inv in H as (s3 & [b pb] & H3 & H).
  injection H as <- _. pose proof (mrel_run _ _ _ _ _ (read_storable _ _ _) H1) as R1.
  pose proof (mrel_run _ _ _ _ _ (read_putAll _ _ _) H2) as R2.
  pose proof (mrel_run _ _ _ _ _ (read_storeEach _ _) H3) as R3.
  apply (since_split s s1 s3) in Hin as [Hin|Hin];
    [by apply (quiet_put _ _ _ _ R1) in Hin| |by eapply reads_later
    |transitivity s2; by eapply reads_later].
  apply (since_split s1 s2 s3) in Hin as [Hin|Hin]; [| |by eapply reads_later..].
  - exists d, snaps. apply (put_since _ _ _ _ _ _ _ H2) in Hin.
    apply storable_spec in H1 as [[-> [Hn|[Hd Hp]]]|[-> _]].
    + apply Hn in Hin. congruence.
    + split_and!; [set_solver|done..|]. eapply (unmarked_widen d s s s1 s3); [reflexivity|..|done].
      * by eapply reads_later.
      * transitivity s2; by eapply reads_later.
      * done.
    + apply list_elem_of_In, filter_In in Hin as [_ Hin]. by rewrite Hk in Hin.
  - destruct (IH _ _ _ H3 Hin Hk) as (d' & snaps' & A & B & C & D). exists d', snaps'.
    assert (memory s2 = memory s) as Hm by (transitivity (memory s1); [apply R2|apply R1]).
    split_and!; [set_solver|done| |].
    + intros Hd. apply C. by eapply memory_doubted.
    + eapply (unmarked_widen d' s s2 s3 s3); [transitivity s1; by eapply reads_later
        |by eapply reads_later|reflexivity| |done]. unfold memory in Hm. by injection Hm.
Qed.
End Guarded.

(** C20. Nothing is filed as a student's work that may have come out of an
    empty room, on a runtime that can prove the identity of namespaces. There,
    whenever a capture writes a snapshot of a network namespace (addresses,
    tunnels, switch ports) to the store, the device owes no restore: none is
    known in this pass, and the marker in its container was asked for and not
    found (a test that could not be run counts as not found); and either its
    container was created from its image in this very pass, or after the
    readings its namespace was vouched for: its identity is the one recorded
    when the device was last configured, or two readings of the identity that
    agree enclose a proof that the namespace holds every modelled interface,
    every platform address and every fact the store has for the device. (On a
    runtime without such proofs nothing vouches for a namespace and readings
    are stored as they are.) *)
Theorem stored_namespace_is_vouched host cfg top caps b s s' out sn x :
  cfProves cfg = true ->
  storeCaptured host cfg top caps b s = (s', Ok out) ->
  EvPut sn x ∈ since s s' -> namespaceBackedKind (snKind sn) = true ->
  exists d snaps t, (d, snaps) ∈ caps /\ sn ∈ snaps /\ unmarked d s s' /\
    consulted cfg top t s s' /\
    (edID d ∈ psCreated s \/ Vouched host top t d s s').
Proof.
  intros Hp H Hin Hk. unfold storeCaptured in H. case_bool_decide as He.
  { injection H as <- _. unfold since in Hin. rewrite drop_all in Hin. set_solver. }
  apply bind_ok_inv in H as (s1 & ps & H1 & H). apply bind_ok_inv in H as (s2 & [n more] & H2 & H).
  injection H as <- _. pose proof (mrel_run _ _ _ _ _ (grow_ensure _ _ _ _ _) H1) as G.
  pose proof (mrel_run _ _ _ _ _ (read_storeEach _ _) H2) as R.
  apply (since_split s s1 s2) in Hin as [Hin|Hin]; [| |by eapply grows_later|by eapply reads_later].
  { destruct G as [G _]. apply extends_since in G as [_ G]. rewrite Forall_forall in G.
    by apply G in Hin. }
  destruct (storeEach_puts host cfg Hp _ _ _ _ _ _ H2 Hin Hk) as (d & snaps & A & B & C & D).
  apply ensure_spec in H1 as (t & (file & Hf & Ht) & Hall); [|done..].
  exists d, snaps, t. destruct G as [G (_ & _ & Gc & Gp)]. split_and!; [done|done| | |].
  { eapply (unmarked_widen d s s1 s2 s2); [by eapply extends_mono|by eapply reads_later|reflexivity|done..]. }
  { exists file. split; [|done]. eapply (since_in s s s1 s2); [reflexivity|by eapply extends_mono
      |by eapply reads_later|done]. }
  destruct (Hall d) as [Hl|[Hu|Hv]].
  - apply list_elem_of_fmap. by exists (d, snaps).
  - exfalso. apply C. by left.
  - left. rewrite <- Gc. destruct (decide (edID d ∈ psCreated s1)) as [|Hc]; [done|].
    exfalso. apply C. right. unfold namespaceUnproven, unprovenNamespaceReason.
    rewrite (bool_decide_false (_ ∈ _)) by done. by apply bool_decide_eq_true.
  - right. eapply Vouched_widen; [reflexivity|by eapply extends_mono|by eapply reads_later|done].
Qed.
