(* ===== verification/PruneSafety.v ===== *)
(** * A prune loses nothing

    The theorem on [PruneOrphans] of [Replace]: whatever the host answers, a
    container is removed only when nothing in it can be lost. *)

From stdpp Require Import base gmap strings list fin_maps sorting.
From Stdlib Require Import ZArith Lia Ascii.
From S2P Require Import Prelude Text Model Engine Canonical Preserve Restore Replace PreserveSafety.

Local Open Scope string_scope.
Local Open Scope list_scope.
Local Open Scope Z_scope.

(** ** Frames *)

Section PruneFrames.
Variable host : Host.
Variable cfg : Config.

Lemma read_durable d k : mrel (reads quiet) (durableBody host d k).
Proof. unfold durableBody, Current, Has. pass_steps. Qed.
Lemma read_sameBodies d held kinds : mrel (reads quiet) (sameBodies host d held kinds).
Proof. induction kinds as [|k kinds IH]; simpl; pass_steps; auto using read_durable. Qed.
Lemma read_equivalent d caps : mrel (reads quiet) (equivalentToDurable host d caps).
Proof. unfold equivalentToDurable. pass_steps. apply read_sameBodies. Qed.
Lemma read_judge top ts un p : mrel (reads quiet) (judge host cfg top ts un p).
Proof.
  unfold judge. destruct p as [[c target] r]. pass_steps; try done. apply read_equivalent.
Qed.
Lemma read_judgeAll top ts un ps : mrel (reads quiet) (judgeAll host cfg top ts un ps).
Proof. induction ps as [|p ps IH]; simpl; pass_steps; auto using read_judge. Qed.
Lemma read_captureTarget top t : mrel (reads quiet) (captureTarget host top t).
Proof. unfold captureTarget. pass_steps. Qed.
Lemma read_candidates top : mrel (reads quiet) (pruneCandidates host cfg top).
Proof. unfold pruneCandidates. pass_steps. Qed.
End PruneFrames.

(** The calls of a pool were made by one of its items. *)
Lemma pool_event {X A} host (f : X -> SE Pass string A) items i s s' rs e :
  (forall x, mrel later (f x)) -> poolFrom host i items f s = (s', Ok rs) -> e ∈ since s s' ->
  exists x sa sb r, x ∈ items /\ f x sa = (sb, r) /\ e ∈ since sa sb.
Proof.
  intros Hf. revert i s rs. induction items as [|x items IH]; intros i s rs H He; simpl in H.
  { injection H as <- _. unfold since in He. rewrite drop_all in He. set_solver. }
  apply bind_ok_inv in H as (s1 & s1' & H1 & H). injection H1 as <- <-.
  apply bind_ok_inv in H as (s2 & o & H2 & H). apply bind_ok_inv in H as (s3 & more & H3 & H).
  injection H as <- <-. pose proof (mrel_run _ _ _ _ _ (pool_rel host _ f items (Datatypes.S i) Hf) H3) as L3.
  assert (later s s2 /\ (e ∈ since s s2 -> exists r, f x s = (s2, r))) as [L2 Hx].
  { destruct (hStarted host (psLog s) i).
    - apply bind_ok_inv in H2 as (s4 & r & H4 & H2). injection H2 as <- <-. unfold asValue in H4.
      destruct (f x s) as [s5 r5] eqn:Hfx. injection H4 as <- <-.
      split; [by eapply mrel_run|eauto].
    - injection H2 as <- <-. split; [reflexivity|]. intros H. unfold since in H.
      rewrite drop_all in H. set_solver. }
  apply (since_split s s2 s3) in He as [He|He]; [| |done..].
  - destruct (Hx He) as [r Hr]. exists x, s, s2, r. set_solver.
  - destruct (IH _ _ _ H3 He) as (y & sa & sb & r & A1 & A2 & A3). exists y, sa, sb, r. set_solver.
Qed.

(** ** What makes a removal safe *)

(** What is saved for a device, as a reading of the store gave it: nothing is
    the empty body. *)
Definition savedBody (device kind body : string)
    (s s' : Pass) : Prop :=
  (exists content, EvCurrent device kind (Ok content) ∈ since s s' /\
     body = canonicalState kind content) \/
  (EvCurrent device kind (Err NotExist) ∈ since s s' /\ EvHas device kind false ∈ since s s' /\
   body = "").

(** Everything a complete reading found is already saved, kind for kind. *)
Definition alreadySaved (top : ETop) (d : EDevice) (s s' : Pass) : Prop :=
  exists sa sb snaps held, later s sa /\ later sa sb /\ later sb s' /\
    completeReading top d snaps (since sa sb) /\
    heldBodies snaps ∅ = Ok held /\
    forall kind, kind ∈ AllKinds -> savedBody (edID d) kind (lookup_or "" held kind) sb s'.

(** What an earlier phase preserved, or declared removable, covers a container
    that this pass does not read. *)
Definition covered (cfg : Config) (c : Container) : Prop :=
  exists set, cfPreserved cfg = Some set /\
    (ctName c ∈ osRemovable set \/
     exists p, p ∈ osPreserved set /\ opContainer p = ctName c /\ opDevice p = candidateDeviceID c).

(** The device a leftover container was made for: the topology's device of that
    name, or what the container's labels say; a router if they do not. *)
Definition madeFor (top : ETop) (c : Container) (d : EDevice) : Prop :=
  let id := candidateDeviceID c in
  let '(kind, nos) := match deviceByID top id with
                      | Some m => (edKind m, edNOS m)
                      | None => (label c LabelKind, "")
                      end in
  edID d = id /\ edContainer d = ctName c /\
  edKind d = (if bool_decide (kind = "") then KindRouter else kind) /\ edNOS d = nos.

Definition losesNothing (cfg : Config) (top : ETop) (c : Container) (s s' : Pass) : Prop :=
  label c LabelFRRControl = "true" \/
  ((cfWritesReference cfg = true \/ unreadable cfg (ctName c) = true) /\ covered cfg c) \/
  exists d, madeFor top c d /\ namespaceUnproven s' (edID d) = false /\
    (preserved top d s s' \/ alreadySaved top d s s').

Section Prune.
Variable host : Host.
Variable cfg : Config.
Variable top : ETop.

Lemma orphanDevice_some c d r : orphanDevice cfg top c = (Some d, r) ->
  madeFor top c d.
Proof.
  unfold orphanDevice, madeFor. cbn zeta. case_bool_decide; [done|]. destruct (negb (cfStore cfg)); [done|].
  destruct (cfWritesReference cfg); [done|]. case_bool_decide; [done|]. intros [= <- _].
  destruct (deviceByID top (candidateDeviceID c)) as [m|] eqn:Hm.
  - unfold deviceByID in Hm. apply find_some in Hm as [_ Hm]. apply bool_decide_eq_true in Hm.
    simpl. by case_bool_decide.
  - simpl. by case_bool_decide.
Qed.

Lemma orphanDevice_none c : orphanDevice cfg top c = (None, None) ->
  label c LabelFRRControl = "true" \/ cfWritesReference cfg = true.
Proof.
  unfold orphanDevice. case_bool_decide; [by left|].
  destruct (cfStore cfg), (cfWritesReference cfg); simpl; try (by right); try done.
  by case_bool_decide.
Qed.

(** A candidate that is not read and not refused. *)
Lemma unread_covered c :
  (cfWritesReference cfg = true -> is_Some (cfPreserved cfg)) ->
  orphanTarget cfg top c = (None, None) -> unpreservedCandidates cfg [c] = [] ->
  label c LabelFRRControl = "true" \/
  ((cfWritesReference cfg = true \/ unreadable cfg (ctName c) = true) /\ covered cfg c).
Proof.
  intros Hhanded Ht Hu. assert (label c LabelFRRControl = "true" \/
    (cfWritesReference cfg = true \/ unreadable cfg (ctName c) = true)) as [?|Hr]; [|by left|].
  { unfold orphanTarget in Ht. destruct (unreadable cfg (ctName c)); [by right; right|].
    apply orphanDevice_none in Ht as [?|?]; auto. }
  right. split; [done|]. unfold unpreservedCandidates in Hu. unfold covered.
  destruct (cfPreserved cfg) as [set|] eqn:Hp.
  2:{ destruct Hr as [Hr|Hr]; [by destruct (Hhanded Hr)|]. unfold unreadable in Hr. by rewrite Hp in Hr. }
  exists set. split; [done|].
  simpl in Hu. unfold unpreserved in Hu.
  replace (negb (cfWritesReference cfg) && negb (unreadable cfg (ctName c))) with false in Hu
    by (destruct Hr as [-> | ->]; [done|by rewrite andb_false_r]).
  unfold removable in Hu. rewrite Hp in Hu. case_bool_decide as Hrm; [by left|]. right.
  destruct (findPreserved set (ctName c)) as [p|] eqn:Hf; [|done].
  case_bool_decide as Hd; [|done]. unfold findPreserved in Hf. apply find_some in Hf as [Hin Hn].
  apply bool_decide_eq_true in Hn. exists p. by rewrite list_elem_of_In.
Qed.

Lemma unpreserved_each candidates c : c ∈ candidates ->
  unpreservedCandidates cfg candidates = [] -> unpreservedCandidates cfg [c] = [].
Proof.
  unfold unpreservedCandidates. destruct (cfPreserved cfg) as [set|]; [|done]. simpl.
  induction candidates as [|x candidates IH]; intros Hin; [set_solver|]. simpl.
  destruct (unpreserved cfg set x) eqn:Hx; [done|].
  apply elem_of_cons in Hin as [->|Hin]; [by rewrite Hx|by apply IH].
Qed.

Lemma durable_saved device kind body s s' :
  durableBody host device kind s = (s', Ok body) -> savedBody device kind body s s'.
Proof.
  unfold durableBody. intros H. apply bind_ok_inv in H as (s1 & r & H1 & H).
  unfold Current, consult in H1. simpl in H1. injection H1 as Hs1 Hr.
  assert (since s s1 = [EvCurrent device kind r]) as E1 by (apply since_app; by subst).
  destruct r as [content|[|e]]; [| |done].
  - injection H as <- <-. left. exists content. rewrite E1. set_solver.
  - apply bind_ok_inv in H as (s2 & has & H2 & H). destruct has; [done|]. injection H as <- <-.
    right. unfold Has, consult in H2. simpl in H2. injection H2 as Hs2 Hh.
    assert (since s s2 = [EvCurrent device kind (Err NotExist); EvHas device kind false]) as ->.
    { apply since_app. subst s2. simpl. rewrite Hh. subst s1. simpl.
      by rewrite Hr, <- app_assoc. }
    set_solver.
Qed.

Lemma savedBody_widen device kind body s0 s s' s1 : later s0 s -> later s s' -> later s' s1 ->
  savedBody device kind body s s' -> savedBody device kind body s0 s1.
Proof.
  intros H0 H H1 [(content & A & B)|(A & B & C)]; [left|right].
  - exists content. split; [by eapply since_in|done].
  - split_and!; [by eapply since_in..|done].
Qed.

Lemma sameBodies_saved device held kinds s s' :
  sameBodies host device held kinds s = (s', Ok true) ->
  forall kind, kind ∈ kinds -> savedBody device kind (lookup_or "" held kind) s s'.
Proof.
  revert s. induction kinds as [|k kinds IH]; intros s H kind Hk; [set_solver|]. simpl in H.
  apply bind_ok_inv in H as (s1 & body & H1 & H). apply bind_ok_inv in H as (s2 & more & H2 & H).
  injection H as <- Hb. apply andb_prop in Hb as [Hb ->]. apply bool_decide_eq_true in Hb.
  pose proof (reads_later _ _ _ (mrel_run _ _ _ _ _ (read_durable _ _ _) H1)) as L1.
  pose proof (reads_later _ _ _ (mrel_run _ _ _ _ _ (read_sameBodies _ _ _ _) H2)) as L2.
  apply elem_of_cons in Hk as [->|Hk].
  - rewrite Hb. eapply (savedBody_widen _ _ _ s s s1 s2); [reflexivity|done..|]. by apply durable_saved.
  - eapply (savedBody_widen _ _ _ s s1 s2 s2); [done..|reflexivity|]. by apply IH.
Qed.

Lemma equivalent_saved d snaps s s' : equivalentToDurable host d snaps s = (s', Ok tt) ->
  exists held, heldBodies snaps ∅ = Ok held /\
    forall kind, kind ∈ AllKinds -> savedBody (edID d) kind (lookup_or "" held kind) s s'.
Proof.
  unfold equivalentToDurable. intros H. apply bind_ok_inv in H as (s1 & held & H1 & H).
  injection H1 as <- Hh. apply bind_ok_inv in H as (s2 & same & H2 & H).
  apply refused_inv in H as [Hs ->]. apply negb_false_iff in Hs as ->.
  exists held. split; [done|]. by apply sameBodies_saved.
Qed.

(** ** One candidate *)

Abbreviation Read := (option (result string (list Snapshot * option captureErr))) (only parsing).

Lemma judge_ok targets un c target r s s' record :
  judge host cfg top targets un ((c, target), r) s = (s', Ok (record, [])) ->
  captureFailed r = false /\
  (target = None \/ exists d, target = Some d /\ un !! edID d = None /\
     (speaksFor cfg top targets (ctName c) d = true \/
      exists held, heldBodies (capturedSnaps r) ∅ = Ok held /\
        forall kind, kind ∈ AllKinds -> savedBody (edID d) kind (lookup_or "" held kind) s s')).
Proof.
  unfold judge. simpl. intros H. destruct (captureFailed r); [done|]. split; [done|].
  destruct target as [d|]; [right; exists d|by left]. split; [done|].
  revert H. case_bool_decide as Hu; [done|]. intros H. split.
  { destruct (un !! edID d) eqn:E; [|done]. exfalso. apply Hu. eauto. }
  destruct (speaksFor cfg top targets (ctName c) d); [by left|right].
  apply bind_ok_inv in H as (s1 & v & H1 & H). unfold asValue in H1.
  destruct (equivalentToDurable _ _ _ s) as [s2 [[]|e]] eqn:He; injection H1 as <- <-; [|by injection H].
  injection H as <- _. by apply equivalent_saved.
Qed.

Lemma judgeAll_ok targets un ps s s' records :
  judgeAll host cfg top targets un ps s = (s', Ok (records, [])) ->
  Forall (fun p => exists sa sb record, later s sa /\ later sb s' /\
    judge host cfg top targets un p sa = (sb, Ok (record, []))) ps.
Proof.
  revert s records. induction ps as [|p ps IH]; intros s records H; [constructor|]. simpl in H.
  apply bind_ok_inv in H as (s1 & [record here] & H1 & H).
  apply bind_ok_inv in H as (s2 & [more l] & H2 & H). injection H as <- _ Hp.
  apply app_eq_nil in Hp as [-> ->].
  pose proof (reads_later _ _ _ (mrel_run _ _ _ _ _ (read_judge _ _ _ _ _ _) H1)) as L1.
  pose proof (reads_later _ _ _ (mrel_run _ _ _ _ _ (read_judgeAll _ _ _ _ _ _) H2)) as L2.
  constructor.
  - exists s, s1, record. split_and!; [reflexivity|done..].
  - eapply Forall_impl; [by eapply IH|]. intros q (sa & sb & rec & A & B & C).
    exists sa, sb, rec. split_and!; [by transitivity s1|done..].
Qed.

(** The reading of one candidate, when no candidate was skipped. *)
Lemma candidate_read targets s s' rs c d :
  runBounded host targets (captureTarget host top) s = (s', Ok (rs, None)) ->
  (c, Some d) ∈ targets ->
  exists sa sb snaps err, later s sa /\ later sb s' /\
    limitedCapture host top d sa = (sb, Ok (snaps, err)) /\
    ((c, Some d), Some (Ok (snaps, err))) ∈ zip targets rs.
Proof.
  intros H Hc. apply (runBounded_spec host (reads quiet)) in H as [Hspec Hall];
    [|apply read_captureTarget]. specialize (Hall eq_refl).
  apply list_elem_of_lookup in Hc as [k Hk].
  destruct (Forall2_lookup_l _ _ _ _ _ Hspec Hk) as (o & Ho & Hrun).
  destruct (Forall_lookup_1 _ _ _ _ Hall Ho) as [r ->].
  destruct Hrun as (sa & sb & Ra & Rb & Hcap). unfold captureTarget in Hcap. simpl in Hcap.
  destruct (limitedCapture_ok _ _ _ _ _ _ Hcap) as [[snaps err] ->].
  exists sa, sb, snaps, err. split_and!; [by eapply reads_later..|done|].
  apply list_elem_of_lookup. exists k. by rewrite lookup_zip_with, Hk; simpl; rewrite Ho.
Qed.

Lemma refusals_none candidates : omap (fun c => (orphanTarget cfg top c).2) candidates = [] ->
  forall c, c ∈ candidates -> (orphanTarget cfg top c).2 = None.
Proof.
  induction candidates as [|x l IH]; intros H c Hc; simpl in *; [set_solver|].
  destruct (orphanTarget cfg top x).2 eqn:Hx; [done|].
  apply elem_of_cons in Hc as [->|Hc]; [done|by apply IH].
Qed.

Lemma not_unproven s id : UnprovenNamespaceDevices s !! id = None -> namespaceUnproven s id = false.
Proof.
  unfold UnprovenNamespaceDevices, namespaceUnproven, unprovenNamespaceReason.
  rewrite lookup_map_drop_None. intros Hu. case_bool_decide; [done|].
  destruct (psUnproven s !! id) eqn:E; [|done]. naive_solver.
Qed.

(** The candidates of a preservation that refused nothing. *)
Lemma preserve_each candidates s s' records :
  preserveOrphans host cfg top candidates s = (s', Ok (records, [], None)) ->
  forall c, c ∈ candidates ->
    orphanTarget cfg top c = (None, None) \/
    exists d, (orphanTarget cfg top c).1 = Some d /\ namespaceUnproven s' (edID d) = false /\
      (preserved top d s s' \/ alreadySaved top d s s').
Proof.
  unfold preserveOrphans. intros H c Hc.
  set (targets := map (fun c => (c, (orphanTarget cfg top c).1)) candidates) in H.
  apply bind_ok_inv in H as (s1 & [rs ctx] & H1 & H).
  apply bind_ok_inv in H as (s2 & [n ps] & H2 & H). erewrite bind_ok in H by reflexivity.
  apply bind_ok_inv in H as (s4 & [recs judged] & H4 & H).
  injection H as -> _ Hp ->. apply app_eq_nil in Hp as [Hrefuse Hp].
  apply app_eq_nil in Hp as [-> ->]. apply (refusals_none _ Hrefuse) in Hc as Hnone.
  pose proof (mrel_run _ _ _ _ _ (grow_store _ _ _ _ _) H2) as G2.
  pose proof (mrel_run _ _ _ _ _ (read_judgeAll _ _ _ _ _ _) H4) as R4.
  destruct (orphanTarget cfg top c) as [[d|] refusal] eqn:Ht; simpl in Hnone; subst refusal;
    [right; exists d; split; [done|]|by left].
  assert ((c, Some d) ∈ targets) as Hct.
  { apply list_elem_of_fmap. exists c. by rewrite Ht. }
  destruct (candidate_read _ _ _ _ _ _ H1 Hct) as (sa & sb & snaps & err & La & Lb & Hcap & Hin).
  apply judgeAll_ok in H4. rewrite Forall_forall in H4.
  destruct (H4 _ Hin) as (ja & jb & rec & Ja & Jb & HJ).
  pose proof (reads_later _ _ _ (mrel_run _ _ _ _ _ (read_judge _ _ _ _ _ _) HJ)) as Lj.
  apply judge_ok in HJ as [Hok [[=]|(d' & [= <-] & Hu & HJ)]]. destruct err as [|]; [done|].
  apply limitedCapture_reads in Hcap as [Lab Hread].
  assert (later sb s2) as Lb2 by (transitivity s1; [done|by eapply grows_later]).
  assert (later sb s') as Lb' by (transitivity s2; [done|by eapply reads_later]). split.
  { apply not_unproven in Hu. unfold namespaceUnproven, unprovenNamespaceReason in *.
    destruct R4 as [_ Hm]. unfold memory in Hm. by injection Hm as _ -> -> _. }
  destruct HJ as [Hs|(held & Hh & Hall)]; [left; exists sa, sb, snaps|right; exists sa, sb, snaps, held].
  - split_and!; [done..|]. apply Forall_forall. intros sn Hsn.
    eapply (accounted_widen quiet d _ s1 s2); [done|by eapply grows_later|exact R4|].
    eapply storeCaptured_ok; [exact H2| |exact Hsn]. apply list_elem_of_omap.
    exists ((c, Some d), Some (Ok (snaps, None))). split; [done|]. unfold writable. simpl.
    destruct snaps; [set_solver|by rewrite Hs].
  - split_and!; [done..|]. intros kind Hkind.
    eapply (savedBody_widen _ _ _ _ ja jb); [by transitivity s2|exact Lj|done|by apply Hall].
Qed.

Lemma grow_preserve candidates : mrel (grows harmless) (preserveOrphans host cfg top candidates).
Proof.
  unfold preserveOrphans. pass_steps; auto using grow_store.
  - apply runBounded_rel; [apply _|]. intros t. apply reads_to_grows.
    eapply reads_mono; [apply quiet_harmless|apply read_captureTarget].
  - apply reads_to_grows. eapply reads_mono; [apply quiet_harmless|apply read_judgeAll].
Qed.
End Prune.

Lemma pool_total {X A} host (f : X -> SE Pass string A) items i s :
  exists s' rs, poolFrom host i items f s = (s', Ok rs).
Proof.
  revert i s. induction items as [|x items IH]; intros i s; simpl; [by eexists _, _|].
  unfold mbind, SE_bind. simpl. destruct (hStarted host (psLog s) i).
  - unfold asValue. destruct (f x s) as [s1 r1]. simpl.
    destruct (IH (Datatypes.S i) s1) as (s2 & rs & ->). by eexists _, _.
  - simpl. destruct (IH (Datatypes.S i) s) as (s2 & rs & ->). by eexists _, _.
Qed.

(** The removals are of candidates. *)
Lemma removals_of host candidates s s' rs ctx name x :
  runBounded host candidates (fun c => limited host (Remove host (ctName c))) s = (s', Ok (rs, ctx)) ->
  EvRemove name x ∈ since s s' -> exists c, c ∈ candidates /\ ctName c = name.
Proof.
  unfold runBounded. intros H Hx. apply bind_ok_inv in H as (s1 & rs1 & H1 & H).
  erewrite bind_ok in H by reflexivity. injection H as <- _ _.
  apply (pool_event host) with (e := EvRemove name x) in H1 as (c & sa & sb & r & Hc & Hr & He); [| |done].
  - exists c. split; [done|]. unfold limited in Hr. destruct (hLimited host _).
    + injection Hr as <- _. unfold since in He. rewrite drop_all in He. set_solver.
    + unfold Remove, call in Hr. injection Hr as <- _.
      rewrite (since_app sa _ [EvRemove (ctName c) (hRemove host (psLog sa) (ctName c))]) in He by done.
      apply list_elem_of_singleton in He. by injection He.
  - intros c. apply mrel_limited; [apply _|]. unfold Remove.
    eapply mrel_mono; [|by apply (call_reads (fun _ => True))]. apply reads_later.
Qed.

(** The whole of a prune that removed something: the candidates, a
    preservation that refused none of them, then the removals. *)
Lemma prune_phases host cfg top s s' r name x :
  PruneOrphans host cfg top s = (s', r) -> EvRemove name x ∈ since s s' ->
  exists candidates s0 s1 records, later s s0 /\ later s1 s' /\
    pruneCandidates host cfg top s = (s0, Ok candidates) /\
    preserveOrphans host cfg top candidates s0 = (s1, Ok (records, [], None)) /\
    unpreservedCandidates cfg candidates = [] /\
    exists c, c ∈ candidates /\ ctName c = name.
Proof.
  unfold PruneOrphans. unfold mbind at 1, SE_bind at 1. intros H Hx.
  assert (forall s1 s2, extends harmless s1 s2 -> EvRemove name x ∉ since s1 s2) as Hh.
  { intros s1 s2 E He. apply extends_since in E as [_ E]. rewrite Forall_forall in E. by apply E in He. }
  destruct (pruneCandidates host cfg top s) as [s0 [cs|e]] eqn:H0;
    pose proof (mrel_run _ _ _ _ _ (read_candidates _ _ _) H0) as [E0 _].
  2:{ injection H as <- _. exfalso. revert Hx. apply Hh. eapply extends_mono; [|done]. apply quiet_harmless. }
  unfold mbind at 1, SE_bind at 1 in H.
  destruct (preserveOrphans host cfg top cs s0) as [s1 [[[records ps] ctx]|e]] eqn:H1;
    pose proof (mrel_run _ _ _ _ _ (grow_preserve _ _ _ _) H1) as [E1 _];
    assert (extends harmless s s1) as E by (transitivity s0; [|done]; eapply extends_mono; [|done];
      apply quiet_harmless).
  2:{ injection H as <- _. by apply Hh in Hx. }
  destruct (deterministicError ctx (ps ++ unpreservedCandidates cfg cs)) eqn:Hd.
  { injection H as <- _. by apply Hh in Hx. }
  unfold deterministicError in Hd. destruct (ps ++ _) eqn:Hps; [|done]. subst ctx.
  apply app_eq_nil in Hps as [-> Hun]. exists cs, s0, s1, records.
  unfold mbind, SE_bind in H.
  destruct (runBounded host cs _ s1) as [s2 [[rs ctx]|e]] eqn:H2.
  2:{ exfalso. unfold runBounded, mbind, SE_bind in H2.
      destruct (pool_total host (fun c => limited host (Remove host (ctName c))) cs 0 s1)
        as (s3 & rs & Hp). by rewrite Hp in H2. }
  assert (s' = s2) as -> by (destruct (deterministicError _ _); by injection H).
  assert (later s1 s2) as L2.
  { eapply mrel_run; [|exact H2]. apply runBounded_rel; [apply _|]. intros c.
    apply mrel_limited; [apply _|]. eapply mrel_mono; [|by apply (call_reads (fun _ => True))].
    apply reads_later. }
  split_and!; [by eapply extends_mono|done|done|done|done|].
  apply (since_split s s1 s2) in Hx as [Hx|Hx]; [by apply Hh in Hx| |by eapply extends_mono|done].
  by eapply removals_of.
Qed.

(** C10. A prune loses nothing. Whatever the runtime and the store answer, a
    container that [PruneOrphans] removes is one of the lab's containers that
    the topology does not want here, and before any removal it was
    established that nothing in it is lost: it is a control sidecar; or this
    pass must not read it, because the reference solution is or was written
    there, and what an earlier phase preserved, or declared removable, covers
    it; or it was read completely, as the device of the kind that the topology
    or its label names (every command that reads what such a device holds ran
    in it and succeeded), its namespace is not in doubt, and everything read
    was stored (or is known not to be the student's work), or is, kind for
    kind, what the store already holds for the device. It is assumed that a
    pass that writes the reference solution is handed the record of such an
    earlier phase; its callers leave that out only for a lab that already held
    the reference solution, and then nothing is checked. *)
Theorem prune_loses_nothing host cfg top s s' r name x :
  (cfWritesReference cfg = true -> is_Some (cfPreserved cfg)) ->
  PruneOrphans host cfg top s = (s', r) -> EvRemove name x ∈ since s s' ->
  exists c s1, ctName c = name /\ isCandidate cfg top c = true /\
    later s s1 /\ later s1 s' /\ EvRemove name x ∉ since s s1 /\
    losesNothing cfg top c s s1.
Proof.
  intros Hhanded H Hx. destruct (prune_phases _ _ _ _ _ _ _ _ H Hx)
    as (cs & s0 & s1 & records & L0 & L1 & H0 & H1 & Hun & c & Hc & Hn).
  pose proof (mrel_run _ _ _ _ _ (grow_preserve _ _ _ _) H1) as [E1 _].
  pose proof (mrel_run _ _ _ _ _ (read_candidates _ _ _) H0) as [E0 _].
  exists c, s1. split_and!; [done| |by transitivity s0; [|by eapply extends_mono]|done| |].
  - unfold pruneCandidates in H0. apply bind_ok_inv in H0 as (sa & l & _ & H0). injection H0 as _ <-.
    rewrite (merge_sort_Permutation containerLe), list_elem_of_In, filter_In in Hc. apply Hc.
  - assert (extends harmless s s1) as E.
    { transitivity s0; [|done]. eapply extends_mono; [|done]. apply quiet_harmless. }
    intros Hin. apply extends_since in E as [_ E]. rewrite Forall_forall in E. by apply E in Hin.
  - destruct (preserve_each _ _ _ _ _ _ _ H1 c Hc) as [Ht|(d & Ht & Hu & Hp)].
    + destruct (unread_covered cfg top c Hhanded Ht) as [?|?]; [by eapply unpreserved_each|by left|by right; left].
    + right; right. exists d. split_and!; [|done|].
      { unfold orphanTarget in Ht. destruct (unreadable cfg (ctName c)); [done|].
        destruct (orphanDevice cfg top c) as [o ref] eqn:Ho. simpl in Ht. subst o.
        by eapply orphanDevice_some. }
      destruct Hp as [(sa & sb & sn & A & B)|(sa & sb & sn & h & A & B)]; [left|right].
      * exists sa, sb, sn. split; [by transitivity s0|done].
      * exists sa, sb, sn, h. split; [by transitivity s0|done].
Qed.

(** ** A node with one student host and one leftover container *)

Definition pDevice : EDevice := mkEDevice "as1/h" KindHost 1 "n1" "c1" "img" "" [].
Definition pTop : ETop := mkETop "lab" "hash" [pDevice] [] {[1 := RoleStudent]}.
Definition pOrphan : Container :=
  mkContainer "old" StateRunning {[LabelDeviceID := "as9/h"; LabelKind := KindHost; LabelNode := "n1"]}.
Definition pExec (c : Cmd) : ExecResult :=
  match c with
  | CmdAddrs => mkExecResult 0 "2: eth0    inet 10.0.0.1/24 scope global eth0" ""
  | CmdTestMark => mkExecResult 1 "" ""
  | _ => mkExecResult 0 "" ""
  end.
Definition pHost : Host := mkHost
  (fun _ name => Ok (mkContainer name StateRunning {[LabelSpec := "spec1"]}))
  (fun _ _ c => Ok (pExec c)) (fun _ _ => Ok tt) (fun _ _ => Ok tt) (fun _ _ => Ok tt)
  (fun _ _ => Ok tt) (fun _ _ => Ok (mkNetns 4 7)) (fun _ => Ok [pOrphan]) (fun _ _ => Ok [])
  (fun _ => FileMissing) (fun _ => None) (fun _ _ _ => Err NotExist) (fun _ _ _ => false)
  (fun _ _ => Ok true) (fun _ _ _ => Ok tt) (fun _ _ _ => Ok tt) (fun _ => false) (fun _ _ => true)
  (fun _ => None) (fun _ => None).
Definition pConfig : Config := mkConfig "n1" true true true false false false true None.
Definition pPass : Pass := mkPass ∅ ∅ ∅ ∅ [].
Definition pSnapshot : Snapshot :=
  mkSnapshot "lab" 1 "as1/h" KindAddrs "hash" ("addr inet eth0 10.0.0.1/24" +:+ String newline "").

Definition pReplace : SE Pass string unit :=
  ensureContainer pHost pConfig pTop pDevice (mkFinalSpec "spec2" None).

Lemma replacement_preserves_work_witness :
  exists s1, later pPass s1 /\ later s1 (final pReplace pPass) /\
    EvRemove "c1" (Ok tt) ∉ since pPass s1 /\ namespaceUnproven s1 "as1/h" = false /\
    preserved pTop pDevice pPass s1.
Proof.
  apply (replacement_preserves_work pHost pConfig pTop pDevice (mkFinalSpec "spec2" None)
    pPass (final pReplace pPass) (Ok tt) (Ok tt) eq_refl eq_refl).
  - apply run_eq. vm_compute. reflexivity.
  - apply list_elem_of_In. vm_compute. tauto.
Defined.

Definition pStore : SE Pass string (Z * list string) :=
  storeCaptured pHost pConfig pTop [(pDevice, [pSnapshot])] false.

Lemma stored_namespace_is_vouched_witness :
  exists d snaps t, (d, snaps) ∈ [(pDevice, [pSnapshot])] /\ pSnapshot ∈ snaps /\
    unmarked d pPass (final pStore pPass) /\ consulted pConfig pTop t pPass (final pStore pPass) /\
    (edID d ∈ psCreated pPass \/ Vouched pHost pTop t d pPass (final pStore pPass)).
Proof.
  apply (stored_namespace_is_vouched pHost pConfig pTop [(pDevice, [pSnapshot])] false
    pPass (final pStore pPass) (1, []) pSnapshot (Ok true) eq_refl).
  - apply run_eq. vm_compute. reflexivity.
  - apply list_elem_of_In. vm_compute. tauto.
  - reflexivity.
Defined.

Definition pPrune : SE Pass string (list string) := PruneOrphans pHost pConfig pTop.

Lemma prune_loses_nothing_witness :
  exists c s1, ctName c = "old" /\ isCandidate pConfig pTop c = true /\
    later pPass s1 /\ later s1 (final pPrune pPass) /\ EvRemove "old" (Ok tt) ∉ since pPass s1 /\
    losesNothing pConfig pTop c pPass s1.
Proof.
  apply (prune_loses_nothing pHost pConfig pTop pPass (final pPrune pPass) (Ok ["old"])).
  - discriminate.
  - apply run_eq. vm_compute. reflexivity.
  - apply list_elem_of_In. vm_compute. tauto.
Defined.
