(* ===== verification/Observe.v ===== *)
(** * The deployment engine: what is dirty, and the plan

    Models [observeNode] and its parts ([deploy/observe.go]): the comparison
    of the desired state of a node with its containers, the observation
    record, namespaces and overlays; and [BuildContext] of [deploy/engine.go],
    the plan that makes good the difference. What the renderer, the runtime
    specification and the wire hash of an object come to are arguments, and so
    is what the node shows at the moment it is looked at ([View]). *)

From stdpp Require Import base gmap strings list fin_maps sorting.
From Stdlib Require Import ZArith Lia.
From S2P Require Import Prelude Text Model Coordination Plan Engine Preserve Restore Replace.

Local Open Scope string_scope.
Local Open Scope list_scope.
Local Open Scope Z_scope.

(** ** Inputs *)

(** The hashes of a rendered configuration. *)
Record Rendered := mkRendered {
  rdConfig : string; rdFile : string; rdCommand : string; rdReady : string
}.
(** [Renderer]: what it renders, and whether it gives a readiness check. *)
Record Renderer := mkRenderer {
  rnRender : EDevice -> result string Rendered; rnReady : EDevice -> bool
}.

(** The fields of [Engine] that observation reads. *)
Record Build := mkBuild {
  bdNode : string; bdModeKey : string; bdRecovery : bool; bdReadOnly : bool; bdRuntime : bool;
  bdProves : bool; bdRenderer : option Renderer;
  bdSpecs : EDevice -> result string finalDeviceSpec;
  bdProbes : bool;
  bdWireHash : ELink -> result string string
}.

Inductive identityErr := Unsupported | IdentityUnknown (e : string).

(** What a node shows: the record's file, its containers, the overlays that
    are expected and there, the namespace of a container, what the semantic
    probe and the continuity proof of a device answer, and the errors of the
    three pools' contexts and of writing the record. *)
Record View := mkView {
  vwFile : ObservationFile;
  vwContainers : result string (list Container);
  vwExpected : result string (list LogicalBinding * list PhysicalTrunk);
  vwActual : result string (list LogicalBinding * list PhysicalTrunk);
  vwIdentity : Container -> result identityErr NetnsIdentity;
  vwProbe : EDevice -> option string;
  vwBaseline : EDevice -> result string NetnsIdentity;
  vwCancelled : nat -> option string;
  vwWrite : option string
}.

(** [desiredDeviceState]. *)
Record desiredDeviceState := mkDesired { dsRendered : Rendered; dsSpecs : finalDeviceSpec }.

(** [BuildDiff]. *)
Record BuildDiff := mkDiff {
  dfCreate : gset string; dfRecreate : gset string; dfWire : gset string;
  dfConfigure : gset string; dfReady : gset string; dfSemantic : gset string;
  dfCapture : gset string
}.
Definition emptyDiff : BuildDiff := mkDiff ∅ ∅ ∅ ∅ ∅ ∅ ∅.
Definition diffEmpty (d : BuildDiff) : bool :=
  bool_decide (dfCreate d = ∅) && bool_decide (dfWire d = ∅) && bool_decide (dfConfigure d = ∅)
  && bool_decide (dfReady d = ∅) && bool_decide (dfSemantic d = ∅).

(** [DirtyCaptureDevices] and [DirtySemanticDevices]. *)
Definition DirtyCaptureDevices (d : BuildDiff) : list string := sortStrings (elements (dfCapture d)).
Definition DirtySemanticDevices (d : BuildDiff) : list string :=
  sortStrings (elements (dfSemantic d)).

(** ** Overlays *)

Definition sameLogicalBinding (a b : LogicalBinding) : bool :=
  (lbVNI a =? lbVNI b) && (lbVLAN a =? lbVLAN b) && bool_decide (lbPeer a = lbPeer b)
  && (lbMTU a =? lbMTU b) && (lbPort a =? lbPort b) && bool_decide (lbNodeA a = lbNodeA b)
  && bool_decide (lbNodeB a = lbNodeB b).
Definition samePhysicalTrunk (a b : PhysicalTrunk) : bool :=
  bool_decide (ptBridge a = ptBridge b) && bool_decide (ptVxlan a = ptVxlan b)
  && (ptMTU a =? ptMTU b) && (ptPort a =? ptPort b) && bool_decide (ptNodeA a = ptNodeA b)
  && bool_decide (ptNodeB a = ptNodeB b).
Definition trunkPairKey (a b : string) : string :=
  if String.ltb b a then b +:+ nul +:+ a else a +:+ nul +:+ b.
Definition trunkKey (t : PhysicalTrunk) : string := trunkPairKey (ptNodeA t) (ptNodeB t).

(** The last of the bindings with an identifier wins, as in a Go map. *)
Definition bindingsByVNI (bs : list LogicalBinding) : gmap Z LogicalBinding :=
  fold_left (fun m b => <[lbVNI b := b]> m) bs ∅.
Definition trunksByKey (ts : list PhysicalTrunk) : gmap string PhysicalTrunk :=
  fold_left (fun m t => <[trunkKey t := t]> m) ts ∅.

(** An expected object is matched by exactly one that is there. *)
Definition bindingMatched (actual : list LogicalBinding) (want : LogicalBinding) : bool :=
  match List.filter (fun b => lbVNI b =? lbVNI want) actual with
  | [got] => sameLogicalBinding want got
  | _ => false
  end.
Definition trunkMatched (actual : list PhysicalTrunk) (want : PhysicalTrunk) : bool :=
  match List.filter (fun t => bool_decide (trunkKey t = trunkKey want)) actual with
  | [got] => samePhysicalTrunk want got
  | _ => false
  end.

Definition dirtyOverlayBindings (expected actual : list LogicalBinding * list PhysicalTrunk)
    : gset Z :=
  let want := bindingsByVNI expected.1 in
  let trunks := trunksByKey expected.2 in
  let live := List.filter (fun t => negb (ptLegacy t)) actual.2 in
  let strange := existsb (fun b => bool_decide (want !! lbVNI b = None)) actual.1
                 || existsb (fun t => bool_decide (trunks !! trunkKey t = None)) live in
  if strange then dom want
  else dom (filter (fun kb =>
         bindingMatched actual.1 kb.2 = false \/
         Exists (fun kt => ptNodeA kt.2 = lbNodeA kb.2 /\ ptNodeB kt.2 = lbNodeB kb.2 /\
                           trunkMatched live kt.2 = false) (map_to_list trunks)) want).

(** ** One device *)

(** [deviceObservation], with what the semantic probe found added. *)
Record deviceObservation := mkObservation {
  doState : desiredDeviceState; doCreate : bool; doRecreate : bool; doConfigure : bool;
  doReady : bool; doCapture : bool; doSemantic : bool; doDrift : bool
}.

Section Observe.
Variable e : Build.
Variable top : ETop.
Variable view : View.

Definition noRendering : Rendered := mkRendered "" "" "" "".
(** [renderDesired] with [finalRuntimeSpecs]. *)
Definition desiredState (d : EDevice) : result string desiredDeviceState :=
  match match bdRenderer e with None => Ok noRendering | Some r => rnRender r d end with
  | Err x => Err x
  | Ok rendered =>
      match bdSpecs e d with
      | Err x => Err x
      | Ok specs => Ok (mkDesired rendered specs)
      end
  end.
Definition hasReady (d : EDevice) : bool :=
  match bdRenderer e with Some r => rnReady r d | None => false end.
Definition renders : bool := match bdRenderer e with Some _ => true | None => false end.

Definition observedFull (st : desiredDeviceState) : observedDeviceState :=
  let r := dsRendered st in
  mkObserved (fsSpec (dsSpecs st)) (rdConfig r) (rdFile r) (rdCommand r) (rdReady r).

Abbreviation ByName := (gmap string Container) (only parsing).
Definition byNameOf (containers : list Container) : ByName :=
  fold_left (fun m c => <[ctName c := c]> m) containers ∅.
Definition containerOf (byName : ByName) (name : string) : Container :=
  lookup_or noContainer byName name.

(** The container is not the one the device wants. *)
Definition primaryRecreate (byName : ByName) (d : EDevice) (st : desiredDeviceState) : bool :=
  let c := containerOf byName (edContainer d) in
  bool_decide (byName !! edContainer d = None) || bool_decide (ctState c = StateAbsent)
  || negb (bool_decide (label c LabelSpec = fsSpec (dsSpecs st)))
  || negb (bool_decide (label c LabelRuntimeContract = runtimeSpecContractVersion))
  || (bdRecovery e && bool_decide (edKind d = KindService)).
Definition controlDirty (byName : ByName) (d : EDevice) (st : desiredDeviceState) : bool :=
  match fsControl (dsSpecs st) with
  | None => false
  | Some want =>
      let c := containerOf byName (FRRControlContainer d) in
      bool_decide (byName !! FRRControlContainer d = None) || negb (Joinable (ctState c))
      || negb (bool_decide (label c LabelSpec = want))
      || negb (bool_decide (label c LabelRuntimeContract = runtimeSpecContractVersion))
  end.
Definition specDirty (byName : ByName) (d : EDevice) (st : desiredDeviceState) : bool :=
  primaryRecreate byName d st
  || negb (Joinable (ctState (containerOf byName (edContainer d))))
  || controlDirty byName d st.

Definition hashesDiffer (p : observedDeviceState) (r : Rendered) : bool :=
  negb (bool_decide (obConfig p = rdConfig r)) || negb (bool_decide (obFile p = rdFile r))
  || negb (bool_decide (obCommand p = rdCommand r)).

Definition observeDevice (byName : ByName) (modeDirty : bool) (d : EDevice)
    (tracker : observationTracker) : result string (deviceObservation * observationTracker) :=
  match desiredState d with
  | Err x => Err x
  | Ok st =>
      let dirty := specDirty byName d st in
      let student := studentOwned top d in
      let c := containerOf byName (edContainer d) in
      let tracker :=
        if negb dirty && bool_decide (label c LabelHash = etHash top) && (0 <? edASN d)
           && negb modeDirty
        then bootstrapDevice (edID d) (observedFull st) tracker else tracker in
      let previous := trackedDevice tracker (edID d) in
      let configure := renders &&
        (modeDirty || dirty || match previous with
                               | None => true
                               | Some p => hashesDiffer p (dsRendered st)
                               end) in
      let ready := hasReady d &&
        (modeDirty || dirty || configure
         || match previous with
            | None => true
            | Some p => negb (bool_decide (obReady p = rdReady (dsRendered st)))
            end) in
      Ok (mkObservation st dirty (dirty && primaryRecreate byName d st) configure ready
            (student && (dirty || configure)) (bdProbes e && negb dirty) false, tracker)
  end.

Fixpoint observeDevices (byName : ByName) (modeDirty : bool) (ds : list EDevice)
    (tracker : observationTracker)
    : result string (list (EDevice * deviceObservation) * observationTracker) :=
  match ds with
  | [] => Ok ([], tracker)
  | d :: rest =>
      match observeDevice byName modeDirty d tracker with
      | Err x => Err x
      | Ok (o, tracker) =>
          match observeDevices byName modeDirty rest tracker with
          | Err x => Err x
          | Ok (os, tracker) => Ok ((d, o) :: os, tracker)
          end
      end
  end.

(** ** Namespaces *)

(** [ObservedNetnsIdentityOf]. *)
Definition observedIdentity (c : Container) : result identityErr NetnsIdentity :=
  if bdProves e then vwIdentity view c else Err Unsupported.

(** [observedControlNamespaceSplits]. *)
Definition controlSplit (byName : ByName) (p : EDevice * deviceObservation) : result string bool :=
  let '(d, o) := p in
  if negb (bdRuntime e) || doCreate o then Ok false
  else match fsControl (dsSpecs (doState o)), byName !! edContainer d,
             byName !! FRRControlContainer d with
       | Some _, Some primary, Some control =>
           match observedIdentity primary with
           | Err Unsupported => Err "cannot prove network namespace identity"
           | Err _ => Ok true
           | Ok a => match observedIdentity control with
                     | Err _ => Ok true
                     | Ok b => Ok (negb (SameAs a b))
                     end
           end
       | _, _, _ => Ok false
       end.
Fixpoint controlSplits (byName : ByName) (os : list (EDevice * deviceObservation))
    : result string (gset string) :=
  match os with
  | [] => Ok ∅
  | p :: rest =>
      match controlSplit byName p, controlSplits byName rest with
      | Err x, _ => Err x
      | _, Err x => Err x
      | Ok split, Ok more => Ok (if split then {[edID p.1]} ∪ more else more)
      end
  end.

(** [observedNamespaceReplacements]. *)
Definition namespaceReplaced (byName : ByName) (tracker : observationTracker) (d : EDevice) : bool :=
  if negb (bdRuntime e) || negb (bdProves e) then false
  else match trackedNamespace tracker (edID d), byName !! edContainer d with
       | Some recorded, Some c =>
           Known recorded && Joinable (ctState c)
           && match observedIdentity c with Ok now => negb (SameAs now recorded) | Err _ => true end
       | _, _ => false
       end.

(** [expandLostStateToPeers]: one hop along links inside the node. *)
Definition lostPeers (devices : list EDevice) (lost : gset string) : list string :=
  d ← List.filter (fun d => bool_decide (edID d ∈ lost)) devices;
  i ← edIfaces d;
  match eiLink i with
  | None => []
  | Some l => if crossing l then []
              else let other := otherEnd l d i in
                   if bool_decide (enNode other = bdNode e) then [enDevice other] else []
  end.
Definition expandLostStateToPeers (devices : list EDevice) (lost : gset string) : gset string :=
  lost ∪ list_to_set (lostPeers devices lost).

(** A device found in a new namespace, or dragged in by a neighbour's. *)
Definition adjust (replaced lost : gset string) (p : EDevice * deviceObservation)
    : EDevice * deviceObservation :=
  let '(d, o) := p in
  let create := doCreate o || bool_decide (edID d ∈ replaced) in
  if bool_decide (edID d ∈ lost) then
    (d, mkObservation (doState o) create (doRecreate o) true (doReady o || hasReady d)
          (doCapture o || studentOwned top d) false (doDrift o))
  else (d, mkObservation (doState o) create (doRecreate o) (doConfigure o) (doReady o)
             (doCapture o) (doSemantic o) (doDrift o)).

(** A device whose semantic probe fails. *)
Definition probed (p : EDevice * deviceObservation) : EDevice * deviceObservation :=
  let '(d, o) := p in
  if doSemantic o && bool_decide (is_Some (vwProbe view d)) then
    (d, mkObservation (doState o) (doCreate o) (doRecreate o) true (doReady o || hasReady d)
          (doCapture o || studentOwned top d) true true)
  else p.

(** [settleNamespaceBaselines]: the record and the devices in doubt. *)
Inductive Baseline := Skip | Doubt (reason : string) | Candidate (baseline : bool).
Definition baselineOf (byName : ByName) (lost : gset string) (tracker : observationTracker)
    (p : EDevice * deviceObservation) : Baseline :=
  let '(d, o) := p in
  let clean := negb (doCreate o) && negb (doRecreate o) && negb (doConfigure o)
               && negb (doReady o) in
  if Known (lookup_or unknownNetns (noNamespaces (tkState tracker)) (edID d)) then Skip
  else if bool_decide (edID d ∈ lost) then Skip
  else if negb clean && negb (doCapture o) then Skip
  else if doDrift o then Doubt "its modelled network state is missing"
  else if negb (Joinable (ctState (containerOf byName (edContainer d))))
  then Doubt "its container is not running, so its network namespace cannot be read"
  else Candidate clean.
Definition settleOne (byName : ByName) (lost : gset string)
    (acc : observationTracker * gmap string string) (p : EDevice * deviceObservation)
    : observationTracker * gmap string string :=
  let '(tracker, doubts) := acc in
  match baselineOf byName lost tracker p with
  | Skip => acc
  | Doubt reason => (tracker, <[edID p.1 := reason]> doubts)
  | Candidate clean =>
      match vwCancelled view 2 with
      | Some _ => acc
      | None =>
          match vwBaseline view p.1 with
          | Err reason => (tracker, <[edID p.1 := reason]> doubts)
          | Ok identity =>
              if negb (Known identity) then (tracker, <[edID p.1 := ""]> doubts)
              else (if clean then bootstrapNamespace (edID p.1) identity tracker else tracker, doubts)
          end
      end
  end.
Definition settleNamespaceBaselines (byName : ByName) (lost : gset string)
    (os : list (EDevice * deviceObservation)) (tracker : observationTracker)
    : observationTracker * gmap string string :=
  if negb (bdRuntime e) || negb (bdProves e) || bdReadOnly e then (tracker, ∅)
  else fold_left (settleOne byName lost) os (tracker, ∅).

(** ** Links *)

Definition endHolds (byName : ByName) (x : End) : bool :=
  negb (bool_decide (enNode x = bdNode e))
  || (bool_decide (is_Some (byName !! enContainer x))
      && bool_decide (label (containerOf byName (enContainer x)) LabelHash = etHash top)
      && Joinable (ctState (containerOf byName (enContainer x)))).
(** [linkLabelHashMatches]. *)
Definition linkLabelHashMatches (byName : ByName) (l : ELink) : bool :=
  endHolds byName (lkA l) && endHolds byName (lkB l).

Definition endCreated (create : gset string) (x : End) : bool :=
  bool_decide (enNode x = bdNode e) && bool_decide (enDevice x ∈ create).
Definition endpointCreate (create : gset string) (l : ELink) : bool :=
  endCreated create (lkA l) || endCreated create (lkB l).

(** One link: whether it is wired again, and the record. *)
Definition observeLink (byName : ByName) (modeDirty : bool) (create : gset string)
    (overlayDirty : gset Z) (l : ELink) (hash : string) (tracker : observationTracker)
    : bool * observationTracker :=
  let created := endpointCreate create l in
  let tracker := if negb created && linkLabelHashMatches byName l
                 then bootstrapLink (lkID l) hash tracker else tracker in
  (modeDirty || created
   || match trackedLink tracker (lkID l) with
      | None => true
      | Some h => negb (bool_decide (h = hash))
      end
   || (crossing l && bool_decide (lkVNI l ∈ overlayDirty)), tracker).
Fixpoint observeLinks (byName : ByName) (modeDirty : bool) (create : gset string)
    (overlayDirty : gset Z) (ls : list (ELink * string)) (tracker : observationTracker)
    : gset string * observationTracker :=
  match ls with
  | [] => (∅, tracker)
  | (l, hash) :: rest =>
      let '(dirty, tracker) := observeLink byName modeDirty create overlayDirty l hash tracker in
      let '(more, tracker) := observeLinks byName modeDirty create overlayDirty rest tracker in
      (if dirty then {[lkID l]} ∪ more else more, tracker)
  end.
Fixpoint hashLinks (ls : list ELink) : result string (list (ELink * string)) :=
  match ls with
  | [] => Ok []
  | l :: rest =>
      match bdWireHash e l, hashLinks rest with
      | Err x, _ => Err x
      | _, Err x => Err x
      | Ok h, Ok more => Ok ((l, h) :: more)
      end
  end.

(** ** The node *)

Definition idsWhere (f : deviceObservation -> bool) (os : list (EDevice * deviceObservation))
    : gset string := list_to_set (map (fun p => edID p.1) (List.filter (fun p => f p.2) os)).

(** What an observation leaves: the record, the desired states, the diff, the
    devices whose namespace was lost or is in doubt, and the file. *)
Record Observed := mkObservedNode {
  ovTracker : observationTracker; ovDevices : list (EDevice * deviceObservation);
  ovDiff : BuildDiff; ovLost : gset string; ovDoubts : gmap string string;
  ovFile : ObservationFile
}.

Definition nodeLinks : list ELink := List.filter (fun l => touching l (bdNode e)) (etLinks top).

Definition overlaysDirty : result string (gset Z) :=
  if existsb (fun l => crossing l && touching l (bdNode e)) (etLinks top) then
    match vwExpected view, vwActual view with
    | Err x, _ => Err x
    | _, Err x => Err x
    | Ok expected, Ok actual => Ok (dirtyOverlayBindings expected actual)
    end
  else Ok ∅.

Definition modeDirtyOf (tracker : observationTracker) : bool :=
  negb (bool_decide (bdModeKey e = ""))
  && negb (bool_decide (noMode (tkState tracker) = bdModeKey e)).

(** Whatever error comes first. *)
Definition check (x : option string) {A} (k : result string A) : result string A :=
  match x with Some err => Err err | None => k end.
Definition andThen {A B} (r : result string A) (k : A -> result string B) : result string B :=
  match r with Ok a => k a | Err x => Err x end.

Definition containersOf : result string (list Container) :=
  if bdRuntime e then vwContainers view else Ok [].

(** Devices found in a namespace other than the one they were configured in. *)
Definition replacedDevices (byName : ByName) (tracker : observationTracker)
    (devices : list EDevice) (splits : gset string) : gset string :=
  splits ∪ list_to_set (map edID (List.filter (namespaceReplaced byName tracker) devices)).

Definition observeNode (devices : list EDevice) : result string Observed :=
  andThen (loadObservation (vwFile view) (etName top) (bdNode e)) (fun tracker =>
  andThen containersOf (fun containers =>
  let byName := byNameOf containers in
  andThen overlaysDirty (fun overlayDirty =>
  let modeDirty := modeDirtyOf tracker in
  check (vwCancelled view 0) (
  andThen (observeDevices byName modeDirty devices tracker) (fun '(os, tracker) =>
  andThen (controlSplits byName os) (fun splits =>
  let replaced := replacedDevices byName tracker devices splits in
  let lost := expandLostStateToPeers devices replaced in
  let os := map (adjust replaced lost) os in
  check (if existsb (fun p => doSemantic p.2) os then vwCancelled view 1 else None) (
  let os := map probed os in
  let '(tracker, doubts) := settleNamespaceBaselines byName lost os tracker in
  check (vwCancelled view 3) (
  andThen (hashLinks nodeLinks) (fun hashes =>
  let '(wire, tracker) :=
    observeLinks byName modeDirty (idsWhere doCreate os) overlayDirty hashes tracker in
  let tracker := pruneRecord (list_to_set (map edID devices)) (list_to_set (map lkID nodeLinks)) tracker in
  let '(file, tracker, err) :=
    if bdReadOnly e then (vwFile view, tracker, None)
    else saveLocked (vwWrite view) (vwFile view) tracker in
  check err (
  Ok (mkObservedNode tracker os
        (mkDiff (idsWhere doCreate os) (idsWhere doRecreate os) wire (idsWhere doConfigure os)
           (idsWhere doReady os) (idsWhere doDrift os) (idsWhere doCapture os))
        lost doubts file))))))))))).

(** ** The plan *)

Definition scopeOf (asn : Z) : string := if 0 <? asn then "as" +:+ itoa asn else "services".
Definition linkScope (l : ELink) : string :=
  if lkInterAS l then "peering" else scopeOf (enASN (lkA l)).

Definition imagesOf (diff : BuildDiff) (devices : list EDevice) : list string :=
  sortStrings (Prelude.dedup (map edImage
    (List.filter (fun d => bool_decide (edID d ∈ dfCreate diff)) devices))).
(** What a step of the plan does. *)
Inductive Work :=
| WPull (image : string)
| WVerify (image : string)
| WCreate (d : EDevice)
| WWire (l : ELink)
| WConfigure (d : EDevice)
| WReady (d : EDevice)
| WMode (needs : list string).

Definition wireNeeds (diff : BuildDiff) (l : ELink) : list string :=
  omap (fun x => if endCreated (dfCreate diff) x then Some ("create:" +:+ enDevice x) else None)
    [lkA l; lkB l].
Definition configureNeeds (diff : BuildDiff) (d : EDevice) : list string :=
  Prelude.dedup ((if bool_decide (edID d ∈ dfCreate diff) then ["create:" +:+ edID d] else []) ++
    omap (fun i => match eiLink i with
                   | Some l => if bool_decide (lkID l ∈ dfWire diff)
                               then Some ("wire:" +:+ lkID l) else None
                   | None => None
                   end) (edIfaces d)).
Definition readyNeeds (diff : BuildDiff) (d : EDevice) : list string :=
  if bool_decide (edID d ∈ dfConfigure diff) then ["configure:" +:+ edID d] else [].

Definition stepOf (diff : BuildDiff) (w : Work) : Step :=
  match w with
  | WPull image => mkStep ("image:" +:+ image) StageImage "" ("pull " +:+ image) [] false
  | WVerify image =>
      mkStep ("verify-image:" +:+ image) StageImage "" ("verify " +:+ image)
        ["image:" +:+ image] false
  | WCreate d =>
      mkStep ("create:" +:+ edID d) StageCreate (scopeOf (edASN d)) ("create " +:+ edID d)
        ["verify-image:" +:+ edImage d] false
  | WWire l =>
      mkStep ("wire:" +:+ lkID l) StageWire (linkScope l) ("wire " +:+ lkID l)
        (wireNeeds diff l) false
  | WConfigure d =>
      mkStep ("configure:" +:+ edID d) StageConfigure (scopeOf (edASN d))
        ("configure " +:+ edID d) (configureNeeds diff d) false
  | WReady d =>
      mkStep ("ready:" +:+ edID d) StageReady (scopeOf (edASN d)) ("wait for " +:+ edID d)
        (readyNeeds diff d) false
  | WMode needs => mkStep "record-mode" StageReady "mode" "record renderer mode" needs false
  end.
Definition workID (diff : BuildDiff) (w : Work) : string := sID (stepOf diff w).

Definition workList (diff : BuildDiff) (devices : list EDevice) : list Work :=
  (imagesOf diff devices ≫= fun image => [WPull image; WVerify image])
  ++ map WCreate (List.filter (fun d => bool_decide (edID d ∈ dfCreate diff)) devices)
  ++ map WWire (List.filter (fun l => bool_decide (lkID l ∈ dfWire diff)) nodeLinks)
  ++ map WConfigure (List.filter (fun d => bool_decide (edID d ∈ dfConfigure diff)) devices)
  ++ map WReady
       (List.filter (fun d => bool_decide (edID d ∈ dfReady diff) && hasReady d) devices).
Definition allWork (diff : BuildDiff) (devices : list EDevice) (modeDirty : bool) : list Work :=
  let work := workList diff devices in
  work ++ (if modeDirty then [WMode (map (workID diff) work)] else []).

Definition addAll (l : list Step) : option Plan :=
  fold_left (fun p s => p ≫= Add s) l (Some New).

(** How a build fails. *)
Inductive buildErr :=
| BuildObserve (e : string)
| BuildNoImage (device : string)
| BuildInvalid (e : planErr)
| BuildPanic.

(** [BuildContext]. *)
Definition BuildContext : result buildErr (Plan * option Observed) :=
  match devicesOn top (bdNode e) with
  | [] => Ok (New, None)
  | devices =>
      match observeNode devices with
      | Err x => Err (BuildObserve x)
      | Ok ob =>
          let diff := ovDiff ob in
          match List.find (fun d => bool_decide (edID d ∈ dfCreate diff) && bool_decide (edImage d = ""))
                  devices with
          | Some d => Err (BuildNoImage (edID d))
          | None =>
              match addAll (map (stepOf diff)
                       (allWork diff devices (modeDirtyOf (ovTracker ob)))) with
              | None => Err BuildPanic
              | Some p => match Validate p with
                          | Err x => Err (BuildInvalid x)
                          | Ok _ => Ok (p, Some ob)
                          end
              end
          end
      end
  end.

(** ** What the steps record *)

Definition namespaceProofAttempts : nat := 5.

(** [recordDeviceNamespace]: up to the number of attempts the container's
    namespace is asked for, and the wait between two attempts may find the
    context done. *)
Fixpoint proveNamespace (answer : nat -> result string NetnsIdentity)
    (done : nat -> option string) (k attempts : nat) (last : string)
    : result string NetnsIdentity :=
  match attempts with
  | O => Err ("record the network namespace: " +:+ last)
  | S attempts =>
      match answer k with
      | Ok identity => Ok identity
      | Err x => match done k with
                 | Some c => Err c
                 | None => proveNamespace answer done (S k) attempts x
                 end
      end
  end.
(** What the host answers while the steps run: whether the work itself of a
    step fails, and for a device that was configured, whether its namespace is
    in doubt, what it is, and whether the context is done. *)
Record During := mkDuring {
  duWork : Work -> option string;
  duUnproven : EDevice -> bool;
  duNamespace : EDevice -> nat -> result string NetnsIdentity;
  duDone : EDevice -> nat -> option string;
  duWrite : Work -> nat -> option string
}.

(** The desired state of a device, as the observation left it. *)
Definition desiredOf (ob : Observed) (d : EDevice) : desiredDeviceState :=
  match List.find (fun p => bool_decide (edID p.1 = edID d)) (ovDevices ob) with
  | Some (_, o) => doState o
  | None => mkDesired noRendering (mkFinalSpec "" None)
  end.
Definition createdState (st : desiredDeviceState) : observedDeviceState :=
  mkObserved (fsSpec (dsSpecs st)) "" "" "" "".
Definition configuredState (st : desiredDeviceState) : observedDeviceState :=
  let r := dsRendered st in
  mkObserved (fsSpec (dsSpecs st)) (rdConfig r) (rdFile r) (rdCommand r) "".

(** The record and the file it is kept in; a mark is written at once. *)
Definition Disk : Type := ObservationFile * observationTracker.
Definition marked (write : option string) (mark : observationTracker -> observationTracker)
    (s : Disk) : result string Disk :=
  let '(file, tracker, err) := saveLocked write s.1 (mark s.2) in
  check err (Ok (file, tracker)).

Definition recordDeviceNamespace (du : During) (d : EDevice) (s : Disk) : result string Disk :=
  if negb (bdRuntime e) || negb (bdProves e) || duUnproven du d then Ok s
  else andThen (proveNamespace (duNamespace du d) (duDone du d) 0 namespaceProofAttempts "")
         (fun identity => marked (duWrite du (WConfigure d) 0) (markNamespace (edID d) identity) s).

(** The marks a step that did its work makes. *)
Definition recorded (du : During) (ob : Observed) (w : Work) (s : Disk) : result string Disk :=
  match w with
  | WPull _ | WVerify _ => Ok s
  | WCreate d =>
      marked (duWrite du w 0) (markDevice (edID d) (createdState (desiredOf ob d))) s
  | WWire l =>
      andThen (bdWireHash e l) (fun hash => marked (duWrite du w 0) (markLink (lkID l) hash) s)
  | WConfigure d =>
      andThen (recordDeviceNamespace du d s)
        (marked (duWrite du w 1) (markDevice (edID d) (configuredState (desiredOf ob d))))
  | WReady d =>
      marked (duWrite du w 0) (markDevice (edID d) (observedFull (desiredOf ob d))) s
  | WMode _ =>
      if bool_decide (bdModeKey e = "") then Ok s
      else marked (duWrite du w 0) (markMode (bdModeKey e)) s
  end.

(** One step, and the steps in the order in which they ran, until one fails. *)
Definition runWork (du : During) (ob : Observed) (w : Work) (s : Disk) : result string Disk :=
  check (duWork du w) (recorded du ob w s).
Fixpoint runWorks (du : During) (ob : Observed) (l : list Work)
    (s : Disk) : result string Disk :=
  match l with
  | [] => Ok s
  | w :: rest => andThen (runWork du ob w s) (runWorks du ob rest)
  end.
End Observe.
