(* ===== verification/EngineSafety.v ===== *)
(** * The deployment engine: its plans

    Theorems about [Observe]: the plan of a node is always a valid one, work
    that would be replaced is captured first, a namespace that moved is built
    again, and a deployment that is repeated has nothing to do. *)

From stdpp Require Import base gmap strings list fin_maps sorting.
From Stdlib Require Import ZArith Lia.
From S2P Require Import Prelude Text Model Coordination Plan Engine Preserve Restore Replace Observe.

Local Open Scope string_scope.
Local Open Scope list_scope.

(** ** Plans whose needs go down *)

Lemma addAll_from l p :
  wfPlan p -> NoDup (map sID l) -> (forall s, s ∈ l -> sID s <> "" /\ sID s ∉ order p) ->
  exists p', fold_left (fun p s => p ≫= Add s) l (Some p) = Some p' /\ wfPlan p' /\
    order p' = order p ++ map sID l /\
    (forall s, s ∈ l -> steps p' !! sID s = Some s) /\
    (forall id s, steps p !! id = Some s -> steps p' !! id = Some s).
Proof.
  revert p. induction l as [|s l IH]; intros p Hwf Hnd Hl.
  { exists p. rewrite app_nil_r. split_and!; [done|done|done| |done].
    intros s Hs. by apply not_elem_of_nil in Hs. }
  apply NoDup_cons in Hnd as [Hs Hnd]. destruct (Hl s (list_elem_of_here _ _)) as [Hne Hnew].
  assert (steps p !! sID s = None) as Hnone.
  { apply eq_None_not_Some. by rewrite <- (wf_dom p Hwf). }
  set (p1 := mkPlan (<[sID s := s]> (steps p)) (order p ++ [sID s])).
  assert (Add s p = Some p1) as Hadd.
  { unfold Add. rewrite decide_False by done. rewrite decide_False; [done|].
    rewrite Hnone. by intros [? ?]. }
  destruct (IH p1) as (p' & E & Hwf' & Ho & Hin & Hold); [by eapply wf_Add|done| |].
  { intros s' Hs'. destruct (Hl s') as [Hne' Hnew']; [by right|]. split; [done|]. simpl.
    rewrite elem_of_app, list_elem_of_singleton. intros [?|Heq]; [done|].
    apply Hs. rewrite <- Heq. by apply list_elem_of_fmap_2. }
  exists p'. split_and!.
  - simpl. by rewrite Hadd.
  - done.
  - rewrite Ho. simpl. by rewrite <- app_assoc.
  - intros s' [->|Hs']%elem_of_cons; [|by apply Hin]. apply Hold. simpl. by rewrite lookup_insert_eq.
  - intros id s' Hid. apply Hold. simpl. rewrite lookup_insert_ne; [done|]. congruence.
Qed.

Section Levelled.
Context {A : Type} (f : A -> Step) (level : A -> nat) (l : list A).
Hypothesis Hnd : NoDup (map (fun a => sID (f a)) l).
Hypothesis Hne : forall a, sID (f a) <> "".
Hypothesis Hrank : forall a b, (level a < level b)%nat -> (rank (sStage (f a)) <= rank (sStage (f b)))%nat.
Hypothesis Hdown : forall a n, a ∈ l -> n ∈ sNeeds (f a) ->
  exists b, b ∈ l /\ sID (f b) = n /\ (level b < level a)%nat.

(** A list of steps with distinct names, whose needs are steps of a lower
    level, makes a valid plan. *)
Lemma levelled_plan_valid :
  exists p, addAll (map f l) = Some p /\ wfPlan p /\ order p = map (fun a => sID (f a)) l /\
    (forall a, a ∈ l -> steps p !! sID (f a) = Some (f a)) /\ Validate p = Ok tt.
Proof.
  destruct (addAll_from (map f l) New) as (p & E & Hwf & Ho & Hin & _); [apply wf_New| | |].
  { by rewrite map_map. }
  { intros s (a & -> & _)%list_elem_of_fmap. split; [apply Hne|]. apply not_elem_of_nil. }
  rewrite map_map in Ho. simpl in Ho.
  assert (forall a, a ∈ l -> steps p !! sID (f a) = Some (f a)) as Hst.
  { intros a Ha. apply Hin. by apply list_elem_of_fmap_2. }
  assert (forall id, id ∈ order p -> exists a, a ∈ l /\ id = sID (f a)) as Hord.
  { intros id Hid. rewrite Ho in Hid. apply list_elem_of_fmap in Hid as (a & -> & Ha). eauto. }
  assert (forall k a, a ∈ l -> (level a < k)%nat -> Acc (dep p) (sID (f a))) as Hacc.
  { induction k as [|k IH]; [lia|]. intros a Ha Hk. constructor. intros y Hy.
    unfold dep, needsOf in Hy. rewrite (Hst a Ha) in Hy.
    destruct (Hdown a y Ha Hy) as (b & Hb & <- & Hlt). apply IH; [done|lia]. }
  exists p. split_and!; [done|done|done|done|]. apply Validate_ok_iff; [done|]. split_and!.
  - intros id n Hid Hn. destruct (Hord id Hid) as (a & Ha & ->). unfold needsOf in Hn.
    rewrite (Hst a Ha) in Hn. destruct (Hdown a n Ha Hn) as (b & Hb & <- & _).
    rewrite Ho. by apply (list_elem_of_fmap_2 (fun a => sID (f a))).
  - intros id Hid. destruct (Hord id Hid) as (a & Ha & ->). by apply (Hacc (S (level a))); [|lia].
  - intros id n Hid Hn. destruct (Hord id Hid) as (a & Ha & ->). unfold needsOf in Hn.
    rewrite (Hst a Ha) in Hn. destruct (Hdown a n Ha Hn) as (b & Hb & <- & Hlt).
    unfold stageOf. rewrite (Hst a Ha), (Hst b Hb). by apply Hrank.
Qed.
End Levelled.

(** ** The steps of a node *)

Definition level (w : Work) : nat :=
  match w with
  | WPull _ => 0 | WVerify _ => 1 | WCreate _ => 2 | WWire _ => 3
  | WConfigure _ => 4 | WReady _ => 5 | WMode _ => 6
  end.
(** The same work by name. *)
Definition sameWork (w v : Work) : Prop :=
  match w, v with
  | WPull i, WPull j | WVerify i, WVerify j => i = j
  | WCreate d, WCreate d' | WConfigure d, WConfigure d' | WReady d, WReady d' => edID d = edID d'
  | WWire l, WWire l' => lkID l = lkID l'
  | WMode _, WMode _ => True
  | _, _ => False
  end.

Lemma append_inj_l (a s t : string) : a +:+ s = a +:+ t -> s = t.
Proof. induction a as [|c a IH]; [done|]. rewrite !append_cons. intros [= H]. by apply IH. Qed.

Lemma workID_inj e diff w v : workID e diff w = workID e diff v <-> sameWork w v.
Proof.
  split.
  - destruct w, v; unfold workID; simpl; try done;
      first [by intros ?%append_inj_l | cbn; discriminate | by cbn; intros [= ->]].
  - destruct w, v; unfold workID; simpl; try done; congruence.
Qed.

Lemma rank_level e diff w v :
  (level w < level v)%nat -> (rank (sStage (stepOf e diff w)) <= rank (sStage (stepOf e diff v)))%nat.
Proof. destruct w, v; simpl; lia. Qed.

Section Steps.
Context (e : Build) (top : ETop) (diff : BuildDiff) (devices : list EDevice).

Lemma elem_of_imageWork w (images : list string) :
  w ∈ (images ≫= fun image => [WPull image; WVerify image]) <->
  exists image, image ∈ images /\ (w = WPull image \/ w = WVerify image).
Proof.
  rewrite list_elem_of_bind. split.
  - intros (i & Hw & Hi). exists i. split; [done|].
    apply elem_of_cons in Hw as [->|Hw]; [by left|]. apply list_elem_of_singleton in Hw. by right.
  - intros (i & Hi & [->| ->]); exists i; (split; [|done]); [left|right; left].
Qed.

Lemma elem_of_imagesOf image :
  image ∈ imagesOf diff devices <->
  exists d, d ∈ devices /\ edID d ∈ dfCreate diff /\ image = edImage d.
Proof.
  unfold imagesOf. rewrite elem_of_sortStrings, elem_of_dedup, list_elem_of_fmap.
  split.
  - intros (d & -> & Hd). apply list_elem_of_In, filter_In in Hd as [Hd Hc].
    apply list_elem_of_In in Hd. apply bool_decide_eq_true in Hc. eauto.
  - intros (d & Hd & Hc & ->). exists d. split; [done|]. apply list_elem_of_In, filter_In.
    split; [by apply list_elem_of_In|]. by apply bool_decide_eq_true.
Qed.

Lemma elem_of_map_filter {A B} (g : A -> B) (P : A -> bool) l w :
  w ∈ map g (List.filter P l) <-> exists a, w = g a /\ a ∈ l /\ P a = true.
Proof.
  rewrite list_elem_of_fmap. setoid_rewrite list_elem_of_In. setoid_rewrite filter_In. naive_solver.
Qed.

(** What is in the list of steps. *)
Definition planned (w : Work) : Prop :=
  match w with
  | WPull i | WVerify i => i ∈ imagesOf diff devices
  | WCreate d => d ∈ devices /\ edID d ∈ dfCreate diff
  | WWire l => l ∈ nodeLinks e top /\ lkID l ∈ dfWire diff
  | WConfigure d => d ∈ devices /\ edID d ∈ dfConfigure diff
  | WReady d => d ∈ devices /\ edID d ∈ dfReady diff /\ hasReady e d = true
  | WMode _ => False
  end.
Lemma elem_of_workList w : w ∈ workList e top diff devices <-> planned w.
Proof.
  unfold workList. rewrite !elem_of_app, elem_of_imageWork, !elem_of_map_filter.
  split.
  - intros [(i & Hi & [-> | ->])|[H|[H|[H|H]]]]; [done|done|..]; destruct H as (x & -> & Hx & Hc);
      simpl; try apply andb_prop in Hc as [Hc Hr]; apply bool_decide_eq_true in Hc; done.
  - destruct w as [i|i|d|l|d|d|]; simpl.
    + intros Hi. left. eauto.
    + intros Hi. left. eauto.
    + intros [Hd Hc]. right; left. exists d. by rewrite bool_decide_true.
    + intros [Hl Hc]. right; right; left. exists l. by rewrite bool_decide_true.
    + intros [Hd Hc]. do 3 right; left. exists d. by rewrite bool_decide_true.
    + intros (Hd & Hc & Hr). do 4 right. exists d. by rewrite bool_decide_true, Hr.
    + done.
Qed.

Lemma elem_of_allWork w modeDirty :
  w ∈ allWork e top diff devices modeDirty <->
  planned w \/ (modeDirty = true /\ w = WMode (map (workID e diff) (workList e top diff devices))).
Proof.
  unfold allWork. rewrite elem_of_app, elem_of_workList.
  destruct modeDirty; [rewrite list_elem_of_singleton; naive_solver|].
  rewrite elem_of_nil. naive_solver.
Qed.

Hypothesis Hcreate : forall id, id ∈ dfCreate diff -> exists d, d ∈ devices /\ edID d = id.
Hypothesis Hwire : forall id, id ∈ dfWire diff -> exists l, l ∈ nodeLinks e top /\ lkID l = id.

Lemma planned_needs w n :
  planned w -> n ∈ sNeeds (stepOf e diff w) ->
  exists v, planned v /\ workID e diff v = n /\ (level v < level w)%nat.
Proof.
  destruct w as [i|i|d|l|d|d|]; simpl; intros Hw Hn.
  - by apply not_elem_of_nil in Hn.
  - apply list_elem_of_singleton in Hn as ->. exists (WPull i). simpl. auto with lia.
  - apply list_elem_of_singleton in Hn as ->. exists (WVerify (edImage d)). simpl.
    split_and!; [|done|lia]. apply elem_of_imagesOf. destruct Hw. eauto.
  - unfold wireNeeds in Hn. apply list_elem_of_omap in Hn as (x & _ & Hx).
    destruct (endCreated e (dfCreate diff) x) eqn:Ex; [|done]. injection Hx as <-.
    apply andb_prop in Ex as [_ Ex]. apply bool_decide_eq_true in Ex.
    destruct (Hcreate _ Ex) as (d & Hd & Hid).
    exists (WCreate d). unfold workID. simpl. rewrite Hid. auto with lia.
  - unfold configureNeeds in Hn. apply elem_of_dedup, elem_of_app in Hn as [Hn|Hn].
    + case_bool_decide as Hc; [|by apply not_elem_of_nil in Hn].
      apply list_elem_of_singleton in Hn as ->. exists (WCreate d). simpl. destruct Hw. auto with lia.
    + apply list_elem_of_omap in Hn as (i & _ & Hi). destruct (eiLink i) as [l|]; [|done].
      case_bool_decide as Hl; [|done]. injection Hi as <-. destruct (Hwire _ Hl) as (l' & Hl' & Hid).
      exists (WWire l'). unfold workID. simpl. rewrite Hid. auto with lia.
  - unfold readyNeeds in Hn. case_bool_decide as Hc; [|by apply not_elem_of_nil in Hn].
    apply list_elem_of_singleton in Hn as ->. exists (WConfigure d). simpl. destruct Hw. auto with lia.
  - done.
Qed.

Lemma NoDup_map_filter {A B} (g : A -> B) (P : A -> bool) (l : list A) :
  NoDup (map g l) -> NoDup (map g (List.filter P l)).
Proof.
  induction l as [|a l IH]; simpl; [done|]. intros [Ha Hl]%NoDup_cons.
  destruct (P a); simpl; [|by apply IH]. apply NoDup_cons. split; [|by apply IH].
  intros Hin. apply Ha. rewrite elem_of_map_filter in Hin. destruct Hin as (b & -> & Hb & _).
  by apply list_elem_of_fmap_2.
Qed.

Hypothesis Hdev : NoDup (map edID devices).
Hypothesis Hlinks : NoDup (map lkID (nodeLinks e top)).

Lemma NoDup_blocks (A B : list Work) :
  NoDup (map (workID e diff) A) -> NoDup (map (workID e diff) B) ->
  (forall w v, w ∈ A -> v ∈ B -> ~ sameWork w v) -> NoDup (map (workID e diff) (A ++ B)).
Proof.
  intros HA HB Hdis. rewrite map_app. apply NoDup_app. split_and!; [done| |done].
  intros x (w & -> & Hw)%list_elem_of_fmap (v & Hid & Hv)%list_elem_of_fmap.
  apply (Hdis w v Hw Hv). by apply (workID_inj e diff).
Qed.

Lemma NoDup_imageWork (images : list string) :
  NoDup images ->
  NoDup (map (workID e diff) (images ≫= fun image => [WPull image; WVerify image])).
Proof.
  induction 1 as [|i images Hi _ IH]; [constructor|].
  change (NoDup (map (workID e diff) ([WPull i; WVerify i] ++
            (images ≫= fun image => [WPull image; WVerify image])))).
  apply NoDup_blocks; [|done|].
  - simpl. apply NoDup_cons. split; [|apply NoDup_singleton].
    rewrite list_elem_of_singleton. by intros H%workID_inj.
  - intros w v Hw (j & Hj & Hv)%elem_of_imageWork Hs. rewrite elem_of_cons, list_elem_of_singleton in Hw.
    destruct Hw as [->| ->], Hv as [->| ->]; simpl in Hs; congruence.
Qed.

(** The names of a block of steps of one kind. *)
Lemma NoDup_kind {A} (g : A -> Work) (key : A -> string) (P : A -> bool) l :
  (forall a b, sameWork (g a) (g b) -> key a = key b) -> NoDup (map key l) ->
  NoDup (map (workID e diff) (map g (List.filter P l))).
Proof.
  intros Hg Hnd. apply (NoDup_map_filter key P) in Hnd. rewrite map_map.
  induction (List.filter P l) as [|a r IH]; simpl in *; [constructor|].
  apply NoDup_cons in Hnd as [Ha Hnd]. apply NoDup_cons. split; [|by apply IH].
  intros (b & Hid & Hb)%list_elem_of_fmap. apply workID_inj, Hg in Hid.
  apply Ha. rewrite Hid. by apply list_elem_of_fmap_2.
Qed.

Lemma NoDup_workIDs modeDirty :
  NoDup (map (workID e diff) (allWork e top diff devices modeDirty)).
Proof.
  unfold allWork. apply NoDup_blocks.
  2:{ destruct modeDirty; [apply NoDup_singleton|constructor]. }
  2:{ intros w v Hw%elem_of_workList Hv Hs. destruct modeDirty; [|by apply not_elem_of_nil in Hv].
      apply list_elem_of_singleton in Hv as ->. by destruct w. }
  unfold workList. repeat apply NoDup_blocks; try (by eapply NoDup_kind);
    [apply NoDup_imageWork, NoDup_sortStrings, NoDup_dedup|..];
    intros w v; rewrite ?elem_of_app, ?elem_of_imageWork, ?elem_of_map_filter;
    intros Hw Hv Hs; destruct w, v; naive_solver.
Qed.

Lemma work_plan_valid modeDirty :
  exists p, addAll (map (stepOf e diff) (allWork e top diff devices modeDirty)) = Some p /\ wfPlan p /\
    order p = map (workID e diff) (allWork e top diff devices modeDirty) /\
    (forall w, w ∈ allWork e top diff devices modeDirty ->
       steps p !! workID e diff w = Some (stepOf e diff w)) /\ Validate p = Ok tt.
Proof.
  apply (levelled_plan_valid (stepOf e diff) level).
  - apply NoDup_workIDs.
  - by intros [].
  - intros w v. apply rank_level.
  - intros w n. rewrite elem_of_allWork. intros [Hw|[Hm ->]] Hn.
    + destruct (planned_needs w n Hw Hn) as (v & Hv & Hid & Hlt). exists v.
      rewrite elem_of_allWork. auto.
    + simpl in Hn. apply list_elem_of_fmap in Hn as (v & -> & Hv).
      apply elem_of_workList in Hv. exists v. rewrite elem_of_allWork. split_and!; [by left|done|].
      destruct v; simpl; [lia..|done].
Qed.
End Steps.

(** ** What an observation went through *)

Lemma andThen_Ok {A B} (r : result string A) (k : A -> result string B) b :
  andThen r k = Ok b <-> exists a, r = Ok a /\ k a = Ok b.
Proof. destruct r; simpl; naive_solver. Qed.
Lemma check_Ok {A} x (k : result string A) a : check x k = Ok a <-> x = None /\ k = Ok a.
Proof. destruct x; simpl; naive_solver. Qed.

Lemma hasReady_renders e d : hasReady e d = true -> renders e = true.
Proof. unfold hasReady, renders. by destruct (bdRenderer e). Qed.

(** A record that keeps what another one holds. *)
Record extends (t t' : observationTracker) : Prop := {
  ext_device id v : trackedDevice t id = Some v -> trackedDevice t' id = Some v;
  ext_link id v : trackedLink t id = Some v -> trackedLink t' id = Some v;
  ext_namespace id v : trackedNamespace t id = Some v -> trackedNamespace t' id = Some v;
  ext_mode : noMode (tkState t') = noMode (tkState t);
  ext_version : noVersion (tkState t') = noVersion (tkState t);
  ext_lab : noLab (tkState t') = noLab (tkState t);
  ext_node : noNode (tkState t') = noNode (tkState t);
  ext_same : tkChanged t' = false -> t' = t
}.
#[export] Instance extends_preorder : PreOrder extends.
Proof.
  split.
  - intros t. by split.
  - intros t1 t2 t3 [] []. split; [eauto|eauto|eauto|congruence..|].
    intros H. assert (t3 = t2) as -> by auto. auto.
Qed.

Lemma bootstrapDevice_extends id v t : extends t (bootstrapDevice id v t).
Proof.
  unfold bootstrapDevice. destruct (trackedDevice t id) eqn:E; [reflexivity|].
  split; try done. intros id' v' H. unfold trackedDevice in *. simpl.
  rewrite lookup_insert_ne; [done|congruence].
Qed.
Lemma bootstrapLink_extends id v t : extends t (bootstrapLink id v t).
Proof.
  unfold bootstrapLink. destruct (trackedLink t id) eqn:E; [reflexivity|].
  split; try done. intros id' v' H. unfold trackedLink in *. simpl.
  rewrite lookup_insert_ne; [done|congruence].
Qed.
Lemma bootstrapNamespace_extends id v t : extends t (bootstrapNamespace id v t).
Proof.
  unfold bootstrapNamespace. destruct (trackedNamespace t id) eqn:E; [reflexivity|].
  split; try done. intros id' v' H. unfold trackedNamespace in *. simpl.
  rewrite lookup_insert_ne; [done|congruence].
Qed.
#[export] Hint Resolve bootstrapDevice_extends bootstrapLink_extends bootstrapNamespace_extends : core.

Section Seen.
Context (e : Build) (top : ETop) (view : View).

(** What holds of a device and what was observed of it, against the record. *)
Record sound (byName : gmap string Container) (t : observationTracker) (d : EDevice)
    (o : deviceObservation) : Prop := {
  sd_state : desiredState e d = Ok (doState o);
  sd_create : specDirty e byName d (doState o) = true -> doCreate o = true;
  sd_recreate : doRecreate o = true -> doCreate o = true;
  sd_clean : renders e = true -> doConfigure o = false ->
    doCreate o = false /\
    exists prev, trackedDevice t (edID d) = Some prev /\
      hashesDiffer prev (dsRendered (doState o)) = false /\
      (hasReady e d = true -> doReady o = false -> obReady prev = rdReady (dsRendered (doState o)));
  sd_ready : hasReady e d = true -> doConfigure o = true -> doReady o = true;
  sd_capture : studentOwned top d = true -> doCreate o = true \/ doConfigure o = true ->
    doCapture o = true
}.

Lemma sound_extends byName t t' d o : extends t t' -> sound byName t d o -> sound byName t' d o.
Proof.
  intros Hext [A B C D E F]. split; try done. intros Hr Hc.
  destruct (D Hr Hc) as (H1 & prev & H2 & H3). split; [done|]. exists prev.
  split; [by apply (ext_device t t')|done].
Qed.

Lemma observeDevice_sound byName modeDirty d t o t' :
  observeDevice e top byName modeDirty d t = Ok (o, t') ->
  extends t t' /\ sound byName t' d o /\ (modeDirty = true -> renders e = true -> doConfigure o = true).
Proof.
  unfold observeDevice. destruct (desiredState e d) as [st|] eqn:Est; [|done].
  match goal with |- context [if ?b then bootstrapDevice ?i ?v t else t] =>
    set (t1 := if b then bootstrapDevice i v t else t);
    assert (extends t t1) as Hext by (subst t1; destruct b; [auto|reflexivity])
  end.
  intros [= <- <-].
  split; [done|]. split.
  - split; simpl.
    + done.
    + done.
    + intros H. by apply andb_prop in H as [H _].
    + intros Hr. rewrite Hr. simpl. intros Hc. apply orb_false_elim in Hc as [Hc Hp].
      apply orb_false_elim in Hc as [Hm Hd]. split; [done|].
      destruct (trackedDevice t1 (edID d)) as [prev|]; [|done]. exists prev.
      split_and!; [done|done|]. intros Hh. rewrite Hh. simpl. rewrite Hm, Hd, Hp. simpl.
      intros H. apply negb_false_iff, bool_decide_eq_true in H. done.
    + intros Hh Hc. rewrite Hh. simpl. rewrite Hc. by rewrite orb_true_r.
    + intros Hs H. rewrite Hs. simpl. apply orb_true_iff. done.
  - intros -> ->. done.
Qed.

Lemma observeDevices_sound byName modeDirty ds t os t' :
  observeDevices e top byName modeDirty ds t = Ok (os, t') ->
  extends t t' /\ map fst os = ds /\ Forall (fun p => sound byName t' p.1 p.2) os /\
  (modeDirty = true -> renders e = true -> Forall (fun p => doConfigure p.2 = true) os).
Proof.
  revert t os. induction ds as [|d ds IH]; intros t os; simpl.
  { intros [= <- <-]. split_and!; [reflexivity|done|constructor|constructor]. }
  destruct (observeDevice e top byName modeDirty d t) as [[o t1]|] eqn:Ed; [|done].
  destruct (observeDevices e top byName modeDirty ds t1) as [[os' t2]|] eqn:Eds; [|done].
  intros [= <- <-]. destruct (observeDevice_sound _ _ _ _ _ _ Ed) as (X1 & S1 & M1).
  destruct (IH _ _ Eds) as (X2 & Hm & S2 & M2). split_and!.
  - by etrans.
  - simpl. by rewrite Hm.
  - constructor; [|done]. by apply (sound_extends byName t1).
  - intros Hd Hr. constructor; [by apply M1|by apply M2].
Qed.

Lemma adjust_sound byName t replaced lost p :
  replaced ⊆ lost -> sound byName t p.1 p.2 ->
  sound byName t (adjust e top replaced lost p).1 (adjust e top replaced lost p).2 /\
  (adjust e top replaced lost p).1 = p.1.
Proof.
  destruct p as [d o]. intros Hsub Hs. simpl in Hs. destruct Hs as [A B C D E F]. unfold adjust.
  case_bool_decide as Hl; simpl; (split; [|done]); split; simpl.
  - done.
  - intros H. by rewrite (B H).
  - intros H. by rewrite (C H).
  - done.
  - intros Hh _. rewrite Hh. by rewrite orb_true_r.
  - intros Hs _. rewrite Hs. by rewrite orb_true_r.
  - done.
  - intros H. by rewrite (B H).
  - intros H. by rewrite (C H).
  - rewrite bool_decide_false, orb_false_r by set_solver. done.
  - done.
  - rewrite bool_decide_false, orb_false_r by set_solver. done.
Qed.

Lemma probed_sound byName t p :
  sound byName t p.1 p.2 ->
  sound byName t (probed e top view p).1 (probed e top view p).2 /\ (probed e top view p).1 = p.1.
Proof.
  destruct p as [d o]. intros Hs. simpl in Hs. destruct Hs as [A B C D E F]. unfold probed.
  destruct (doSemantic o && _); simpl; (split; [|done]); [|by split]. split; simpl; try done.
  - intros Hh _. rewrite Hh. by rewrite orb_true_r.
  - intros Hs _. rewrite Hs. by rewrite orb_true_r.
Qed.
End Seen.

(** ** Namespaces, links and the record *)

Section Node.
Context (e : Build) (top : ETop) (view : View).

Lemma settle_extends byName lost os t :
  extends t (settleNamespaceBaselines e view byName lost os t).1.
Proof.
  unfold settleNamespaceBaselines. destruct (_ || _); [reflexivity|].
  apply (fold_left_inv (fun acc => extends t acc.1)); [reflexivity|].
  intros [t' doubts] p _ Hx. simpl in Hx. unfold settleOne.
  destruct (baselineOf _ _ _ _) as [|r|c]; simpl; [done|done|].
  destruct (vwCancelled view 2); simpl; [done|]. destruct (vwBaseline view p.1); simpl; [|done].
  destruct (negb _); simpl; [done|]. destruct c; [|done]. by etrans; [|auto].
Qed.

Lemma hashLinks_spec ls hashes :
  hashLinks e ls = Ok hashes ->
  map fst hashes = ls /\ Forall (fun p => bdWireHash e p.1 = Ok p.2) hashes.
Proof.
  revert hashes. induction ls as [|l ls IH]; intros hashes; simpl.
  { intros [= <-]. by split. }
  destruct (bdWireHash e l) as [h|] eqn:Eh; [|done].
  destruct (hashLinks e ls) as [more|]; [|done]. intros [= <-].
  destruct (IH more eq_refl) as [Hm Hf]. split; [simpl; by rewrite Hm|by constructor].
Qed.

Lemma observeLink_spec byName modeDirty create overlay l h t dirty t' :
  observeLink e top byName modeDirty create overlay l h t = (dirty, t') ->
  extends t t' /\ (dirty = false -> trackedLink t' (lkID l) = Some h) /\
  (endpointCreate e create l = true -> dirty = true).
Proof.
  unfold observeLink.
  match goal with |- context [if ?b then bootstrapLink ?i ?v t else t] =>
    set (t1 := if b then bootstrapLink i v t else t);
    assert (extends t t1) as Hext by (subst t1; destruct b; [auto|reflexivity])
  end.
  intros [= <- <-]. split_and!; [done| |].
  - intros H. apply orb_false_elim in H as [H _]. apply orb_false_elim in H as [_ H].
    destruct (trackedLink t1 (lkID l)); [|done].
    apply negb_false_iff, bool_decide_eq_true in H. by rewrite H.
  - intros ->. by rewrite orb_true_r.
Qed.

Lemma observeLinks_spec byName modeDirty create overlay ls t wire t' :
  observeLinks e top byName modeDirty create overlay ls t = (wire, t') ->
  extends t t' /\ (forall id, id ∈ wire -> exists l, l ∈ map fst ls /\ lkID l = id) /\
  (forall l h, (l, h) ∈ ls -> lkID l ∉ wire -> trackedLink t' (lkID l) = Some h) /\
  (forall l h, (l, h) ∈ ls -> endpointCreate e create l = true -> lkID l ∈ wire).
Proof.
  revert t wire. induction ls as [|[l h] ls IH]; intros t wire; cbn [observeLinks].
  { intros [= <- <-]. split_and!; [reflexivity|set_solver|set_solver|set_solver]. }
  destruct (observeLink e top byName modeDirty create overlay l h t) as [dirty t1] eqn:El.
  destruct (observeLinks e top byName modeDirty create overlay ls t1) as [more t2] eqn:Els.
  intros [= <- <-].
  destruct (observeLink_spec _ _ _ _ _ _ _ _ _ El) as (X1 & D1 & C1).
  destruct (IH _ _ Els) as (X2 & W2 & D2 & C2). split_and!.
  - by etrans.
  - intros id Hid. destruct (decide (id ∈ more)) as [Hm|Hm].
    + destruct (W2 id Hm) as (l' & Hl' & <-). exists l'. split; [by right|done].
    + destruct dirty; [|done]. assert (id = lkID l) as -> by set_solver. exists l. split; [left|done].
  - intros l' h' [[= -> ->]|Hin]%elem_of_cons Hnot; [|apply D2; [done|destruct dirty; set_solver]].
    destruct dirty; [set_solver|]. by apply (ext_link t1 t2 X2), D1.
  - intros l' h' [[= -> ->]|Hin]%elem_of_cons Hc.
    + rewrite (C1 Hc). set_solver.
    + pose proof (C2 _ _ Hin Hc). destruct dirty; set_solver.
Qed.

Lemma keepKeys_id {V} (want : gset string) (m : gmap string V) :
  map_any (fun id _ => negb (bool_decide (id ∈ want))) m = false -> keepKeys want m = m.
Proof.
  intros H. apply map_eq. intros id. apply option_eq. intros v. unfold keepKeys.
  rewrite lookup_map_drop_Some. split; [by intros [? _]|]. intros Hv. split; [done|].
  destruct (negb _) eqn:E; [|done]. exfalso.
  assert (map_any (fun id _ => negb (bool_decide (id ∈ want))) m = true) as Ht; [|congruence].
  apply map_any_true. eauto.
Qed.

Lemma pruneRecord_same devices links t :
  tkChanged (pruneRecord devices links t) = false -> pruneRecord devices links t = t.
Proof.
  destruct t as [[ver lab node mode ds ls ns] ch]. unfold pruneRecord. simpl. intros H.
  apply orb_false_elim in H as [H Hn]. apply orb_false_elim in H as [H Hl].
  apply orb_false_elim in H as [-> Hd]. rewrite Hd, Hl, Hn. by rewrite !keepKeys_id.
Qed.

(** The record is what its file would be read as. *)
Definition onDisk (file : ObservationFile) (t : observationTracker) : Prop :=
  loadObservation file (etName top) (bdNode e) = Ok t.
(** The record is of this laboratory and node. *)
Definition ours (t : observationTracker) : Prop :=
  noVersion (tkState t) = observationVersion /\ noLab (tkState t) = etName top /\
  noNode (tkState t) = bdNode e.

Lemma onDisk_ours file t : onDisk file t -> ours t /\ tkChanged t = false.
Proof.
  unfold onDisk, loadObservation, ours. destruct file; try naive_solver.
  destruct (_ && _) eqn:E; intros [= <-]; simpl; [|by split].
  apply andb_prop in E as [E H3]. apply andb_prop in E as [H1 H2].
  apply Z.eqb_eq in H1. apply bool_decide_eq_true in H2, H3. done.
Qed.

Lemma holds_onDisk t : ours t -> onDisk (FileHolds (tkState t)) (mkTracker (tkState t) false).
Proof.
  intros (H1 & H2 & H3). unfold onDisk. simpl. rewrite H1, H2, H3.
  by rewrite Z.eqb_refl, !bool_decide_true.
Qed.

Lemma saveLocked_disk write file t file' t' :
  (tkChanged t = false -> onDisk file t) -> ours t ->
  saveLocked write file t = (file', t', None) -> onDisk file' t' /\ tkState t' = tkState t.
Proof.
  intros Hd Ho. unfold saveLocked. destruct (tkChanged t) eqn:E; simpl.
  - destruct write; [done|]. intros [= <- <-]. split; [by apply holds_onDisk|done].
  - intros [= <- <-]. split; [by apply Hd|done].
Qed.
End Node.

(** ** A node that was observed *)

Section Observed.
Context (e : Build) (top : ETop) (view : View) (devices : list EDevice) (ob : Observed).

Record seenNode (byName : gmap string Container) (t0 t1 : observationTracker)
    (splits : gset string) : Prop := {
  sn_load : onDisk e top (vwFile view) t0;
  sn_loaded : extends t0 t1;
  sn_devices : map fst (ovDevices ob) = devices;
  sn_sound : Forall (fun p => sound e top byName (ovTracker ob) p.1 p.2) (ovDevices ob);
  sn_diff : ovDiff ob = mkDiff (idsWhere doCreate (ovDevices ob)) (idsWhere doRecreate (ovDevices ob))
     (dfWire (ovDiff ob)) (idsWhere doConfigure (ovDevices ob)) (idsWhere doReady (ovDevices ob))
     (idsWhere doDrift (ovDevices ob)) (idsWhere doCapture (ovDevices ob));
  sn_wire id : id ∈ dfWire (ovDiff ob) -> exists l, l ∈ nodeLinks e top /\ lkID l = id;
  sn_links l : l ∈ nodeLinks e top -> exists h, bdWireHash e l = Ok h /\
    (lkID l ∉ dfWire (ovDiff ob) -> trackedLink (ovTracker ob) (lkID l) = Some h) /\
    (endpointCreate e (dfCreate (ovDiff ob)) l = true -> lkID l ∈ dfWire (ovDiff ob));
  sn_mode : noMode (tkState (ovTracker ob)) = noMode (tkState t0);
  sn_disk : bdReadOnly e = false -> onDisk e top (ovFile ob) (ovTracker ob);
  sn_lost : ovLost ob = expandLostStateToPeers e devices
                          (replacedDevices e view byName t1 devices splits);
  sn_replaced p : p ∈ ovDevices ob ->
    edID p.1 ∈ replacedDevices e view byName t1 devices splits -> doCreate p.2 = true;
  sn_repair p : p ∈ ovDevices ob -> edID p.1 ∈ ovLost ob -> doConfigure p.2 = true
}.

Lemma sound_tracked byName t t' d o :
  trackedDevice t' (edID d) = trackedDevice t (edID d) ->
  sound e top byName t d o -> sound e top byName t' d o.
Proof. intros Heq [A B C D E F]. split; try done. by rewrite Heq. Qed.

Lemma map_keeps_sound byName t (g : EDevice * deviceObservation -> EDevice * deviceObservation) os :
  (forall p, sound e top byName t p.1 p.2 ->
             sound e top byName t (g p).1 (g p).2 /\ (g p).1 = p.1) ->
  Forall (fun p => sound e top byName t p.1 p.2) os ->
  Forall (fun p => sound e top byName t p.1 p.2) (map g os) /\ map fst (map g os) = map fst os.
Proof.
  intros Hg. induction 1 as [|p os Hp _ [IH1 IH2]]; [by split|].
  destruct (Hg p Hp) as [H1 H2]. split; [by constructor|]. simpl. by rewrite IH2, H2.
Qed.

Lemma probed_keeps p :
  (probed e top view p).1 = p.1 /\ doCreate (probed e top view p).2 = doCreate p.2 /\
  (doConfigure p.2 = true -> doConfigure (probed e top view p).2 = true).
Proof. destruct p as [d o]. unfold probed. by destruct (doSemantic o && _). Qed.

Lemma adjust_repairs replaced lost p :
  replaced ⊆ lost ->
  (adjust e top replaced lost p).1 = p.1 /\
  (edID p.1 ∈ replaced -> doCreate (adjust e top replaced lost p).2 = true) /\
  (edID p.1 ∈ lost -> doConfigure (adjust e top replaced lost p).2 = true).
Proof.
  destruct p as [d o]. intros Hsub. unfold adjust. simpl. case_bool_decide as Hl; simpl.
  - split_and!; [done| |done]. intros Hr. rewrite bool_decide_true by done. by rewrite orb_true_r.
  - split_and!; [done| |done]. intros Hr. exfalso. by apply Hl, Hsub.
Qed.

Lemma pruneRecord_keeps ds ls t id :
  (id ∈ ds -> trackedDevice (pruneRecord ds ls t) id = trackedDevice t id) /\
  (id ∈ ls -> trackedLink (pruneRecord ds ls t) id = trackedLink t id).
Proof. split; intros H; by apply lookup_keepKeys. Qed.

(** Saving an observed record. *)
Lemma observed_saved t0 t file t' err :
  onDisk e top (vwFile view) t0 -> ours e top t -> (tkChanged t = false -> t = t0) ->
  (if bdReadOnly e then (vwFile view, t, None) else saveLocked (vwWrite view) (vwFile view) t)
    = (file, t', err) -> err = None ->
  tkState t' = tkState t /\ (bdReadOnly e = false -> onDisk e top file t').
Proof.
  intros H0 Ho Hs E ->. destruct (bdReadOnly e); [by injection E as <- <-|].
  destruct (saveLocked_disk e top (vwWrite view) (vwFile view) t file t') as [H1 H2]; [|done|done|].
  - intros Hc. by rewrite (Hs Hc).
  - done.
Qed.

(** The stages an observation went through, in their order. *)
Record passes cs t0 od os t1 splits doubts hashes t2 t3 file t5 : Prop := {
  pa_load : onDisk e top (vwFile view) t0;
  pa_containers : containersOf e view = Ok cs;
  pa_devices : observeDevices e top (byNameOf cs) (modeDirtyOf e t0) devices t0 = Ok (os, t1);
  pa_settle : settleNamespaceBaselines e view (byNameOf cs) (ovLost ob) (ovDevices ob) t1 = (t2, doubts);
  pa_hashes : hashLinks e (nodeLinks e top) = Ok hashes;
  pa_links : observeLinks e top (byNameOf cs) (modeDirtyOf e t0) (idsWhere doCreate (ovDevices ob))
               od hashes t2 = (dfWire (ovDiff ob), t3);
  pa_save : (let t4 := pruneRecord (list_to_set (map edID devices))
                         (list_to_set (map lkID (nodeLinks e top))) t3 in
             if bdReadOnly e then (vwFile view, t4, None)
             else saveLocked (vwWrite view) (vwFile view) t4) = (file, t5, None);
  pa_lost : ovLost ob = expandLostStateToPeers e devices
                          (replacedDevices e view (byNameOf cs) t1 devices splits);
  pa_result : ob = mkObservedNode t5
    (map (probed e top view) (map (adjust e top
       (replacedDevices e view (byNameOf cs) t1 devices splits) (ovLost ob)) os))
    (mkDiff (idsWhere doCreate (ovDevices ob)) (idsWhere doRecreate (ovDevices ob))
       (dfWire (ovDiff ob)) (idsWhere doConfigure (ovDevices ob)) (idsWhere doReady (ovDevices ob))
       (idsWhere doDrift (ovDevices ob)) (idsWhere doCapture (ovDevices ob)))
    (ovLost ob) doubts file
}.

Lemma observeNode_passes :
  observeNode e top view devices = Ok ob ->
  exists cs t0 od os t1 splits doubts hashes t2 t3 file t5,
    passes cs t0 od os t1 splits doubts hashes t2 t3 file t5.
Proof.
  unfold observeNode. intros H. apply andThen_Ok in H as (t0 & H0 & H).
  apply andThen_Ok in H as (cs & Hcs & H). apply andThen_Ok in H as (od & _ & H).
  apply check_Ok in H as [_ H]. apply andThen_Ok in H as ([os t1] & Hos & H).
  apply andThen_Ok in H as (splits & _ & H). apply check_Ok in H as [_ H].
  destruct (settleNamespaceBaselines _ _ _ _ _ _) as [t2 doubts] eqn:Es.
  apply check_Ok in H as [_ H]. apply andThen_Ok in H as (hashes & Hh & H).
  destruct (observeLinks _ _ _ _ _ _ _ _) as [wire t3] eqn:El.
  destruct (if bdReadOnly e then _ else _) as [[file t5] err] eqn:Ew.
  apply check_Ok in H as [-> [= H]].
  exists cs, t0, od, os, t1, splits, doubts, hashes, t2, t3, file, t5. by split; rewrite <- ?H.
Qed.

Section Passed.
Context cs t0 od os t1 splits doubts hashes t2 t3 file t5
  (P : passes cs t0 od os t1 splits doubts hashes t2 t3 file t5).
Let R := replacedDevices e view (byNameOf cs) t1 devices splits.

Lemma pass_extends : extends t0 t1 /\ extends t1 t3.
Proof using P.
  destruct (observeDevices_sound _ _ _ _ _ _ _ _ (pa_devices _ _ _ _ _ _ _ _ _ _ _ _ P)) as [X1 _].
  pose proof (settle_extends e view (byNameOf cs) (ovLost ob) (ovDevices ob) t1) as X2.
  rewrite (pa_settle _ _ _ _ _ _ _ _ _ _ _ _ P) in X2.
  destruct (observeLinks_spec _ _ _ _ _ _ _ _ _ _ (pa_links _ _ _ _ _ _ _ _ _ _ _ _ P)) as [X3 _].
  split; [done|by etrans].
Qed.

Lemma pass_saved :
  (forall d, d ∈ devices -> trackedDevice t5 (edID d) = trackedDevice t3 (edID d)) /\
  (forall l, l ∈ nodeLinks e top -> trackedLink t5 (lkID l) = trackedLink t3 (lkID l)) /\
  noMode (tkState t5) = noMode (tkState t0) /\ (bdReadOnly e = false -> onDisk e top file t5).
Proof using P.
  destruct pass_extends as [X1 X2]. assert (extends t0 t3) as X by (by etrans).
  pose proof P as [H0 _ _ _ _ _ Hsave _ _]. cbv zeta in Hsave.
  set (t4 := pruneRecord _ _ t3) in Hsave.
  assert (ours e top t4) as Ho.
  { destruct (onDisk_ours e top _ _ H0) as [(A & B & C) _].
    pose proof (ext_version _ _ X) as V. pose proof (ext_lab _ _ X) as L.
    pose proof (ext_node _ _ X) as N. unfold ours. subst t4. simpl. by rewrite V, L, N. }
  destruct (observed_saved t0 t4 file t5 None H0 Ho) as [Hst Hdisk]; [|done|done|].
  { intros Hc. pose proof Hc as Hc'. unfold t4 in Hc'. rewrite (pruneRecord_same _ _ _ Hc') in Hc'.
    subst t4. rewrite (pruneRecord_same _ _ _ Hc). by apply (ext_same _ _ X). }
  unfold trackedDevice, trackedLink. rewrite Hst. split_and!.
  - intros d Hd. apply (pruneRecord_keeps _ _ t3 (edID d)).
    apply elem_of_list_to_set. by apply list_elem_of_fmap_2.
  - intros l Hl. apply (pruneRecord_keeps _ _ t3 (lkID l)).
    apply elem_of_list_to_set. by apply list_elem_of_fmap_2.
  - apply (ext_mode _ _ X).
  - done.
Qed.

Lemma pass_devices :
  map fst (ovDevices ob) = devices /\
  Forall (fun p => sound e top (byNameOf cs) t5 p.1 p.2) (ovDevices ob) /\
  Forall (fun p => (edID p.1 ∈ R -> doCreate p.2 = true) /\
                   (edID p.1 ∈ ovLost ob -> doConfigure p.2 = true)) (ovDevices ob).
Proof using P.
  pose proof P as [_ _ Hos _ _ _ _ Hlost Hres].
  assert (R ⊆ ovLost ob) as HRL by (rewrite Hlost; unfold expandLostStateToPeers; set_solver).
  assert (ovDevices ob = map (probed e top view) (map (adjust e top R (ovLost ob)) os)) as ->
    by (by rewrite Hres at 1).
  destruct (observeDevices_sound _ _ _ _ _ _ _ _ Hos) as (X1 & Hmap & Hsound & _).
  destruct (map_keeps_sound (byNameOf cs) t1 (adjust e top R (ovLost ob)) os) as [S1 M1];
    [by intros; apply adjust_sound|done|].
  destruct (map_keeps_sound (byNameOf cs) t1 (probed e top view) _
              (probed_sound e top view (byNameOf cs) t1) S1) as [S2 M2].
  rewrite M2, M1, Hmap. split_and!; [done| |].
  - rewrite Forall_forall in S2 |- *. intros p Hp.
    apply (sound_tracked (byNameOf cs) t3); [|apply (sound_extends e top (byNameOf cs) t1)].
    + apply pass_saved. rewrite <- Hmap, <- M1, <- M2. by apply list_elem_of_fmap_2.
    + apply pass_extends.
    + by apply S2.
  - apply Forall_forall. intros p (q & -> & (r & -> & _)%list_elem_of_fmap)%list_elem_of_fmap.
    destruct (adjust_repairs R (ovLost ob) r HRL) as (A1 & A2 & A3).
    destruct (probed_keeps (adjust e top R (ovLost ob) r)) as (B1 & B2 & B3).
    rewrite B1, A1, B2. auto.
Qed.

Lemma pass_seen : seenNode (byNameOf cs) t0 t1 splits.
Proof using P.
  pose proof P as [H0 _ _ _ Hh Hl _ Hlost Hres].
  destruct pass_extends as [X1 X2]. destruct pass_saved as (_ & Slink & Smode & Sdisk).
  destruct pass_devices as (Dmap & Dsound & Drep). rewrite Forall_forall in Drep.
  destruct (observeLinks_spec _ _ _ _ _ _ _ _ _ _ Hl) as (_ & W & D & C).
  destruct (hashLinks_spec _ _ _ Hh) as [Hhm Hhf]. rewrite Forall_forall in Hhf.
  assert (ovTracker ob = t5) as Ht by (by rewrite Hres).
  assert (ovFile ob = file) as Hf by (by rewrite Hres).
  assert (dfCreate (ovDiff ob) = idsWhere doCreate (ovDevices ob)) as Hc by (by rewrite Hres at 1).
  split; rewrite ?Ht, ?Hf, ?Hc; try done.
  - by rewrite Hres at 1.
  - intros id Hid. rewrite <- Hhm. by apply W.
  - intros l Hin. rewrite (Slink l Hin). rewrite <- Hhm in Hin.
    apply list_elem_of_fmap in Hin as ([l' h] & -> & Hin). exists h.
    split_and!; [by apply (Hhf (l', h))| |]; intros ?; by eapply D || by eapply C.
  - intros p Hp. by apply Drep.
  - intros p Hp. by apply Drep.
Qed.
End Passed.

Lemma observeNode_seen :
  observeNode e top view devices = Ok ob ->
  exists cs t0 t1 splits, containersOf e view = Ok cs /\ seenNode (byNameOf cs) t0 t1 splits.
Proof.
  intros (cs & t0 & od & os & t1 & splits & doubts & hashes & t2 & t3 & file & t5 & P)%observeNode_passes.
  exists cs, t0, t1, splits. split; [by eapply pa_containers|by eapply pass_seen].
Qed.
End Observed.

(** ** The plan of a node *)

Lemma elem_of_idsWhere f os id :
  id ∈ idsWhere f os <-> exists p, p ∈ os /\ f p.2 = true /\ edID p.1 = id.
Proof. unfold idsWhere. rewrite elem_of_list_to_set, elem_of_map_filter. naive_solver. Qed.

Lemma NoDup_map_eq {A B} (g : A -> B) (l : list A) x y :
  NoDup (map g l) -> x ∈ l -> y ∈ l -> g x = g y -> x = y.
Proof.
  induction l as [|a l IH]; simpl; [by intros _ ?%not_elem_of_nil|].
  intros [Ha Hl]%NoDup_cons [->|Hx]%elem_of_cons [->|Hy]%elem_of_cons Heq; [done| | |by apply IH].
  - destruct Ha. rewrite Heq. by apply list_elem_of_fmap_2.
  - destruct Ha. rewrite <- Heq. by apply list_elem_of_fmap_2.
Qed.

Lemma elem_of_filter_bool {A} (P : A -> bool) l x : x ∈ List.filter P l <-> x ∈ l /\ P x = true.
Proof. by rewrite !list_elem_of_In, filter_In. Qed.

Lemma elem_of_devicesOn top node d : d ∈ devicesOn top node <-> d ∈ etDevices top /\ edNode d = node.
Proof. unfold devicesOn. by rewrite elem_of_filter_bool, bool_decide_eq_true. Qed.

Section Plans.
Context (e : Build) (top : ETop) (view : View).
Hypothesis Hdev : NoDup (map edID (etDevices top)).
Hypothesis Hlink : NoDup (map lkID (etLinks top)).
Let devices := devicesOn top (bdNode e).

Lemma devices_NoDup : NoDup (map edID devices).
Proof using Hdev. by apply NoDup_map_filter. Qed.
Lemma links_NoDup : NoDup (map lkID (nodeLinks e top)).
Proof using Hlink. by apply NoDup_map_filter. Qed.

(** What was observed of a device. *)
Lemma seen_device ob byName t0 t1 splits d :
  seenNode e top view devices ob byName t0 t1 splits -> d ∈ devices ->
  exists o, (d, o) ∈ ovDevices ob /\ sound e top byName (ovTracker ob) d o /\
    (edID d ∈ dfCreate (ovDiff ob) <-> doCreate o = true) /\
    (edID d ∈ dfRecreate (ovDiff ob) <-> doRecreate o = true) /\
    (edID d ∈ dfConfigure (ovDiff ob) <-> doConfigure o = true) /\
    (edID d ∈ dfReady (ovDiff ob) <-> doReady o = true) /\
    (edID d ∈ dfCapture (ovDiff ob) <-> doCapture o = true).
Proof using Hdev.
  intros Hs Hd. pose proof (sn_devices _ _ _ _ _ _ _ _ _ Hs) as Hm. rewrite <- Hm in Hd.
  apply list_elem_of_fmap in Hd as ([d' o] & -> & Hin). exists o. simpl.
  assert (forall f, edID d' ∈ idsWhere f (ovDevices ob) <-> f o = true) as Hf.
  { intros f. rewrite elem_of_idsWhere. split; [|intros Ho; by exists (d', o)].
    intros (p & Hp & Ho & Hid).
    assert (p = (d', o)) as ->; [|done].
    apply (NoDup_map_eq (fun p : EDevice * deviceObservation => edID p.1) (ovDevices ob)); try done.
    rewrite <- (map_map fst edID), Hm. apply devices_NoDup. }
  split; [done|]. split.
  - pose proof (sn_sound _ _ _ _ _ _ _ _ _ Hs) as S. rewrite Forall_forall in S. by apply (S (d', o)).
  - rewrite (sn_diff _ _ _ _ _ _ _ _ _ Hs). simpl. by rewrite !Hf.
Qed.

Lemma observed_plan ob modeDirty :
  observeNode e top view devices = Ok ob ->
  exists p, addAll (map (stepOf e (ovDiff ob)) (allWork e top (ovDiff ob) devices modeDirty)) = Some p /\
    wfPlan p /\ order p = map (workID e (ovDiff ob)) (allWork e top (ovDiff ob) devices modeDirty) /\
    (forall w, w ∈ allWork e top (ovDiff ob) devices modeDirty ->
       steps p !! workID e (ovDiff ob) w = Some (stepOf e (ovDiff ob) w)) /\ Validate p = Ok tt.
Proof using Hdev Hlink.
  intros (cs & t0 & t1 & splits & _ & Hs)%observeNode_seen. apply work_plan_valid.
  - rewrite (sn_diff _ _ _ _ _ _ _ _ _ Hs). simpl. intros id (p & Hp & _ & <-)%elem_of_idsWhere.
    exists p.1. split; [|done]. rewrite <- (sn_devices _ _ _ _ _ _ _ _ _ Hs).
    by apply list_elem_of_fmap_2.
  - intros id. apply (sn_wire _ _ _ _ _ _ _ _ _ Hs).
  - apply devices_NoDup.
  - apply links_NoDup.
Qed.

(** A plan that was built, with the observation it was built from. *)
Lemma BuildContext_plan p ob :
  BuildContext e top view = Ok (p, Some ob) ->
  observeNode e top view devices = Ok ob /\
  addAll (map (stepOf e (ovDiff ob))
    (allWork e top (ovDiff ob) devices (modeDirtyOf e (ovTracker ob)))) = Some p.
Proof using.
  unfold BuildContext. fold devices. destruct devices as [|d0 ds] eqn:Ed; [done|].
  destruct (observeNode e top view (d0 :: ds)) as [ob'|]; [|done].
  destruct (List.find _ _); [done|].
  destruct (addAll _) as [p'|] eqn:Ea; [|done]. destruct (Validate p'); [|done].
  by intros [= <- <-].
Qed.

Lemma elem_of_order p ob w :
  BuildContext e top view = Ok (p, Some ob) ->
  planned e top (ovDiff ob) devices w -> workID e (ovDiff ob) w ∈ order p.
Proof using Hdev Hlink.
  intros [Hob Hadd]%BuildContext_plan Hw.
  destruct (observed_plan ob (modeDirtyOf e (ovTracker ob)) Hob) as (p' & Hp' & _ & Ho & _).
  assert (p' = p) as -> by congruence. rewrite Ho. apply list_elem_of_fmap_2.
  apply elem_of_allWork. by left.
Qed.

(** C23. Building the deployment plan of a node never panics and never yields a
    plan its own validation refuses, whatever the node shows: when the names of
    the devices and of the links of the topology are distinct, the only ways to
    fail are that the node could not be observed, or that a device which the
    observation says must be created has no image. Otherwise every dependency
    of the plan is a step of it, no dependency is of a later stage, following
    dependencies ends, and every device that must be created has an image. *)
Theorem every_built_plan_is_valid :
  match BuildContext e top view with
  | Ok (p, observed) => wfPlan p /\ closed p /\ acyclic p /\ stagesOK p /\
      forall ob d, observed = Some ob -> d ∈ devicesOn top (bdNode e) ->
        edID d ∈ dfCreate (ovDiff ob) -> edImage d <> ""
  | Err (BuildObserve x) => observeNode e top view (devicesOn top (bdNode e)) = Err x
  | Err (BuildNoImage id) =>
      exists ob d, observeNode e top view (devicesOn top (bdNode e)) = Ok ob /\
        d ∈ devicesOn top (bdNode e) /\ edID d = id /\ id ∈ dfCreate (ovDiff ob) /\ edImage d = ""
  | Err (BuildInvalid _) | Err BuildPanic => False
  end.
Proof using Hdev Hlink.
  unfold BuildContext. fold devices. destruct devices as [|d0 ds] eqn:Ed.
  { assert (Validate New = Ok tt) as HV by done. apply (Validate_ok_iff _ wf_New) in HV as (? & ? & ?).
    split_and!; try done. apply wf_New. }
  rewrite <- Ed. destruct (observeNode e top view devices) as [ob|x] eqn:Eob; [|done].
  destruct (List.find _ _) as [d|] eqn:Ef.
  { apply find_some in Ef as [Hd Hc]. apply andb_prop in Hc as [Hin Hi].
    apply bool_decide_eq_true in Hi, Hin. exists ob, d. by rewrite list_elem_of_In. }
  destruct (observed_plan ob (modeDirtyOf e (ovTracker ob)) Eob) as (p & -> & Hwf & _ & _ & HV).
  rewrite HV. apply (Validate_ok_iff _ Hwf) in HV as (? & ? & ?). split_and!; try done.
  intros ob' d [= <-] Hd Hc Hi. eapply find_none in Ef; [|by apply list_elem_of_In].
  by rewrite !bool_decide_true in Ef.
Qed.
End Plans.

(** ** Work that is captured, and namespaces that are built again *)

Section Repairs.
Context (e : Build) (top : ETop) (view : View) (p : Plan) (ob : Observed).
Hypothesis Hdev : NoDup (map edID (etDevices top)).
Hypothesis Hlink : NoDup (map lkID (etLinks top)).
Hypothesis Hbuilt : BuildContext e top view = Ok (p, Some ob).
Let devices := devicesOn top (bdNode e).

(** A step of the plan is work the observation asks for. *)
Lemma order_planned w :
  workID e (ovDiff ob) w ∈ order p -> level w <> 6%nat ->
  exists v, sameWork w v /\ planned e top (ovDiff ob) devices v.
Proof using Hbuilt Hdev Hlink.
  destruct (BuildContext_plan e top view p ob Hbuilt) as [Hob Hadd].
  destruct (observed_plan e top view Hdev Hlink ob (modeDirtyOf e (ovTracker ob)) Hob)
    as (p' & Hp' & _ & Ho & _).
  assert (p' = p) as -> by congruence. rewrite Ho.
  intros (v & Hid & Hv)%list_elem_of_fmap Hm. apply workID_inj in Hid. exists v. split; [done|].
  apply elem_of_allWork in Hv as [Hv|[_ ->]]; [done|]. by destruct w.
Qed.

(** C22. A student's work is captured before anything is done to the device that
    holds it: every device of a student AS that the plan creates, replaces or
    configures again is among the devices whose state has to be captured at
    the destructive boundary. *)
Theorem touched_work_is_captured d :
  d ∈ devicesOn top (bdNode e) -> studentOwned top d = true ->
  "create:" +:+ edID d ∈ order p \/ "configure:" +:+ edID d ∈ order p \/
    edID d ∈ dfRecreate (ovDiff ob) ->
  edID d ∈ DirtyCaptureDevices (ovDiff ob).
Proof using Hbuilt Hdev Hlink.
  intros Hd Hst Htouch. destruct (BuildContext_plan e top view p ob Hbuilt) as [Hob _].
  destruct (observeNode_seen e top view _ ob Hob) as (cs & t0 & t1 & splits & _ & Hs).
  destruct (seen_device e top view Hdev ob _ _ _ _ d Hs Hd) as (o & _ & So & C & R & K & _ & Cap).
  unfold DirtyCaptureDevices. rewrite elem_of_sortStrings, elem_of_elements, Cap.
  apply (sd_capture _ _ _ _ _ _ So); [done|].
  destruct Htouch as [H|[H|H]].
  - left. apply C. destruct (order_planned (WCreate d) H) as ([] & Hv & Hp); simpl in *; try done.
    destruct Hp. by rewrite Hv.
  - right. apply K. destruct (order_planned (WConfigure d) H) as ([] & Hv & Hp); simpl in *; try done.
    destruct Hp. by rewrite Hv.
  - left. by apply (sd_recreate _ _ _ _ _ _ So), R.
Qed.

(** The record a deployment starts from. *)
Lemma replaced_namespace byName t d c n :
  bdRuntime e = true -> bdProves e = true -> trackedNamespace t (edID d) = Some n ->
  Known n = true -> byName !! edContainer d = Some c -> Joinable (ctState c) = true ->
  vwIdentity view c <> Ok n -> namespaceReplaced e view byName t d = true.
Proof using.
  intros Hr Hp Hn Hk Hc Hj Hid. unfold namespaceReplaced, observedIdentity.
  rewrite Hr, Hp, Hn, Hc, Hk, Hj. simpl. destruct (vwIdentity view c) as [now|]; [|done].
  destruct (SameAs now n) eqn:E; [|done]. apply SameAs_true in E as [-> _]. done.
Qed.

(** [d'] is at the other end of a link of [d] inside the node. *)
Definition neighbour (d d' : EDevice) : Prop :=
  exists i l, i ∈ edIfaces d /\ eiLink i = Some l /\ crossing l = false /\
    enNode (otherEnd l d i) = bdNode e /\ enDevice (otherEnd l d i) = edID d'.

Lemma lost_neighbour ds lost d d' :
  d ∈ ds -> edID d ∈ lost -> d' = d \/ neighbour d d' ->
  edID d' ∈ expandLostStateToPeers e ds lost.
Proof using.
  unfold expandLostStateToPeers. intros Hd Hl [->|(i & l & Hi & El & Hc & Hn & Hid)]; [by apply elem_of_union_l|].
  apply elem_of_union_r, elem_of_list_to_set, list_elem_of_bind. exists d. split.
  - apply list_elem_of_bind. exists i. split; [|done]. rewrite El, Hc. cbv zeta. rewrite Hn, Hid.
    rewrite bool_decide_true by done. left.
  - apply elem_of_filter_bool. by rewrite bool_decide_true.
Qed.

(** C21. A container that came back in another network namespace is built again
    and not taken for what was deployed: when a running container is not in the
    namespace its device was recorded in, the plan creates the device, wires
    again every link that ends at it and configures it, and configures every
    device of the node at the other end of one of its links, whose half of the
    pair went with it; each with its readiness gate. *)
Theorem replaced_namespace_is_rebuilt cs t0 d c n :
  bdRuntime e = true -> bdProves e = true ->
  vwContainers view = Ok cs ->
  loadObservation (vwFile view) (etName top) (bdNode e) = Ok t0 ->
  d ∈ devicesOn top (bdNode e) -> byNameOf cs !! edContainer d = Some c ->
  Joinable (ctState c) = true -> trackedNamespace t0 (edID d) = Some n -> Known n = true ->
  vwIdentity view c <> Ok n ->
  "create:" +:+ edID d ∈ order p /\
  (forall l, l ∈ nodeLinks e top ->
     (enNode (lkA l) = bdNode e /\ enDevice (lkA l) = edID d) \/
     (enNode (lkB l) = bdNode e /\ enDevice (lkB l) = edID d) -> "wire:" +:+ lkID l ∈ order p) /\
  (forall d', d' ∈ devicesOn top (bdNode e) ->
     d' = d \/ neighbour d d' ->
     "configure:" +:+ edID d' ∈ order p /\
     (hasReady e d' = true -> "ready:" +:+ edID d' ∈ order p)).
Proof using Hbuilt Hdev Hlink.
  intros Hr Hpr Hcs Ht0 Hd Hc Hj Hn Hk Hid.
  destruct (BuildContext_plan e top view p ob Hbuilt) as [Hob _].
  destruct (observeNode_seen e top view _ ob Hob) as (cs' & t0' & t1 & splits & Hcs' & Hs).
  unfold containersOf in Hcs'. rewrite Hr, Hcs in Hcs'. injection Hcs' as <-.
  assert (t0' = t0) as -> by (pose proof (sn_load _ _ _ _ _ _ _ _ _ Hs) as H; unfold onDisk in H; congruence).
  set (R := replacedDevices e view (byNameOf cs) t1 (devicesOn top (bdNode e)) splits).
  assert (edID d ∈ R) as HR.
  { apply elem_of_union_r, elem_of_list_to_set, elem_of_map_filter. exists d. split_and!; [done|done|].
    eapply replaced_namespace; try done. by apply (ext_namespace _ _ (sn_loaded _ _ _ _ _ _ _ _ _ Hs)). }
  assert (forall w, planned e top (ovDiff ob) devices w -> workID e (ovDiff ob) w ∈ order p) as Hin
    by (intros w; by apply (elem_of_order e top view)).
  destruct (seen_device e top view Hdev ob _ _ _ _ d Hs Hd) as (o & Ho & _ & C & _).
  assert (edID d ∈ dfCreate (ovDiff ob)) as Hcr.
  { apply C. by apply (sn_replaced _ _ _ _ _ _ _ _ _ Hs (d, o)). }
  split_and!.
  - by apply (Hin (WCreate d)).
  - intros l Hl Hend. apply (Hin (WWire l)). split; [done|].
    destruct (sn_links _ _ _ _ _ _ _ _ _ Hs l Hl) as (h & _ & _ & Hw). apply Hw.
    unfold endpointCreate, endCreated. apply orb_true_iff.
    destruct Hend as [[-> ->]|[-> ->]]; [left|right]; by rewrite !bool_decide_true.
  - intros d' Hd' Hpeer.
    destruct (seen_device e top view Hdev ob _ _ _ _ d' Hs Hd') as (o' & Ho' & So & _ & _ & K & Rd & _).
    assert (doConfigure o' = true) as Hconf.
    { apply (sn_repair _ _ _ _ _ _ _ _ _ Hs (d', o') Ho'). rewrite (sn_lost _ _ _ _ _ _ _ _ _ Hs).
      by apply (lost_neighbour _ _ d). }
    split; [apply (Hin (WConfigure d')); split; [done|by apply K]|].
    intros Hh. apply (Hin (WReady d')). split_and!; [done| |done]. apply Rd.
    by apply (sd_ready _ _ _ _ _ _ So).
Qed.
End Repairs.
