(* ===== verification/Redeploy.v ===== *)
(** * The deployment engine: a deployment that is repeated

    The steps of a plan mark what they did in the observation record
    ([Observe.runWorks]). Theorems: when every step of a plan has run, in any
    order its dependencies allow, the record on disk describes the desired
    state of the node; and a node that shows what its record says has an
    empty plan. *)

From stdpp Require Import base gmap strings list fin_maps sorting.
From Stdlib Require Import ZArith Lia.
From S2P Require Import Prelude Text Model Coordination Plan Engine Preserve Restore Replace Observe.
From S2P Require Import EngineSafety.

Local Open Scope string_scope.
Local Open Scope list_scope.

(** ** What one step leaves *)

(** The state a step records of a device, and the hash it records of a link. *)
Definition deviceMark (ob : Observed) (w : Work) (id : string) : option observedDeviceState :=
  match w with
  | WCreate d => if decide (edID d = id) then Some (createdState (desiredOf ob d)) else None
  | WConfigure d => if decide (edID d = id) then Some (configuredState (desiredOf ob d)) else None
  | WReady d => if decide (edID d = id) then Some (observedFull (desiredOf ob d)) else None
  | _ => None
  end.
Definition linkMark (e : Build) (w : Work) (id : string) : option string :=
  match w with
  | WWire l => if decide (lkID l = id)
               then match bdWireHash e l with Ok h => Some h | Err _ => None end else None
  | _ => None
  end.
Definition modeMark (e : Build) (w : Work) : option string :=
  match w with
  | WMode _ => if decide (bdModeKey e = "") then None else Some (bdModeKey e)
  | _ => None
  end.
Definition over {A} (new old : option A) : option A :=
  match new with Some a => Some a | None => old end.

Section Marks.
Context (e : Build) (top : ETop) (du : During) (ob : Observed).

(** A mark says so when it changed the record, and keeps whose record it is. *)
Definition honest (mark : observationTracker -> observationTracker) : Prop :=
  forall t, (tkChanged (mark t) = false -> mark t = t) /\ (ours e top t -> ours e top (mark t)).

Lemma marked_disk write mark s s' :
  honest mark -> onDisk e top s.1 s.2 -> marked write mark s = Ok s' ->
  onDisk e top s'.1 s'.2 /\ tkState s'.2 = tkState (mark s.2).
Proof using.
  intros Hm Hd. unfold marked. destruct (saveLocked write s.1 (mark s.2)) as [[file t] err] eqn:E.
  intros [-> [= <-]]%check_Ok. simpl. destruct (Hm s.2) as [Hsame Hours].
  apply (saveLocked_disk e top write s.1 (mark s.2)); [|by apply Hours, (onDisk_ours e top s.1)|done].
  intros Hc. by rewrite (Hsame Hc).
Qed.

Lemma honest_device id v : honest (markDevice id v).
Proof using. intros t. by split. Qed.
Lemma honest_link id v : honest (markLink id v).
Proof using. intros t. by split. Qed.
Lemma honest_namespace id v : honest (markNamespace id v).
Proof using. intros t. unfold markNamespace. case_decide; by split. Qed.
Lemma honest_mode key : honest (markMode key).
Proof using. intros t. unfold markMode. destruct (_ || _); by split. Qed.
Hint Resolve honest_device honest_link honest_namespace honest_mode : core.

(** What a step that did its work leaves in the record. *)
Definition leaves (w : Work) (t t' : observationTracker) : Prop :=
  (forall id, trackedDevice t' id = over (deviceMark ob w id) (trackedDevice t id)) /\
  (forall id, trackedLink t' id = over (linkMark e w id) (trackedLink t id)) /\
  Some (noMode (tkState t')) = over (modeMark e w) (Some (noMode (tkState t))).

Lemma markDevice_tracked id v t id' :
  trackedDevice (markDevice id v t) id' = if decide (id = id') then Some v else trackedDevice t id'.
Proof using. apply lookup_insert. Qed.
Lemma markLink_tracked id v t id' :
  trackedLink (markLink id v t) id' = if decide (id = id') then Some v else trackedLink t id'.
Proof using. apply lookup_insert. Qed.

Lemma tracked_state t t' : tkState t' = tkState t ->
  (forall id, trackedDevice t' id = trackedDevice t id) /\
  (forall id, trackedLink t' id = trackedLink t id) /\
  noMode (tkState t') = noMode (tkState t).
Proof using. unfold trackedDevice, trackedLink. by intros ->. Qed.

Lemma device_leaves w v d s s' :
  (forall id, deviceMark ob w id = if decide (edID d = id) then Some v else None) ->
  (forall id, linkMark e w id = None) -> modeMark e w = None ->
  tkState s' = tkState (markDevice (edID d) v s) -> leaves w s s'.
Proof using.
  intros Hw Hl Hm (A & B & C)%tracked_state. split_and!.
  - intros id. rewrite A, Hw, markDevice_tracked. by case_decide.
  - intros id. by rewrite B, Hl.
  - by rewrite C, Hm.
Qed.

Lemma recordDeviceNamespace_keeps d s s' :
  onDisk e top s.1 s.2 -> recordDeviceNamespace e du d s = Ok s' ->
  onDisk e top s'.1 s'.2 /\ (forall id, trackedDevice s'.2 id = trackedDevice s.2 id) /\
  (forall id, trackedLink s'.2 id = trackedLink s.2 id) /\
  noMode (tkState s'.2) = noMode (tkState s.2).
Proof using.
  intros Hd. unfold recordDeviceNamespace. destruct (_ || _); [by intros [= <-]|].
  intros (n & _ & H)%andThen_Ok. apply (marked_disk _ _ s) in H as [Hd' Hst]; [|auto|done].
  split; [done|]. apply tracked_state in Hst as (A & B & C). setoid_rewrite A. setoid_rewrite B.
  rewrite C. unfold markNamespace. by case_decide.
Qed.

Lemma recorded_leaves w s s' :
  onDisk e top s.1 s.2 -> recorded e du ob w s = Ok s' ->
  onDisk e top s'.1 s'.2 /\ leaves w s.2 s'.2.
Proof using.
  intros Hd. destruct w as [i|i|d|l|d|d|ns]; simpl.
  - by intros [= <-].
  - by intros [= <-].
  - intros H. apply (marked_disk _ _ s) in H as [Hd' Hst]; [|auto|done]. split; [done|].
    by eapply device_leaves.
  - intros (h & Eh & H)%andThen_Ok. apply (marked_disk _ _ s) in H as [Hd' Hst]; [|auto|done].
    split; [done|]. apply tracked_state in Hst as (A & B & C). split_and!; [done| |simpl; by rewrite C].
    intros id. rewrite B, markLink_tracked. simpl. rewrite Eh. by case_decide.
  - intros (s1 & H1 & H)%andThen_Ok.
    destruct (recordDeviceNamespace_keeps d s s1 Hd H1) as (Hd1 & A & B & C).
    apply (marked_disk _ _ s1) in H as [Hd' Hst]; [|auto|done]. split; [done|].
    destruct (device_leaves (WConfigure d) (configuredState (desiredOf ob d)) d s1.2 s'.2)
      as (D & L & M); [done|done|done|done|].
    split_and!; [|intros id; by rewrite L, B|by rewrite M, C]. intros id. by rewrite D, A.
  - intros H. apply (marked_disk _ _ s) in H as [Hd' Hst]; [|auto|done]. split; [done|].
    by eapply device_leaves.
  - case_bool_decide as Hk.
    { intros [= <-]. split; [done|]. split_and!; [done|done|]. simpl. by rewrite decide_True. }
    intros H. apply (marked_disk _ _ s) in H as [Hd' Hst]; [|auto|done]. split; [done|].
    apply tracked_state in Hst as (A & B & C). unfold leaves. setoid_rewrite A. setoid_rewrite B.
    rewrite C. simpl. rewrite decide_False by done. unfold markMode.
    rewrite bool_decide_false by done. simpl. case_bool_decide; (split_and!; [done|done|simpl; congruence]).
Qed.

(** ** The steps of a plan *)

Lemma runWorks_app a b s :
  runWorks e du ob (a ++ b) s = andThen (runWorks e du ob a s) (runWorks e du ob b).
Proof using.
  revert s. induction a as [|w a IH]; intros s; simpl; [done|].
  destruct (runWork e du ob w s); simpl; [apply IH|done].
Qed.

Lemma runWorks_cons w l s s' :
  onDisk e top s.1 s.2 -> runWorks e du ob (w :: l) s = Ok s' ->
  exists s1, onDisk e top s1.1 s1.2 /\ leaves w s.2 s1.2 /\ runWorks e du ob l s1 = Ok s'.
Proof using.
  intros Hd. simpl. intros (s1 & H1 & H)%andThen_Ok. exists s1.
  unfold runWork in H1. apply check_Ok in H1 as [_ H1].
  destruct (recorded_leaves w s s1 Hd H1). by split_and!.
Qed.

Lemma runWorks_keeps l s s' :
  onDisk e top s.1 s.2 -> runWorks e du ob l s = Ok s' ->
  onDisk e top s'.1 s'.2 /\
  (forall id, (forall w, w ∈ l -> deviceMark ob w id = None) ->
     trackedDevice s'.2 id = trackedDevice s.2 id) /\
  (forall id, (forall w, w ∈ l -> linkMark e w id = None) ->
     trackedLink s'.2 id = trackedLink s.2 id) /\
  ((forall w, w ∈ l -> modeMark e w = None) -> noMode (tkState s'.2) = noMode (tkState s.2)).
Proof using.
  revert s. induction l as [|w l IH]; intros s Hd H; [by injection H as <-|].
  destruct (runWorks_cons w l s s' Hd H) as (s1 & Hd1 & (D & L & M) & H1).
  destruct (IH s1 Hd1 H1) as (Hd' & D' & L' & M'). split_and!; [done|..].
  - intros id Hw. rewrite D'; [|intros v Hv; apply Hw; by right].
    rewrite D, (Hw w); [done|left].
  - intros id Hw. rewrite L'; [|intros v Hv; apply Hw; by right].
    rewrite L, (Hw w); [done|left].
  - intros Hw. rewrite M'; [|intros v Hv; apply Hw; by right].
    rewrite (Hw w) in M; [by injection M|left].
Qed.

(** What a step marked last stays. *)
Lemma runWorks_last pre w post s s' :
  onDisk e top s.1 s.2 -> runWorks e du ob (pre ++ w :: post) s = Ok s' ->
  (forall id v, deviceMark ob w id = Some v -> (forall w', w' ∈ post -> deviceMark ob w' id = None) ->
     trackedDevice s'.2 id = Some v) /\
  (forall id v, linkMark e w id = Some v -> (forall w', w' ∈ post -> linkMark e w' id = None) ->
     trackedLink s'.2 id = Some v) /\
  (forall v, modeMark e w = Some v -> (forall w', w' ∈ post -> modeMark e w' = None) ->
     noMode (tkState s'.2) = v).
Proof using.
  intros Hd. rewrite runWorks_app. intros (s1 & H1 & H)%andThen_Ok.
  destruct (runWorks_keeps pre s s1 Hd H1) as [Hd1 _].
  destruct (runWorks_cons w post s1 s' Hd1 H) as (s2 & Hd2 & (D & L & M) & H2).
  destruct (runWorks_keeps post s2 s' Hd2 H2) as (_ & D' & L' & M'). split_and!.
  - intros id v Hv Hp. by rewrite (D' id Hp), D, Hv.
  - intros id v Hv Hp. by rewrite (L' id Hp), L, Hv.
  - intros v Hv Hp. rewrite (M' Hp). rewrite Hv in M. by injection M.
Qed.
End Marks.

(** ** A plan that ran to its end *)

(** Every step runs after the steps it needs. *)
Definition respects (e : Build) (diff : BuildDiff) (run : list Work) : Prop :=
  forall pre w post, run = pre ++ w :: post ->
    forall n, n ∈ sNeeds (stepOf e diff w) -> n ∈ map (workID e diff) pre.

(** The record describes the desired state of the node. *)
Record converged (e : Build) (top : ETop) (t : observationTracker) : Prop := {
  cv_desired d : d ∈ devicesOn top (bdNode e) -> exists st, desiredState e d = Ok st;
  cv_device d st : d ∈ devicesOn top (bdNode e) -> desiredState e d = Ok st -> renders e = true ->
    exists prev, trackedDevice t (edID d) = Some prev /\
      hashesDiffer prev (dsRendered st) = false /\
      (hasReady e d = true -> obReady prev = rdReady (dsRendered st));
  cv_link l : l ∈ nodeLinks e top ->
    exists h, bdWireHash e l = Ok h /\ trackedLink t (lkID l) = Some h;
  cv_mode : modeDirtyOf e t = false
}.

Lemma hashesDiffer_same st r :
  obConfig st = rdConfig r -> obFile st = rdFile r -> obCommand st = rdCommand r ->
  hashesDiffer st r = false.
Proof. intros A B C. unfold hashesDiffer. by rewrite A, B, C, !bool_decide_true. Qed.

Section Completed.
Context (e : Build) (top : ETop) (view : View) (p : Plan) (ob : Observed).
Context (du : During) (run : list Work) (file : ObservationFile) (t : observationTracker).
Hypothesis Hdev : NoDup (map edID (etDevices top)).
Hypothesis Hlink : NoDup (map lkID (etLinks top)).
Hypothesis Hwrites : bdReadOnly e = false.
Hypothesis Hbuilt : BuildContext e top view = Ok (p, Some ob).
Hypothesis Hrun : run ≡ₚ allWork e top (ovDiff ob) (devicesOn top (bdNode e))
                          (modeDirtyOf e (ovTracker ob)).
Hypothesis Horder : respects e (ovDiff ob) run.
Hypothesis Hdone : runWorks e du ob run (ovFile ob, ovTracker ob) = Ok (file, t).
Let devices := devicesOn top (bdNode e).
Let diff := ovDiff ob.

Lemma run_planned w : planned e top diff devices w -> w ∈ run.
Proof using Hrun. intros Hw. rewrite Hrun. apply elem_of_allWork. by left. Qed.
Lemma planned_run w : w ∈ run -> level w <> 6%nat -> planned e top diff devices w.
Proof using Hrun.
  intros Hw Hl. rewrite Hrun in Hw. apply elem_of_allWork in Hw as [Hw|[_ ->]]; done.
Qed.

Lemma run_seen :
  exists cs t0 t1 splits, seenNode e top view devices ob (byNameOf cs) t0 t1 splits.
Proof using Hbuilt.
  destruct (BuildContext_plan e top view p ob Hbuilt) as [Hob _].
  destruct (observeNode_seen e top view _ ob Hob) as (cs & t0 & t1 & splits & _ & Hs). eauto.
Qed.

Lemma run_disk : onDisk e top (ovFile ob) (ovTracker ob).
Proof using Hbuilt Hwrites.
  destruct run_seen as (cs & t0 & t1 & splits & Hs). by apply (sn_disk _ _ _ _ _ _ _ _ _ Hs).
Qed.

Lemma run_NoDup : NoDup (map (workID e diff) run).
Proof using Hrun Hdev Hlink.
  rewrite Hrun. apply NoDup_workIDs; [by apply devices_NoDup|by apply links_NoDup].
Qed.

(** What has run before a step does not run after it. *)
Lemma not_again pre w post w' v :
  run = pre ++ w :: post -> w' ∈ post -> v ∈ pre \/ v = w -> ~ sameWork w' v.
Proof using Hrun Hdev Hlink.
  intros Heq Hin Hv Hs. pose proof run_NoDup as Hnd. rewrite Heq in Hnd.
  change (w :: post) with ([w] ++ post) in Hnd. rewrite app_assoc, map_app in Hnd.
  apply NoDup_app in Hnd as (_ & Hnd & _). apply (Hnd (workID e diff w')).
  - replace (workID e diff w') with (workID e diff v); [|symmetry; by apply workID_inj].
    apply list_elem_of_fmap_2. rewrite elem_of_app, list_elem_of_singleton. done.
  - by apply list_elem_of_fmap_2.
Qed.

(** A step that another one needs ran before it. *)
Lemma needed_before pre w post n :
  run = pre ++ w :: post -> workID e diff n ∈ sNeeds (stepOf e diff w) ->
  exists v, v ∈ pre /\ sameWork n v.
Proof using Horder.
  intros Heq Hn. destruct (list_elem_of_fmap_1 _ _ _ (Horder _ _ _ Heq _ Hn)) as (v & Hid & Hv).
  exists v. split; [done|]. by apply (workID_inj e diff).
Qed.

Lemma create_before_configure d : edID d ∈ dfCreate diff ->
  workID e diff (WCreate d) ∈ sNeeds (stepOf e diff (WConfigure d)).
Proof using.
  intros Hc. simpl. unfold configureNeeds. rewrite elem_of_dedup, elem_of_app, bool_decide_true by done.
  left. left.
Qed.
Lemma configure_before_ready d : edID d ∈ dfConfigure diff ->
  workID e diff (WConfigure d) ∈ sNeeds (stepOf e diff (WReady d)).
Proof using. intros Hc. simpl. unfold readyNeeds. rewrite bool_decide_true by done. left. Qed.

(** The desired state that the steps record. *)
Lemma desiredOf_state d : d ∈ devices -> desiredState e d = Ok (desiredOf ob d).
Proof using Hbuilt Hdev.
  intros Hd. destruct run_seen as (cs & t0 & t1 & splits & Hs).
  destruct (seen_device e top view Hdev ob _ _ _ _ d Hs Hd) as (o & Ho & So & _).
  unfold desiredOf. destruct (List.find _ _) as [[d' o']|] eqn:Ef.
  - apply find_some in Ef as [Hin Hid]. apply list_elem_of_In in Hin.
    apply bool_decide_eq_true in Hid. simpl in Hid.
    pose proof (sn_devices _ _ _ _ _ _ _ _ _ Hs) as Hm.
    assert (d' ∈ devices) as Hd'
      by (rewrite <- Hm; apply (list_elem_of_fmap_2 fst (ovDevices ob) (d', o') Hin)).
    assert (d' = d) as ->
      by (apply (NoDup_map_eq edID devices); [by apply devices_NoDup|done..]).
    pose proof (sn_sound _ _ _ _ _ _ _ _ _ Hs) as S. rewrite Forall_forall in S.
    apply (sd_state _ _ _ _ _ _ (S _ Hin)).
  - apply list_elem_of_In in Ho. pose proof (find_none _ _ Ef _ Ho) as H. simpl in H.
    by rewrite bool_decide_true in H.
Qed.

Lemma same_device d d' : d ∈ devices -> d' ∈ devices -> edID d' = edID d -> d' = d.
Proof using Hdev.
  intros Hd Hd' Hid. apply (NoDup_map_eq edID devices); [by apply devices_NoDup|done..].
Qed.

Lemma deviceMark_cases w d :
  w ∈ run -> d ∈ devices -> deviceMark ob w (edID d) <> None ->
  (w = WCreate d /\ edID d ∈ dfCreate diff) \/ (w = WConfigure d /\ edID d ∈ dfConfigure diff) \/
  (w = WReady d /\ edID d ∈ dfReady diff /\ hasReady e d = true).
Proof using Hrun Hdev.
  intros Hw Hd Hm.
  destruct w as [| |d'| |d'|d'|]; simpl in Hm; try done;
    (case_decide as Hid; [|done]);
    pose proof (planned_run _ Hw ltac:(done)) as Hp; simpl in Hp;
    destruct Hp as [Hd' Hp]; pose proof (same_device d d' Hd Hd' Hid) as ->; auto.
Qed.

Lemma sameWork_refl w : sameWork w w.
Proof using. by destruct w. Qed.

(** The last mark of a device that is made ready, and of one that is not. *)
Lemma ready_is_last pre post d w' :
  d ∈ devices -> renders e = true -> run = pre ++ WReady d :: post -> w' ∈ post ->
  (edID d ∈ dfCreate diff -> edID d ∈ dfConfigure diff) -> deviceMark ob w' (edID d) = None.
Proof using Hrun Horder Hdev Hlink.
  intros Hd Hr Heq Hw' Hcc. destruct (deviceMark ob w' (edID d)) eqn:E; [|done]. exfalso.
  assert (w' ∈ run) as Hin by (rewrite Heq; apply elem_of_app; right; by right).
  destruct (deviceMark_cases w' d Hin Hd ltac:(congruence)) as [[-> Hc]|[[-> Hc]|[-> _]]].
  - destruct (needed_before pre _ post (WConfigure d) Heq (configure_before_ready d (Hcc Hc)))
      as ([] & Hv & Hsame); simpl in Hsame; try done. rename d0 into d1.
    apply list_elem_of_split in Hv as (pre1 & pre2 & ->).
    assert (d1 = d) as ->.
    { apply same_device; [done| |done].
      assert (WConfigure d1 ∈ run) as H
        by (rewrite Heq; apply elem_of_app; left; apply elem_of_app; right; left).
      by apply planned_run in H as [H _]. }
    assert (run = pre1 ++ WConfigure d :: pre2 ++ WReady d :: post) as Heq'
      by (rewrite Heq, <- app_assoc; done).
    destruct (needed_before pre1 _ _ (WCreate d) Heq' (create_before_configure d Hc)) as (v & Hv & Hs).
    apply (not_again _ _ _ (WCreate d) v Heq Hw'); [|done]. left. apply elem_of_app. by left.
  - destruct (needed_before pre _ post (WConfigure d) Heq (configure_before_ready d Hc)) as (v & Hv & Hs).
    apply (not_again _ _ _ (WConfigure d) v Heq Hw'); [by left|done].
  - apply (not_again _ _ _ (WReady d) (WReady d) Heq Hw'); [by right|apply sameWork_refl].
Qed.

Lemma configure_is_last pre post d w' :
  d ∈ devices -> run = pre ++ WConfigure d :: post -> w' ∈ post ->
  ~ (edID d ∈ dfReady diff /\ hasReady e d = true) -> deviceMark ob w' (edID d) = None.
Proof using Hrun Horder Hdev Hlink.
  intros Hd Heq Hw' Hnr. destruct (deviceMark ob w' (edID d)) eqn:E; [|done]. exfalso.
  assert (w' ∈ run) as Hin by (rewrite Heq; apply elem_of_app; right; by right).
  destruct (deviceMark_cases w' d Hin Hd ltac:(congruence)) as [[-> Hc]|[[-> Hc]|[-> Hc]]]; [..|done].
  - destruct (needed_before pre _ post (WCreate d) Heq (create_before_configure d Hc)) as (v & Hv & Hs).
    apply (not_again _ _ _ (WCreate d) v Heq Hw'); [by left|done].
  - apply (not_again _ _ _ (WConfigure d) (WConfigure d) Heq Hw'); [by right|apply sameWork_refl].
Qed.

Lemma device_converges d :
  d ∈ devices -> renders e = true ->
  exists prev, trackedDevice t (edID d) = Some prev /\
    hashesDiffer prev (dsRendered (desiredOf ob d)) = false /\
    (hasReady e d = true -> obReady prev = rdReady (dsRendered (desiredOf ob d))).
Proof using Hdone Hrun Horder Hdev Hlink Hbuilt Hwrites.
  intros Hd Hr. destruct run_seen as (cs & t0 & t1 & splits & Hs).
  destruct (seen_device e top view Hdev ob _ _ _ _ d Hs Hd) as (o & _ & So & C & _ & K & Rd & _).
  assert (doState o = desiredOf ob d) as Hst.
  { pose proof (desiredOf_state d Hd) as H. rewrite (sd_state _ _ _ _ _ _ So) in H. by injection H. }
  assert (doCreate o = true -> doConfigure o = true) as Hcc.
  { intros Hc. destruct (doConfigure o) eqn:E; [done|].
    destruct (sd_clean _ _ _ _ _ _ So Hr E) as [H _]. congruence. }
  pose proof Hdone as Hdone'.
  destruct (decide (doReady o = true /\ hasReady e d = true)) as [[Ho Hh]|Hn].
  { assert (WReady d ∈ run) as Hin by (by apply run_planned; split_and!; [|apply Rd|]).
    apply list_elem_of_split in Hin as (pre & post & Heq). rewrite Heq in Hdone'.
    destruct (runWorks_last e top du ob pre (WReady d) post (ovFile ob, ovTracker ob) (file, t) run_disk Hdone') as (L & _).
    exists (observedFull (desiredOf ob d)). split_and!; [|by apply hashesDiffer_same|done].
    apply L; [simpl; by rewrite decide_True|]. intros w' Hw'.
    apply (ready_is_last pre post); try done. unfold diff. by rewrite C, K. }
  destruct (doConfigure o) eqn:Ec.
  - assert (WConfigure d ∈ run) as Hin by (by apply run_planned; split; [|apply K]).
    apply list_elem_of_split in Hin as (pre & post & Heq). rewrite Heq in Hdone'.
    destruct (runWorks_last e top du ob pre (WConfigure d) post (ovFile ob, ovTracker ob) (file, t) run_disk Hdone') as (L & _).
    exists (configuredState (desiredOf ob d)). split_and!; [|by apply hashesDiffer_same|].
    + apply L; [simpl; by rewrite decide_True|]. intros w' Hw'.
      apply (configure_is_last pre post); try done. unfold diff. by rewrite Rd.
    + intros Hh. destruct Hn. split; [|done]. by apply (sd_ready _ _ _ _ _ _ So).
  - destruct (sd_clean _ _ _ _ _ _ So Hr Ec) as (Hnc & prev & Hp & Hd1 & Hd2).
    destruct (runWorks_keeps e top du ob run (ovFile ob, ovTracker ob) (file, t) run_disk Hdone) as (_ & D & _).
    exists prev. rewrite <- Hst. split_and!; [|done|].
    + rewrite D; [done|]. intros w Hw. destruct (deviceMark ob w (edID d)) eqn:E; [|done]. exfalso.
      destruct (deviceMark_cases w d Hw Hd ltac:(congruence)) as [[_ H]|[[_ H]|[_ [H Hh]]]].
      * apply C in H. congruence.
      * apply K in H. congruence.
      * apply Hn. by rewrite <- Rd.
    + intros Hh. apply Hd2; [done|]. destruct (doReady o); [|done]. by destruct Hn.
Qed.

Lemma link_converges l : l ∈ nodeLinks e top ->
  exists h, bdWireHash e l = Ok h /\ trackedLink t (lkID l) = Some h.
Proof using Hdone Hrun Hdev Hlink Hbuilt Hwrites.
  intros Hl. destruct run_seen as (cs & t0 & t1 & splits & Hs).
  destruct (sn_links _ _ _ _ _ _ _ _ _ Hs l Hl) as (h & Hh & Hkeep & _). exists h. split; [done|].
  assert (forall w, w ∈ run -> linkMark e w (lkID l) <> None ->
            sameWork w (WWire l) /\ lkID l ∈ dfWire diff) as Hcases.
  { intros w Hw Hm. destruct w; simpl in Hm; try done. case_decide as Hid; [|done].
    pose proof (planned_run _ Hw ltac:(done)) as [_ Hp]. simpl. by rewrite <- Hid. }
  destruct (decide (lkID l ∈ dfWire diff)) as [Hin|Hin].
  - assert (WWire l ∈ run) as Hw by (by apply run_planned).
    apply list_elem_of_split in Hw as (pre & post & Heq). pose proof Hdone as Hdone'.
    rewrite Heq in Hdone'.
    destruct (runWorks_last e top du ob pre (WWire l) post (ovFile ob, ovTracker ob) (file, t) run_disk Hdone') as (_ & L & _).
    apply L; [simpl; by rewrite decide_True, Hh|]. intros w' Hw'.
    destruct (linkMark e w' (lkID l)) eqn:E; [|done]. exfalso.
    apply (not_again _ _ _ w' (WWire l) Heq Hw'); [by right|]. apply Hcases; [|congruence].
    rewrite Heq. apply elem_of_app. right. by right.
  - destruct (runWorks_keeps e top du ob run (ovFile ob, ovTracker ob) (file, t) run_disk Hdone) as (_ & _ & L & _).
    rewrite L; [by apply Hkeep|]. intros w Hw. destruct (linkMark e w (lkID l)) eqn:E; [|done].
    destruct (Hcases w Hw ltac:(congruence)). done.
Qed.

Lemma mode_converges : modeDirtyOf e t = false.
Proof using Hdone Hrun Hdev Hlink Hbuilt Hwrites.
  pose proof (bool_dec (modeDirtyOf e (ovTracker ob)) true) as [Em|Em%not_true_is_false].
  - assert (WMode (map (workID e diff) (workList e top diff devices)) ∈ run) as Hw.
    { rewrite Hrun. apply elem_of_allWork. by right. }
    apply list_elem_of_split in Hw as (pre & post & Heq). pose proof Hdone as Hdone'.
    rewrite Heq in Hdone'.
    destruct (runWorks_last e top du ob pre _ post (ovFile ob, ovTracker ob) (file, t) run_disk Hdone') as (_ & _ & M).
    unfold modeDirtyOf in *. apply andb_prop in Em as [Hk _]. rewrite Hk.
    apply negb_true_iff, bool_decide_eq_false in Hk.
    assert (noMode (tkState t) = bdModeKey e) as Hm; [|simpl; by rewrite Hm, bool_decide_true].
    apply M; [simpl; by rewrite decide_False|]. intros w' Hw'. destruct w'; try done.
    exfalso. by apply (not_again _ _ _ _ _ Heq Hw' (or_intror eq_refl)).
  - destruct (runWorks_keeps e top du ob run (ovFile ob, ovTracker ob) (file, t) run_disk Hdone) as (_ & _ & _ & M).
    unfold modeDirtyOf in *. simpl in M. rewrite M; [done|]. intros w Hw. rewrite Hrun in Hw.
    apply elem_of_allWork in Hw as [Hw|[? _]]; [by destruct w|congruence].
Qed.

Lemma run_converges : converged e top t /\ onDisk e top file t.
Proof using Hdone Hrun Horder Hdev Hlink Hbuilt Hwrites.
  split; [split|].
  - intros d Hd. exists (desiredOf ob d). by apply desiredOf_state.
  - intros d st Hd Hst Hr. rewrite (desiredOf_state d Hd) in Hst. injection Hst as <-.
    by apply device_converges.
  - apply link_converges.
  - apply mode_converges.
  - by destruct (runWorks_keeps e top du ob run (ovFile ob, ovTracker ob) (file, t) run_disk Hdone).
Qed.
End Completed.

(** ** A node that shows what its record says *)

(** The containers of a device run with the specification it wants, in the
    namespace on record if there is one, the control plane beside it. *)
Record deviceUp (e : Build) (view : View) (t : observationTracker)
    (byName : gmap string Container) (d : EDevice) (st : desiredDeviceState) : Prop := {
  up_container : exists c n,
    byName !! edContainer d = Some c /\ Joinable (ctState c) = true /\
    label c LabelSpec = fsSpec (dsSpecs st) /\
    label c LabelRuntimeContract = runtimeSpecContractVersion /\
    vwIdentity view c = Ok n /\ Known n = true /\
    (forall m, trackedNamespace t (edID d) = Some m -> Known m = true -> m = n) /\
    (forall want, fsControl (dsSpecs st) = Some want ->
       exists k, byName !! FRRControlContainer d = Some k /\ Joinable (ctState k) = true /\
         label k LabelSpec = want /\
         label k LabelRuntimeContract = runtimeSpecContractVersion /\ vwIdentity view k = Ok n)
}.

(** The node as a deployment left it, looked at again. *)
Record showsDeployed (e : Build) (top : ETop) (view : View) (t : observationTracker) : Prop := {
  sh_containers : exists cs, vwContainers view = Ok cs /\
    forall d st, d ∈ devicesOn top (bdNode e) -> desiredState e d = Ok st ->
      deviceUp e view t (byNameOf cs) d st;
  sh_overlays : overlaysDirty e top view = Ok ∅;
  sh_probes d : vwProbe view d = None;
  sh_context k : vwCancelled view k = None;
  sh_write : vwWrite view = None
}.

Lemma Joinable_not_absent s : Joinable s = true -> s <> StateAbsent.
Proof. intros H ->. by vm_compute in H. Qed.

Lemma containerOf_Some (byName : gmap string Container) name c :
  byName !! name = Some c -> containerOf byName name = c.
Proof. intros H. unfold containerOf, lookup_or. by rewrite H. Qed.

Section Again.
Context (e : Build) (top : ETop) (view : View) (t : observationTracker).
Hypothesis Hrt : bdRuntime e = true.
Hypothesis Hpr : bdProves e = true.
Hypothesis Hrec : bdRecovery e = false.
Hypothesis Hcv : converged e top t.
Hypothesis Hsh : showsDeployed e top view t.
Let devices := devicesOn top (bdNode e).

Lemma up_not_dirty byName d st : deviceUp e view t byName d st -> specDirty e byName d st = false.
Proof using Hrt Hpr Hrec Hcv Hsh.
  intros [(c & n & Hc & Hj & Hs & Hk & _ & _ & _ & Hctl)].
  unfold specDirty, primaryRecreate, controlDirty. rewrite (containerOf_Some _ _ _ Hc).
  rewrite Hc, Hj, Hs, Hk, Hrec.
  rewrite (bool_decide_false (Some c = None)) by done.
  rewrite (bool_decide_false (ctState c = StateAbsent)) by (by apply Joinable_not_absent).
  rewrite !bool_decide_true by done. simpl.
  destruct (fsControl (dsSpecs st)) as [want|]; [|done].
  destruct (Hctl want eq_refl) as (k & Hk1 & Hk2 & Hk3 & Hk4 & _).
  rewrite (containerOf_Some _ _ _ Hk1), Hk1, Hk2, Hk3, Hk4. rewrite (bool_decide_false (Some k = None)) by done.
  by rewrite !bool_decide_true.
Qed.

Definition quiet (st : desiredDeviceState) : deviceObservation :=
  mkObservation st false false false false false (bdProbes e) false.

Lemma observeDevice_quiet byName d st t1 :
  d ∈ devices -> desiredState e d = Ok st -> deviceUp e view t byName d st -> extends t t1 ->
  exists t2, observeDevice e top byName false d t1 = Ok (quiet st, t2) /\ extends t1 t2 /\
    noNamespaces (tkState t2) = noNamespaces (tkState t1).
Proof using Hrt Hpr Hrec Hcv Hsh.
  intros Hd Hst Hup X. unfold observeDevice. rewrite Hst, (up_not_dirty _ _ _ Hup).
  match goal with |- context [if ?b then bootstrapDevice ?i ?v t1 else t1] =>
    set (t2 := if b then bootstrapDevice i v t1 else t1);
    assert (extends t1 t2 /\ noNamespaces (tkState t2) = noNamespaces (tkState t1)) as [X2 Hns]
      by (subst t2; destruct b; [split; [auto|unfold bootstrapDevice; by destruct (trackedDevice _ _)]
                                |by split])
  end.
  exists t2. split; [|done]. cbn [orb andb negb]. unfold quiet. rewrite andb_true_r.
  destruct (renders e) eqn:Hr; cbn [orb andb negb].
  - destruct (cv_device _ _ _ Hcv d st Hd Hst Hr) as (prev & Hp & Hh & Hrd).
    assert (trackedDevice t2 (edID d) = Some prev) as -> by by apply (ext_device t t2); [etrans|].
    rewrite Hh. cbn [orb]. rewrite andb_false_r. destruct (hasReady e d); cbn [andb]; [|done].
    by rewrite (Hrd eq_refl), bool_decide_true.
  - rewrite andb_false_r. destruct (hasReady e d) eqn:Hh; [|done].
    apply hasReady_renders in Hh. congruence.
Qed.

Lemma observeDevices_quiet byName ds t1 :
  (forall d st, d ∈ devices -> desiredState e d = Ok st -> deviceUp e view t byName d st) ->
  (forall d, d ∈ ds -> d ∈ devices) -> extends t t1 ->
  exists os t2, observeDevices e top byName false ds t1 = Ok (os, t2) /\ extends t1 t2 /\
    noNamespaces (tkState t2) = noNamespaces (tkState t1) /\
    (forall p, p ∈ os -> p.1 ∈ devices /\ exists st, desiredState e p.1 = Ok st /\ p.2 = quiet st).
Proof using Hrt Hpr Hrec Hcv Hsh.
  intros Hup. revert t1. induction ds as [|d ds IH]; intros t1 Hds X; cbn [observeDevices].
  { exists [], t1. split_and!; [done|reflexivity|done|by intros p ?%not_elem_of_nil]. }
  assert (d ∈ devices) as Hd by (apply Hds; left).
  destruct (cv_desired _ _ _ Hcv d Hd) as [st Hst].
  destruct (observeDevice_quiet byName d st t1) as (t2 & -> & X2 & N2); auto.
  destruct (IH t2) as (os & t3 & -> & X3 & N3 & Hos); [intros d' Hd'; apply Hds; by right|by etrans|].
  exists ((d, quiet st) :: os), t3. split_and!; [done|by etrans|congruence|].
  intros p [->|Hp]%elem_of_cons; [simpl; eauto|by apply Hos].
Qed.

Lemma controlSplits_none byName os :
  (forall d st, d ∈ devices -> desiredState e d = Ok st -> deviceUp e view t byName d st) ->
  (forall p, p ∈ os -> p.1 ∈ devices /\ exists st, desiredState e p.1 = Ok st /\ p.2 = quiet st) ->
  controlSplits e view byName os = Ok ∅.
Proof using Hrt Hpr Hrec Hcv Hsh.
  intros Hup. induction os as [|[d o] os IH]; intros Hos; [done|]. cbn [controlSplits].
  rewrite IH by (intros p Hp; apply Hos; by right).
  destruct (Hos (d, o)) as (Hd & st & Hst & Ho); [left|]. simpl in *. subst o. simpl.
  rewrite Hrt. simpl. destruct (Hup d st Hd Hst) as [(c & n & Hc & _ & _ & _ & Hn & Hk & _ & Hctl)].
  rewrite Hc. destruct (fsControl (dsSpecs st)) as [want|]; [|done].
  destruct (Hctl want eq_refl) as (k & -> & _ & _ & _ & Hkn).
  unfold observedIdentity. by rewrite Hpr, Hn, Hkn, SameAs_refl.
Qed.

Lemma nothing_replaced byName t1 :
  (forall d st, d ∈ devices -> desiredState e d = Ok st -> deviceUp e view t byName d st) ->
  noNamespaces (tkState t1) = noNamespaces (tkState t) ->
  replacedDevices e view byName t1 devices ∅ = ∅.
Proof using Hrt Hpr Hrec Hcv Hsh.
  intros Hup Hns. apply set_eq. intros id. split; [|set_solver]. unfold replacedDevices.
  intros [H|H]%elem_of_union; [done|]. apply elem_of_list_to_set, elem_of_map_filter in H.
  destruct H as (d & -> & Hd & Hrep). exfalso.
  destruct (cv_desired _ _ _ Hcv d Hd) as [st Hst].
  destruct (Hup d st Hd Hst) as [(c & n & Hc & Hj & _ & _ & Hn & Hk & Hold & _)].
  unfold namespaceReplaced, observedIdentity, trackedNamespace in *. rewrite Hrt, Hpr, Hns, Hc in Hrep.
  simpl in Hrep. destruct (noNamespaces (tkState t) !! edID d) as [m|] eqn:Em; [|done].
  apply andb_prop in Hrep as [Hrep Hid]. apply andb_prop in Hrep as [Hm _].
  rewrite Hn, (Hold m eq_refl Hm) in Hid. by rewrite SameAs_refl in Hid.
Qed.

Lemma quiet_stays os :
  (forall p, p ∈ os -> p.1 ∈ devices /\ exists st, desiredState e p.1 = Ok st /\ p.2 = quiet st) ->
  map (probed e top view) (map (adjust e top ∅ ∅) os) = os.
Proof using Hrt Hpr Hrec Hcv Hsh.
  induction os as [|[d o] os IH]; intros Hos; [done|]. simpl.
  rewrite IH by (intros p Hp; apply Hos; by right). f_equal.
  destruct (Hos (d, o)) as (_ & st & _ & Ho); [left|]. simpl in Ho. subst o. simpl.
  rewrite (bool_decide_false (edID d ∈ _)) by set_solver. simpl.
  rewrite (sh_probes _ _ _ _ Hsh d), bool_decide_false by (by intros []). by rewrite andb_false_r.
Qed.

Lemma quiet_ids f os :
  (forall st, f (quiet st) = false) ->
  (forall p, p ∈ os -> p.1 ∈ devices /\ exists st, desiredState e p.1 = Ok st /\ p.2 = quiet st) ->
  idsWhere f os = ∅.
Proof using Hrt Hpr Hrec Hcv Hsh.
  intros Hf Hos. apply set_eq. intros id. split; [|set_solver].
  intros (p & Hp & H & _)%elem_of_idsWhere. destruct (Hos p Hp) as (_ & st & _ & Ho).
  rewrite Ho, Hf in H. done.
Qed.

Lemma hashLinks_total ls : (forall l, l ∈ ls -> l ∈ nodeLinks e top) -> exists hs, hashLinks e ls = Ok hs.
Proof using Hrt Hpr Hrec Hcv Hsh.
  induction ls as [|l ls IH]; intros Hls; simpl; [eauto|].
  destruct (cv_link _ _ _ Hcv l) as (h & -> & _); [apply Hls; left|].
  destruct IH as [hs ->]; [intros l' Hl'; apply Hls; by right|]. eauto.
Qed.

Lemma observeLinks_quiet byName hs t1 :
  (forall l h, (l, h) ∈ hs -> l ∈ nodeLinks e top /\ bdWireHash e l = Ok h) -> extends t t1 ->
  exists t2, observeLinks e top byName false ∅ ∅ hs t1 = (∅, t2) /\ extends t1 t2.
Proof using Hrt Hpr Hrec Hcv Hsh.
  revert t1. induction hs as [|[l h] hs IH]; intros t1 Hhs X; cbn [observeLinks].
  { exists t1. by split. }
  destruct (Hhs l h) as [Hl Hh]; [left|]. destruct (cv_link _ _ _ Hcv l Hl) as (h' & Hh' & Ht).
  assert (h' = h) as -> by congruence.
  destruct (observeLink e top byName false ∅ ∅ l h t1) as [dirty t2] eqn:E.
  destruct (observeLink_spec _ _ _ _ _ _ _ _ _ _ _ E) as (X2 & _).
  destruct (IH t2) as (t3 & -> & X3); [intros l' h'' H; apply Hhs; by right|by etrans|].
  exists t3. split; [|by etrans]. assert (dirty = false) as ->; [|done].
  unfold observeLink in E. injection E as <- Et.
  assert (endpointCreate e ∅ l = false) as Hc.
  { unfold endpointCreate, endCreated.
    rewrite (bool_decide_false (enDevice (lkA l) ∈ ∅)), (bool_decide_false (enDevice (lkB l) ∈ ∅))
      by apply not_elem_of_empty. by rewrite !andb_false_r. }
  rewrite Hc in *. simpl in *. rewrite Et. rewrite (ext_link t t2 ltac:(by etrans) _ _ Ht).
  rewrite bool_decide_true by done.
  rewrite (bool_decide_false (lkVNI l ∈ ∅)) by apply not_elem_of_empty. by rewrite andb_false_r.
Qed.

Lemma modeDirty_same t1 : noMode (tkState t1) = noMode (tkState t) -> modeDirtyOf e t1 = false.
Proof using Hrt Hpr Hrec Hcv Hsh.
  intros H. pose proof (cv_mode _ _ _ Hcv) as Hm. unfold modeDirtyOf in *. by rewrite H.
Qed.

Lemma saved_again t1 :
  exists file t2, (if bdReadOnly e then (vwFile view, t1, None)
                   else saveLocked (vwWrite view) (vwFile view) t1) = (file, t2, None) /\
    tkState t2 = tkState t1.
Proof using Hrt Hpr Hrec Hcv Hsh.
  destruct (bdReadOnly e); [by eexists _, _|]. unfold saveLocked. rewrite (sh_write _ _ _ _ Hsh).
  destruct (negb _); by eexists _, _.
Qed.

Lemma lost_none ds : expandLostStateToPeers e ds ∅ = ∅.
Proof using Hrt Hpr Hrec Hcv Hsh.
  unfold expandLostStateToPeers. assert (lostPeers e ds ∅ = []) as ->; [|set_solver].
  unfold lostPeers. induction ds as [|d ds IH]; simpl; [done|].
  by rewrite bool_decide_false by apply not_elem_of_empty.
Qed.

(** The links and the record at the end of an observation. *)
Lemma observe_rest byName t1 hs :
  extends t t1 -> hashLinks e (nodeLinks e top) = Ok hs ->
  exists t2 file t3, observeLinks e top byName false ∅ ∅ hs t1 = (∅, t2) /\
    (let t4 := pruneRecord (list_to_set (map edID devices))
                 (list_to_set (map lkID (nodeLinks e top))) t2 in
     if bdReadOnly e then (vwFile view, t4, None)
     else saveLocked (vwWrite view) (vwFile view) t4) = (file, t3, None) /\
    modeDirtyOf e t3 = false.
Proof using Hrt Hpr Hrec Hcv Hsh.
  intros X Hh. destruct (hashLinks_spec _ _ _ Hh) as [Hm Hf]. rewrite Forall_forall in Hf.
  destruct (observeLinks_quiet byName hs t1) as (t2 & E & X2); [|done|].
  { intros l h Hin. split; [|by apply (Hf (l, h))]. rewrite <- Hm.
    by apply (list_elem_of_fmap_2 fst hs (l, h)). }
  destruct (saved_again (pruneRecord (list_to_set (map edID devices))
              (list_to_set (map lkID (nodeLinks e top))) t2)) as (file & t3 & Es & Hst).
  exists t2, file, t3. split_and!; [done|done|]. apply modeDirty_same. rewrite Hst. simpl.
  by rewrite (ext_mode _ _ X2), (ext_mode _ _ X).
Qed.

Lemma observe_again :
  onDisk e top (vwFile view) t ->
  exists ob, observeNode e top view devices = Ok ob /\ ovDiff ob = emptyDiff /\ ovLost ob = ∅ /\
             modeDirtyOf e (ovTracker ob) = false.
Proof using Hrt Hpr Hrec Hcv Hsh.
  intros Hfile. unfold observeNode. unfold onDisk in Hfile. rewrite Hfile. simpl.
  destruct (sh_containers _ _ _ _ Hsh) as (cs & Hcs & Hup).
  unfold containersOf. rewrite Hrt, Hcs. simpl. rewrite (sh_overlays _ _ _ _ Hsh). simpl.
  rewrite !(sh_context _ _ _ _ Hsh). simpl. rewrite (cv_mode _ _ _ Hcv).
  destruct (observeDevices_quiet (byNameOf cs) devices t) as (os & t1 & -> & X1 & N1 & Hos);
    [done|done|reflexivity|]. simpl.
  rewrite (controlSplits_none (byNameOf cs) os Hup Hos). simpl.
  rewrite (nothing_replaced (byNameOf cs) t1 Hup N1), lost_none, (quiet_stays os Hos).
  assert (forall b : bool, (if b then @None string else None) = None) as Hnone by (by intros []).
  rewrite Hnone. simpl.
  destruct (settleNamespaceBaselines e view (byNameOf cs) ∅ os t1) as [t2 doubts] eqn:Es.
  pose proof (settle_extends e view (byNameOf cs) ∅ os t1) as X2. rewrite Es in X2. simpl in X2 |- *.
  destruct (hashLinks_total (nodeLinks e top)) as [hs Hhs]; [done|]. rewrite Hhs. simpl.
  rewrite !(quiet_ids _ os) by done.
  destruct (observe_rest (byNameOf cs) t2 hs) as (t3 & file & t4 & -> & Ew & Hmode);
    [by etrans|done|]. cbv zeta in Ew. rewrite Ew. simpl. by eexists.
Qed.

Lemma build_again :
  onDisk e top (vwFile view) t -> devices <> [] ->
  exists ob, BuildContext e top view = Ok (New, Some ob) /\ ovDiff ob = emptyDiff.
Proof using Hrt Hpr Hrec Hcv Hsh.
  intros Hfile Hne. destruct (observe_again Hfile) as (ob & Hob & Hd & _ & Hm).
  exists ob. split; [|done]. unfold BuildContext. fold devices.
  destruct devices as [|d0 ds] eqn:Ed; [done|]. rewrite Hob, Hd, Hm. cbv zeta.
  generalize (d0 :: ds). intros l.
  destruct (List.find _ l) as [d|] eqn:Ef.
  { apply find_some in Ef as [_ Hc]. apply andb_prop in Hc as [Hc _].
    by apply bool_decide_eq_true, not_elem_of_empty in Hc. }
  assert (allWork e top emptyDiff l false = []) as ->; [|done].
  apply elem_of_nil_inv. intros w. rewrite elem_of_allWork. intros [Hw|[? _]]; [|done].
  assert (imagesOf emptyDiff l = []) as Hi.
  { apply elem_of_nil_inv. intros i. rewrite elem_of_imagesOf. by intros (d & _ & ?%not_elem_of_empty & _). }
  destruct w; simpl in Hw; rewrite ?Hi in Hw; set_solver.
Qed.
End Again.

(** C11. An ordinary deployment that is repeated does nothing. This is about a
    build that may write, on a node with a container runtime that can prove the
    identity of network namespaces, outside of recovery compatibility (which
    recreates every service device on each build, needed or not), of a topology
    whose devices and links have distinct names. When every step of the plan of
    a node has succeeded, in any order in which each step runs after the steps
    it needs, and the node is then looked at again and shows what was deployed
    (its containers running with the specifications they were given, in the
    namespaces on record, control planes beside their routers, overlays as
    expected and no probe reporting drift), the next build reads back the
    record the steps wrote and gives the empty plan with an empty difference. *)
Theorem redeploy_is_noop e top view p ob du run file t view' :
  NoDup (map edID (etDevices top)) -> NoDup (map lkID (etLinks top)) ->
  bdReadOnly e = false -> bdRuntime e = true -> bdProves e = true -> bdRecovery e = false ->
  BuildContext e top view = Ok (p, Some ob) ->
  run ≡ₚ allWork e top (ovDiff ob) (devicesOn top (bdNode e)) (modeDirtyOf e (ovTracker ob)) ->
  respects e (ovDiff ob) run ->
  runWorks e du ob run (ovFile ob, ovTracker ob) = Ok (file, t) ->
  vwFile view' = file -> showsDeployed e top view' t ->
  exists ob', BuildContext e top view' = Ok (New, Some ob') /\ ovDiff ob' = emptyDiff.
Proof.
  intros Hdev Hlink Hro Hrt Hpr Hrec Hb Hrun Hord Hdone <- Hsh.
  destruct (run_converges e top view p ob du run (vwFile view') t) as [Hcv Hdisk]; [done..|].
  apply (build_again e top view' t); try done. intros Hnil.
  unfold BuildContext in Hb. by rewrite Hnil in Hb.
Qed.

(** ** Witnesses: a router and a host of a student AS on one node *)

Fixpoint respectsFrom (e : Build) (diff : BuildDiff) (seen : list string) (l : list Work) : bool :=
  match l with
  | [] => true
  | w :: r => forallb (fun n => bool_decide (n ∈ seen)) (sNeeds (stepOf e diff w))
              && respectsFrom e diff (seen ++ [workID e diff w]) r
  end.

Lemma respectsFrom_ok e diff seen l pre w post :
  respectsFrom e diff seen l = true -> l = pre ++ w :: post ->
  forall n, n ∈ sNeeds (stepOf e diff w) -> n ∈ seen ++ map (workID e diff) pre.
Proof.
  revert seen pre. induction l as [|v l IH]; intros seen pre; simpl; [by destruct pre|].
  intros [Hv Hl]%andb_prop Heq n Hn. destruct pre as [|v' pre]; simpl in Heq; injection Heq as -> Heq.
  - rewrite forallb_forall in Hv. apply list_elem_of_In, Hv, bool_decide_eq_true in Hn.
    apply elem_of_app. by left.
  - pose proof (IH _ _ Hl Heq n Hn) as H. by rewrite <- app_assoc in H.
Qed.

Definition demoEnd (i d c : string) : End := mkEnd i d 1 "n1" c.
Definition demoWire : ELink := mkELink "l1" 0 (demoEnd "eth0" "r1" "lab-r1") (demoEnd "eth0" "h1" "lab-h1") false.
Definition demoRouter : EDevice :=
  mkEDevice "r1" KindRouter 1 "n1" "lab-r1" "frr:9" "" [mkEIface "eth0" false "" "" (Some demoWire)].
Definition demoHost : EDevice :=
  mkEDevice "h1" KindHost 1 "n1" "lab-h1" "host:1" "" [mkEIface "eth0" false "" "" (Some demoWire)].
Definition demoTop : ETop :=
  mkETop "lab" "hash" [demoHost; demoRouter] [demoWire] {[1%Z := RoleStudent]}.
Definition demoRenderer : Renderer :=
  mkRenderer (fun d => Ok (mkRendered ("config-" +:+ edID d) "file" "command" "ready")) (fun _ => true).
Definition demoBuild : Build :=
  mkBuild "n1" "platform" false false true true (Some demoRenderer)
    (fun d => Ok (mkFinalSpec ("spec-" +:+ edID d)
                    (if UsesFRRControl d then Some ("control-" +:+ edID d) else None)))
    true (fun l => Ok ("wire-" +:+ lkID l)).
(** An empty node. *)
Definition demoView : View :=
  mkView FileMissing (Ok []) (Ok ([], [])) (Ok ([], [])) (fun _ => Err Unsupported)
    (fun _ => None) (fun _ => Err "no state") (fun _ => None) None.
Definition demoObserved : Observed :=
  match BuildContext demoBuild demoTop demoView with
  | Ok (_, Some ob) => ob
  | _ => mkObservedNode (newObservationTracker "" "") [] emptyDiff ∅ ∅ FileMissing
  end.
Definition demoBuilt : Plan :=
  match BuildContext demoBuild demoTop demoView with Ok (p, _) => p | _ => New end.
Definition demoRun : list Work :=
  allWork demoBuild demoTop (ovDiff demoObserved) (devicesOn demoTop "n1")
    (modeDirtyOf demoBuild (ovTracker demoObserved)).
Definition demoNetns (d : EDevice) : NetnsIdentity :=
  mkNetns 4 (if decide (edID d = "r1") then 100 else 200)%Z.
Definition demoDuring : During :=
  mkDuring (fun _ => None) (fun _ => false) (fun d _ => Ok (demoNetns d)) (fun _ _ => None)
    (fun _ _ => None).
Definition demoDisk : Disk :=
  match runWorks demoBuild demoDuring demoObserved demoRun (ovFile demoObserved, ovTracker demoObserved) with
  | Ok s => s
  | Err _ => (FileMissing, newObservationTracker "" "")
  end.
Definition demoContainer (name spec : string) : Container :=
  mkContainer name StateRunning
    {[LabelSpec := spec; LabelRuntimeContract := runtimeSpecContractVersion]}.
(** The node after the deployment; [moved] says the router came back in
    another namespace. *)
Definition demoAfter (moved : bool) : View :=
  mkView demoDisk.1
    (Ok [demoContainer "lab-r1" "spec-r1"; demoContainer "lab-r1-frr" "control-r1";
         demoContainer "lab-h1" "spec-h1"])
    (Ok ([], [])) (Ok ([], []))
    (fun c => Ok (if decide (ctName c = "lab-h1") then mkNetns 4 200
                  else mkNetns 4 (if moved then 101 else 100)))
    (fun _ => None) (fun _ => Err "no state") (fun _ => None) None.

Lemma demo_built :
  BuildContext demoBuild demoTop demoView = Ok (demoBuilt, Some demoObserved) /\
  order demoBuilt = ["image:frr:9"; "verify-image:frr:9"; "image:host:1"; "verify-image:host:1";
    "create:h1"; "create:r1"; "wire:l1"; "configure:h1"; "configure:r1"; "ready:h1"; "ready:r1";
    "record-mode"].
Proof. split; vm_compute; reflexivity. Qed.

Lemma demo_ids : NoDup (map edID (etDevices demoTop)) /\ NoDup (map lkID (etLinks demoTop)).
Proof. split; (eapply bool_decide_unpack; vm_compute; exact I). Qed.

Lemma demo_cases d : d ∈ devicesOn demoTop "n1" -> d = demoHost \/ d = demoRouter.
Proof.
  intros Hd. assert (devicesOn demoTop "n1" = [demoHost; demoRouter]) as Heq by (vm_compute; reflexivity).
  rewrite Heq, elem_of_cons, list_elem_of_singleton in Hd. done.
Qed.

Lemma demo_shows : showsDeployed demoBuild demoTop (demoAfter false) demoDisk.2.
Proof.
  split; [|vm_compute; reflexivity|done|done|done]. eexists. split; [reflexivity|].
  intros d st Hd Hst. destruct (demo_cases d Hd) as [-> | ->]; vm_compute in Hst;
    injection Hst as <-; split; eexists _, _;
    (split; [vm_compute; reflexivity|]); (split; [vm_compute; reflexivity|]);
    (split; [vm_compute; reflexivity|]); (split; [vm_compute; reflexivity|]);
    (split; [vm_compute; reflexivity|]); (split; [vm_compute; reflexivity|]);
    (split; [intros m Hm _; vm_compute in Hm; injection Hm as <-; reflexivity|]);
    intros want Hw; vm_compute in Hw; try discriminate; injection Hw as <-.
  eexists. repeat (split; [vm_compute; reflexivity|]). vm_compute. reflexivity.
Qed.

Lemma redeploy_is_noop_witness :
  exists ob', BuildContext demoBuild demoTop (demoAfter false) = Ok (New, Some ob') /\
              ovDiff ob' = emptyDiff.
Proof.
  apply (redeploy_is_noop demoBuild demoTop demoView demoBuilt demoObserved demoDuring demoRun
           demoDisk.1 demoDisk.2 (demoAfter false)).
  - exact (proj1 demo_ids).
  - exact (proj2 demo_ids).
  - reflexivity.
  - reflexivity.
  - reflexivity.
  - reflexivity.
  - exact (proj1 demo_built).
  - reflexivity.
  - intros pre w post Heq n Hn.
    exact (respectsFrom_ok demoBuild (ovDiff demoObserved) [] demoRun pre w post
             ltac:(vm_compute; reflexivity) Heq n Hn).
  - vm_compute. reflexivity.
  - reflexivity.
  - exact demo_shows.
Defined.

Lemma every_built_plan_is_valid_witness : wfPlan demoBuilt /\ acyclic demoBuilt.
Proof.
  pose proof (every_built_plan_is_valid demoBuild demoTop demoView (proj1 demo_ids) (proj2 demo_ids)) as H.
  rewrite (proj1 demo_built) in H. destruct H as (H1 & _ & H2 & _). exact (conj H1 H2).
Defined.

Lemma touched_work_is_captured_witness : "r1" ∈ DirtyCaptureDevices (ovDiff demoObserved).
Proof.
  apply (touched_work_is_captured demoBuild demoTop demoView demoBuilt demoObserved (proj1 demo_ids)
           (proj2 demo_ids) (proj1 demo_built) demoRouter).
  - apply list_elem_of_In. vm_compute. tauto.
  - vm_compute. reflexivity.
  - left. apply list_elem_of_In. vm_compute. tauto.
Defined.

(** The router restarted in another namespace. *)
Definition demoMoved : Plan * Observed :=
  match BuildContext demoBuild demoTop (demoAfter true) with
  | Ok (p, Some ob) => (p, ob)
  | _ => (New, demoObserved)
  end.

Lemma replaced_namespace_is_rebuilt_witness :
  "create:r1" ∈ order demoMoved.1 /\ "wire:l1" ∈ order demoMoved.1 /\
  "configure:h1" ∈ order demoMoved.1 /\ "ready:h1" ∈ order demoMoved.1.
Proof.
  assert (BuildContext demoBuild demoTop (demoAfter true) = Ok (demoMoved.1, Some demoMoved.2)) as Hb
    by (vm_compute; reflexivity).
  destruct (replaced_namespace_is_rebuilt demoBuild demoTop (demoAfter true) demoMoved.1 demoMoved.2
    (proj1 demo_ids) (proj2 demo_ids) Hb
    [demoContainer "lab-r1" "spec-r1"; demoContainer "lab-r1-frr" "control-r1";
     demoContainer "lab-h1" "spec-h1"] demoDisk.2 demoRouter (demoContainer "lab-r1" "spec-r1")
    (mkNetns 4 100)) as (Hc & Hw & Hd).
  - reflexivity.
  - reflexivity.
  - reflexivity.
  - vm_compute. reflexivity.
  - apply list_elem_of_In. vm_compute. tauto.
  - vm_compute. reflexivity.
  - vm_compute. reflexivity.
  - vm_compute. reflexivity.
  - reflexivity.
  - vm_compute. discriminate.
  - split; [exact Hc|]. split.
    + apply (Hw demoWire); [apply list_elem_of_In; vm_compute; tauto|left; split; reflexivity].
    + destruct (Hd demoHost) as [H1 H2]; [apply list_elem_of_In; vm_compute; tauto| |].
      * right. exists (mkEIface "eth0" false "" "" (Some demoWire)), demoWire.
        repeat split; try (vm_compute; reflexivity). apply list_elem_of_In. vm_compute. tauto.
      * split; [exact H1|exact (H2 eq_refl)].
Defined.
